(* ===== verification/_CoqProject ===== *)
-Q . S2P
Prelude.v
SchedulerStateMachine.v
Scheduler.v
SchedulerProtocol.v
SchedulerProperties.v
IdAllocator.v
Tokens.v
FencedAllocator.v
CommandBufferCommon.v
SharedState.v
RingBuffer.v
CommandFormat.v
CommandParser.v
CommonDecoder.v
CommandBufferInterface.v
CommandBufferHelper.v
CommandBufferClient.v
CommandBufferService.v
GpuSchedulerProperties.v
ServiceTrace.v
EndToEnd.v
WebSocketFrame.v
WebSocketFrameParser.v
WebSocketRoundTrip.v
WebSocketBasicStream.v
WebSocketMessages.v
Bits.v
HpackConstants.v
HpackOutputStream.v
HpackInputStream.v
HpackHuffmanTable.v
HpackHuffmanCode.v
HpackHuffmanDecode.v
HpackHeaderTable.v
HpackTableInvariant.v
HpackTableSpec.v
SpdyHeaderBlock.v
HpackEncoder.v
HpackDecoder.v
HpackWire.v
HpackSync.v
HpackTransmit.v
HpackMessages.v
HpackSession.v
HpackSafety.v
Utf8Validator.v
WebSocketChannelState.v
WebSocketChannel.v
WebSocketChannelLog.v
WebSocketChannelInvariant.v
WebSocketChannelWrite.v
WebSocketChannelRead.v
WebSocketChannelCalls.v
WebSocketChannelSafety.v
WebSocketStreamContract.v
WebSocketExtension.v
WebSocketDeflateParameters.v
Zlib.v
WebSocketInflater.v
WebSocketDeflater.v
WebSocketDeflateStream.v
WebSocketDeflateReading.v
WebSocketDeflateMessages.v
WebSocketDeflateWriting.v
