(* ===== verification/Prelude.v ===== *)
(** * Chromium: verification of parts of the compositor, the GPU command buffer,
    the WebSocket code and the header compression of HTTP/2

    The repository is a Chromium source tree.  This library models the parts of it that
    are self-contained algorithms and state machines, as they are written, and proves what
    makes them correct.  File names below are those of src/.

    ** How the program is modelled

    A method that can fail a [DCHECK] or do what C++ leaves undefined (an index or an
    iterator out of range) returns an [outcome]; "returns" below means that it is [Done],
    with no check failed.  A member of a class is a field of a record of the same name, a
    method a function from the record to the record and the result.  Unsigned integers wrap
    ([u32], [u64]), [int32] arithmetic that can overflow is followed by [s32].  A loop whose
    recursion is not structural takes fuel; it is given one more than a number that the code
    bounds (the blocks, the ranges, the bytes, the entries), and the theorems prove that
    this is enough, so the loop ends.  What belongs to other code (the compositor's client,
    the service behind the helper, the decoder of a command, addresses in memory, clocks,
    the reads of a flag that another thread sets) is a parameter: a type class with its
    laws, or an argument.

    ** The parts

    - The compositor's scheduler (cc/scheduler).  SchedulerStateMachine.v: the state machine
      of scheduler_state_machine.cc, every predicate and transition.  Scheduler.v: the
      action loop of scheduler.cc, with a client that calls back in the middle of an
      action.  SchedulerProtocol.v: the state machine with its callers, as a step relation.
      SchedulerProperties.v: progress, and concrete runs.
    - The command buffer of the GPU process, client side (gpu/command_buffer/client and
      /common).  IdAllocator.v: ids of resources as a map of runs.  Tokens.v: the interface
      through which an allocator waits for the service.  FencedAllocator.v and RingBuffer.v:
      the two allocators of shared memory.  CommandBufferCommon.v, SharedState.v: the state
      that the service publishes, and the lock-free mechanism that publishes it.
      CommandFormat.v: commands as entries.  CommandBufferInterface.v: the interface to the
      service, with laws.  CommandBufferHelper.v: the helper that writes commands into the
      ring buffer.  CommandBufferClient.v: sequences of operations on it.
    - The command buffer, service side (gpu/command_buffer/service).  CommandParser.v: the
      parser over the ring.  CommonDecoder.v: the common commands and their buckets.
      CommandBufferService.v: transfer buffers, the service and its scheduler.
      GpuSchedulerProperties.v, ServiceTrace.v: what a flush executes.  EndToEnd.v: the
      helper, the service, the parser and the decoder put together.
    - WebSockets (net/websockets, base/big_endian.h).  WebSocketFrame.v: headers and masking.
      WebSocketFrameParser.v: the incremental parser.  WebSocketRoundTrip.v: frames written
      and read back.  WebSocketBasicStream.v: the stream that turns chunks into frames and
      frames into bytes.  WebSocketMessages.v: what it promises.
      Utf8Validator.v (base/i18n/streaming_utf8_validator): the table-driven validator of
      text messages.  The channel of websocket_channel.cc, between a stream and a renderer:
      WebSocketChannelState.v has its data, its surroundings and the monad of its methods;
      WebSocketChannel.v all its methods; WebSocketChannelLog.v its runs, and what the log
      of a run must be; WebSocketChannelInvariant.v the invariant, with a ghost state, and
      the rules of weakest preconditions; WebSocketChannelWrite.v, WebSocketChannelRead.v
      and WebSocketChannelCalls.v the methods that write, those that read and those that
      are called from outside; WebSocketChannelSafety.v what holds of every run;
      WebSocketStreamContract.v the stream as the channel needs it.
    - Compression of WebSocket messages, permessage-deflate (net/websockets).
      WebSocketExtension.v: the extensions of a header field and their parser.
      WebSocketDeflateParameters.v: the parameters of this one and the check of a server's
      answer.  Zlib.v: zlib, as a class with laws and a small codec that keeps them.
      WebSocketInflater.v, WebSocketDeflater.v: the two ends of zlib.
      WebSocketDeflateStream.v: the stream that compresses what a channel writes and
      decompresses what it reads; WebSocketDeflateReading.v: the frames it gives out;
      WebSocketDeflateMessages.v, WebSocketDeflateWriting.v: the messages that a reader gets
      and that a writer sends.
    - HPACK, the header compression of HTTP/2 (net/spdy/hpack, spdy_header_block).  Bits.v:
      numbers and bytes as bits.  HpackConstants.v: the opcodes, the Huffman code and the
      static table.  HpackOutputStream.v, HpackInputStream.v: bits, integers and strings.
      HpackHuffmanTable.v: the tables of the Huffman code, how they are built and used;
      HpackHuffmanCode.v, HpackHuffmanDecode.v: what they mean.  HpackHeaderTable.v: the
      static and the dynamic table with their ordered indices; HpackTableInvariant.v,
      HpackTableSpec.v: what they promise.  SpdyHeaderBlock.v: header sets.  HpackEncoder.v,
      HpackDecoder.v: the two ends.  HpackWire.v, HpackTransmit.v: each instruction, written
      and read; HpackSync.v: the two tables in step; HpackMessages.v: header sets as
      sequences of representations; HpackSession.v: encoder and decoder together;
      HpackSafety.v: the decoder on any input.

    The allocators use the helper through [TokenHelper]; the helper uses the service through
    [CommandBuffer], whose laws EndToEnd.v proves of the modelled service; the parser calls
    a handler through [AsyncAPIInterface], whose instance is the decoder, which itself
    reaches buffers and tokens through [CommandBufferEngine].  A channel meets its stream in
    the answers to its reads and writes, which are any that keep the contract of
    websocket_stream.h ([answers_ok]); WebSocketStreamContract.v proves that the modelled
    stream keeps it, and WebSocketDeflateReading.v that the stream of permessage-deflate keeps
    it on top of any that does.  That stream compresses through [Zlib], whose laws ([ZlibLaws])
    say what zlib.h documents, and asks a [WebSocketDeflatePredictor] what to compress, whose
    contract is [PredictorLaws].  An event may delete the channel; a method that then touches a member
    is undefined, so [Done] means that none does.

    ** What is proved

    - Scheduler.  The action loop ends within 33 actions whatever the client does (C18);
      under the protocol of the callers no check fails (C19); each frame sends at most one
      BeginMainFrame and swaps at most once (C32); a compositor that cannot draw drains its
      pipeline.  A frame is requested whenever one is needed; checkerboarding ends in
      a forced redraw, and that redraw draws.
    - Client memory.  [IdAllocator] refines a set of ids (C26); it is first fit, least above
      a bound, and frees exactly.  [FencedAllocator] keeps its block list consistent (C29),
      never hands out memory in use (C30) and finds memory if there is some; its rounding
      overflows for 15 sizes (C40).  [RingBuffer] likewise (C31).
    - Shared state.  A reader gets a state that was written as a whole, and no older than the
      last complete write (C13), in every interleaving of two threads.
    - Commands.  The ring buffer of the helper is a FIFO (C6), [Finish] drains it (C39),
      initialisation works or leaves the helper unusable; a command that would end at the
      end of the ring is lost in one case.  The parser is equivalent to executing
      the commands one by one (C28); a flush does that (C27) and survives whatever a client
      writes (C38), except for one put offset, with which it never ends.  The common
      commands never leave the memory they were given (C15), [GetAsStrings] is exact,
      data in buckets survives.  Together: after a [Finish] the decoder has executed
      exactly the commands the client issued, each once and in order (C1).
    - WebSocket frames and streams.  Masking by words is masking by bytes and its own inverse
      (C34); frames written and fed to a parser in any pieces come out unchanged (C11); the
      parser is safe on any input (C33).  Together with the streams at both ends, the
      messages survive, although the frames that carry them may not (C7).  On any bytes of a
      server the stream returns, and what it gives is what websocket_stream.h promises (C21).
    - WebSocket channels.  No call that the protocols of owner, stream and renderer allow
      fails a check or touches a deleted object, and each returns (C8).  The log of every run
      is as it must be (C3): what is sent is what the renderer gave, with Pongs for Pings and
      one Close at the end; what the renderer gets is what was read; quotas are kept in both
      directions; text is UTF-8.  While connected, nothing is forgotten (C9, C20); the states
      go forward, the members stay well formed (C37), Close codes and reasons make the
      round trip.  The validator accepts exactly UTF-8, in any pieces (C25).  Parser,
      stream and channel together: no server can break a channel (C2).
    - Compression.  Messages survive permessage-deflate, with any zlib and any predictor that
      keep their contracts (C5); whatever the other end sends, the stream on top of another
      keeps the contract of websocket_stream.h (C10).  The inflater gives what its input
      decodes to, whatever its buffers hold (C22); the deflater's messages can be told apart
      (C23).  The parser of extensions accepts exactly its grammar (C24), extensions make the
      round trip (C36), and so do the parameters; no answer of a server in ASCII fails a check,
      and what is accepted is valid (C35).
    - HPACK.  For any sequence of settings and header sets the decoder takes what the
      encoder writes, cut into frames anywhere, and hands out the same headers (C4); on any
      input and any order of calls no check of the decoder fails (C12).  The header table
      refines a sequence of headers of a bounded size (C14).  Decoding by tables is decoding
      code by code (C16), and strings survive the Huffman code (C17).

    Theorems without a number are further facts about a part, among them the concrete runs
    that show where the code and its comments differ.

    ** What is not modelled, and why

    SharedState.v takes atomic accesses as sequentially consistent.  The callbacks of the
    service to its owner, memory dumps, traces and times (other than the clock of the
    periodic flush) are left out, as is the scheduler's handling of begin frame sources and
    deadlines, which are timers.  A string of a header block is its bytes: the arena that
    holds them, and the lifetime of pointers into it, are not modelled.  Of a WebSocket
    channel the histograms, the logs and what is only passed on (protocols, origin, the
    request context, the contents of handshake and SSL infos) are left out, and the parsing
    of its URL is not modelled; the loops of its reads and writes have one unit of fuel for
    each answer that comes at once, and one or two more.  Of
    permessage-deflate zlib itself is a parameter, as third_party code; [EnumerateHeader] is
    a list of values; a buffer of 2 GB or more, which [IOBufferWithSize] does not take, is left
    out; and what the stream only passes on (Close, the protocol, the names of extensions) is
    not modelled.  A decompressed frame takes a byte at least, so the loop that makes frames has
    one unit of fuel more than there are bytes to come; the loops over buffers have one for each
    byte or block.  What is
    written with compression may reach the other stream in other frames, provided that they
    carry the same session and set no reserved bit but [reserved1] at the start of a message.
    Of the rest of the tree: v8, blink and third_party
    are other projects; content, chrome, components and ui are glue between processes and
    platforms; the GLES2 decoder is driven by a GL driver and mostly generated; cc outside of
    the scheduler, net outside of these files, url and base are large libraries of which only
    what these parts use is here. *)

From Stdlib Require Export ZArith Lia.
From Stdlib Require String Ascii.
From stdpp Require Export base list option relations numbers decidable.

#[global] Open Scope Z_scope.

(** ** Outcomes of code that contains DCHECK or CHECK

    A statement of the program either runs to its end, [Done v], or stops at a
    failing [DCHECK], [DCHECK_EQ], [CHECK] or [NOTREACHED], or at an operation
    that C++ leaves undefined (an index or an iterator out of range),
    [DcheckFailed]. *)
Inductive outcome (A : Type) : Type :=
  | Done (a : A)
  | DcheckFailed.
Arguments Done {A} a.
Arguments DcheckFailed {A}.

#[export] Instance outcome_ret : MRet outcome := @Done.
#[export] Instance outcome_bind : MBind outcome := λ A B f m,
  match m with
  | Done a => f a
  | DcheckFailed => DcheckFailed
  end.

#[export] Instance outcome_eq_dec `{EqDecision A} : EqDecision (outcome A).
Proof. solve_decision. Defined.

Definition DCHECK (b : bool) : outcome unit :=
  if b then Done tt else DcheckFailed.

Definition is_done {A} (m : outcome A) : bool :=
  match m with Done _ => true | DcheckFailed => false end.

(** ** Reasoning about outcomes *)

Lemma bind_done {A B} (m : outcome A) (f : A → outcome B) b :
  m ≫= f = Done b ↔ ∃ a, m = Done a ∧ f a = Done b.
Proof. split; [destruct m; naive_solver | by intros (a & -> & ?)]. Qed.

Lemma DCHECK_done b u : DCHECK b = Done u ↔ b = true.
Proof. destruct b, u; cbn; naive_solver. Qed.

Lemma Done_eq {A} (a b : A) : Done a = Done b ↔ a = b.
Proof. naive_solver. Qed.

Lemma is_done_bind {A B} (m : outcome A) (f : A → outcome B) :
  is_done (m ≫= f) = true ↔ ∃ a, m = Done a ∧ is_done (f a) = true.
Proof. split; [destruct m; naive_solver | by intros (a & -> & ?)]. Qed.

Lemma is_done_false {A} (m : outcome A) : is_done m = false → m = DcheckFailed.
Proof. by destruct m. Qed.

Lemma is_done_DCHECK b : is_done (DCHECK b) = b.
Proof. by destruct b. Qed.

(** [inv_done] turns a hypothesis [m = Done a] about a sequence of statements
    into the hypotheses that its checks held and its parts were done. *)
Ltac inv_done_step :=
  match goal with
  | H : Done _ = Done _ |- _ => apply (proj1 (Done_eq _ _)) in H
  | H : DcheckFailed = Done _ |- _ => discriminate H
  | H : Done _ = DcheckFailed |- _ => discriminate H
  | H : DCHECK _ = Done _ |- _ => apply (proj1 (DCHECK_done _ _)) in H
  | H : _ ≫= _ = Done _ |- _ =>
      let a := fresh "a" in let E := fresh "E" in
      apply (proj1 (bind_done _ _ _)) in H as (a & E & H)
  end.
Ltac inv_done := repeat inv_done_step.

(** Reduction steps as equations: the kernel compares no continuations. *)
Lemma DCHECK_true_bind {B} (f : unit → outcome B) : DCHECK true ≫= f = f tt.
Proof. reflexivity. Qed.
Lemma Done_bind {A B} (a : A) (f : A → outcome B) : Done a ≫= f = f a.
Proof. reflexivity. Qed.

Create Rewrite HintDb outcome.
#[export] Hint Rewrite @DCHECK_true_bind @Done_bind : outcome.

(** Run the statements at the head of the goal that are done. *)
Ltac step_done := autorewrite with outcome; cbv beta iota zeta.

(** Step over the first DCHECK of the goal, proving its condition with [tac]. *)
Ltac pass_DCHECK tac :=
  match goal with
  | |- context [DCHECK ?b ≫= ?f] =>
      let H := fresh in
      assert (b = true) as H by tac;
      replace (DCHECK b ≫= f) with (f tt) by (rewrite H; symmetry; apply DCHECK_true_bind);
      clear H; cbv beta
  end.

(** The same where the goal is an equation that starts with it. *)
Ltac pass_first_DCHECK tac :=
  match goal with
  | |- DCHECK ?b ≫= ?f = ?r =>
      let H := fresh in
      assert (b = true) as H by tac;
      rewrite H; rewrite DCHECK_true_bind; clear H; cbv beta
  end.

(** Boolean hypotheses as propositions. *)
Ltac prop_bools :=
  repeat match goal with
  | H : bool_decide _ = true |- _ => apply bool_decide_eq_true_1 in H
  | H : bool_decide _ = false |- _ => apply bool_decide_eq_false_1 in H
  | H : negb _ = true |- _ => apply negb_true_iff in H
  | H : negb _ = false |- _ => apply negb_false_iff in H
  | H : _ && _ = true |- _ => apply andb_true_iff in H as [? ?]
  | H : _ || _ = false |- _ => apply orb_false_iff in H as [? ?]
  | H : (_ <? _) = true |- _ => apply Z.ltb_lt in H
  | H : (_ <? _) = false |- _ => apply Z.ltb_ge in H
  | H : (_ <=? _) = true |- _ => apply Z.leb_le in H
  | H : (_ <=? _) = false |- _ => apply Z.leb_gt in H
  | H : (_ =? _) = true |- _ => apply Z.eqb_eq in H
  | H : (_ =? _) = false |- _ => apply Z.eqb_neq in H
  end.

(** Decide every comparison of the goal that [tac] can decide. *)
Ltac decide_tests tac :=
  repeat match goal with
  | |- context [?a <? ?b] =>
      first [rewrite (proj2 (Z.ltb_lt a b)) by tac | rewrite (proj2 (Z.ltb_ge a b)) by tac]
  | |- context [?a <=? ?b] =>
      first [rewrite (proj2 (Z.leb_le a b)) by tac | rewrite (proj2 (Z.leb_gt a b)) by tac]
  | |- context [?a =? ?b] =>
      first [rewrite (proj2 (Z.eqb_eq a b)) by tac | rewrite (proj2 (Z.eqb_neq a b)) by tac]
  end.

(** Case analysis on every test of the goal and the hypotheses. *)
Ltac case_tests :=
  repeat match goal with
  | H : context [ bool_decide _ ] |- _ => case_bool_decide
  | |- context [ bool_decide _ ] => case_bool_decide
  | H : context [ if ?b then _ else _ ] |- _ => destruct b eqn:?
  | |- context [ if ?b then _ else _ ] => destruct b eqn:?
  end.

(** ** Unsigned 32-bit arithmetic

    [uint32], [unsigned int] and [ResourceId] are integers in [0, 2^32); an
    operation that can leave this interval is followed by [u32]. *)
Definition u32 (z : Z) : Z := z mod 4294967296.
Definition u32_max : Z := 4294967295.
Definition is_u32 (z : Z) : Prop := 0 <= z <= u32_max.

(** [size_t] and [uint64_t]. *)
Definition u64 (x : Z) : Z := x mod 18446744073709551616.

Lemma u32_small z : is_u32 z → u32 z = z.
Proof. unfold is_u32, u32_max, u32. intros. apply Z.mod_small. lia. Qed.

Lemma u64_small z : 0 <= z < 18446744073709551616 → u64 z = z.
Proof. apply Z.mod_small. Qed.

Lemma u32_range z : is_u32 (u32 z).
Proof.
  unfold is_u32, u32_max, u32.
  pose proof (Z.mod_pos_bound z 4294967296 ltac:(lia)). lia.
Qed.

(** [auto with machine] and [solve_u32] prove that a number is in range. *)
Ltac solve_u32 := unfold is_u32, u32_max in *; lia.
Create HintDb machine.
#[export] Hint Resolve u32_range : machine.
#[export] Hint Extern 5 (is_u32 _) => solve_u32 : machine.

(** The length of what list functions return: [autorewrite with lengths]. *)
Create Rewrite HintDb lengths.
#[export] Hint Rewrite @length_app @length_take @length_drop @length_replicate @length_map : lengths.

(** One wrap-around up or down, the only ones sums and differences of two
    [uint32] can have. *)
Lemma u32_cases z :
  -4294967296 <= z < 8589934592 →
  (0 <= z <= u32_max ∧ u32 z = z) ∨
  (u32_max < z ∧ u32 z = z - 4294967296) ∨
  (z < 0 ∧ u32 z = z + 4294967296).
Proof.
  unfold u32, u32_max. intros Hz.
  assert (0 <= z <= 4294967295 ∨ 4294967295 < z ∨ z < 0) as [H|[H|H]] by lia.
  - left. split; [done|]. apply Z.mod_small. lia.
  - right; left. split; [done|]. symmetry. apply (Z.mod_unique _ _ 1); lia.
  - right; right. split; [done|]. symmetry. apply (Z.mod_unique _ _ (-1)); lia.
Qed.

Lemma Z_ones_pow2 k : Z.ones k = 2 ^ k - 1.
Proof. rewrite Z.ones_equiv. lia. Qed.

(** Clearing the low bits rounds down to a multiple of a power of two. *)
Lemma land_lnot_ones z k : 0 <= k → Z.land z (Z.lnot (2 ^ k - 1)) = 2 ^ k * (z / 2 ^ k).
Proof.
  intros Hk. rewrite <- Z.ldiff_land, <- Z_ones_pow2, Z.ldiff_ones_r by done.
  rewrite Z.shiftl_mul_pow2, Z.shiftr_div_pow2 by done. lia.
Qed.

(** A low part and a shifted high part do not overlap. *)
Lemma lor_shiftl_add a b k : 0 <= k → 0 <= a < 2 ^ k → Z.lor a (Z.shiftl b k) = a + b * 2 ^ k.
Proof.
  intros Hk Ha. rewrite <- Z.shiftl_mul_pow2 by done.
  assert (Z.land a (Z.shiftl b k) = 0) as Hd.
  { apply Z.bits_inj'. intros n Hn. rewrite Z.land_spec, Z.shiftl_spec, Z.bits_0 by done.
    destruct (decide (n < k)) as [Hlt|Hge].
    - rewrite (Z.testbit_neg_r _ (n - k)), andb_false_r by lia. done.
    - rewrite <- (Z.mod_small a (2 ^ k)) by done. rewrite Z.mod_pow2_bits_high by lia. done. }
  rewrite <- Z.lxor_lor by done. symmetry. by apply Z.add_nocarry_lxor.
Qed.

(** Replace every [u32 z] by its value, splitting on wrap-around. *)
Ltac case_u32 :=
  repeat match goal with
  | |- context [u32 ?z] =>
      lazymatch z with context [u32 _] => fail | _ => idtac end;
      let E := fresh "E" in let v := fresh "w" in
      destruct (u32_cases z) as [[? E]|[[? E]|[? E]]];
      [unfold is_u32, u32_max in *; lia | rewrite ?E in *; clear E ..];
      unfold is_u32, u32_max in *; try lia
  | H : context [u32 ?z] |- _ =>
      lazymatch z with context [u32 _] => fail | _ => idtac end;
      let E := fresh "E" in
      destruct (u32_cases z) as [[? E]|[[? E]|[? E]]];
      [unfold is_u32, u32_max in *; lia | rewrite ?E in *; clear E ..];
      unfold is_u32, u32_max in *; try lia
  end.

(** [int32]: the same 32 bits read as a signed integer. *)
Definition s32 (z : Z) : Z := (z + 2147483648) mod 4294967296 - 2147483648.

Lemma s32_small z : -2147483648 <= z < 2147483648 → s32 z = z.
Proof. unfold s32. intros. rewrite Z.mod_small; lia. Qed.

(** ** Bytes

    A [char] is a byte, 0 to 255; where the code converts one to a wider integer, its
    sign is extended. *)
Definition byte_ok (b : Z) : Prop := 0 <= b < 256.
Definition signed_char (b : Z) : Z := if b <? 128 then b else b - 256.

(** The bytes of a string literal. *)
Definition chars (s : String.string) : list Z :=
  List.map (λ c, Z.of_N (Ascii.N_of_ascii c)) (String.list_ascii_of_string s).

(** [uint8]. *)
Definition u8 (z : Z) : Z := z mod 256.

Lemma u8_small z : 0 <= z < 256 → u8 z = z.
Proof. apply Z.mod_small. Qed.

Lemma u8_byte z : byte_ok (u8 z).
Proof. apply Z.mod_pos_bound. lia. Qed.
#[export] Hint Resolve u8_byte : machine.

(** ** Record update

    [r <| f := v |>] is [r] with field [f] replaced by [v].  Every record type
    that is updated gives its [Eta] expansion; the setter of a field is computed
    from it at elaboration. *)
Class Eta (R : Type) := eta : R → R.
Class SetField {R T : Type} (proj : R → T) := set_field : T → R → R.
Arguments set_field {R T} proj {_} v r.

Ltac mk_setter :=
  match goal with
  | |- SetField (R:=?R) ?p =>
      let inst := constr:(_ : Eta R) in
      let v := fresh in let r := fresh in
      intros v r;
      let t := eval red in (inst r) in
      let t := eval cbv beta delta [eta] in t in
      let f := match eval pattern (p r) in t with ?f _ => f end in
      let t' := eval cbv beta in (f v) in
      exact t'
  end.
#[export] Hint Extern 0 (SetField _) => mk_setter : typeclass_instances.

Declare Scope record_scope.
#[global] Open Scope record_scope.
Notation "r <| f := v |>" := (set_field f v r)
  (at level 1, left associativity, format "r  <| f  :=  v |>") : record_scope.
