(* ===== verification/SchedulerStateMachine.v ===== *)
(** * cc/scheduler/scheduler_state_machine.{h,cc}

    The compositor's [SchedulerStateMachine]: its settings, its state, the
    predicates that decide the next action and the operations that update the
    state.  A method that contains a [DCHECK] returns an [outcome]; a [const]
    method without one is a plain function.  [int] members are [Z]: they are
    counters of frames, swaps and commits that the code never lets wrap. *)

From S2P Require Import Prelude.
From Stdlib Require Import String.

#[local] Open Scope string_scope.
#[local] Open Scope Z_scope.

(** ** Settings (scheduler_settings.h) *)

Record SchedulerSettings : Type := mkSchedulerSettings {
  use_external_begin_frame_source : bool;
  main_frame_while_swap_throttled_enabled : bool;
  main_frame_before_activation_enabled : bool;
  commit_to_active_tree : bool;
  timeout_and_draw_when_animation_checkerboards : bool;
  using_synchronous_renderer_compositor : bool;
  throttle_frame_production : bool;
  maximum_number_of_failed_draws_before_draw_is_forced : Z;
  (* base::TimeDelta, in microseconds *)
  background_frame_interval : Z
}.

Definition default_SchedulerSettings : SchedulerSettings :=
  {| use_external_begin_frame_source := false;
     main_frame_while_swap_throttled_enabled := false;
     main_frame_before_activation_enabled := false;
     commit_to_active_tree := false;
     timeout_and_draw_when_animation_checkerboards := true;
     using_synchronous_renderer_compositor := false;
     throttle_frame_production := true;
     maximum_number_of_failed_draws_before_draw_is_forced := 3;
     background_frame_interval := 1000000 |}.

(** ** Enumerations *)

Inductive OutputSurfaceState : Type :=
  | OUTPUT_SURFACE_NONE
  | OUTPUT_SURFACE_ACTIVE
  | OUTPUT_SURFACE_CREATING
  | OUTPUT_SURFACE_WAITING_FOR_FIRST_COMMIT
  | OUTPUT_SURFACE_WAITING_FOR_FIRST_ACTIVATION.
#[export] Instance OutputSurfaceState_eq_dec : EqDecision OutputSurfaceState.
Proof. solve_decision. Defined.

Inductive BeginImplFrameState : Type :=
  | BEGIN_IMPL_FRAME_STATE_IDLE
  | BEGIN_IMPL_FRAME_STATE_BEGIN_FRAME_STARTING
  | BEGIN_IMPL_FRAME_STATE_INSIDE_BEGIN_FRAME
  | BEGIN_IMPL_FRAME_STATE_INSIDE_DEADLINE.
#[export] Instance BeginImplFrameState_eq_dec : EqDecision BeginImplFrameState.
Proof. solve_decision. Defined.

Inductive BeginImplFrameDeadlineMode : Type :=
  | BEGIN_IMPL_FRAME_DEADLINE_MODE_NONE
  | BEGIN_IMPL_FRAME_DEADLINE_MODE_IMMEDIATE
  | BEGIN_IMPL_FRAME_DEADLINE_MODE_REGULAR
  | BEGIN_IMPL_FRAME_DEADLINE_MODE_LATE
  | BEGIN_IMPL_FRAME_DEADLINE_MODE_BLOCKED_ON_READY_TO_DRAW.
#[export] Instance BeginImplFrameDeadlineMode_eq_dec : EqDecision BeginImplFrameDeadlineMode.
Proof. solve_decision. Defined.

Inductive BeginMainFrameState : Type :=
  | BEGIN_MAIN_FRAME_STATE_IDLE
  | BEGIN_MAIN_FRAME_STATE_SENT
  | BEGIN_MAIN_FRAME_STATE_STARTED
  | BEGIN_MAIN_FRAME_STATE_READY_TO_COMMIT
  | BEGIN_MAIN_FRAME_STATE_WAITING_FOR_ACTIVATION
  | BEGIN_MAIN_FRAME_STATE_WAITING_FOR_DRAW.
#[export] Instance BeginMainFrameState_eq_dec : EqDecision BeginMainFrameState.
Proof. solve_decision. Defined.

Inductive ForcedRedrawOnTimeoutState : Type :=
  | FORCED_REDRAW_STATE_IDLE
  | FORCED_REDRAW_STATE_WAITING_FOR_COMMIT
  | FORCED_REDRAW_STATE_WAITING_FOR_ACTIVATION
  | FORCED_REDRAW_STATE_WAITING_FOR_DRAW.
#[export] Instance ForcedRedrawOnTimeoutState_eq_dec : EqDecision ForcedRedrawOnTimeoutState.
Proof. solve_decision. Defined.

Inductive Action : Type :=
  | ACTION_NONE
  | ACTION_ANIMATE
  | ACTION_SEND_BEGIN_MAIN_FRAME
  | ACTION_COMMIT
  | ACTION_ACTIVATE_SYNC_TREE
  | ACTION_DRAW_AND_SWAP_IF_POSSIBLE
  | ACTION_DRAW_AND_SWAP_FORCED
  | ACTION_DRAW_AND_SWAP_ABORT
  | ACTION_BEGIN_OUTPUT_SURFACE_CREATION
  | ACTION_PREPARE_TILES
  | ACTION_INVALIDATE_OUTPUT_SURFACE.
#[export] Instance Action_eq_dec : EqDecision Action.
Proof. solve_decision. Defined.

Inductive DrawResult : Type :=
  | INVALID_RESULT
  | DRAW_SUCCESS
  | DRAW_ABORTED_CHECKERBOARD_ANIMATIONS
  | DRAW_ABORTED_MISSING_HIGH_RES_CONTENT
  | DRAW_ABORTED_CONTEXT_LOST
  | DRAW_ABORTED_CANT_DRAW.
#[export] Instance DrawResult_eq_dec : EqDecision DrawResult.
Proof. solve_decision. Defined.

Inductive CommitEarlyOutReason : Type :=
  | ABORTED_OUTPUT_SURFACE_LOST
  | ABORTED_NOT_VISIBLE
  | ABORTED_DEFERRED_COMMIT
  | FINISHED_NO_UPDATES.
#[export] Instance CommitEarlyOutReason_eq_dec : EqDecision CommitEarlyOutReason.
Proof. solve_decision. Defined.

(** ** Names used by tracing *)

Definition OutputSurfaceStateToString (state : OutputSurfaceState) : string :=
  match state with
  | OUTPUT_SURFACE_NONE => "OUTPUT_SURFACE_NONE"
  | OUTPUT_SURFACE_ACTIVE => "OUTPUT_SURFACE_ACTIVE"
  | OUTPUT_SURFACE_CREATING => "OUTPUT_SURFACE_CREATING"
  | OUTPUT_SURFACE_WAITING_FOR_FIRST_COMMIT => "OUTPUT_SURFACE_WAITING_FOR_FIRST_COMMIT"
  | OUTPUT_SURFACE_WAITING_FOR_FIRST_ACTIVATION => "OUTPUT_SURFACE_WAITING_FOR_FIRST_ACTIVATION"
  end.

Definition BeginImplFrameStateToString (state : BeginImplFrameState) : string :=
  match state with
  | BEGIN_IMPL_FRAME_STATE_IDLE => "BEGIN_IMPL_FRAME_STATE_IDLE"
  | BEGIN_IMPL_FRAME_STATE_BEGIN_FRAME_STARTING => "BEGIN_IMPL_FRAME_STATE_BEGIN_FRAME_STARTING"
  | BEGIN_IMPL_FRAME_STATE_INSIDE_BEGIN_FRAME => "BEGIN_IMPL_FRAME_STATE_INSIDE_BEGIN_FRAME"
  | BEGIN_IMPL_FRAME_STATE_INSIDE_DEADLINE => "BEGIN_IMPL_FRAME_STATE_INSIDE_DEADLINE"
  end.

Definition BeginImplFrameDeadlineModeToString (state : BeginImplFrameDeadlineMode) : string :=
  match state with
  | BEGIN_IMPL_FRAME_DEADLINE_MODE_NONE => "BEGIN_IMPL_FRAME_DEADLINE_MODE_NONE"
  | BEGIN_IMPL_FRAME_DEADLINE_MODE_IMMEDIATE => "BEGIN_IMPL_FRAME_DEADLINE_MODE_IMMEDIATE"
  | BEGIN_IMPL_FRAME_DEADLINE_MODE_REGULAR => "BEGIN_IMPL_FRAME_DEADLINE_MODE_REGULAR"
  | BEGIN_IMPL_FRAME_DEADLINE_MODE_LATE => "BEGIN_IMPL_FRAME_DEADLINE_MODE_LATE"
  | BEGIN_IMPL_FRAME_DEADLINE_MODE_BLOCKED_ON_READY_TO_DRAW => "BEGIN_IMPL_FRAME_DEADLINE_MODE_BLOCKED_ON_READY_TO_DRAW"
  end.

Definition BeginMainFrameStateToString (state : BeginMainFrameState) : string :=
  match state with
  | BEGIN_MAIN_FRAME_STATE_IDLE => "BEGIN_MAIN_FRAME_STATE_IDLE"
  | BEGIN_MAIN_FRAME_STATE_SENT => "BEGIN_MAIN_FRAME_STATE_SENT"
  | BEGIN_MAIN_FRAME_STATE_STARTED => "BEGIN_MAIN_FRAME_STATE_STARTED"
  | BEGIN_MAIN_FRAME_STATE_READY_TO_COMMIT => "BEGIN_MAIN_FRAME_STATE_READY_TO_COMMIT"
  | BEGIN_MAIN_FRAME_STATE_WAITING_FOR_ACTIVATION => "BEGIN_MAIN_FRAME_STATE_WAITING_FOR_ACTIVATION"
  | BEGIN_MAIN_FRAME_STATE_WAITING_FOR_DRAW => "BEGIN_MAIN_FRAME_STATE_WAITING_FOR_DRAW"
  end.

Definition ForcedRedrawOnTimeoutStateToString (state : ForcedRedrawOnTimeoutState) : string :=
  match state with
  | FORCED_REDRAW_STATE_IDLE => "FORCED_REDRAW_STATE_IDLE"
  | FORCED_REDRAW_STATE_WAITING_FOR_COMMIT => "FORCED_REDRAW_STATE_WAITING_FOR_COMMIT"
  | FORCED_REDRAW_STATE_WAITING_FOR_ACTIVATION => "FORCED_REDRAW_STATE_WAITING_FOR_ACTIVATION"
  | FORCED_REDRAW_STATE_WAITING_FOR_DRAW => "FORCED_REDRAW_STATE_WAITING_FOR_DRAW"
  end.

Definition ActionToString (state : Action) : string :=
  match state with
  | ACTION_NONE => "ACTION_NONE"
  | ACTION_ANIMATE => "ACTION_ANIMATE"
  | ACTION_SEND_BEGIN_MAIN_FRAME => "ACTION_SEND_BEGIN_MAIN_FRAME"
  | ACTION_COMMIT => "ACTION_COMMIT"
  | ACTION_ACTIVATE_SYNC_TREE => "ACTION_ACTIVATE_SYNC_TREE"
  | ACTION_DRAW_AND_SWAP_IF_POSSIBLE => "ACTION_DRAW_AND_SWAP_IF_POSSIBLE"
  | ACTION_DRAW_AND_SWAP_FORCED => "ACTION_DRAW_AND_SWAP_FORCED"
  | ACTION_DRAW_AND_SWAP_ABORT => "ACTION_DRAW_AND_SWAP_ABORT"
  | ACTION_BEGIN_OUTPUT_SURFACE_CREATION => "ACTION_BEGIN_OUTPUT_SURFACE_CREATION"
  | ACTION_PREPARE_TILES => "ACTION_PREPARE_TILES"
  | ACTION_INVALIDATE_OUTPUT_SURFACE => "ACTION_INVALIDATE_OUTPUT_SURFACE"
  end.

Definition CommitEarlyOutReasonToString (reason : CommitEarlyOutReason) : string :=
  match reason with
  | ABORTED_OUTPUT_SURFACE_LOST => "CommitEarlyOutReason::ABORTED_OUTPUT_SURFACE_LOST"
  | ABORTED_NOT_VISIBLE => "CommitEarlyOutReason::ABORTED_NOT_VISIBLE"
  | ABORTED_DEFERRED_COMMIT => "CommitEarlyOutReason::ABORTED_DEFERRED_COMMIT"
  | FINISHED_NO_UPDATES => "CommitEarlyOutReason::FINISHED_NO_UPDATES"
  end.

Definition CommitEarlyOutHandledCommit (reason : CommitEarlyOutReason) : bool :=
  bool_decide (reason = FINISHED_NO_UPDATES).

(** ** The state *)

Record SchedulerStateMachine : Type := mkSchedulerStateMachine {
  settings_ : SchedulerSettings;
  output_surface_state_ : OutputSurfaceState;
  begin_impl_frame_state_ : BeginImplFrameState;
  begin_main_frame_state_ : BeginMainFrameState;
  forced_redraw_state_ : ForcedRedrawOnTimeoutState;
  commit_count_ : Z;
  current_frame_number_ : Z;
  last_frame_number_animate_performed_ : Z;
  last_frame_number_swap_performed_ : Z;
  last_frame_number_swap_requested_ : Z;
  last_frame_number_begin_main_frame_sent_ : Z;
  last_frame_number_invalidate_output_surface_performed_ : Z;
  animate_funnel_ : bool;
  request_swap_funnel_ : bool;
  send_begin_main_frame_funnel_ : bool;
  invalidate_output_surface_funnel_ : bool;
  prepare_tiles_funnel_ : Z;
  consecutive_checkerboard_animations_ : Z;
  max_pending_swaps_ : Z;
  pending_swaps_ : Z;
  swaps_with_current_output_surface_ : Z;
  needs_redraw_ : bool;
  needs_animate_ : bool;
  needs_prepare_tiles_ : bool;
  needs_begin_main_frame_ : bool;
  needs_one_begin_impl_frame_ : bool;
  visible_ : bool;
  resourceless_draw_ : bool;
  can_draw_ : bool;
  has_pending_tree_ : bool;
  pending_tree_is_ready_for_activation_ : bool;
  active_tree_needs_first_draw_ : bool;
  did_create_and_initialize_first_output_surface_ : bool;
  impl_latency_takes_priority_ : bool;
  main_thread_missed_last_deadline_ : bool;
  skip_next_begin_main_frame_to_reduce_latency_ : bool;
  children_need_begin_frames_ : bool;
  defer_commits_ : bool;
  video_needs_begin_frames_ : bool;
  last_commit_had_no_updates_ : bool;
  wait_for_ready_to_draw_ : bool;
  did_request_swap_in_last_frame_ : bool;
  did_perform_swap_in_last_draw_ : bool
}.

#[export] Instance eta_SchedulerStateMachine : Eta SchedulerStateMachine := λ s,
  mkSchedulerStateMachine
    (settings_ s) (output_surface_state_ s) (begin_impl_frame_state_ s)
    (begin_main_frame_state_ s) (forced_redraw_state_ s) (commit_count_ s)
    (current_frame_number_ s) (last_frame_number_animate_performed_ s)
    (last_frame_number_swap_performed_ s)
    (last_frame_number_swap_requested_ s)
    (last_frame_number_begin_main_frame_sent_ s)
    (last_frame_number_invalidate_output_surface_performed_ s)
    (animate_funnel_ s) (request_swap_funnel_ s)
    (send_begin_main_frame_funnel_ s) (invalidate_output_surface_funnel_ s)
    (prepare_tiles_funnel_ s) (consecutive_checkerboard_animations_ s)
    (max_pending_swaps_ s) (pending_swaps_ s)
    (swaps_with_current_output_surface_ s) (needs_redraw_ s)
    (needs_animate_ s) (needs_prepare_tiles_ s) (needs_begin_main_frame_ s)
    (needs_one_begin_impl_frame_ s) (visible_ s) (resourceless_draw_ s)
    (can_draw_ s) (has_pending_tree_ s)
    (pending_tree_is_ready_for_activation_ s)
    (active_tree_needs_first_draw_ s)
    (did_create_and_initialize_first_output_surface_ s)
    (impl_latency_takes_priority_ s) (main_thread_missed_last_deadline_ s)
    (skip_next_begin_main_frame_to_reduce_latency_ s)
    (children_need_begin_frames_ s) (defer_commits_ s)
    (video_needs_begin_frames_ s) (last_commit_had_no_updates_ s)
    (wait_for_ready_to_draw_ s) (did_request_swap_in_last_frame_ s)
    (did_perform_swap_in_last_draw_ s).

(** The constructor. *)
Definition init_SchedulerStateMachine (settings : SchedulerSettings) :
    SchedulerStateMachine :=
  {| settings_ := settings;
     output_surface_state_ := OUTPUT_SURFACE_NONE;
     begin_impl_frame_state_ := BEGIN_IMPL_FRAME_STATE_IDLE;
     begin_main_frame_state_ := BEGIN_MAIN_FRAME_STATE_IDLE;
     forced_redraw_state_ := FORCED_REDRAW_STATE_IDLE;
     commit_count_ := 0;
     current_frame_number_ := 0;
     last_frame_number_animate_performed_ := -1;
     last_frame_number_swap_performed_ := -1;
     last_frame_number_swap_requested_ := -1;
     last_frame_number_begin_main_frame_sent_ := -1;
     last_frame_number_invalidate_output_surface_performed_ := -1;
     animate_funnel_ := false;
     request_swap_funnel_ := false;
     send_begin_main_frame_funnel_ := true;
     invalidate_output_surface_funnel_ := false;
     prepare_tiles_funnel_ := 0;
     consecutive_checkerboard_animations_ := 0;
     max_pending_swaps_ := 1;
     pending_swaps_ := 0;
     swaps_with_current_output_surface_ := 0;
     needs_redraw_ := false;
     needs_animate_ := false;
     needs_prepare_tiles_ := false;
     needs_begin_main_frame_ := false;
     needs_one_begin_impl_frame_ := false;
     visible_ := false;
     resourceless_draw_ := false;
     can_draw_ := false;
     has_pending_tree_ := false;
     pending_tree_is_ready_for_activation_ := false;
     active_tree_needs_first_draw_ := false;
     did_create_and_initialize_first_output_surface_ := false;
     impl_latency_takes_priority_ := false;
     main_thread_missed_last_deadline_ := false;
     skip_next_begin_main_frame_to_reduce_latency_ := false;
     children_need_begin_frames_ := false;
     defer_commits_ := false;
     video_needs_begin_frames_ := false;
     last_commit_had_no_updates_ := false;
     wait_for_ready_to_draw_ := false;
     did_request_swap_in_last_frame_ := false;
     did_perform_swap_in_last_draw_ := false |}.

(** ** Queries *)

Definition CommitPending (s : SchedulerStateMachine) : bool :=
  bool_decide (begin_main_frame_state_ s = BEGIN_MAIN_FRAME_STATE_SENT) ||
  bool_decide (begin_main_frame_state_ s = BEGIN_MAIN_FRAME_STATE_STARTED) ||
  bool_decide (begin_main_frame_state_ s = BEGIN_MAIN_FRAME_STATE_READY_TO_COMMIT).

Definition RedrawPending (s : SchedulerStateMachine) : bool := needs_redraw_ s.

Definition PrepareTilesPending (s : SchedulerStateMachine) : bool :=
  needs_prepare_tiles_ s.

Definition SwapThrottled (s : SchedulerStateMachine) : bool :=
  max_pending_swaps_ s <=? pending_swaps_ s.

Definition HasInitializedOutputSurface (s : SchedulerStateMachine) : bool :=
  match output_surface_state_ s with
  | OUTPUT_SURFACE_NONE
  | OUTPUT_SURFACE_CREATING => false
  | OUTPUT_SURFACE_ACTIVE
  | OUTPUT_SURFACE_WAITING_FOR_FIRST_COMMIT
  | OUTPUT_SURFACE_WAITING_FOR_FIRST_ACTIVATION => true
  end.

Definition PendingDrawsShouldBeAborted (s : SchedulerStateMachine) : bool :=
  let is_output_surface_lost :=
    bool_decide (output_surface_state_ s = OUTPUT_SURFACE_NONE) in
  if resourceless_draw_ s then is_output_surface_lost || negb (can_draw_ s)
  else is_output_surface_lost || negb (can_draw_ s) || negb (visible_ s).

Definition PendingActivationsShouldBeForced (s : SchedulerStateMachine) : bool :=
  if bool_decide (output_surface_state_ s = OUTPUT_SURFACE_NONE) then true
  else if negb (visible_ s) then true
  else false.

Definition ShouldBeginOutputSurfaceCreation (s : SchedulerStateMachine) : bool :=
  if negb (visible_ s) then false
  else if bool_decide (begin_main_frame_state_ s ≠ BEGIN_MAIN_FRAME_STATE_IDLE)
  then false
  else if bool_decide (begin_impl_frame_state_ s ≠ BEGIN_IMPL_FRAME_STATE_IDLE)
  then false
  else if active_tree_needs_first_draw_ s || has_pending_tree_ s then false
  else bool_decide (output_surface_state_ s = OUTPUT_SURFACE_NONE).

Definition ShouldDraw (s : SchedulerStateMachine) : bool :=
  if PendingDrawsShouldBeAborted s then active_tree_needs_first_draw_ s
  else if request_swap_funnel_ s then false
  else if bool_decide (output_surface_state_ s ≠ OUTPUT_SURFACE_ACTIVE) then false
  else if SwapThrottled s then false
  else if bool_decide
            (begin_impl_frame_state_ s ≠ BEGIN_IMPL_FRAME_STATE_INSIDE_DEADLINE)
  then false
  else if bool_decide
            (forced_redraw_state_ s = FORCED_REDRAW_STATE_WAITING_FOR_DRAW)
  then true
  else needs_redraw_ s.

Definition ShouldActivatePendingTree (s : SchedulerStateMachine) : bool :=
  if negb (has_pending_tree_ s) then false
  else if active_tree_needs_first_draw_ s then false
  else if PendingActivationsShouldBeForced s then true
  else pending_tree_is_ready_for_activation_ s.

Definition ShouldAnimate (s : SchedulerStateMachine) : bool :=
  if animate_funnel_ s then false
  else if bool_decide (output_surface_state_ s ≠ OUTPUT_SURFACE_ACTIVE) then false
  else if bool_decide
            (begin_impl_frame_state_ s ≠ BEGIN_IMPL_FRAME_STATE_BEGIN_FRAME_STARTING) &&
          bool_decide
            (begin_impl_frame_state_ s ≠ BEGIN_IMPL_FRAME_STATE_INSIDE_DEADLINE)
  then false
  else needs_redraw_ s || needs_animate_ s.

Definition CouldSendBeginMainFrame (s : SchedulerStateMachine) : bool :=
  if negb (needs_begin_main_frame_ s) then false
  else if negb (visible_ s) then false
  else if defer_commits_ s then false
  else true.

Definition SendingBeginMainFrameMightCauseDeadlock (s : SchedulerStateMachine) : bool :=
  has_pending_tree_ s && active_tree_needs_first_draw_ s && SwapThrottled s.

Definition ShouldSendBeginMainFrame (s : SchedulerStateMachine) : bool :=
  if negb (CouldSendBeginMainFrame s) then false
  else if send_begin_main_frame_funnel_ s then false
  else if bool_decide (begin_main_frame_state_ s ≠ BEGIN_MAIN_FRAME_STATE_IDLE)
  then false
  else if impl_latency_takes_priority_ s &&
          (has_pending_tree_ s || active_tree_needs_first_draw_ s)
  then false
  else if negb (using_synchronous_renderer_compositor (settings_ s)) &&
          bool_decide (begin_impl_frame_state_ s = BEGIN_IMPL_FRAME_STATE_IDLE)
  then false
  else if bool_decide
            (forced_redraw_state_ s = FORCED_REDRAW_STATE_WAITING_FOR_COMMIT)
  then true
  else if negb (HasInitializedOutputSurface s) then false
  else if SendingBeginMainFrameMightCauseDeadlock s then false
  else if negb (main_frame_while_swap_throttled_enabled (settings_ s)) &&
          (let just_swapped_in_deadline :=
             bool_decide (begin_impl_frame_state_ s =
                          BEGIN_IMPL_FRAME_STATE_INSIDE_DEADLINE) &&
             did_perform_swap_in_last_draw_ s in
           SwapThrottled s && negb just_swapped_in_deadline)
  then false
  else if skip_next_begin_main_frame_to_reduce_latency_ s then false
  else true.

Definition ShouldCommit (s : SchedulerStateMachine) : outcome bool :=
  if bool_decide (begin_main_frame_state_ s ≠ BEGIN_MAIN_FRAME_STATE_READY_TO_COMMIT)
  then Done false
  else if has_pending_tree_ s then
    DCHECK (main_frame_before_activation_enabled (settings_ s)) ;;
    Done false
  else
    DCHECK (negb (commit_to_active_tree (settings_ s)) ||
            negb (active_tree_needs_first_draw_ s)) ;;
    Done true.

Definition ShouldPrepareTiles (s : SchedulerStateMachine) : bool :=
  if 0 <? prepare_tiles_funnel_ s then false
  else if bool_decide
            (begin_impl_frame_state_ s ≠ BEGIN_IMPL_FRAME_STATE_INSIDE_DEADLINE)
  then false
  else needs_prepare_tiles_ s.

Definition ShouldInvalidateOutputSurface (s : SchedulerStateMachine) : bool :=
  if invalidate_output_surface_funnel_ s then false
  else if negb (using_synchronous_renderer_compositor (settings_ s)) then false
  else if bool_decide
            (begin_impl_frame_state_ s ≠ BEGIN_IMPL_FRAME_STATE_BEGIN_FRAME_STARTING)
  then false
  else needs_redraw_ s || needs_prepare_tiles_ s.

Definition NextAction (s : SchedulerStateMachine) : outcome Action :=
  if ShouldActivatePendingTree s then Done ACTION_ACTIVATE_SYNC_TREE
  else
    should_commit ← ShouldCommit s;
    Done
      (if should_commit : bool then ACTION_COMMIT
       else if ShouldAnimate s then ACTION_ANIMATE
       else if ShouldDraw s then
         if PendingDrawsShouldBeAborted s then ACTION_DRAW_AND_SWAP_ABORT
         else if bool_decide
                   (forced_redraw_state_ s = FORCED_REDRAW_STATE_WAITING_FOR_DRAW)
         then ACTION_DRAW_AND_SWAP_FORCED
         else ACTION_DRAW_AND_SWAP_IF_POSSIBLE
       else if ShouldPrepareTiles s then ACTION_PREPARE_TILES
       else if ShouldSendBeginMainFrame s then ACTION_SEND_BEGIN_MAIN_FRAME
       else if ShouldInvalidateOutputSurface s then ACTION_INVALIDATE_OUTPUT_SURFACE
       else if ShouldBeginOutputSurfaceCreation s
       then ACTION_BEGIN_OUTPUT_SURFACE_CREATION
       else ACTION_NONE).

(** ** Transitions made when an action starts *)

Definition WillAnimate (s : SchedulerStateMachine) : outcome SchedulerStateMachine :=
  DCHECK (negb (animate_funnel_ s)) ;;
  Done (s <| last_frame_number_animate_performed_ := current_frame_number_ s |>
          <| animate_funnel_ := true |>
          <| needs_animate_ := false |>).

Definition WillSendBeginMainFrame (s : SchedulerStateMachine) :
    outcome SchedulerStateMachine :=
  DCHECK (negb (has_pending_tree_ s) ||
          main_frame_before_activation_enabled (settings_ s)) ;;
  DCHECK (visible_ s) ;;
  DCHECK (negb (send_begin_main_frame_funnel_ s)) ;;
  Done (s <| begin_main_frame_state_ := BEGIN_MAIN_FRAME_STATE_SENT |>
          <| needs_begin_main_frame_ := false |>
          <| send_begin_main_frame_funnel_ := true |>
          <| last_frame_number_begin_main_frame_sent_ := current_frame_number_ s |>).

(** [WillCommit] is cut at its blank lines into the pieces below, which it runs
    in order.  An assignment under an [if] is written as an assignment of a
    conditional value. *)
Definition commit_main_frame_state (commit_has_no_updates : bool)
    (s : SchedulerStateMachine) : SchedulerStateMachine :=
  s <| commit_count_ := commit_count_ s + 1 |>
    <| animate_funnel_ :=
         if negb commit_has_no_updates then false else animate_funnel_ s |>
    <| begin_main_frame_state_ :=
         if commit_has_no_updates || main_frame_before_activation_enabled (settings_ s)
         then BEGIN_MAIN_FRAME_STATE_IDLE
         else BEGIN_MAIN_FRAME_STATE_WAITING_FOR_ACTIVATION |>
    <| has_pending_tree_ := negb commit_has_no_updates |>
    <| wait_for_ready_to_draw_ :=
         negb commit_has_no_updates && commit_to_active_tree (settings_ s) |>.

Definition commit_forced_redraw (s : SchedulerStateMachine) : SchedulerStateMachine :=
  s <| forced_redraw_state_ :=
         if bool_decide (forced_redraw_state_ s = FORCED_REDRAW_STATE_WAITING_FOR_COMMIT)
         then if has_pending_tree_ s then FORCED_REDRAW_STATE_WAITING_FOR_ACTIVATION
              else FORCED_REDRAW_STATE_WAITING_FOR_DRAW
         else forced_redraw_state_ s |>.

Definition commit_output_surface (s : SchedulerStateMachine) : SchedulerStateMachine :=
  s <| output_surface_state_ :=
         if bool_decide (output_surface_state_ s = OUTPUT_SURFACE_WAITING_FOR_FIRST_COMMIT)
         then if has_pending_tree_ s then OUTPUT_SURFACE_WAITING_FOR_FIRST_ACTIVATION
              else OUTPUT_SURFACE_ACTIVE
         else output_surface_state_ s |>.

Definition WillCommit (commit_has_no_updates : bool) (s : SchedulerStateMachine) :
    outcome SchedulerStateMachine :=
  let s := commit_forced_redraw (commit_main_frame_state commit_has_no_updates s) in
  DCHECK (bool_decide
    (output_surface_state_ s ≠ OUTPUT_SURFACE_WAITING_FOR_FIRST_ACTIVATION)) ;;
  let s := commit_output_surface s in
  let no_updates_but_forced_draw :=
    commit_has_no_updates &&
    bool_decide (forced_redraw_state_ s = FORCED_REDRAW_STATE_WAITING_FOR_DRAW) in
  DCHECK (negb no_updates_but_forced_draw || negb (has_pending_tree_ s)) ;;
  Done (s <| needs_redraw_ :=
               if no_updates_but_forced_draw then true else needs_redraw_ s |>
          <| active_tree_needs_first_draw_ :=
               if no_updates_but_forced_draw then true
               else active_tree_needs_first_draw_ s |>
          <| pending_tree_is_ready_for_activation_ := false |>
          <| last_commit_had_no_updates_ := commit_has_no_updates |>).

Definition WillActivate (s : SchedulerStateMachine) : SchedulerStateMachine :=
  s <| begin_main_frame_state_ :=
         if bool_decide (begin_main_frame_state_ s =
                         BEGIN_MAIN_FRAME_STATE_WAITING_FOR_ACTIVATION)
         then if commit_to_active_tree (settings_ s)
              then BEGIN_MAIN_FRAME_STATE_WAITING_FOR_DRAW
              else BEGIN_MAIN_FRAME_STATE_IDLE
         else begin_main_frame_state_ s |>
    <| output_surface_state_ :=
         if bool_decide (output_surface_state_ s =
                         OUTPUT_SURFACE_WAITING_FOR_FIRST_ACTIVATION)
         then OUTPUT_SURFACE_ACTIVE else output_surface_state_ s |>
    <| forced_redraw_state_ :=
         if bool_decide (forced_redraw_state_ s =
                         FORCED_REDRAW_STATE_WAITING_FOR_ACTIVATION)
         then FORCED_REDRAW_STATE_WAITING_FOR_DRAW else forced_redraw_state_ s |>
    <| has_pending_tree_ := false |>
    <| pending_tree_is_ready_for_activation_ := false |>
    <| active_tree_needs_first_draw_ := true |>
    <| needs_redraw_ := true |>.

Definition WillDraw (did_request_swap : bool) (s : SchedulerStateMachine) :
    outcome SchedulerStateMachine :=
  let s :=
    s <| forced_redraw_state_ :=
           if bool_decide (forced_redraw_state_ s = FORCED_REDRAW_STATE_WAITING_FOR_DRAW)
           then FORCED_REDRAW_STATE_IDLE else forced_redraw_state_ s |>
      <| begin_main_frame_state_ :=
           if bool_decide (begin_main_frame_state_ s =
                           BEGIN_MAIN_FRAME_STATE_WAITING_FOR_DRAW)
           then BEGIN_MAIN_FRAME_STATE_IDLE else begin_main_frame_state_ s |>
      <| needs_redraw_ := false |>
      <| active_tree_needs_first_draw_ := false |> in
  if did_request_swap then
    DCHECK (negb (request_swap_funnel_ s)) ;;
    Done (s <| request_swap_funnel_ := true |>
            <| did_request_swap_in_last_frame_ := true |>
            <| last_frame_number_swap_requested_ := current_frame_number_ s |>)
  else Done s.

Definition WillPrepareTiles (s : SchedulerStateMachine) : SchedulerStateMachine :=
  s <| needs_prepare_tiles_ := false |>.

Definition WillBeginOutputSurfaceCreation (s : SchedulerStateMachine) :
    outcome SchedulerStateMachine :=
  DCHECK (bool_decide (output_surface_state_ s = OUTPUT_SURFACE_NONE)) ;;
  let s := s <| output_surface_state_ := OUTPUT_SURFACE_CREATING |> in
  DCHECK (bool_decide (begin_main_frame_state_ s = BEGIN_MAIN_FRAME_STATE_IDLE)) ;;
  DCHECK (negb (has_pending_tree_ s)) ;;
  DCHECK (negb (active_tree_needs_first_draw_ s)) ;;
  Done s.

Definition WillInvalidateOutputSurface (s : SchedulerStateMachine) :
    outcome SchedulerStateMachine :=
  DCHECK (negb (invalidate_output_surface_funnel_ s)) ;;
  Done (s <| invalidate_output_surface_funnel_ := true |>
          <| last_frame_number_invalidate_output_surface_performed_ :=
               current_frame_number_ s |>
          <| active_tree_needs_first_draw_ := false |>).

(** ** BeginFrame requests *)

Definition BeginFrameRequiredForChildren (s : SchedulerStateMachine) : bool :=
  children_need_begin_frames_ s.

Definition BeginFrameNeededForVideo (s : SchedulerStateMachine) : bool :=
  video_needs_begin_frames_ s.

Definition BeginFrameRequiredForAction (s : SchedulerStateMachine) : bool :=
  if bool_decide (forced_redraw_state_ s = FORCED_REDRAW_STATE_WAITING_FOR_DRAW)
  then true
  else needs_animate_ s || needs_redraw_ s || needs_one_begin_impl_frame_ s ||
       (needs_begin_main_frame_ s && negb (defer_commits_ s)).

Definition ProactiveBeginFrameWanted (s : SchedulerStateMachine) : bool :=
  if negb (visible_ s) then false
  else if bool_decide (begin_main_frame_state_ s ≠ BEGIN_MAIN_FRAME_STATE_IDLE) &&
          negb (defer_commits_ s)
  then true
  else if has_pending_tree_ s then true
  else if needs_prepare_tiles_ s then true
  else if did_request_swap_in_last_frame_ s then true
  else if last_commit_had_no_updates_ s then true
  else false.

Definition BeginFrameNeeded (s : SchedulerStateMachine) : bool :=
  if negb (HasInitializedOutputSurface s) then false
  else if negb (visible_ s) then false
  else BeginFrameRequiredForAction s || BeginFrameRequiredForChildren s ||
       BeginFrameNeededForVideo s || ProactiveBeginFrameWanted s.

Definition OnlyImplSideUpdatesExpected (s : SchedulerStateMachine) : bool :=
  let has_impl_updates :=
    needs_redraw_ s || needs_animate_ s || needs_one_begin_impl_frame_ s in
  let main_updates_expected :=
    needs_begin_main_frame_ s ||
    bool_decide (begin_main_frame_state_ s ≠ BEGIN_MAIN_FRAME_STATE_IDLE) ||
    has_pending_tree_ s in
  has_impl_updates && negb main_updates_expected.

(** ** The phases of an impl frame *)

Definition OnBeginImplFrame (s : SchedulerStateMachine) : SchedulerStateMachine :=
  s <| begin_impl_frame_state_ := BEGIN_IMPL_FRAME_STATE_BEGIN_FRAME_STARTING |>
             <| current_frame_number_ := current_frame_number_ s + 1 |>
             <| last_commit_had_no_updates_ := false |>
             <| did_request_swap_in_last_frame_ := false |>
             <| needs_one_begin_impl_frame_ := false |>
             <| animate_funnel_ := false |>
             <| send_begin_main_frame_funnel_ := false |>
             <| invalidate_output_surface_funnel_ := false |>
             <| prepare_tiles_funnel_ :=
                  if 0 <? prepare_tiles_funnel_ s then prepare_tiles_funnel_ s - 1
                  else prepare_tiles_funnel_ s |>.

Definition OnBeginImplFrameDeadlinePending (s : SchedulerStateMachine) :
    SchedulerStateMachine :=
  s <| begin_impl_frame_state_ := BEGIN_IMPL_FRAME_STATE_INSIDE_BEGIN_FRAME |>.

Definition OnBeginImplFrameDeadline (s : SchedulerStateMachine) : SchedulerStateMachine :=
  s <| begin_impl_frame_state_ := BEGIN_IMPL_FRAME_STATE_INSIDE_DEADLINE |>
    <| did_perform_swap_in_last_draw_ := false |>
    <| request_swap_funnel_ := false |>
    <| prepare_tiles_funnel_ :=
         if using_synchronous_renderer_compositor (settings_ s) &&
            (0 <? prepare_tiles_funnel_ s)
         then prepare_tiles_funnel_ s - 1 else prepare_tiles_funnel_ s |>.

Definition OnBeginImplFrameIdle (s : SchedulerStateMachine) : SchedulerStateMachine :=
  let s := s <| begin_impl_frame_state_ := BEGIN_IMPL_FRAME_STATE_IDLE |>
             <| skip_next_begin_main_frame_to_reduce_latency_ := false |> in
  let s := s <| main_thread_missed_last_deadline_ :=
      CommitPending s || has_pending_tree_ s || active_tree_needs_first_draw_ s |> in
  s <| send_begin_main_frame_funnel_ :=
         if negb (BeginFrameNeeded s) then true else send_begin_main_frame_funnel_ s |>.

Definition ShouldTriggerBeginImplFrameDeadlineImmediately (s : SchedulerStateMachine) :
    bool :=
  if PendingActivationsShouldBeForced s && negb (has_pending_tree_ s) then true
  else if wait_for_ready_to_draw_ s then false
  else if SwapThrottled s then false
  else if active_tree_needs_first_draw_ s then true
  else if negb (needs_redraw_ s) then false
  else if bool_decide (begin_main_frame_state_ s = BEGIN_MAIN_FRAME_STATE_IDLE) &&
          negb (has_pending_tree_ s)
  then true
  else if impl_latency_takes_priority_ s then true
  else false.

Definition CurrentBeginImplFrameDeadlineMode (s : SchedulerStateMachine) :
    BeginImplFrameDeadlineMode :=
  if using_synchronous_renderer_compositor (settings_ s)
  then BEGIN_IMPL_FRAME_DEADLINE_MODE_NONE
  else if ShouldTriggerBeginImplFrameDeadlineImmediately s
  then BEGIN_IMPL_FRAME_DEADLINE_MODE_IMMEDIATE
  else if wait_for_ready_to_draw_ s
  then BEGIN_IMPL_FRAME_DEADLINE_MODE_BLOCKED_ON_READY_TO_DRAW
  else if needs_redraw_ s then BEGIN_IMPL_FRAME_DEADLINE_MODE_REGULAR
  else BEGIN_IMPL_FRAME_DEADLINE_MODE_LATE.

(** ** Notifications *)

Definition SetSkipNextBeginMainFrameToReduceLatency (s : SchedulerStateMachine) :
    SchedulerStateMachine :=
  s <| skip_next_begin_main_frame_to_reduce_latency_ := true |>.

Definition SetChildrenNeedBeginFrames (children_need_begin_frames : bool)
    (s : SchedulerStateMachine) : SchedulerStateMachine :=
  s <| children_need_begin_frames_ := children_need_begin_frames |>.

Definition SetVideoNeedsBeginFrames (video_needs_begin_frames : bool)
    (s : SchedulerStateMachine) : SchedulerStateMachine :=
  s <| video_needs_begin_frames_ := video_needs_begin_frames |>.

Definition SetDeferCommits (defer_commits : bool) (s : SchedulerStateMachine) :
    SchedulerStateMachine :=
  s <| defer_commits_ := defer_commits |>.

Definition SetVisible (visible : bool) (s : SchedulerStateMachine) :
    SchedulerStateMachine :=
  if Bool.eqb (visible_ s) visible then s
  else
    s <| visible_ := visible |>
      <| main_thread_missed_last_deadline_ :=
           if visible then false else main_thread_missed_last_deadline_ s |>
      <| prepare_tiles_funnel_ := 0 |>
      <| wait_for_ready_to_draw_ := false |>.

Definition SetResourcelessSoftareDraw (resourceless_draw : bool)
    (s : SchedulerStateMachine) : SchedulerStateMachine :=
  s <| resourceless_draw_ := resourceless_draw |>.

Definition SetCanDraw (can_draw : bool) (s : SchedulerStateMachine) :
    SchedulerStateMachine :=
  s <| can_draw_ := can_draw |>.

Definition SetNeedsRedraw (s : SchedulerStateMachine) : SchedulerStateMachine :=
  s <| needs_redraw_ := true |>.

Definition SetNeedsAnimate (s : SchedulerStateMachine) : SchedulerStateMachine :=
  s <| needs_animate_ := true |>.

Definition SetNeedsPrepareTiles (s : SchedulerStateMachine) : SchedulerStateMachine :=
  if negb (needs_prepare_tiles_ s) then s <| needs_prepare_tiles_ := true |> else s.

Definition SetMaxSwapsPending (max : Z) (s : SchedulerStateMachine) :
    SchedulerStateMachine :=
  s <| max_pending_swaps_ := max |>.

Definition DidSwapBuffers (s : SchedulerStateMachine) : outcome SchedulerStateMachine :=
  let s := s <| pending_swaps_ := pending_swaps_ s + 1 |>
             <| swaps_with_current_output_surface_ :=
                  swaps_with_current_output_surface_ s + 1 |> in
  DCHECK (pending_swaps_ s <=? max_pending_swaps_ s) ;;
  Done (s <| did_perform_swap_in_last_draw_ := true |>
          <| last_frame_number_swap_performed_ := current_frame_number_ s |>).

Definition DidSwapBuffersComplete (s : SchedulerStateMachine) : SchedulerStateMachine :=
  s <| pending_swaps_ := pending_swaps_ s - 1 |>.

Definition SetImplLatencyTakesPriority (impl_latency_takes_priority : bool)
    (s : SchedulerStateMachine) : SchedulerStateMachine :=
  s <| impl_latency_takes_priority_ := impl_latency_takes_priority |>.

Definition SetNeedsBeginMainFrame (s : SchedulerStateMachine) : SchedulerStateMachine :=
  s <| needs_begin_main_frame_ := true |>.

Definition SetNeedsOneBeginImplFrame (s : SchedulerStateMachine) :
    SchedulerStateMachine :=
  s <| needs_one_begin_impl_frame_ := true |>.

Definition DidDrawIfPossibleCompleted (result : DrawResult) (s : SchedulerStateMachine) :
    outcome SchedulerStateMachine :=
  match result with
  | INVALID_RESULT
  | DRAW_ABORTED_CANT_DRAW
  | DRAW_ABORTED_CONTEXT_LOST => DcheckFailed
  | DRAW_SUCCESS =>
      Done (s <| consecutive_checkerboard_animations_ := 0 |>
              <| forced_redraw_state_ := FORCED_REDRAW_STATE_IDLE |>)
  | DRAW_ABORTED_CHECKERBOARD_ANIMATIONS =>
      let s := s <| needs_redraw_ := true |> in
      if bool_decide (forced_redraw_state_ s ≠ FORCED_REDRAW_STATE_IDLE) then Done s
      else
        let s := s <| needs_begin_main_frame_ := true |>
                   <| consecutive_checkerboard_animations_ :=
                        consecutive_checkerboard_animations_ s + 1 |> in
        if timeout_and_draw_when_animation_checkerboards (settings_ s) &&
           (maximum_number_of_failed_draws_before_draw_is_forced (settings_ s) <=?
            consecutive_checkerboard_animations_ s)
        then Done (s <| consecutive_checkerboard_animations_ := 0 |>
                     <| forced_redraw_state_ := FORCED_REDRAW_STATE_WAITING_FOR_COMMIT |>)
        else Done s
  | DRAW_ABORTED_MISSING_HIGH_RES_CONTENT =>
      Done (s <| needs_begin_main_frame_ := true |>)
  end.

Definition NotifyReadyToCommit (s : SchedulerStateMachine) :
    outcome SchedulerStateMachine :=
  DCHECK (bool_decide (begin_main_frame_state_ s = BEGIN_MAIN_FRAME_STATE_STARTED)) ;;
  let s := s <| begin_main_frame_state_ := BEGIN_MAIN_FRAME_STATE_READY_TO_COMMIT |> in
  if commit_to_active_tree (settings_ s) then
    should_commit ← ShouldCommit s;
    DCHECK should_commit ;;
    Done s
  else Done s.

Definition BeginMainFrameAborted (reason : CommitEarlyOutReason)
    (s : SchedulerStateMachine) : outcome SchedulerStateMachine :=
  DCHECK (bool_decide (begin_main_frame_state_ s = BEGIN_MAIN_FRAME_STATE_STARTED)) ;;
  match reason with
  | ABORTED_OUTPUT_SURFACE_LOST
  | ABORTED_NOT_VISIBLE
  | ABORTED_DEFERRED_COMMIT =>
      Done (SetNeedsBeginMainFrame
              (s <| begin_main_frame_state_ := BEGIN_MAIN_FRAME_STATE_IDLE |>))
  | FINISHED_NO_UPDATES => WillCommit true s
  end.

Definition DidPrepareTiles (s : SchedulerStateMachine) : SchedulerStateMachine :=
  s <| needs_prepare_tiles_ := false |>
    <| prepare_tiles_funnel_ := prepare_tiles_funnel_ s + 1 |>.

Definition DidLoseOutputSurface (s : SchedulerStateMachine) : SchedulerStateMachine :=
  if bool_decide (output_surface_state_ s = OUTPUT_SURFACE_NONE) ||
     bool_decide (output_surface_state_ s = OUTPUT_SURFACE_CREATING)
  then s
  else s <| output_surface_state_ := OUTPUT_SURFACE_NONE |>
         <| needs_redraw_ := false |>
         <| wait_for_ready_to_draw_ := false |>.

Definition NotifyReadyToActivate (s : SchedulerStateMachine) : SchedulerStateMachine :=
  if has_pending_tree_ s
  then s <| pending_tree_is_ready_for_activation_ := true |> else s.

Definition NotifyReadyToDraw (s : SchedulerStateMachine) : SchedulerStateMachine :=
  s <| wait_for_ready_to_draw_ := false |>.

Definition DidCreateAndInitializeOutputSurface (s : SchedulerStateMachine) :
    outcome SchedulerStateMachine :=
  DCHECK (bool_decide (output_surface_state_ s = OUTPUT_SURFACE_CREATING)) ;;
  let s := s <| output_surface_state_ := OUTPUT_SURFACE_WAITING_FOR_FIRST_COMMIT |> in
  Done (s <| needs_begin_main_frame_ :=
               if did_create_and_initialize_first_output_surface_ s then true
               else needs_begin_main_frame_ s |>
          <| did_create_and_initialize_first_output_surface_ := true |>
          <| pending_swaps_ := 0 |>
          <| swaps_with_current_output_surface_ := 0 |>
          <| main_thread_missed_last_deadline_ := false |>).

Definition NotifyBeginMainFrameStarted (s : SchedulerStateMachine) :
    outcome SchedulerStateMachine :=
  DCHECK (bool_decide (begin_main_frame_state_ s = BEGIN_MAIN_FRAME_STATE_SENT)) ;;
  Done (s <| begin_main_frame_state_ := BEGIN_MAIN_FRAME_STATE_STARTED |>).
