(* ===== verification/Scheduler.v ===== *)
(** * cc/scheduler/scheduler.cc: the action loop

    [Scheduler] owns a [SchedulerStateMachine].  Its public methods update the
    state machine and then run [ProcessScheduledActions], which performs the next
    action until there is none.  While an action is performed the client may call
    back into the scheduler; the nested [ProcessScheduledActions] returns at once.
    The client is a parameter: any function from its own state, the action and
    the state machine to the calls it makes and the draw result it returns. *)

From S2P Require Import Prelude SchedulerStateMachine.

(** The public methods of [Scheduler] that a client may call at any time. *)
Inductive ClientCall : Type :=
  | CallSetVisible (visible : bool)
  | CallSetResourcelessSoftareDraw (resourceless_draw : bool)
  | CallSetCanDraw (can_draw : bool)
  | CallNotifyReadyToActivate
  | CallNotifyReadyToDraw
  | CallSetNeedsBeginMainFrame
  | CallSetNeedsOneBeginImplFrame
  | CallSetNeedsRedraw
  | CallSetNeedsAnimate
  | CallSetNeedsPrepareTiles
  | CallSetMaxSwapsPending (max : Z)
  | CallDidSwapBuffers
  | CallDidSwapBuffersComplete
  | CallSetImplLatencyTakesPriority (impl_latency_takes_priority : bool)
  | CallNotifyReadyToCommit
  | CallBeginMainFrameAborted (reason : CommitEarlyOutReason)
  | CallDidPrepareTiles
  | CallDidLoseOutputSurface
  | CallDidCreateAndInitializeOutputSurface
  | CallNotifyBeginMainFrameStarted
  | CallSetDeferCommits (defer_commits : bool)
  | CallSetChildrenNeedBeginFrames (children_need_begin_frames : bool)
  | CallSetVideoNeedsBeginFrames (video_needs_begin_frames : bool).

(** What a call does to the state machine when [inside_action_] is [inside],
    before the [ProcessScheduledActions] that most of the methods end with. *)
Definition scheduler_call (inside : Action) (call : ClientCall)
    (s : SchedulerStateMachine) : outcome SchedulerStateMachine :=
  match call with
  | CallSetVisible visible => Done (SetVisible visible s)
  | CallSetResourcelessSoftareDraw b => Done (SetResourcelessSoftareDraw b s)
  | CallSetCanDraw can_draw => Done (SetCanDraw can_draw s)
  | CallNotifyReadyToActivate => Done (NotifyReadyToActivate s)
  | CallNotifyReadyToDraw => Done (NotifyReadyToDraw s)
  | CallSetNeedsBeginMainFrame => Done (SetNeedsBeginMainFrame s)
  | CallSetNeedsOneBeginImplFrame => Done (SetNeedsOneBeginImplFrame s)
  | CallSetNeedsRedraw => Done (SetNeedsRedraw s)
  | CallSetNeedsAnimate => Done (SetNeedsAnimate s)
  | CallSetNeedsPrepareTiles =>
      DCHECK (negb (bool_decide (inside = ACTION_PREPARE_TILES))) ;;
      Done (SetNeedsPrepareTiles s)
  | CallSetMaxSwapsPending max => Done (SetMaxSwapsPending max s)
  | CallDidSwapBuffers => DidSwapBuffers s
  | CallDidSwapBuffersComplete =>
      DCHECK (0 <? pending_swaps_ s) ;;
      Done (DidSwapBuffersComplete s)
  | CallSetImplLatencyTakesPriority b => Done (SetImplLatencyTakesPriority b s)
  | CallNotifyReadyToCommit => NotifyReadyToCommit s
  | CallBeginMainFrameAborted reason => BeginMainFrameAborted reason s
  | CallDidPrepareTiles => Done (DidPrepareTiles s)
  | CallDidLoseOutputSurface => Done (DidLoseOutputSurface s)
  | CallDidCreateAndInitializeOutputSurface => DidCreateAndInitializeOutputSurface s
  | CallNotifyBeginMainFrameStarted => NotifyBeginMainFrameStarted s
  | CallSetDeferCommits b => Done (SetDeferCommits b s)
  | CallSetChildrenNeedBeginFrames b => Done (SetChildrenNeedBeginFrames b s)
  | CallSetVideoNeedsBeginFrames b => Done (SetVideoNeedsBeginFrames b s)
  end.

Fixpoint run_calls (inside : Action) (calls : list ClientCall)
    (s : SchedulerStateMachine) : outcome SchedulerStateMachine :=
  match calls with
  | [] => Done s
  | call :: calls =>
      s ← scheduler_call inside call s;
      run_calls inside calls s
  end.

(** The update of the state machine that an action starts with. *)
Definition start_action (action : Action) (s : SchedulerStateMachine) :
    outcome SchedulerStateMachine :=
  match action with
  | ACTION_NONE => Done s
  | ACTION_ANIMATE => WillAnimate s
  | ACTION_SEND_BEGIN_MAIN_FRAME => WillSendBeginMainFrame s
  | ACTION_COMMIT => WillCommit false s
  | ACTION_ACTIVATE_SYNC_TREE => Done (WillActivate s)
  | ACTION_DRAW_AND_SWAP_IF_POSSIBLE => WillDraw true s
  | ACTION_DRAW_AND_SWAP_FORCED => WillDraw true s
  | ACTION_DRAW_AND_SWAP_ABORT => WillDraw false s
  | ACTION_BEGIN_OUTPUT_SURFACE_CREATION => WillBeginOutputSurfaceCreation s
  | ACTION_PREPARE_TILES => Done (WillPrepareTiles s)
  | ACTION_INVALIDATE_OUTPUT_SURFACE => WillInvalidateOutputSurface s
  end.

(** [DrawAndSwapIfPossible] is the only action whose result is used. *)
Definition finish_action (action : Action) (result : DrawResult)
    (s : SchedulerStateMachine) : outcome SchedulerStateMachine :=
  match action with
  | ACTION_DRAW_AND_SWAP_IF_POSSIBLE => DidDrawIfPossibleCompleted result s
  | _ => Done s
  end.

Section Client.
  (** The client: from its state, the action and the state machine, its next
      state, the calls it makes and the draw result. *)
  Context {C : Type}.
  Context (client : C → Action → SchedulerStateMachine →
                    C * list ClientCall * DrawResult).

Definition perform_action (action : Action) (c : C) (s : SchedulerStateMachine) :
    outcome (C * SchedulerStateMachine) :=
  s ← start_action action s;
  match action with
  | ACTION_DRAW_AND_SWAP_ABORT => Done (c, s)
  | _ =>
      let '(c, calls, result) := client c action s in
      s ← run_calls action calls s;
      s ← finish_action action result s;
      Done (c, s)
  end.

(** The [do ... while] loop, with the list of the actions performed.  [None]:
    [fuel] iterations were not enough. *)
Fixpoint process_actions (fuel : nat) (c : C) (s : SchedulerStateMachine) :
    outcome (option (C * SchedulerStateMachine * list Action)) :=
  match fuel with
  | O => Done None
  | S fuel =>
      action ← NextAction s;
      if bool_decide (action = ACTION_NONE) then Done (Some (c, s, []))
      else
        cs ← perform_action action c s;
        r ← process_actions fuel cs.1 cs.2;
        Done (match r with
              | Some (c, s, actions) => Some (c, s, action :: actions)
              | None => None
              end)
  end.

End Client.

(** Conversion unfolds the dispatch functions before the operations. *)
Strategy expand [scheduler_call start_action finish_action].

(** ** Termination measure *)

Definition b2n (b : bool) : nat := if b then 1 else 0.

Definition main_frame_weight (s : SchedulerStateMachine) : nat :=
  match begin_main_frame_state_ s with
  | BEGIN_MAIN_FRAME_STATE_SENT
  | BEGIN_MAIN_FRAME_STATE_STARTED
  | BEGIN_MAIN_FRAME_STATE_READY_TO_COMMIT => 4
  | _ => 0
  end.

(** An upper bound on the actions other than [ACTION_PREPARE_TILES] that can
    still follow: each has a funnel, a tree or a main frame to consume. *)
Definition work_left (s : SchedulerStateMachine) : nat :=
  5 * b2n (negb (send_begin_main_frame_funnel_ s)) +
  main_frame_weight s +
  2 * b2n (has_pending_tree_ s) +
  b2n (negb (animate_funnel_ s)) +
  b2n (negb (request_swap_funnel_ s)) +
  b2n (active_tree_needs_first_draw_ s) +
  b2n (negb (invalidate_output_surface_funnel_ s)) +
  b2n (negb (bool_decide (output_surface_state_ s = OUTPUT_SURFACE_CREATING))).

Definition actions_left (s : SchedulerStateMachine) : nat :=
  2 * work_left s + b2n (needs_prepare_tiles_ s).

(** ** The loop terminates *)

Lemma b2n_le b : (b2n b ≤ 1)%nat.
Proof. destruct b; cbn; lia. Qed.

Ltac pose_b2n :=
  repeat match goal with
  | |- context [ b2n ?b ] =>
      lazymatch b with true => fail | false => fail | _ => idtac end;
      pose proof (b2n_le b); generalize dependent (b2n b); intros
  end.

(** Compare the weights of a state and its update field by field. *)
Ltac weigh :=
  repeat match goal with
  | |- context [ work_left (if ?b then _ else _) ] => destruct b eqn:?
  end;
  unfold work_left, main_frame_weight; cbn -[Nat.mul b2n].
Ltac weigh_cases :=
  case_tests; cbn -[Nat.mul]; first [congruence | pose_b2n; lia].

Lemma main_frame_weight_commit s :
  begin_main_frame_state_ s = BEGIN_MAIN_FRAME_STATE_STARTED ∨
  begin_main_frame_state_ s = BEGIN_MAIN_FRAME_STATE_READY_TO_COMMIT →
  main_frame_weight s = 4%nat.
Proof. unfold main_frame_weight. by intros [-> | ->]. Qed.

Lemma WillCommit_work_left u s s' :
  WillCommit u s = Done s' →
  (work_left s' + main_frame_weight s + 2 * b2n u ≤ work_left s + 3)%nat.
Proof.
  unfold WillCommit. intros H. inv_done. subst. weigh.
  destruct u; cbn -[Nat.mul b2n]; weigh_cases.
Qed.

Lemma NotifyReadyToCommit_work_left s s' :
  NotifyReadyToCommit s = Done s' → (work_left s' ≤ work_left s)%nat.
Proof.
  unfold NotifyReadyToCommit. intros H. inv_done. prop_bools.
  assert (s' = s <| begin_main_frame_state_ := BEGIN_MAIN_FRAME_STATE_READY_TO_COMMIT |>)
    as ->.
  { destruct (commit_to_active_tree _); inv_done; done. }
  weigh. rewrite E. pose_b2n. lia.
Qed.

Lemma BeginMainFrameAborted_work_left reason s s' :
  BeginMainFrameAborted reason s = Done s' → (work_left s' ≤ work_left s)%nat.
Proof.
  unfold BeginMainFrameAborted. intros H. inv_done. prop_bools.
  destruct reason; inv_done; subst; try (weigh; rewrite E; pose_b2n; lia).
  apply WillCommit_work_left in H. rewrite main_frame_weight_commit in H by auto.
  cbn [b2n] in H. lia.
Qed.

Lemma scheduler_call_work_left inside call s s' :
  scheduler_call inside call s = Done s' →
  call ≠ CallDidCreateAndInitializeOutputSurface →
  (work_left s' ≤ work_left s)%nat.
Proof.
  intros H Hne. destruct call; cbn [scheduler_call] in H;
    eauto using NotifyReadyToCommit_work_left, BeginMainFrameAborted_work_left;
    try done;
    unfold SetVisible, NotifyReadyToActivate, SetNeedsPrepareTiles, DidSwapBuffers,
      DidLoseOutputSurface, NotifyBeginMainFrameStarted in H;
    inv_done; prop_bools; subst; weigh; prop_bools;
    try match goal with E : begin_main_frame_state_ s = _ |- _ => rewrite E end;
    weigh_cases.
Qed.

Lemma WillCommit_needs_prepare_tiles u s s' :
  WillCommit u s = Done s' → needs_prepare_tiles_ s' = needs_prepare_tiles_ s.
Proof. unfold WillCommit. intros H. inv_done. subst. reflexivity. Qed.

Lemma DidDrawIfPossibleCompleted_frame result s s' :
  DidDrawIfPossibleCompleted result s = Done s' →
  work_left s' = work_left s ∧ needs_prepare_tiles_ s' = needs_prepare_tiles_ s.
Proof.
  unfold DidDrawIfPossibleCompleted. intros H.
  destruct result; try discriminate; repeat case_match; inv_done; subst;
    split; reflexivity.
Qed.

(** Inside [ACTION_PREPARE_TILES] no call can ask for another one. *)
Lemma scheduler_call_prepare_tiles call s s' :
  scheduler_call ACTION_PREPARE_TILES call s = Done s' →
  needs_prepare_tiles_ s' = needs_prepare_tiles_ s ∨ needs_prepare_tiles_ s' = false.
Proof.
  intros H. destruct call; cbn [scheduler_call] in H;
    unfold SetVisible, NotifyReadyToActivate, SetNeedsPrepareTiles, DidSwapBuffers,
      DidLoseOutputSurface, NotifyBeginMainFrameStarted, NotifyReadyToCommit,
      BeginMainFrameAborted, DidCreateAndInitializeOutputSurface in H;
    repeat case_match; inv_done; prop_bools; subst;
    first [left; reflexivity | right; reflexivity | congruence
          | left; by eapply WillCommit_needs_prepare_tiles].
Qed.

Section Termination.
Context {C : Type}.
Context (client : C → Action → SchedulerStateMachine →
                  C * list ClientCall * DrawResult).
(** The only call that would start a new cycle of actions: a new output surface
    is delivered by a posted task, never from inside an action. *)
Context (client_creates_later : ∀ c action s,
  CallDidCreateAndInitializeOutputSurface ∉ (client c action s).1.2).

Lemma run_calls_work_left inside calls s s' :
  run_calls inside calls s = Done s' →
  CallDidCreateAndInitializeOutputSurface ∉ calls →
  (work_left s' ≤ work_left s)%nat.
Proof using.
  revert s. induction calls as [|call calls IH]; cbn [run_calls]; intros s H Hin.
  - inv_done. by subst.
  - inv_done. apply not_elem_of_cons in Hin as [Hne Hin].
    apply scheduler_call_work_left in E; [|congruence].
    specialize (IH _ H Hin). lia.
Qed.

Lemma run_calls_prepare_tiles calls s s' :
  run_calls ACTION_PREPARE_TILES calls s = Done s' →
  needs_prepare_tiles_ s = false → needs_prepare_tiles_ s' = false.
Proof using.
  revert s. induction calls as [|call calls IH]; cbn [run_calls]; intros s H Hs;
    inv_done; [by subst|].
  apply (IH _ H). apply scheduler_call_prepare_tiles in E as [->|]; done.
Qed.

Lemma finish_action_work_left action result s s' :
  finish_action action result s = Done s' →
  work_left s' = work_left s ∧ needs_prepare_tiles_ s' = needs_prepare_tiles_ s.
Proof using.
  intros H. destruct action; cbn [finish_action] in H;
    eauto using DidDrawIfPossibleCompleted_frame; inv_done; by subst.
Qed.

(** The facts about [s] that made the loop choose [action]. *)
Lemma NextAction_cases s action :
  NextAction s = Done action →
  match action with
  | ACTION_ACTIVATE_SYNC_TREE => ShouldActivatePendingTree s = true
  | ACTION_COMMIT => ShouldCommit s = Done true
  | ACTION_ANIMATE => ShouldAnimate s = true
  | ACTION_DRAW_AND_SWAP_ABORT =>
      ShouldDraw s = true ∧ PendingDrawsShouldBeAborted s = true
  | ACTION_DRAW_AND_SWAP_FORCED =>
      ShouldDraw s = true ∧ PendingDrawsShouldBeAborted s = false ∧
      forced_redraw_state_ s = FORCED_REDRAW_STATE_WAITING_FOR_DRAW
  | ACTION_DRAW_AND_SWAP_IF_POSSIBLE =>
      ShouldDraw s = true ∧ PendingDrawsShouldBeAborted s = false ∧
      forced_redraw_state_ s ≠ FORCED_REDRAW_STATE_WAITING_FOR_DRAW
  | ACTION_PREPARE_TILES => ShouldPrepareTiles s = true
  | ACTION_SEND_BEGIN_MAIN_FRAME => ShouldSendBeginMainFrame s = true
  | ACTION_INVALIDATE_OUTPUT_SURFACE => ShouldInvalidateOutputSurface s = true
  | ACTION_BEGIN_OUTPUT_SURFACE_CREATION => ShouldBeginOutputSurfaceCreation s = true
  | ACTION_NONE =>
      ShouldActivatePendingTree s = false ∧ ShouldCommit s = Done false ∧
      ShouldAnimate s = false ∧ ShouldDraw s = false ∧
      ShouldPrepareTiles s = false ∧ ShouldSendBeginMainFrame s = false ∧
      ShouldInvalidateOutputSurface s = false ∧
      ShouldBeginOutputSurfaceCreation s = false
  end.
Proof using.
  unfold NextAction. intros H.
  destruct (ShouldActivatePendingTree s) eqn:?; inv_done; [by subst|]. subst action.
  destruct a; [done|].
  destruct (ShouldAnimate s) eqn:?; [done|].
  destruct (ShouldDraw s) eqn:?.
  { destruct (PendingDrawsShouldBeAborted s) eqn:?; [done|].
    by case_bool_decide. }
  destruct (ShouldPrepareTiles s) eqn:?; [done|].
  destruct (ShouldSendBeginMainFrame s) eqn:?; [done|].
  destruct (ShouldInvalidateOutputSurface s) eqn:?; [done|].
  by destruct (ShouldBeginOutputSurfaceCreation s) eqn:?.
Qed.

(** What each guard says about the funnel, tree or frame its action consumes. *)
Lemma ShouldAnimate_inv s :
  ShouldAnimate s = true →
  animate_funnel_ s = false ∧ output_surface_state_ s = OUTPUT_SURFACE_ACTIVE.
Proof using. unfold ShouldAnimate. by destruct (animate_funnel_ s); case_tests. Qed.

Lemma ShouldDraw_swap_inv s :
  ShouldDraw s = true → PendingDrawsShouldBeAborted s = false →
  request_swap_funnel_ s = false ∧ output_surface_state_ s = OUTPUT_SURFACE_ACTIVE ∧
  SwapThrottled s = false ∧
  begin_impl_frame_state_ s = BEGIN_IMPL_FRAME_STATE_INSIDE_DEADLINE.
Proof using.
  unfold ShouldDraw. intros H Hp. rewrite Hp in H.
  destruct (request_swap_funnel_ s), (SwapThrottled s); case_tests; try done.
  all: by repeat split.
Qed.

Lemma ShouldDraw_abort_inv s :
  ShouldDraw s = true → PendingDrawsShouldBeAborted s = true →
  active_tree_needs_first_draw_ s = true.
Proof using. unfold ShouldDraw. intros H Hp. by rewrite Hp in H. Qed.

Lemma ShouldActivatePendingTree_inv s :
  ShouldActivatePendingTree s = true →
  has_pending_tree_ s = true ∧ active_tree_needs_first_draw_ s = false ∧
  (PendingActivationsShouldBeForced s = true ∨
   pending_tree_is_ready_for_activation_ s = true).
Proof using.
  unfold ShouldActivatePendingTree.
  destruct (has_pending_tree_ s), (active_tree_needs_first_draw_ s),
    (PendingActivationsShouldBeForced s); naive_solver.
Qed.

Lemma ShouldCommit_inv s :
  ShouldCommit s = Done true →
  begin_main_frame_state_ s = BEGIN_MAIN_FRAME_STATE_READY_TO_COMMIT ∧
  has_pending_tree_ s = false ∧
  (commit_to_active_tree (settings_ s) = true → active_tree_needs_first_draw_ s = false).
Proof using.
  unfold ShouldCommit. intros H. case_tests; inv_done; try done.
  split_and!; [done|done|]. intros Hc. rewrite Hc in E.
  by apply negb_true_iff.
Qed.

Lemma CouldSendBeginMainFrame_inv s :
  CouldSendBeginMainFrame s = true →
  needs_begin_main_frame_ s = true ∧ visible_ s = true ∧ defer_commits_ s = false.
Proof using.
  unfold CouldSendBeginMainFrame.
  by destruct (needs_begin_main_frame_ s), (visible_ s), (defer_commits_ s).
Qed.

Lemma ShouldSendBeginMainFrame_inv s :
  ShouldSendBeginMainFrame s = true →
  CouldSendBeginMainFrame s = true ∧ send_begin_main_frame_funnel_ s = false ∧
  begin_main_frame_state_ s = BEGIN_MAIN_FRAME_STATE_IDLE ∧
  (forced_redraw_state_ s = FORCED_REDRAW_STATE_WAITING_FOR_COMMIT ∨
   HasInitializedOutputSurface s = true).
Proof using.
  unfold ShouldSendBeginMainFrame. intros H.
  destruct (CouldSendBeginMainFrame s); [|done].
  destruct (send_begin_main_frame_funnel_ s); [done|].
  case_bool_decide as HM; [done|].
  split_and!; try done.
  destruct (impl_latency_takes_priority_ s && _); [done|].
  destruct (negb (using_synchronous_renderer_compositor (settings_ s)) && _); [done|].
  case_bool_decide; [by left|]. right.
  by destruct (HasInitializedOutputSurface s).
Qed.

Lemma ShouldPrepareTiles_inv s :
  ShouldPrepareTiles s = true → needs_prepare_tiles_ s = true.
Proof using. unfold ShouldPrepareTiles. by case_tests. Qed.

Lemma ShouldInvalidateOutputSurface_inv s :
  ShouldInvalidateOutputSurface s = true → invalidate_output_surface_funnel_ s = false.
Proof using.
  unfold ShouldInvalidateOutputSurface. by destruct (invalidate_output_surface_funnel_ s).
Qed.

Lemma ShouldBeginOutputSurfaceCreation_inv s :
  ShouldBeginOutputSurfaceCreation s = true →
  output_surface_state_ s = OUTPUT_SURFACE_NONE ∧ visible_ s = true ∧
  begin_main_frame_state_ s = BEGIN_MAIN_FRAME_STATE_IDLE ∧
  begin_impl_frame_state_ s = BEGIN_IMPL_FRAME_STATE_IDLE ∧
  active_tree_needs_first_draw_ s = false ∧ has_pending_tree_ s = false.
Proof using.
  unfold ShouldBeginOutputSurfaceCreation.
  destruct (visible_ s), (active_tree_needs_first_draw_ s), (has_pending_tree_ s);
    cbn; case_tests; try done; intros; prop_bools.
Qed.

Lemma WillDraw_work_left b s s' :
  WillDraw b s = Done s' →
  (work_left s' + b2n b + b2n (active_tree_needs_first_draw_ s)
     ≤ work_left s)%nat.
Proof using.
  unfold WillDraw. intros H. destruct b; inv_done; prop_bools; subst.
  - cbn [set_field request_swap_funnel_] in E. weigh. rewrite E.
    weigh_cases.
  - weigh. weigh_cases.
Qed.

Lemma WillAnimate_work_left s s' :
  WillAnimate s = Done s' → (work_left s' + 1 ≤ work_left s)%nat.
Proof using.
  unfold WillAnimate. intros H. inv_done. prop_bools. subst. weigh. rewrite E.
  weigh_cases.
Qed.

Lemma WillSendBeginMainFrame_work_left s s' :
  WillSendBeginMainFrame s = Done s' →
  begin_main_frame_state_ s = BEGIN_MAIN_FRAME_STATE_IDLE →
  (work_left s' + 1 ≤ work_left s)%nat.
Proof using.
  unfold WillSendBeginMainFrame. intros H HM. inv_done. prop_bools. subst. weigh.
  rewrite E1, HM. weigh_cases.
Qed.

Lemma WillActivate_work_left s :
  has_pending_tree_ s = true → active_tree_needs_first_draw_ s = false →
  (work_left (WillActivate s) + 1 ≤ work_left s)%nat.
Proof using.
  intros Hp Ha. unfold WillActivate. weigh. rewrite Hp, Ha. weigh_cases.
Qed.

Lemma WillBeginOutputSurfaceCreation_work_left s s' :
  WillBeginOutputSurfaceCreation s = Done s' → (work_left s' + 1 ≤ work_left s)%nat.
Proof using.
  unfold WillBeginOutputSurfaceCreation. intros H. inv_done. prop_bools.
  clear E0 E1 E2. subst. weigh. rewrite E. weigh_cases.
Qed.

Lemma WillInvalidateOutputSurface_work_left s s' :
  WillInvalidateOutputSurface s = Done s' → (work_left s' + 1 ≤ work_left s)%nat.
Proof using.
  unfold WillInvalidateOutputSurface. intros H. inv_done. prop_bools. subst. weigh.
  rewrite E. weigh_cases.
Qed.

Lemma WillPrepareTiles_frame s :
  work_left (WillPrepareTiles s) = work_left s ∧
  needs_prepare_tiles_ (WillPrepareTiles s) = false.
Proof using. unfold WillPrepareTiles. split; [by weigh | reflexivity]. Qed.

Lemma start_action_decreases s action s' :
  NextAction s = Done action → action ≠ ACTION_NONE →
  start_action action s = Done s' →
  if bool_decide (action = ACTION_PREPARE_TILES)
  then work_left s' = work_left s ∧ needs_prepare_tiles_ s = true ∧
       needs_prepare_tiles_ s' = false
  else (work_left s' + 1 ≤ work_left s)%nat.
Proof using.
  intros Hnext Hne H. apply NextAction_cases in Hnext.
  destruct action; cbn [start_action] in H; try done; case_bool_decide; try done.
  - by apply WillAnimate_work_left.
  - apply WillSendBeginMainFrame_work_left; [done|].
    by apply ShouldSendBeginMainFrame_inv in Hnext as (_ & _ & ? & _).
  - apply ShouldCommit_inv in Hnext as (HM & _ & _).
    apply WillCommit_work_left in H. rewrite main_frame_weight_commit in H by auto.
    cbn [b2n] in H. lia.
  - apply ShouldActivatePendingTree_inv in Hnext as (Hp & Ha & _).
    apply (proj1 (Done_eq _ _)) in H. subst s'. by apply WillActivate_work_left.
  - apply WillDraw_work_left in H. cbn [b2n] in H. lia.
  - apply WillDraw_work_left in H. cbn [b2n] in H. lia.
  - destruct Hnext as (Hs & Hab). apply ShouldDraw_abort_inv in Hs; [|done].
    apply WillDraw_work_left in H. rewrite Hs in H. cbn [b2n] in H. lia.
  - by apply WillBeginOutputSurfaceCreation_work_left.
  - apply ShouldPrepareTiles_inv in Hnext. apply (proj1 (Done_eq _ _)) in H. subst s'.
    destruct (WillPrepareTiles_frame s) as [Hw Hn].
    exact (conj Hw (conj Hnext Hn)).
  - by apply WillInvalidateOutputSurface_work_left.
Qed.

Lemma perform_action_decreases action c s c' s' :
  NextAction s = Done action → action ≠ ACTION_NONE →
  perform_action client action c s = Done (c', s') →
  (actions_left s' < actions_left s)%nat.
Proof using client_creates_later.
  intros Hnext Hne H. unfold perform_action in H. inv_done.
  pose proof (start_action_decreases _ _ _ Hnext Hne E) as Hdec.
  assert ((work_left s' ≤ work_left a)%nat ∧
          (action = ACTION_PREPARE_TILES → needs_prepare_tiles_ a = false →
           needs_prepare_tiles_ s' = false)) as [Hle Hpt].
  { pose proof (client_creates_later c action a) as Hin.
    destruct (client c action a) as [[c1 calls] result] eqn:Ec. cbn in Hin.
    destruct action; inv_done; simplify_eq; try done;
      match goal with Hr : run_calls _ _ _ = Done _,
                      Hf : finish_action _ _ _ = Done _ |- _ =>
        apply run_calls_work_left in Hr as Hle; [|done];
        apply finish_action_work_left in Hf as [-> Hn]
      end; (split; [done|]); try done.
    intros _ Hs. rewrite Hn. by eapply run_calls_prepare_tiles. }
  unfold actions_left. case_bool_decide as Hp.
  - destruct Hdec as (Heq & Ht & Hf). rewrite Hpt, Ht by done. cbn [b2n]. lia.
  - pose proof (b2n_le (needs_prepare_tiles_ s')). lia.
Qed.

Lemma process_actions_fuel fuel c s :
  (actions_left s < fuel)%nat → process_actions client fuel c s ≠ Done None.
Proof using client_creates_later.
  revert c s. induction fuel as [|fuel IH]; intros c s Hlt; [lia|].
  cbn [process_actions]. intros H. inv_done.
  case_bool_decide as Hne; [discriminate|]. inv_done. destruct a0 as [c' s'].
  apply perform_action_decreases in E0 as Hd; [|done|done].
  cbn [fst snd] in *. destruct a1 as [[[] ]|]; [discriminate|].
  eapply IH; [|exact E1]. lia.
Qed.

Lemma process_actions_length fuel c s c' s' actions :
  process_actions client fuel c s = Done (Some (c', s', actions)) →
  (length actions + actions_left s' ≤ actions_left s)%nat ∧
  NextAction s' = Done ACTION_NONE.
Proof using client_creates_later.
  revert c s actions. induction fuel as [|fuel IH]; intros c s actions H; [done|].
  cbn [process_actions] in H. inv_done.
  case_bool_decide as Hne; [simplify_eq; cbn; split; [lia|done]|]. inv_done.
  destruct a0 as [c1 s1].
  apply perform_action_decreases in E0 as Hd; [|done|done].
  destruct a1 as [[[? ?] ?]|]; [|discriminate]. simplify_eq.
  apply IH in E1 as [? ?]. cbn in *. split; [lia|done].
Qed.

Lemma actions_left_le s : (actions_left s ≤ 33)%nat.
Proof using.
  unfold actions_left, work_left, main_frame_weight.
  destruct (begin_main_frame_state_ s); pose_b2n; lia.
Qed.

End Termination.


(** ** When the loop stops *)

Lemma process_actions_next {C} (client : C → Action → SchedulerStateMachine →
    C * list ClientCall * DrawResult) fuel c s c' s' actions :
  process_actions client fuel c s = Done (Some (c', s', actions)) →
  NextAction s' = Done ACTION_NONE.
Proof.
  revert c s actions. induction fuel as [|fuel IH]; intros c s actions H; [done|].
  cbn [process_actions] in H. inv_done.
  case_bool_decide as Hne; [by simplify_eq|]. inv_done.
  destruct a0 as [c1 s1]. destruct a1 as [[[? ?] ?]|]; [|discriminate]. simplify_eq.
  by eapply IH.
Qed.

(** A compositor that cannot show frames drains its pipeline.  When the
    action loop stops, for any client, and activations are forced and draws
    aborted (the output surface is lost, or the compositor is invisible and not
    in a resourceless draw), then no pending tree is left, no active tree still
    waits for its first draw, and no commit is ready: nothing blocks the creation
    of the next output surface but the main thread and the impl frame. *)
Theorem stopped_pipeline_is_flushed {C} (client : C → Action → SchedulerStateMachine →
    C * list ClientCall * DrawResult) fuel c s c' s' actions :
  process_actions client fuel c s = Done (Some (c', s', actions)) →
  PendingActivationsShouldBeForced s' = true →
  PendingDrawsShouldBeAborted s' = true →
  has_pending_tree_ s' = false ∧
  active_tree_needs_first_draw_ s' = false ∧
  begin_main_frame_state_ s' ≠ BEGIN_MAIN_FRAME_STATE_READY_TO_COMMIT ∧
  (output_surface_state_ s' = OUTPUT_SURFACE_NONE → visible_ s' = true →
   begin_main_frame_state_ s' ≠ BEGIN_MAIN_FRAME_STATE_IDLE ∨
   begin_impl_frame_state_ s' ≠ BEGIN_IMPL_FRAME_STATE_IDLE).
Proof.
  intros H Ha Hd. apply process_actions_next, NextAction_cases in H.
  destruct H as (Hact & Hcom & _ & Hdraw & _ & _ & _ & Hcr).
  unfold ShouldDraw in Hdraw. rewrite Hd in Hdraw.
  unfold ShouldActivatePendingTree in Hact. rewrite Ha, Hdraw in Hact.
  assert (has_pending_tree_ s' = false) as Hp by (by destruct (has_pending_tree_ s')).
  unfold ShouldCommit in Hcom. rewrite Hp, Hdraw, orb_true_r in Hcom.
  unfold ShouldBeginOutputSurfaceCreation in Hcr. rewrite Hp, Hdraw in Hcr.
  split_and!; [done|done| |].
  - intros HM. by rewrite HM in Hcom.
  - intros Ho Hv. rewrite Ho, Hv in Hcr. cbn in Hcr.
    repeat case_bool_decide; naive_solver.
Qed.

(** ** Who asks for BeginFrames *)

Lemma BeginFrameNeeded_false s :
  HasInitializedOutputSurface s = true → visible_ s = true →
  BeginFrameNeeded s = false →
  needs_animate_ s = false ∧ needs_redraw_ s = false ∧ has_pending_tree_ s = false ∧
  needs_prepare_tiles_ s = false ∧
  forced_redraw_state_ s ≠ FORCED_REDRAW_STATE_WAITING_FOR_DRAW ∧
  (defer_commits_ s = false →
   needs_begin_main_frame_ s = false ∧
   begin_main_frame_state_ s = BEGIN_MAIN_FRAME_STATE_IDLE).
Proof.
  unfold BeginFrameNeeded. intros Ho Hv Hn. rewrite Ho, Hv in Hn. cbn [negb] in Hn.
  prop_bools. unfold BeginFrameRequiredForAction, ProactiveBeginFrameWanted in *.
  rewrite Hv in *. cbn [negb] in *.
  destruct (bool_decide (forced_redraw_state_ s = _)) eqn:Hf; [discriminate|].
  destruct (bool_decide (begin_main_frame_state_ s ≠ _) && negb (defer_commits_ s))
    eqn:HM; [discriminate|].
  destruct (has_pending_tree_ s); [discriminate|].
  destruct (needs_prepare_tiles_ s); [discriminate|].
  prop_bools. split_and!; try done. intros Hd. rewrite Hd, andb_true_r in *.
  split; [done|]. by case_bool_decide.
Qed.

Lemma NextAction_no_work s action :
  NextAction s = Done action →
  HasInitializedOutputSurface s = true → visible_ s = true →
  needs_animate_ s = false → needs_redraw_ s = false → has_pending_tree_ s = false →
  needs_prepare_tiles_ s = false →
  forced_redraw_state_ s ≠ FORCED_REDRAW_STATE_WAITING_FOR_DRAW →
  (defer_commits_ s = false →
   needs_begin_main_frame_ s = false ∧
   begin_main_frame_state_ s = BEGIN_MAIN_FRAME_STATE_IDLE) →
  action = ACTION_NONE ∨ (action = ACTION_COMMIT ∧ defer_commits_ s = true) ∨
  (action = ACTION_DRAW_AND_SWAP_ABORT ∧ can_draw_ s = false).
Proof.
  intros H Ho Hv Ha Hr Hp Ht Hf Hd. apply NextAction_cases in H.
  assert (∀ P, ShouldDraw s = true → PendingDrawsShouldBeAborted s = false → P) as Hdraw.
  { intros P. unfold ShouldDraw. intros H1 H2. rewrite H2, Hr in H1.
    rewrite (bool_decide_eq_false_2 (forced_redraw_state_ s = _)) in H1 by done.
    by repeat case_match. }
  destruct action; auto.
  - unfold ShouldAnimate in H. rewrite Ha, Hr in H. by repeat case_match.
  - apply ShouldSendBeginMainFrame_inv in H as (H & _).
    apply CouldSendBeginMainFrame_inv in H as (Hb & _ & Hdf). naive_solver congruence.
  - apply ShouldCommit_inv in H as (HM & _ & _).
    destruct (defer_commits_ s); [by auto|]. destruct (Hd eq_refl). congruence.
  - apply ShouldActivatePendingTree_inv in H as (? & _). congruence.
  - destruct H as (? & ? & _). by apply Hdraw.
  - destruct H as (? & ? & _). by apply Hdraw.
  - destruct H as (_ & H). right; right. split; [done|].
    unfold PendingDrawsShouldBeAborted in H. unfold HasInitializedOutputSurface in Ho.
    destruct (output_surface_state_ s); try discriminate; rewrite Hv in H;
      by destruct (resourceless_draw_ s), (can_draw_ s).
  - apply ShouldBeginOutputSurfaceCreation_inv in H as (H & _).
    unfold HasInitializedOutputSurface in Ho. by rewrite H in Ho.
  - apply ShouldPrepareTiles_inv in H. congruence.
  - unfold ShouldInvalidateOutputSurface in H. rewrite Hr, Ht in H. by repeat case_match.
Qed.

(** [s] in any phase of an impl frame, with any funnels. *)
Definition in_frame (phase : BeginImplFrameState) (f1 f2 f3 f4 : bool) (n : Z)
    (s : SchedulerStateMachine) : SchedulerStateMachine :=
  s <| begin_impl_frame_state_ := phase |>
    <| animate_funnel_ := f1 |>
    <| request_swap_funnel_ := f2 |>
    <| send_begin_main_frame_funnel_ := f3 |>
    <| invalidate_output_surface_funnel_ := f4 |>
    <| prepare_tiles_funnel_ := n |>.

(** [BeginFrameNeeded] is complete.  In a state of a visible compositor with
    an initialized output surface that says it needs no BeginFrame, no phase of an
    impl frame and no reset of a funnel makes any action possible that an impl
    frame exists for: nothing to animate, draw, prepare, activate, invalidate or
    send to the main thread is missed by not asking for a frame.  Only a commit
    that the main thread delivers while commits are deferred, or the abort of a
    draw that is not possible, can follow. *)
Theorem no_begin_frame_no_action s phase f1 f2 f3 f4 n action :
  HasInitializedOutputSurface s = true → visible_ s = true →
  BeginFrameNeeded s = false →
  NextAction (in_frame phase f1 f2 f3 f4 n s) = Done action →
  action = ACTION_NONE ∨ (action = ACTION_COMMIT ∧ defer_commits_ s = true) ∨
  (action = ACTION_DRAW_AND_SWAP_ABORT ∧ can_draw_ s = false).
Proof.
  intros Ho Hv Hn H.
  destruct (BeginFrameNeeded_false s Ho Hv Hn) as (Ha & Hr & Hp & Ht & Hf & Hd).
  apply (NextAction_no_work _ _ H); assumption.
Qed.
