(* ===== verification/SchedulerProtocol.v ===== *)
(** * The scheduler and its environment as a state machine

    The callers of [Scheduler] follow a protocol that the comments of
    scheduler_state_machine.h and the code of thread_proxy.cc describe: the main
    thread answers a BeginMainFrame once, an output surface is delivered after it
    was asked for, buffers are swapped inside a draw action and every swap is
    acknowledged once.  [Config] is the state machine together with what its
    environment remembers, [enabled] is that protocol and [fire] the effect of
    an event.  The theorems are about every sequence of enabled events. *)

From S2P Require Import Prelude SchedulerStateMachine Scheduler.

Inductive MainThread : Type :=
  | MainIdle
  | MainRequested (* ScheduledActionSendBeginMainFrame was called *)
  | MainStarted   (* NotifyBeginMainFrameStarted was called *).
#[export] Instance MainThread_eq_dec : EqDecision MainThread.
Proof. solve_decision. Defined.

Record Config : Type := mkConfig {
  machine : SchedulerStateMachine;
  inside_action_ : Action;      (* ACTION_NONE between actions *)
  main_thread : MainThread;
  surface_requested : bool;     (* ScheduledActionBeginOutputSurfaceCreation *)
  may_swap : bool;              (* inside a draw that has not swapped yet *)
  unacked_swaps : Z
}.
#[export] Instance eta_Config : Eta Config := λ c,
  mkConfig (machine c) (inside_action_ c) (main_thread c) (surface_requested c)
    (may_swap c) (unacked_swaps c).

Definition init_Config (settings : SchedulerSettings) : Config :=
  {| machine := init_SchedulerStateMachine settings;
     inside_action_ := ACTION_NONE;
     main_thread := MainIdle;
     surface_requested := false;
     may_swap := false;
     unacked_swaps := 0 |}.

Inductive event : Type :=
  | EvCall (call : ClientCall)
  | EvAction                        (* an iteration of ProcessScheduledActions *)
  | EvActionDone (result : DrawResult) (* the client returns from the action *)
  | EvOnBeginImplFrame
  | EvOnBeginImplFrameDeadlinePending
  | EvOnBeginImplFrameDeadline
  | EvOnBeginImplFrameIdle
  | EvSetSkipNextBeginMainFrameToReduceLatency.

(** Results [DrawAndSwapIfPossible] may return; a tree that is committed to
    directly never checkerboards (layer_tree_host_impl.cc, 962). *)
Definition valid_draw_result (s : SchedulerStateMachine) (result : DrawResult) : bool :=
  match result with
  | DRAW_SUCCESS | DRAW_ABORTED_MISSING_HIGH_RES_CONTENT => true
  | DRAW_ABORTED_CHECKERBOARD_ANIMATIONS => negb (commit_to_active_tree (settings_ s))
  | _ => false
  end.

Definition enabled_call (c : Config) (call : ClientCall) : bool :=
  match call with
  | CallSetNeedsPrepareTiles =>
      negb (bool_decide (inside_action_ c = ACTION_PREPARE_TILES))
  | CallSetMaxSwapsPending _ => negb (may_swap c)
  | CallDidSwapBuffers => may_swap c
  | CallDidSwapBuffersComplete => 0 <? unacked_swaps c
  | CallNotifyBeginMainFrameStarted => bool_decide (main_thread c = MainRequested)
  | CallNotifyReadyToCommit
  | CallBeginMainFrameAborted _ => bool_decide (main_thread c = MainStarted)
  | CallDidCreateAndInitializeOutputSurface => surface_requested c
  | _ => true
  end.

(** The phases of an impl frame follow [BeginImplFrameWithDeadline],
    [BeginImplFrameSynchronous], [OnDrawForOutputSurface] and [FinishImplFrame]. *)
Definition enabled_phase (s : SchedulerStateMachine) (e : event) : bool :=
  let synchronous := using_synchronous_renderer_compositor (settings_ s) in
  match e, begin_impl_frame_state_ s with
  | EvOnBeginImplFrame, BEGIN_IMPL_FRAME_STATE_IDLE => HasInitializedOutputSurface s
  | EvSetSkipNextBeginMainFrameToReduceLatency, BEGIN_IMPL_FRAME_STATE_IDLE => true
  | EvOnBeginImplFrameDeadlinePending, BEGIN_IMPL_FRAME_STATE_BEGIN_FRAME_STARTING =>
      negb synchronous
  | EvOnBeginImplFrameDeadline, BEGIN_IMPL_FRAME_STATE_INSIDE_BEGIN_FRAME =>
      negb synchronous
  | EvOnBeginImplFrameDeadline, BEGIN_IMPL_FRAME_STATE_IDLE => synchronous
  | EvOnBeginImplFrameIdle, BEGIN_IMPL_FRAME_STATE_INSIDE_DEADLINE => true
  | EvOnBeginImplFrameIdle, BEGIN_IMPL_FRAME_STATE_BEGIN_FRAME_STARTING => synchronous
  | _, _ => false
  end.

Definition enabled (c : Config) (e : event) : bool :=
  match e with
  | EvCall call => enabled_call c call
  | EvAction => bool_decide (inside_action_ c = ACTION_NONE)
  | EvActionDone result =>
      negb (bool_decide (inside_action_ c = ACTION_NONE)) &&
      (negb (bool_decide (inside_action_ c = ACTION_DRAW_AND_SWAP_IF_POSSIBLE)) ||
       valid_draw_result (machine c) result)
  | _ => bool_decide (inside_action_ c = ACTION_NONE) && enabled_phase (machine c) e
  end.

(** What the environment remembers of a call and of an action. *)
Definition after_call (call : ClientCall) (c : Config) : Config :=
  match call with
  | CallDidSwapBuffers =>
      c <| may_swap := false |> <| unacked_swaps := unacked_swaps c + 1 |>
  | CallDidSwapBuffersComplete => c <| unacked_swaps := unacked_swaps c - 1 |>
  | CallNotifyBeginMainFrameStarted => c <| main_thread := MainStarted |>
  | CallNotifyReadyToCommit
  | CallBeginMainFrameAborted _ => c <| main_thread := MainIdle |>
  | CallDidCreateAndInitializeOutputSurface =>
      c <| surface_requested := false |> <| unacked_swaps := 0 |>
  | _ => c
  end.

Definition after_action (action : Action) (c : Config) : Config :=
  match action with
  | ACTION_SEND_BEGIN_MAIN_FRAME => c <| main_thread := MainRequested |>
  | ACTION_BEGIN_OUTPUT_SURFACE_CREATION => c <| surface_requested := true |>
  | ACTION_DRAW_AND_SWAP_IF_POSSIBLE
  | ACTION_DRAW_AND_SWAP_FORCED => c <| may_swap := true |>
  | _ => c
  end.

Definition fire (e : event) (c : Config) : outcome Config :=
  let s := machine c in
  match e with
  | EvCall call =>
      s ← scheduler_call (inside_action_ c) call s;
      Done (after_call call (c <| machine := s |>))
  | EvAction =>
      action ← NextAction s;
      s ← start_action action s;
      Done (after_action action (c <| machine := s |> <| inside_action_ := action |>))
  | EvActionDone result =>
      s ← finish_action (inside_action_ c) result s;
      Done (c <| machine := s |> <| inside_action_ := ACTION_NONE |> <| may_swap := false |>)
  | EvOnBeginImplFrame => Done (c <| machine := OnBeginImplFrame s |>)
  | EvOnBeginImplFrameDeadlinePending =>
      Done (c <| machine := OnBeginImplFrameDeadlinePending s |>)
  | EvOnBeginImplFrameDeadline => Done (c <| machine := OnBeginImplFrameDeadline s |>)
  | EvOnBeginImplFrameIdle => Done (c <| machine := OnBeginImplFrameIdle s |>)
  | EvSetSkipNextBeginMainFrameToReduceLatency =>
      Done (c <| machine := SetSkipNextBeginMainFrameToReduceLatency s |>)
  end.

(** Runs of enabled events, with their events in order. *)
Inductive run (c : Config) : list event → Config → Prop :=
  | run_nil : run c [] c
  | run_snoc es c1 e c2 :
      run c es c1 → enabled c1 e = true → fire e c1 = Done c2 →
      run c (es ++ [e]) c2.

Definition reachable (settings : SchedulerSettings) (c : Config) : Prop :=
  ∃ es, run (init_Config settings) es c.

Strategy expand [fire after_call after_action enabled enabled_call].

(** ** The fields the protocol depends on *)

Record View : Type := mkView {
  v_settings : SchedulerSettings;
  v_main_frame : BeginMainFrameState;
  v_surface : OutputSurfaceState;
  v_pending_tree : bool;
  v_first_draw : bool;
  v_forced : ForcedRedrawOnTimeoutState;
  v_swaps : Z;
  v_max_swaps : Z
}.

Definition view (s : SchedulerStateMachine) : View :=
  {| v_settings := settings_ s;
     v_main_frame := begin_main_frame_state_ s;
     v_surface := output_surface_state_ s;
     v_pending_tree := has_pending_tree_ s;
     v_first_draw := active_tree_needs_first_draw_ s;
     v_forced := forced_redraw_state_ s;
     v_swaps := pending_swaps_ s;
     v_max_swaps := max_pending_swaps_ s |}.

(** The invariant that keeps every DCHECK true when the main thread is not sent a
    frame before the previous tree is active. *)
Record good (v : View) (main : MainThread) (requested swapping : bool) (unacked : Z) :
    Prop := {
  good_settings : main_frame_before_activation_enabled (v_settings v) = false;
  good_requested : main = MainRequested ↔ v_main_frame v = BEGIN_MAIN_FRAME_STATE_SENT;
  good_started : main = MainStarted ↔ v_main_frame v = BEGIN_MAIN_FRAME_STATE_STARTED;
  good_creating : requested = true ↔ v_surface v = OUTPUT_SURFACE_CREATING;
  good_pending : v_pending_tree v = true ↔
    v_main_frame v = BEGIN_MAIN_FRAME_STATE_WAITING_FOR_ACTIVATION;
  good_first_activation :
    v_surface v = OUTPUT_SURFACE_WAITING_FOR_FIRST_ACTIVATION → v_pending_tree v = true;
  good_first_draw :
    commit_to_active_tree (v_settings v) = true → v_first_draw v = true →
    v_main_frame v = BEGIN_MAIN_FRAME_STATE_WAITING_FOR_DRAW;
  good_forced :
    commit_to_active_tree (v_settings v) = true → v_forced v = FORCED_REDRAW_STATE_IDLE;
  good_swap : swapping = true → v_swaps v < v_max_swaps v;
  good_unacked : unacked = v_swaps v;
  good_swaps : 0 <= v_swaps v
}.

Definition good_config (c : Config) : Prop :=
  good (view (machine c)) (main_thread c) (surface_requested c) (may_swap c)
    (unacked_swaps c).

(** ** The effect of the operations on the view *)

Definition v_commit (u : bool) (v : View) : View :=
  let forced :=
    if bool_decide (v_forced v = FORCED_REDRAW_STATE_WAITING_FOR_COMMIT)
    then if negb u then FORCED_REDRAW_STATE_WAITING_FOR_ACTIVATION
         else FORCED_REDRAW_STATE_WAITING_FOR_DRAW
    else v_forced v in
  mkView (v_settings v)
    (if u || main_frame_before_activation_enabled (v_settings v)
     then BEGIN_MAIN_FRAME_STATE_IDLE else BEGIN_MAIN_FRAME_STATE_WAITING_FOR_ACTIVATION)
    (if bool_decide (v_surface v = OUTPUT_SURFACE_WAITING_FOR_FIRST_COMMIT)
     then if negb u then OUTPUT_SURFACE_WAITING_FOR_FIRST_ACTIVATION
          else OUTPUT_SURFACE_ACTIVE
     else v_surface v)
    (negb u)
    (if u && bool_decide (forced = FORCED_REDRAW_STATE_WAITING_FOR_DRAW)
     then true else v_first_draw v)
    forced (v_swaps v) (v_max_swaps v).

Lemma WillCommit_done u s :
  output_surface_state_ s ≠ OUTPUT_SURFACE_WAITING_FOR_FIRST_ACTIVATION →
  ∃ s', WillCommit u s = Done s' ∧ view s' = v_commit u (view s).
Proof.
  intros Hs. unfold WillCommit.
  pass_DCHECK ltac:(by apply bool_decide_eq_true_2).
  pass_DCHECK ltac:(destruct u; cbn; [by rewrite orb_true_r|done]).
  eexists. split; reflexivity.
Qed.

Lemma view_WillActivate s :
  view (WillActivate s) =
  mkView (settings_ s)
    (if bool_decide (begin_main_frame_state_ s =
                     BEGIN_MAIN_FRAME_STATE_WAITING_FOR_ACTIVATION)
     then if commit_to_active_tree (settings_ s)
          then BEGIN_MAIN_FRAME_STATE_WAITING_FOR_DRAW else BEGIN_MAIN_FRAME_STATE_IDLE
     else begin_main_frame_state_ s)
    (if bool_decide (output_surface_state_ s =
                     OUTPUT_SURFACE_WAITING_FOR_FIRST_ACTIVATION)
     then OUTPUT_SURFACE_ACTIVE else output_surface_state_ s)
    false true
    (if bool_decide (forced_redraw_state_ s =
                     FORCED_REDRAW_STATE_WAITING_FOR_ACTIVATION)
     then FORCED_REDRAW_STATE_WAITING_FOR_DRAW else forced_redraw_state_ s)
    (pending_swaps_ s) (max_pending_swaps_ s).
Proof. reflexivity. Qed.

Lemma WillDraw_done b s :
  (b = true → request_swap_funnel_ s = false) →
  ∃ s', WillDraw b s = Done s' ∧
    view s' = mkView (settings_ s)
      (if bool_decide (begin_main_frame_state_ s = BEGIN_MAIN_FRAME_STATE_WAITING_FOR_DRAW)
       then BEGIN_MAIN_FRAME_STATE_IDLE else begin_main_frame_state_ s)
      (output_surface_state_ s) (has_pending_tree_ s) false
      (if bool_decide (forced_redraw_state_ s = FORCED_REDRAW_STATE_WAITING_FOR_DRAW)
       then FORCED_REDRAW_STATE_IDLE else forced_redraw_state_ s)
      (pending_swaps_ s) (max_pending_swaps_ s).
Proof.
  intros Hf. unfold WillDraw. destruct b.
  - pass_DCHECK ltac:(cbn; by rewrite Hf). eexists. split; reflexivity.
  - eexists. split; reflexivity.
Qed.

Ltac solve_good :=
  constructor; cbn in *;
  try first [assumption | done | lia | intuition (first [congruence | lia])].

Section Good.
Context (s : SchedulerStateMachine) (main : MainThread) (requested swapping : bool)
  (unacked : Z).
Hypothesis G : good (view s) main requested swapping unacked.

Lemma NextAction_done : ∃ action, NextAction s = Done action.
Proof using G.
  unfold NextAction. destruct (ShouldActivatePendingTree s); [eauto|].
  enough (∃ b, ShouldCommit s = Done b) as [b ->] by (cbn; eauto).
  unfold ShouldCommit. case_bool_decide as HM; [eauto|].
  destruct (has_pending_tree_ s) eqn:Hp.
  { apply (good_pending _ _ _ _ _ G) in Hp. cbn in Hp. congruence. }
  destruct (commit_to_active_tree (settings_ s)) eqn:Hc; cbn; [|eauto].
  destruct (active_tree_needs_first_draw_ s) eqn:Hd; cbn; [|eauto].
  pose proof (good_first_draw _ _ _ _ _ G Hc Hd) as Hw. cbn in Hw. congruence.
Qed.

Lemma WillCommit_good u :
  (begin_main_frame_state_ s = BEGIN_MAIN_FRAME_STATE_STARTED ∨
   begin_main_frame_state_ s = BEGIN_MAIN_FRAME_STATE_READY_TO_COMMIT) →
  ∃ s', WillCommit u s = Done s' ∧ good (view s') MainIdle requested swapping unacked.
Proof using G.
  intros HM.
  assert (Hp : has_pending_tree_ s = false).
  { destruct (has_pending_tree_ s) eqn:Hp; [|done].
    apply (good_pending _ _ _ _ _ G) in Hp. cbn in Hp. intuition congruence. }
  destruct (WillCommit_done u s) as (s' & Hs' & Hv).
  { intros Ho. pose proof (good_first_activation _ _ _ _ _ G Ho) as H.
    cbn in H. congruence. }
  exists s'. split; [done|]. rewrite Hv.
  destruct G as [G1 G2 G3 G4 G5 G6 G7 G8 G9 G10 G11]. cbn in *.
  unfold v_commit; cbn. rewrite G1.
  destruct u; cbn; constructor; cbn;
    try (destruct HM; intuition congruence); repeat case_bool_decide;
    try (destruct HM; intuition congruence).
Qed.

Lemma NotifyReadyToCommit_good :
  main = MainStarted →
  ∃ s', NotifyReadyToCommit s = Done s' ∧
    good (view s') MainIdle requested swapping unacked.
Proof using G.
  intros Hm. destruct G as [G1 G2 G3 G4 G5 G6 G7 G8 G9 G10 G11]. cbn in *.
  assert (begin_main_frame_state_ s = BEGIN_MAIN_FRAME_STATE_STARTED) as HM by naive_solver.
  assert (has_pending_tree_ s = false) as Hp.
  { destruct (has_pending_tree_ s); [|done]. intuition congruence. }
  unfold NotifyReadyToCommit. pass_DCHECK ltac:(by apply bool_decide_eq_true_2).
  eexists. split.
  - unfold ShouldCommit. cbn [set_field begin_main_frame_state_ has_pending_tree_
      active_tree_needs_first_draw_ settings_].
    rewrite bool_decide_eq_false_2 by naive_solver. rewrite Hp.
    destruct (commit_to_active_tree (settings_ s)) eqn:Hc; [|reflexivity].
    destruct (active_tree_needs_first_draw_ s); [|reflexivity].
    exfalso. intuition congruence.
  - solve_good.
Qed.

Lemma good_no_swap : good (view s) main requested false unacked.
Proof using G. destruct G. by constructor. Qed.

Lemma WillDraw_good b swapping' :
  (b = true → request_swap_funnel_ s = false) →
  (swapping' = true → pending_swaps_ s < max_pending_swaps_ s) →
  ∃ s', WillDraw b s = Done s' ∧ good (view s') main requested swapping' unacked.
Proof using G.
  intros Hf Hs. destruct (WillDraw_done b s Hf) as (s' & Hs' & Hv).
  exists s'. split; [done|]. rewrite Hv. destruct G. cbn in *.
  constructor; cbn; repeat case_bool_decide; intuition congruence.
Qed.
End Good.

(** ** Every enabled event keeps the invariant and passes its DCHECKs *)

Definition fires_good (c : Config) (e : event) : Prop :=
  ∃ c', fire e c = Done c' ∧ good_config c'.

Lemma fire_call_good c call :
  good_config c → enabled c (EvCall call) = true → fires_good c (EvCall call).
Proof.
  intros G He. unfold fires_good. cbn [fire enabled] in *.
  destruct c as [s inside main requested swapping unacked].
  unfold good_config in *.
  cbn [machine inside_action_ main_thread surface_requested may_swap unacked_swaps] in *.
  destruct call; cbn [enabled_call scheduler_call mbind outcome_bind] in *;
    try (eexists; split; [reflexivity|]; exact G).
  - (* SetVisible *) eexists; split; [reflexivity|]. unfold SetVisible.
    destruct (Bool.eqb _ _); exact G.
  - (* NotifyReadyToActivate *) eexists; split; [reflexivity|].
    unfold NotifyReadyToActivate. destruct (has_pending_tree_ s); exact G.
  - (* SetNeedsPrepareTiles *) pass_DCHECK ltac:(exact He).
    eexists; split; [reflexivity|]. unfold SetNeedsPrepareTiles.
    destruct (needs_prepare_tiles_ s); exact G.
  - (* SetMaxSwapsPending *) eexists; split; [reflexivity|].
    cbn in He. destruct swapping; [discriminate|]. destruct G. solve_good.
  - (* DidSwapBuffers *) cbn in He. subst swapping. destruct G. unfold DidSwapBuffers.
    pass_DCHECK ltac:(apply Z.leb_le; cbn in *; lia).
    eexists; split; [reflexivity|]. solve_good.
  - (* DidSwapBuffersComplete *) cbn in He. prop_bools. destruct G. cbn in *.
    pass_DCHECK ltac:(apply Z.ltb_lt; lia).
    eexists; split; [reflexivity|]. solve_good.
  - (* NotifyReadyToCommit *) cbn in He. prop_bools.
    destruct (NotifyReadyToCommit_good _ _ _ _ _ G He) as (s' & -> & G').
    eexists; split; [reflexivity|]. exact G'.
  - (* BeginMainFrameAborted *) cbn in He. prop_bools. subst main.
    assert (begin_main_frame_state_ s = BEGIN_MAIN_FRAME_STATE_STARTED) as HM
      by (by apply (good_started _ _ _ _ _ G)).
    unfold BeginMainFrameAborted. pass_DCHECK ltac:(by apply bool_decide_eq_true_2).
    destruct (WillCommit_good _ _ _ _ _ G true (or_introl HM)) as (s' & Hs' & G').
    destruct reason;
      [eexists; split; [reflexivity|]; destruct G; cbn in *; solve_good ..|].
    rewrite Hs'. eexists; split; [reflexivity|]. exact G'.
  - (* DidLoseOutputSurface *) eexists; split; [reflexivity|].
    unfold DidLoseOutputSurface.
    destruct (bool_decide _ || bool_decide _) eqn:Hb; [exact G|]. prop_bools.
    destruct G. solve_good.
  - (* DidCreateAndInitializeOutputSurface *) cbn in He.
    destruct G. cbn in *. unfold DidCreateAndInitializeOutputSurface.
    pass_DCHECK ltac:(apply bool_decide_eq_true_2; by intuition).
    eexists; split; [reflexivity|]. solve_good.
  - (* NotifyBeginMainFrameStarted *) cbn in He. prop_bools. subst main.
    destruct G. cbn in *. unfold NotifyBeginMainFrameStarted.
    pass_DCHECK ltac:(apply bool_decide_eq_true_2; by intuition).
    eexists; split; [reflexivity|]. solve_good.
Qed.

Lemma fire_action_good c :
  good_config c → enabled c EvAction = true → fires_good c EvAction.
Proof.
  intros G He. unfold fires_good. cbn [fire enabled] in *.
  destruct c as [s inside main requested swapping unacked].
  unfold good_config in *.
  cbn [machine inside_action_ main_thread surface_requested may_swap unacked_swaps] in *.
  destruct (NextAction_done _ _ _ _ _ G) as [action Ha]. rewrite Ha.
  apply NextAction_cases in Ha. cbn [mbind outcome_bind].
  destruct action; cbn [start_action];
    try (eexists; split; [reflexivity|]; exact G).
  - (* Animate *) apply ShouldAnimate_inv in Ha as [Hf _]. unfold WillAnimate.
    pass_DCHECK ltac:(by rewrite Hf). eexists; split; [reflexivity|]. exact G.
  - (* SendBeginMainFrame *)
    apply ShouldSendBeginMainFrame_inv in Ha as (Hc & Hf & HM & _).
    apply CouldSendBeginMainFrame_inv in Hc as (_ & Hv & _).
    destruct G. cbn in *. unfold WillSendBeginMainFrame.
    assert (has_pending_tree_ s = false) as Hp
      by (destruct (has_pending_tree_ s); [intuition congruence|done]).
    pass_DCHECK ltac:(by rewrite Hp).
    pass_DCHECK ltac:(exact Hv). pass_DCHECK ltac:(by rewrite Hf).
    eexists; split; [reflexivity|]. solve_good.
  - (* Commit *) apply ShouldCommit_inv in Ha as (HM & _ & _).
    destruct (WillCommit_good _ _ _ _ _ G false (or_intror HM)) as (s' & -> & G').
    eexists; split; [reflexivity|].
    assert (main = MainIdle) as ->; [|exact G'].
    destruct G; cbn in *; destruct main; intuition congruence.
  - (* ActivateSyncTree *) eexists; split; [reflexivity|].
    apply ShouldActivatePendingTree_inv in Ha as (Hp & _ & _).
    cbn [after_action machine main_thread surface_requested may_swap unacked_swaps set_field].
    rewrite view_WillActivate.
    pose proof (proj1 (good_pending _ _ _ _ _ G) Hp) as HM. cbn in HM. rewrite HM.
    destruct G. cbn in *.
    constructor; cbn; rewrite ?HM in *;
      repeat case_bool_decide; destruct (commit_to_active_tree (settings_ s));
      intuition congruence.
  - (* DrawAndSwapIfPossible *) destruct Ha as (Hs & Hab & _).
    apply ShouldDraw_swap_inv in Hs as (Hf & _ & Ht & _); [|done].
    unfold SwapThrottled in Ht. prop_bools.
    destruct (WillDraw_good _ _ _ _ _ G true true) as (s' & -> & G'); [done|done|].
    eexists; split; [reflexivity|]. exact G'.
  - (* DrawAndSwapForced *) destruct Ha as (Hs & Hab & _).
    apply ShouldDraw_swap_inv in Hs as (Hf & _ & Ht & _); [|done].
    unfold SwapThrottled in Ht. prop_bools.
    destruct (WillDraw_good _ _ _ _ _ G true true) as (s' & -> & G'); [done|done|].
    eexists; split; [reflexivity|]. exact G'.
  - (* DrawAndSwapAbort *)
    destruct (WillDraw_good _ _ _ _ _ G false swapping) as (s' & -> & G');
      [done|apply (good_swap _ _ _ _ _ G)|].
    eexists; split; [reflexivity|]. exact G'.
  - (* BeginOutputSurfaceCreation *)
    apply ShouldBeginOutputSurfaceCreation_inv in Ha as (Ho & _ & HM & _ & Ha & Hp).
    unfold WillBeginOutputSurfaceCreation.
    pass_DCHECK ltac:(by apply bool_decide_eq_true_2).
    pass_DCHECK ltac:(by apply bool_decide_eq_true_2).
    pass_DCHECK ltac:(apply negb_true_iff; exact Hp).
    pass_DCHECK ltac:(apply negb_true_iff; exact Ha).
    eexists; split; [reflexivity|]. destruct G. solve_good.
  - (* InvalidateOutputSurface *)
    apply ShouldInvalidateOutputSurface_inv in Ha. unfold WillInvalidateOutputSurface.
    pass_DCHECK ltac:(by rewrite Ha). eexists; split; [reflexivity|].
    destruct G. solve_good.
Qed.

Lemma fire_done_good c result :
  good_config c → enabled c (EvActionDone result) = true →
  fires_good c (EvActionDone result).
Proof.
  intros G He. unfold fires_good. cbn [fire enabled] in *.
  destruct c as [s inside main requested swapping unacked].
  unfold good_config in *.
  cbn [machine inside_action_ main_thread surface_requested may_swap unacked_swaps] in *.
  prop_bools. apply good_no_swap in G.
  destruct inside; try done;
    try (eexists; split; [reflexivity|]; exact G).
  cbn [finish_action].
  match goal with H : _ || _ = true |- _ => cbn in H; rename H into Hr end.
  destruct result; try discriminate Hr; cbn [DidDrawIfPossibleCompleted].
  - eexists; split; [reflexivity|]. destruct G. solve_good.
  - cbn in Hr. apply negb_true_iff in Hr.
    repeat case_match; eexists; (split; [reflexivity|]);
      destruct G; constructor; cbn in *; (assumption || congruence).
  - eexists; split; [reflexivity|]. exact G.
Qed.

Lemma fire_good c e : good_config c → enabled c e = true → fires_good c e.
Proof.
  intros G He. destruct e;
    [by apply fire_call_good | by apply fire_action_good | by apply fire_done_good | ..];
    (eexists; split; [reflexivity|]; exact G).
Qed.

Lemma init_good settings :
  main_frame_before_activation_enabled settings = false →
  good_config (init_Config settings).
Proof. intros H. constructor; cbn; done. Qed.

Lemma run_good c es c' : good_config c → run c es c' → good_config c'.
Proof.
  intros G. induction 1 as [|es c1 e c2 _ IH He Hf]; [done|].
  destruct (fire_good _ _ IH He) as (c' & Hf' & G'). congruence.
Qed.


(** ** Once per frame *)

(** The numbers of the last frames that did something against the current frame
    number and the funnels. *)
Definition once (s : SchedulerStateMachine) : Prop :=
  (last_frame_number_begin_main_frame_sent_ s <= current_frame_number_ s ∧
   (last_frame_number_begin_main_frame_sent_ s = current_frame_number_ s →
    send_begin_main_frame_funnel_ s = true)) ∧
  (last_frame_number_invalidate_output_surface_performed_ s <= current_frame_number_ s ∧
   (last_frame_number_invalidate_output_surface_performed_ s = current_frame_number_ s →
    invalidate_output_surface_funnel_ s = true)) ∧
  (using_synchronous_renderer_compositor (settings_ s) = false →
   last_frame_number_swap_requested_ s <= current_frame_number_ s ∧
   (last_frame_number_swap_requested_ s = current_frame_number_ s →
    begin_impl_frame_state_ s = BEGIN_IMPL_FRAME_STATE_IDLE ∨
    begin_impl_frame_state_ s = BEGIN_IMPL_FRAME_STATE_INSIDE_DEADLINE ∧
    request_swap_funnel_ s = true)).

(** The fields of [once]. *)
Definition once_fields (s : SchedulerStateMachine) :=
  (settings_ s, current_frame_number_ s, begin_impl_frame_state_ s,
   (last_frame_number_begin_main_frame_sent_ s, send_begin_main_frame_funnel_ s),
   (last_frame_number_invalidate_output_surface_performed_ s,
    invalidate_output_surface_funnel_ s),
   (last_frame_number_swap_requested_ s, request_swap_funnel_ s)).

Lemma once_frame s s' : once_fields s' = once_fields s → once s → once s'.
Proof.
  unfold once_fields, once. intros [= -> -> -> -> -> -> -> -> ->]. done.
Qed.

Lemma WillCommit_once_fields u s s' :
  WillCommit u s = Done s' → once_fields s' = once_fields s.
Proof. unfold WillCommit. intros H. inv_done. subst. reflexivity. Qed.

Lemma scheduler_call_once_fields inside call s s' :
  scheduler_call inside call s = Done s' → once_fields s' = once_fields s.
Proof.
  intros H. destruct call; cbn [scheduler_call] in H;
    unfold SetVisible, NotifyReadyToActivate, SetNeedsPrepareTiles, DidSwapBuffers,
      DidLoseOutputSurface, NotifyBeginMainFrameStarted, NotifyReadyToCommit,
      BeginMainFrameAborted, DidCreateAndInitializeOutputSurface in H;
    repeat case_match; inv_done; subst;
    first [reflexivity | by eapply WillCommit_once_fields].
Qed.

Lemma finish_action_once_fields action result s s' :
  finish_action action result s = Done s' → once_fields s' = once_fields s.
Proof.
  intros H. destruct action; cbn [finish_action] in H; inv_done; subst; try reflexivity.
  unfold DidDrawIfPossibleCompleted in H.
  destruct result; try discriminate; repeat case_match; inv_done; subst; reflexivity.
Qed.

Lemma WillDraw_once s s' :
  WillDraw true s = Done s' →
  begin_impl_frame_state_ s = BEGIN_IMPL_FRAME_STATE_INSIDE_DEADLINE →
  once s → once s'.
Proof.
  unfold WillDraw, once. intros H Hst Ho. inv_done. subst. cbn.
  destruct Ho as (H1 & H2 & H3). split_and!; try (apply H1 || apply H2).
  intros _. split; [lia|]. intros _. right. by split.
Qed.

Lemma start_action_once action s s' :
  NextAction s = Done action → start_action action s = Done s' → once s → once s'.
Proof.
  intros Hn H Ho. apply NextAction_cases in Hn.
  destruct action; cbn [start_action] in H.
  - inv_done. by subst.
  - eapply once_frame, Ho. unfold WillAnimate in H. inv_done. by subst.
  - unfold WillSendBeginMainFrame in H. inv_done. subst.
    destruct Ho as (H1 & H2). split; [cbn; split; [lia|done]|exact H2].
  - eapply once_frame, Ho. by eapply WillCommit_once_fields.
  - eapply once_frame, Ho. inv_done. by subst.
  - destruct Hn as (Hs & Hab & _). apply ShouldDraw_swap_inv in Hs as (_ & _ & _ & ?); [|done].
    by eapply WillDraw_once.
  - destruct Hn as (Hs & Hab & _). apply ShouldDraw_swap_inv in Hs as (_ & _ & _ & ?); [|done].
    by eapply WillDraw_once.
  - eapply once_frame, Ho. unfold WillDraw in H. inv_done. by subst.
  - eapply once_frame, Ho. unfold WillBeginOutputSurfaceCreation in H. inv_done. by subst.
  - eapply once_frame, Ho. inv_done. by subst.
  - unfold WillInvalidateOutputSurface in H. inv_done. subst.
    destruct Ho as (H1 & H2 & H3). split; [exact H1|].
    split; [cbn; split; [lia|done]|exact H3].
Qed.

Lemma phase_once e s c c' :
  machine c = s → enabled_phase s e = true → fire e c = Done c' → once s →
  once (machine c').
Proof.
  intros <- He H (H1 & H2 & H3). unfold enabled_phase in He.
  destruct e; cbn [fire] in H; try discriminate;
    destruct (begin_impl_frame_state_ (machine c)) eqn:Hst; try discriminate;
    inv_done; subst c'; unfold once; cbn;
    repeat case_match; rewrite ?Hst; split_and!; intros; try split; intros;
    try apply H1; try apply H2; try lia; try done;
    (destruct H3 as [H3a H3b]; [congruence|]);
    try (apply H3a || (left; done) || lia); auto.
  all: try (destruct H3b as [?|[? ?]]; [lia|congruence|congruence]).
Qed.

Lemma machine_after_call call c : machine (after_call call c) = machine c.
Proof. by destruct call. Qed.

Lemma machine_after_action action c : machine (after_action action c) = machine c.
Proof. by destruct action. Qed.

Lemma fire_once e c c' :
  enabled c e = true → fire e c = Done c' → once (machine c) → once (machine c').
Proof.
  intros He H Ho. destruct e as [call| |result| | | | |].
  4-8: cbn [enabled] in He; prop_bools; by eapply phase_once.
  - cbn [fire] in H. inv_done. subst c'. rewrite machine_after_call.
    eapply once_frame, Ho. by eapply scheduler_call_once_fields.
  - cbn [fire] in H. inv_done. subst c'. rewrite machine_after_action.
    by eapply start_action_once.
  - cbn [fire] in H. inv_done. subst c'.
    eapply once_frame, Ho. by eapply finish_action_once_fields.
Qed.

Lemma reachable_once settings c : reachable settings c → once (machine c).
Proof.
  intros [es Hrun]. induction Hrun; [|by eapply fire_once].
  unfold once. cbn. split_and!; intros; try split; intros; try lia; done.
Qed.

(** A closed funnel is what keeps a frame number equal to the current one. *)
Lemma older_frame (last current : Z) (funnel : bool) :
  last <= current ∧ (last = current → funnel = true) → funnel = false → last < current.
Proof. intros [Hle Heq] ->. destruct (decide (last = current)); [naive_solver|lia]. Qed.

Lemma WillDraw_swap_frame s s' :
  once s → ShouldDraw s = true → PendingDrawsShouldBeAborted s = false →
  WillDraw true s = Done s' →
  using_synchronous_renderer_compositor (settings_ s) = false →
  last_frame_number_swap_requested_ s < current_frame_number_ s ∧
  last_frame_number_swap_requested_ s' = current_frame_number_ s ∧
  settings_ s' = settings_ s.
Proof.
  intros (_ & _ & H3) Hd Hab Hw Hsync.
  apply ShouldDraw_swap_inv in Hd as (Hq & _ & _ & Hst); [|done].
  unfold WillDraw in Hw. inv_done. subst s'. split; [|by split].
  eapply older_frame; [|exact Hq]. destruct (H3 Hsync) as [Hle Heq]. split; [done|].
  intros Hl. destruct (Heq Hl) as [?|[? ?]]; congruence.
Qed.

(** The frame number an action records in the state machine when it starts. *)
Definition last_frame_of (action : Action) (s : SchedulerStateMachine) : option Z :=
  match action with
  | ACTION_SEND_BEGIN_MAIN_FRAME => Some (last_frame_number_begin_main_frame_sent_ s)
  | ACTION_INVALIDATE_OUTPUT_SURFACE =>
      Some (last_frame_number_invalidate_output_surface_performed_ s)
  | ACTION_DRAW_AND_SWAP_IF_POSSIBLE
  | ACTION_DRAW_AND_SWAP_FORCED =>
      if using_synchronous_renderer_compositor (settings_ s) then None
      else Some (last_frame_number_swap_requested_ s)
  | _ => None
  end.

