(* ===== verification/SchedulerProperties.v ===== *)
(** * Progress of the scheduler and runs on concrete events

    When a forced redraw happens, and the executable runs that the examples and the
    counterexample for early main frames use. *)

From S2P Require Import Prelude SchedulerStateMachine Scheduler SchedulerProtocol.

(** ** Executable runs *)

Fixpoint run_events (es : list event) (c : Config) : outcome (option Config) :=
  match es with
  | [] => Done (Some c)
  | e :: es =>
      if enabled c e then c ← fire e c; run_events es c else Done None
  end.

Lemma run_trans c es1 c1 es2 c2 : run c es1 c1 → run c1 es2 c2 → run c (es1 ++ es2) c2.
Proof.
  intros H1. induction 1; [by rewrite app_nil_r|]. rewrite app_assoc. by econstructor.
Qed.

Lemma run_events_run es c c' : run_events es c = Done (Some c') → run c es c'.
Proof.
  revert c. induction es as [|e es IH]; intros c H; cbn [run_events] in H.
  - inv_done. simplify_eq. constructor.
  - destruct (enabled c e) eqn:He; [|inv_done; discriminate].
    inv_done. apply (run_trans _ [e] a); [|by apply IH].
    apply (run_snoc _ []  c); [constructor|done|done].
Qed.

Lemma run_events_reachable settings es c :
  run_events es (init_Config settings) = Done (Some c) → reachable settings c.
Proof. intros H. exists es. by apply run_events_run. Qed.

(** Evaluate a test on the configuration after a run. *)
Definition run_check (settings : SchedulerSettings) (es : list event)
    (p : Config → bool) : bool :=
  match run_events es (init_Config settings) with
  | Done (Some c) => p c
  | _ => false
  end.

Lemma run_check_reachable settings es p :
  run_check settings es p = true → ∃ c, reachable settings c ∧ p c = true.
Proof.
  unfold run_check. destruct (run_events es _) as [[c|]|] eqn:E; [|done..].
  intros Hp. exists c. split; [by eapply run_events_reachable|done].
Qed.

(** ** Forced redraws *)

(** The effect of [n] draws in a row that were aborted by checkerboarding. *)
Fixpoint checkerboards (n : nat) (s : SchedulerStateMachine) :
    outcome SchedulerStateMachine :=
  match n with
  | O => Done s
  | S n =>
      s ← DidDrawIfPossibleCompleted DRAW_ABORTED_CHECKERBOARD_ANIMATIONS s;
      checkerboards n s
  end.

Lemma checkerboard_step s :
  timeout_and_draw_when_animation_checkerboards (settings_ s) = true →
  forced_redraw_state_ s = FORCED_REDRAW_STATE_IDLE →
  ∃ s', DidDrawIfPossibleCompleted DRAW_ABORTED_CHECKERBOARD_ANIMATIONS s = Done s' ∧
    settings_ s' = settings_ s ∧ needs_begin_main_frame_ s' = true ∧
    needs_redraw_ s' = true ∧
    if maximum_number_of_failed_draws_before_draw_is_forced (settings_ s) <=?
       consecutive_checkerboard_animations_ s + 1
    then forced_redraw_state_ s' = FORCED_REDRAW_STATE_WAITING_FOR_COMMIT ∧
         consecutive_checkerboard_animations_ s' = 0
    else forced_redraw_state_ s' = FORCED_REDRAW_STATE_IDLE ∧
         consecutive_checkerboard_animations_ s' =
           consecutive_checkerboard_animations_ s + 1.
Proof.
  intros Ht Hf. cbn [DidDrawIfPossibleCompleted].
  cbn [set_field forced_redraw_state_ settings_ consecutive_checkerboard_animations_].
  rewrite bool_decide_eq_false_2 by naive_solver. rewrite Ht, andb_true_l.
  destruct (maximum_number_of_failed_draws_before_draw_is_forced (settings_ s) <=? _);
    eexists; (split; [reflexivity|]); by repeat split.
Qed.

(** Checkerboarding cannot starve the screen.  With the timeout enabled and
    the counter of failed draws at [k] below the maximum [m], the next [m - k - 1]
    aborted draws leave the scheduler unforced and asking for a main frame, and
    the one after makes it wait for a commit to force a redraw, with the counter
    reset. *)
Theorem checkerboards_force_redraw s n :
  timeout_and_draw_when_animation_checkerboards (settings_ s) = true →
  forced_redraw_state_ s = FORCED_REDRAW_STATE_IDLE →
  (0 < n)%nat →
  consecutive_checkerboard_animations_ s + Z.of_nat n <=
    maximum_number_of_failed_draws_before_draw_is_forced (settings_ s) →
  ∃ s', checkerboards n s = Done s' ∧
    needs_begin_main_frame_ s' = true ∧ needs_redraw_ s' = true ∧
    if decide (consecutive_checkerboard_animations_ s + Z.of_nat n =
               maximum_number_of_failed_draws_before_draw_is_forced (settings_ s))
    then forced_redraw_state_ s' = FORCED_REDRAW_STATE_WAITING_FOR_COMMIT ∧
         consecutive_checkerboard_animations_ s' = 0
    else forced_redraw_state_ s' = FORCED_REDRAW_STATE_IDLE.
Proof.
  revert s. induction n as [|n IH]; intros s Ht Hf Hn Hm; [lia|].
  destruct (checkerboard_step s Ht Hf) as (s' & Hs' & Hset & Hb & Hr & Hc).
  cbn [checkerboards]. rewrite Hs'. cbn [mbind outcome_bind].
  destruct n as [|n].
  - exists s'. split_and!; try done. cbn [Z.of_nat Pos.of_succ_nat] in *.
    destruct (Z.leb_spec (maximum_number_of_failed_draws_before_draw_is_forced (settings_ s))
      (consecutive_checkerboard_animations_ s + 1)); case_decide; try lia; apply Hc.
  - destruct (Z.leb_spec (maximum_number_of_failed_draws_before_draw_is_forced (settings_ s))
      (consecutive_checkerboard_animations_ s + 1)); [lia|].
    destruct Hc as [Hf' Hc]. destruct (IH s') as (s2 & Hs2 & Hb2 & Hr2 & Hc2);
      rewrite ?Hset, ?Hc; [done|done|lia|lia|].
    exists s2. split_and!; try done. rewrite Hset, Hc in Hc2.
    repeat case_decide; try lia; done.
Qed.

(** Two iterations of the action loop, with the actions that start in them. *)
Definition two_actions (s : SchedulerStateMachine) :
    outcome (SchedulerStateMachine * list Action) :=
  a1 ← NextAction s;
  s ← start_action a1 s;
  a2 ← NextAction s;
  s ← start_action a2 s;
  Done (s, [a1; a2]).

(** A forced redraw from its commit to its draw: commit, activation of the pending
    tree, deadline, and the actions of the deadline. *)
Definition forced_redraw_steps (s : SchedulerStateMachine) :
    outcome (SchedulerStateMachine * list Action) :=
  s ← WillCommit false s;
  two_actions (OnBeginImplFrameDeadline (WillActivate s)).

Lemma NextAction_no_tree_no_commit s :
  has_pending_tree_ s = false →
  begin_main_frame_state_ s ≠ BEGIN_MAIN_FRAME_STATE_READY_TO_COMMIT →
  ShouldActivatePendingTree s = false ∧ ShouldCommit s = Done false.
Proof.
  intros Hp HM. unfold ShouldActivatePendingTree, ShouldCommit. rewrite Hp.
  by rewrite bool_decide_eq_true_2.
Qed.

Lemma NextAction_animate s :
  has_pending_tree_ s = false →
  begin_main_frame_state_ s ≠ BEGIN_MAIN_FRAME_STATE_READY_TO_COMMIT →
  ShouldAnimate s = true → NextAction s = Done ACTION_ANIMATE.
Proof.
  intros Hp HM Ha. destruct (NextAction_no_tree_no_commit s Hp HM) as [H1 H2].
  unfold NextAction. by rewrite H1, H2; cbn [mbind outcome_bind]; rewrite Ha.
Qed.

Lemma NextAction_draw_forced s :
  has_pending_tree_ s = false →
  begin_main_frame_state_ s ≠ BEGIN_MAIN_FRAME_STATE_READY_TO_COMMIT →
  animate_funnel_ s = true → request_swap_funnel_ s = false →
  PendingDrawsShouldBeAborted s = false → SwapThrottled s = false →
  output_surface_state_ s = OUTPUT_SURFACE_ACTIVE →
  begin_impl_frame_state_ s = BEGIN_IMPL_FRAME_STATE_INSIDE_DEADLINE →
  forced_redraw_state_ s = FORCED_REDRAW_STATE_WAITING_FOR_DRAW →
  NextAction s = Done ACTION_DRAW_AND_SWAP_FORCED.
Proof.
  intros Hp HM Ha Hq Hab Ht Ho Hst Hf.
  destruct (NextAction_no_tree_no_commit s Hp HM) as [H1 H2].
  unfold NextAction, ShouldAnimate, ShouldDraw.
  by rewrite H1, H2, Ha, Hab, Hq, Ho, Ht, Hst, Hf.
Qed.

Lemma animate_then_draw_forced s :
  has_pending_tree_ s = false →
  begin_main_frame_state_ s ≠ BEGIN_MAIN_FRAME_STATE_READY_TO_COMMIT →
  needs_redraw_ s = true →
  animate_funnel_ s = false → request_swap_funnel_ s = false →
  PendingDrawsShouldBeAborted s = false → SwapThrottled s = false →
  output_surface_state_ s = OUTPUT_SURFACE_ACTIVE →
  begin_impl_frame_state_ s = BEGIN_IMPL_FRAME_STATE_INSIDE_DEADLINE →
  forced_redraw_state_ s = FORCED_REDRAW_STATE_WAITING_FOR_DRAW →
  ∃ s', two_actions s = Done (s', [ACTION_ANIMATE; ACTION_DRAW_AND_SWAP_FORCED]) ∧
    forced_redraw_state_ s' = FORCED_REDRAW_STATE_IDLE ∧
    active_tree_needs_first_draw_ s' = false ∧ has_pending_tree_ s' = false ∧
    last_frame_number_swap_requested_ s' = current_frame_number_ s'.
Proof.
  intros Hp HM Hr Ha Hq Hab Ht Ho Hst Hf. unfold two_actions.
  rewrite NextAction_animate; [|done|done|unfold ShouldAnimate; by rewrite Ha, Ho, Hst, Hr].
  cbn [mbind outcome_bind start_action].
  assert (∃ s1, WillAnimate s = Done s1 ∧
    NextAction s1 = Done ACTION_DRAW_AND_SWAP_FORCED ∧
    request_swap_funnel_ s1 = false ∧ has_pending_tree_ s1 = false ∧
    forced_redraw_state_ s1 = FORCED_REDRAW_STATE_WAITING_FOR_DRAW)
    as (s1 & -> & Hn1 & Hq1 & Hp1 & Hf1).
  { unfold WillAnimate. pass_DCHECK ltac:(by rewrite Ha). eexists.
    split; [reflexivity|]. split; [|by repeat split].
    apply NextAction_draw_forced; try assumption; reflexivity. }
  cbn [mbind outcome_bind]. rewrite Hn1. cbn [mbind outcome_bind start_action].
  assert (∃ s', WillDraw true s1 = Done s' ∧
    forced_redraw_state_ s' = FORCED_REDRAW_STATE_IDLE ∧
    active_tree_needs_first_draw_ s' = false ∧ has_pending_tree_ s' = false ∧
    last_frame_number_swap_requested_ s' = current_frame_number_ s') as (s' & -> & H).
  { unfold WillDraw. pass_DCHECK ltac:(cbn; by rewrite Hq1). eexists.
    split; [reflexivity|]. cbn. rewrite Hf1. by repeat split. }
  exists s'. split; [reflexivity|exact H].
Qed.

(** A forced redraw is drawn whatever it shows.  From a commit made while a
    redraw is forced, on an output surface that is ready for it, with drawing
    possible and a swap available: activating the committed tree and reaching the
    deadline leads to exactly two actions, one animation and one
    [ACTION_DRAW_AND_SWAP_FORCED] (never the draw that may be aborted), after
    which no redraw is forced. *)
Theorem forced_redraw_draws s :
  forced_redraw_state_ s = FORCED_REDRAW_STATE_WAITING_FOR_COMMIT →
  output_surface_state_ s = OUTPUT_SURFACE_ACTIVE ∨
    output_surface_state_ s = OUTPUT_SURFACE_WAITING_FOR_FIRST_COMMIT →
  can_draw_ s = true → visible_ s = true → SwapThrottled s = false →
  ∃ s', forced_redraw_steps s =
          Done (s', [ACTION_ANIMATE; ACTION_DRAW_AND_SWAP_FORCED]) ∧
    forced_redraw_state_ s' = FORCED_REDRAW_STATE_IDLE ∧
    active_tree_needs_first_draw_ s' = false ∧ has_pending_tree_ s' = false ∧
    last_frame_number_swap_requested_ s' = current_frame_number_ s'.
Proof.
  intros Hf Ho Hcan Hv Ht. unfold forced_redraw_steps, WillCommit.
  pass_DCHECK ltac:(cbn; destruct Ho as [-> | ->]; reflexivity).
  pass_DCHECK ltac:(reflexivity). cbn [mbind outcome_bind].
  apply animate_then_draw_forced; try reflexivity.
  - cbn. by destruct (main_frame_before_activation_enabled _), (commit_to_active_tree _).
  - unfold PendingDrawsShouldBeAborted. cbn. rewrite Hcan, Hv.
    by destruct Ho as [-> | ->], (resourceless_draw_ s).
  - exact Ht.
  - cbn. by destruct Ho as [-> | ->].
  - cbn. by rewrite Hf.
Qed.

(** ** Early main frames *)

Definition early_settings : SchedulerSettings :=
  {| use_external_begin_frame_source := false;
     main_frame_while_swap_throttled_enabled := false;
     main_frame_before_activation_enabled := true;
     commit_to_active_tree := false;
     timeout_and_draw_when_animation_checkerboards := true;
     using_synchronous_renderer_compositor := false;
     throttle_frame_production := true;
     maximum_number_of_failed_draws_before_draw_is_forced := 3;
     background_frame_interval := 1000000 |}.

Definition surface_events : list event :=
  [EvCall (CallSetVisible true); EvCall (CallSetCanDraw true);
   EvAction; EvActionDone INVALID_RESULT;
   EvCall CallDidCreateAndInitializeOutputSurface].

(** A frame whose BeginMainFrame is sent and started. *)
Definition main_frame_events : list event :=
  [EvCall CallSetNeedsBeginMainFrame; EvOnBeginImplFrame;
   EvAction; EvActionDone INVALID_RESULT;
   EvCall CallNotifyBeginMainFrameStarted].

Definition finish_frame_events : list event :=
  [EvOnBeginImplFrameDeadlinePending; EvOnBeginImplFrameDeadline;
   EvOnBeginImplFrameIdle].

Definition commit_events : list event :=
  [EvCall CallNotifyReadyToCommit; EvAction; EvActionDone INVALID_RESULT].

(** Two main frames, the first of which is committed and not yet activated. *)
Definition early_events : list event :=
  surface_events ++ main_frame_events ++ commit_events ++ finish_frame_events ++
  main_frame_events.

(** The first tree is activated and drawn, a second one is pending. *)
Definition second_tree_events : list event :=
  surface_events ++ main_frame_events ++ commit_events ++
  [EvCall CallNotifyReadyToActivate; EvAction; EvActionDone INVALID_RESULT;
   EvAction; EvActionDone INVALID_RESULT;
   EvOnBeginImplFrameDeadlinePending; EvOnBeginImplFrameDeadline;
   EvAction; EvCall CallDidSwapBuffers; EvActionDone DRAW_SUCCESS;
   EvCall CallDidSwapBuffersComplete; EvOnBeginImplFrameIdle] ++
  main_frame_events ++ commit_events ++ finish_frame_events ++ main_frame_events.

(** With main frames allowed before activation, an aborted main frame breaks
    the state machine.  There is a run of enabled events after which a main frame
    that ends without updates, an event the protocol enables, hits a DCHECK; and
    there is another after which the same event makes the state machine forget a
    pending tree that exists and has not been activated. *)
Theorem early_main_frame_abort :
  (∃ c, reachable early_settings c ∧
     enabled c (EvCall (CallBeginMainFrameAborted FINISHED_NO_UPDATES)) = true ∧
     fire (EvCall (CallBeginMainFrameAborted FINISHED_NO_UPDATES)) c = DcheckFailed) ∧
  (∃ c c', reachable early_settings c ∧
     enabled c (EvCall (CallBeginMainFrameAborted FINISHED_NO_UPDATES)) = true ∧
     fire (EvCall (CallBeginMainFrameAborted FINISHED_NO_UPDATES)) c = Done c' ∧
     has_pending_tree_ (machine c) = true ∧ has_pending_tree_ (machine c') = false).
Proof.
  split.
  - destruct (run_check_reachable early_settings early_events (λ c,
      enabled c (EvCall (CallBeginMainFrameAborted FINISHED_NO_UPDATES)) &&
      negb (is_done (fire (EvCall (CallBeginMainFrameAborted FINISHED_NO_UPDATES)) c))))
      as (c & Hc & Hp); [vm_compute; reflexivity|].
    exists c. prop_bools. split_and!; [done|done|]. by apply is_done_false.
  - destruct (run_check_reachable early_settings second_tree_events (λ c,
      enabled c (EvCall (CallBeginMainFrameAborted FINISHED_NO_UPDATES)) &&
      has_pending_tree_ (machine c) &&
      match fire (EvCall (CallBeginMainFrameAborted FINISHED_NO_UPDATES)) c with
      | Done c' => negb (has_pending_tree_ (machine c'))
      | DcheckFailed => false
      end))
      as (c & Hc & Hp); [vm_compute; reflexivity|].
    exists c. apply andb_true_iff in Hp as [Hp Hf]. apply andb_true_iff in Hp as [He Ht].
    destruct (fire _ c) as [c'|]; [|done]. exists c'. prop_bools. by split_and!.
Qed.

(** ** Examples *)

Section Examples.

(** A client that asks for everything from inside every action. *)
Definition eager_client (n : nat) (action : Action) (s : SchedulerStateMachine) :
    nat * list ClientCall * DrawResult :=
  (S n,
   [CallSetNeedsRedraw; CallSetNeedsAnimate; CallSetNeedsBeginMainFrame] ++
   (if bool_decide (action = ACTION_PREPARE_TILES) then [CallDidPrepareTiles]
    else [CallSetNeedsPrepareTiles]),
   DRAW_SUCCESS).

(** A visible compositor in the deadline of a frame, with everything to do. *)
Definition busy_state : SchedulerStateMachine :=
  (init_SchedulerStateMachine default_SchedulerSettings)
    <| output_surface_state_ := OUTPUT_SURFACE_ACTIVE |> <| visible_ := true |>
    <| can_draw_ := true |> <| needs_redraw_ := true |>
    <| needs_prepare_tiles_ := true |>
    <| begin_impl_frame_state_ := BEGIN_IMPL_FRAME_STATE_INSIDE_DEADLINE |>.




Definition idle_client (n : nat) (action : Action) (s : SchedulerStateMachine) :
    nat * list ClientCall * DrawResult := (n, [], DRAW_SUCCESS).

(** An output surface lost while a tree is pending. *)
Definition lost_state : SchedulerStateMachine :=
  (init_SchedulerStateMachine default_SchedulerSettings)
    <| has_pending_tree_ := true |>
    <| begin_main_frame_state_ := BEGIN_MAIN_FRAME_STATE_WAITING_FOR_ACTIVATION |>
    <| begin_impl_frame_state_ := BEGIN_IMPL_FRAME_STATE_INSIDE_BEGIN_FRAME |>
    <| visible_ := true |>.

Lemma stopped_pipeline_is_flushed_witness :
  ∃ s', process_actions idle_client 34 0%nat lost_state =
          Done (Some (0%nat, s', [ACTION_ACTIVATE_SYNC_TREE; ACTION_DRAW_AND_SWAP_ABORT])) ∧
    has_pending_tree_ s' = false ∧ active_tree_needs_first_draw_ s' = false.
Proof.
  destruct (process_actions idle_client 34 0%nat lost_state) as [[[[n s'] actions]|]|] eqn:E;
    [|exfalso; revert E; vm_compute; discriminate..].
  assert (actions = [ACTION_ACTIVATE_SYNC_TREE; ACTION_DRAW_AND_SWAP_ABORT] ∧ n = 0%nat ∧
    PendingActivationsShouldBeForced s' = true ∧ PendingDrawsShouldBeAborted s' = true)
    as (Hact & Hn & Ha & Hd).
  { revert E. vm_compute. intros E. injection E as <- <- <-. repeat split. }
  exists s'. subst actions n.
  destruct (stopped_pipeline_is_flushed idle_client _ _ _ _ s' _ E Ha Hd) as (H1 & H2 & _).
  split; [reflexivity|]. exact (conj H1 H2).
Defined.

Lemma checkerboards_force_redraw_witness :
  ∃ s', checkerboards 3 (init_SchedulerStateMachine default_SchedulerSettings) = Done s' ∧
    needs_begin_main_frame_ s' = true ∧ needs_redraw_ s' = true ∧
    forced_redraw_state_ s' = FORCED_REDRAW_STATE_WAITING_FOR_COMMIT ∧
    consecutive_checkerboard_animations_ s' = 0.
Proof.
  exact (checkerboards_force_redraw
    (init_SchedulerStateMachine default_SchedulerSettings) 3
    eq_refl eq_refl ltac:(lia) ltac:(cbn; lia)).
Defined.

Lemma forced_redraw_draws_witness :
  ∃ s', forced_redraw_steps
          (busy_state <| forced_redraw_state_ := FORCED_REDRAW_STATE_WAITING_FOR_COMMIT |>) =
          Done (s', [ACTION_ANIMATE; ACTION_DRAW_AND_SWAP_FORCED]) ∧
    forced_redraw_state_ s' = FORCED_REDRAW_STATE_IDLE ∧
    active_tree_needs_first_draw_ s' = false ∧ has_pending_tree_ s' = false ∧
    last_frame_number_swap_requested_ s' = current_frame_number_ s'.
Proof. apply forced_redraw_draws; try reflexivity. left. reflexivity. Defined.

Lemma no_begin_frame_no_action_witness :
  let s := (init_SchedulerStateMachine default_SchedulerSettings)
             <| output_surface_state_ := OUTPUT_SURFACE_ACTIVE |> <| visible_ := true |> in
  BeginFrameNeeded s = false ∧
  (ACTION_DRAW_AND_SWAP_ABORT = ACTION_NONE ∨
   (ACTION_DRAW_AND_SWAP_ABORT = ACTION_COMMIT ∧
    defer_commits_ (s <| active_tree_needs_first_draw_ := true |>) = true) ∨
   (ACTION_DRAW_AND_SWAP_ABORT = ACTION_DRAW_AND_SWAP_ABORT ∧
    can_draw_ (s <| active_tree_needs_first_draw_ := true |>) = false)).
Proof.
  split; [reflexivity|].
  eapply (no_begin_frame_no_action _ BEGIN_IMPL_FRAME_STATE_INSIDE_DEADLINE
            false false false false 0); [reflexivity..|].
  vm_compute. reflexivity.
Defined.

End Examples.
