(* ===== verification/IdAllocator.v ===== *)
(** * gpu/command_buffer/common/id_allocator.{h,cc}

    [IdAllocator] hands out resource ids.  It keeps the ids in use as a
    [std::map] from the first to the last id of each run.  The map is modelled by
    the list of its entries in key order; an iterator by the entries before it
    and the entries from it on. *)

From S2P Require Import Prelude.

Definition kInvalidResource : Z := 0.

(** ** The map of ranges *)

Abbreviation IdRange := (prod Z Z).
Abbreviation ResourceIdRangeMap := (list IdRange).

(** [std::map::lower_bound]: the entries before and from the first key that is
    not less than [id]. *)
Fixpoint lower_bound (id : Z) (m : ResourceIdRangeMap) : list IdRange * list IdRange :=
  match m with
  | [] => ([], [])
  | r :: m' =>
      if r.1 <? id then let '(before, after) := lower_bound id m' in (r :: before, after)
      else ([], m)
  end.

(** [--it]: undefined at the beginning of the map. *)
Definition step_back (before after : list IdRange) :
    outcome (list IdRange * IdRange * list IdRange) :=
  match reverse before with
  | [] => DcheckFailed
  | current :: before => Done (reverse before, current, after)
  end.

(** [std::map::insert]: no effect if the key is present. *)
Fixpoint map_insert (r : IdRange) (m : ResourceIdRangeMap) : ResourceIdRangeMap :=
  match m with
  | [] => [r]
  | r' :: m' =>
      if r.1 <? r'.1 then r :: m
      else if r.1 =? r'.1 then m
      else r' :: map_insert r m'
  end.

(** The constructor. *)
Definition init_IdAllocator : ResourceIdRangeMap := map_insert (0, 0) [].

(** ** Operations *)

(** [current->second = last_id;], then the merge with the next range. *)
Definition extend_current (before : list IdRange) (first_id last_id : Z)
    (next : list IdRange) : ResourceIdRangeMap :=
  match next with
  | n :: next' =>
      if u32 (n.1 - 1) =? last_id
      then before ++ (first_id, n.2) :: next'
      else before ++ (first_id, last_id) :: next
  | [] => before ++ [(first_id, last_id)]
  end.

(** A range for one id: prepended to the next range if it touches it, else new.
    Both [AllocateIDAtOrAbove] and [MarkAsUsed] end with this. *)
Definition prepend_or_insert (before : list IdRange) (current : IdRange)
    (next : list IdRange) (id : Z) : ResourceIdRangeMap :=
  match next with
  | n :: next' =>
      if u32 (n.1 - 1) =? id then
        let last_existing_id := n.2 in
        map_insert (id, last_existing_id) (before ++ current :: next')
      else map_insert (id, id) (before ++ current :: next)
  | [] => map_insert (id, id) (before ++ current :: next)
  end.

(** The range found by [lower_bound(id)], or the one before it if that is the end
    or starts above [id]. *)
Definition range_at (id : Z) (m : ResourceIdRangeMap) :
    outcome (list IdRange * IdRange * list IdRange) :=
  let '(before, after) := lower_bound id m in
  match after with
  | current :: next =>
      if id <? current.1 then step_back before after else Done (before, current, next)
  | [] => step_back before after
  end.

(** The loop of [AllocateIDRange]. *)
Fixpoint find_gap (range : Z) (before : list IdRange) (current : IdRange)
    (next : list IdRange) : list IdRange * IdRange * list IdRange :=
  match next with
  | [] => (before, current, [])
  | n :: next' =>
      if range <? u32 (n.1 - current.2) then (before, current, next)
      else find_gap range (before ++ [current]) n next'
  end.

Definition AllocateIDRange (range : Z) (used_ids_ : ResourceIdRangeMap) :
    outcome (Z * ResourceIdRangeMap) :=
  DCHECK (0 <? range) ;;
  match used_ids_ with
  | [] => DcheckFailed
  | begin :: rest =>
      let '(before, current, next) := find_gap range [] begin rest in
      let first_id := u32 (current.2 + 1) in
      let last_id := u32 (first_id + range - 1) in
      if (first_id =? 0) || (last_id <? first_id) then Done (kInvalidResource, used_ids_)
      else Done (first_id, extend_current before current.1 last_id next)
  end.

Definition AllocateID (used_ids_ : ResourceIdRangeMap) :
    outcome (Z * ResourceIdRangeMap) :=
  AllocateIDRange 1 used_ids_.

Definition AllocateIDAtOrAbove (desired_id : Z) (used_ids_ : ResourceIdRangeMap) :
    outcome (Z * ResourceIdRangeMap) :=
  if (desired_id =? 0) || (desired_id =? 1) then AllocateIDRange 1 used_ids_
  else
    c ← range_at desired_id used_ids_;
    let '(before, current, next) := c in
    let first_id := current.1 in
    let last_id := current.2 in
    DCHECK (first_id <=? desired_id) ;;
    if u32 (desired_id - 1) <=? last_id then
      let last_id := u32 (last_id + 1) in
      if last_id =? 0 then AllocateIDRange 1 used_ids_
      else Done (last_id, extend_current before first_id last_id next)
    else
      Done (desired_id, prepend_or_insert before current next desired_id).

Definition MarkAsUsed (id : Z) (used_ids_ : ResourceIdRangeMap) :
    outcome (bool * ResourceIdRangeMap) :=
  DCHECK (negb (id =? 0)) ;;
  let '(before, after) := lower_bound id used_ids_ in
  if match after with current :: _ => current.1 =? id | [] => false end
  then Done (false, used_ids_)
  else
    c ← step_back before after;
    let '(before, current, next) := c in
    if id <=? current.2 then Done (false, used_ids_)
    else
      DCHECK ((current.1 <? id) && (current.2 <? id)) ;;
      if u32 (current.2 + 1) =? id then
        Done (true, extend_current before current.1 id next)
      else
        Done (true, prepend_or_insert before current next id).

(** One iteration of the loop of [FreeIDRange]; [None]: the loop returns. *)
Definition free_step (first_id last_id : Z) (used_ids_ : ResourceIdRangeMap) :
    outcome (option ResourceIdRangeMap) :=
  c ← range_at last_id used_ids_;
  let '(before, current, next) := c in
  if current.2 <? first_id then Done None
  else if first_id <=? current.1 then
    let last_existing_id := current.2 in
    let used_ids_ := before ++ next in
    Done (Some (if last_id <? last_existing_id
                then map_insert (u32 (last_id + 1), last_existing_id) used_ids_
                else used_ids_))
  else if current.2 <=? last_id then
    Done (Some (before ++ (current.1, u32 (first_id - 1)) :: next))
  else
    DCHECK ((current.1 <? first_id) && (last_id <? current.2)) ;;
    let last_existing_id := current.2 in
    Done (Some (map_insert (u32 (last_id + 1), last_existing_id)
                  (before ++ (current.1, u32 (first_id - 1)) :: next))).

(** [None]: [fuel] iterations were not enough. *)
Fixpoint free_loop (fuel : nat) (first_id last_id : Z)
    (used_ids_ : ResourceIdRangeMap) : outcome (option ResourceIdRangeMap) :=
  match fuel with
  | O => Done None
  | S fuel =>
      r ← free_step first_id last_id used_ids_;
      match r with
      | None => Done (Some used_ids_)
      | Some used_ids_ => free_loop fuel first_id last_id used_ids_
      end
  end.

Definition FreeIDRange (fuel : nat) (first_id range : Z)
    (used_ids_ : ResourceIdRangeMap) : outcome (option ResourceIdRangeMap) :=
  if (range =? 0) || ((first_id =? 0) && (range =? 1)) then Done (Some used_ids_)
  else
    let '(first_id, range) :=
      if first_id =? 0 then (1, range - 1) else (first_id, range) in
    let last_id := u32 (first_id + range - 1) in
    let last_id := if last_id <? first_id then u32_max else last_id in
    free_loop fuel first_id last_id used_ids_.

Definition FreeID (fuel : nat) (id : Z) (used_ids_ : ResourceIdRangeMap) :
    outcome (option ResourceIdRangeMap) :=
  FreeIDRange fuel id 1 used_ids_.

Definition InUse (id : Z) (used_ids_ : ResourceIdRangeMap) : outcome bool :=
  if id =? kInvalidResource then Done false
  else
    let '(before, after) := lower_bound id used_ids_ in
    if match after with current :: _ => current.1 =? id | [] => false end
    then Done true
    else
      c ← step_back before after;
      let '(_, current, _) := c in
      Done (id <=? current.2).

(** ** The invariant and the ids a map stands for *)

(** The ranges from [lo] on: in order, not empty, not adjacent to each other. *)
Fixpoint ranges_from (lo : Z) (m : ResourceIdRangeMap) : Prop :=
  match m with
  | [] => True
  | (f, l) :: m => lo <= f ∧ f <= l ∧ l <= u32_max ∧ ranges_from (l + 2) m
  end.

(** The invariant: the first range starts with the reserved id 0. *)
Definition wf (m : ResourceIdRangeMap) : Prop :=
  match m with
  | [] => False
  | (f, l) :: m => f = 0 ∧ 0 <= l <= u32_max ∧ ranges_from (l + 2) m
  end.

Fixpoint covered (m : ResourceIdRangeMap) (id : Z) : Prop :=
  match m with
  | [] => False
  | r :: m => r.1 <= id <= r.2 ∨ covered m id
  end.

(** The ids in use: the reserved id is not one of them. *)
Definition in_use (m : ResourceIdRangeMap) (id : Z) : Prop := covered m id ∧ id ≠ 0.

(** Where the range after [m] may start. *)
Fixpoint bound (lo : Z) (m : ResourceIdRangeMap) : Z :=
  match m with
  | [] => lo
  | r :: m => bound (r.2 + 2) m
  end.

Lemma covered_app m1 m2 id : covered (m1 ++ m2) id ↔ covered m1 id ∨ covered m2 id.
Proof. induction m1; cbn; naive_solver. Qed.

Lemma bound_app lo m1 m2 : bound lo (m1 ++ m2) = bound (bound lo m1) m2.
Proof. revert lo. induction m1; intros; cbn; auto. Qed.

Lemma ranges_from_app lo m1 m2 :
  ranges_from lo (m1 ++ m2) ↔ ranges_from lo m1 ∧ ranges_from (bound lo m1) m2.
Proof.
  revert lo. induction m1 as [|[f l] m1 IH]; intros lo; cbn; [tauto|].
  rewrite IH. tauto.
Qed.

Lemma ranges_from_weaken lo lo' m : ranges_from lo m → lo' <= lo → ranges_from lo' m.
Proof. destruct m as [|[f l] m]; cbn; intuition lia. Qed.

Lemma covered_from lo m id : ranges_from lo m → covered m id → lo <= id <= u32_max.
Proof.
  revert lo. induction m as [|[f l] m IH]; cbn; intros lo H Hc; [done|].
  destruct H as (? & ? & ? & H), Hc as [?|Hc]; cbn in *; [lia|].
  specialize (IH _ H Hc). lia.
Qed.

Lemma bound_le lo m : ranges_from lo m → lo <= bound lo m.
Proof.
  revert lo. induction m as [|[f l] m IH]; cbn; intros lo H; [lia|].
  destruct H as (? & ? & ? & H). specialize (IH _ H). lia.
Qed.

Lemma covered_below lo m id :
  ranges_from lo m → covered m id → id + 2 <= bound lo m.
Proof.
  revert lo. induction m as [|[f l] m IH]; cbn; intros lo H Hc; [done|].
  destruct H as (? & ? & ? & H).
  destruct Hc as [?|Hc]; cbn in *; [pose proof (bound_le _ _ H); lia|]. by apply IH.
Qed.

Lemma wf_ranges m : wf m → ranges_from 0 m.
Proof. destruct m as [|[f l] m]; cbn; [done|]. intros (-> & ? & ?). auto with lia. Qed.

Lemma wf_covered m : wf m ↔ ranges_from 0 m ∧ covered m 0.
Proof.
  split.
  - intros H. split; [by apply wf_ranges|]. destruct m as [|[f l] m]; [done|].
    cbn in *. left. lia.
  - destruct m as [|[f l] m]; cbn; intros [H Hc]; [done|].
    destruct H as (? & ? & ? & H), Hc as [?|Hc]; cbn in *.
    + split_and!; try lia. done.
    + apply (covered_from _ _ _ H) in Hc. lia.
Qed.

Lemma focus before f l next :
  ranges_from 0 (before ++ (f, l) :: next) →
  ranges_from 0 before ∧ bound 0 before <= f ∧ 0 <= f ∧ f <= l ∧ l <= u32_max ∧
  ranges_from (l + 2) next ∧
  (∀ x, covered before x → 0 <= x ∧ x + 2 <= f) ∧
  (∀ x, covered next x → l + 2 <= x <= u32_max ∧
     match next with n :: _ => n.1 <= x | [] => True end) ∧
  match next with n :: _ => l + 2 <= n.1 <= n.2 | [] => True end.
Proof.
  intros H. apply ranges_from_app in H as [H1 (H2 & H3 & H4 & H5)].
  pose proof (bound_le _ _ H1).
  split_and!; try done; try lia.
  - intros x Hx. pose proof (covered_from _ _ _ H1 Hx).
    pose proof (covered_below _ _ _ H1 Hx). lia.
  - intros x Hx. split; [exact (covered_from _ _ _ H5 Hx)|].
    destruct next as [|[nf nl] next]; [done|]. cbn in *.
    destruct H5 as (? & ? & ? & H5), Hx as [?|Hx]; cbn in *; [lia|].
    apply (covered_from _ _ _ H5) in Hx. lia.
  - destruct next as [|[f' l'] next]; [done|]. cbn in *. lia.
Qed.

Lemma lower_bound_app id m before after :
  lower_bound id m = (before, after) →
  m = before ++ after ∧ (∀ r, r ∈ before → r.1 < id) ∧
  match after with r :: _ => id <= r.1 | [] => True end.
Proof.
  revert before. induction m as [|r m IH]; cbn; intros before H.
  - simplify_eq. split_and!; [done|set_solver|done].
  - destruct (r.1 <? id) eqn:E; prop_bools.
    + destruct (lower_bound id m) as [b a]. simplify_eq.
      destruct (IH b eq_refl) as (-> & ? & ?). split_and!; [done|set_solver|done].
    + simplify_eq. split_and!; [done|set_solver|lia].
Qed.

Lemma step_back_snoc before current after :
  step_back (before ++ [current]) after = Done (before, current, after).
Proof. unfold step_back. by rewrite reverse_snoc, reverse_involutive. Qed.

(** The range that starts last at or below an id, as the code finds it. *)
Lemma find_current id m before after :
  wf m → 0 <= id → lower_bound id m = (before, after) →
  (∃ l next, after = (id, l) :: next ∧ m = before ++ (id, l) :: next) ∨
  (∃ before' current,
     before = before' ++ [current] ∧ step_back before after = Done (before', current, after) ∧
     m = before' ++ current :: after ∧ current.1 < id ∧
     match after with n :: _ => id < n.1 | [] => True end).
Proof.
  intros Hwf Hid H. apply lower_bound_app in H as (-> & Hb & Ha).
  destruct (match after with r :: _ => r.1 =? id | [] => false end) eqn:He.
  - destruct after as [|[f l] next]; [done|]. cbn in He. prop_bools. subst f. left. eauto.
  - right. destruct before as [|current before' _] using rev_ind.
    { cbn in Hwf. destruct after as [|[f l] next]; [done|]. cbn in *. prop_bools. lia. }
    exists before', current. rewrite step_back_snoc, <- app_assoc.
    split_and!; try done.
    + apply Hb. set_solver.
    + destruct after as [|n next]; [done|]. prop_bools. lia.
Qed.

Lemma map_insert_spec lo m f l :
  ranges_from lo m → lo <= f → f <= l → l <= u32_max →
  (∀ x, covered m x → x + 1 < f ∨ l + 1 < x) →
  ranges_from lo (map_insert (f, l) m) ∧
  ∀ x, covered (map_insert (f, l) m) x ↔ covered m x ∨ f <= x <= l.
Proof.
  revert lo. induction m as [|[f' l'] m IH]; intros lo H Hlo Hfl Hl Hx; cbn.
  - naive_solver lia.
  - destruct H as (H1 & H2 & H3 & H4).
    pose proof (Hx f' (or_introl (conj (Z.le_refl f') H2))) as Hf.
    pose proof (Hx l' (or_introl (conj H2 (Z.le_refl l')))) as Hl'.
    destruct (Z.ltb_spec f f'); [cbn; split; [|naive_solver]|].
    { split_and!; try lia. done. }
    destruct (Z.eqb_spec f f'); [lia|].
    destruct (IH (l' + 2)) as [IH1 IH2]; try done; try lia.
    { pose proof (Hx). destruct Hf; [|lia]. destruct Hl'; [lia|].
      exfalso. specialize (Hx f). cbn in Hx. assert (f' <= f <= l') by lia. naive_solver lia. }
    { intros x Hc. apply Hx. by right. }
    cbn. split; [done|]. intros x. rewrite IH2. tauto.
Qed.

Lemma extend_current_spec before f l next last :
  ranges_from 0 (before ++ (f, l) :: next) → l <= last <= u32_max →
  match next with n :: _ => last < n.1 | [] => True end →
  ranges_from 0 (extend_current before f last next) ∧
  ∀ x, covered (extend_current before f last next) x ↔
       covered (before ++ (f, l) :: next) x ∨ l < x <= last.
Proof.
  intros H Hl Hn. apply focus in H as (H1 & H2 & H3 & H4 & H5 & H6 & _ & Hn2 & H7).
  unfold extend_current. destruct next as [|[nf nl] next].
  - rewrite ranges_from_app. cbn. split; [split_and!; lia || done|].
    intros x. rewrite !covered_app. cbn. intuition lia.
  - cbn in *. destruct H6 as (? & ? & ? & H6).
    rewrite (u32_small (nf - 1)) by auto with machine.
    destruct (Z.eqb_spec (nf - 1) last); rewrite ranges_from_app; cbn;
      (split; [split_and!; lia || done|]);
      intros x; rewrite !covered_app; cbn; intuition lia.
Qed.

Lemma gap_free before f l next x :
  ranges_from 0 (before ++ (f, l) :: next) → l < x →
  match next with n :: _ => x < n.1 | [] => True end →
  ¬ covered (before ++ (f, l) :: next) x.
Proof.
  intros Hm Hx Hn Hc.
  pose proof (focus _ _ _ _ Hm) as (_ & _ & _ & Hfl & _ & _ & Hb & Hnx & _).
  apply covered_app in Hc as [Hc|[Hc|Hc]]; cbn in *; [|lia|].
  - apply Hb in Hc. lia.
  - destruct next as [|n1 next]; [done|]. apply Hnx in Hc. lia.
Qed.

(** Every run of [range] ids that starts at or below [top] meets an id in use. *)
Definition no_gap_upto (range : Z) (used : Z → Prop) (top : Z) : Prop :=
  ∀ x, 0 < x <= top → ∃ y, x <= y < x + range ∧ used y.

Lemma find_gap_spec range next : ∀ before current b c n,
  1 <= range <= u32_max →
  ranges_from 0 (before ++ current :: next) →
  no_gap_upto range (in_use (before ++ current :: next)) current.2 →
  find_gap range before current next = (b, c, n) →
  before ++ current :: next = b ++ c :: n ∧
  no_gap_upto range (in_use (b ++ c :: n)) c.2 ∧
  match n with n1 :: _ => c.2 + range < n1.1 | [] => True end.
Proof.
  induction next as [|[nf nl] next IH]; intros before [f l] b c n Hr H Hg E; cbn in E.
  - by simplify_eq.
  - pose proof (focus _ _ _ _ H) as (_ & _ & H3 & H4 & H5 & H6 & _ & _ & H7).
    cbn in H6, H7. destruct H6 as (? & ? & ? & _).
    rewrite (u32_small (nf - l)) in E by auto with machine.
    destruct (Z.ltb_spec range (nf - l)); [simplify_eq; cbn; split_and!; [done|done|lia]|].
    assert (before ++ (f, l) :: (nf, nl) :: next =
            (before ++ [(f, l)]) ++ (nf, nl) :: next) as Heq by by rewrite <- app_assoc.
    rewrite Heq in *. apply IH in E; [exact E|done|done|].
    intros x Hx. cbn in Hx. destruct (Z.le_gt_cases x l); [apply Hg; cbn; lia|].
    exists (Z.max x nf). split; [lia|]. split; [|lia].
    apply covered_app. right. cbn. left. lia.
Qed.

(** What allocating [range] ids may do to the ids in use: the first free run of that
    length is taken, or there is none and nothing changes. *)
Definition allocated_range (range : Z) (used : Z → Prop) (id : Z) (used' : Z → Prop) :
    Prop :=
  if decide (id = kInvalidResource) then
    (∀ x, used' x ↔ used x) ∧ no_gap_upto range used (u32_max - range + 1)
  else
    0 < id ∧ id + range - 1 <= u32_max ∧
    (∀ x, id <= x < id + range → ¬ used x) ∧
    (∀ x, used' x ↔ used x ∨ id <= x < id + range) ∧
    no_gap_upto range used (id - 1).

Lemma AllocateIDRange_spec range m :
  wf m → 1 <= range <= u32_max →
  ∃ id m', AllocateIDRange range m = Done (id, m') ∧ wf m' ∧
    allocated_range range (in_use m) id (in_use m').
Proof.
  intros Hwf Hr. pose proof (wf_ranges _ Hwf) as Hm.
  unfold AllocateIDRange, allocated_range. pass_DCHECK ltac:(apply Z.ltb_lt; lia).
  destruct m as [|[f0 l0] rest]; [done|]. destruct Hwf as (-> & Hl0 & Hrest).
  destruct (find_gap range [] (0, l0) rest) as [[b [f l]] n] eqn:E.
  apply find_gap_spec in E as (Heq & Hg & Hn); [|done|done|].
  2:{ intros x Hx. exists x. cbn in *. split; [lia|]. split; [left; cbn; lia|lia]. }
  cbn [app] in Heq. rewrite Heq in *. cbn in Hg, Hn.
  assert (covered (b ++ (f, l) :: n) 0) as H0 by (rewrite <- Heq; left; cbn; lia).
  pose proof (focus _ _ _ _ Hm) as (_ & _ & H3 & H4 & H5 & _ & Hb & Hnx & Hn2).
  cbn [fst snd].
  destruct (decide (l + range <= u32_max)) as [Hfit|Hfull].
  - rewrite (u32_small (l + 1)), (u32_small (l + 1 + range - 1)) by (unfold is_u32; lia).
    destruct (Z.eqb_spec (l + 1) 0), (Z.ltb_spec (l + 1 + range - 1) (l + 1)); try lia.
    destruct (extend_current_spec b f l n (l + 1 + range - 1)) as [He1 He2]; [done|lia| |].
    { destruct n; [done|]. lia. }
    eexists _, _. split; [reflexivity|]. split.
    { apply wf_covered. split; [done|]. apply He2. by left. }
    rewrite decide_False by (unfold kInvalidResource; lia).
    split_and!; [lia|lia| | |].
    + intros x Hx [Hc _]. revert Hc. apply gap_free; [done|lia|]. destruct n; [done|lia].
    + intros x. unfold in_use. rewrite He2. intuition lia.
    + intros x Hx. apply Hg. lia.
  - exists kInvalidResource, (b ++ (f, l) :: n). split.
    + assert ((u32 (l + 1) =? 0) || (u32 (u32 (l + 1) + range - 1) <? u32 (l + 1)) = true)
        as ->; [|done].
      destruct (decide (l = u32_max)) as [->|]; [done|].
      rewrite (u32_small (l + 1)) by (unfold is_u32; lia).
      apply orb_true_iff. right. apply Z.ltb_lt. case_u32.
    + split; [by apply wf_covered|].
      rewrite decide_True by done. split; [done|]. intros x Hx. apply Hg. lia.
Qed.

(** ** Allocating at or above an id *)

(** The least free id at or above the desired one; if there is none, the least
    free id; if there is none, [kInvalidResource]. *)
Definition allocated_at_or_above (desired_id : Z) (used : Z → Prop) (id : Z)
    (used' : Z → Prop) : Prop :=
  if decide (id = kInvalidResource) then
    (∀ x, used' x ↔ used x) ∧ ∀ x, 0 < x <= u32_max → used x
  else
    0 < id <= u32_max ∧ ¬ used id ∧
    (∀ x, used' x ↔ used x ∨ x = id) ∧
    ((desired_id <= id ∧ ∀ x, 0 < x → desired_id <= x < id → used x) ∨
     ((∀ x, 0 < x → desired_id <= x <= u32_max → used x) ∧
      ∀ x, 0 < x < id → used x)).

Lemma allocated_one_at_or_above desired_id m id m' :
  allocated_range 1 (in_use m) id (in_use m') →
  desired_id <= 1 ∨ (∀ x, 0 < x → desired_id <= x <= u32_max → in_use m x) →
  allocated_at_or_above desired_id (in_use m) id (in_use m').
Proof.
  unfold allocated_range, allocated_at_or_above. intros H Hd.
  assert (∀ top, no_gap_upto 1 (in_use m) top → ∀ x, 0 < x <= top → in_use m x) as Hone.
  { intros top Hg x Hx. destruct (Hg x Hx) as (y & ? & ?). by replace x with y by lia. }
  case_decide.
  - destruct H as [Hsame H]. split; [done|]. intros x Hx. eapply Hone; [done|]. lia.
  - destruct H as (? & ? & H1 & H2 & H3). split_and!; try lia.
    + apply H1. lia.
    + intros x. rewrite H2. intuition lia.
    + pose proof (Hone _ H3) as Hlow.
      destruct Hd; [left; split; [lia|]|right; split; [done|]]; intros; apply Hlow; lia.
Qed.

Lemma prepend_or_insert_spec before f l next id :
  ranges_from 0 (before ++ (f, l) :: next) → covered (before ++ (f, l) :: next) 0 →
  l + 1 < id <= u32_max → match next with n :: _ => id < n.1 | [] => True end →
  wf (prepend_or_insert before (f, l) next id) ∧
  ∀ x, covered (prepend_or_insert before (f, l) next id) x ↔
       covered (before ++ (f, l) :: next) x ∨ x = id.
Proof.
  intros Hm H0 Hid Hn.
  pose proof (focus _ _ _ _ Hm) as (Hb0 & Hb1 & H3 & H4 & H5 & Hnr & Hb & Hnx & Hn2).
  assert (∀ r next', ranges_from 0 (before ++ (f, l) :: next') →
    covered (before ++ (f, l) :: next') 0 → id <= r <= u32_max →
    (∀ x, covered next' x → r + 1 < x) →
    wf (map_insert (id, r) (before ++ (f, l) :: next')) ∧
    ∀ x, covered (map_insert (id, r) (before ++ (f, l) :: next')) x ↔
         covered (before ++ (f, l) :: next') x ∨ id <= x <= r) as Hins.
  { intros r next' Hm' H0' Hr Hx. destruct (map_insert_spec 0 _ id r Hm') as [H1 H2]; try lia.
    - intros x Hc. apply covered_app in Hc as [Hc|[Hc|Hc]]; cbn in *; [|lia|].
      + apply Hb in Hc. lia.
      + apply Hx in Hc. lia.
    - split; [|done]. apply wf_covered. split; [done|]. apply H2. by left. }
  unfold prepend_or_insert. destruct next as [|[nf nl] next].
  - destruct (Hins id []) as [H1 H2]; try done; [lia|].
    split; [done|]. intros x. rewrite H2. intuition lia.
  - cbn in Hn, Hn2, Hnr. destruct Hnr as (? & ? & ? & Hnr). cbn [fst snd].
    rewrite (u32_small (nf - 1)) by auto with machine.
    destruct (Z.eqb_spec (nf - 1) id) as [Heq|Hne].
    + destruct (Hins nl next) as [H1' H2']; [|  |lia| |].
      * apply ranges_from_app. split; [done|]. cbn. split_and!; try lia.
        eapply ranges_from_weaken; [done|lia].
      * rewrite covered_app in H0 |- *. cbn in *. intuition lia.
      * intros x Hx. apply (covered_from _ _ _ Hnr) in Hx. lia.
      * split; [done|]. intros x. rewrite H2', !covered_app. cbn. intuition lia.
    + destruct (Hins id ((nf, nl) :: next)) as [H1' H2']; try done; [lia| |].
      * intros x Hx. apply Hnx in Hx. cbn in *. lia.
      * split; [done|]. intros x. rewrite H2'. intuition lia.
Qed.

Lemma range_at_spec id m :
  wf m → 0 <= id →
  ∃ before f l next, range_at id m = Done (before, (f, l), next) ∧
    m = before ++ (f, l) :: next ∧ f <= id ∧
    match next with n :: _ => id < n.1 | [] => True end.
Proof.
  intros Hwf Hid. unfold range_at.
  destruct (lower_bound id m) as [before after] eqn:El.
  destruct (find_current id m before after Hwf Hid El)
    as [(l & next & -> & Hm)|(before' & [f l] & -> & Hs & Hm & Hf & Hn)].
  - exists before, id, l, next. cbn. rewrite Z.ltb_irrefl. split_and!; [done|done|lia|].
    pose proof (wf_ranges _ Hwf) as Hr. rewrite Hm in Hr.
    apply focus in Hr as (_ & _ & _ & ? & _ & _ & _ & _ & Hn).
    destruct next; [done|]. lia.
  - exists before', f, l, after. cbn in Hf. split_and!; [|done|lia|done].
    destruct after as [|n next]; [done|].
    rewrite (proj2 (Z.ltb_lt id n.1)) by done. done.
Qed.

Lemma AllocateIDAtOrAbove_spec desired_id m :
  wf m → is_u32 desired_id →
  ∃ id m', AllocateIDAtOrAbove desired_id m = Done (id, m') ∧ wf m' ∧
    allocated_at_or_above desired_id (in_use m) id (in_use m').
Proof.
  intros Hwf Hd. unfold is_u32 in Hd. unfold AllocateIDAtOrAbove.
  destruct (AllocateIDRange_spec 1 m) as (id1 & m1 & Ha & Hwf1 & Hs1);
    [done|unfold u32_max; lia|].
  destruct ((desired_id =? 0) || (desired_id =? 1)) eqn:E01.
  { exists id1, m1. split_and!; [done|done|].
    apply allocated_one_at_or_above; [done|]. left.
    apply orb_true_iff in E01 as [?|?]; prop_bools; lia. }
  prop_bools.
  destruct (range_at_spec desired_id m) as (before & f & l & next & -> & -> & Hf & Hn);
    [done|lia|]. cbn [mbind outcome_bind fst snd].
  pass_DCHECK ltac:(apply Z.leb_le; lia).
  apply wf_covered in Hwf as [Hm H0'].
  pose proof (focus _ _ _ _ Hm) as (_ & _ & H3 & H4 & H5 & _ & Hb & Hnx & Hn2).
  rewrite (u32_small (desired_id - 1)) by (unfold is_u32; lia).
  assert (∀ x, f <= x <= l → covered (before ++ (f, l) :: next) x) as Hcur.
  { intros x Hx. apply covered_app. right; left. done. }
  destruct (Z.leb_spec (desired_id - 1) l) as [Hle|Hgt].
  - destruct (decide (l = u32_max)) as [->|Hl].
    + exists id1, m1. split_and!; [done|done|].
      apply allocated_one_at_or_above; [done|]. right. intros x Hx Hx2.
      split; [|lia]. apply Hcur. lia.
    + rewrite (u32_small (l + 1)) by (unfold is_u32; lia).
      destruct (Z.eqb_spec (l + 1) 0); [lia|].
      destruct (extend_current_spec before f l next (l + 1)) as [He1 He2]; [done|lia| |].
      { destruct next; [done|]. lia. }
      eexists _, _. split; [reflexivity|]. split.
      { apply wf_covered. split; [done|]. apply He2. by left. }
      unfold allocated_at_or_above. rewrite decide_False by (unfold kInvalidResource; lia).
      split_and!; [lia|lia| | |].
      * intros [Hc _]. revert Hc. apply gap_free; [done|lia|]. destruct next; [done|lia].
      * intros x. unfold in_use. rewrite He2. intuition lia.
      * left. split; [lia|]. intros x Hx Hx2. split; [|lia]. apply Hcur. lia.
  - destruct (prepend_or_insert_spec before f l next desired_id) as [Hp1 Hp2];
      [done|done|lia|done|].
    eexists _, _. split; [reflexivity|]. split; [done|].
    unfold allocated_at_or_above. rewrite decide_False by (unfold kInvalidResource; lia).
    split_and!; [lia|lia| | |].
    * intros [Hc _]. revert Hc. by apply gap_free; [|lia|].
    * intros x. unfold in_use. rewrite Hp2. intuition lia.
    * left. split; [lia|]. intros; lia.
Qed.

(** ** Marking and testing *)

Lemma MarkAsUsed_spec id m :
  wf m → 0 < id <= u32_max →
  ∃ b m', MarkAsUsed id m = Done (b, m') ∧ wf m' ∧
    (b = true ↔ ¬ in_use m id) ∧ ∀ x, in_use m' x ↔ in_use m x ∨ x = id.
Proof.
  intros Hwf Hid. unfold MarkAsUsed.
  pass_DCHECK ltac:(apply negb_true_iff, Z.eqb_neq; lia).
  apply wf_covered in Hwf as Hc. destruct Hc as [Hm H0].
  assert (∀ x, in_use m id → in_use m x ↔ in_use m x ∨ x = id) as Hsame
    by (intros x ?; split; [by left|by intros [?| ->]]).
  destruct (lower_bound id m) as [before after] eqn:El.
  destruct (find_current id m before after Hwf ltac:(lia) El)
    as [(l & next & -> & Heq)|(before' & [f l] & -> & Hs & Heq & Hf & Hn)].
  - cbn [fst]. rewrite Z.eqb_refl.
    assert (in_use m id) as Hu.
    { rewrite Heq in Hm |- *. apply focus in Hm as (_ & _ & _ & ? & _).
      split; [|lia]. apply covered_app. right; left. cbn. lia. }
    exists false, m. split_and!; [done|done|naive_solver|]. intros x. by apply Hsame.
  - assert (match after with current :: _ => current.1 =? id | [] => false end = false) as ->.
    { destruct after; [done|]. apply Z.eqb_neq. lia. }
    rewrite Hs. cbn [mbind outcome_bind fst snd]. cbn in Hf.
    destruct (Z.leb_spec id l) as [Hle|Hgt].
    + assert (in_use m id) as Hu.
      { rewrite Heq. split; [|lia]. apply covered_app. right; left. cbn. lia. }
      exists false, m. split_and!; [done|done|naive_solver|]. intros x. by apply Hsame.
    + pass_DCHECK ltac:(apply andb_true_iff; split; apply Z.ltb_lt; lia).
      rewrite Heq in Hm, H0.
      assert (¬ in_use m id) as Hfree.
      { rewrite Heq. intros [Hc _]. revert Hc. by apply gap_free. }
      pose proof (focus _ _ _ _ Hm) as (_ & _ & H3 & H4 & H5 & _).
      rewrite (u32_small (l + 1)) by (unfold is_u32; lia).
      destruct (Z.eqb_spec (l + 1) id) as [Hadj|Hnadj].
      * destruct (extend_current_spec before' f l after id) as [He1 He2]; [done|lia|done|].
        eexists _, _. split; [reflexivity|]. split_and!; [|done|].
        { apply wf_covered. split; [done|]. apply He2. by left. }
        intros x. unfold in_use. rewrite He2, <- Heq. intuition lia.
      * destruct (prepend_or_insert_spec before' f l after id) as [Hp1 Hp2];
          [done|done|lia|done|].
        eexists _, _. split; [reflexivity|]. split_and!; [done|done|].
        intros x. unfold in_use. rewrite Hp2, <- Heq. intuition lia.
Qed.

Lemma InUse_spec id m :
  wf m → 0 <= id → ∃ b, InUse id m = Done b ∧ (b = true ↔ in_use m id).
Proof.
  intros Hwf Hid. unfold InUse, kInvalidResource.
  destruct (Z.eqb_spec id 0) as [->|Hne].
  { exists false. split; [done|]. unfold in_use. naive_solver. }
  apply wf_covered in Hwf as Hc. destruct Hc as [Hm _].
  destruct (lower_bound id m) as [before after] eqn:El.
  destruct (find_current id m before after Hwf Hid El)
    as [(l & next & -> & Heq)|(before' & [f l] & -> & Hs & Heq & Hf & Hn)].
  - cbn [fst]. rewrite Z.eqb_refl. exists true. split; [done|].
    split; [|done]. intros _. rewrite Heq in Hm |- *.
    apply focus in Hm as (_ & _ & _ & ? & _).
    split; [|done]. apply covered_app. right; left. cbn. lia.
  - assert (match after with current :: _ => current.1 =? id | [] => false end = false) as ->.
    { destruct after; [done|]. apply Z.eqb_neq. lia. }
    rewrite Hs. cbn [mbind outcome_bind fst snd]. cbn in Hf.
    eexists. split; [done|]. rewrite Heq in Hm |- *. rewrite Z.leb_le.
    destruct (Z.le_gt_cases id l) as [Hle|Hgt].
    + split; [|done]. intros _. split; [|done]. apply covered_app. right; left. cbn. lia.
    + split; [lia|]. intros [Hc _]. exfalso. revert Hc. by apply gap_free; [|lia|].
Qed.

(** ** Freeing *)

(** The ranges that meet the ids to free: each iteration removes one. *)
Definition overlaps (first_id last_id : Z) (r : IdRange) : bool :=
  (first_id <=? r.2) && (r.1 <=? last_id).

Fixpoint overlapping (first_id last_id : Z) (m : ResourceIdRangeMap) : nat :=
  match m with
  | [] => 0
  | r :: m => (if overlaps first_id last_id r then 1 else 0) +
              overlapping first_id last_id m
  end.

Lemma overlapping_app a b m1 m2 :
  overlapping a b (m1 ++ m2) = (overlapping a b m1 + overlapping a b m2)%nat.
Proof. induction m1; cbn; lia. Qed.

Lemma overlapping_insert a b r m :
  overlaps a b r = false → overlapping a b (map_insert r m) = overlapping a b m.
Proof.
  intros Hr. induction m as [|r' m IH]; cbn [map_insert].
  - cbn. by rewrite Hr.
  - repeat case_match; cbn; rewrite ?Hr, ?IH; done.
Qed.

Lemma overlapping_le_length a b m : (overlapping a b m ≤ length m)%nat.
Proof. induction m as [|r m IH]; cbn; [done|]. destruct (overlaps a b r); lia. Qed.

(** Replace the ids [f .. l] of the current range by [f' .. l'] of them. *)
Lemma shrink_spec before f l next f' l' :
  ranges_from 0 (before ++ (f, l) :: next) → f <= f' → f' <= l' → l' <= l →
  ranges_from 0 (before ++ (f', l') :: next).
Proof.
  intros Hm Hf Hfl Hl. apply ranges_from_app in Hm as [H1 (H2 & H3 & H4 & H5)].
  apply ranges_from_app. split; [done|]. cbn. split_and!; try lia.
  eapply ranges_from_weaken; [done|lia].
Qed.

Lemma remove_spec before f l next :
  ranges_from 0 (before ++ (f, l) :: next) → ranges_from 0 (before ++ next).
Proof.
  intros Hm. apply ranges_from_app in Hm as [H1 (H2 & H3 & H4 & H5)].
  apply ranges_from_app. split; [done|]. eapply ranges_from_weaken; [done|lia].
Qed.

(** What one iteration keeps: only ids from [first_id] to [last_id] go. *)
Definition frees (first_id last_id : Z) (m m' : ResourceIdRangeMap) : Prop :=
  (∀ x, covered m' x → covered m x) ∧
  (∀ x, covered m x → ¬ (first_id <= x <= last_id) → covered m' x).

(** The end of the current range that lies above the freed ids is inserted again. *)
Lemma insert_tail before mid next f l b a :
  ranges_from 0 (before ++ (f, l) :: next) → ranges_from 0 (before ++ mid ++ next) →
  f <= b → b < l → (∀ x, covered mid x → f <= x < b) → a <= b →
  ranges_from 0 (map_insert (u32 (b + 1), l) (before ++ mid ++ next)) ∧
  (∀ x, covered (map_insert (u32 (b + 1), l) (before ++ mid ++ next)) x ↔
        covered (before ++ mid ++ next) x ∨ b + 1 <= x <= l) ∧
  overlapping a b (map_insert (u32 (b + 1), l) (before ++ mid ++ next)) =
  overlapping a b (before ++ mid ++ next).
Proof.
  intros Hm Hm' Hf Hl Hmid Hab.
  pose proof (focus _ _ _ _ Hm) as (_ & _ & H3 & H4 & H5 & _ & Hb & Hnx & _).
  rewrite u32_small by (unfold is_u32; lia).
  rewrite overlapping_insert; [|unfold overlaps; cbn; apply andb_false_iff; right;
                                apply Z.leb_gt; lia].
  assert (ranges_from 0 (map_insert (b + 1, l) (before ++ mid ++ next)) ∧
    ∀ x, covered (map_insert (b + 1, l) (before ++ mid ++ next)) x ↔
         covered (before ++ mid ++ next) x ∨ b + 1 <= x <= l) as [? ?]; [|by split_and!].
  apply map_insert_spec; try lia; [done|].
  intros x Hc. rewrite !covered_app in Hc. destruct Hc as [Hc|[Hc|Hc]].
  - apply Hb in Hc. lia.
  - apply Hmid in Hc. lia.
  - apply Hnx in Hc. lia.
Qed.

Lemma free_step_spec a b m :
  wf m → 1 <= a → a <= b <= u32_max →
  (free_step a b m = Done None ∧ ∀ x, a <= x <= b → ¬ covered m x) ∨
  (∃ m', free_step a b m = Done (Some m') ∧ ranges_from 0 m' ∧ frees a b m m' ∧
     (overlapping a b m' < overlapping a b m)%nat).
Proof.
  intros Hwf Ha Hab. unfold free_step.
  destruct (range_at_spec b m) as (before & f & l & next & -> & -> & Hf & Hn);
    [done|lia|]. cbn [mbind outcome_bind fst snd].
  apply wf_covered in Hwf as [Hm H0].
  pose proof (focus _ _ _ _ Hm) as (_ & _ & H3 & H4 & H5 & _ & Hb & Hnx & Hn2).
  destruct (Z.ltb_spec l a) as [Hl|Hl].
  { left. split; [done|]. intros x Hx. apply gap_free; [done|lia|].
    destruct next; [done|]. lia. }
  right. unfold frees.
  assert (overlapping a b (before ++ (f, l) :: next) =
          S (overlapping a b (before ++ next))) as ->.
  { rewrite !overlapping_app. cbn [overlapping].
    assert (overlaps a b (f, l) = true) as ->; [|lia].
    unfold overlaps; cbn; apply andb_true_iff; split; apply Z.leb_le; lia. }
  assert (f < a → overlapping a b (before ++ (f, a - 1) :: next) =
                  overlapping a b (before ++ next)) as Hcut.
  { intros Hfa. rewrite !overlapping_app. cbn [overlapping].
    assert (overlaps a b (f, a - 1) = false) as ->; [|lia].
    unfold overlaps; cbn; apply andb_false_iff; left; apply Z.leb_gt; lia. }
  destruct (Z.leb_spec a f) as [Hfa|Hfa]; [|rewrite (u32_small (a - 1)) by (unfold is_u32; lia);
    destruct (Z.leb_spec l b) as [Hlb|Hlb]].
  - pose proof (remove_spec _ _ _ _ Hm) as Hr.
    eexists. split; [reflexivity|]. destruct (Z.ltb_spec b l) as [Hbl|Hbl].
    + destruct (insert_tail before [] next f l b a) as (H1 & H2 & H6); try done; [lia|].
      cbn [app] in *. rewrite H6. split_and!; [done| | |lia];
        intros x; rewrite H2, !covered_app; cbn; intuition lia.
    + split_and!; [done| | |lia]; intros x; rewrite !covered_app; cbn; intuition lia.
  - eexists. split; [reflexivity|]. rewrite Hcut by done. split_and!.
    + eapply shrink_spec; [done|lia..].
    + intros x. rewrite !covered_app; cbn; intuition lia.
    + intros x. rewrite !covered_app; cbn; intuition lia.
    + lia.
  - pass_DCHECK ltac:(apply andb_true_iff; split; apply Z.ltb_lt; lia).
    eexists. split; [reflexivity|].
    destruct (insert_tail before [(f, a - 1)] next f l b a) as (H1 & H2 & H6);
      [done|eapply shrink_spec; [done|lia..]|lia|lia|cbn; intros; lia|lia|].
    cbn [app] in *. rewrite H6, Hcut by done. split_and!; [done| | |lia];
      intros x; rewrite H2, !covered_app; cbn; intuition lia.
Qed.

Lemma free_loop_spec a b fuel m :
  wf m → 1 <= a → a <= b <= u32_max → (overlapping a b m < fuel)%nat →
  ∃ m', free_loop fuel a b m = Done (Some m') ∧ wf m' ∧
    ∀ x, covered m' x ↔ covered m x ∧ ¬ (a <= x <= b).
Proof.
  revert m. induction fuel as [|fuel IH]; intros m Hwf Ha Hab Hfuel; [lia|].
  cbn [free_loop].
  destruct (free_step_spec a b m Hwf Ha Hab) as [[-> Hnone]|(m1 & -> & Hr1 & [Hin Hout] & Hlt)].
  - exists m. split_and!; [done|done|]. naive_solver.
  - apply wf_covered in Hwf as [Hm H0].
    destruct (IH m1) as (m2 & Hm2 & Hwf2 & Hc2); [|done|done|lia|].
    { apply wf_covered. split; [done|]. apply Hout; [done|lia]. }
    exists m2. split_and!; [done|done|]. intros x. rewrite Hc2.
    specialize (Hin x). specialize (Hout x). tauto.
Qed.

(** With as many iterations as ranges, and one more to leave the loop. *)
Definition free_fuel (m : ResourceIdRangeMap) : nat := S (length m).

Lemma FreeIDRange_spec first_id range m :
  wf m → is_u32 first_id → is_u32 range →
  ∃ m', FreeIDRange (free_fuel m) first_id range m = Done (Some m') ∧ wf m' ∧
    ∀ x, in_use m' x ↔ in_use m x ∧ ¬ (first_id <= x < first_id + range).
Proof.
  unfold is_u32, FreeIDRange. intros Hwf Hf Hr.
  pose proof (wf_ranges _ Hwf) as Hm.
  destruct ((range =? 0) || _) eqn:E.
  { exists m. split_and!; [done|done|]. intros x. unfold in_use.
    apply orb_true_iff in E as [E|E]; prop_bools; intuition lia. }
  apply orb_false_iff in E as [E1 E2]. apply Z.eqb_neq in E1.
  assert (¬ (first_id = 0 ∧ range = 1)) as Hne.
  { intros [-> ->]. discriminate. }
  clear E2.
  assert (∀ a r, 1 <= a <= u32_max → 1 <= r <= u32_max →
    ∃ m', free_loop (free_fuel m) a
      (if u32 (a + r - 1) <? a then u32_max else u32 (a + r - 1)) m = Done (Some m') ∧
      wf m' ∧ ∀ x, in_use m' x ↔ in_use m x ∧ ¬ (a <= x < a + r)) as Hloop.
  { intros a r Ha Hr'.
    set (b := if u32 (a + r - 1) <? a then u32_max else u32 (a + r - 1)).
    assert (b = Z.min (a + r - 1) u32_max) as Hb.
    { unfold b, u32_max in *. case_u32; destruct (Z.ltb_spec (a + r - 1) a),
        (Z.ltb_spec (a + r - 1 - 4294967296) a); lia. }
    destruct (free_loop_spec a b (free_fuel m) m) as (m' & -> & Hwf' & Hc);
      [done|lia|lia|unfold free_fuel; pose proof (overlapping_le_length a b m); lia|].
    exists m'. split_and!; [done|done|]. intros x. unfold in_use. rewrite Hc.
    pose proof (covered_from 0 m x Hm). intuition lia. }
  destruct (Z.eqb_spec first_id 0) as [->|Hf0].
  - destruct (Hloop 1 (range - 1)) as (m' & Hm' & Hwf' & Hin); [done || lia|lia|].
    exists m'. split_and!; [done|done|]. intros x. rewrite Hin.
    unfold in_use. split; intros [[Hc Hx0] Hn]; split_and!; try done.
    + pose proof (covered_from _ _ _ Hm Hc). lia.
    + lia.
  - destruct (Hloop first_id range) as (m' & Hm' & Hwf' & Hin); [lia|lia|].
    exists m'. by split_and!.
Qed.

(** ** Histories *)

Inductive id_op : Type :=
  | OpAllocateIDRange (range : Z)
  | OpAllocateIDAtOrAbove (desired_id : Z)
  | OpMarkAsUsed (id : Z)
  | OpFreeIDRange (first_id range : Z)
  | OpInUse (id : Z).

Inductive id_result : Type :=
  | ResultId (id : Z)
  | ResultBool (b : bool)
  | ResultVoid.

(** A call of a public method; [FreeIDRange] gets the fuel of its map. *)
Definition exec_op (op : id_op) (m : ResourceIdRangeMap) :
    outcome (option (id_result * ResourceIdRangeMap)) :=
  match op with
  | OpAllocateIDRange range =>
      r ← AllocateIDRange range m; Done (Some (ResultId r.1, r.2))
  | OpAllocateIDAtOrAbove desired_id =>
      r ← AllocateIDAtOrAbove desired_id m; Done (Some (ResultId r.1, r.2))
  | OpMarkAsUsed id =>
      r ← MarkAsUsed id m; Done (Some (ResultBool r.1, r.2))
  | OpFreeIDRange first_id range =>
      r ← FreeIDRange (free_fuel m) first_id range m;
      Done (match r with Some m => Some (ResultVoid, m) | None => None end)
  | OpInUse id =>
      b ← InUse id m; Done (Some (ResultBool b, m))
  end.

Fixpoint exec_ops (ops : list id_op) (m : ResourceIdRangeMap) :
    outcome (option (list id_result * ResourceIdRangeMap)) :=
  match ops with
  | [] => Done (Some ([], m))
  | op :: ops =>
      r ← exec_op op m;
      match r with
      | None => Done None
      | Some (result, m) =>
          rs ← exec_ops ops m;
          Done (match rs with
                | Some (results, m) => Some (result :: results, m)
                | None => None
                end)
      end
  end.

(** The arguments the callers may pass: 32-bit, ranges and ids not 0 where the
    code checks it. *)
Definition valid_op (op : id_op) : Prop :=
  match op with
  | OpAllocateIDRange range => 1 <= range <= u32_max
  | OpAllocateIDAtOrAbove desired_id => is_u32 desired_id
  | OpMarkAsUsed id => 0 < id <= u32_max
  | OpFreeIDRange first_id range => is_u32 first_id ∧ is_u32 range
  | OpInUse id => is_u32 id
  end.

(** The specification: what a call may return and do to the set of ids in use. *)
Definition spec_op (op : id_op) (used : Z → Prop) (result : id_result)
    (used' : Z → Prop) : Prop :=
  match op, result with
  | OpAllocateIDRange range, ResultId id => allocated_range range used id used'
  | OpAllocateIDAtOrAbove desired_id, ResultId id =>
      allocated_at_or_above desired_id used id used'
  | OpMarkAsUsed id, ResultBool b =>
      (b = true ↔ ¬ used id) ∧ ∀ x, used' x ↔ used x ∨ x = id
  | OpFreeIDRange first_id range, ResultVoid =>
      ∀ x, used' x ↔ used x ∧ ¬ (first_id <= x < first_id + range)
  | OpInUse id, ResultBool b => (b = true ↔ used id) ∧ ∀ x, used' x ↔ used x
  | _, _ => False
  end.

Inductive spec_ops : list id_op → (Z → Prop) → list id_result → (Z → Prop) → Prop :=
  | spec_nil used : spec_ops [] used [] used
  | spec_cons op ops used result used1 results used2 :
      spec_op op used result used1 →
      spec_ops ops used1 results used2 →
      spec_ops (op :: ops) used (result :: results) used2.

Lemma exec_op_spec op m :
  wf m → valid_op op →
  ∃ result m', exec_op op m = Done (Some (result, m')) ∧ wf m' ∧
    spec_op op (in_use m) result (in_use m').
Proof.
  intros Hwf Hop. destruct op; cbn [exec_op valid_op] in *.
  - destruct (AllocateIDRange_spec range m) as (id & m' & -> & ? & ?); [done..|].
    by exists (ResultId id), m'.
  - destruct (AllocateIDAtOrAbove_spec desired_id m) as (id & m' & -> & ? & ?); [done..|].
    by exists (ResultId id), m'.
  - destruct (MarkAsUsed_spec id m) as (b & m' & -> & ? & ?); [done..|].
    by exists (ResultBool b), m'.
  - destruct Hop. destruct (FreeIDRange_spec first_id range m) as (m' & -> & ? & ?); [done..|].
    by exists ResultVoid, m'.
  - unfold is_u32 in Hop. destruct (InUse_spec id m) as (b & -> & ?); [done|lia|].
    exists (ResultBool b), m. by split_and!.
Qed.

Lemma exec_ops_spec ops m :
  wf m → Forall valid_op ops →
  ∃ results m', exec_ops ops m = Done (Some (results, m')) ∧ wf m' ∧
    spec_ops ops (in_use m) results (in_use m').
Proof.
  revert m. induction ops as [|op ops IH]; intros m Hwf Hops.
  - exists [], m. by repeat constructor.
  - inversion Hops as [|? ? Hop Hops1]; subst.
    destruct (exec_op_spec op m Hwf Hop) as (r & m1 & Hr & Hwf1 & Hs).
    destruct (IH m1 Hwf1 Hops1) as (rs & m2 & Hrs & Hwf2 & Hss).
    exists (r :: rs), m2. cbn [exec_ops]. rewrite Hr. cbn [mbind outcome_bind].
    rewrite Hrs. split_and!; [done|done|]. by econstructor.
Qed.

Lemma init_wf : wf init_IdAllocator.
Proof. cbn. unfold u32_max. lia. Qed.

Lemma init_in_use x : ¬ in_use init_IdAllocator x.
Proof. unfold in_use. cbn. lia. Qed.

(** [C26] The allocator refines a set of ids.  Take any sequence of calls with valid
    arguments on a new allocator.  All of them return: no DCHECK fails, no iterator
    is decremented before the first entry, and the loop of [FreeIDRange] ends
    within one iteration more than there are ranges.  Their results are those the
    set specification allows, from the empty set on: an allocation takes the first
    free run of the requested length or the least free id at or above the desired
    one, returns [kInvalidResource] only when there is none, and never hands out
    an id in use; a free removes exactly the given ids; [MarkAsUsed] and [InUse]
    tell membership. *)
Theorem IdAllocator_refines_set ops :
  Forall valid_op ops →
  ∃ results m', exec_ops ops init_IdAllocator = Done (Some (results, m')) ∧ wf m' ∧
    spec_ops ops (in_use init_IdAllocator) results (in_use m').
Proof. apply exec_ops_spec, init_wf. Qed.

(** [AllocateIDRange] is first fit and complete.  On a consistent map, for
    any range from 1 to 2^32 - 1, it passes its DCHECK.  If it returns an id,
    then all the [range] ids from it on are valid and were free, exactly they are
    now in use, and no lower id starts a free run of that length.  If it returns
    [kInvalidResource], nothing changed and no run of that length is free in the
    whole id space.  The map stays consistent. *)
Theorem AllocateIDRange_first_fit range m :
  wf m → 1 <= range <= u32_max →
  ∃ id m', AllocateIDRange range m = Done (id, m') ∧ wf m' ∧
    allocated_range range (in_use m) id (in_use m').
Proof. apply AllocateIDRange_spec. Qed.

(** [AllocateIDAtOrAbove] returns the least free id at or above the desired
    one.  On a consistent map, for every 32-bit [desired_id], it passes its DCHECK
    and decrements no iterator of the first entry; the id it returns was free and
    is now the only new id in use.  When every id from [desired_id] up to 2^32 - 1
    is in use it wraps to the least free id, and [kInvalidResource] with nothing
    changed is returned only when all 2^32 - 1 ids are in use. *)
Theorem AllocateIDAtOrAbove_least desired_id m :
  wf m → is_u32 desired_id →
  ∃ id m', AllocateIDAtOrAbove desired_id m = Done (id, m') ∧ wf m' ∧
    allocated_at_or_above desired_id (in_use m) id (in_use m').
Proof. apply AllocateIDAtOrAbove_spec. Qed.

(** [FreeIDRange] frees exactly its range and ends.  On a consistent map with
    [n] ranges, for all 32-bit arguments, those that overflow included, the loop
    ends within [n + 1] iterations; afterwards the ids in use are those that were
    and are not in the range; the reserved id 0 is not affected. *)
Theorem FreeIDRange_exact first_id range m :
  wf m → is_u32 first_id → is_u32 range →
  ∃ m', FreeIDRange (S (length m)) first_id range m = Done (Some m') ∧ wf m' ∧
    ∀ x, in_use m' x ↔ in_use m x ∧ ¬ (first_id <= x < first_id + range).
Proof. apply FreeIDRange_spec. Qed.

(** ** Examples *)

Definition full_map : ResourceIdRangeMap := [(0, 5); (7, u32_max)].

Lemma IdAllocator_refines_set_witness :
  ∃ results m',
    exec_ops [OpAllocateIDRange 4; OpFreeIDRange 2 2; OpAllocateIDAtOrAbove 4294967295;
              OpAllocateIDAtOrAbove 4294967295; OpMarkAsUsed 3; OpInUse 3]
      init_IdAllocator = Done (Some (results, m')) ∧ wf m' ∧
    spec_ops [OpAllocateIDRange 4; OpFreeIDRange 2 2; OpAllocateIDAtOrAbove 4294967295;
              OpAllocateIDAtOrAbove 4294967295; OpMarkAsUsed 3; OpInUse 3]
      (in_use init_IdAllocator) results (in_use m').
Proof.
  apply IdAllocator_refines_set.
  repeat constructor; unfold is_u32, u32_max; lia.
Defined.

Example exec_ops_example :
  exec_ops [OpAllocateIDRange 4; OpFreeIDRange 2 2; OpAllocateIDAtOrAbove 4294967295;
            OpAllocateIDAtOrAbove 4294967295; OpMarkAsUsed 3; OpInUse 3]
    init_IdAllocator =
  Done (Some ([ResultId 1; ResultVoid; ResultId 4294967295; ResultId 2;
               ResultBool true; ResultBool true],
              [(0, 4); (4294967295, 4294967295)])).
Proof. vm_compute. reflexivity. Qed.

Lemma AllocateIDRange_first_fit_witness :
  ∃ id m', AllocateIDRange 2 full_map = Done (id, m') ∧ wf m' ∧
    allocated_range 2 (in_use full_map) id (in_use m').
Proof.
  apply AllocateIDRange_first_fit; [|unfold u32_max; lia].
  cbn. unfold u32_max. lia.
Defined.

Lemma AllocateIDAtOrAbove_least_witness :
  ∃ id m', AllocateIDAtOrAbove 4294967295 full_map = Done (id, m') ∧ wf m' ∧
    allocated_at_or_above 4294967295 (in_use full_map) id (in_use m').
Proof.
  apply AllocateIDAtOrAbove_least; [|unfold is_u32, u32_max; lia].
  cbn. unfold u32_max. lia.
Defined.

Lemma FreeIDRange_exact_witness :
  ∃ m', FreeIDRange 3 4 4294967295 full_map = Done (Some m') ∧ wf m' ∧
    ∀ x, in_use m' x ↔ in_use full_map x ∧ ¬ (4 <= x < 4 + 4294967295).
Proof.
  apply FreeIDRange_exact; [|unfold is_u32, u32_max; lia..].
  cbn. unfold u32_max. lia.
Defined.
