(* ===== verification/Tokens.v ===== *)
(** * Tokens: what the client allocators need from the command buffer helper

    [FencedAllocator] and [RingBuffer] free memory "pending a token" and ask their
    [CommandBufferHelper] whether the service has passed it, or wait until it has.
    [TokenHelper] is that interface, with the two facts the allocators rely on: a
    token that was waited for has passed, and a token that has passed stays so
    while others are waited for (cmd_buffer_helper.h, 108 and 115). *)

From S2P Require Import Prelude.

Class TokenHelper (H : Type) := {
  HasTokenPassed : Z → H → bool;
  WaitForToken : Z → H → H;
  last_token_read : H → Z;
  HasTokenPassed_wait token h : HasTokenPassed token (WaitForToken token h) = true;
  HasTokenPassed_mono token token' h :
    HasTokenPassed token h = true → HasTokenPassed token (WaitForToken token' h) = true
}.

(** The smallest helper: its state is the last token read, and waiting for a token
    reads up to it. *)
Definition TokenCounter : Type := Z.

#[export] Instance TokenCounter_helper : TokenHelper TokenCounter.
Proof.
  refine {| HasTokenPassed token h := token <=? h;
            WaitForToken token h := Z.max token h;
            last_token_read h := h |}.
  - intros. apply Z.leb_le. lia.
  - intros token token' h H. apply Z.leb_le in H. apply Z.leb_le. lia.
Defined.
