(* ===== verification/FencedAllocator.v ===== *)
(** * gpu/command_buffer/client/fenced_allocator.{h,cc}

    [FencedAllocator] manages a block of memory by offset.  Its [std::vector] of
    [Block]s is a list, an index into it a [nat]; an access out of range is
    [DcheckFailed].  [unsigned int] arithmetic wraps.  The helper is any
    [TokenHelper], threaded through the operations that wait. *)

From S2P Require Import Prelude Tokens.

Definition kInvalidOffset : Z := 4294967295.
Definition kAllocAlignment : Z := 16.
Definition kUnusedToken : Z := 0.

Inductive BlockState : Type :=
  | IN_USE
  | FREE
  | FREE_PENDING_TOKEN.
#[export] Instance BlockState_eq_dec : EqDecision BlockState.
Proof. solve_decision. Defined.

Record Block : Type := mkBlock {
  state : BlockState;
  offset : Z;
  size : Z;
  token : Z
}.
#[export] Instance Block_eq_dec : EqDecision Block.
Proof. solve_decision. Defined.
#[export] Instance eta_Block : Eta Block := λ b,
  mkBlock (state b) (offset b) (size b) (token b).

Record FencedAllocator : Type := mkFencedAllocator {
  blocks_ : list Block;
  bytes_in_use_ : Z
}.
#[export] Instance eta_FencedAllocator : Eta FencedAllocator := λ a,
  mkFencedAllocator (blocks_ a) (bytes_in_use_ a).

(** ** Rounding *)

Definition RoundDown (size : Z) : Z := Z.land size (Z.lnot (kAllocAlignment - 1)).

Definition RoundUp (size : Z) : Z :=
  Z.land (u32 (size + (kAllocAlignment - 1))) (Z.lnot (kAllocAlignment - 1)).

(** The constructor. *)
Definition init_FencedAllocator (size : Z) : FencedAllocator :=
  {| blocks_ := [mkBlock FREE 0 (RoundDown size) kUnusedToken]; bytes_in_use_ := 0 |}.

(** [blocks_[index]] *)
Definition block_at (index : nat) (blocks : list Block) : outcome Block :=
  match blocks !! index with Some b => Done b | None => DcheckFailed end.

Definition is_free (b : Block) : bool := bool_decide (state b = FREE).
Definition is_pending (b : Block) : bool := bool_decide (state b = FREE_PENDING_TOKEN).
Definition is_in_use (b : Block) : bool := bool_decide (state b = IN_USE).

(** [blocks_.insert(blocks_.begin() + index, block)] *)
Definition insert_at (index : nat) (b : Block) (blocks : list Block) : list Block :=
  take index blocks ++ b :: drop index blocks.

(** ** Blocks *)

Definition CollapseFreeBlock (index : nat) (blocks : list Block) :
    outcome (nat * list Block) :=
  b ← block_at index blocks;
  let blocks :=
    match blocks !! (index + 1)%nat with
    | Some next =>
        if is_free next then
          delete (index + 1)%nat (<[index := b <| size := u32 (size b + size next) |>]> blocks)
        else blocks
    | None => blocks
    end in
  b ← block_at index blocks;
  match index with
  | O => Done (index, blocks)
  | S index' =>
      prev ← block_at index' blocks;
      if is_free prev then
        Done (index', delete index
          (<[index' := prev <| size := u32 (size prev + size b) |>]> blocks))
      else Done (index, blocks)
  end.

Definition AllocInBlock (index : nat) (size' : Z) (a : FencedAllocator) :
    outcome (Z * FencedAllocator) :=
  block ← block_at index (blocks_ a);
  DCHECK (size' <=? size block) ;;
  DCHECK (is_free block) ;;
  let offset' := offset block in
  let a := a <| bytes_in_use_ := bytes_in_use_ a + size' |> in
  if size block =? size' then
    Done (offset', a <| blocks_ := <[index := block <| state := IN_USE |>]> (blocks_ a) |>)
  else
    let newblock := mkBlock FREE (u32 (offset' + size')) (u32 (size block - size'))
                      kUnusedToken in
    Done (offset', a <| blocks_ := insert_at (index + 1) newblock
      (<[index := block <| state := IN_USE |> <| size := size' |>]> (blocks_ a)) |>).

(** [std::lower_bound] on the offsets, then the [DCHECK]. *)
Fixpoint lower_bound_offset (offset' : Z) (blocks : list Block) : nat :=
  match blocks with
  | [] => 0
  | b :: blocks => if offset b <? offset' then S (lower_bound_offset offset' blocks) else 0
  end.

Definition GetBlockByOffset (offset' : Z) (blocks : list Block) : outcome nat :=
  let it := lower_bound_offset offset' blocks in
  DCHECK (match blocks !! it with Some b => offset b =? offset' | None => false end) ;;
  Done it.

(** ** Operations *)

Section Operations.
Context {H : Type} {helper : TokenHelper H}.

Definition WaitForTokenAndFreeBlock (index : nat) (a : FencedAllocator) (helper_ : H) :
    outcome (nat * FencedAllocator * H) :=
  block ← block_at index (blocks_ a);
  DCHECK (is_pending block) ;;
  let helper_ := WaitForToken (token block) helper_ in
  r ← CollapseFreeBlock index (<[index := block <| state := FREE |>]> (blocks_ a));
  Done (r.1, a <| blocks_ := r.2 |>, helper_).

(** The loop over the [FREE] blocks: the index of the first that is big enough. *)
Fixpoint find_free (size' : Z) (i : nat) (blocks : list Block) : option nat :=
  match blocks with
  | [] => None
  | block :: blocks =>
      if is_free block && (size' <=? size block) then Some i
      else find_free size' (S i) blocks
  end.

(** The loop over the blocks pending a token.  [None]: [fuel] iterations were not
    enough. *)
Fixpoint wait_loop (fuel : nat) (i : nat) (size' : Z) (a : FencedAllocator)
    (helper_ : H) : outcome (option (Z * FencedAllocator * H)) :=
  match fuel with
  | O => Done None
  | S fuel =>
      match blocks_ a !! i with
      | None => Done (Some (kInvalidOffset, a, helper_))
      | Some b =>
          if negb (is_pending b) then wait_loop fuel (S i) size' a helper_
          else
            r ← WaitForTokenAndFreeBlock i a helper_;
            let '(i, a, helper_) := r in
            b ← block_at i (blocks_ a);
            if size' <=? size b then
              r ← AllocInBlock i size' a;
              Done (Some (r.1, r.2, helper_))
            else wait_loop fuel (S i) size' a helper_
      end
  end.

(** One iteration per block and one to leave the loop. *)
Definition Alloc (size' : Z) (a : FencedAllocator) (helper_ : H) :
    outcome (option (Z * FencedAllocator * H)) :=
  if size' =? 0 then Done (Some (kInvalidOffset, a, helper_))
  else
    let size' := RoundUp size' in
    match find_free size' 0 (blocks_ a) with
    | Some i => r ← AllocInBlock i size' a; Done (Some (r.1, r.2, helper_))
    | None => wait_loop (S (length (blocks_ a))) 0 size' a helper_
    end.

Definition Free (offset' : Z) (a : FencedAllocator) : outcome FencedAllocator :=
  index ← GetBlockByOffset offset' (blocks_ a);
  block ← block_at index (blocks_ a);
  DCHECK (negb (is_free block)) ;;
  let a := if is_in_use block
           then a <| bytes_in_use_ := bytes_in_use_ a - size block |> else a in
  r ← CollapseFreeBlock index (<[index := block <| state := FREE |>]> (blocks_ a));
  Done (a <| blocks_ := r.2 |>).

Definition FreePendingToken (offset' token' : Z) (a : FencedAllocator) :
    outcome FencedAllocator :=
  index ← GetBlockByOffset offset' (blocks_ a);
  block ← block_at index (blocks_ a);
  let a := if is_in_use block
           then a <| bytes_in_use_ := bytes_in_use_ a - size block |> else a in
  Done (a <| blocks_ := <[index := block <| state := FREE_PENDING_TOKEN |>
                                         <| token := token' |>]> (blocks_ a) |>).

Fixpoint free_unused_loop (fuel : nat) (i : nat) (a : FencedAllocator) (helper_ : H) :
    outcome (option FencedAllocator) :=
  match fuel with
  | O => Done None
  | S fuel =>
      match blocks_ a !! i with
      | None => Done (Some a)
      | Some block =>
          if is_pending block && HasTokenPassed (token block) helper_ then
            r ← CollapseFreeBlock i (<[i := block <| state := FREE |>]> (blocks_ a));
            free_unused_loop fuel r.1 (a <| blocks_ := r.2 |>) helper_
          else free_unused_loop fuel (S i) a helper_
      end
  end.

(** An iteration frees a block or steps over one. *)
Definition FreeUnused (a : FencedAllocator) (helper_ : H) : outcome (option FencedAllocator) :=
  free_unused_loop (S (2 * length (blocks_ a))) 0 a helper_.

Definition max_free_size (blocks : list Block) : Z :=
  foldl (λ max_size block, if is_free block then Z.max max_size (size block) else max_size)
    0 blocks.

Definition GetLargestFreeSize (a : FencedAllocator) (helper_ : H) :
    outcome (option (Z * FencedAllocator)) :=
  a ← FreeUnused a helper_;
  Done (match a with Some a => Some (max_free_size (blocks_ a), a) | None => None end).

(** The loop of [GetLargestFreeOrPendingSize]: [max_size] and [current_size]. *)
Definition free_or_pending_step (acc : Z * Z) (block : Block) : Z * Z :=
  if is_in_use block then (Z.max acc.1 acc.2, 0) else (acc.1, u32 (acc.2 + size block)).

Definition GetLargestFreeOrPendingSize (a : FencedAllocator) : Z :=
  let '(max_size, current_size) := foldl free_or_pending_step (0, 0) (blocks_ a) in
  Z.max max_size current_size.

Definition GetFreeSize (a : FencedAllocator) (helper_ : H) :
    outcome (option (Z * FencedAllocator)) :=
  a ← FreeUnused a helper_;
  Done (match a with
        | Some a =>
            Some (foldl (λ size' block, if is_free block then u32 (size' + size block)
                                        else size') 0 (blocks_ a), a)
        | None => None
        end).

Fixpoint CheckConsistency_loop (current : Block) (rest : list Block) : bool :=
  match rest with
  | [] => true
  | next :: rest =>
      if offset next <=? offset current then false
      else if negb (offset next =? u32 (offset current + size current)) then false
      else if is_free current && is_free next then false
      else CheckConsistency_loop next rest
  end.

Definition CheckConsistency (a : FencedAllocator) : bool :=
  match blocks_ a with [] => false | b :: rest => CheckConsistency_loop b rest end.

Definition InUse (a : FencedAllocator) : bool :=
  negb (bool_decide (length (blocks_ a) = 1%nat)) ||
  match blocks_ a with b :: _ => negb (is_free b) | [] => true end.

(** The destructor. *)
Fixpoint destroy_loop (fuel : nat) (i : nat) (a : FencedAllocator) (helper_ : H) :
    outcome (option (FencedAllocator * H)) :=
  match fuel with
  | O => Done None
  | S fuel =>
      match blocks_ a !! i with
      | None => Done (Some (a, helper_))
      | Some block =>
          if is_pending block then
            r ← WaitForTokenAndFreeBlock i a helper_;
            let '(i, a, helper_) := r in
            destroy_loop fuel (S i) a helper_
          else destroy_loop fuel (S i) a helper_
      end
  end.

Definition destroy_FencedAllocator (a : FencedAllocator) (helper_ : H) :
    outcome (option H) :=
  r ← destroy_loop (S (length (blocks_ a))) 0 a helper_;
  match r with
  | None => Done None
  | Some (a, helper_) =>
      DCHECK (bool_decide (length (blocks_ a) = 1%nat)) ;;
      b ← block_at 0 (blocks_ a);
      DCHECK (is_free b) ;;
      Done (Some helper_)
  end.

End Operations.

(** ** The invariant *)

(** The blocks follow each other from [off] on; none is empty, all are aligned. *)
Fixpoint tiled (off : Z) (bs : list Block) : Prop :=
  match bs with
  | [] => True
  | b :: bs =>
      offset b = off ∧ 0 < size b ∧ (kAllocAlignment | size b) ∧ tiled (off + size b) bs
  end.

Fixpoint total (bs : list Block) : Z :=
  match bs with [] => 0 | b :: bs => size b + total bs end.

(** No two [FREE] blocks are adjacent; [f]: the block before is [FREE]. *)
Fixpoint separated (f : bool) (bs : list Block) : Prop :=
  match bs with
  | [] => True
  | b :: bs => (f = true → is_free b = false) ∧ separated (is_free b) bs
  end.

Fixpoint last_free (f : bool) (bs : list Block) : bool :=
  match bs with [] => f | b :: bs => last_free (is_free b) bs end.

Definition in_use_bytes (bs : list Block) : Z :=
  foldr (λ b n, (if is_in_use b then size b else 0) + n) 0 bs.

(** The blocks that hold memory of the client, or that the service may still use. *)
Definition live (bs : list Block) : list Block :=
  filter (λ b, is_free b = false) bs.

Definition consistent (n : Z) (a : FencedAllocator) : Prop :=
  tiled 0 (blocks_ a) ∧ total (blocks_ a) = n ∧ separated false (blocks_ a) ∧
  bytes_in_use_ a = in_use_bytes (blocks_ a).

(** The sizes an allocator may have: at least one aligned unit. *)
Definition valid_total (n : Z) : Prop := 0 < n <= u32_max - 15 ∧ (kAllocAlignment | n).

Lemma tiled_app off l1 l2 : tiled off (l1 ++ l2) ↔ tiled off l1 ∧ tiled (off + total l1) l2.
Proof.
  revert off. induction l1 as [|b l1 IH]; intros off; cbn.
  - rewrite Z.add_0_r. tauto.
  - rewrite IH, Z.add_assoc. tauto.
Qed.

Lemma total_app l1 l2 : total (l1 ++ l2) = total l1 + total l2.
Proof. induction l1; cbn; lia. Qed.

Lemma total_nonneg off bs : tiled off bs → 0 <= total bs.
Proof.
  revert off. induction bs as [|b bs IH]; intros off; cbn; [lia|].
  intros (_ & ? & _ & H). apply IH in H. lia.
Qed.

Lemma separated_app f l1 l2 :
  separated f (l1 ++ l2) ↔ separated f l1 ∧ separated (last_free f l1) l2.
Proof. revert f. induction l1 as [|b l1 IH]; intros f; cbn; [tauto|]. rewrite IH. tauto. Qed.

Lemma separated_weaken f bs : separated f bs → separated false bs.
Proof. destruct bs; cbn; naive_solver. Qed.

Lemma last_free_app f l1 l2 : last_free f (l1 ++ l2) = last_free (last_free f l1) l2.
Proof. revert f. induction l1; intros; cbn; auto. Qed.

Lemma in_use_bytes_app l1 l2 :
  in_use_bytes (l1 ++ l2) = in_use_bytes l1 + in_use_bytes l2.
Proof. unfold in_use_bytes. induction l1; cbn; lia. Qed.

Lemma in_use_bytes_cons b bs :
  in_use_bytes (b :: bs) = (if is_in_use b then size b else 0) + in_use_bytes bs.
Proof. reflexivity. Qed.

Lemma live_app l1 l2 : live (l1 ++ l2) = live l1 ++ live l2.
Proof. apply list.filter_app. Qed.

Lemma live_cons b bs : live (b :: bs) = if is_free b then live bs else b :: live bs.
Proof. unfold live. rewrite list.filter_cons. by destruct (is_free b). Qed.

Lemma elem_of_live b bs : b ∈ live bs ↔ b ∈ bs ∧ is_free b = false.
Proof. unfold live. rewrite list_elem_of_filter. tauto. Qed.

Lemma live_elem b bs : b ∈ live bs → b ∈ bs.
Proof. rewrite elem_of_live. tauto. Qed.

Lemma free_not_in_use b : is_free b = true → is_in_use b = false ∧ is_pending b = false.
Proof. unfold is_free, is_in_use, is_pending. by destruct (state b). Qed.

Lemma state_cases b :
  (is_free b = true ∧ is_in_use b = false ∧ is_pending b = false) ∨
  (is_free b = false ∧ is_in_use b = true ∧ is_pending b = false) ∨
  (is_free b = false ∧ is_in_use b = false ∧ is_pending b = true).
Proof. unfold is_free, is_in_use, is_pending. destruct (state b); naive_solver. Qed.

Lemma tiled_bounds off bs b :
  tiled off bs → b ∈ bs → off <= offset b ∧ offset b + size b <= off + total bs ∧ 0 < size b.
Proof.
  revert off. induction bs as [|b' bs IH]; intros off H Hb; [set_solver|].
  cbn in H. destruct H as (Ho & Hs & _ & H).
  pose proof (total_nonneg _ _ H). cbn.
  apply elem_of_cons in Hb as [->|Hb]; [lia|].
  destruct (IH _ H Hb). lia.
Qed.

(** Different blocks do not overlap. *)
Definition disjoint_blocks (b1 b2 : Block) : Prop :=
  offset b1 + size b1 <= offset b2 ∨ offset b2 + size b2 <= offset b1.

Lemma tiled_disjoint off bs b1 b2 :
  tiled off bs → b1 ∈ bs → b2 ∈ bs → b1 = b2 ∨ disjoint_blocks b1 b2.
Proof.
  revert off. induction bs as [|b bs IH]; intros off H H1 H2; [set_solver|].
  cbn in H. destruct H as (Ho & Hs & _ & H). unfold disjoint_blocks in *.
  apply elem_of_cons in H1 as [->|H1], H2 as [->|H2]; [by left| | |by eapply IH].
  - pose proof (tiled_bounds _ _ _ H H2). lia.
  - pose proof (tiled_bounds _ _ _ H H1). lia.
Qed.

Lemma tiled_mid off pre b post :
  tiled off (pre ++ b :: post) →
  (∀ b', b' ∈ pre → offset b' + size b' <= offset b) ∧
  (∀ b', b' ∈ post → offset b + size b <= offset b').
Proof.
  intros Ht. apply tiled_app in Ht as [H1 (Ho & Hs & _ & H2)]. split; intros b' Hb'.
  - destruct (tiled_bounds _ _ _ H1 Hb'). lia.
  - destruct (tiled_bounds _ _ _ H2 Hb'). lia.
Qed.

(** ** Lists split at an index *)

Lemma block_at_mid pre b post : block_at (length pre) (pre ++ b :: post) = Done b.
Proof. unfold block_at. by rewrite list_lookup_middle. Qed.

Lemma insert_mid pre (b b' : Block) post :
  <[length pre := b']> (pre ++ b :: post) = pre ++ b' :: post.
Proof. induction pre; cbn; [done|]. by f_equal. Qed.

Lemma delete_mid pre (b : Block) post : delete (length pre) (pre ++ b :: post) = pre ++ post.
Proof. apply delete_middle. Qed.

Lemma lookup_after pre (b : Block) post :
  (pre ++ b :: post) !! (length pre + 1)%nat = head post.
Proof.
  rewrite Nat.add_comm, lookup_app_r by lia.
  replace (1 + length pre - length pre)%nat with 1%nat by lia. by destruct post.
Qed.

Lemma delete_after pre (b b' : Block) post :
  delete (length pre + 1)%nat (pre ++ b :: b' :: post) = pre ++ b :: post.
Proof.
  replace (length pre + 1)%nat with (length (pre ++ [b])) by (rewrite length_app; cbn; lia).
  change (b :: b' :: post) with ([b] ++ b' :: post).
  rewrite app_assoc, delete_mid, <- app_assoc. done.
Qed.

Lemma insert_at_after pre (b b' : Block) post :
  insert_at (length pre + 1) b' (pre ++ b :: post) = pre ++ b :: b' :: post.
Proof.
  unfold insert_at.
  replace (length pre + 1)%nat with (length (pre ++ [b])) by (rewrite length_app; cbn; lia).
  change (b :: post) with ([b] ++ post).
  rewrite app_assoc, take_app_length, drop_app_length, <- app_assoc. done.
Qed.

(** ** Collapsing *)

(** [CollapseFreeBlock] on a free block merges it with free neighbours. *)
Record merged (l : list Block) (b : Block) (r pre' : list Block) (b' : Block)
    (post' : list Block) : Prop := {
  merged_l_free : Forall (λ b, is_free b = true) l;
  merged_r_free : Forall (λ b, is_free b = true) r;
  merged_free : is_free b' = true;
  merged_offset : offset b' = offset b - total l;
  merged_size : size b' = total l + size b + total r;
  merged_before : last_free false pre' = false;
  merged_after : match post' with n :: _ => is_free n = false | [] => True end
}.

(** The block [b] among others, free ones separated except around it. *)
Definition collapsible (n : Z) (pre : list Block) (b : Block) (post : list Block) : Prop :=
  tiled 0 (pre ++ b :: post) ∧ total (pre ++ b :: post) = n ∧
  separated false pre ∧ separated false post ∧ is_free b = true.

Lemma set_size_free b z : is_free (b <| size := z |>) = is_free b.
Proof. reflexivity. Qed.

Lemma last_free_snoc f l b : last_free f (l ++ [b]) = is_free b.
Proof. by rewrite last_free_app. Qed.

(** The next block is merged into the block if it is free. *)
Lemma merge_next n pre b post :
  valid_total n → is_free b = true → 0 < size b → size b + total post <= n →
  tiled (offset b + size b) post → separated false post →
  ∃ b1 r post',
    match head post with
    | Some next => if is_free next
        then delete (length pre + 1)%nat
          (<[length pre := b <| size := u32 (size b + size next) |>]> (pre ++ b :: post))
        else pre ++ b :: post
    | None => pre ++ b :: post
    end = pre ++ b1 :: post' ∧
    post = r ++ post' ∧ Forall (λ b, is_free b = true) r ∧ is_free b1 = true ∧
    offset b1 = offset b ∧ size b1 = size b + total r ∧
    match post' with n :: _ => is_free n = false | [] => True end.
Proof.
  intros [Hn _] Hb Hsz Htot Ht Hs. destruct post as [|next post]; cbn [head].
  { exists b, [], []. cbn. split_and!; try done; lia. }
  destruct (is_free next) eqn:Hf.
  - exists (b <| size := u32 (size b + size next) |>), [next], post.
    rewrite insert_mid, delete_after. cbn in Hs, Htot, Ht.
    destruct Ht as (_ & ? & _ & Htp'). pose proof (total_nonneg _ _ Htp').
    split_and!; try done; [by constructor| |].
    + cbn. rewrite u32_small; [lia|]. unfold is_u32, u32_max in *. lia.
    + destruct Hs as [_ Hs]. destruct post; [done|]. cbn in Hs. rewrite Hf in Hs. by apply Hs.
  - exists b, [], (next :: post). cbn. split_and!; try done; lia.
Qed.

Lemma CollapseFreeBlock_merged n pre b post :
  valid_total n → collapsible n pre b post →
  ∃ l r pre' b' post', CollapseFreeBlock (length pre) (pre ++ b :: post) =
                       Done (length pre', pre' ++ b' :: post') ∧
    pre = pre' ++ l ∧ post = r ++ post' ∧ merged l b r pre' b' post'.
Proof.
  intros Hv (Ht & Htot & Hs1 & Hs2 & Hb). unfold CollapseFreeBlock. pose proof Hv as [Hn _].
  rewrite block_at_mid. cbn [mbind outcome_bind]. rewrite lookup_after.
  pose proof (proj1 (tiled_app _ _ _) Ht) as [Htp Htb]. cbn in Htb.
  destruct Htb as (Hoff & Hsz & _ & Htpost).
  pose proof (total_nonneg _ _ Htp). rewrite total_app in Htot. cbn in Htot.
  destruct (merge_next n pre b post)
    as (b1 & r & post' & Hnext & Hpost & Hr & Hb1 & Hob1 & Hsb1 & Hpost');
    [done|done|lia|lia|by rewrite Hoff|done|].
  match goal with |- context [block_at (length pre) ?bs] =>
    replace bs with (pre ++ b1 :: post') by (symmetry; exact Hnext) end.
  rewrite block_at_mid. cbn [mbind outcome_bind].
  pose proof (total_nonneg _ _ Htpost) as Hpost0. rewrite Hpost, total_app in Htot, Hpost0.
  rewrite Hpost in Htpost. apply tiled_app in Htpost as [Htr Htpost'].
  pose proof (total_nonneg _ _ Htr). pose proof (total_nonneg _ _ Htpost').
  destruct pre as [|prev pre _] using rev_ind.
  - exists [], r, [], b1, post'. split_and!; try done. split; try done; cbn; lia.
  - rewrite length_app. cbn [length]. rewrite Nat.add_comm. cbn [Nat.add].
    rewrite <- app_assoc. cbn [app]. rewrite block_at_mid. cbn [mbind outcome_bind].
    apply separated_app in Hs1 as [Hs1 Hprev]. cbn in Hprev.
    rewrite total_app in Htot. cbn in Htot.
    apply tiled_app in Htp as [Htp (Hop & Hsp & _)].
    pose proof (total_nonneg _ _ Htp).
    destruct (is_free prev) eqn:Hf.
    + eexists [prev], r, pre, _, post'. split_and!; [|done|done|].
      { rewrite insert_mid. rewrite <- (Nat.add_1_r (length pre)), delete_after. reflexivity. }
      split; try done; cbn; [by constructor|rewrite total_app in Hoff; cbn in Hoff; lia| |].
      * rewrite u32_small; [lia|]. unfold is_u32, u32_max in *. lia.
      * destruct (last_free false pre); [|done]. by apply Hprev.
    + exists [], r, (pre ++ [prev]), b1, post'. split_and!; [|by rewrite app_nil_r|done|].
      { by rewrite length_app, Nat.add_comm, <- app_assoc. }
      split; try done; cbn; try lia. by rewrite last_free_snoc.
Qed.

Lemma live_free l : Forall (λ b, is_free b = true) l → live l = [].
Proof. induction 1 as [|b l Hb _ IH]; [done|]. by rewrite live_cons, Hb. Qed.

Lemma in_use_bytes_free l : Forall (λ b, is_free b = true) l → in_use_bytes l = 0.
Proof.
  induction 1 as [|b l Hb _ IH]; [done|]. cbn.
  destruct (free_not_in_use b Hb) as [-> _]. unfold in_use_bytes in IH. lia.
Qed.

Lemma aligned_total off l : tiled off l → (kAllocAlignment | total l).
Proof.
  revert off. induction l as [|b l IH]; intros off; cbn.
  - intros _. apply Z.divide_0_r.
  - intros (_ & _ & ? & H). apply Z.divide_add_r; [done|by eapply IH].
Qed.

Lemma merged_consistent n l b r pre' b' post' :
  collapsible n (pre' ++ l) b (r ++ post') → merged l b r pre' b' post' →
  tiled 0 (pre' ++ b' :: post') ∧ total (pre' ++ b' :: post') = n ∧
  separated false (pre' ++ b' :: post').
Proof.
  intros (Ht & Htot & Hs1 & Hs2 & Hb) [_ _ Hf Ho Hs Hbef Haft].
  rewrite <- app_assoc in Ht, Htot. apply tiled_app in Ht as [Ht1 Ht].
  apply tiled_app in Ht as [Htl (Hob & Hsb & Hab & Ht)].
  apply tiled_app in Ht as [Htr Htp].
  rewrite total_app in Htot. rewrite total_app in Htot. cbn in Htot.
  rewrite total_app in Htot.
  pose proof (total_nonneg _ _ Htl). pose proof (total_nonneg _ _ Htr).
  split_and!.
  - apply tiled_app. split; [done|]. cbn. split_and!; [lia|lia| |].
    + rewrite Hs. repeat apply Z.divide_add_r; eauto using aligned_total.
    + rewrite Hs. replace (0 + total pre' + (total l + size b + total r))
        with (0 + total pre' + total l + size b + total r) by lia. done.
  - rewrite total_app. cbn. lia.
  - apply separated_app in Hs1 as [Hs1 _]. apply separated_app. split; [done|].
    rewrite Hbef. cbn. rewrite Hf. split; [done|].
    apply separated_app in Hs2 as [_ Hs2]. destruct post' as [|n' post']; [done|].
    cbn in *. split; [by intros _|apply Hs2].
Qed.

Lemma merged_live l b r pre' b' post' :
  merged l b r pre' b' post' →
  live (pre' ++ b' :: post') = live (pre' ++ l) ++ live (r ++ post') ∧
  in_use_bytes (pre' ++ b' :: post') = in_use_bytes (pre' ++ l) + in_use_bytes (r ++ post').
Proof.
  intros [Hl Hr Hf _ _ _ _].
  rewrite !live_app, live_cons, Hf, (live_free l), (live_free r), app_nil_r by done.
  split; [done|]. rewrite !in_use_bytes_app, (in_use_bytes_free l), (in_use_bytes_free r)
    by done. cbn. destruct (free_not_in_use b' Hf) as [-> _]. unfold in_use_bytes. lia.
Qed.

(** Freeing the block [b] of a consistent list: what [Free], [FreeUnused] and the
    waiting operations share. *)
Lemma free_and_collapse n pre b post :
  valid_total n →
  tiled 0 (pre ++ b :: post) → total (pre ++ b :: post) = n →
  separated false (pre ++ b :: post) → is_free b = false →
  ∃ l r pre' b' post',
    CollapseFreeBlock (length pre)
      (<[length pre := b <| state := FREE |>]> (pre ++ b :: post)) =
      Done (length pre', pre' ++ b' :: post') ∧
    pre = pre' ++ l ∧ post = r ++ post' ∧
    merged l (b <| state := FREE |>) r pre' b' post' ∧
    tiled 0 (pre' ++ b' :: post') ∧ total (pre' ++ b' :: post') = n ∧
    separated false (pre' ++ b' :: post') ∧
    live (pre' ++ b' :: post') = live pre ++ live post ∧
    in_use_bytes (pre' ++ b' :: post') = in_use_bytes pre + in_use_bytes post.
Proof.
  intros Hn Ht Htot Hs Hb. rewrite insert_mid.
  assert (collapsible n pre (b <| state := FREE |>) post) as Hc.
  { apply separated_app in Hs as [Hs1 [_ Hs2]].
    split_and!; [| |done|by eapply separated_weaken|done].
    - apply tiled_app in Ht as [Ht1 Ht2]. apply tiled_app. split; [done|exact Ht2].
    - rewrite total_app in Htot |- *. exact Htot. }
  destruct (CollapseFreeBlock_merged n pre _ post Hn Hc)
    as (l & r & pre' & b' & post' & -> & -> & -> & Hm).
  exists l, r, pre', b', post'.
  destruct (merged_consistent _ _ _ _ _ _ _ Hc Hm) as (? & ? & ?).
  destruct (merged_live _ _ _ _ _ _ Hm) as [? ?]. by split_and!.
Qed.

(** ** Allocating in a free block *)

Lemma AllocInBlock_spec n pre b post a size' :
  valid_total n → consistent n a → blocks_ a = pre ++ b :: post →
  is_free b = true → 0 < size' <= size b → (kAllocAlignment | size') →
  ∃ a', AllocInBlock (length pre) size' a = Done (offset b, a') ∧ consistent n a' ∧
    live (blocks_ a') = live pre ++ [mkBlock IN_USE (offset b) size' (token b)] ++ live post.
Proof.
  intros [Hn Hna] (Ht & Htot & Hsep & Hbytes) Hbs Hb Hs Ha. unfold AllocInBlock.
  destruct a as [bs bytes]. cbn [blocks_ bytes_in_use_] in *. subst bs.
  rewrite block_at_mid. cbn [mbind outcome_bind].
  pass_DCHECK ltac:(apply Z.leb_le; lia). pass_DCHECK ltac:(exact Hb).
  apply tiled_app in Ht as [Ht1 (Ho & Hsb & Hab & Ht2)].
  rewrite total_app in Htot. cbn in Htot.
  pose proof (total_nonneg _ _ Ht1). pose proof (total_nonneg _ _ Ht2).
  apply separated_app in Hsep as [Hs1 [Hbef Hs2]]. rewrite Hb in Hs2.
  rewrite in_use_bytes_app, in_use_bytes_cons in Hbytes.
  destruct (free_not_in_use b Hb) as [Hbu _]. rewrite Hbu in Hbytes.
  destruct (Z.eqb_spec (size b) size') as [Heq|Hne].
  - exists (mkFencedAllocator (pre ++ (b <| state := IN_USE |>) :: post) (bytes + size')).
    split; [cbn; by rewrite insert_mid|]. split; [split_and!|];
      cbn [blocks_ bytes_in_use_].
    + apply tiled_app. by split.
    + rewrite total_app. cbn. lia.
    + apply separated_app. split; [done|]. split; [done|]. by eapply separated_weaken.
    + rewrite in_use_bytes_app, in_use_bytes_cons.
      change (is_in_use (b <| state := IN_USE |>)) with true. cbn. lia.
    + rewrite live_app, live_cons. subst size'. reflexivity.
  - exists (mkFencedAllocator
      (pre ++ (b <| state := IN_USE |> <| size := size' |>) ::
       mkBlock FREE (offset b + size') (size b - size') kUnusedToken :: post)
      (bytes + size')).
    split.
    { rewrite (u32_small (offset b + size')), (u32_small (size b - size'))
        by auto with machine.
      cbn. by rewrite insert_mid, insert_at_after. }
    split; [split_and!|]; cbn [blocks_ bytes_in_use_].
    + apply tiled_app. split; [done|]. cbn. split_and!; try lia; try done.
      * by apply Z.divide_sub_r.
      * by replace (0 + total pre + size' + (size b - size')) with (0 + total pre + size b) by lia.
    + rewrite total_app. cbn. lia.
    + apply separated_app. split; [done|]. by split_and!.
    + rewrite in_use_bytes_app, !in_use_bytes_cons.
      change (is_in_use (b <| state := IN_USE |> <| size := size' |>)) with true.
      change (is_in_use (mkBlock FREE _ _ _)) with false. cbn. lia.
    + by rewrite live_app, !live_cons.
Qed.

(** ** The largest run of blocks that are free or pending *)

Lemma u32_add_l x y : u32 (u32 x + y) = u32 (x + y).
Proof. unfold u32. apply Zplus_mod_idemp_l. Qed.

Lemma free_or_pending_run bs acc :
  Forall (λ b, is_in_use b = false) bs → bs ≠ [] →
  foldl free_or_pending_step acc bs = (acc.1, u32 (acc.2 + total bs)).
Proof.
  revert acc. induction bs as [|b bs IH]; intros acc Hbs Hne; [done|].
  apply list.Forall_cons in Hbs as [Hb Hbs]. cbn [foldl].
  unfold free_or_pending_step at 2. rewrite Hb.
  destruct bs as [|b2 bs]; [cbn; by rewrite Z.add_0_r|].
  rewrite IH by done. cbn [fst snd total]. rewrite u32_add_l. do 2 f_equal. lia.
Qed.

Lemma merged_largest l b r pre' b' post' a a' :
  merged l (b <| state := FREE |>) r pre' b' post' → is_in_use b = false →
  blocks_ a = (pre' ++ l) ++ b :: r ++ post' → blocks_ a' = pre' ++ b' :: post' →
  GetLargestFreeOrPendingSize a' = GetLargestFreeOrPendingSize a.
Proof.
  intros [Hl Hr Hf _ Hs _ _] Hb Ha Ha'. unfold GetLargestFreeOrPendingSize.
  rewrite Ha, Ha'. rewrite <- app_assoc.
  replace (l ++ b :: r ++ post') with ((l ++ b :: r) ++ post') by by rewrite <- app_assoc.
  change (b' :: post') with ([b'] ++ post'). rewrite !foldl_app.
  assert (∀ acc, foldl free_or_pending_step acc [b'] =
                 foldl free_or_pending_step acc (l ++ b :: r)) as Heq.
  { intros acc. rewrite (free_or_pending_run (l ++ b :: r)).
    - rewrite free_or_pending_run; [|by repeat constructor; apply free_not_in_use|done].
      cbn [total]. rewrite total_app. cbn [total]. do 2 f_equal.
      change (size (b <| state := FREE |>)) with (size b) in Hs. lia.
    - assert (∀ xs, Forall (λ b, is_free b = true) xs →
                    Forall (λ b, is_in_use b = false) xs) as Hn.
      { intros xs. apply Forall_impl. intros x Hx. by apply free_not_in_use. }
      apply list.Forall_app. split; [by apply Hn|]. constructor; [done|by apply Hn].
    - by destruct l. }
  by rewrite Heq, foldl_app.
Qed.

(** When every block is in use or free and smaller than [s], so is every run. *)
Lemma largest_small s bs : ∀ f acc,
  separated f bs → (f = false → acc.2 = 0) → acc.1 < s → acc.2 < s →
  (∀ b, b ∈ bs → is_pending b = false ∧ (is_free b = true → 0 <= size b < s)) →
  0 < s <= u32_max →
  let r := foldl free_or_pending_step acc bs in Z.max r.1 r.2 < s.
Proof.
  induction bs as [|b bs IH]; intros f acc Hsep Hf H1 H2 Hb Hs; cbn [foldl]; [cbn; lia|].
  destruct Hsep as [Hbf Hsep].
  destruct (Hb b) as [Hp Hsz]; [set_solver|].
  apply (IH (is_free b)); [done| | | |set_solver|done];
    unfold free_or_pending_step;
    destruct (state_cases b) as [(E1 & E2 & _)|[(E1 & E2 & _)|(_ & _ & E3)]];
    try congruence; rewrite E1, E2 in *; cbn; try done; try lia.
  destruct f; [by specialize (Hbf eq_refl)|]. rewrite Hf by done.
  rewrite u32_small; [apply Hsz; done|]. specialize (Hsz eq_refl). unfold is_u32. lia.
Qed.

(** ** Waiting *)

Section Waiting.
Context {H : Type} {helper : TokenHelper H}.

Lemma pending_not_free b : is_pending b = true → is_free b = false ∧ is_in_use b = false.
Proof. unfold is_free, is_in_use, is_pending. by destruct (state b). Qed.

Lemma WaitForTokenAndFreeBlock_spec n pre b post a (h : H) :
  valid_total n → consistent n a → blocks_ a = pre ++ b :: post → is_pending b = true →
  ∃ l r pre' b' post' a',
    WaitForTokenAndFreeBlock (length pre) a h =
      Done (length pre', a', WaitForToken (token b) h) ∧
    blocks_ a' = pre' ++ b' :: post' ∧ pre = pre' ++ l ∧ post = r ++ post' ∧
    consistent n a' ∧ is_free b' = true ∧
    live (blocks_ a') = live pre ++ live post ∧
    GetLargestFreeOrPendingSize a' = GetLargestFreeOrPendingSize a.
Proof.
  intros Hn (Ht & Htot & Hsep & Hbytes) Hbs Hp. unfold WaitForTokenAndFreeBlock.
  destruct (pending_not_free b Hp) as [Hbf Hbu].
  rewrite Hbs, block_at_mid in *. cbn [mbind outcome_bind]. pass_DCHECK ltac:(exact Hp).
  destruct (free_and_collapse n pre b post Hn Ht Htot Hsep Hbf)
    as (l & r & pre' & b' & post' & -> & Hpre & Hpost & Hm & H1 & H2 & H3 & H4 & H5).
  exists l, r, pre', b', post', (mkFencedAllocator (pre' ++ b' :: post') (bytes_in_use_ a)).
  split; [reflexivity|]. split_and!; try done.
  - split_and!; try done. cbn [bytes_in_use_ blocks_].
    by rewrite H5, Hbytes, in_use_bytes_app, in_use_bytes_cons, Hbu.
  - apply Hm.
  - eapply (merged_largest l b r pre' b' post'); [done|done| |done].
    by rewrite Hbs, Hpre, Hpost.
Qed.

(** Memory leaves the live blocks only if it was pending a token that has passed. *)
Definition released (h' : H) (bs bs' : list Block) : Prop :=
  ∀ b, b ∈ live bs →
    b ∈ live bs' ∨ (is_pending b = true ∧ HasTokenPassed (token b) h' = true).

(** [bs'] is [bs] with a new block in use at [off], and pending blocks released. *)
Definition allocated (h' : H) (bs : list Block) (off sz : Z) (bs' : list Block) : Prop :=
  ∃ b, state b = IN_USE ∧ offset b = off ∧ size b = sz ∧ b ∈ bs' ∧
    (∀ b', b' ∈ live bs' → b' = b ∨ b' ∈ live bs) ∧
    (∀ b', b' ∈ live bs → (b' ∈ live bs' ∧ disjoint_blocks b b') ∨
       (is_pending b' = true ∧ HasTokenPassed (token b') h' = true)).

Lemma AllocInBlock_allocated n pre b post a size' (h : H) :
  valid_total n → consistent n a → blocks_ a = pre ++ b :: post →
  is_free b = true → 0 < size' <= size b → (kAllocAlignment | size') →
  ∃ a', AllocInBlock (length pre) size' a = Done (offset b, a') ∧ consistent n a' ∧
    allocated h (blocks_ a) (offset b) size' (blocks_ a').
Proof.
  intros Hn Hc Hbs Hb Hs Ha.
  destruct (AllocInBlock_spec n pre b post a size' Hn Hc Hbs Hb Hs Ha)
    as (a' & Ha' & Hc' & Hl).
  exists a'. split; [done|]. split; [done|].
  set (new := mkBlock IN_USE (offset b) size' (token b)) in *.
  assert (new ∈ live (blocks_ a')) as Hnew.
  { rewrite Hl. set_solver. }
  exists new. split_and!; try done; [by eapply live_elem| |].
  - intros b' Hb'. rewrite Hl in Hb'. rewrite Hbs, live_app, live_cons, Hb. set_solver.
  - intros b' Hb'. left. rewrite Hbs, live_app, live_cons, Hb in Hb'.
    split; [rewrite Hl; set_solver|].
    destruct Hc as (Ht & _). rewrite Hbs in Ht.
    destruct (tiled_mid 0 pre b post Ht) as [Hp1 Hp2].
    unfold disjoint_blocks; cbn. apply elem_of_app in Hb' as [Hb'|Hb'].
    + right. by apply Hp1, live_elem.
    + left. specialize (Hp2 b' (live_elem _ _ Hb')). lia.
Qed.

Lemma released_refl (h : H) bs : released h bs bs.
Proof. intros b Hb. by left. Qed.

Lemma released_trans (h h' : H) bs1 bs2 bs3 :
  (∀ t, HasTokenPassed t h = true → HasTokenPassed t h' = true) →
  released h bs1 bs2 → released h' bs2 bs3 → released h' bs1 bs3.
Proof.
  intros Hm H12 H23 b Hb. destruct (H12 b Hb) as [Hb2|[? ?]]; [by apply H23|].
  right. auto.
Qed.

(** What [Alloc] may do with the blocks, for a size rounded to [sz]. *)
Definition alloc_result (n sz : Z) (h : H) (a : FencedAllocator) (off : Z)
    (a' : FencedAllocator) (h' : H) : Prop :=
  consistent n a' ∧ (∀ t, HasTokenPassed t h = true → HasTokenPassed t h' = true) ∧
  if decide (off = kInvalidOffset) then
    live (blocks_ a') ⊆ live (blocks_ a) ∧ released h' (blocks_ a) (blocks_ a') ∧
    GetLargestFreeOrPendingSize a < sz
  else allocated h' (blocks_ a) off sz (blocks_ a').

(** Waiting and collapsing first does not change what an allocation may do. *)
Lemma alloc_result_trans n sz (h h1 h2 : H) a a1 a2 off :
  (∀ t, HasTokenPassed t h = true → HasTokenPassed t h1 = true) →
  live (blocks_ a1) ⊆ live (blocks_ a) → released h1 (blocks_ a) (blocks_ a1) →
  GetLargestFreeOrPendingSize a1 = GetLargestFreeOrPendingSize a →
  alloc_result n sz h1 a1 off a2 h2 → alloc_result n sz h a off a2 h2.
Proof.
  intros Hm Hsub Hrel Hlarge (Hc & Hm2 & Hres). split_and!; [done|by auto|].
  case_decide.
  - destruct Hres as (Hsub2 & Hrel2 & Hlt). split_and!; [by etrans| |lia].
    by eapply released_trans.
  - destruct Hres as (new & ? & ? & ? & ? & Hin & Hr).
    exists new. split_and!; try done.
    + intros x Hx. destruct (Hin x Hx); auto.
    + intros x Hx. destruct (Hrel x Hx) as [Hx'|[? ?]]; [by apply Hr|]. right. auto.
Qed.

(** The block of an index of a consistent allocator lies in the memory. *)
Lemma consistent_offset n a pre b post :
  valid_total n → consistent n a → blocks_ a = pre ++ b :: post →
  0 <= offset b ∧ offset b ≠ kInvalidOffset ∧ offset b + size b <= n.
Proof.
  intros [Hn _] (Ht & Htot & _) Hbs. rewrite Hbs in Ht, Htot.
  destruct (tiled_bounds _ _ b Ht) as (? & ? & ?); [set_solver|].
  unfold kInvalidOffset, u32_max in *. lia.
Qed.

(** What is live after a wait was live before, and what is gone was waited for. *)
Lemma wait_released (h : H) b pre post bs bs1 :
  is_pending b = true → bs = pre ++ b :: post → live bs1 = live pre ++ live post →
  released (WaitForToken (token b) h) bs bs1 ∧ live bs1 ⊆ live bs.
Proof.
  intros Hp -> Hl1. destruct (pending_not_free b Hp) as [Hbf _].
  rewrite Hl1, (live_app _ (b :: _)), live_cons, Hbf. split; [|set_solver].
  intros x Hx. rewrite (live_app _ (b :: _)), live_cons, Hbf in Hx. rewrite Hl1.
  rewrite !elem_of_app, elem_of_cons in *. destruct Hx as [?|[->|?]]; auto.
  right. split; [done|]. apply HasTokenPassed_wait.
Qed.

(** At the end of the loop no block is big enough. *)
Lemma wait_loop_fails n size' pre a (h : H) :
  consistent n a → blocks_ a = pre → 0 < size' → size' <= u32_max →
  (∀ b, b ∈ pre → is_pending b = false ∧ (is_free b = true → size b < size')) →
  alloc_result n size' h a kInvalidOffset a h.
Proof.
  intros Hc Hbs Hs Hs2 Hpre. split_and!; [done|done|].
  rewrite decide_True by done. split_and!; [done|apply released_refl|].
  unfold GetLargestFreeOrPendingSize. rewrite Hbs.
  destruct Hc as (Ht & Htot & Hsep & _). rewrite Hbs in *.
  pose proof (largest_small size' pre false (0, 0) Hsep ltac:(done) Hs Hs) as Hl.
  destruct (foldl free_or_pending_step (0, 0) pre) as [m c]. apply Hl; [|lia].
  intros b Hb. destruct (Hpre b Hb) as [? Hb2]. split; [done|]. intros Hf.
  destruct (tiled_bounds _ _ b Ht Hb) as (? & ? & ?). specialize (Hb2 Hf). lia.
Qed.

Lemma wait_loop_spec n size' fuel : ∀ pre post a (h : H),
  valid_total n → consistent n a → blocks_ a = pre ++ post →
  0 < size' → (kAllocAlignment | size') →
  (∀ b, b ∈ pre → is_pending b = false ∧ (is_free b = true → size b < size')) →
  (∀ b, b ∈ post → is_free b = true → size b < size') →
  (length post < fuel)%nat → size' <= u32_max →
  ∃ off a' h', wait_loop fuel (length pre) size' a h = Done (Some (off, a', h')) ∧
    alloc_result n size' h a off a' h'.
Proof.
  induction fuel as [|fuel IH]; intros pre post a h Hn Hc Hbs Hs Ha Hpre Hpost Hfuel Hs2; [lia|].
  cbn [wait_loop]. rewrite Hbs.
  destruct post as [|b post].
  - rewrite app_nil_r in *. rewrite lookup_ge_None_2 by lia.
    exists kInvalidOffset, a, h. split; [done|]. by apply (wait_loop_fails n size' pre).
  - rewrite list_lookup_middle by done.
    destruct (is_pending b) eqn:Hp; cbn [negb].
    + destruct (WaitForTokenAndFreeBlock_spec n pre b post a h Hn Hc Hbs Hp)
        as (l & r & pre' & b' & post' & a1 & -> & Hbs1 & -> & -> & Hc1 & Hb' & Hl1 & Hlarge).
      cbn [mbind outcome_bind]. rewrite Hbs1, block_at_mid. cbn [mbind outcome_bind].
      assert (∀ t, HasTokenPassed t h = true →
                   HasTokenPassed t (WaitForToken (token b) h) = true) as Hmono
        by (intros; by apply HasTokenPassed_mono).
      destruct (wait_released h b (pre' ++ l) (r ++ post') (blocks_ a) (blocks_ a1) Hp Hbs Hl1) as [Hrel Hsub].
      destruct (Z.leb_spec size' (size b')) as [Hfit|Hnofit].
      * destruct (AllocInBlock_allocated n pre' b' post' a1 size' (WaitForToken (token b) h))
          as (a2 & -> & Hc2 & Hal); [done|done|done|done|lia|done|].
        cbn [mbind outcome_bind fst snd].
        exists (offset b'), a2, (WaitForToken (token b) h). split; [done|].
        apply (alloc_result_trans n size' h (WaitForToken (token b) h) (WaitForToken (token b) h) a a1); try done.
        split_and!; [done|done|].
        destruct (consistent_offset n a1 pre' b' post' Hn Hc1 Hbs1) as (_ & Hne & _).
        by rewrite decide_False.
      * destruct (IH (pre' ++ [b']) post' a1 (WaitForToken (token b) h))
          as (off & a2 & h2 & Hloop & Hres); try done.
        { by rewrite <- app_assoc. }
        { intros x [Hx|Hx%list_elem_of_singleton]%elem_of_app.
          - apply Hpre. set_solver.
          - subst x. split; [by apply free_not_in_use|lia]. }
        { intros x Hx. apply Hpost. set_solver. }
        { cbn in Hfuel. rewrite length_app in Hfuel. lia. }
        rewrite length_app, Nat.add_comm in Hloop. cbn in Hloop. rewrite Hloop.
        exists off, a2, h2. split; [done|].
        by apply (alloc_result_trans n size' h (WaitForToken (token b) h) h2 a a1).
    + destruct (IH (pre ++ [b]) post a h) as (off & a2 & h2 & Hloop & Hres); try done.
      { by rewrite <- app_assoc. }
      { intros x [Hx|Hx%list_elem_of_singleton]%elem_of_app; [by apply Hpre|].
        subst x. split; [done|]. apply Hpost. set_solver. }
      { intros x Hx. apply Hpost. set_solver. }
      { cbn in Hfuel. lia. }
      rewrite length_app, Nat.add_comm in Hloop. cbn in Hloop. rewrite Hloop.
      by exists off, a2, h2.
Qed.

(** ** Rounding *)

Lemma land_lnot_15 z : Z.land z (Z.lnot (kAllocAlignment - 1)) = 16 * (z / 16).
Proof.
  apply (land_lnot_ones z 4). lia.
Qed.

Lemma RoundUp_spec z :
  0 <= z <= u32_max - 15 →
  z <= RoundUp z < z + 16 ∧ (kAllocAlignment | RoundUp z) ∧ RoundUp z <= u32_max.
Proof.
  unfold RoundUp, u32_max. intros Hz. rewrite land_lnot_15.
  rewrite u32_small by (unfold is_u32, u32_max, kAllocAlignment; lia).
  unfold kAllocAlignment.
  pose proof (Z.div_mod (z + (16 - 1)) 16 ltac:(lia)).
  pose proof (Z.mod_pos_bound (z + (16 - 1)) 16 ltac:(lia)).
  split_and!; try lia. exists ((z + (16 - 1)) / 16). lia.
Qed.

Lemma RoundDown_spec z :
  16 <= z <= u32_max → valid_total (RoundDown z) ∧ z - 15 <= RoundDown z <= z.
Proof.
  unfold RoundDown, valid_total, u32_max. intros Hz. rewrite land_lnot_15.
  pose proof (Z.div_mod z 16 ltac:(lia)). pose proof (Z.mod_pos_bound z 16 ltac:(lia)).
  split_and!; try lia. unfold kAllocAlignment. exists (z / 16). lia.
Qed.

(** ** The operations *)

Lemma find_free_spec s bs : ∀ i,
  match find_free s i bs with
  | Some k => ∃ pre b post, bs = pre ++ b :: post ∧ k = (i + length pre)%nat ∧
                is_free b = true ∧ s <= size b
  | None => ∀ b, b ∈ bs → is_free b = true → size b < s
  end.
Proof.
  induction bs as [|b bs IH]; intros i; cbn [find_free]; [set_solver|].
  destruct (is_free b && (s <=? size b)) eqn:E.
  - prop_bools. exists [], b, bs. cbn. split_and!; first [done | lia].
  - specialize (IH (S i)). destruct (find_free s (S i) bs) as [k|].
    + destruct IH as (pre & b' & post & -> & -> & ? & ?).
      exists (b :: pre), b', post. cbn. split_and!; first [done | lia].
    + intros b' [->|Hb']%elem_of_cons Hf; [|by apply IH].
      rewrite Hf in E. cbn in E. prop_bools. lia.
Qed.

Lemma Alloc_spec n size' a (h : H) :
  valid_total n → consistent n a → 0 < size' <= u32_max - 15 →
  ∃ off a' h', Alloc size' a h = Done (Some (off, a', h')) ∧
    alloc_result n (RoundUp size') h a off a' h'.
Proof.
  intros Hn Hc Hs. unfold Alloc. rewrite (proj2 (Z.eqb_neq size' 0)) by lia.
  destruct (RoundUp_spec size') as (Hr1 & Hr2 & Hr3); [lia|].
  pose proof (find_free_spec (RoundUp size') (blocks_ a) 0) as Hf.
  destruct (find_free _ _ _) as [k|].
  - destruct Hf as (pre & b & post & Hbs & -> & Hb & Hfit). cbn [Nat.add].
    destruct (AllocInBlock_allocated n pre b post a (RoundUp size') h)
      as (a' & -> & Hc' & Hal); [done|done|done|done|lia|done|].
    cbn [mbind outcome_bind fst snd]. exists (offset b), a', h. split; [done|].
    split_and!; [done|done|].
    destruct (consistent_offset n a pre b post Hn Hc Hbs) as (_ & Hne & _).
    by rewrite decide_False.
  - apply (wait_loop_spec n (RoundUp size') _ [] (blocks_ a) a h); try done; try lia.
    set_solver.
Qed.

(** A live block and the index [GetBlockByOffset] finds for it. *)
Lemma GetBlockByOffset_spec pre b post off :
  tiled off (pre ++ b :: post) →
  GetBlockByOffset (offset b) (pre ++ b :: post) = Done (length pre).
Proof.
  intros Ht. unfold GetBlockByOffset.
  assert (lower_bound_offset (offset b) (pre ++ b :: post) = length pre) as ->.
  { revert off Ht. induction pre as [|b' pre IH]; intros off Ht; cbn.
    - by rewrite Z.ltb_irrefl.
    - destruct Ht as (Ho & Hs & _ & Ht).
      destruct (tiled_bounds _ _ b Ht) as (? & _ & _); [set_solver|].
      rewrite (proj2 (Z.ltb_lt _ _)) by lia. f_equal. by eapply IH. }
  rewrite list_lookup_middle by done. by rewrite Z.eqb_refl.
Qed.

(** Splitting the live blocks at one of them. *)
Lemma live_split b bs : b ∈ live bs → ∃ pre post, bs = pre ++ b :: post ∧ is_free b = false.
Proof.
  intros [Hb Hf]%elem_of_live. apply list_elem_of_split in Hb as (pre & post & ->). eauto.
Qed.

Lemma Free_spec n a b :
  valid_total n → consistent n a → b ∈ live (blocks_ a) →
  ∃ pre post a', blocks_ a = pre ++ b :: post ∧ Free (offset b) a = Done a' ∧
    consistent n a' ∧ live (blocks_ a') = live pre ++ live post.
Proof.
  intros Hn (Ht & Htot & Hsep & Hbytes) Hb.
  destruct (live_split _ _ Hb) as (pre & post & Hbs & Hf).
  exists pre, post. unfold Free. rewrite Hbs in Ht, Htot, Hsep, Hbytes |- *.
  rewrite (GetBlockByOffset_spec pre b post 0 Ht). cbn [mbind outcome_bind].
  rewrite block_at_mid. cbn [mbind outcome_bind]. pass_DCHECK ltac:(by rewrite Hf).
  destruct (free_and_collapse n pre b post Hn Ht Htot Hsep Hf)
    as (l & r & pre' & b' & post' & Hcol & _ & _ & _ & H1 & H2 & H3 & H4 & H5).
  assert (blocks_ (if is_in_use b then a <| bytes_in_use_ := bytes_in_use_ a - size b |>
                   else a) = pre ++ b :: post) as -> by by destruct (is_in_use b).
  rewrite Hcol. cbn [mbind outcome_bind snd].
  exists (mkFencedAllocator (pre' ++ b' :: post')
    (if is_in_use b then bytes_in_use_ a - size b else bytes_in_use_ a)).
  split; [done|]. split; [by destruct (is_in_use b)|]. split; [|exact H4].
  split_and!; [exact H1|exact H2|exact H3|]. cbn [blocks_ bytes_in_use_].
  rewrite H5. rewrite in_use_bytes_app, in_use_bytes_cons in Hbytes.
  destruct (is_in_use b); cbn; rewrite Hbytes; lia.
Qed.

Lemma FreePendingToken_spec n a b token' :
  valid_total n → consistent n a → b ∈ live (blocks_ a) →
  ∃ pre post, blocks_ a = pre ++ b :: post ∧ ∃ a',
    FreePendingToken (offset b) token' a = Done a' ∧ consistent n a' ∧
    live (blocks_ a') = live pre ++
      [b <| state := FREE_PENDING_TOKEN |> <| token := token' |>] ++ live post.
Proof.
  intros Hn (Ht & Htot & Hsep & Hbytes) Hb.
  destruct (live_split _ _ Hb) as (pre & post & Hbs & Hf).
  exists pre, post. split; [done|]. unfold FreePendingToken.
  rewrite Hbs in Ht, Htot, Hsep, Hbytes |- *.
  rewrite (GetBlockByOffset_spec pre b post 0 Ht). cbn [mbind outcome_bind].
  rewrite block_at_mid. cbn [mbind outcome_bind].
  assert (blocks_ (if is_in_use b then a <| bytes_in_use_ := bytes_in_use_ a - size b |>
                   else a) = pre ++ b :: post) as -> by by destruct (is_in_use b).
  rewrite insert_mid. set (b' := b <| state := FREE_PENDING_TOKEN |> <| token := token' |>).
  exists (mkFencedAllocator (pre ++ b' :: post)
    (if is_in_use b then bytes_in_use_ a - size b else bytes_in_use_ a)).
  split; [by destruct (is_in_use b)|]. split; [split_and!|]; cbn [blocks_ bytes_in_use_].
  - apply tiled_app in Ht as [? ?]. by apply tiled_app.
  - rewrite total_app in Htot |- *. exact Htot.
  - apply separated_app in Hsep as (? & _ & Hs2). apply separated_app. split; [done|].
    split; [done|]. by rewrite Hf in Hs2.
  - rewrite in_use_bytes_app, in_use_bytes_cons in Hbytes |- *.
    change (is_in_use b') with false. destruct (is_in_use b); cbn; rewrite Hbytes; lia.
  - by rewrite live_app, live_cons.
Qed.

(** ** Freeing what the service has passed *)

Definition reclaimable (h : H) (b : Block) : bool :=
  is_pending b && HasTokenPassed (token b) h.

Definition pendings (bs : list Block) : nat := length (filter (λ b, is_pending b = true) bs).

Lemma pendings_cons b bs : pendings (b :: bs) = ((if is_pending b then 1 else 0) + pendings bs)%nat.
Proof. unfold pendings. rewrite list.filter_cons. by destruct (is_pending b). Qed.

Lemma pendings_app bs1 bs2 : pendings (bs1 ++ bs2) = (pendings bs1 + pendings bs2)%nat.
Proof. unfold pendings. by rewrite list.filter_app, length_app. Qed.

Lemma keep_all (h : H) (bs : list Block) :
  (∀ b, b ∈ bs → reclaimable h b = false) → filter (λ b, reclaimable h b = false) bs = bs.
Proof.
  induction bs as [|b bs IH]; intros Hb; [done|]. rewrite list.filter_cons.
  rewrite decide_True by (apply Hb; set_solver). f_equal. apply IH. set_solver.
Qed.

Lemma free_unused_loop_spec n fuel : ∀ pre post a (h : H),
  valid_total n → consistent n a → blocks_ a = pre ++ post →
  (∀ b, b ∈ pre → reclaimable h b = false) →
  (pendings post + length post < fuel)%nat →
  ∃ a', free_unused_loop fuel (length pre) a h = Done (Some a') ∧ consistent n a' ∧
    live (blocks_ a') = filter (λ b, reclaimable h b = false) (live (blocks_ a)).
Proof.
  induction fuel as [|fuel IH]; intros pre post a h Hn Hc Hbs Hpre Hfuel; [lia|].
  cbn [free_unused_loop]. rewrite Hbs. destruct post as [|b post].
  - rewrite app_nil_r in Hbs |- *. rewrite lookup_ge_None_2 by lia.
    exists a. split_and!; [done|done|]. rewrite keep_all; [by rewrite Hbs|].
    intros b [Hb _]%elem_of_live. by apply Hpre.
  - rewrite list_lookup_middle by done. rewrite pendings_cons in Hfuel. cbn [length] in Hfuel.
    destruct (is_pending b && HasTokenPassed (token b) h) eqn:Er.
    + apply andb_true_iff in Er as [Hp Hpass].
      destruct (pending_not_free b Hp) as [Hbf Hbu].
      destruct Hc as (Ht & Htot & Hsep & Hbytes). rewrite Hbs in Ht, Htot, Hsep, Hbytes.
      destruct (free_and_collapse n pre b post Hn Ht Htot Hsep Hbf)
        as (l & r & pre' & b' & post' & -> & Hpe & Hpo & Hm & H1 & H2 & H3 & H4 & H5).
      cbn [mbind outcome_bind fst snd].
      destruct (IH pre' (b' :: post') (a <| blocks_ := pre' ++ b' :: post' |>) h)
        as (a' & -> & Hc' & Hl'); try done.
      * split_and!; [exact H1|exact H2|exact H3|].
        change (bytes_in_use_ a = in_use_bytes (pre' ++ b' :: post')).
        by rewrite H5, Hbytes, in_use_bytes_app, in_use_bytes_cons, Hbu.
      * intros x Hx. apply Hpre. rewrite Hpe. set_solver.
      * rewrite pendings_cons. destruct (free_not_in_use b') as [_ ->]; [apply Hm|].
        rewrite Hpo, pendings_app, length_app in Hfuel. rewrite Hp in Hfuel. cbn [length]. lia.
      * exists a'. split_and!; [done|done|]. rewrite Hl'.
        change (blocks_ (a <| blocks_ := pre' ++ b' :: post' |>)) with (pre' ++ b' :: post').
        rewrite H4. rewrite !live_app, live_cons, Hbf, !list.filter_app, list.filter_cons.
        rewrite decide_False; [done|]. unfold reclaimable. by rewrite Hp, Hpass.
    + destruct (IH (pre ++ [b]) post a h) as (a' & Hloop & Hc' & Hl'); try done.
      * by rewrite <- app_assoc.
      * intros x [Hx|Hx%list_elem_of_singleton]%elem_of_app; [by apply Hpre|by subst].
      * destruct (is_pending b); lia.
      * rewrite length_app, Nat.add_comm in Hloop. cbn in Hloop. rewrite Hloop.
        exists a'. split_and!; [done|done|]. by rewrite Hl', Hbs.
Qed.

Lemma pendings_le bs : (pendings bs ≤ length bs)%nat.
Proof. unfold pendings. apply length_filter. Qed.

Lemma FreeUnused_spec n a (h : H) :
  valid_total n → consistent n a →
  ∃ a', FreeUnused a h = Done (Some a') ∧ consistent n a' ∧
    live (blocks_ a') = filter (λ b, reclaimable h b = false) (live (blocks_ a)).
Proof.
  intros Hn Hc. apply (free_unused_loop_spec n _ [] (blocks_ a)); try done.
  - set_solver.
  - pose proof (pendings_le (blocks_ a)). lia.
Qed.

(** ** Destruction *)

Lemma live_all_free bs : (∀ b, b ∈ bs → is_free b = true) → live bs = [].
Proof.
  intros Hf. destruct (live bs) as [|y ys] eqn:E; [done|].
  assert (y ∈ live bs) as Hy by (rewrite E; set_solver).
  apply elem_of_live in Hy as [Hy Hyf]. by rewrite (Hf _ Hy) in Hyf.
Qed.

Lemma destroy_loop_spec n fuel : ∀ pre post a (h : H),
  valid_total n → consistent n a → blocks_ a = pre ++ post →
  (∀ b, b ∈ pre → is_free b = true) → (∀ b, b ∈ post → is_in_use b = false) →
  (length post < fuel)%nat →
  ∃ a' h', destroy_loop fuel (length pre) a h = Done (Some (a', h')) ∧ consistent n a' ∧
    (∀ b, b ∈ blocks_ a' → is_free b = true) ∧
    (∀ t, HasTokenPassed t h = true → HasTokenPassed t h' = true) ∧
    (∀ b, b ∈ live post → HasTokenPassed (token b) h' = true).
Proof.
  induction fuel as [|fuel IH]; intros pre post a h Hn Hc Hbs Hpre Hpost Hfuel; [lia|].
  cbn [destroy_loop]. rewrite Hbs. destruct post as [|b post].
  - rewrite app_nil_r in Hbs |- *. rewrite lookup_ge_None_2 by lia.
    exists a, h. split_and!; [done|done|by rewrite Hbs|done|]. intros b Hb.
    by apply elem_of_live in Hb as [Hb%elem_of_nil _].
  - rewrite list_lookup_middle by done. cbn [length] in Hfuel.
    destruct (is_pending b) eqn:Hp.
    + destruct (WaitForTokenAndFreeBlock_spec n pre b post a h Hn Hc Hbs Hp)
        as (l & r & pre' & b' & post' & a1 & -> & Hbs1 & Hpe & Hpo & Hc1 & Hb' & Hl1 & _).
      cbn [mbind outcome_bind].
      destruct (IH (pre' ++ [b']) post' a1 (WaitForToken (token b) h))
        as (a2 & h2 & Hloop & Hc2 & Hf2 & Hm2 & Ht2); try done.
      * by rewrite <- app_assoc.
      * intros x [Hx|Hx%list_elem_of_singleton]%elem_of_app; [|by subst].
        apply Hpre. rewrite Hpe. set_solver.
      * intros x Hx. apply Hpost. rewrite Hpo. set_solver.
      * rewrite Hpo, length_app in Hfuel. lia.
      * rewrite length_app, Nat.add_comm in Hloop. cbn in Hloop. rewrite Hloop.
        exists a2, h2. split_and!; [done|done|done|intros; by apply Hm2, HasTokenPassed_mono|].
        destruct (pending_not_free b Hp) as [Hbf _].
        intros x Hx. rewrite live_cons, Hbf in Hx. apply elem_of_cons in Hx as [->|Hx].
        { apply Hm2, HasTokenPassed_wait. }
        apply Ht2.
        rewrite Hbs1, live_app, live_cons, Hb', (live_all_free pre) in Hl1 by done.
        rewrite (live_all_free pre') in Hl1 by (intros y Hy; apply Hpre; rewrite Hpe; set_solver).
        cbn in Hl1. by rewrite Hl1.
    + destruct (state_cases b) as [(E1 & _ & _)|[(_ & E2 & _)|(_ & _ & E3)]]; [| |congruence].
      2:{ rewrite (Hpost b) in E2; [done|set_solver]. }
      destruct (IH (pre ++ [b]) post a h) as (a2 & h2 & Hloop & Hc2 & Hf2 & Hm2 & Ht2);
        try done.
      * by rewrite <- app_assoc.
      * intros x [Hx|Hx%list_elem_of_singleton]%elem_of_app; [by apply Hpre|by subst].
      * intros x Hx. apply Hpost. set_solver.
      * lia.
      * rewrite length_app, Nat.add_comm in Hloop. cbn in Hloop. rewrite Hloop.
        exists a2, h2. split_and!; try done. intros x Hx. apply Ht2.
        by rewrite live_cons, E1 in Hx.
Qed.

Lemma destroy_spec n a (h : H) :
  valid_total n → consistent n a → (∀ b, b ∈ blocks_ a → is_in_use b = false) →
  ∃ h', destroy_FencedAllocator a h = Done (Some h') ∧
    ∀ b, b ∈ live (blocks_ a) → HasTokenPassed (token b) h' = true.
Proof.
  intros Hn Hc Hu. unfold destroy_FencedAllocator.
  destruct (destroy_loop_spec n (S (length (blocks_ a))) [] (blocks_ a) a h)
    as (a' & h' & Hloop & (Ht & Htot & Hsep & _) & Hf & _ & Hp); try done; [set_solver|lia|].
  cbn [length] in Hloop. rewrite Hloop. cbn [mbind outcome_bind].
  destruct Hn as [Hn _].
  destruct (blocks_ a') as [|b [|b2 bs]]; [cbn in Htot; lia| |].
  - exists h'. split; [|done]. cbn. by rewrite (Hf b) by set_solver.
  - exfalso. cbn in Hsep. destruct Hsep as (_ & Hsep & _).
    rewrite (Hf b), (Hf b2) in Hsep by set_solver. naive_solver.
Qed.

Lemma consistent_CheckConsistency n a :
  valid_total n → consistent n a → CheckConsistency a = true.
Proof.
  intros [Hn _] (Ht & Htot & Hsep & _). unfold CheckConsistency.
  destruct (blocks_ a) as [|b bs]; [cbn in *; lia|]. clear a.
  assert (∀ bs b off, tiled off (b :: bs) → 0 <= off → off + total (b :: bs) <= u32_max →
    separated (is_free b) bs → CheckConsistency_loop b bs = true) as Hloop.
  { clear. induction bs as [|b2 bs IH]; intros b off Ht Hoff Htot Hsep; [done|].
    cbn in Ht. destruct Ht as (Ho & Hs & _ & Ho2 & Hs2 & Ha2 & Ht).
    cbn in Htot. pose proof (total_nonneg _ _ Ht). cbn [CheckConsistency_loop].
    rewrite (proj2 (Z.leb_gt _ _)) by lia.
    rewrite u32_small by (unfold is_u32; lia). rewrite (proj2 (Z.eqb_eq _ _)) by lia.
    cbn [negb]. destruct Hsep as [Hsf Hsep].
    destruct (is_free b) eqn:Hb; cbn [andb]; [rewrite Hsf by done|];
      apply (IH b2 (off + size b)); cbn; try done; try lia; by split_and!. }
  apply (Hloop bs b 0); [done|lia|unfold u32_max in *; cbn in *; lia|]. by destruct Hsep.
Qed.

(** ** Histories *)

(** A call of a public method with arguments its callers may pass, or a step of the
    helper, after which more tokens have passed. *)
Inductive step : FencedAllocator * H → FencedAllocator * H → Prop :=
  | step_Alloc size' off a h a' h' :
      0 <= size' <= u32_max - 15 → Alloc size' a h = Done (Some (off, a', h')) →
      step (a, h) (a', h')
  | step_Free b a h a' :
      b ∈ live (blocks_ a) → Free (offset b) a = Done a' → step (a, h) (a', h)
  | step_FreePendingToken b t a h a' :
      b ∈ live (blocks_ a) → FreePendingToken (offset b) t a = Done a' →
      step (a, h) (a', h)
  | step_FreeUnused a h a' :
      FreeUnused a h = Done (Some a') → step (a, h) (a', h)
  | step_helper a h h' :
      (∀ t, HasTokenPassed t h = true → HasTokenPassed t h' = true) →
      step (a, h) (a, h').

Lemma Alloc_zero a (h : H) : Alloc 0 a h = Done (Some (kInvalidOffset, a, h)).
Proof. done. Qed.

Lemma step_consistent n c c' :
  valid_total n → step c c' → consistent n c.1 → consistent n c'.1.
Proof.
  intros Hn Hs Hc. destruct Hs as [size' off a h a' h' Hsz Hal|b a h a' Hb Hfr
    |b t a h a' Hb Hfr|a h a' Hfu|a h h' _]; cbn [fst] in *.
  - destruct (decide (size' = 0)) as [->|Hne].
    { rewrite Alloc_zero in Hal. by simplify_eq. }
    destruct (Alloc_spec n size' a h) as (off2 & a2 & h2 & Hal2 & Hc2 & _); [done|done|lia|].
    by assert (a2 = a') as <- by congruence.
  - destruct (Free_spec n a b Hn Hc Hb) as (? & ? & a2 & _ & ? & ? & _).
    by assert (a2 = a') as <- by congruence.
  - destruct (FreePendingToken_spec n a b t Hn Hc Hb) as (? & ? & _ & a2 & ? & ? & _).
    by assert (a2 = a') as <- by congruence.
  - destruct (FreeUnused_spec n a h Hn Hc) as (a2 & ? & ? & _).
    by assert (a2 = a') as <- by congruence.
  - done.
Qed.

Lemma rtc_consistent n c c' :
  valid_total n → rtc step c c' → consistent n c.1 → consistent n c'.1.
Proof. intros Hn. induction 1; [done|]. eauto using step_consistent. Qed.

Lemma init_consistent size' :
  16 <= size' <= u32_max → consistent (RoundDown size') (init_FencedAllocator size').
Proof.
  intros Hs. destruct (RoundDown_spec size' Hs) as [[Hn Ha] _].
  unfold init_FencedAllocator. revert Hn Ha. generalize (RoundDown size'). intros n Hn Ha.
  unfold consistent. cbn. split_and!; try done; lia.
Qed.

Lemma tiled_aligned off bs b :
  tiled off bs → (kAllocAlignment | off) → b ∈ bs → (kAllocAlignment | offset b).
Proof.
  revert off. induction bs as [|b' bs IH]; intros off Ht Ha Hb; [set_solver|].
  destruct Ht as (Ho & _ & Hs & Ht). apply elem_of_cons in Hb as [->|Hb]; [by rewrite Ho|].
  eapply IH; [done| |done]. by apply Z.divide_add_r.
Qed.

End Waiting.



(** [Alloc] succeeds whenever it could.  On a consistent allocator, a size
    that, rounded up to the alignment, is at most [GetLargestFreeOrPendingSize], is
    allocated: "allocating a block of this size will succeed, but may block". *)
Theorem Alloc_complete {H : Type} {helper : TokenHelper H} n size' a (h : H) :
  valid_total n → consistent n a → 0 < size' <= u32_max - 15 →
  RoundUp size' <= GetLargestFreeOrPendingSize a →
  ∃ off a' h', Alloc size' a h = Done (Some (off, a', h')) ∧ off ≠ kInvalidOffset ∧
    ∃ b, b ∈ blocks_ a' ∧ state b = IN_USE ∧ offset b = off ∧ size b = RoundUp size'.
Proof.
  intros Hn Hc Hs Hl.
  destruct (Alloc_spec n size' a h Hn Hc Hs) as (off & a' & h' & Hal & _ & _ & Hres).
  exists off, a', h'. split; [done|]. case_decide; [destruct Hres as (_ & _ & ?); lia|].
  split; [done|]. destruct Hres as (new & ? & ? & ? & ? & _). by exists new.
Qed.

(** [FreeUnused] frees exactly what may be reused.  On a consistent allocator
    it ends, and the live blocks are those that were, in order, without the ones
    pending a token that has passed. *)
Theorem FreeUnused_exact {H : Type} {helper : TokenHelper H} n a (h : H) :
  valid_total n → consistent n a →
  ∃ a', FreeUnused a h = Done (Some a') ∧ consistent n a' ∧
    live (blocks_ a') = filter (λ b, reclaimable h b = false) (live (blocks_ a)).
Proof. apply FreeUnused_spec. Qed.

(** The destructor waits for everything.  If no block is in use any more, the
    destructor of a consistent allocator ends with its DCHECKs true, a single
    [FREE] block, after every pending token has passed. *)
Theorem destructor_waits {H : Type} {helper : TokenHelper H} n a (h : H) :
  valid_total n → consistent n a → (∀ b, b ∈ blocks_ a → is_in_use b = false) →
  ∃ h', destroy_FencedAllocator a h = Done (Some h') ∧
    ∀ b, b ∈ live (blocks_ a) → HasTokenPassed (token b) h' = true.
Proof. apply destroy_spec. Qed.

(** [C40] The rounding of [Alloc] overflows.  For each of the 15 sizes above
    2^32 - 16, [RoundUp] wraps to 0 and [Alloc] on a new allocator of any size from
    16 on returns the valid offset 0, for a block of no bytes, and leaves the
    bookkeeping inconsistent: [CheckConsistency] is false. *)
Theorem Alloc_overflow {H : Type} {helper : TokenHelper H} buffer_size size' (h : H) :
  16 <= buffer_size <= u32_max → u32_max - 15 < size' <= u32_max →
  ∃ a', Alloc size' (init_FencedAllocator buffer_size) h = Done (Some (0, a', h)) ∧
    CheckConsistency a' = false.
Proof.
  intros Hb Hs. destruct (RoundDown_spec buffer_size Hb) as [[Hn _] _].
  assert (RoundUp size' = 0) as Hr.
  { unfold RoundUp. rewrite land_lnot_15. unfold u32_max, kAllocAlignment in *.
    replace (u32 (size' + (16 - 1))) with (size' + 15 - 4294967296).
    - rewrite Z.div_small by lia. done.
    - unfold u32. apply (Z.mod_unique _ _ 1); lia. }
  unfold Alloc. rewrite (proj2 (Z.eqb_neq size' 0)) by (unfold u32_max in *; lia).
  rewrite Hr. revert Hn. unfold init_FencedAllocator. generalize (RoundDown buffer_size).
  intros n Hn. destruct n as [|n|n]; [lia| |lia].
  eexists. split; reflexivity.
Qed.

(** ** Examples *)

(** A buffer of 64 bytes with a block in use, one pending token 3 and a free rest. *)
Definition busy_allocator : FencedAllocator :=
  {| blocks_ := [mkBlock IN_USE 0 16 0; mkBlock FREE_PENDING_TOKEN 16 32 3;
                 mkBlock FREE 48 16 0];
     bytes_in_use_ := 16 |}.

Lemma busy_consistent : consistent 64 busy_allocator.
Proof.
  unfold consistent, busy_allocator, kAllocAlignment. cbn.
  split_and!; try done; try lia; try by exists 1. by exists 2.
Qed.

Lemma valid_64 : valid_total 64.
Proof. unfold valid_total, u32_max, kAllocAlignment. split; [lia|]. by exists 4. Qed.



Lemma Alloc_complete_witness :
  ∃ off a' h', Alloc 48 busy_allocator (0 : TokenCounter) = Done (Some (off, a', h')) ∧
    off ≠ kInvalidOffset ∧
    ∃ b, b ∈ blocks_ a' ∧ state b = IN_USE ∧ offset b = off ∧ size b = RoundUp 48.
Proof.
  eapply Alloc_complete; [apply valid_64|apply busy_consistent|unfold u32_max; lia|].
  vm_compute. discriminate.
Defined.

Lemma FreeUnused_exact_witness :
  ∃ a', FreeUnused busy_allocator (3 : TokenCounter) = Done (Some a') ∧ consistent 64 a' ∧
    live (blocks_ a') =
      filter (λ b, reclaimable (3 : TokenCounter) b = false) (live (blocks_ busy_allocator)).
Proof. apply FreeUnused_exact; [apply valid_64|apply busy_consistent]. Defined.

Lemma destructor_waits_witness :
  let a := mkFencedAllocator [mkBlock FREE_PENDING_TOKEN 0 64 5] 0 in
  ∃ h', destroy_FencedAllocator a (0 : TokenCounter) = Done (Some h') ∧
    ∀ b, b ∈ live (blocks_ a) → HasTokenPassed (token b) h' = true.
Proof.
  apply (destructor_waits 64); [apply valid_64| |].
  - unfold consistent, kAllocAlignment. cbn. split_and!; try done; try lia. by exists 4.
  - intros b Hb. apply list_elem_of_singleton in Hb. by subst b.
Defined.

Lemma Alloc_overflow_witness :
  ∃ a', Alloc 4294967281 (init_FencedAllocator 1024) (0 : TokenCounter) =
        Done (Some (0, a', 0)) ∧ CheckConsistency a' = false.
Proof. apply Alloc_overflow; unfold u32_max; lia. Defined.
