(* ===== verification/CommandBufferCommon.v ===== *)
(** * gpu/command_buffer/common: errors, the state of a command buffer, ranges

    The types that the client and the service of a command buffer share
    (constants.h, command_buffer.h). *)

From S2P Require Import Prelude.

(** ** constants.h *)

Inductive Error : Type :=
  | kNoError
  | kInvalidSize
  | kOutOfBounds
  | kUnknownCommand
  | kInvalidArguments
  | kLostContext
  | kGenericError
  | kDeferCommandUntilLater.
#[export] Instance Error_eq_dec : EqDecision Error.
Proof. solve_decision. Defined.

Definition IsError (error : Error) : bool :=
  bool_decide (error ≠ kNoError) && bool_decide (error ≠ kDeferCommandUntilLater).

Inductive ContextLostReason : Type :=
  | kGuilty
  | kInnocent
  | kUnknown
  | kOutOfMemory
  | kMakeCurrentFailed
  | kGpuChannelLost.
#[export] Instance ContextLostReason_eq_dec : EqDecision ContextLostReason.
Proof. solve_decision. Defined.

(** ** CommandBuffer::State *)

Record State : Type := mkState {
  get_offset : Z;
  token : Z;
  error : Error;
  context_lost_reason : ContextLostReason;
  generation : Z
}.
#[export] Instance eta_State : Eta State := λ s,
  mkState (get_offset s) (token s) (error s) (context_lost_reason s) (generation s).

(** The constructor. *)
Definition init_State : State :=
  {| get_offset := 0; token := -1; error := kNoError;
     context_lost_reason := kUnknown; generation := 0 |}.

(** [value] is from [start] to [end'], inclusive, wrapping if [start > end']. *)
Definition InRange (start end' value : Z) : bool :=
  if start <=? end' then (start <=? value) && (value <=? end')
  else (start <=? value) || (value <=? end').
