(* ===== verification/SharedState.v ===== *)
(** * gpu/command_buffer/common/command_buffer_shared.h: the 4-slot mechanism

    [SharedState<CommandBuffer::State>] passes states from the service, which
    writes, to the client, which reads, in shared memory and without locks.  Each
    atomic load or store is a step of its thread, and a copy of a [State] copies
    one field per step; the barriers make the steps of the two threads interleave
    in some order.  The [Atomic32]s hold 0 or 1 and are modelled by [bool]. *)

From S2P Require Import Prelude CommandBufferCommon.

(** The shared memory. *)
Record SharedState : Type := mkSharedState {
  states_ : bool → bool → State;
  reading_ : bool;
  latest_ : bool;
  slots_ : bool → bool
}.
#[export] Instance eta_SharedState : Eta SharedState := λ s,
  mkSharedState (states_ s) (reading_ s) (latest_ s) (slots_ s).

Definition Initialize : SharedState :=
  {| states_ := λ _ _, init_State;
     reading_ := false;
     latest_ := false;
     slots_ := λ _, false |}.

Definition set_slot (i v : bool) (slots : bool → bool) : bool → bool :=
  λ j, if Bool.eqb i j then v else slots j.

Definition set_state (i j : bool) (v : State) (states : bool → bool → State) :
    bool → bool → State :=
  λ i' j', if Bool.eqb i i' && Bool.eqb j j' then v else states i' j'.

(** Copying a [State] field by field. *)
Definition num_fields : nat := 5.
Definition copy_field (k : nat) (from to : State) : State :=
  match k with
  | 0%nat => to <| get_offset := get_offset from |>
  | 1%nat => to <| token := token from |>
  | 2%nat => to <| error := error from |>
  | 3%nat => to <| context_lost_reason := context_lost_reason from |>
  | _ => to <| generation := generation from |>
  end.

(** ** [Write] *)

(** Where the writer is in [Write(state)]; the locals it has. *)
Inductive writer : Type :=
  | WIdle
  | WStart (state : State)
  | WLoadSlot (state : State) (towrite : bool)
  | WCopy (state : State) (towrite index : bool) (k : nat)
  | WStoreSlot (state : State) (towrite index : bool)
  | WStoreLatest (towrite : bool).

Definition write_step (w : writer) (s : SharedState) : writer * SharedState :=
  match w with
  | WIdle => (w, s)
  | WStart state => (WLoadSlot state (negb (reading_ s)), s)
  | WLoadSlot state towrite => (WCopy state towrite (negb (slots_ s towrite)) 0, s)
  | WCopy state towrite index k =>
      (if (S k <? num_fields)%nat then WCopy state towrite index (S k)
       else WStoreSlot state towrite index,
       s <| states_ := set_state towrite index
              (copy_field k state (states_ s towrite index)) (states_ s) |>)
  | WStoreSlot state towrite index =>
      (WStoreLatest towrite, s <| slots_ := set_slot towrite index (slots_ s) |>)
  | WStoreLatest towrite => (WIdle, s <| latest_ := towrite |>)
  end.

(** ** [Read] *)

(** Where the reader is in [Read(state)], with [*state]. *)
Inductive reader : Type :=
  | RIdle (state : State)
  | RStart (state : State)
  | RStoreReading (state : State) (toread : bool)
  | RLoadSlot (state : State) (toread : bool)
  | RCompare (state : State) (toread index : bool)
  | RCopy (state : State) (toread index : bool) (k : nat).

Definition is_newer (from state : State) : bool :=
  u32 (generation from - generation state) <? 2147483648.

Definition read_step (r : reader) (s : SharedState) : reader * SharedState :=
  match r with
  | RIdle _ => (r, s)
  | RStart state => (RStoreReading state (latest_ s), s)
  | RStoreReading state toread => (RLoadSlot state toread, s <| reading_ := toread |>)
  | RLoadSlot state toread => (RCompare state toread (slots_ s toread), s)
  | RCompare state toread index =>
      (if is_newer (states_ s toread index) state then RCopy state toread index 0
       else RIdle state, s)
  | RCopy state toread index k =>
      let state := copy_field k (states_ s toread index) state in
      (if (S k <? num_fields)%nat then RCopy state toread index (S k) else RIdle state, s)
  end.

(** ** Interleavings *)

(** The two threads and the memory; [written]: the states of the calls of [Write]
    so far, the first one the initial state; [completed]: how many of them are
    done; [seen]: [completed] when [Read] was called; [old]: [*state] then (the
    client may have changed it since the last call).  The last three are not in the code: they let the
    theorems say what a read may return. *)
Record Threads : Type := mkThreads {
  memory : SharedState;
  the_writer : writer;
  the_reader : reader;
  written : list State;
  completed : nat;
  seen : nat;
  old : State
}.

Definition init_Threads (state : State) : Threads :=
  {| memory := Initialize; the_writer := WIdle; the_reader := RIdle state;
     written := [init_State]; completed := 1; seen := 1; old := state |}.

Inductive step (c : Threads) : Threads → Prop :=
  | step_Write state :
      the_writer c = WIdle →
      step c (mkThreads (memory c) (WStart state) (the_reader c)
                (written c ++ [state]) (completed c) (seen c) (old c))
  | step_writer w' s' :
      the_writer c ≠ WIdle →
      write_step (the_writer c) (memory c) = (w', s') →
      step c (mkThreads s' w' (the_reader c) (written c)
                (match w' with WIdle => length (written c) | _ => completed c end)
                (seen c) (old c))
  | step_Read last state :
      the_reader c = RIdle last →
      step c (mkThreads (memory c) (the_writer c) (RStart state)
                (written c) (completed c) (completed c) state)
  | step_reader r' s' :
      (∀ state, the_reader c ≠ RIdle state) →
      read_step (the_reader c) (memory c) = (r', s') →
      step c (mkThreads s' (the_writer c) r' (written c) (completed c) (seen c) (old c)).

(** ** The invariant *)

(** [a] has the first [k] fields of [b]. *)
Definition agree (k : nat) (a b : State) : Prop :=
  ((0 < k)%nat → get_offset a = get_offset b) ∧
  ((1 < k)%nat → token a = token b) ∧
  ((2 < k)%nat → error a = error b) ∧
  ((3 < k)%nat → context_lost_reason a = context_lost_reason b) ∧
  ((4 < k)%nat → generation a = generation b).

Lemma agree_0 a b : agree 0 a b.
Proof. unfold agree. split_and!; intros; lia. Qed.

Lemma agree_copy k a b : (k < num_fields)%nat → agree k a b → agree (S k) (copy_field k b a) b.
Proof.
  unfold num_fields, agree. intros Hk (H0 & H1 & H2 & H3 & H4).
  destruct k as [|[|[|[|[|k]]]]]; cbn; split_and!; intros; try done; auto with lia; lia.
Qed.

Lemma agree_all a b : agree num_fields a b → a = b.
Proof.
  unfold agree, num_fields. destruct a, b; cbn. intros (H0 & H1 & H2 & H3 & H4).
  f_equal; auto with lia.
Qed.

Definition last_state (c : Threads) (state : State) : Prop :=
  ∃ ws, written c = ws ++ [state] ∧ completed c = length ws.

(** What the writer knows: its cell is not the one of its slot, and has the fields
    copied so far; [seq p j] is the position in [written] of the state of a cell. *)
Definition writer_ok (c : Threads) (seq : bool → bool → nat) : Prop :=
  match the_writer c with
  | WIdle => completed c = length (written c)
  | WStart state => last_state c state
  | WLoadSlot state p => last_state c state
  | WCopy state p j k =>
      last_state c state ∧ j = negb (slots_ (memory c) p) ∧ (k < num_fields)%nat ∧
      agree k (states_ (memory c) p j) state ∧ S (seq p j) = length (written c)
  | WStoreSlot state p j =>
      last_state c state ∧ j = negb (slots_ (memory c) p) ∧
      S (seq p j) = length (written c)
  | WStoreLatest p =>
      S (completed c) = length (written c) ∧
      S (seq p (slots_ (memory c) p)) = length (written c)
  end.

(** The cell the writer is copying to. *)
Definition being_copied (w : writer) (p j : bool) : Prop :=
  match w with WCopy _ p' j' _ => p' = p ∧ j' = j | _ => False end.

(** The writer cannot reach cell [(p, i)] while [reading_] is [p]. *)
Definition writer_avoids (w : writer) (s : SharedState) (p i : bool) : Prop :=
  match w with
  | WLoadSlot _ p' => p' = p → slots_ s p = i
  | WCopy _ p' j _ | WStoreSlot _ p' j => p' = p → j ≠ i
  | _ => True
  end.

Definition reader_ok (c : Threads) (seq : bool → bool → nat) : Prop :=
  (seen c <= completed c)%nat ∧
  let fresh p j := (seen c <= S (seq p j))%nat in
  match the_reader c with
  | RIdle _ => True
  | RStart state => state = old c
  | RStoreReading state p => state = old c ∧ fresh p (slots_ (memory c) p)
  | RLoadSlot state p =>
      state = old c ∧ reading_ (memory c) = p ∧ fresh p (slots_ (memory c) p)
  | RCompare state p i =>
      state = old c ∧ reading_ (memory c) = p ∧ fresh p i ∧
      writer_avoids (the_writer c) (memory c) p i
  | RCopy state p i k =>
      reading_ (memory c) = p ∧ fresh p i ∧
      writer_avoids (the_writer c) (memory c) p i ∧ (k < num_fields)%nat ∧
      agree k state (states_ (memory c) p i) ∧
      is_newer (states_ (memory c) p i) (old c) = true
  end.

Record invariant (c : Threads) (seq : bool → bool → nat) : Prop := {
  inv_cells p j :
    ¬ being_copied (the_writer c) p j →
    written c !! seq p j = Some (states_ (memory c) p j);
  inv_latest :
    (completed c <= S (seq (latest_ (memory c)) (slots_ (memory c) (latest_ (memory c)))))%nat;
  inv_seq p j : (seq p j < length (written c))%nat;
  inv_writer : writer_ok c seq;
  inv_reader : reader_ok c seq
}.

Lemma set_state_eq i j v states : set_state i j v states i j = v.
Proof. unfold set_state. by rewrite !eqb_reflx. Qed.

Lemma set_state_ne i j v states i' j' :
  ¬ (i = i' ∧ j = j') → set_state i j v states i' j' = states i' j'.
Proof. unfold set_state. intros H. by destruct i, i', j, j'; cbn; try done; naive_solver. Qed.

Lemma set_slot_eq i v slots : set_slot i v slots i = v.
Proof. unfold set_slot. by rewrite eqb_reflx. Qed.

Lemma set_slot_ne i v slots j : i ≠ j → set_slot i v slots j = slots j.
Proof. unfold set_slot. by destruct i, j. Qed.

(** The positions after a cell starts to be copied. *)
Definition set_seq (i j : bool) (n : nat) (seq : bool → bool → nat) : bool → bool → nat :=
  λ i' j', if Bool.eqb i i' && Bool.eqb j j' then n else seq i' j'.

Lemma set_seq_eq i j v seq : set_seq i j v seq i j = v.
Proof. unfold set_seq. by rewrite !eqb_reflx. Qed.

Lemma set_seq_ne i j v seq i' j' :
  ¬ (i = i' ∧ j = j') → set_seq i j v seq i' j' = seq i' j'.
Proof. unfold set_seq. intros H. by destruct i, i', j, j'; cbn; try done; naive_solver. Qed.

Lemma last_state_length c state :
  last_state c state → length (written c) = S (completed c) ∧
  written c !! completed c = Some state.
Proof.
  intros (ws & -> & ->). rewrite length_app, Nat.add_comm. split; [done|].
  by rewrite lookup_app_r, Nat.sub_diag by done.
Qed.

Lemma negb_ne b : negb b ≠ b.
Proof. by destruct b. Qed.

(** ** Preservation *)

Section Preservation.
Context (c : Threads) (seq : bool → bool → nat).
Hypothesis I : invariant c seq.

Lemma step_Write_ok state :
  the_writer c = WIdle →
  invariant (mkThreads (memory c) (WStart state) (the_reader c)
               (written c ++ [state]) (completed c) (seen c) (old c)) seq.
Proof using I.
  intros Hw. destruct I as [Hc Hl Hs Hwr [Hseen Hr]]. unfold writer_ok in Hwr.
  rewrite Hw in *. constructor; cbn.
  - intros p j _. rewrite lookup_app_l by apply Hs. apply Hc. naive_solver.
  - done.
  - intros p j. rewrite length_app. specialize (Hs p j). lia.
  - by exists (written c).
  - split; [done|]. cbn. destruct (the_reader c); naive_solver.
Qed.

Lemma step_Read_ok state :
  invariant (mkThreads (memory c) (the_writer c) (RStart state)
               (written c) (completed c) (completed c) state) seq.
Proof using I. destruct I as [Hc Hl Hs Hwr _]. by constructor. Qed.

(** A reader step that changes neither cells nor slots. *)
Lemma step_reader_ok r' s' :
  (∀ state, the_reader c ≠ RIdle state) → read_step (the_reader c) (memory c) = (r', s') →
  invariant (mkThreads s' (the_writer c) r' (written c) (completed c) (seen c) (old c)) seq.
Proof using I.
  intros Hne H. destruct I as [Hc Hl Hs Hwr [Hseen Hr]].
  assert (states_ s' = states_ (memory c) ∧ slots_ s' = slots_ (memory c) ∧
          latest_ s' = latest_ (memory c)) as (E1 & E2 & E3).
  { destruct (the_reader c); cbn in H; simplify_eq; done. }
  constructor; cbn; rewrite ?E1, ?E2, ?E3; [done|done|done| |].
  { unfold writer_ok in *. cbn. rewrite E1, E2. done. }
  split; [done|]. cbn. destruct (the_reader c) as [state|state|state p|state p|state p i|state p i k];
    cbn in H; simplify_eq.
  - naive_solver.
  - split; [done|]. lia.
  - naive_solver.
  - destruct Hr as (-> & Hrd & Hf). split_and!; try done.
    unfold writer_ok in Hwr. destruct (the_writer c); cbn; try done; intros ->;
      destruct Hwr as (_ & -> & _); apply negb_ne.
  - destruct (is_newer _ _) eqn:Hn; [|done].
    destruct Hr as (-> & Hrd & Hf & Ha). split_and!; try done;
      [unfold num_fields; lia|apply agree_0].
  - destruct Hr as (Hrd & Hf & Ha & Hk & Hag & Hnew).
    destruct (Nat.leb_spec k 3); [|done].
    split_and!; try done; [unfold num_fields; lia|by apply agree_copy].
Qed.

Lemma writer_start_ok state :
  the_writer c = WStart state →
  invariant (mkThreads (memory c) (WLoadSlot state (negb (reading_ (memory c))))
               (the_reader c) (written c) (completed c) (seen c) (old c)) seq.
Proof using I.
  intros Hw. destruct I as [Hc Hl Hs Hwr [Hseen Hr]]. unfold writer_ok in Hwr.
  rewrite Hw in *. constructor; try done. split; [done|]. cbn in *.
  destruct (the_reader c); try done; destruct Hr as (Hr1 & Hr2 & Hr3).
  - split_and!; try done; [naive_solver|]. cbn. intros <-. destruct Hr3 as [? _].
    subst. by destruct (negb_ne (reading_ (memory c))).
  - split_and!; try naive_solver. cbn. intros Hp. subst toread.
    by destruct (negb_ne (reading_ (memory c))).
Qed.

(** The writer chooses its cell: the one its slot does not name. *)
Lemma writer_load_slot_ok state p :
  the_writer c = WLoadSlot state p →
  let j := negb (slots_ (memory c) p) in
  invariant (mkThreads (memory c) (WCopy state p j 0)
               (the_reader c) (written c) (completed c) (seen c) (old c))
    (set_seq p j (completed c) seq).
Proof using I.
  intros Hw j. destruct I as [Hc Hl Hs Hwr [Hseen Hr]]. unfold writer_ok in Hwr.
  rewrite Hw in *. destruct (last_state_length _ _ Hwr) as [Hlen _].
  assert (∀ q, ¬ (p = q ∧ j = slots_ (memory c) q)) as Hslot.
  { intros q [<- Hj]. by destruct (negb_ne (slots_ (memory c) p)). }
  constructor; cbn.
  - intros q i Hq. rewrite set_seq_ne by done. apply Hc. naive_solver.
  - by rewrite set_seq_ne.
  - intros q i. destruct (decide (p = q ∧ j = i)) as [[<- <-]|Hne].
    + rewrite set_seq_eq. lia.
    + by rewrite set_seq_ne.
  - split_and!; try done; [unfold num_fields; lia|apply agree_0|].
    by rewrite set_seq_eq.
  - split; [done|]. cbn. destruct (the_reader c) as [ | |st q|st q|st q i|st q i k];
      try done; rewrite ?set_seq_ne by done; try done.
    + destruct Hr as (-> & Hrd & Hf & Ha). cbn in Ha.
      assert (¬ (p = q ∧ j = i)) as Hne.
      { intros [<- <-]. apply (Hslot p). by rewrite Ha. }
      rewrite set_seq_ne by done. split_and!; try done. cbn. intros ->. naive_solver.
    + destruct Hr as (Hrd & Hf & Ha & Hk & Hag & Hn). cbn in Ha.
      assert (¬ (p = q ∧ j = i)) as Hne.
      { intros [<- <-]. apply (Hslot p). by rewrite Ha. }
      rewrite set_seq_ne by done. split_and!; try done. cbn. intros ->. naive_solver.
Qed.

Lemma writer_copy_ok state p j k w' :
  the_writer c = WCopy state p j k →
  (S k < num_fields ∧ w' = WCopy state p j (S k) ∨
   S k = num_fields ∧ w' = WStoreSlot state p j)%nat →
  invariant (mkThreads
      ((memory c) <| states_ := set_state p j
         (copy_field k state (states_ (memory c) p j)) (states_ (memory c)) |>) w'
      (the_reader c) (written c) (completed c) (seen c) (old c)) seq.
Proof using I.
  intros Hw Hw'. destruct I as [Hc Hl Hs Hwr [Hseen Hr]]. unfold writer_ok in Hwr.
  rewrite Hw in *. destruct Hwr as (Hls & Hj & Hk & Hag & Hsq).
  pose proof (agree_copy k _ _ Hk Hag) as Hag'.
  destruct (last_state_length _ _ Hls) as [Hlen Hlast].
  constructor; cbn.
  - intros q i Hq. destruct (decide (p = q ∧ j = i)) as [[<- <-]|Hne].
    + destruct Hw' as [[_ ->]|[Hk' ->]]; [naive_solver|]. rewrite set_state_eq.
      rewrite Hk' in Hag'. rewrite (agree_all _ _ Hag').
      by replace (seq p j) with (completed c) by lia.
    + rewrite set_state_ne by done. apply Hc. naive_solver.
  - done.
  - done.
  - unfold writer_ok. cbn. destruct Hw' as [[Hk' ->]|[Hk' ->]]; split_and!; try done.
    by rewrite set_state_eq.
  - split; [done|]. cbn. destruct (the_reader c) as [ | |st q|st q|st q i|st q i k'];
      try done.
    + destruct Hr as (-> & Hrd & Hf & Ha). split_and!; try done.
      by destruct Hw' as [[_ ->]|[_ ->]].
    + destruct Hr as (Hrd & Hf & Ha & Hk'' & Hag2 & Hn). cbn in Ha.
      rewrite set_state_ne by naive_solver. split_and!; try done.
      by destruct Hw' as [[_ ->]|[_ ->]].
Qed.

Lemma writer_store_slot_ok state p j :
  the_writer c = WStoreSlot state p j →
  invariant (mkThreads ((memory c) <| slots_ := set_slot p j (slots_ (memory c)) |>)
      (WStoreLatest p) (the_reader c) (written c) (completed c) (seen c) (old c)) seq.
Proof using I.
  intros Hw. destruct I as [Hc Hl Hs Hwr [Hseen Hr]]. unfold writer_ok in Hwr.
  rewrite Hw in *. destruct Hwr as (Hls & Hj & Hsq).
  destruct (last_state_length _ _ Hls) as [Hlen _].
  assert (∀ q n, (n <= completed c)%nat → (n <= S (seq q (slots_ (memory c) q)))%nat →
    (n <= S (seq q (set_slot p j (slots_ (memory c)) q)))%nat) as Hmono.
  { intros q n Hn1 Hn2. destruct (decide (p = q)) as [<-|Hne].
    - rewrite set_slot_eq. lia.
    - by rewrite set_slot_ne. }
  constructor; cbn.
  - intros q i _. apply Hc. naive_solver.
  - by apply Hmono.
  - done.
  - rewrite set_slot_eq. split; lia.
  - split; [done|]. cbn. destruct (the_reader c); try naive_solver.
Qed.

Lemma writer_store_latest_ok p :
  the_writer c = WStoreLatest p →
  invariant (mkThreads ((memory c) <| latest_ := p |>) WIdle
      (the_reader c) (written c) (length (written c)) (seen c) (old c)) seq.
Proof using I.
  intros Hw. destruct I as [Hc Hl Hs Hwr [Hseen Hr]]. unfold writer_ok in Hwr.
  rewrite Hw in *. destruct Hwr as (Hlen & Hsq).
  constructor; cbn.
  - intros q i _. apply Hc. naive_solver.
  - lia.
  - done.
  - done.
  - split; [cbn; lia|]. cbn. destruct (the_reader c); naive_solver.
Qed.

Lemma step_writer_ok w' s' :
  the_writer c ≠ WIdle → write_step (the_writer c) (memory c) = (w', s') →
  ∃ seq', invariant (mkThreads s' w' (the_reader c) (written c)
      (match w' with WIdle => length (written c) | _ => completed c end)
      (seen c) (old c)) seq'.
Proof using I.
  intros Hne H. destruct (the_writer c) as [|st|st p|st p j k|st p j|p] eqn:Hw; [done|..];
    cbn [write_step] in H; simplify_eq.
  - exists seq. by apply writer_start_ok.
  - eexists. by apply (writer_load_slot_ok st p).
  - exists seq. pose proof (inv_writer _ _ I) as Hwr. unfold writer_ok in Hwr.
    rewrite Hw in Hwr. destruct Hwr as (_ & _ & Hk & _).
    destruct (Nat.ltb_spec (S k) num_fields).
    + apply (writer_copy_ok st p j k); [done|by left].
    + apply (writer_copy_ok st p j k); [done|right; split; [lia|done]].
  - exists seq. by apply (writer_store_slot_ok st p j).
  - exists seq. by apply writer_store_latest_ok.
Qed.
End Preservation.

Lemma step_invariant c c' seq : invariant c seq → step c c' → ∃ seq', invariant c' seq'.
Proof.
  intros I Hs. destruct Hs.
  - exists seq. by apply step_Write_ok.
  - by eapply step_writer_ok.
  - exists seq. by apply step_Read_ok.
  - exists seq. by apply step_reader_ok.
Qed.

Lemma init_invariant state : invariant (init_Threads state) (λ _ _, 0%nat).
Proof. constructor; cbn; try done; lia. Qed.

Lemma rtc_invariant c c' :
  rtc step c c' → (∃ seq, invariant c seq) → ∃ seq, invariant c' seq.
Proof.
  induction 1 as [|c1 c2 c3 Hs _ IH]; [done|]. intros [seq I].
  apply IH. by eapply step_invariant.
Qed.

Lemma reachable_invariant state c :
  rtc step (init_Threads state) c → ∃ seq, invariant c seq.
Proof. intros Hr. apply (rtc_invariant _ _ Hr). eexists. apply init_invariant. Qed.

(** [C13] A reader always gets a consistent and recent state.  Take any interleaving
    of the steps of the writer and the reader, whose copies are made field by
    field.  When a call of [Read] ends, the state it compared its [*state] with is
    one whole state passed to [Write] (or the initial one), not a mix of two, and
    not an older one than the last that was completely written when [Read] was
    called; [*state] is now that state if its generation is newer, and is unchanged
    otherwise. *)
Theorem Read_consistent_and_fresh initial c c' state :
  rtc step (init_Threads initial) c → step c c' →
  (∀ s, the_reader c ≠ RIdle s) → the_reader c' = RIdle state →
  ∃ n from, (seen c <= S n)%nat ∧ written c !! n = Some from ∧
    state = if is_newer from (old c) then from else old c.
Proof.
  intros Hrun Hs Hne Hidle. destruct (reachable_invariant _ _ Hrun) as [seq [Hc _ _ _ [_ Hr]]].
  destruct Hs as [|w' s' _ _| |r' s' _ H]; cbn in Hidle; try naive_solver.
  subst r'. destruct (the_reader c) as [st|st|st p|st p|st p i|st p i k];
    cbn [read_step] in H; simplify_eq.
  - by destruct (Hne state).
  - destruct Hr as (-> & _ & Hf & Ha). exists (seq p i), (states_ (memory c) p i).
    destruct (is_newer _ _) eqn:Hn; simplify_eq. split_and!; [done| |done].
    apply Hc. intros Hb. destruct (the_writer c); try done. cbn in *. naive_solver.
  - destruct Hr as (_ & Hf & Ha & Hk & Hag & Hn).
    exists (seq p i), (states_ (memory c) p i).
    destruct (Nat.ltb_spec (S k) num_fields); simplify_eq.
    split_and!; [done| |].
    + apply Hc. intros Hb. destruct (the_writer c); try done. cbn in *. naive_solver.
    + rewrite Hn. apply agree_all. replace num_fields with (S k) by lia.
      by apply agree_copy.
Qed.

(** ** Schedules *)

Inductive move : Type :=
  | MoveWrite (state : State)  (* the service calls [Write] *)
  | MoveWriter                 (* a step of [Write] *)
  | MoveRead (state : State)   (* the client calls [Read] *)
  | MoveReader                 (* a step of [Read] *).

Definition do_move (m : move) (c : Threads) : option Threads :=
  match m, the_writer c, the_reader c with
  | MoveWrite state, WIdle, _ =>
      Some (mkThreads (memory c) (WStart state) (the_reader c)
              (written c ++ [state]) (completed c) (seen c) (old c))
  | MoveWriter, WIdle, _ => None
  | MoveWriter, w, _ =>
      let '(w', s') := write_step w (memory c) in
      Some (mkThreads s' w' (the_reader c) (written c)
              (match w' with WIdle => length (written c) | _ => completed c end)
              (seen c) (old c))
  | MoveRead state, _, RIdle _ =>
      Some (mkThreads (memory c) (the_writer c) (RStart state)
              (written c) (completed c) (completed c) state)
  | MoveReader, _, RIdle _ => None
  | MoveReader, _, r =>
      let '(r', s') := read_step r (memory c) in
      Some (mkThreads s' (the_writer c) r' (written c) (completed c) (seen c) (old c))
  | _, _, _ => None
  end.

Lemma do_move_step m c c' : do_move m c = Some c' → step c c'.
Proof.
  unfold do_move. intros H.
  destruct m as [st| |st|].
  - destruct (the_writer c) eqn:Hw; simplify_eq. by apply step_Write.
  - assert (the_writer c ≠ WIdle) as Hne by (intros Hw; by rewrite Hw in H).
    destruct (write_step (the_writer c) (memory c)) as [w' s'] eqn:E.
    assert (c' = mkThreads s' w' (the_reader c) (written c)
      (match w' with WIdle => length (written c) | _ => completed c end)
      (seen c) (old c)) as ->.
    { destruct (the_writer c); try done; rewrite E in H; by simplify_eq. }
    by apply step_writer.
  - destruct (the_writer c) eqn:Hw, (the_reader c) eqn:Hr; simplify_eq;
      rewrite <- Hw; by eapply step_Read.
  - assert (∀ st, the_reader c ≠ RIdle st) as Hne
      by (intros st Hr; rewrite Hr in H; by destruct (the_writer c)).
    destruct (read_step (the_reader c) (memory c)) as [r' s'] eqn:E.
    assert (c' = mkThreads s' (the_writer c) r' (written c) (completed c) (seen c) (old c))
      as ->.
    { destruct (the_writer c), (the_reader c) as [st| | | | |]; rewrite ?E in H;
        simplify_eq; try done; by destruct (Hne st). }
    by apply step_reader.
Qed.

Fixpoint do_moves (ms : list move) (c : Threads) : option Threads :=
  match ms with
  | [] => Some c
  | m :: ms => c ← do_move m c; do_moves ms c
  end.

Lemma do_moves_steps ms c c' : do_moves ms c = Some c' → rtc step c c'.
Proof.
  revert c. induction ms as [|m ms IH]; intros c H; cbn in H; [by simplify_eq|].
  destruct (do_move m c) as [c1|] eqn:E; [|discriminate].
  eapply rtc_l; [by eapply do_move_step|]. by apply IH.
Qed.

(** A write overtakes a read that has already chosen its cell. *)
Definition example_moves : list move :=
  let s1 := mkState 1 10 kNoError kUnknown 1 in
  let s2 := mkState 2 20 kNoError kUnknown 2 in
  [MoveWrite s1] ++ replicate 9 MoveWriter ++
  [MoveRead init_State] ++ replicate 4 MoveReader ++
  [MoveWrite s2] ++ replicate 4 MoveWriter ++ replicate 2 MoveReader ++
  replicate 5 MoveWriter ++ replicate 2 MoveReader.

Example example_moves_result :
  match do_moves (example_moves ++ [MoveReader]) (init_Threads init_State) with
  | Some c => the_reader c = RIdle (mkState 1 10 kNoError kUnknown 1)
  | None => False
  end.
Proof. vm_compute. reflexivity. Qed.

Lemma Read_consistent_and_fresh_witness :
  ∃ c n from, rtc step (init_Threads init_State) c ∧
    (seen c <= S n)%nat ∧ written c !! n = Some from ∧
    mkState 1 10 kNoError kUnknown 1 = if is_newer from (old c) then from else old c.
Proof.
  destruct (do_moves example_moves (init_Threads init_State)) as [c|] eqn:E;
    [|vm_compute in E; discriminate].
  pose proof (do_moves_steps _ _ _ E) as Hrun.
  assert (∃ c', do_move MoveReader c = Some c' ∧ (∀ s, the_reader c ≠ RIdle s) ∧
    the_reader c' = RIdle (mkState 1 10 kNoError kUnknown 1)) as (c' & Hc' & Hne & Hidle).
  { vm_compute in E. injection E as <-. eexists. split; [vm_compute; reflexivity|].
    split; [intros s; discriminate|reflexivity]. }
  destruct (Read_consistent_and_fresh _ c c' _ Hrun (do_move_step _ _ _ Hc') Hne Hidle)
    as (n & from & H1 & H2 & H3).
  exists c, n, from. split; [exact Hrun|]. split; [exact H1|]. split; [exact H2|exact H3].
Defined.
