(* ===== verification/RingBuffer.v ===== *)
(** * gpu/command_buffer/client/ring_buffer.{h,cc}

    [RingBuffer] allocates blocks at the end of a circular buffer and frees them
    from the beginning, in order, waiting for their tokens.  The [std::deque] of
    blocks is a list, pointers are addresses in [Z], [Offset] and [unsigned int]
    wrap at 32 bits.  The helper is any [TokenHelper]. *)

From S2P Require Import Prelude Tokens.

Inductive BlockState : Type :=
  | IN_USE
  | PADDING
  | FREE_PENDING_TOKEN.
#[export] Instance BlockState_eq_dec : EqDecision BlockState.
Proof. solve_decision. Defined.

Record Block : Type := mkBlock {
  offset : Z;
  size : Z;
  token : Z;
  state : BlockState
}.
#[export] Instance eta_Block : Eta Block := λ b,
  mkBlock (offset b) (size b) (token b) (state b).

(** The constructor of [Block]. *)
Definition new_Block (offset size : Z) (state : BlockState) : Block :=
  mkBlock offset size 0 state.

Record RingBuffer : Type := mkRingBuffer {
  blocks_ : list Block;
  base_offset_ : Z;
  size_ : Z;
  free_offset_ : Z;
  in_use_offset_ : Z;
  alignment_ : Z;
  base_ : Z
}.
#[export] Instance eta_RingBuffer : Eta RingBuffer := λ r,
  mkRingBuffer (blocks_ r) (base_offset_ r) (size_ r) (free_offset_ r) (in_use_offset_ r)
    (alignment_ r) (base_ r).

(** The constructor. *)
Definition init_RingBuffer (alignment base_offset size base : Z) : RingBuffer :=
  {| blocks_ := [];
     base_offset_ := base_offset;
     size_ := size;
     free_offset_ := 0;
     in_use_offset_ := 0;
     alignment_ := alignment;
     base_ := base - base_offset |}.

Definition GetPointer (offset : Z) (r : RingBuffer) : Z := base_ r + offset.
Definition GetOffset (pointer : Z) (r : RingBuffer) : Z := u32 (pointer - base_ r).

Definition RoundToAlignment (size : Z) (r : RingBuffer) : Z :=
  Z.land (u32 (size + alignment_ r - 1)) (Z.lnot (alignment_ r - 1)).

Definition GetLargestFreeOrPendingSize (r : RingBuffer) : Z := size_ r.

Definition is_in_use (b : Block) : bool := bool_decide (state b = IN_USE).
Definition is_padding (b : Block) : bool := bool_decide (state b = PADDING).

Section Operations.
Context {H : Type} {helper : TokenHelper H}.

Definition FreeOldestBlock (r : RingBuffer) (helper_ : H) : outcome (RingBuffer * H) :=
  match blocks_ r with
  | [] => DcheckFailed
  | block :: rest =>
      DCHECK (negb (is_in_use block)) ;;
      let helper_ :=
        if bool_decide (state block = FREE_PENDING_TOKEN)
        then WaitForToken (token block) helper_ else helper_ in
      let in_use := u32 (in_use_offset_ r + size block) in
      let in_use := if in_use =? size_ r then 0 else in_use in
      let '(in_use, free) :=
        if in_use =? free_offset_ r then (0, 0) else (in_use, free_offset_ r) in
      Done (r <| in_use_offset_ := in_use |> <| free_offset_ := free |>
              <| blocks_ := rest |>, helper_)
  end.

(** The loop of [GetLargestFreeSizeNoWaiting], over the blocks from the oldest on. *)
Fixpoint free_passed (fuel : nat) (last_token_read : Z) (r : RingBuffer) (helper_ : H) :
    outcome (option (RingBuffer * H)) :=
  match fuel with
  | O => Done None
  | S fuel =>
      match blocks_ r with
      | [] => Done (Some (r, helper_))
      | block :: _ =>
          if (last_token_read <? token block) || is_in_use block
          then Done (Some (r, helper_))
          else
            rh ← FreeOldestBlock r helper_;
            free_passed fuel last_token_read rh.1 rh.2
      end
  end.

(** What [GetLargestFreeSizeNoWaiting] computes after its loop. *)
Definition largest_free_size (r : RingBuffer) : outcome Z :=
  if free_offset_ r =? in_use_offset_ r then
    match blocks_ r with
    | [] => DCHECK (free_offset_ r =? 0) ;; Done (size_ r)
    | _ => Done 0
    end
  else if in_use_offset_ r <? free_offset_ r then
    Done (Z.max (u32 (size_ r - free_offset_ r)) (in_use_offset_ r))
  else Done (u32 (in_use_offset_ r - free_offset_ r)).

(** One iteration per block and one to leave the loop. *)
Definition GetLargestFreeSizeNoWaiting (r : RingBuffer) (helper_ : H) :
    outcome (option (Z * RingBuffer * H)) :=
  let last := u32 (last_token_read helper_) in
  rh ← free_passed (S (length (blocks_ r))) last r helper_;
  match rh with
  | None => Done None
  | Some (r, helper_) => n ← largest_free_size r; Done (Some (n, r, helper_))
  end.

Definition GetTotalFreeSizeNoWaiting (r : RingBuffer) (helper_ : H) :
    outcome (option (Z * RingBuffer * H)) :=
  x ← GetLargestFreeSizeNoWaiting r helper_;
  match x with
  | None => Done None
  | Some (largest_free_size, r, helper_) =>
      Done (Some (if in_use_offset_ r <? free_offset_ r
                  then u32 (size_ r - free_offset_ r + in_use_offset_ r)
                  else largest_free_size, r, helper_))
  end.

(** The waiting loop of [Alloc]. *)
Fixpoint wait_for_room (fuel : nat) (size : Z) (r : RingBuffer) (helper_ : H) :
    outcome (option (RingBuffer * H)) :=
  match fuel with
  | O => Done None
  | S fuel =>
      x ← GetLargestFreeSizeNoWaiting r helper_;
      match x with
      | None => Done None
      | Some (largest, r, helper_) =>
          if largest <? size then
            rh ← FreeOldestBlock r helper_;
            wait_for_room fuel size rh.1 rh.2
          else Done (Some (r, helper_))
      end
  end.

(** [Alloc] after its waiting loop: the padding and the block. *)
Definition alloc_block (size : Z) (r : RingBuffer) : Z * RingBuffer :=
  let r :=
    if size_ r <? u32 (size + free_offset_ r) then
      r <| blocks_ := blocks_ r ++ [new_Block (free_offset_ r)
             (u32 (size_ r - free_offset_ r)) PADDING] |>
        <| free_offset_ := 0 |>
    else r in
  let offset := free_offset_ r in
  let free := u32 (free_offset_ r + size) in
  let r := r <| blocks_ := blocks_ r ++ [new_Block offset size IN_USE] |>
             <| free_offset_ := if free =? size_ r then 0 else free |> in
  (GetPointer (u32 (offset + base_offset_ r)) r, r).

Definition Alloc (size : Z) (r : RingBuffer) (helper_ : H) :
    outcome (option (Z * RingBuffer * H)) :=
  DCHECK (size <=? size_ r) ;;
  DCHECK (match list.last (blocks_ r) with Some b => negb (is_in_use b) | None => true end) ;;
  let size := if size =? 0 then 1 else size in
  let size := RoundToAlignment size r in
  rh ← wait_for_room (S (length (blocks_ r))) size r helper_;
  match rh with
  | None => Done None
  | Some (r, helper_) =>
      let '(pointer, r) := alloc_block size r in
      Done (Some (pointer, r, helper_))
  end.

(** The search from the newest block for one at [offset']: the blocks before it,
    the block and the blocks after it. *)
Fixpoint find_block (offset' : Z) (blocks : list Block) :
    option (list Block * Block * list Block) :=
  match blocks with
  | [] => None
  | b :: rest =>
      match find_block offset' rest with
      | Some (before, b', after) => Some (b :: before, b', after)
      | None => if offset b =? offset' then Some ([], b, rest) else None
      end
  end.

Definition FreePendingToken (pointer token' : Z) (r : RingBuffer) : outcome RingBuffer :=
  let offset' := u32 (GetOffset pointer r - base_offset_ r) in
  DCHECK (negb (bool_decide (blocks_ r = []))) ;;
  match find_block offset' (blocks_ r) with
  | None => DcheckFailed
  | Some (before, block, after) =>
      DCHECK (is_in_use block) ;;
      Done (r <| blocks_ := before ++
        block <| token := u32 token' |> <| state := FREE_PENDING_TOKEN |> :: after |>)
  end.

(** The first loop of [DiscardBlock], on the blocks from the newest on: what is left
    of them and of [free_offset_]. *)
Fixpoint discard_back (newest_first : list Block) (free : Z) : list Block * Z :=
  match newest_first with
  | b :: rest => if is_padding b then discard_back rest (offset b) else (newest_first, free)
  | [] => ([], free)
  end.

(** Its second loop, on the blocks from the oldest on and [in_use_offset_]. *)
Fixpoint discard_front (blocks : list Block) (in_use : Z) : list Block * Z :=
  match blocks with
  | b :: rest =>
      if is_padding b
      then match rest with [] => ([], in_use) | b' :: _ => discard_front rest (offset b') end
      else (blocks, in_use)
  | [] => ([], in_use)
  end.

(** Both loops, and the reset of an empty buffer. *)
Definition trim (r : RingBuffer) : RingBuffer :=
  let '(newest_first, free) := discard_back (reverse (blocks_ r)) (free_offset_ r) in
  let '(blocks, in_use) := discard_front (reverse newest_first) (in_use_offset_ r) in
  let empty := bool_decide (blocks = []) in
  r <| blocks_ := blocks |>
    <| in_use_offset_ := if empty then 0 else in_use |>
    <| free_offset_ := if empty then 0 else free |>.

Definition DiscardBlock (pointer : Z) (r : RingBuffer) : outcome RingBuffer :=
  let offset' := u32 (GetOffset pointer r - base_offset_ r) in
  DCHECK (negb (bool_decide (blocks_ r = []))) ;;
  match find_block offset' (blocks_ r) with
  | None => DcheckFailed
  | Some (before, block, after) =>
      DCHECK (negb (is_padding block)) ;;
      Done (trim (r <| blocks_ := before ++ block <| state := PADDING |> :: after |>))
  end.

(** The destructor. *)
Fixpoint free_all (fuel : nat) (r : RingBuffer) (helper_ : H) : outcome (option H) :=
  match fuel with
  | O => Done None
  | S fuel =>
      match blocks_ r with
      | [] => Done (Some helper_)
      | _ => rh ← FreeOldestBlock r helper_; free_all fuel rh.1 rh.2
      end
  end.

Definition destroy_RingBuffer (r : RingBuffer) (helper_ : H) : outcome (option H) :=
  free_all (S (length (blocks_ r))) r helper_.

End Operations.

(** ** Where the blocks lie

    Blocks are laid out one after the other around the buffer.  The position of a
    block is its distance from the start of the buffer, counted past the end when
    the block comes after the wrap-around; [wrap] is its offset. *)
Definition wrap (n p : Z) : Z := if p <? n then p else p - n.

Fixpoint chain (n p : Z) (bs : list Block) : Prop :=
  match bs with
  | [] => True
  | b :: bs => offset b = wrap n p ∧ 0 < size b ∧ offset b + size b <= n ∧
               chain n (p + size b) bs
  end.

Fixpoint total (bs : list Block) : Z :=
  match bs with [] => 0 | b :: bs => size b + total bs end.

(** Only the newest block may be in use. *)
Fixpoint only_last_in_use (bs : list Block) : Prop :=
  match bs with
  | [] => True
  | b :: bs => (bs = [] ∨ is_in_use b = false) ∧ only_last_in_use bs
  end.

Definition disjoint (o k : Z) (b : Block) : Prop :=
  o + k <= offset b ∨ offset b + size b <= o.

(** What the constructor's arguments must satisfy: a power of two as alignment, at
    most 2^31 bytes, addressed by 32-bit offsets. *)
Record valid_params (r : RingBuffer) : Prop := {
  vp_size : 0 < size_ r <= 2147483648;
  vp_base : 0 <= base_offset_ r ∧ base_offset_ r + size_ r <= u32_max;
  vp_align : ∃ k, 0 <= k <= 30 ∧ alignment_ r = 2 ^ k
}.

Record Inv (r : RingBuffer) : Prop := {
  inv_params : valid_params r;
  inv_chain : chain (size_ r) (in_use_offset_ r) (blocks_ r);
  inv_start : 0 <= in_use_offset_ r < size_ r;
  inv_total : total (blocks_ r) <= size_ r;
  inv_free : free_offset_ r = wrap (size_ r) (in_use_offset_ r + total (blocks_ r));
  inv_empty : blocks_ r = [] → in_use_offset_ r = 0;
  inv_last : only_last_in_use (blocks_ r);
  inv_aligned : Forall (λ b, (alignment_ r | offset b)) (blocks_ r);
  inv_free_aligned : (alignment_ r | free_offset_ r)
}.

(** *** Lists of blocks *)
Lemma total_blocks_app a b : total (a ++ b) = total a + total b.
Proof. induction a; cbn; lia. Qed.

Lemma chain_app n p a b : chain n p (a ++ b) ↔ chain n p a ∧ chain n (p + total a) b.
Proof.
  revert p. induction a as [|x a IH]; intros p; cbn; [rewrite Z.add_0_r; tauto|].
  rewrite IH. replace (p + (size x + total a)) with (p + size x + total a) by lia. tauto.
Qed.

Lemma chain_total n p bs : chain n p bs → 0 <= total bs ∧ (total bs = 0 → bs = []).
Proof.
  revert p. induction bs as [|b bs IH]; intros p; cbn; [done|].
  intros (_ & Hb & _ & Hc). destruct (IH _ Hc). split; intros; lia.
Qed.

(** Positions past the end can be counted from the start of the next lap. *)
Lemma chain_rebase n p bs :
  n <= p → p + total bs <= 2 * n → chain n p bs → chain n (p - n) bs.
Proof.
  revert p. induction bs as [|b bs IH]; intros p Hp Ht; cbn in *; [done|].
  intros (Ho & Hs & Hn & Hc). pose proof (chain_total _ _ _ Hc) as [].
  split_and!; [|done..|].
  - rewrite Ho. unfold wrap. destruct (Z.ltb_spec p n), (Z.ltb_spec (p - n) n); lia.
  - replace (p - n + size b) with (p + size b - n) by lia. apply IH; [lia..|done].
Qed.

(** A region of the same lap after all the blocks shares no byte with them. *)
Lemma chain_disjoint n p0 p q k bs :
  0 <= p0 < n → p0 <= p → p + total bs <= q → q + k <= p0 + n → 0 < k →
  wrap n q + k <= n → chain n p bs → Forall (disjoint (wrap n q) k) bs.
Proof.
  intros Hp0. revert p. induction bs as [|b bs IH]; intros p Hp Hq Hk Hk0 Hw; cbn.
  - intros _. constructor.
  - intros (Ho & Hs & Hn & Hc). pose proof (chain_total _ _ _ Hc) as [].
    cbn in Hq. constructor; [|apply (IH (p + size b)); [lia..|done|done]].
    unfold disjoint. rewrite Ho in Hn |- *. unfold wrap in *.
    destruct (Z.ltb_spec q n), (Z.ltb_spec p n); lia.
Qed.

(** Every byte between the oldest block and the free space is in a block. *)
Lemma chain_cover n p x bs :
  chain n p bs → p <= x < p + total bs → 
  ∃ b, b ∈ bs ∧ offset b <= wrap n x < offset b + size b.
Proof.
  revert p. induction bs as [|b bs IH]; intros p; cbn; [lia|].
  intros (Ho & Hs & Hn & Hc) Hx. destruct (decide (x < p + size b)) as [Hlt|Hge].
  - exists b. split; [left|]. rewrite Ho in Hn |- *. unfold wrap in *.
    destruct (Z.ltb_spec x n), (Z.ltb_spec p n); lia.
  - destruct (IH _ Hc) as (b' & Hb' & Hr); [lia|]. exists b'. split; [by right|done].
Qed.

Lemma only_last_app a b :
  only_last_in_use (a ++ b) ↔
  (b = [] → only_last_in_use a) ∧
  (b ≠ [] → Forall (λ x, is_in_use x = false) a) ∧ only_last_in_use b.
Proof.
  destruct b as [|y b]; [rewrite app_nil_r; cbn; naive_solver|].
  induction a as [|x a IH]; cbn [app only_last_in_use]; [naive_solver|].
  rewrite IH, list.Forall_cons. assert (a ++ y :: b ≠ []) by by destruct a. naive_solver.
Qed.

(** The parameters an operation never changes. *)
Definition same_params (r r' : RingBuffer) : Prop :=
  size_ r' = size_ r ∧ base_offset_ r' = base_offset_ r ∧
  alignment_ r' = alignment_ r ∧ base_ r' = base_ r.

Lemma valid_params_same r r' : same_params r r' → valid_params r → valid_params r'.
Proof. intros (E1 & E2 & E3 & E4) []. split; rewrite ?E1, ?E2, ?E3; done. Qed.

(** ** Freeing from the front *)
Section Freeing.
Context {H : Type} {helper : TokenHelper H}.
Implicit Types (r : RingBuffer) (h : H).

(** The blocks [bs] may be given back when the helper is in state [h]. *)
Definition passed h (bs : list Block) : Prop :=
  ∀ b, b ∈ bs → state b = FREE_PENDING_TOKEN → HasTokenPassed (token b) h = true.

(** [r] became [r'] and [h] became [h'] by giving the blocks [dropped] back. *)
Definition dropped_by (dropped : list Block) r h r' h' : Prop :=
  blocks_ r = dropped ++ blocks_ r' ∧ same_params r r' ∧ Inv r' ∧
  Forall (λ b, is_in_use b = false) dropped ∧ passed h' dropped ∧
  (∀ t, HasTokenPassed t h = true → HasTokenPassed t h' = true).

Lemma dropped_refl r h : Inv r → dropped_by [] r h r h.
Proof.
  intros. split_and!; [done|done|done|constructor| |done].
  intros b Hb. by apply elem_of_nil in Hb.
Qed.

Lemma dropped_trans d1 d2 r1 r2 r3 h1 h2 h3 :
  dropped_by d1 r1 h1 r2 h2 → dropped_by d2 r2 h2 r3 h3 →
  dropped_by (d1 ++ d2) r1 h1 r3 h3.
Proof.
  intros (E1 & (? & ? & ? & ?) & _ & F1 & P1 & M1) (E2 & (? & ? & ? & ?) & I & F2 & P2 & M2).
  split_and!; [by rewrite E1, E2, (assoc_L (++))| |done|by apply list.Forall_app| |auto].
  - split_and!; congruence.
  - intros b [Hb|Hb]%elem_of_app Hs; [apply M2|]; auto.
Qed.

(** Case analysis on where a position wraps around. *)
Ltac wrap_lia :=
  unfold wrap in *;
  repeat match goal with
  | |- context [?a <? ?b] => destruct (Z.ltb_spec a b)
  | H : context [?a <? ?b] |- _ => destruct (Z.ltb_spec a b)
  end; lia.

(** The offsets behind the oldest block. *)
Lemma drop_first_offsets r b rest :
  Inv r → blocks_ r = b :: rest →
  let iu := wrap (size_ r) (in_use_offset_ r + size b) in
  (if u32 (in_use_offset_ r + size b) =? size_ r then 0 else u32 (in_use_offset_ r + size b)) = iu ∧
  (iu =? free_offset_ r) = bool_decide (rest = []).
Proof.
  intros [[Hn Hbase Ha] Hc Hs Ht Hf He Hl Hal Hfa] E iu. rewrite E in *. cbn in Hc, Ht, Hf.
  destruct Hc as (Ho & Hsz & Hend & Hc). pose proof (chain_total _ _ _ Hc) as [H0 H1].
  assert (wrap (size_ r) (in_use_offset_ r) = in_use_offset_ r) as Ew by wrap_lia.
  rewrite Ew in Ho. rewrite u32_small by auto with machine. split.
  - subst iu. destruct (Z.eqb_spec (in_use_offset_ r + size b) (size_ r)); wrap_lia.
  - case_bool_decide as Er; [subst; cbn in *; rewrite Hf, Z.add_0_r; apply Z.eqb_refl|].
    apply Z.eqb_neq. assert (total rest ≠ 0) by (intros Ez; by apply Er, H1). subst iu. wrap_lia.
Qed.

(** The ring buffer without its oldest block. *)
Lemma drop_first_Inv r b rest :
  Inv r → blocks_ r = b :: rest →
  Inv (if bool_decide (rest = [])
       then r <| in_use_offset_ := 0 |> <| free_offset_ := 0 |> <| blocks_ := rest |>
       else r <| in_use_offset_ := wrap (size_ r) (in_use_offset_ r + size b) |>
              <| free_offset_ := free_offset_ r |> <| blocks_ := rest |>).
Proof.
  intros [[Hn Hbase Ha] Hc Hs Ht Hf He Hl Hal Hfa] E. rewrite E in *. cbn in Hc, Ht, Hf, Hl.
  destruct Hc as (Ho & Hsz & Hend & Hc). pose proof (chain_total _ _ _ Hc) as [H0 H1].
  apply Forall_cons_1 in Hal as [Hal1 Hal2]. destruct Hl as [_ Hl].
  assert (wrap (size_ r) (in_use_offset_ r) = in_use_offset_ r) as Ew by wrap_lia.
  rewrite Ew in Ho. destruct r as [bs bo n fo io al ba]. cbn in *.
  case_bool_decide as Er; split; cbn in *; try done.
  - by subst rest.
  - lia.
  - subst rest. cbn in *. lia.
  - subst rest. cbn. wrap_lia.
  - apply Z.divide_0_r.
  - unfold wrap. destruct (Z.ltb_spec (io + size b) n); [done|]. apply chain_rebase; [lia..|done].
  - wrap_lia.
  - lia.
  - wrap_lia.
Qed.

Lemma FreeOldestBlock_spec r h b rest :
  Inv r → blocks_ r = b :: rest → is_in_use b = false →
  ∃ r' h', FreeOldestBlock r h = Done (r', h') ∧ dropped_by [b] r h r' h' ∧ blocks_ r' = rest.
Proof.
  intros HI E Hb. destruct (drop_first_offsets r b rest HI E) as [Eiu Eq].
  pose proof (drop_first_Inv r b rest HI E) as HI'.
  unfold FreeOldestBlock. rewrite E, Hb, Eiu, Eq. cbn [negb DCHECK mbind outcome_bind].
  set (h' := if bool_decide _ then _ else h).
  assert (∀ t, HasTokenPassed t h = true → HasTokenPassed t h' = true) as Hmono.
  { intros t Hp. subst h'. destruct (bool_decide (state b = FREE_PENDING_TOKEN));
      [by apply HasTokenPassed_mono|done]. }
  assert (passed h' [b]) as Hpass.
  { intros x ->%list_elem_of_singleton Hx. subst h'. rewrite bool_decide_eq_true_2 by done.
    apply HasTokenPassed_wait. }
  clearbody h'. destruct (bool_decide (rest = [])); eexists _, h'; (split; [reflexivity|]);
    (split; [|reflexivity]); unfold dropped_by, same_params; cbn; split_and!; try done; by repeat constructor.
Qed.

(** [free_passed] gives back exactly the oldest blocks that are not in use and whose
    token the helper has read. *)
Definition may_pass (last : Z) (b : Block) : bool :=
  negb ((last <? token b) || is_in_use b).

Lemma free_passed_spec fuel last r h :
  Inv r → (length (blocks_ r) < fuel)%nat →
  ∃ d r' h', free_passed fuel last r h = Done (Some (r', h')) ∧ dropped_by d r h r' h' ∧
    Forall (λ b, may_pass last b = true) d ∧
    (∀ b, head (blocks_ r') = Some b → may_pass last b = false).
Proof.
  revert r h. induction fuel as [|fuel IH]; intros r h HI Hf; [lia|].
  cbn [free_passed]. destruct (blocks_ r) as [|b rest] eqn:E.
  { exists [], r, h. split_and!; [done|by apply dropped_refl|constructor|by rewrite E]. }
  destruct ((last <? token b) || is_in_use b) eqn:Eb.
  { exists [], r, h. split_and!; [done|by apply dropped_refl|constructor|].
    rewrite E. intros ? [= <-]. unfold may_pass. by rewrite Eb. }
  pose proof Eb as [_ Hb]%orb_false_iff.
  destruct (FreeOldestBlock_spec r h b rest HI E Hb) as (r1 & h1 & E1 & Hd1 & Er1).
  rewrite E1. cbn [mbind outcome_bind fst snd].
  destruct (IH r1 h1) as (d & r' & h' & E2 & Hd2 & Hp & Hh).
  { by destruct Hd1 as (_ & _ & ? & _). }
  { rewrite Er1. cbn in Hf. lia. }
  exists (b :: d), r', h'. split_and!; [done| |by constructor; [unfold may_pass; rewrite Eb|]|done].
  by apply (dropped_trans [b] d r r1 r' h h1 h').
Qed.

(** There is room for [k] bytes: a range of the buffer that no block touches. *)
Definition free_room r (k : Z) : Prop :=
  ∃ o, 0 <= o ∧ o + k <= size_ r ∧ Forall (disjoint o k) (blocks_ r).

(** Bytes of a free range are at positions that no block covers. *)
Lemma free_room_positions r o k x :
  Inv r → Forall (disjoint o k) (blocks_ r) → o <= wrap (size_ r) x < o + k →
  ¬ in_use_offset_ r <= x < in_use_offset_ r + total (blocks_ r).
Proof.
  intros HI Ho Hx Hin. destruct HI.
  destruct (chain_cover _ _ x _ inv_chain0) as (b & Hb & Hr); [done|].
  rewrite list.Forall_forall in Ho. destruct (Ho b Hb); lia.
Qed.

(** What [largest_free_size] returns: [m] is the largest size that has room, and where that
    room is; and how the total of the free bytes is counted from it. *)
Definition largest_free (r : RingBuffer) (m : Z) : Prop :=
  0 <= m <= size_ r ∧
  (blocks_ r = [] → m = size_ r) ∧ (∀ k, 0 < k → k <= m ↔ free_room r k) ∧
  (∀ k, 0 < k <= m → free_offset_ r + k <= size_ r ∧
                     free_offset_ r + k <= free_offset_ r + (size_ r - total (blocks_ r)) ∨
                     size_ r < free_offset_ r + k ∧ k <= in_use_offset_ r < free_offset_ r) ∧
  (if in_use_offset_ r <? free_offset_ r
   then u32 (size_ r - free_offset_ r + in_use_offset_ r) else m)
    = size_ r - total (blocks_ r).

(** No position of free room is among the blocks. *)
Lemma free_position r o k x :
  Inv r → Forall (disjoint o k) (blocks_ r) → o <= wrap (size_ r) x < o + k →
  x < in_use_offset_ r ∨ in_use_offset_ r + total (blocks_ r) <= x.
Proof. intros HI Ho Hx. pose proof (free_room_positions r o k x HI Ho Hx). lia. Qed.

(** There is room behind the blocks. *)
Lemma room_behind r q k :
  Inv r → in_use_offset_ r + total (blocks_ r) <= q → 0 < k →
  q + k <= size_ r + in_use_offset_ r → wrap (size_ r) q + k <= size_ r →
  free_room r k.
Proof.
  intros [[Hn _ _] Hc Hs Ht _ _ _ _ _] Hq Hk Hqk Hw. pose proof (chain_total _ _ _ Hc) as [H0 _].
  exists (wrap (size_ r) q). split_and!; [wrap_lia|done|].
  apply (chain_disjoint _ (in_use_offset_ r) (in_use_offset_ r)); [lia..|done].
Qed.

Lemma largest_free_size_empty r :
  Inv r → blocks_ r = [] → largest_free_size r = Done (size_ r) ∧ largest_free r (size_ r).
Proof.
  intros HI Eb. pose proof HI as [[Hn Hbase Ha] Hc Hs Ht Hf He _ _ _].
  unfold largest_free_size, largest_free. rewrite (He Eb), Eb in *. cbn [total] in *.
  assert (free_offset_ r = 0) as Ef by wrap_lia. rewrite Ef. cbn.
  split_and!; [done|lia|lia|done| |intros; lia|lia]. intros k Hk.
  split; [|intros (o & ? & ? & _); lia].
  intros Hle. exists 0. rewrite Eb. split_and!; [lia|lia|constructor].
Qed.

Lemma largest_free_size_full r :
  Inv r → blocks_ r ≠ [] → free_offset_ r = in_use_offset_ r →
  largest_free_size r = Done 0 ∧ largest_free r 0.
Proof.
  intros HI Eb Ee. pose proof HI as [[Hn Hbase Ha] Hc Hs Ht Hf He _ _ _].
  pose proof (chain_total _ _ _ Hc) as [H0 H1].
  assert (total (blocks_ r) = size_ r) as Htot.
  { assert (total (blocks_ r) ≠ 0) as Hnz by (intros Hz; by apply Eb, H1). wrap_lia. }
  unfold largest_free_size, largest_free. rewrite Ee, Z.eqb_refl, Z.ltb_irrefl.
  split; [by destruct (blocks_ r)|]. split_and!; [lia|lia|done| |lia|lia].
  intros k Hk. split; [lia|]. intros (o & Ho & Hok & Hd). exfalso.
  destruct (decide (in_use_offset_ r <= o)).
  - destruct (free_position r o k o HI Hd); [wrap_lia|lia..].
  - destruct (free_position r o k (o + size_ r) HI Hd); [wrap_lia|lia..].
Qed.

(** The blocks do not reach the end of the buffer. *)
Lemma largest_free_size_straight r :
  Inv r → in_use_offset_ r < free_offset_ r →
  largest_free_size r = Done (Z.max (size_ r - free_offset_ r) (in_use_offset_ r)) ∧
  largest_free r (Z.max (size_ r - free_offset_ r) (in_use_offset_ r)).
Proof.
  intros HI Hlt. pose proof HI as [[Hn Hbase Ha] Hc Hs Ht Hf He _ _ _].
  pose proof (chain_total _ _ _ Hc) as [H0 _].
  assert (free_offset_ r = in_use_offset_ r + total (blocks_ r) ∧ free_offset_ r < size_ r) as [Ef Hfs]
    by wrap_lia.
  unfold largest_free_size, largest_free. rewrite !(proj2 (Z.ltb_lt _ _) Hlt), (proj2 (Z.eqb_neq _ _)) by lia.
  rewrite !u32_small by auto with machine.
  split_and!; [done|lia|lia| | |lia|lia].
  { intros Eb. rewrite (He Eb), Eb in *. cbn [total] in *. lia. }
  intros k Hk. split.
  - intros [Hle|Hle]%Z.max_le;
      [apply (room_behind r (free_offset_ r))|apply (room_behind r (size_ r))]; (done || lia || wrap_lia).
  - intros (o & Ho & Hok & Hd). apply Z.max_le_iff.
    assert (∀ x, o <= x < o + k → x < in_use_offset_ r ∨ free_offset_ r <= x) as Hx.
    { intros x Hx. rewrite Ef. apply (free_position r o k x HI Hd). wrap_lia. }
    pose proof (Hx o ltac:(lia)). pose proof (Hx (o + k - 1) ltac:(lia)).
    destruct (decide (o < in_use_offset_ r)) as [Hi|]; [|lia].
    destruct (decide (in_use_offset_ r < o + k)) as [Hk'|]; [|lia].
    pose proof (Hx (in_use_offset_ r) ltac:(lia)). lia.
Qed.

(** The blocks wrap around. *)
Lemma largest_free_size_wrapped r :
  Inv r → free_offset_ r < in_use_offset_ r →
  largest_free_size r = Done (in_use_offset_ r - free_offset_ r) ∧
  largest_free r (in_use_offset_ r - free_offset_ r).
Proof.
  intros HI Hge. pose proof HI as [[Hn Hbase Ha] Hc Hs Ht Hf He _ _ _].
  pose proof (chain_total _ _ _ Hc) as [H0 _].
  assert (free_offset_ r + size_ r = in_use_offset_ r + total (blocks_ r) ∧ 0 <= free_offset_ r) as [Ef Hf0]
    by wrap_lia.
  unfold largest_free_size, largest_free. rewrite !(proj2 (Z.ltb_ge _ _)), (proj2 (Z.eqb_neq _ _)) by lia.
  rewrite u32_small by auto with machine.
  split_and!; [done|lia|lia| | |lia|lia].
  { intros Eb. rewrite (He Eb), Eb in *. cbn [total] in *. lia. }
  intros k Hk. split.
  - intros Hle. apply (room_behind r (free_offset_ r + size_ r)); (done || lia || wrap_lia).
  - intros (o & Ho & Hok & Hd).
    assert (∀ x, o <= x < o + k → free_offset_ r <= x < in_use_offset_ r) as Hx.
    { intros x Hx. split.
      - destruct (free_position r o k (x + size_ r) HI Hd); [wrap_lia|lia..].
      - destruct (free_position r o k x HI Hd); [wrap_lia|lia..]. }
    pose proof (Hx o ltac:(lia)). pose proof (Hx (o + k - 1) ltac:(lia)). lia.
Qed.

Lemma largest_free_size_spec r :
  Inv r → ∃ m, largest_free_size r = Done m ∧ largest_free r m.
Proof.
  intros HI. destruct (Z.lt_trichotomy (free_offset_ r) (in_use_offset_ r)) as [Hlt|[Heq|Hgt]].
  - by eexists; apply largest_free_size_wrapped.
  - destruct (decide (blocks_ r = [])); eexists;
      [by apply largest_free_size_empty|by apply largest_free_size_full].
  - by eexists; apply largest_free_size_straight.
Qed.

Definition none_in_use (bs : list Block) : Prop := Forall (λ b, is_in_use b = false) bs.

Lemma GetLargestFreeSizeNoWaiting_spec r h :
  Inv r →
  ∃ d m r' h', GetLargestFreeSizeNoWaiting r h = Done (Some (m, r', h')) ∧
    dropped_by d r h r' h' ∧ largest_free_size r' = Done m ∧
    Forall (λ b, may_pass (u32 (last_token_read h)) b = true) d ∧
    (∀ b, head (blocks_ r') = Some b → may_pass (u32 (last_token_read h)) b = false).
Proof.
  intros HI. unfold GetLargestFreeSizeNoWaiting.
  destruct (free_passed_spec (S (length (blocks_ r))) (u32 (last_token_read h)) r h HI)
    as (d & r' & h' & -> & Hd & Hp & Hh); [lia|].
  pose proof Hd as (_ & _ & HI' & _).
  destruct (largest_free_size_spec r' HI') as (m & Hm & _).
  exists d, m, r', h'. cbn [mbind outcome_bind]. by rewrite Hm.
Qed.

Lemma wait_for_room_spec fuel k r h :
  Inv r → none_in_use (blocks_ r) → (length (blocks_ r) < fuel)%nat → k <= size_ r →
  ∃ d m r' h', wait_for_room fuel k r h = Done (Some (r', h')) ∧ dropped_by d r h r' h' ∧
    largest_free_size r' = Done m ∧ k <= m.
Proof.
  revert r h. induction fuel as [|fuel IH]; intros r h HI Hn Hf Hk; [lia|].
  cbn [wait_for_room].
  destruct (GetLargestFreeSizeNoWaiting_spec r h HI) as (d & m & r1 & h1 & -> & Hd & Hm & _).
  pose proof Hd as (E1 & (Es & _) & HI1 & _ & _ & _). cbn [mbind outcome_bind].
  destruct (Z.ltb_spec m k) as [Hlt|Hge]; [|by exists d, m, r1, h1].
  destruct (largest_free_size_spec r1 HI1) as (m' & Hm' & _ & Hfull & _).
  assert (m' = m) as -> by (rewrite Hm in Hm'; congruence).
  rewrite E1 in Hn, Hf. unfold none_in_use in Hn. rewrite list.Forall_app in Hn.
  destruct Hn as [_ Hn]. rewrite length_app in Hf.
  destruct (blocks_ r1) as [|b rest] eqn:Eb; [rewrite (Hfull eq_refl) in Hlt; lia|].
  pose proof (Forall_cons_1 _ _ _ Hn) as [Hb Hn'].
  destruct (FreeOldestBlock_spec r1 h1 b rest HI1 Eb Hb) as (r2 & h2 & -> & Hd2 & Er2).
  cbn [mbind outcome_bind fst snd].
  pose proof Hd2 as (_ & (Es2 & _) & HI2 & _).
  destruct (IH r2 h2 HI2) as (d3 & m3 & r3 & h3 & E3 & Hd3 & Hm3);
    [by rewrite Er2|rewrite Er2; cbn in Hf; lia|lia|].
  exists (d ++ ([b] ++ d3)), m3, r3, h3. split_and!; [done| |apply Hm3..].
  eapply dropped_trans; [done|]. by eapply dropped_trans.
Qed.

(** A request above the size of the buffer frees every block and then fails. *)
Lemma wait_for_room_stuck fuel k r h :
  Inv r → none_in_use (blocks_ r) → (length (blocks_ r) < fuel)%nat → size_ r < k →
  wait_for_room fuel k r h = DcheckFailed.
Proof.
  revert r h. induction fuel as [|fuel IH]; intros r h HI Hn Hf Hk; [lia|].
  cbn [wait_for_room].
  destruct (GetLargestFreeSizeNoWaiting_spec r h HI) as (d & m & r1 & h1 & -> & Hd & Hm & _).
  pose proof Hd as (E1 & (Es & _) & HI1 & _ & _ & _). cbn [mbind outcome_bind].
  destruct (largest_free_size_spec r1 HI1) as (m' & Hm' & Hr & _).
  rewrite Hm in Hm'. injection Hm' as <-.
  destruct (Z.ltb_spec m k) as [_|Hge]; [|lia].
  rewrite E1 in Hn, Hf. unfold none_in_use in Hn. rewrite list.Forall_app in Hn.
  destruct Hn as [_ Hn]. rewrite length_app in Hf.
  destruct (blocks_ r1) as [|b rest] eqn:Eb; [unfold FreeOldestBlock; by rewrite Eb|].
  pose proof (Forall_cons_1 _ _ _ Hn) as [Hb Hn'].
  destruct (FreeOldestBlock_spec r1 h1 b rest HI1 Eb Hb) as (r2 & h2 & -> & Hd2 & Er2).
  pose proof Hd2 as (_ & (Es2 & _) & HI2 & _). cbn [mbind outcome_bind fst snd].
  apply IH; [done|by rewrite Er2|rewrite Er2; cbn in Hf; lia|lia].
Qed.

(** The address of the byte at [offset] of the buffer. *)
Definition pointer_at r (offset : Z) : Z := base_ r + base_offset_ r + offset.

(** A block of [k] bytes is appended at [o], perhaps behind padding. *)
Definition appended (k : Z) (r : RingBuffer) (res : Z * RingBuffer) : Prop :=
  ∃ o pads r', res = (pointer_at r o, r') ∧ Inv r' ∧ same_params r r' ∧
    blocks_ r' = blocks_ r ++ pads ++ [new_Block o k IN_USE] ∧
    Forall (λ b, is_padding b = true) pads ∧ (alignment_ r | o) ∧ 0 <= o ∧ o + k <= size_ r ∧
    Forall (disjoint o k) (blocks_ r ++ pads).

(** The rest of the buffer is too short: it becomes padding, and the block starts at 0. *)
Lemma alloc_block_wraps k r :
  Inv r → none_in_use (blocks_ r) → 0 < k → (alignment_ r | k) →
  size_ r < free_offset_ r + k → k <= in_use_offset_ r < free_offset_ r → free_offset_ r < size_ r →
  appended k r (alloc_block k r).
Proof.
  intros HI Hu Hk Hak Hwrap Hin Hfn. pose proof HI as [[Hn Hbase Ha] Hc Hs Ht Hf He Hl Hal Hfa].
  pose proof (chain_total _ _ _ Hc) as [H0 _].
  destruct r as [bs bo n fo io al ba]. unfold appended, none_in_use, alloc_block, pointer_at, GetPointer in *.
  cbn in *. rewrite (u32_small (k + fo)) by auto with machine.
  rewrite (proj2 (Z.ltb_lt n (k + fo))) by lia. cbn.
  rewrite (u32_small (0 + bo)), (u32_small (0 + k)), (u32_small (n - fo))
    by auto with machine.
  assert (io + total bs = fo) as Etot by wrap_lia.
  exists 0, [new_Block fo (n - fo) PADDING], (mkRingBuffer
    ((bs ++ [new_Block fo (n - fo) PADDING]) ++ [new_Block 0 k IN_USE]) bo n
    (if k =? n then 0 else k) io al ba).
  assert (wrap n n = 0 ∧ wrap n fo = fo) as [Ew Ew'] by wrap_lia.
  split_and!; [f_equal; lia| |done|cbn; by rewrite <- app_assoc|by repeat constructor
    |by apply Z.divide_0_r|lia|lia|].
  - split; cbn; [done| |lia|rewrite !total_blocks_app; cbn; lia| |by destruct bs| | |].
    + rewrite !chain_app, total_blocks_app. cbn. rewrite Etot. cbn.
      replace (io + (total bs + (n - fo + 0))) with n by lia.
      rewrite Ew, Ew'. split_and!; [done|done|lia|lia|done|done|lia|lia|done].
    + rewrite !total_blocks_app. cbn. destruct (Z.eqb_spec k n); wrap_lia.
    + rewrite !only_last_app. cbn. rewrite list.Forall_app. split_and!;
        first [by intros|by left|by constructor|naive_solver].
    + rewrite !list.Forall_app. split_and!; [done|by repeat constructor|].
      repeat constructor. by apply Z.divide_0_r.
    + destruct (Z.eqb_spec k n); [by apply Z.divide_0_r|done].
  - rewrite list.Forall_app. split; [|repeat constructor; cbn; lia].
    rewrite <- Ew. apply (chain_disjoint _ io io); [lia..| |done]. rewrite Ew. lia.
Qed.

(** The block fits behind the others. *)
Lemma alloc_block_fits k r :
  Inv r → none_in_use (blocks_ r) → 0 < k → (alignment_ r | k) →
  free_offset_ r + k <= size_ r → k <= size_ r - total (blocks_ r) →
  appended k r (alloc_block k r).
Proof.
  intros HI Hu Hk Hak Hno Hroom. pose proof HI as [[Hn Hbase Ha] Hc Hs Ht Hf He Hl Hal Hfa].
  pose proof (chain_total _ _ _ Hc) as [H0 _].
  assert (0 <= free_offset_ r < size_ r) as Hfr by wrap_lia.
  destruct r as [bs bo n fo io al ba]. unfold appended, none_in_use, alloc_block, pointer_at, GetPointer in *.
  cbn in *. rewrite (u32_small (k + fo)) by auto with machine.
  rewrite (proj2 (Z.ltb_ge n (k + fo))) by lia. cbn.
  rewrite (u32_small (fo + bo)), (u32_small (fo + k)) by auto with machine.
  exists fo, [], (mkRingBuffer (bs ++ [new_Block fo k IN_USE]) bo n
    (if fo + k =? n then 0 else fo + k) io al ba).
  split_and!; [f_equal; lia| |done|done|constructor|done|lia|lia|].
  - split; cbn; [done| |lia|rewrite total_blocks_app; cbn; lia| |by destruct bs| | |].
    + rewrite chain_app. cbn. split_and!; [done|done|lia|lia|done].
    + rewrite total_blocks_app. cbn. destruct (Z.eqb_spec (fo + k) n); wrap_lia.
    + rewrite only_last_app. cbn. naive_solver.
    + rewrite list.Forall_app. by repeat constructor.
    + destruct (Z.eqb_spec (fo + k) n); [by apply Z.divide_0_r|by apply Z.divide_add_r].
  - rewrite app_nil_r, Hf. apply (chain_disjoint _ io io); [lia..| |done].
    rewrite <- Hf. lia.
Qed.

Lemma alloc_block_spec k r m :
  Inv r → none_in_use (blocks_ r) → largest_free_size r = Done m → 0 < k <= m →
  (alignment_ r | k) → appended k r (alloc_block k r).
Proof.
  intros HI Hu Hm Hk Hak. pose proof (inv_free r HI) as Hf. pose proof (inv_start r HI) as Hs.
  destruct (largest_free_size_spec r HI) as (m' & Hm' & Hmr & _ & _ & Hfit & _).
  assert (m' = m) as -> by (rewrite Hm in Hm'; congruence).
  pose proof (chain_total _ _ _ (inv_chain r HI)) as [H0 _]. pose proof (inv_total r HI).
  destruct (Hfit k Hk) as [[? ?]|[? ?]].
  - apply alloc_block_fits; (done || lia).
  - apply alloc_block_wraps; (done || lia || wrap_lia).
Qed.

Lemma RoundToAlignment_up k r :
  valid_params r → 0 < k <= size_ r →
  (alignment_ r | RoundToAlignment k r) ∧ k <= RoundToAlignment k r < k + alignment_ r.
Proof.
  intros [Hn _ (e & He & Ea)] Hk. unfold RoundToAlignment. rewrite Ea in *.
  assert (0 < 2 ^ e) by (apply Z.pow_pos_nonneg; lia).
  assert (2 ^ e <= 2 ^ 30) by (apply Z.pow_le_mono_r; lia).
  rewrite u32_small by auto with machine. rewrite land_lnot_ones by lia.
  pose proof (Z.div_mod (k + 2 ^ e - 1) (2 ^ e) ltac:(lia)).
  pose proof (Z.mod_pos_bound (k + 2 ^ e - 1) (2 ^ e) ltac:(lia)).
  split; [apply Z.divide_factor_l|lia].
Qed.

Lemma RoundToAlignment_spec k r :
  valid_params r → (alignment_ r | size_ r) → 0 < k <= size_ r →
  (alignment_ r | RoundToAlignment k r) ∧ k <= RoundToAlignment k r <= size_ r ∧
  RoundToAlignment k r < k + alignment_ r.
Proof.
  intros Hv [q Hq] Hk. destruct (RoundToAlignment_up k r Hv Hk) as [[p Hp] ?].
  split_and!; [by exists p|lia| |lia].
  rewrite Hp, Hq in *. assert (0 < alignment_ r) by nia. assert (p < q + 1) by nia. nia.
Qed.

(** What [Alloc size'] does to [r] and [h]: it gives the blocks [dropped] back and
    adds a block of [k] bytes at [o]. *)
Definition allocated size' r h dropped k o r' h' : Prop :=
  ∃ kept pads, 
    blocks_ r = dropped ++ kept ∧ passed h' dropped ∧
    blocks_ r' = kept ++ pads ++ [new_Block o k IN_USE] ∧
    Forall (λ b, is_padding b = true) pads ∧ same_params r r' ∧ Inv r' ∧
    size' <= k < Z.max 1 size' + alignment_ r ∧ (alignment_ r | o) ∧ 0 <= o ∧ o + k <= size_ r ∧
    Forall (disjoint o k) (kept ++ pads).

Lemma last_none_in_use bs :
  none_in_use bs →
  match list.last bs with Some b => negb (is_in_use b) | None => true end = true.
Proof.
  intros Hu. destruct (list.last bs) as [b|] eqn:E; [|done].
  unfold none_in_use in Hu. rewrite list.Forall_forall in Hu.
  rewrite Hu; [done|]. apply last_Some in E as [l ->]. apply elem_of_app. right. left.
Qed.

Lemma Alloc_ring size' r h :
  Inv r → (alignment_ r | size_ r) → none_in_use (blocks_ r) → 0 <= size' <= size_ r →
  ∃ dropped k o r' h', Alloc size' r h = Done (Some (pointer_at r o, r', h')) ∧
    allocated size' r h dropped k o r' h'.
Proof.
  intros HI Hal Hu Hs. pose proof HI as [Hv _ _ _ _ _ _ _ _].
  unfold Alloc. pass_DCHECK ltac:(apply Z.leb_le; lia). pass_DCHECK ltac:(by apply last_none_in_use).
  set (s := if size' =? 0 then 1 else size').
  assert (s = Z.max 1 size') as Es.
  { subst s. destruct (Z.eqb_spec size' 0); lia. }
  clearbody s. pose proof (vp_size _ Hv).
  destruct (RoundToAlignment_spec s r Hv Hal) as (Hra & Hrs & Hrl); [lia|].
  destruct (wait_for_room_spec (S (length (blocks_ r))) (RoundToAlignment s r) r h HI Hu)
    as (d & m & r1 & h1 & -> & Hd & Hm & Hkm); [lia..|].
  cbn [mbind outcome_bind]. destruct Hd as (E1 & Hsame & HI1 & _ & Hp & _).
  pose proof Hsame as (S1 & S2 & S3 & S4).
  destruct (alloc_block_spec (RoundToAlignment s r) r1 m HI1)
    as (o & pads & r2 & -> & HI2 & Hsame2 & E2 & Hpad & Hoa & Ho & Hok & Hdj);
    [|done|lia|by rewrite S3|].
  { unfold none_in_use in *. rewrite E1, list.Forall_app in Hu. apply Hu. }
  exists d, (RoundToAlignment s r), o, r2, h1. split.
  { unfold pointer_at. by rewrite S2, S4. }
  exists (blocks_ r1), pads. rewrite S1, S3 in *. split_and!; try done; [|lia..].
  destruct Hsame2 as (T1 & T2 & T3 & T4). split_and!; congruence.
Qed.

(** ** Freeing and discarding a block *)

Lemma find_block_none o bs : (∀ b, b ∈ bs → offset b ≠ o) → find_block o bs = None.
Proof.
  induction bs as [|b bs IH]; intros Hb; cbn; [done|].
  rewrite IH by (intros; apply Hb; by right).
  destruct (Z.eqb_spec (offset b) o) as [E|]; [|done]. by destruct (Hb b); [left|].
Qed.

Lemma find_block_at before b after :
  (∀ b', b' ∈ after → offset b' ≠ offset b) →
  find_block (offset b) (before ++ b :: after) = Some (before, b, after).
Proof.
  intros Hb. induction before as [|x before IH]; cbn; [|by rewrite IH].
  by rewrite find_block_none, Z.eqb_refl.
Qed.

(** No two blocks have the same offset. *)
Lemma offsets_distinct r before b after b' :
  Inv r → blocks_ r = before ++ b :: after → b' ∈ after → offset b' ≠ offset b.
Proof.
  intros [_ Hc Hs Ht _ _ _ _ _] E (a1 & a2 & ->)%list_elem_of_split Heq.
  rewrite E in Hc, Ht. rewrite (app_comm_cons a1), app_assoc in Hc, Ht.
  rewrite chain_app in Hc. rewrite total_blocks_app in Ht. cbn [chain total] in Hc, Ht.
  destruct Hc as (Hc1 & Ho & Hsz & Hend & Hc2). pose proof (chain_total _ _ _ Hc2) as [].
  assert (Forall (disjoint (offset b') (size b')) (before ++ b :: a1)) as Hd.
  { rewrite Ho. apply (chain_disjoint _ (in_use_offset_ r) (in_use_offset_ r));
      rewrite <- ?Ho; [lia..|done]. }
  rewrite list.Forall_app, list.Forall_cons in Hd. destruct Hd as (_ & Hd & _).
  apply chain_app in Hc1 as [_ (_ & Hsb & _)]. unfold disjoint in Hd. lia.
Qed.

Lemma offset_bounds r b : Inv r → b ∈ blocks_ r → 0 <= offset b ∧ 0 < size b ∧ offset b + size b <= size_ r.
Proof.
  intros [_ Hc Hs Ht _ _ _ _ _] (l1 & l2 & E)%list_elem_of_split.
  rewrite E in Hc, Ht. apply chain_app in Hc as [Hc1 (Ho & Hb & He & Hc2)].
  apply chain_total in Hc1 as [? _]. apply chain_total in Hc2 as [? _].
  split_and!; [|done..]. rewrite Ho. rewrite total_blocks_app in Ht. cbn in Ht.
  unfold wrap. destruct (Z.ltb_spec (in_use_offset_ r + total l1) (size_ r)); lia.
Qed.

Lemma offset_of_pointer r o :
  valid_params r → 0 <= o < size_ r → u32 (GetOffset (pointer_at r o) r - base_offset_ r) = o.
Proof.
  intros [Hn Hb _] Ho. unfold GetOffset, pointer_at.
  replace (base_ r + base_offset_ r + o - base_ r) with (base_offset_ r + o) by lia.
  rewrite !u32_small; unfold is_u32; rewrite ?u32_small; unfold is_u32, u32_max in *; lia.
Qed.

(** The block [DiscardBlock] and [FreePendingToken] find. *)
Lemma find_pointed r before b after :
  Inv r → blocks_ r = before ++ b :: after →
  find_block (u32 (GetOffset (pointer_at r (offset b)) r - base_offset_ r)) (blocks_ r)
    = Some (before, b, after).
Proof.
  intros HI E. assert (b ∈ blocks_ r) as Hin by (rewrite E; set_solver).
  pose proof (offset_bounds r b HI Hin). rewrite offset_of_pointer; [|apply HI|lia].
  rewrite E. apply find_block_at. intros b' Hb'. by apply (offsets_distinct r before b after).
Qed.

(** The layout of the blocks alone: [Inv] without the rule for the empty buffer. *)
Definition layout (n a in_use free : Z) (bs : list Block) : Prop :=
  chain n in_use bs ∧ 0 <= in_use < n ∧ total bs <= n ∧ free = wrap n (in_use + total bs) ∧
  only_last_in_use bs ∧ Forall (λ b, (a | offset b)) bs ∧ (a | free).

Lemma Inv_layout r :
  Inv r ↔ valid_params r ∧
    layout (size_ r) (alignment_ r) (in_use_offset_ r) (free_offset_ r) (blocks_ r) ∧
    (blocks_ r = [] → in_use_offset_ r = 0).
Proof.
  split; [intros []; unfold layout; tauto|].
  intros (? & (? & ? & ? & ? & ? & ? & ?) & ?). by split.
Qed.

(** Changing the state of a block, not to [IN_USE], keeps the layout. *)
Lemma layout_replace n a iu free before b b' after :
  offset b' = offset b → size b' = size b → is_in_use b' = false →
  layout n a iu free (before ++ b :: after) → layout n a iu free (before ++ b' :: after).
Proof.
  intros Eo Es Eu (Hc & Hi & Ht & Hf & Hl & Ha & Hfa). unfold layout.
  rewrite chain_app, total_blocks_app, only_last_app, list.Forall_app, list.Forall_cons in *.
  cbn [chain total only_last_in_use] in *. rewrite Eo, Es. destruct Hl as (_ & Hl1 & _ & Hl2).
  split_and!; try tauto; [done|]. intros _. by apply Hl1.
Qed.

Lemma discard_back_spec n a iu rl : ∀ free rl' free',
  layout n a iu free (reverse rl) → discard_back rl free = (rl', free') →
  layout n a iu free' (reverse rl') ∧
  (∃ pads, rl = pads ++ rl' ∧ Forall (λ b, is_padding b = true) pads) ∧
  (∀ b, head rl' = Some b → is_padding b = false).
Proof.
  induction rl as [|b rl IH]; intros free rl' free' HL; cbn [discard_back].
  { intros [= <- <-]. split_and!; [done|by exists []|done]. }
  destruct (is_padding b) eqn:Eb.
  - intros E. destruct (IH (offset b) rl' free') as (HL' & (pads & -> & Hp) & Hh); [|done|].
    + rewrite reverse_cons in HL. unfold layout in *.
      rewrite chain_app, total_blocks_app, only_last_app, list.Forall_app, list.Forall_cons in HL.
      destruct HL as ((Hc & Ho & Hs & He & _) & Hi & Ht & Hf & (_ & Hl & _) & (Ha & Ha' & _) & _).
      cbn [total] in Ht. split_and!; try done; [lia..|].
      destruct (reverse rl) as [|x l] eqn:Er; [done|]. rewrite <- Er in Hl |- *.
      assert (Forall (λ x, is_in_use x = false) (reverse rl)) as Hn by by apply Hl.
      clear -Hn. induction Hn; cbn; [done|]. split; [by right|done].
    + split_and!; [done| |done]. exists (b :: pads). split; [done|by constructor].
  - intros [= <- <-]. split_and!; [done|by exists []|]. by intros ? [= <-].
Qed.

Lemma discard_front_spec n a free bs : ∀ iu bs' iu',
  layout n a iu free bs → discard_front bs iu = (bs', iu') →
  (bs' = [] ∨ layout n a iu' free bs') ∧
  (∃ pads, bs = pads ++ bs' ∧ Forall (λ b, is_padding b = true) pads) ∧
  (∀ b, head bs' = Some b → is_padding b = false).
Proof.
  induction bs as [|b bs IH]; intros iu bs' iu' HL; cbn [discard_front].
  { intros [= <- <-]. split_and!; [by left|by exists []|done]. }
  destruct (is_padding b) eqn:Eb.
  - destruct bs as [|b2 bs].
    { intros [= <- <-]. split_and!; [by left|exists [b]; by repeat constructor|done]. }
    intros E. destruct (IH (offset b2) bs' iu') as (HL' & (pads & E2 & Hp) & Hh); [|done|].
    + destruct HL as (Hc & Hi & Ht & Hf & Hl & Ha & Hfa). unfold layout.
      destruct Hc as (Ho & Hs & He & Hc). destruct Hl as [_ Hl].
      apply Forall_cons_1 in Ha as [_ Ha]. pose proof Hc as (Ho2 & Hs2 & _ & Hc2).
      pose proof (chain_total _ _ _ Hc2) as [H0 _].
      assert (wrap n iu = iu) as Ew by (unfold wrap; destruct (Z.ltb_spec iu n); lia).
      rewrite Ew in Ho. cbn [total] in Ht, Hf |- *.
      rewrite Ho2. unfold wrap. destruct (Z.ltb_spec (iu + size b) n).
      * refine (conj Hc (conj _ (conj _ (conj _ (conj Hl (conj Ha Hfa)))))); [lia..|].
        rewrite Hf. unfold wrap.
        by replace (iu + size b + (size b2 + total bs))
          with (iu + (size b + (size b2 + total bs))) by lia.
      * refine (conj _ (conj _ (conj _ (conj _ (conj Hl (conj Ha Hfa)))))); [|lia..|].
        -- apply chain_rebase; [lia| |done]. cbn [total]. lia.
        -- rewrite Hf. unfold wrap.
           destruct (Z.ltb_spec (iu + (size b + (size b2 + total bs))) n);
           match goal with |- context [?x <? n] => destruct (Z.ltb_spec x n) end; lia.
    + split_and!; [done| |done]. exists (b :: pads). rewrite E2. split; [done|by constructor].
  - intros [= <- <-]. split_and!; [by right|by exists []|]. by intros ? [= <-].
Qed.

(** Neither the oldest nor the newest block is padding. *)
Definition trimmed (bs : list Block) : Prop :=
  (∀ b, head bs = Some b → is_padding b = false) ∧
  (∀ b, list.last bs = Some b → is_padding b = false).

Lemma trim_spec r :
  valid_params r →
  layout (size_ r) (alignment_ r) (in_use_offset_ r) (free_offset_ r) (blocks_ r) →
  ∃ front back, blocks_ r = front ++ blocks_ (trim r) ++ back ∧
    Forall (λ b, is_padding b = true) front ∧ Forall (λ b, is_padding b = true) back ∧
    trimmed (blocks_ (trim r)) ∧ Inv (trim r) ∧ same_params r (trim r).
Proof.
  intros Hv HL. unfold trim.
  destruct (discard_back (reverse (blocks_ r)) (free_offset_ r)) as [rl free'] eqn:Eb.
  apply (discard_back_spec (size_ r) (alignment_ r) (in_use_offset_ r)) in Eb
    as (HL1 & (back & Hback & Hpb) & Hlast); [|by rewrite reverse_involutive].
  destruct (discard_front (reverse rl) (in_use_offset_ r)) as [bs iu'] eqn:Ef.
  apply (discard_front_spec (size_ r) (alignment_ r) free') in Ef
    as (HL2 & (front & Hfront & Hpf) & Hhead); [|done].
  assert (blocks_ r = front ++ bs ++ reverse back) as E.
  { rewrite app_assoc, <- Hfront, <- reverse_app, <- Hback. by rewrite reverse_involutive. }
  assert (trimmed bs) as Htr.
  { split; [done|]. intros b Hb. apply Hlast. rewrite <- (reverse_involutive rl), Hfront.
    rewrite head_reverse, last_app, Hb. done. }
  exists front, (reverse back). split_and!; [done|done|by apply Forall_reverse|done| |done].
  apply Inv_layout. split_and!; [by apply (valid_params_same r)| |].
  - destruct r as [l bo n fo io al ba]. cbn in *. case_bool_decide as En.
    + subst bs. unfold layout, wrap. cbn. destruct Hv as [Hn _ _]. cbn in Hn.
      split_and!; try done; [lia..| |by apply Z.divide_0_r].
      destruct (Z.ltb_spec (0 + 0) n); lia.
    + by destruct HL2.
  - cbn. intros ->. done.
Qed.

(** A block of an [Inv] buffer with its state changed, still in a valid layout. *)
Lemma layout_set_state r before b b' after :
  Inv r → blocks_ r = before ++ b :: after →
  offset b' = offset b → size b' = size b → is_in_use b' = false →
  layout (size_ r) (alignment_ r) (in_use_offset_ r) (free_offset_ r) (before ++ b' :: after).
Proof.
  intros (_ & HL & _)%Inv_layout E Eo Es Eu. rewrite E in HL. by eapply layout_replace.
Qed.

Lemma FreePendingToken_ring t r before b after :
  Inv r → blocks_ r = before ++ b :: after → is_in_use b = true →
  ∃ r', FreePendingToken (pointer_at r (offset b)) t r = Done r' ∧ Inv r' ∧ same_params r r' ∧
    after = [] ∧ none_in_use before ∧
    blocks_ r' = before ++ [mkBlock (offset b) (size b) (u32 t) FREE_PENDING_TOKEN].
Proof.
  intros HI E Hb. pose proof HI as (Hv & HL & _)%Inv_layout.
  unfold FreePendingToken. rewrite (find_pointed r before b after HI E).
  pass_DCHECK ltac:(rewrite E; by destruct before). pass_DCHECK ltac:(exact Hb).
  pose proof (inv_last r HI) as Hl. rewrite E, only_last_app in Hl. cbn in Hl.
  destruct Hl as (_ & Hl1 & [->|Hl2] & _); [|congruence].
  eexists. split; [reflexivity|]. split_and!; try done.
  - apply Inv_layout. split_and!; [by apply (valid_params_same r)| |by destruct before].
    by apply (layout_set_state r before b _ []).
  - by apply Hl1.
Qed.

Lemma DiscardBlock_spec r before b after :
  Inv r → blocks_ r = before ++ b :: after → is_padding b = false →
  ∃ r' front back, DiscardBlock (pointer_at r (offset b)) r = Done r' ∧ Inv r' ∧
    same_params r r' ∧ trimmed (blocks_ r') ∧
    before ++ mkBlock (offset b) (size b) (token b) PADDING :: after
      = front ++ blocks_ r' ++ back ∧
    Forall (λ b, is_padding b = true) front ∧ Forall (λ b, is_padding b = true) back.
Proof.
  intros HI E Hb. pose proof HI as (Hv & HL & _)%Inv_layout.
  unfold DiscardBlock. rewrite (find_pointed r before b after HI E).
  pass_DCHECK ltac:(rewrite E; by destruct before). pass_DCHECK ltac:(by rewrite Hb).
  set (b' := mkBlock (offset b) (size b) (token b) PADDING).
  destruct (trim_spec (r <| blocks_ := before ++ b' :: after |>))
    as (front & back & E' & Hf & Hbk & Htr & HI' & Hsame).
  - by apply (valid_params_same r).
  - by apply (layout_set_state r before b b' after).
  - eexists _, front, back. split; [reflexivity|]. by split_and!.
Qed.

End Freeing.

(** ** A client of the buffer *)

Inductive op : Type :=
  | OpAlloc (size' : Z)
  | OpFreePendingToken (offset' token' : Z)
  | OpDiscardBlock (offset' : Z)
  | OpGetLargestFreeSize
  | OpGetTotalFreeSize.

(** What ring_buffer.h asks of its client: no request above the buffer's size, no
    allocation while the previous one is still held, and only pointers to blocks
    that have not been given back. *)
Definition allowed (o : op) (r : RingBuffer) : bool :=
  match o with
  | OpAlloc s => (0 <=? s) && (s <=? size_ r) && forallb (λ b, negb (is_in_use b)) (blocks_ r)
  | OpFreePendingToken o _ => existsb (λ b, (offset b =? o) && is_in_use b) (blocks_ r)
  | OpDiscardBlock o => existsb (λ b, (offset b =? o) && negb (is_padding b)) (blocks_ r)
  | OpGetLargestFreeSize | OpGetTotalFreeSize => true
  end.

Section Client.
Context {H : Type} {helper : TokenHelper H}.
Implicit Types (r : RingBuffer) (h : H).

Definition drop_result (x : option (Z * RingBuffer * H)) : option (RingBuffer * H) :=
  '(_, r, h) ← x; Some (r, h).

Definition apply_op (o : op) (r : RingBuffer) (h : H) : outcome (option (RingBuffer * H)) :=
  match o with
  | OpAlloc s => x ← Alloc s r h; Done (drop_result x)
  | OpFreePendingToken o t =>
      r' ← FreePendingToken (pointer_at r o) t r; Done (Some (r', h))
  | OpDiscardBlock o => r' ← DiscardBlock (pointer_at r o) r; Done (Some (r', h))
  | OpGetLargestFreeSize => x ← GetLargestFreeSizeNoWaiting r h; Done (drop_result x)
  | OpGetTotalFreeSize => x ← GetTotalFreeSizeNoWaiting r h; Done (drop_result x)
  end.

(** One call of a client that keeps the rules. *)
Definition client_step (x y : RingBuffer * H) : Prop :=
  ∃ o, allowed o x.1 = true ∧ apply_op o x.1 x.2 = Done (Some y).

Lemma existsb_split (f : Block → bool) bs :
  existsb f bs = true → ∃ before b after, bs = before ++ b :: after ∧ f b = true.
Proof.
  intros (b & Hb & Hf)%existsb_exists. apply list_elem_of_In in Hb.
  apply list_elem_of_split in Hb as (l1 & l2 & ->). by exists l1, b, l2.
Qed.

Lemma forallb_none_in_use bs :
  forallb (λ b, negb (is_in_use b)) bs = true ↔ none_in_use bs.
Proof.
  unfold none_in_use. rewrite forallb_forall, list.Forall_forall.
  split; intros Hb b; [intros Hin%list_elem_of_In|intros Hin%list_elem_of_In];
    specialize (Hb b Hin); by destruct (is_in_use b).
Qed.

Lemma GetTotalFreeSizeNoWaiting_spec r h :
  Inv r →
  ∃ d r' h', GetTotalFreeSizeNoWaiting r h
      = Done (Some (size_ r' - total (blocks_ r'), r', h')) ∧
    GetLargestFreeSizeNoWaiting r h
      = Done (Some (match largest_free_size r' with Done m => m | _ => 0 end, r', h')) ∧
    dropped_by d r h r' h'.
Proof.
  intros HI. unfold GetTotalFreeSizeNoWaiting.
  destruct (GetLargestFreeSizeNoWaiting_spec r h HI) as (d & m & r' & h' & -> & Hd & Hm & _).
  pose proof Hd as (_ & _ & HI' & _).
  destruct (largest_free_size_spec r' HI') as (m' & Hm' & _ & _ & _ & _ & Ht).
  rewrite Hm in Hm'. injection Hm' as <-. exists d, r', h'.
  cbn [mbind outcome_bind]. rewrite Ht, Hm. done.
Qed.

(** Every call a client may make returns and keeps the invariant. *)
Lemma apply_op_ok o r h :
  Inv r → (alignment_ r | size_ r) → allowed o r = true →
  ∃ r' h', apply_op o r h = Done (Some (r', h')) ∧ Inv r' ∧ same_params r r'.
Proof.
  intros HI Hal Ho. destruct o as [s|o t|o| |]; cbn [allowed apply_op] in *.
  - apply andb_true_iff in Ho as [[H0 H1]%andb_true_iff Hu%forallb_none_in_use]. prop_bools.
    destruct (Alloc_ring s r h HI Hal Hu ltac:(lia)) as (d & k & o & r' & h' & -> & Ha).
    exists r', h'. split; [done|]. by destruct Ha as (? & ? & _ & _ & _ & _ & ? & ? & _).
  - destruct (existsb_split _ _ Ho) as (before & b & after & E & Hb). prop_bools. subst o.
    destruct (FreePendingToken_ring t r before b after HI E) as (r' & -> & ? & ? & _); [done|].
    by exists r', h.
  - destruct (existsb_split _ _ Ho) as (before & b & after & E & Hb). prop_bools. subst o.
    destruct (DiscardBlock_spec r before b after HI E) as (r' & ? & ? & -> & ? & ? & _); [done|].
    by exists r', h.
  - destruct (GetLargestFreeSizeNoWaiting_spec r h HI) as (d & m & r' & h' & -> & Hd & _).
    exists r', h'. split; [done|]. by destruct Hd as (_ & ? & ? & _).
  - destruct (GetTotalFreeSizeNoWaiting_spec r h HI) as (d & r' & h' & -> & _ & Hd).
    exists r', h'. split; [done|]. by destruct Hd as (_ & ? & ? & _).
Qed.

(** The destructor's loop. *)
Lemma free_all_spec fuel r h :
  Inv r → none_in_use (blocks_ r) → (length (blocks_ r) < fuel)%nat →
  ∃ h', free_all fuel r h = Done (Some h') ∧ passed h' (blocks_ r) ∧
    (∀ t, HasTokenPassed t h = true → HasTokenPassed t h' = true).
Proof.
  revert r h. induction fuel as [|fuel IH]; intros r h HI Hu Hf; [lia|].
  cbn [free_all]. destruct (blocks_ r) as [|b rest] eqn:E.
  { exists h. split_and!; [done| |done]. intros b Hb. by apply elem_of_nil in Hb. }
  apply Forall_cons_1 in Hu as [Hb Hu].
  destruct (FreeOldestBlock_spec r h b rest HI E Hb) as (r1 & h1 & -> & Hd & Er).
  destruct Hd as (_ & _ & HI1 & _ & Hp & Hm). cbn [mbind outcome_bind fst snd].
  destruct (IH r1 h1 HI1) as (h' & -> & Hp' & Hm'); [by rewrite Er|rewrite Er; cbn in Hf; lia|].
  exists h'. split_and!; [done| |auto]. rewrite Er in Hp'.
  intros x [->|Hx]%elem_of_cons Hs; [|by apply Hp']. apply Hm', Hp; [left|done].
Qed.

End Client.

Lemma init_Inv alignment base_offset size' base :
  valid_params (init_RingBuffer alignment base_offset size' base) →
  Inv (init_RingBuffer alignment base_offset size' base).
Proof.
  intros Hv. pose proof (vp_size _ Hv) as Hn. cbn in Hn.
  apply Inv_layout. unfold layout, wrap. cbn. split_and!; try done; [lia..| |by apply Z.divide_0_r].
  destruct (Z.ltb_spec (0 + 0) size'); lia.
Qed.

(** ** Properties *)


(** [Alloc] is safe.  It returns a range of the buffer that starts at an aligned
    offset and holds the bytes asked for, touches no block that is still allocated or
    waiting for its token, and only reuses the oldest blocks, each of which was
    discarded or has had its token passed by the time [Alloc] returns. *)
Theorem RingBuffer_Alloc_safe {H : Type} {helper : TokenHelper H} size' r (h : H) :
  Inv r → (alignment_ r | size_ r) → none_in_use (blocks_ r) → 0 <= size' <= size_ r →
  ∃ o r' h' dropped kept pads k,
    Alloc size' r h = Done (Some (pointer_at r o, r', h')) ∧ Inv r' ∧
    blocks_ r = dropped ++ kept ∧
    blocks_ r' = kept ++ pads ++ [new_Block o k IN_USE] ∧
    (∀ b, b ∈ dropped → state b = PADDING ∨ HasTokenPassed (token b) h' = true) ∧
    (∀ b, b ∈ pads → state b = PADDING) ∧
    (∀ b, b ∈ kept ++ pads → disjoint o k b) ∧
    size' <= k < Z.max 1 size' + alignment_ r ∧
    (alignment_ r | o) ∧ 0 <= o ∧ o + k <= size_ r.
Proof.
  intros HI Hal Hu Hs.
  destruct (Alloc_ring size' r h HI Hal Hu Hs)
    as (d & k & o & r' & h' & E & kept & pads & E1 & Hp & E2 & Hpad & _ & HI' & Hk & Hoa & Ho & Hok & Hd).
  exists o, r', h', d, kept, pads, k. split_and!; try done; try lia.
  - intros b Hb. destruct (state b) eqn:Es; [|by left|right; by apply Hp].
    unfold none_in_use in Hu. rewrite E1, list.Forall_app, !list.Forall_forall in Hu.
    destruct Hu as [Hu _]. specialize (Hu b Hb). unfold is_in_use in Hu.
    apply bool_decide_eq_false_1 in Hu. done.
  - rewrite list.Forall_forall in Hpad. intros b Hb. by apply (bool_decide_eq_true_1 _ (Hpad b Hb)).
  - by apply list.Forall_forall.
Qed.

(** The free sizes are exact.  Both functions first give back exactly the oldest
    blocks that are not in use and whose token has been read; then the total is what
    the blocks leave of the buffer, and the largest free size is the largest number of
    bytes that fits somewhere without touching a block. *)
Theorem free_sizes_exact {H : Type} {helper : TokenHelper H} r (h : H) :
  Inv r →
  ∃ largest r' h' dropped,
    GetLargestFreeSizeNoWaiting r h = Done (Some (largest, r', h')) ∧
    GetTotalFreeSizeNoWaiting r h = Done (Some (size_ r - total (blocks_ r'), r', h')) ∧
    Inv r' ∧ blocks_ r = dropped ++ blocks_ r' ∧
    (∀ b, b ∈ dropped → may_pass (u32 (last_token_read h)) b = true) ∧
    (∀ b, head (blocks_ r') = Some b → may_pass (u32 (last_token_read h)) b = false) ∧
    0 <= largest ∧
    ∀ k, 0 < k → k <= largest ↔
      ∃ o, 0 <= o ∧ o + k <= size_ r' ∧ ∀ b, b ∈ blocks_ r' → disjoint o k b.
Proof.
  intros HI.
  destruct (GetLargestFreeSizeNoWaiting_spec r h HI) as (d & m & r' & h' & E & Hd & Hm & Hp & Hh).
  destruct (GetTotalFreeSizeNoWaiting_spec r h HI) as (d2 & r2 & h2 & E2 & E1 & _).
  rewrite E in E1. injection E1 as _ <- <-.
  pose proof Hd as (Eb & (Es & _) & HI' & _).
  destruct (largest_free_size_spec r' HI') as (m' & Hm' & Hr & _ & Hk & _).
  rewrite Hm in Hm'. injection Hm' as <-.
  exists m, r', h', d. rewrite <- Es. split_and!; try done; [|lia|].
  - by apply list.Forall_forall.
  - intros k Hk0. rewrite (Hk k Hk0). unfold free_room. by setoid_rewrite list.Forall_forall.
Qed.

(** [DiscardBlock] is exact.  Discarding a block makes it padding and removes
    the padding at both ends of the queue and nothing else, so neither end is padding
    afterwards; no other block moves. *)
Theorem DiscardBlock_exact r before b after :
  Inv r → blocks_ r = before ++ b :: after → is_padding b = false →
  ∃ r' front back,
    DiscardBlock (pointer_at r (offset b)) r = Done r' ∧ Inv r' ∧
    before ++ mkBlock (offset b) (size b) (token b) PADDING :: after
      = front ++ blocks_ r' ++ back ∧
    (∀ x, x ∈ front ++ back → state x = PADDING) ∧ trimmed (blocks_ r').
Proof.
  intros HI E Hb.
  destruct (DiscardBlock_spec r before b after HI E Hb)
    as (r' & front & back & E' & HI' & _ & Ht & Eb & Hf & Hbk).
  exists r', front, back. split_and!; try done; try apply Ht.
  assert (Forall (λ b, is_padding b = true) (front ++ back)) as Hall by by apply list.Forall_app.
  rewrite list.Forall_forall in Hall. intros x Hx. by apply (bool_decide_eq_true_1 _ (Hall x Hx)).
Qed.

(** The destructor waits.   If no block is in use, every token a block waits for
    has passed when the destructor ends. *)
Theorem RingBuffer_destructor_waits {H : Type} {helper : TokenHelper H} r (h : H) :
  Inv r → none_in_use (blocks_ r) →
  ∃ h', destroy_RingBuffer r h = Done (Some h') ∧
    ∀ b, b ∈ blocks_ r → state b = FREE_PENDING_TOKEN → HasTokenPassed (token b) h' = true.
Proof.
  intros HI Hu. destruct (free_all_spec (S (length (blocks_ r))) r h HI Hu) as (h' & E & Hp & _);
    [lia|]. by exists h'.
Qed.

(** A finding.  The comment on [GetLargestFreeOrPendingSize] promises that an
    allocation of the size it returns succeeds.  When the size of the buffer is not a
    multiple of its alignment it never does: the size is rounded up above that of the
    buffer, and the waiting loop gives every block back and then fails the DCHECK of
    [FreeOldestBlock] (without DCHECKs, it reads the front of an empty deque). *)
Theorem largest_size_not_allocatable {H : Type} {helper : TokenHelper H} r (h : H) :
  Inv r → none_in_use (blocks_ r) → ¬ (alignment_ r | size_ r) →
  Alloc (GetLargestFreeOrPendingSize r) r h = DcheckFailed.
Proof.
  intros HI Hu Hn. pose proof (inv_params r HI) as Hv. pose proof (vp_size _ Hv).
  unfold Alloc, GetLargestFreeOrPendingSize. rewrite Z.leb_refl. cbn [DCHECK mbind outcome_bind].
  rewrite last_none_in_use by done. cbn [DCHECK mbind outcome_bind].
  destruct (Z.eqb_spec (size_ r) 0); [lia|].
  destruct (RoundToAlignment_up (size_ r) r Hv ltac:(lia)) as [Hd Hk].
  rewrite wait_for_room_stuck; [done..|lia|].
  destruct (decide (RoundToAlignment (size_ r) r = size_ r)) as [E|]; [by rewrite E in Hd|lia].
Qed.

(** ** Witnesses

    A buffer of 64 bytes, allocations of 40 and 20 bytes, and tokens 1 and 2. *)

Definition example_buffer : RingBuffer := init_RingBuffer 4 8 64 1000.

(** Two blocks wait for tokens 1 and 2; the last 4 bytes are free. *)
Definition two_pending : RingBuffer :=
  mkRingBuffer [mkBlock 0 40 1 FREE_PENDING_TOKEN; mkBlock 40 20 2 FREE_PENDING_TOKEN]
    8 64 60 0 4 992.

Lemma example_valid n : 4 <= n <= 1000 → valid_params (init_RingBuffer 4 8 n 1000).
Proof. intros. split; cbn; unfold u32_max; [lia..|]. by exists 2. Qed.

Lemma two_pending_Inv : Inv two_pending.
Proof.
  apply Inv_layout. split_and!; [split; cbn; unfold u32_max; [lia..|by exists 2]| |done].
  unfold layout, wrap. cbn. split_and!; try done; try lia; [by right|by left| |by exists 15].
  repeat constructor; [by exists 0|by exists 10].
Qed.


Lemma RingBuffer_Alloc_safe_witness :
  Inv two_pending ∧ none_in_use (blocks_ two_pending) ∧
  ∃ o r' h', Alloc 30 two_pending (0 : TokenCounter) = Done (Some (pointer_at two_pending o, r', h'))
    ∧ Inv r' ∧ (4 | o).
Proof.
  assert (none_in_use (blocks_ two_pending)) as Hu by by repeat constructor.
  split; [apply two_pending_Inv|]. split; [done|].
  destruct (RingBuffer_Alloc_safe (H:=TokenCounter) 30 two_pending 0 two_pending_Inv)
    as (o & r' & h' & d & kept & pads & k & E & HI & _ & _ & _ & _ & _ & _ & Ho & _);
    [by exists 16|done|cbn; lia|].
  by exists o, r', h'.
Defined.

Lemma free_sizes_exact_witness :
  Inv two_pending ∧
  ∃ m r' h', GetLargestFreeSizeNoWaiting two_pending (1 : TokenCounter) = Done (Some (m, r', h'))
    ∧ m = 40.
Proof.
  split; [apply two_pending_Inv|].
  destruct (free_sizes_exact (H:=TokenCounter) two_pending 1 two_pending_Inv)
    as (m & r' & h' & d & E & _). exists m, r', h'. split; [exact E|].
  assert (Done (Some (m, r', h'))
    = Done (Some (40, mkRingBuffer [mkBlock 40 20 2 FREE_PENDING_TOKEN] 8 64 60 40 4 992,
                  (1 : TokenCounter)))) as E'.
  { rewrite <- E. vm_compute. reflexivity. }
  by injection E'.
Defined.

Lemma DiscardBlock_exact_witness :
  blocks_ two_pending = [] ++ mkBlock 0 40 1 FREE_PENDING_TOKEN :: [mkBlock 40 20 2 FREE_PENDING_TOKEN]
  ∧ ∃ r', DiscardBlock (pointer_at two_pending 0) two_pending = Done r' ∧ Inv r'.
Proof.
  split; [reflexivity|].
  destruct (DiscardBlock_exact two_pending [] (mkBlock 0 40 1 FREE_PENDING_TOKEN)
    [mkBlock 40 20 2 FREE_PENDING_TOKEN] two_pending_Inv) as (r' & _ & _ & E & HI & _);
    [reflexivity..|]. by exists r'.
Defined.

Lemma RingBuffer_destructor_waits_witness :
  none_in_use (blocks_ two_pending) ∧
  ∃ h' : TokenCounter, destroy_RingBuffer two_pending (0 : TokenCounter) = Done (Some h').
Proof.
  assert (none_in_use (blocks_ two_pending)) as Hu by by repeat constructor.
  split; [done|].
  destruct (RingBuffer_destructor_waits (H:=TokenCounter) two_pending 0 two_pending_Inv Hu)
    as (h' & E & _). by exists h'.
Defined.

Lemma largest_size_not_allocatable_witness :
  Inv (init_RingBuffer 4 8 10 1000) ∧
  Alloc 10 (init_RingBuffer 4 8 10 1000) (0 : TokenCounter) = DcheckFailed.
Proof.
  assert (Inv (init_RingBuffer 4 8 10 1000)) as HI by (apply init_Inv, example_valid; lia).
  split; [done|].
  apply (largest_size_not_allocatable (H:=TokenCounter) (init_RingBuffer 4 8 10 1000) 0 HI);
    [constructor|]. intros [q Hq]. cbn in Hq. lia.
Defined.
