(* ===== verification/CommandFormat.v ===== *)
(** * gpu/command_buffer/common/cmd_buffer_common.h: the format of commands

    A command buffer is an array of 32-bit entries.  A command starts with a header
    entry, which packs the number of entries of the command into its low 21 bits and
    the command id into its high 11 bits (the layout of the bit fields of
    [CommandHeader] on the little-endian targets), and goes on with its arguments.  A
    command is the list of its entries; each struct [T] of the source with its [Init]
    is a definition [T_Init] that gives this list. *)

From S2P Require Import Prelude.

(** ** CommandHeader *)

Record CommandHeader : Type := mkCommandHeader { header_size : Z; header_command : Z }.

Definition kMaxSize : Z := Z.shiftl 1 21 - 1.

(** [CommandHeader::Init]: the bit fields keep the low bits of what is stored. *)
Definition Header_Init (command size : Z) : outcome CommandHeader :=
  DCHECK (size <=? kMaxSize) ;;
  Done {| header_size := size mod 2097152; header_command := command mod 2048 |}.

(** The header as an entry of the union [CommandBufferEntry], and back. *)
Definition entry_of_header (h : CommandHeader) : Z :=
  Z.lor (header_size h) (Z.shiftl (header_command h) 21).
Definition value_header (entry : Z) : CommandHeader :=
  {| header_size := Z.land entry kMaxSize; header_command := Z.shiftr entry 21 |}.

(** Sizes are [size_t], 64 bits wide; the result is cut to [uint32_t]. *)
Definition ComputeNumEntries (size_in_bytes : Z) : Z :=
  u32 (((size_in_bytes + 4 - 1) mod 18446744073709551616) / 4).

(** ** The common commands *)

Inductive CommandId : Type :=
  | kNoop
  | kSetToken
  | kSetBucketSize
  | kSetBucketData
  | kSetBucketDataImmediate
  | kGetBucketStart
  | kGetBucketData.
#[export] Instance CommandId_eq_dec : EqDecision CommandId.
Proof. solve_decision. Defined.

Definition id_value (id : CommandId) : Z :=
  match id with
  | kNoop => 0
  | kSetToken => 1
  | kSetBucketSize => 2
  | kSetBucketData => 3
  | kSetBucketDataImmediate => 4
  | kGetBucketStart => 5
  | kGetBucketData => 6
  end.

Inductive ArgFlags : Type := kFixed | kAtLeastN.

Definition kArgFlags (id : CommandId) : ArgFlags :=
  match id with
  | kNoop | kSetBucketDataImmediate => kAtLeastN
  | kSetToken | kSetBucketSize | kSetBucketData | kGetBucketStart | kGetBucketData => kFixed
  end.

(** [sizeof] of the struct of the command, in bytes. *)
Definition sizeof_cmd (id : CommandId) : Z :=
  match id with
  | kNoop => 4
  | kSetToken => 8
  | kSetBucketSize => 12
  | kSetBucketData => 24
  | kSetBucketDataImmediate => 16
  | kGetBucketStart => 28
  | kGetBucketData => 24
  end.

Definition SetCmd (id : CommandId) : outcome CommandHeader :=
  Header_Init (id_value id) (s32 (ComputeNumEntries (sizeof_cmd id))).
Definition SetCmdBySize (id : CommandId) (size_of_data_in_bytes : Z) : outcome CommandHeader :=
  Header_Init (id_value id) (s32 (ComputeNumEntries (sizeof_cmd id + size_of_data_in_bytes))).

Definition Noop_Init (skip_count : Z) : outcome (list Z) :=
  DCHECK (0 <? skip_count) ;;
  header ← Header_Init (id_value kNoop) (s32 skip_count);
  Done [entry_of_header header].

Definition SetToken_Init (token : Z) : outcome (list Z) :=
  header ← SetCmd kSetToken;
  Done [entry_of_header header; u32 token].

Definition SetBucketSize_Init (bucket_id size : Z) : outcome (list Z) :=
  header ← SetCmd kSetBucketSize;
  Done [entry_of_header header; bucket_id; size].

Definition SetBucketData_Init (bucket_id offset size shared_memory_id shared_memory_offset : Z) :
    outcome (list Z) :=
  header ← SetCmd kSetBucketData;
  Done [entry_of_header header; bucket_id; offset; size; shared_memory_id;
        shared_memory_offset].

(** The command without the data, which its caller copies behind it. *)
Definition SetBucketDataImmediate_Init (bucket_id offset size : Z) : outcome (list Z) :=
  header ← SetCmdBySize kSetBucketDataImmediate size;
  Done [entry_of_header header; bucket_id; offset; size].

Definition GetBucketStart_Init (bucket_id result_memory_id result_memory_offset
    data_memory_size data_memory_id data_memory_offset : Z) : outcome (list Z) :=
  header ← SetCmd kGetBucketStart;
  Done [entry_of_header header; bucket_id; result_memory_id; result_memory_offset;
        data_memory_size; data_memory_id; data_memory_offset].

Definition GetBucketData_Init (bucket_id offset size shared_memory_id shared_memory_offset : Z) :
    outcome (list Z) :=
  header ← SetCmd kGetBucketData;
  Done [entry_of_header header; bucket_id; offset; size; shared_memory_id;
        shared_memory_offset].

(** ** Headers survive the trip through the buffer *)

Lemma value_entry_header h :
  0 <= header_size h < 2097152 → 0 <= header_command h < 2048 →
  value_header (entry_of_header h) = h ∧ is_u32 (entry_of_header h).
Proof.
  destruct h as [size command]. cbn. intros Hs Hc.
  assert (entry_of_header (mkCommandHeader size command) = size + command * 2 ^ 21) as ->.
  { apply (lor_shiftl_add size command 21); lia. }
  unfold value_header, is_u32, u32_max. change kMaxSize with (Z.ones 21).
  rewrite Z.land_ones, Z.shiftr_div_pow2 by lia. change (2 ^ 21) with 2097152.
  rewrite Z.mod_add, Z.mod_small, Z.div_add, Z.div_small by lia. split; [done|lia].
Qed.

Lemma Header_Init_done command size :
  0 <= size <= kMaxSize → 0 <= command < 2048 →
  Header_Init command size = Done (mkCommandHeader size command).
Proof.
  unfold Header_Init. change kMaxSize with 2097151. intros Hs Hc.
  pass_DCHECK ltac:(apply Z.leb_le; lia). by rewrite !Z.mod_small by lia.
Qed.

(** A list of entries is a command when its header tells its length. *)
Definition is_command (w : list Z) : Prop :=
  ∃ entry args, w = entry :: args ∧ header_size (value_header entry) = Z.of_nat (length w).

(** ** Entries as bytes

    Memory shared with the client is bytes; an entry is four of them, the lowest
    first. *)
Definition is_byte (b : Z) : Prop := 0 <= b < 256.

Definition bytes_of_u32 (v : Z) : list Z :=
  [v mod 256; (v / 256) mod 256; (v / 65536) mod 256; (v / 16777216) mod 256].

Definition u32_of_bytes (bs : list Z) : Z :=
  match bs with
  | b0 :: b1 :: b2 :: b3 :: _ => b0 + 256 * b1 + 65536 * b2 + 16777216 * b3
  | _ => 0
  end.

Fixpoint entries_of_bytes (bs : list Z) : list Z :=
  match bs with
  | b0 :: b1 :: b2 :: b3 :: bs => u32_of_bytes [b0; b1; b2; b3] :: entries_of_bytes bs
  | _ => []
  end.

Definition bytes_of_entries (es : list Z) : list Z := es ≫= bytes_of_u32.

Lemma u32_of_bytes_of_u32 v rest : is_u32 v → u32_of_bytes (bytes_of_u32 v ++ rest) = v.
Proof.
  unfold is_u32, u32_max. intros Hv. cbn.
  pose proof (Z.div_mod v 256 ltac:(lia)). pose proof (Z.div_mod (v / 256) 256 ltac:(lia)).
  pose proof (Z.div_mod (v / 256 / 256) 256 ltac:(lia)).
  rewrite !Z.div_div in * by lia. change (256 * 256 * 256) with 16777216 in *.
  change (256 * 256) with 65536 in *.
  rewrite (Z.mod_small (v / 16777216)); [lia|].
  split; [apply Z.div_pos; lia|apply Z.div_lt_upper_bound; lia].
Qed.

Lemma bytes_of_u32_of_bytes b0 b1 b2 b3 :
  is_byte b0 → is_byte b1 → is_byte b2 → is_byte b3 →
  bytes_of_u32 (u32_of_bytes [b0; b1; b2; b3]) = [b0; b1; b2; b3] ∧
  is_u32 (u32_of_bytes [b0; b1; b2; b3]).
Proof.
  unfold is_byte, bytes_of_u32, u32_of_bytes, is_u32, u32_max. intros.
  set (v := b0 + 256 * b1 + 65536 * b2 + 16777216 * b3).
  assert (v mod 256 = b0 ∧ v / 256 = b1 + 256 * b2 + 65536 * b3) as [-> E1].
  { subst v. split; [symmetry; apply (Z.mod_unique _ _ (b1 + 256 * b2 + 65536 * b3)); lia|].
    symmetry. apply (Z.div_unique _ _ _ b0); lia. }
  assert (v / 65536 = b2 + 256 * b3) as ->.
  { subst v. symmetry. apply (Z.div_unique _ _ _ (b0 + 256 * b1)); lia. }
  assert (v / 16777216 = b3) as ->.
  { subst v. symmetry. apply (Z.div_unique _ _ _ (b0 + 256 * b1 + 65536 * b2)); lia. }
  rewrite E1. split; [|lia]. f_equal.
  f_equal; [|f_equal; [|f_equal]].
  - symmetry. apply (Z.mod_unique _ _ (b2 + 256 * b3)); lia.
  - symmetry. apply (Z.mod_unique _ _ b3); lia.
  - apply Z.mod_small. lia.
Qed.

Lemma length_bytes_of_entries es : length (bytes_of_entries es) = (4 * length es)%nat.
Proof. induction es as [|e es IH]; [done|]. unfold bytes_of_entries in *. cbn. rewrite IH. lia. Qed.

Lemma bytes_of_u32_bytes v : Forall is_byte (bytes_of_u32 v).
Proof. unfold bytes_of_u32, is_byte. repeat constructor; apply Z.mod_pos_bound; lia. Qed.
