(* ===== verification/CommandParser.v ===== *)
(** * gpu/command_buffer/service/cmd_parser.{h,cc}: the command parser

    [CommandParser] reads commands from a circular array of entries, between its get
    and put offsets, and gives them to a handler.  The handler is the pure virtual
    [DoCommand] of [AsyncAPIInterface], a type class here.  A pointer into the buffer
    is the list of the entries from there on; reading past its end is undefined. *)

From S2P Require Import Prelude CommandBufferCommon CommandFormat.

(** [AsyncAPIInterface]: a handler with state [S].  It is given the command id, the
    number of arguments and a pointer to the entries of the command, and looks at no
    entry past the arguments. *)
Class AsyncAPIInterface (S : Type) := {
  DoCommand : Z → Z → list Z → S → Error * S;
  DoCommand_local command arg_count cmd_data s :
    DoCommand command arg_count (take (Z.to_nat (1 + arg_count)) cmd_data) s
      = DoCommand command arg_count cmd_data s
}.

Record CommandParser : Type := mkCommandParser {
  get_ : Z;
  put_ : Z;
  buffer_ : list Z;
  entry_count_ : Z
}.
#[export] Instance eta_CommandParser : Eta CommandParser := λ p,
  mkCommandParser (get_ p) (put_ p) (buffer_ p) (entry_count_ p).

Definition kParseCommandsSlice : nat := 20.

(** The constructor. *)
Definition init_CommandParser : CommandParser :=
  {| get_ := 0; put_ := 0; buffer_ := []; entry_count_ := 0 |}.

(** [SetBuffer]: [shm] is what lies at the address [shm_address], as entries. *)
Definition SetBuffer (shm_address : Z) (shm : list Z) (shm_size offset size : Z)
    (p : CommandParser) : outcome CommandParser :=
  DCHECK (shm_address mod 4 =? 0) ;;
  DCHECK (offset mod 4 =? 0) ;;
  DCHECK (size mod 4 =? 0) ;;
  DCHECK (offset + size <=? shm_size) ;;
  Done (p <| get_ := 0 |> <| put_ := 0 |> <| buffer_ := drop (Z.to_nat (offset / 4)) shm |>
          <| entry_count_ := s32 (size / 4) |>).

Definition set_get (get : Z) (p : CommandParser) : bool * CommandParser :=
  if (0 <=? get) && (get <? entry_count_ p) then (true, p <| get_ := get |>) else (false, p).
Definition set_put (put : Z) (p : CommandParser) : CommandParser := p <| put_ := put |>.
Definition IsEmpty (p : CommandParser) : bool := put_ p =? get_ p.

Section Parser.
Context {S : Type} {handler : AsyncAPIInterface S}.

(** The loop of [DoCommands]; the result is the error, [*entries_processed] and the
    state of the handler. *)
Fixpoint DoCommands_loop (commands_to_process : nat) (cmd_data : list Z)
    (process_pos num_entries : Z) (result : Error) (entries_processed : Z) (s : S) :
    outcome (Error * Z * S) :=
  if (process_pos <? num_entries) && bool_decide (result = kNoError) then
    match commands_to_process with
    | O => Done (result, process_pos, s)
    | Datatypes.S commands_to_process =>
        match cmd_data with
        | [] => DcheckFailed
        | entry :: _ =>
            let header := value_header entry in
            if header_size header =? 0 then Done (kInvalidSize, entries_processed, s)
            else if num_entries <? header_size header + process_pos
            then Done (kOutOfBounds, entries_processed, s)
            else
              let '(result, s) :=
                DoCommand (header_command header) (header_size header - 1) cmd_data s in
              if bool_decide (result ≠ kDeferCommandUntilLater)
              then DoCommands_loop commands_to_process
                     (drop (Z.to_nat (header_size header)) cmd_data)
                     (process_pos + header_size header) num_entries result entries_processed s
              else DoCommands_loop commands_to_process cmd_data process_pos num_entries
                     result entries_processed s
        end
    end
  else Done (result, process_pos, s).

Definition DoCommands (num_commands : nat) (buffer : list Z) (num_entries entries_processed : Z)
    (s : S) : outcome (Error * Z * S) :=
  DoCommands_loop num_commands buffer 0 num_entries kNoError entries_processed s.

Definition ProcessCommands (num_commands : nat) (p : CommandParser) (s : S) :
    outcome (Error * CommandParser * S) :=
  let num_entries :=
    if put_ p <? get_ p then entry_count_ p - get_ p else put_ p - get_ p in
  r ← DoCommands num_commands (drop (Z.to_nat (get_ p)) (buffer_ p)) num_entries 0 s;
  let '(result, entries_processed, s) := r in
  let get := get_ p + entries_processed in
  Done (result, p <| get_ := if get =? entry_count_ p then 0 else get |>, s).

Fixpoint ProcessAllCommands (fuel : nat) (p : CommandParser) (s : S) :
    outcome (option (Error * CommandParser * S)) :=
  match fuel with
  | O => Done None
  | Datatypes.S fuel =>
      if IsEmpty p then Done (Some (kNoError, p, s))
      else
        r ← ProcessCommands kParseCommandsSlice p s;
        let '(error, p, s) := r in
        if bool_decide (error ≠ kNoError) then Done (Some (error, p, s))
        else ProcessAllCommands fuel p s
  end.

(** ** What the parser is for

    [exec] gives a list of commands to the handler, one after the other, up to the
    first that does not return [kNoError]; it returns the error and the commands that
    are left.  A deferred command is left, to be executed again. *)
Definition do_command (w : list Z) (s : S) : Error * S :=
  let header := value_header (hd 0 w) in
  DoCommand (header_command header) (header_size header - 1) w s.

Fixpoint exec (ws : list (list Z)) (s : S) : Error * list (list Z) * S :=
  match ws with
  | [] => (kNoError, [], s)
  | w :: rest =>
      let '(e, s) := do_command w s in
      match e with
      | kNoError => exec rest s
      | kDeferCommandUntilLater => (e, ws, s)
      | _ => (e, rest, s)
      end
  end.

(** The entries from get to put are these commands, none of which is split by the end
    of the array. *)
Inductive pending (p : CommandParser) : list (list Z) → Prop :=
  | pending_straight pre ws post :
      Forall is_command ws → buffer_ p = pre ++ concat ws ++ post →
      get_ p = Z.of_nat (length pre) →
      put_ p = Z.of_nat (length pre) + Z.of_nat (length (concat ws)) →
      put_ p < entry_count_ p →
      pending p ws
  | pending_wrapped front mid back :
      Forall is_command front → Forall is_command back → back ≠ [] →
      buffer_ p = concat front ++ mid ++ concat back →
      entry_count_ p = Z.of_nat (length (buffer_ p)) →
      put_ p = Z.of_nat (length (concat front)) →
      get_ p = Z.of_nat (length (concat front ++ mid)) →
      put_ p < get_ p →
      pending p (back ++ front).

(** *** Lemmas *)

Lemma is_command_size w :
  is_command w → header_size (value_header (hd 0 w)) = Z.of_nat (length w) ∧ w ≠ [].
Proof. by intros (e & args & -> & ?). Qed.

Lemma concat_nonempty ws : Forall is_command ws → ws ≠ [] → (0 < length (concat ws))%nat.
Proof.
  intros Hc Hn. destruct ws as [|w ws]; [done|].
  apply Forall_cons_1 in Hc as [(e & args & -> & _) _]. cbn. lia.
Qed.

(** The handler sees the command alone. *)
Lemma DoCommand_prefix w rest s :
  is_command w →
  DoCommand (header_command (value_header (hd 0 w))) (header_size (value_header (hd 0 w)) - 1)
    (w ++ rest) s = do_command w s.
Proof.
  intros [Hs _]%is_command_size. unfold do_command.
  rewrite <- DoCommand_local, <- (DoCommand_local _ _ w), Hs.
  replace (Z.to_nat (1 + (Z.of_nat (length w) - 1))) with (length w) by lia.
  by rewrite take_app_length, firstn_all.
Qed.

Lemma DoCommands_loop_stop n d pos num e ep (s : S) :
  e ≠ kNoError → DoCommands_loop n d pos num e ep s = Done (e, pos, s).
Proof.
  intros He. destruct n; cbn [DoCommands_loop]; rewrite bool_decide_eq_false_2, andb_false_r; done.
Qed.

Lemma DoCommands_loop_spec n ws : ∀ post pos ep s e rest s',
  Forall is_command ws → exec (take n ws) s = (e, rest, s') →
  DoCommands_loop n (concat ws ++ post) pos (pos + Z.of_nat (length (concat ws))) kNoError ep s
    = Done (e, pos + Z.of_nat (length (concat (take n ws))) - Z.of_nat (length (concat rest)), s').
Proof.
  revert ws. induction n as [|n IH]; intros ws post pos ep s e rest s' Hc He.
  { cbn in He. injection He as <- <- <-. cbn [DoCommands_loop].
    rewrite take_0. cbn [concat length]. case_match; f_equal; f_equal; f_equal; lia. }
  destruct ws as [|w ws].
  { cbn in He. injection He as <- <- <-. cbn [concat length DoCommands_loop].
    rewrite Z.add_0_r, Z.ltb_irrefl. cbn. f_equal; f_equal; f_equal. lia. }
  apply Forall_cons_1 in Hc as [Hw Hc]. pose proof Hw as [Hs Hne]%is_command_size.
  destruct w as [|x w]; [done|]. cbn [hd] in Hs.
  cbn [take] in He |- *. cbn [concat] in *. rewrite <- app_assoc, !length_app.
  cbn [DoCommands_loop app].
  decide_tests ltac:(cbn [length] in *; lia). rewrite bool_decide_eq_true_2 by done. cbn [andb].
 rewrite app_comm_cons.
  rewrite (DoCommand_prefix (x :: w) _ s Hw : DoCommand _ _ _ _ = _).
  cbn [exec] in He. destruct (do_command (x :: w) s) as [e1 s1]. rewrite Hs, Nat2Z.id.
  destruct e1; try (injection He as <- <- <-);
    rewrite ?bool_decide_eq_true_2, ?bool_decide_eq_false_2 by (done || by intros []);
    rewrite ?drop_app_length, ?DoCommands_loop_stop by done.
  2-7: f_equal; f_equal; f_equal; lia.
  2: { cbn [concat]. rewrite !length_app. f_equal; f_equal; f_equal. lia. }
  rewrite Nat2Z.inj_add, Z.add_assoc, (IH ws post _ ep s1 e rest s') by done.
  f_equal; f_equal; f_equal; lia.
Qed.

Lemma exec_app a b s :
  exec (a ++ b) s =
  let '(e, rest, s') := exec a s in
  if bool_decide (e = kNoError) then exec b s' else (e, rest ++ b, s').
Proof.
  revert s. induction a as [|w a IH]; intros s; cbn [app exec]; [done|].
  destruct (do_command w s) as [e1 s1]. by destruct e1.
Qed.

Lemma exec_rest ws s e rest s' :
  exec ws s = (e, rest, s') →
  (∃ executed, ws = executed ++ rest) ∧ (e = kNoError → rest = []).
Proof.
  revert s. induction ws as [|w ws IH]; intros s; cbn [exec].
  { intros [= <- <- <-]. split; [by exists []|done]. }
  destruct (do_command w s) as [e1 s1]. destruct e1;
    try (intros [= <- <- <-]; split; [by exists [w]|done]).
  - intros [(executed & ->) ?]%IH. split; [by exists (w :: executed)|done].
  - intros [= <- <- <-]. split; [by exists []|done].
Qed.

(** [p'] is [p] with another get offset. *)
Definition advanced (p p' : CommandParser) : Prop :=
  put_ p' = put_ p ∧ buffer_ p' = buffer_ p ∧ entry_count_ p' = entry_count_ p.

(** Moving get over the first commands. *)
Definition advance (a : list (list Z)) (p : CommandParser) : CommandParser :=
  let get := get_ p + Z.of_nat (length (concat a)) in
  p <| get_ := if get =? entry_count_ p then 0 else get |>.

Lemma advance_straight p pre a b post :
  Forall is_command (a ++ b) → buffer_ p = pre ++ concat (a ++ b) ++ post →
  get_ p = Z.of_nat (length pre) →
  put_ p = Z.of_nat (length pre) + Z.of_nat (length (concat (a ++ b))) →
  put_ p < entry_count_ p → pending (advance a p) b.
Proof.
  rewrite concat_app, length_app. intros [Hca Hcb]%Forall_app Hb Hg Hp Hn.
  unfold advance. decide_tests ltac:(lia).
  apply (pending_straight _ (pre ++ concat a) b post); cbn; [done|..];
    rewrite ?length_app; try lia.
  by rewrite Hb, <- !app_assoc.
Qed.

Lemma advance_wrapped p front mid a b :
  Forall is_command front → Forall is_command (a ++ b) → a ++ b ≠ [] →
  buffer_ p = concat front ++ mid ++ concat (a ++ b) →
  entry_count_ p = Z.of_nat (length (buffer_ p)) →
  put_ p = Z.of_nat (length (concat front)) →
  get_ p = Z.of_nat (length (concat front ++ mid)) →
  put_ p < get_ p → pending (advance a p) (b ++ front).
Proof.
  rewrite concat_app. intros Hcf [Hca Hcb]%Forall_app Hne Hb Hn Hp Hg Hlt.
  pose proof Hb as El. apply (f_equal length) in El.
  rewrite !length_app in El. rewrite length_app in Hg.
  unfold advance. destruct b as [|w b].
  - cbn in El. decide_tests ltac:(lia).
    apply (pending_straight _ [] front (mid ++ concat a)); cbn; try done; try lia.
    by rewrite Hb, app_nil_r.
  - pose proof (concat_nonempty (w :: b) Hcb ltac:(done)).
    decide_tests ltac:(lia).
    apply (pending_wrapped _ front (mid ++ concat a) (w :: b)); cbn; try done;
      rewrite ?length_app; try lia.
    by rewrite Hb, <- !app_assoc.
Qed.

(** One slice of commands. *)
Lemma ProcessCommands_slice n p s R post e rest s' :
  Forall is_command R → drop (Z.to_nat (get_ p)) (buffer_ p) = concat R ++ post →
  (if put_ p <? get_ p then entry_count_ p - get_ p else put_ p - get_ p)
    = Z.of_nat (length (concat R)) →
  exec (take n R) s = (e, rest, s') →
  ∃ a, R = a ++ rest ++ drop n R ∧ take n R = a ++ rest ∧
    ProcessCommands n p s = Done (e, advance a p, s').
Proof.
  intros Hc Hd Hnum He. destruct (exec_rest _ _ _ _ _ He) as [(a & Ea) _].
  exists a. split_and!; [by rewrite app_assoc, <- Ea, take_drop|done|].
  unfold ProcessCommands, DoCommands. rewrite Hd, Hnum.
  pose proof (DoCommands_loop_spec n R post 0 0 s e rest s' Hc He) as El.
  rewrite Z.add_0_l in El. rewrite El. clear El.
  cbn [mbind outcome_bind]. unfold advance. rewrite Ea, concat_app, length_app.
  replace (0 + Z.of_nat (length (concat a) + length (concat rest)) - Z.of_nat (length (concat rest)))
    with (Z.of_nat (length (concat a))) by lia.
  done.
Qed.

(** One call of [ProcessCommands] executes some of the pending commands, at least
    one, and leaves the others pending. *)
Lemma ProcessCommands_spec n p ws s :
  (0 < n)%nat → 0 <= put_ p → pending p ws → IsEmpty p = false →
  ∃ k e rest s' p', (0 < k <= length ws)%nat ∧ exec (take k ws) s = (e, rest, s') ∧
    ProcessCommands n p s = Done (e, p', s') ∧ advanced p p' ∧
    pending p' (rest ++ drop k ws).
Proof.
  intros Hn Hp0 Hp He. apply Z.eqb_neq in He.
  destruct Hp as [pre ws post Hc Hb Hg Hp Hlt|front mid back Hcf Hcb Hne Hb Hn' Hp Hg Hlt].
  - destruct (exec (take n ws) s) as [[e rest] s'] eqn:Ex.
    destruct (ProcessCommands_slice n p s ws post e rest s') as (a & Ea & Et & Er); [done|..|done|].
    { by rewrite Hb, Hg, Nat2Z.id, drop_app_length. }
    { decide_tests ltac:(lia). lia. }
    exists (Nat.min n (length ws)), e, rest, s', (advance a p).
    assert (ws ≠ []) as Hws by (intros ->; cbn in *; lia).
    assert (0 < length ws)%nat by (destruct ws; [done|cbn; lia]).
    assert (take (Nat.min n (length ws)) ws = take n ws) as Etk.
    { destruct (Nat.min_spec n (length ws)) as [[? ->]|[? ->]]; [done|].
      rewrite firstn_all, take_ge by lia. done. }
    assert (drop (Nat.min n (length ws)) ws = drop n ws) as Edr.
    { destruct (Nat.min_spec n (length ws)) as [[? ->]|[? ->]]; [done|].
      rewrite !drop_ge by lia. done. }
    rewrite Etk, Edr. split_and!; [lia|lia|done|done|done|].
    apply (advance_straight p pre a _ post); rewrite <- ?Ea; done.
  - destruct (exec (take n back) s) as [[e rest] s'] eqn:Ex.
    pose proof Hb as El. apply (f_equal length) in El. rewrite !length_app in El.
    rewrite length_app in Hg.
    destruct (ProcessCommands_slice n p s back [] e rest s') as (a & Ea & Et & Er); [done|..|done|].
    { rewrite Hb, Hg, Nat2Z.id, app_assoc, app_nil_r, <- length_app. apply drop_app_length. }
    { decide_tests ltac:(lia). lia. }
    exists (Nat.min n (length back)), e, rest, s', (advance a p).
    assert (0 < length back)%nat by (destruct back; [done|cbn; lia]).
    assert (take (Nat.min n (length back)) (back ++ front) = take n back) as Etk.
    { rewrite take_app_le by lia.
      destruct (Nat.min_spec n (length back)) as [[? ->]|[? ->]]; [done|].
      rewrite firstn_all, take_ge by lia. done. }
    assert (drop (Nat.min n (length back)) (back ++ front) = drop n back ++ front) as Edr.
    { rewrite drop_app_le by lia.
      destruct (Nat.min_spec n (length back)) as [[? ->]|[? ->]]; [done|].
      rewrite !drop_ge by lia. done. }
    rewrite Etk, Edr, length_app, app_assoc. split_and!; [lia|lia|done|done|done|].
    apply (advance_wrapped p front mid); rewrite <- ?Ea; try done.
    rewrite length_app. lia.
Qed.

Lemma pending_empty p ws : pending p ws → IsEmpty p = true → ws = [].
Proof.
  unfold IsEmpty. intros Hp He%Z.eqb_eq.
  destruct Hp as [pre ws post Hc Hb Hg Hp Hlt|]; [|lia].
  destruct (decide (ws = [])) as [|Hne]; [done|].
  pose proof (concat_nonempty ws Hc Hne). lia.
Qed.

Lemma ProcessAllCommands_exec fuel : ∀ p ws s e rest s',
  0 <= put_ p → pending p ws → (length ws < fuel)%nat → exec ws s = (e, rest, s') →
  ∃ p', ProcessAllCommands fuel p s = Done (Some (e, p', s')) ∧ advanced p p' ∧
    pending p' rest ∧ (e = kNoError → IsEmpty p' = true).
Proof.
  induction fuel as [|fuel IH]; intros p ws s e rest s' Hp0 Hp Hf He; [lia|].
  cbn [ProcessAllCommands]. destruct (IsEmpty p) eqn:Ee.
  { pose proof (pending_empty p ws Hp Ee). subst ws. cbn in He. injection He as <- <- <-.
    by exists p. }
  destruct (ProcessCommands_spec kParseCommandsSlice p ws s) as
    (k & e1 & rest1 & s1 & p1 & Hk & He1 & -> & Hadv & Hp1); [cbv; lia|done..|].
  rewrite <- (take_drop k ws), exec_app, He1 in He. cbn [mbind outcome_bind].
  destruct (decide (e1 = kNoError)) as [->|Hne].
  - rewrite bool_decide_eq_true_2 in He by done. rewrite bool_decide_eq_false_2 by auto.
    destruct (exec_rest _ _ _ _ _ He1) as [_ Hr]. rewrite Hr in Hp1 by done.
    destruct Hadv as (A1 & A2 & A3).
    destruct (IH p1 (drop k ws) s1 e rest s') as (p' & Er & (B1 & B2 & B3) & Hp' & Hemp);
      [by rewrite A1|done|rewrite length_drop; lia|done|].
    exists p'. split_and!; [done| |done|done]. unfold advanced. split_and!; congruence.
  - rewrite bool_decide_eq_false_2 in He by done. rewrite bool_decide_eq_true_2 by done.
    injection He as <- <- <-. by exists p1.
Qed.

(** *** A put offset at the end of the array

    When put is the number of entries, it is never reached: get goes back to 0. *)
Definition never_fails (ws : list (list Z)) : Prop :=
  ∀ w s, w ∈ ws → (do_command w s).1 = kNoError.

Lemma exec_never_fails ws s :
  never_fails ws → ∃ s', exec ws s = (kNoError, [], s').
Proof.
  revert s. induction ws as [|w ws IH]; intros s Hn; cbn [exec]; [by eexists|].
  pose proof (Hn w s ltac:(left)) as Hw.
  destruct (do_command w s) as [e1 s1]. cbn in Hw. subst e1. apply IH.
  intros w' s2 Hin. apply Hn. by right.
Qed.

(** get is at the start of one of the commands that fill the array, and put at its end. *)
Definition put_at_end (ws : list (list Z)) (p : CommandParser) : Prop :=
  buffer_ p = concat ws ∧ entry_count_ p = Z.of_nat (length (concat ws)) ∧
  put_ p = entry_count_ p ∧
  ∃ before after, ws = before ++ after ∧ after ≠ [] ∧
    get_ p = Z.of_nat (length (concat before)).

Lemma put_at_end_not_empty ws p :
  Forall is_command ws → put_at_end ws p → IsEmpty p = false.
Proof.
  intros Hc (Hb & Hn & Hp & before & after & -> & Hne & Hg). apply Z.eqb_neq.
  apply Forall_app in Hc as [_ Hca]. pose proof (concat_nonempty after Hca Hne).
  rewrite concat_app, length_app in Hn. lia.
Qed.

Lemma put_at_end_step ws p s :
  Forall is_command ws → never_fails ws → put_at_end ws p →
  ∃ p' s', ProcessCommands kParseCommandsSlice p s = Done (kNoError, p', s') ∧
    put_at_end ws p' ∧ entry_count_ p' = entry_count_ p.
Proof.
  intros Hc Hnf (Hb & Hn & Hp & before & after & E & Hne & Hg).
  assert (never_fails (take kParseCommandsSlice after)) as Hnf'.
  { intros w s2 Hin. apply Hnf. rewrite E. apply elem_of_app. right.
    eapply elem_of_take in Hin as (i & Hi & _). by eapply list_elem_of_lookup_2. }
  destruct (exec_never_fails _ s Hnf') as (s' & Ex).
  rewrite E in Hc. pose proof Hc as [_ Hca]%Forall_app.
  rewrite E, concat_app in Hb. rewrite E, concat_app, length_app in Hn.
  pose proof (concat_nonempty after Hca Hne).
  destruct (ProcessCommands_slice kParseCommandsSlice p s after [] kNoError [] s')
    as (a & Ea & Et & Er); [done|..|done|].
  { by rewrite Hb, Hg, Nat2Z.id, drop_app_length, app_nil_r. }
  { decide_tests ltac:(lia). lia. }
  cbn [app] in Ea. exists (advance a p), s'. split; [done|]. split; [|done].
  set (rem := drop kParseCommandsSlice after) in *. clearbody rem.
  pose proof (f_equal (λ l, length (concat l)) Ea) as El. cbn in El.
  rewrite concat_app, length_app in El. unfold advance.
  unfold put_at_end. cbn. split_and!.
  - by rewrite E, concat_app.
  - rewrite E, concat_app, length_app. lia.
  - done.
  - destruct rem as [|w rem].
    + cbn in El. decide_tests ltac:(lia). exists [], ws. split_and!; [done| |done].
      rewrite E. by destruct before, after.
    + rewrite Ea in Hca. apply Forall_app in Hca as [_ Hcr].
      pose proof (concat_nonempty (w :: rem) Hcr ltac:(done)).
      decide_tests ltac:(lia). exists (before ++ a), (w :: rem).
      split_and!; [by rewrite E, Ea, app_assoc|done|].
      rewrite concat_app, length_app. lia.
Qed.

End Parser.

(** ** Properties *)

(** [C28] The parser executes the pending commands in order.  Whatever the position of
    the commands in the circular array, as long as none is split by its end,
    [ProcessAllCommands] reads nothing outside of the array, ends within one slice per
    command, and does what giving the commands to the handler one by one does: it
    executes each of them once, in order, up to the first error, returns that error,
    and leaves exactly the commands after it (with a deferred one first) pending.
    Without an error the buffer is empty afterwards. *)
Theorem ProcessAllCommands_fifo {S : Type} {handler : AsyncAPIInterface S}
    (p : CommandParser) (ws : list (list Z)) (s : S) e rest s' (fuel : nat) :
  0 <= put_ p → pending p ws → exec ws s = (e, rest, s') → (length ws < fuel)%nat →
  ∃ p', ProcessAllCommands fuel p s = Done (Some (e, p', s')) ∧ pending p' rest ∧
    put_ p' = put_ p ∧ buffer_ p' = buffer_ p ∧ (e = kNoError → IsEmpty p' = true).
Proof.
  intros Hp0 Hp He Hf.
  destruct (ProcessAllCommands_exec fuel p ws s e rest s' Hp0 Hp Hf He)
    as (p' & E & (A1 & A2 & _) & Hp' & Hemp). by exists p'.
Qed.

(** A handler that records the commands it is given. *)
Definition Log : Type := list (Z * list Z).
#[export] Instance Log_handler : AsyncAPIInterface Log.
Proof.
  refine {| DoCommand command n c s :=
    (kNoError, s ++ [(command, take (Z.to_nat n) (tail (take (Z.to_nat (1 + n)) c)))]) |}.
  intros. by rewrite take_take, Nat.min_id.
Defined.

(** A parser on an array of 8 entries: a [SetToken] at 6, a [Noop] of 3 entries at 0
    and a [SetToken] at 3. *)
Definition example_tokens : list (list Z) :=
  [[2097154; 7]; [3; 0; 0]; [2097154; 8]].
Definition example_parser : CommandParser :=
  mkCommandParser 6 5 [3; 0; 0; 2097154; 8; 99; 2097154; 7] 8.

Lemma example_pending : pending example_parser example_tokens.
Proof.
  apply (pending_wrapped example_parser [[3; 0; 0]; [2097154; 8]] [99] [[2097154; 7]]);
    try done; repeat constructor; by eexists _, _.
Qed.

Lemma ProcessAllCommands_fifo_witness :
  pending example_parser example_tokens ∧
  ∃ p', ProcessAllCommands 4 example_parser ([] : Log)
          = Done (Some (kNoError, p', [(1, [7]); (0, [0; 0]); (1, [8])])) ∧ IsEmpty p' = true.
Proof.
  split; [apply example_pending|].
  destruct (ProcessAllCommands_fifo (S:=Log) example_parser example_tokens [] kNoError []
    [(1, [7]); (0, [0; 0]); (1, [8])] 4) as (p' & E & _ & _ & _ & He);
    [done|apply example_pending|vm_compute; reflexivity|cbn; lia|].
  exists p'. split; [exact E|by apply He].
Defined.
