(* ===== verification/CommonDecoder.v ===== *)
(** * gpu/command_buffer/service/common_decoder.{h,cc}: buckets and common commands

    [CommonDecoder] executes the commands every command buffer has: tokens, and the
    buckets in which a client collects data on the service side.  The engine behind
    it, which owns the shared memory and the token, is the type class
    [CommandBufferEngine].  The arguments come from an untrusted client, so every
    access to memory is checked here: an access out of its block is [DcheckFailed].
    [size_t] is 64 bits wide.  Memory is read once, when the code reads it. *)

From stdpp Require Import gmap.
From S2P Require Import Prelude CommandBufferCommon CommandFormat CommandParser.

(** ** Memory *)

Definition read_mem (offset n : Z) (mem : list Z) : outcome (list Z) :=
  if (0 <=? offset) && (0 <=? n) && (offset + n <=? Z.of_nat (length mem))
  then Done (take (Z.to_nat n) (drop (Z.to_nat offset) mem)) else DcheckFailed.

Definition write_mem (offset : Z) (bs mem : list Z) : outcome (list Z) :=
  if (0 <=? offset) && (offset + Z.of_nat (length bs) <=? Z.of_nat (length mem))
  then Done (take (Z.to_nat offset) mem ++ bs ++ drop (Z.to_nat offset + length bs) mem)
  else DcheckFailed.

(** [base::CheckedNumeric<size_t>]: [None] is an invalid value. *)
Definition checked (v : Z) : option Z :=
  if (0 <=? v) && (v <? 18446744073709551616) then Some v else None.
Definition checked_add (a : option Z) (b : Z) : option Z :=
  a ← a; b ← checked b; checked (a + b).
Definition checked_mul (a : option Z) (b : Z) : option Z :=
  a ← a; b ← checked b; checked (a * b).

(** ** CommonDecoder::Bucket *)

Record Bucket : Type := mkBucket { size_ : Z; data_ : list Z }.

Definition init_Bucket : Bucket := {| size_ := 0; data_ := [] |}.

Definition OffsetSizeValid (offset size : Z) (b : Bucket) : bool :=
  let temp := u64 (offset + size) in (temp <=? size_ b) && (offset <=? temp).

(** The pointer returned is an offset into [data_]. *)
Definition GetData (offset size : Z) (b : Bucket) : option Z :=
  if OffsetSizeValid offset size b then Some offset else None.

Definition SetSize (size : Z) (b : Bucket) : Bucket :=
  if size =? size_ b then b else {| size_ := size; data_ := replicate (Z.to_nat size) 0 |}.

(** [src] is what lies at the source pointer. *)
Definition SetData (src : list Z) (offset size : Z) (b : Bucket) : outcome (bool * Bucket) :=
  if OffsetSizeValid offset size b then
    bytes ← read_mem 0 size src;
    data ← write_mem offset bytes (data_ b);
    Done (true, {| size_ := size_ b; data_ := data |})
  else Done (false, b).

(** A [const char*] is its characters, without the NUL, or [None]. *)
Definition SetFromString (str : option (list Z)) (b : Bucket) : outcome Bucket :=
  match str with
  | None => Done (SetSize 0 b)
  | Some str =>
      let size := Z.of_nat (length str) + 1 in
      r ← SetData (str ++ [0]) 0 size (SetSize size b);
      Done r.2
  end.

Definition GetAsString (b : Bucket) : outcome (option (list Z)) :=
  if size_ b =? 0 then Done None
  else
    match GetData 0 (u64 (size_ b - 1)) b with
    | None => DcheckFailed
    | Some p => s ← read_mem p (size_ b - 1) (data_ b); Done (Some s)
    end.

Definition read_int (offset : Z) (mem : list Z) : outcome Z :=
  bs ← read_mem offset 4 mem; Done (s32 (u32_of_bytes bs)).

(** The loop of [GetAsStrings] over the strings from [ii] on: the offset and the
    length of each, and the total size. *)
Fixpoint strings_loop (n : nat) (ii : Z) (bucket_size : Z) (total_size : option Z)
    (bucket_data : list Z) : outcome (option (list (Z * Z) * option Z)) :=
  match n with
  | O => Done (Some ([], total_size))
  | S n =>
      let str := default 0 total_size in
      length_ii ← read_int (4 + 4 * ii) bucket_data;
      let total_size := checked_add (checked_add total_size length_ii) 1 in
      match total_size with
      | None => Done None
      | Some total =>
          if bucket_size <? total then Done None
          else
            c ← read_mem (str + length_ii) 1 bucket_data;
            if negb (bool_decide (c = [0])) then Done None
            else
              r ← strings_loop n (ii + 1) bucket_size total_size bucket_data;
              Done ('(strs, total_size) ← r; Some ((str, length_ii) :: strs, total_size))
      end
  end.

(** [Some strs] is success, with the offsets and lengths of the strings. *)
Definition GetAsStrings (b : Bucket) : outcome (option (list (Z * Z))) :=
  let bucket_size := size_ b in
  if bucket_size <? 4 then Done None
  else
    match GetData 0 bucket_size b with
    | None => DcheckFailed
    | Some _ =>
        count ← read_int 0 (data_ b);
        if count <? 0 then Done None
        else if (bucket_size - 4) / 5 <? count then Done None
        else
          let total_size := checked_mul (checked 4) (count + 1) in
          match total_size with
          | None => Done None
          | Some _ =>
              r ← strings_loop (Z.to_nat count) 0 bucket_size total_size (data_ b);
              match r with
              | None => Done None
              | Some (strs, total_size) =>
                  if default 0 total_size =? bucket_size then Done (Some strs) else Done None
              end
          end
    end.

(** ** The engine *)

(** A shared memory buffer is its bytes.  [write_memory id offset bytes] is a store
    through a pointer into the buffer [id]; buffers do not change their size. *)
Class CommandBufferEngine (E : Type) := {
  GetSharedMemoryBuffer : Z → E → option (list Z);
  write_memory : Z → Z → list Z → E → E;
  engine_set_token : Z → E → E;
  memory_write id offset bytes mem mem' e :
    GetSharedMemoryBuffer id e = Some mem → write_mem offset bytes mem = Done mem' →
    GetSharedMemoryBuffer id (write_memory id offset bytes e) = Some mem';
  memory_write_size id id' offset bytes e :
    length <$> GetSharedMemoryBuffer id' (write_memory id offset bytes e)
      = length <$> GetSharedMemoryBuffer id' e;
  memory_token id t e : GetSharedMemoryBuffer id (engine_set_token t e) = GetSharedMemoryBuffer id e
}.

(** [Buffer::GetDataAddress], as an offset into the buffer. *)
Definition GetDataAddress (data_offset data_size : Z) (mem : list Z) : option Z :=
  let end' := data_offset + data_size in
  if (u32_max <? end') || (u32 (Z.of_nat (length mem)) <? end') then None else Some data_offset.

(** ** CommonDecoder *)

(** The member [buckets_], the only state of the class but the engine. *)
Notation CommonDecoder := (gmap Z Bucket).
Definition GetBucket (bucket_id : Z) (buckets_ : CommonDecoder) : option Bucket :=
  buckets_ !! bucket_id.

(** The new bucket, or the one there is. *)
Definition CreateBucket (bucket_id : Z) (buckets_ : CommonDecoder) : Bucket * CommonDecoder :=
  match GetBucket bucket_id buckets_ with
  | Some b => (b, buckets_)
  | None => (init_Bucket, <[bucket_id := init_Bucket]> buckets_)
  end.

Definition arg (i : nat) (cmd_data : list Z) : outcome Z :=
  match cmd_data !! i with Some v => Done v | None => DcheckFailed end.

Section Decoder.
Context {E : Type} {engine : CommandBufferEngine E}.

(** A pointer into a shared memory buffer: its id, the bytes of the buffer and the
    offset. *)
Definition GetAddressAndCheckSize (shm_id data_offset data_size : Z) (e : E) :
    option (Z * list Z * Z) :=
  mem ← GetSharedMemoryBuffer (s32 shm_id) e;
  offset ← GetDataAddress data_offset data_size mem;
  Some (s32 shm_id, mem, offset).

(** [memcpy] to a pointer. *)
Definition store (p : Z * list Z * Z) (bytes : list Z) (e : E) : outcome E :=
  let '(id, mem, offset) := p in
  _ ← write_mem offset bytes mem; Done (write_memory id offset bytes e).

Definition handler : Type := Z → list Z → CommonDecoder * E → outcome (Error * (CommonDecoder * E)).

Definition HandleNoop : handler := λ _ _ s, Done (kNoError, s).

Definition HandleSetToken : handler := λ _ cmd_data s,
  token ← arg 1 cmd_data;
  Done (kNoError, (s.1, engine_set_token (s32 token) s.2)).

Definition HandleSetBucketSize : handler := λ _ cmd_data s,
  bucket_id ← arg 1 cmd_data; size ← arg 2 cmd_data;
  let '(bucket, d) := CreateBucket bucket_id s.1 in
  Done (kNoError, (<[bucket_id := SetSize size bucket]> d, s.2)).

(** The end that [HandleSetBucketData] and [HandleSetBucketDataImmediate] share. *)
Definition set_bucket_data (data : list Z) (bucket_id offset size : Z) (s : CommonDecoder * E) :
    outcome (Error * (CommonDecoder * E)) :=
  match GetBucket bucket_id s.1 with
  | None => Done (kInvalidArguments, s)
  | Some bucket =>
      r ← SetData data offset size bucket;
      Done (if r.1 : bool then kNoError else kInvalidArguments,
            (<[bucket_id := r.2]> s.1, s.2))
  end.

Definition HandleSetBucketData : handler := λ _ cmd_data s,
  bucket_id ← arg 1 cmd_data; offset ← arg 2 cmd_data; size ← arg 3 cmd_data;
  shared_memory_id ← arg 4 cmd_data; shared_memory_offset ← arg 5 cmd_data;
  match GetAddressAndCheckSize shared_memory_id shared_memory_offset size s.2 with
  | None => Done (kInvalidArguments, s)
  | Some (_, mem, p) => set_bucket_data (drop (Z.to_nat p) mem) bucket_id offset size s
  end.

Definition HandleSetBucketDataImmediate : handler := λ immediate_data_size cmd_data s,
  bucket_id ← arg 1 cmd_data; offset ← arg 2 cmd_data; size ← arg 3 cmd_data;
  if immediate_data_size <? size then Done (kInvalidArguments, s)
  else set_bucket_data (bytes_of_entries (drop 4 cmd_data)) bucket_id offset size s.

Definition HandleGetBucketStart : handler := λ _ cmd_data s,
  bucket_id ← arg 1 cmd_data;
  result_memory_id ← arg 2 cmd_data; result_memory_offset ← arg 3 cmd_data;
  data_memory_size ← arg 4 cmd_data;
  data_memory_id ← arg 5 cmd_data; data_memory_offset ← arg 6 cmd_data;
  let result := GetAddressAndCheckSize result_memory_id result_memory_offset 4 s.2 in
  let wants_data := negb (data_memory_size =? 0) || negb (data_memory_id =? 0)
                    || negb (data_memory_offset =? 0) in
  let data :=
    if wants_data
    then GetAddressAndCheckSize data_memory_id data_memory_offset data_memory_size s.2
    else None in
  if wants_data && bool_decide (data = None) then Done (kInvalidArguments, s)
  else
    match result with
    | None => Done (kInvalidArguments, s)
    | Some (id, mem, offset) =>
        old ← read_mem offset 4 mem;
        if negb (u32_of_bytes old =? 0) then Done (kInvalidArguments, s)
        else
          match GetBucket bucket_id s.1 with
          | None => Done (kInvalidArguments, s)
          | Some bucket =>
              let bucket_size := u32 (size_ bucket) in
              e ← store (id, mem, offset) (bytes_of_u32 bucket_size) s.2;
              match data with
              | None => Done (kNoError, (s.1, e))
              | Some p =>
                  let size := Z.min data_memory_size bucket_size in
                  match GetData 0 size bucket with
                  | None => DcheckFailed
                  | Some src =>
                      bytes ← read_mem src size (data_ bucket);
                      e ← store p bytes e;
                      Done (kNoError, (s.1, e))
                  end
              end
          end
    end.

Definition HandleGetBucketData : handler := λ _ cmd_data s,
  bucket_id ← arg 1 cmd_data; offset ← arg 2 cmd_data; size ← arg 3 cmd_data;
  shared_memory_id ← arg 4 cmd_data; shared_memory_offset ← arg 5 cmd_data;
  match GetAddressAndCheckSize shared_memory_id shared_memory_offset size s.2 with
  | None => Done (kInvalidArguments, s)
  | Some data =>
      match GetBucket bucket_id s.1 with
      | None => Done (kInvalidArguments, s)
      | Some bucket =>
          match GetData offset size bucket with
          | None => Done (kInvalidArguments, s)
          | Some src =>
              bytes ← read_mem src size (data_ bucket);
              e ← store data bytes s.2;
              Done (kNoError, (s.1, e))
          end
      end
  end.

(** The table [command_info]. *)
Definition command_info (command : Z) : option (handler * CommandId) :=
  match command with
  | 0 => Some (HandleNoop, kNoop)
  | 1 => Some (HandleSetToken, kSetToken)
  | 2 => Some (HandleSetBucketSize, kSetBucketSize)
  | 3 => Some (HandleSetBucketData, kSetBucketData)
  | 4 => Some (HandleSetBucketDataImmediate, kSetBucketDataImmediate)
  | 5 => Some (HandleGetBucketStart, kGetBucketStart)
  | 6 => Some (HandleGetBucketData, kGetBucketData)
  | _ => None
  end.

Definition DoCommonCommand (command arg_count : Z) (cmd_data : list Z) (s : CommonDecoder * E) :
    outcome (Error * (CommonDecoder * E)) :=
  match command_info command with
  | None => Done (kUnknownCommand, s)
  | Some (cmd_handler, id) =>
      let info_arg_count := sizeof_cmd id / 4 - 1 in
      let fits := match kArgFlags id with
                  | kFixed => arg_count =? info_arg_count
                  | kAtLeastN => info_arg_count <=? arg_count
                  end in
      if fits then cmd_handler (u32 ((arg_count - info_arg_count) * 4)) cmd_data s
      else Done (kInvalidArguments, s)
  end.

End Decoder.

(** ** Memory accesses *)

Lemma read_mem_done offset n mem :
  0 <= offset → 0 <= n → offset + n <= Z.of_nat (length mem) →
  read_mem offset n mem = Done (take (Z.to_nat n) (drop (Z.to_nat offset) mem)).
Proof. intros. unfold read_mem. by decide_tests ltac:(lia). Qed.

Lemma read_mem_length offset n mem bs :
  read_mem offset n mem = Done bs → Z.of_nat (length bs) = n.
Proof.
  unfold read_mem. case_match eqn:E; [|done]. intros [= <-]. prop_bools.
  rewrite length_take, length_drop. lia.
Qed.

Lemma write_mem_done offset bs mem :
  0 <= offset → offset + Z.of_nat (length bs) <= Z.of_nat (length mem) →
  write_mem offset bs mem
    = Done (take (Z.to_nat offset) mem ++ bs ++ drop (Z.to_nat offset + length bs) mem).
Proof. intros. unfold write_mem. by decide_tests ltac:(lia). Qed.

Lemma write_mem_length offset bs mem mem' :
  write_mem offset bs mem = Done mem' → length mem' = length mem.
Proof.
  unfold write_mem. case_match eqn:E; [|done]. intros [= <-]. prop_bools.
  rewrite !length_app, length_take, length_drop. lia.
Qed.

(** What was written is read back. *)
Lemma read_write_mem offset bs mem mem' :
  write_mem offset bs mem = Done mem' → read_mem offset (Z.of_nat (length bs)) mem' = Done bs.
Proof.
  intros E. pose proof (write_mem_length _ _ _ _ E). revert E.
  unfold write_mem. case_match eqn:E; [|done]. intros [= <-]. prop_bools.
  rewrite read_mem_done by lia. f_equal. rewrite Nat2Z.id.
  rewrite drop_app_length' by (rewrite length_take; lia). by rewrite take_app_length.
Qed.

Definition wf_bucket (b : Bucket) : Prop :=
  size_ b = Z.of_nat (length (data_ b)) ∧ size_ b <= u32_max.

Definition wf_decoder (d : CommonDecoder) : Prop := map_Forall (λ _, wf_bucket) d.

Lemma OffsetSizeValid_spec offset size b :
  is_u32 offset → is_u32 size → wf_bucket b →
  OffsetSizeValid offset size b = (offset + size <=? size_ b).
Proof.
  unfold is_u32, u32_max, OffsetSizeValid, u64. intros Ho Hs [Hb Hu].
  rewrite Z.mod_small by lia. rewrite (proj2 (Z.leb_le offset _)) by lia. apply andb_true_r.
Qed.

Lemma SetSize_wf size b : is_u32 size → wf_bucket b → wf_bucket (SetSize size b).
Proof.
  unfold is_u32, SetSize. intros Hs Hb. case_match; [done|].
  split; cbn; [rewrite length_replicate; lia|lia].
Qed.

(** [SetData] copies the bytes if they fit, and leaves the bucket alone if not. *)
Lemma SetData_spec src offset size b :
  is_u32 offset → is_u32 size → wf_bucket b → size <= Z.of_nat (length src) →
  ∃ data, SetData src offset size b
    = Done (offset + size <=? size_ b, mkBucket (size_ b) data) ∧
    wf_bucket (mkBucket (size_ b) data) ∧
    data = if offset + size <=? size_ b
           then take (Z.to_nat offset) (data_ b) ++ take (Z.to_nat size) src
                ++ drop (Z.to_nat (offset + size)) (data_ b)
           else data_ b.
Proof.
  intros Ho Hs Hb Hl. unfold SetData. rewrite OffsetSizeValid_spec by done.
  unfold is_u32 in *. destruct (Z.leb_spec (offset + size) (size_ b)) as [Hle|].
  - rewrite read_mem_done by lia. cbn [mbind outcome_bind]. rewrite drop_0.
    assert (length (take (Z.to_nat size) src) = Z.to_nat size) as El.
    { rewrite length_take. lia. }
    pose proof Hb as [Hb1 Hb2]. rewrite write_mem_done by lia. cbn [mbind outcome_bind].
    rewrite El, <- Z2Nat.inj_add by lia. eexists. split; [done|]. split; [|done].
    split; [|done]. cbn. rewrite !length_app, El, length_take, length_drop. lia.
  - exists (data_ b). split_and!; [by destruct b| |done]. by destruct b.
Qed.

Section Safety.
Context {E : Type} {engine : CommandBufferEngine E}.

(** The buffers of [e'] are those of [e], as big as before. *)
Definition same_buffers (e e' : E) : Prop :=
  ∀ id, length <$> GetSharedMemoryBuffer id e' = length <$> GetSharedMemoryBuffer id e.

Lemma GetAddressAndCheckSize_spec shm_id offset size (e : E) id mem p :
  GetAddressAndCheckSize shm_id offset size e = Some (id, mem, p) →
  id = s32 shm_id ∧ GetSharedMemoryBuffer id e = Some mem ∧ p = offset ∧
  offset + size <= Z.of_nat (length mem).
Proof.
  unfold GetAddressAndCheckSize, GetDataAddress.
  intros (mem' & Em & (p' & Ep & [= <- <- <-])%bind_Some)%bind_Some.
  revert Ep. case_match eqn:Et; [done|]. intros [= <-]. prop_bools. split_and!; [done..|].
  assert (u32 (Z.of_nat (length mem')) <= Z.of_nat (length mem')); [|lia].
  unfold u32. apply Z.mod_le; lia.
Qed.

Lemma store_spec id mem p bytes (e : E) :
  0 <= p → p + Z.of_nat (length bytes) <= Z.of_nat (length mem) →
  store (id, mem, p) bytes e = Done (write_memory id p bytes e) ∧
  same_buffers e (write_memory id p bytes e).
Proof.
  intros Hp Hl. unfold store. rewrite write_mem_done by done. split; [done|].
  intros id'. apply memory_write_size.
Qed.

(** A command with its arguments: [arg] finds the first [n]. *)
Lemma arg_done i n cmd_data :
  Forall is_u32 cmd_data → 1 + n <= Z.of_nat (length cmd_data) → Z.of_nat i <= n →
  ∃ v, arg i cmd_data = Done v ∧ is_u32 v.
Proof.
  intros Hf Hl Hi. unfold arg. destruct (lookup_lt_is_Some_2 cmd_data i) as [v Ev]; [lia|].
  rewrite Ev. exists v. split; [done|]. by eapply Forall_lookup_1.
Qed.

(** What a handler may do to its state. *)
Definition safe_result (s : CommonDecoder * E) (m : outcome (Error * (CommonDecoder * E))) : Prop :=
  ∃ r d e, m = Done (r, (d, e)) ∧ wf_decoder d ∧ same_buffers s.2 e.

Lemma safe_same r s : wf_decoder s.1 → safe_result s (Done (r, s)).
Proof. destruct s as [d e]. intros. by exists r, d, e. Qed.

Lemma set_bucket_data_safe data bucket_id offset size s :
  wf_decoder s.1 → is_u32 offset → is_u32 size → size <= Z.of_nat (length data) →
  safe_result s (set_bucket_data data bucket_id offset size s).
Proof.
  intros Hd Ho Hs Hl. unfold set_bucket_data, GetBucket.
  destruct (s.1 !! bucket_id) as [b|] eqn:Eb; [|by apply safe_same].
  pose proof (map_Forall_lookup_1 _ _ _ _ Hd Eb) as Hb.
  destruct (SetData_spec data offset size b Ho Hs Hb Hl) as (data' & -> & Hb' & _).
  cbn [mbind outcome_bind]. eexists _, _, _. split; [done|]. split; [|done].
  by apply map_Forall_insert_2.
Qed.

(** Reads argument [i] of a command with at least [n] arguments. *)
Ltac take_arg i n v :=
  match goal with
  | Hf : Forall is_u32 ?c |- context [arg i ?c] =>
      let E := fresh "E" in
      destruct (arg_done i n c Hf ltac:(lia) ltac:(lia)) as (v & E & ?);
      rewrite E; cbn [mbind outcome_bind]; clear E
  end.

Lemma HandleSetBucketSize_safe isz c s :
  wf_decoder s.1 → Forall is_u32 c → 3 <= Z.of_nat (length c) →
  safe_result s (HandleSetBucketSize isz c s).
Proof.
  intros Hd Hf Hl. unfold HandleSetBucketSize. take_arg 1%nat 2 bucket_id. take_arg 2%nat 2 sz.
  unfold CreateBucket, GetBucket. destruct (s.1 !! bucket_id) as [b|] eqn:Eb;
    eexists _, _, _; (split; [done|]); (split; [|done]).
  - apply map_Forall_insert_2; [|done]. apply SetSize_wf; [done|].
    exact (map_Forall_lookup_1 _ _ _ _ Hd Eb).
  - apply map_Forall_insert_2; [by apply SetSize_wf|]. by apply map_Forall_insert_2.
Qed.

Lemma HandleSetBucketData_safe isz c s :
  wf_decoder s.1 → Forall is_u32 c → 6 <= Z.of_nat (length c) →
  safe_result s (HandleSetBucketData isz c s).
Proof.
  intros Hd Hf Hl. unfold HandleSetBucketData.
  take_arg 1%nat 5 bucket_id. take_arg 2%nat 5 offset. take_arg 3%nat 5 sz. take_arg 4%nat 5 shm_id. take_arg 5%nat 5 shm_off.
  destruct (GetAddressAndCheckSize _ _ _ _) as [[[id mem] p]|] eqn:Ea; [|by apply safe_same].
  apply GetAddressAndCheckSize_spec in Ea as (_ & _ & -> & Hin).
  apply set_bucket_data_safe; [done..|]. unfold is_u32 in *. rewrite length_drop. lia.
Qed.

Lemma HandleSetBucketDataImmediate_safe n c s :
  wf_decoder s.1 → Forall is_u32 c → 3 <= n → 1 + n <= Z.of_nat (length c) →
  safe_result s (HandleSetBucketDataImmediate (u32 ((n - 3) * 4)) c s).
Proof.
  intros Hd Hf Hn Hl. unfold HandleSetBucketDataImmediate.
  take_arg 1%nat n bucket_id. take_arg 2%nat n offset. take_arg 3%nat n sz.
  case_match eqn:Et; [by apply safe_same|]. prop_bools.
  apply set_bucket_data_safe; [done..|].
  rewrite length_bytes_of_entries, length_drop.
  assert (u32 ((n - 3) * 4) <= (n - 3) * 4) by (unfold u32; apply Z.mod_le; lia). lia.
Qed.

Lemma HandleGetBucketData_safe isz c s :
  wf_decoder s.1 → Forall is_u32 c → 6 <= Z.of_nat (length c) →
  safe_result s (HandleGetBucketData isz c s).
Proof.
  intros Hd Hf Hl. unfold HandleGetBucketData.
  take_arg 1%nat 5 bucket_id. take_arg 2%nat 5 offset. take_arg 3%nat 5 sz. take_arg 4%nat 5 shm_id. take_arg 5%nat 5 shm_off.
  destruct (GetAddressAndCheckSize _ _ _ _) as [[[id mem] p]|] eqn:Ea; [|by apply safe_same].
  apply GetAddressAndCheckSize_spec in Ea as (_ & _ & -> & Hin).
  unfold GetBucket. destruct (s.1 !! bucket_id) as [b|] eqn:Eb; [|by apply safe_same].
  pose proof (map_Forall_lookup_1 _ _ _ _ Hd Eb) as Hb. pose proof Hb as [Hb1 Hb2].
  unfold GetData. rewrite OffsetSizeValid_spec by done.
  destruct (Z.leb_spec (offset + sz) (size_ b)); [|by apply safe_same]. unfold is_u32 in *.
  rewrite read_mem_done by lia. cbn [mbind outcome_bind].
  destruct (store_spec id mem shm_off (take (Z.to_nat sz) (drop (Z.to_nat offset) (data_ b))) s.2)
    as [-> Hsame]; [lia|rewrite length_take, length_drop; lia|].
  cbn [mbind outcome_bind]. by eexists _, _, _.
Qed.

Lemma HandleGetBucketStart_safe isz c s :
  wf_decoder s.1 → Forall is_u32 c → 7 <= Z.of_nat (length c) →
  safe_result s (HandleGetBucketStart isz c s).
Proof.
  intros Hd Hf Hl. unfold HandleGetBucketStart.
  take_arg 1%nat 6 bucket_id. take_arg 2%nat 6 rid. take_arg 3%nat 6 roff.
  take_arg 4%nat 6 dsize. take_arg 5%nat 6 did. take_arg 6%nat 6 doff.
  set (wants := negb (dsize =? 0) || _ || _). clearbody wants.
  set (data := if wants then _ else None).
  assert (∀ p, data = Some p → p.2 = doff ∧ doff + dsize <= Z.of_nat (length p.1.2)) as Hdata.
  { subst data. intros [[id mem] p]. destruct wants; [|done].
    intros (_ & _ & -> & ?)%GetAddressAndCheckSize_spec. done. }
  case_match eqn:Ew; [by apply safe_same|]. clearbody data.
  destruct (GetAddressAndCheckSize rid _ _ _) as [[[id mem] p]|] eqn:Ea; [|by apply safe_same].
  apply GetAddressAndCheckSize_spec in Ea as (_ & _ & -> & Hin). unfold is_u32 in *.
  rewrite read_mem_done by lia. cbn [mbind outcome_bind].
  case_match; [by apply safe_same|].
  unfold GetBucket. destruct (s.1 !! bucket_id) as [b|] eqn:Eb; [|by apply safe_same].
  pose proof (map_Forall_lookup_1 _ _ _ _ Hd Eb) as Hb. pose proof Hb as [Hb1 Hb2].
  destruct (store_spec id mem roff (bytes_of_u32 (u32 (size_ b))) s.2) as [-> Hsame];
    [lia|cbn [length bytes_of_u32]; lia|].
  cbn [mbind outcome_bind]. destruct data as [[[id' mem'] p']|]; [|by eexists _, _, _].
  destruct (Hdata _ eq_refl) as [Hp' Hin']. cbn in Hp', Hin'. subst p'.
  rewrite (u32_small (size_ b)) in Hsame |- * by (unfold is_u32; lia).
  unfold GetData. rewrite OffsetSizeValid_spec; [|unfold is_u32; lia..|done].
  decide_tests ltac:(lia). rewrite read_mem_done by lia. cbn [mbind outcome_bind].
  destruct (store_spec id' mem' doff (take (Z.to_nat (Z.min dsize (size_ b))) (drop (Z.to_nat 0) (data_ b)))
    (write_memory id roff (bytes_of_u32 (size_ b)) s.2)) as [-> Hsame'];
    [lia|rewrite length_take, length_drop; lia|].
  cbn [mbind outcome_bind]. eexists _, _, _. split_and!; [done|done|].
  intros i. rewrite Hsame'. apply Hsame.
Qed.

Lemma DoCommonCommand_total command arg_count c s :
  wf_decoder s.1 → Forall is_u32 c → 0 <= arg_count → 1 + arg_count <= Z.of_nat (length c) →
  safe_result s (DoCommonCommand command arg_count c s).
Proof.
  intros Hd Hf Hn Hl. unfold DoCommonCommand.
  destruct (command_info command) as [[h id]|] eqn:Ei; [|by apply safe_same].
  assert (∃ k, command = k ∧ 0 <= k <= 6) as (k & -> & Hk).
  { exists command. split; [done|]. unfold command_info in Ei. by repeat (case_match; try done; try lia). }
  assert (k = 0 ∨ k = 1 ∨ k = 2 ∨ k = 3 ∨ k = 4 ∨ k = 5 ∨ k = 6)
    as [->|[->|[->|[->|[->|[->| ->]]]]]] by lia;
    injection Ei as <- <-; cbn [kArgFlags sizeof_cmd];
    match goal with |- context [if ?t then _ else _] => destruct t eqn:Et end;
    try (by apply safe_same); prop_bools.
  - unfold HandleSetToken. change (8 / 4 - 1) with 1 in *. take_arg 1%nat 1 t.
    eexists _, _, _. split_and!; [done|done|]. intros i. by rewrite memory_token.
  - change (12 / 4 - 1) with 2 in *. apply HandleSetBucketSize_safe; [done..|lia].
  - change (24 / 4 - 1) with 5 in *. apply HandleSetBucketData_safe; [done..|lia].
  - change (16 / 4 - 1) with 3 in *. by apply HandleSetBucketDataImmediate_safe.
  - change (28 / 4 - 1) with 6 in *. apply HandleGetBucketStart_safe; [done..|lia].
  - change (24 / 4 - 1) with 5 in *. apply HandleGetBucketData_safe; [done..|lia].
Qed.

End Safety.

(** ** The decoder as a handler of the parser *)

Lemma arg_take i k c : (i < k)%nat → arg i (take k c) = arg i c.
Proof. intros. unfold arg. by rewrite lookup_take_lt. Qed.

Lemma bytes_of_entries_take k es :
  bytes_of_entries (take k es) = take (4 * k) (bytes_of_entries es).
Proof.
  revert k. induction es as [|e es IH]; intros [|k]; [done..|].
  replace (4 * Datatypes.S k)%nat with (4 + 4 * k)%nat by lia.
  cbn [take]. unfold bytes_of_entries in *. cbn [mbind list_bind]. rewrite IH. done.
Qed.

Lemma SetData_take m src offset sz b :
  sz <= Z.of_nat m → SetData (take m src) offset sz b = SetData src offset sz b.
Proof.
  intros Hm. unfold SetData. case_match; [|done]. f_equal. unfold read_mem.
  rewrite length_take. destruct (Z.leb_spec 0 sz); [|done]. cbn [andb].
  destruct (Z.leb_spec (0 + sz) (Z.of_nat (length src))) as [Hl|Hl]; decide_tests ltac:(lia);
    [|done].
  f_equal. change (Z.to_nat 0) with 0%nat. rewrite !drop_0, take_take. f_equal. lia.
Qed.

Section Handler.
Context {E : Type} {engine : CommandBufferEngine E}.

Lemma DoCommonCommand_local command n c (s : CommonDecoder * E) :
  DoCommonCommand command n (take (Z.to_nat (1 + n)) c) s = DoCommonCommand command n c s.
Proof.
  unfold DoCommonCommand. destruct (command_info command) as [[h id]|] eqn:Ei; [|done].
  case_match eqn:Et; [|done]. unfold command_info in Ei.
  repeat (case_match; try done); injection Ei as <- <-;
    cbn in Et; prop_bools; subst; try done;
    unfold HandleSetToken, HandleSetBucketSize, HandleSetBucketData,
      HandleSetBucketDataImmediate, HandleGetBucketStart, HandleGetBucketData;
    try change (16 / 4 - 1) with 3 in *;
    rewrite !arg_take by first [lia|vm_compute; lia]; try done.
  destruct (arg 1 c) as [bid|], (arg 2 c) as [offset|], (arg 3 c) as [sz|]; try done.
  cbn [mbind outcome_bind]. destruct (Z.ltb_spec (u32 ((n - (sizeof_cmd kSetBucketDataImmediate / 4 - 1)) * 4)) sz)
    as [|Hs]; [done|]. change (sizeof_cmd kSetBucketDataImmediate / 4 - 1) with 3 in Hs.
  unfold set_bucket_data. destruct (GetBucket bid s.1); [|done].
  rewrite skipn_firstn_comm, bytes_of_entries_take. rewrite SetData_take; [done|].
  assert (u32 ((n - 3) * 4) <= (n - 3) * 4) by (unfold u32; apply Z.mod_le; lia). lia.
Qed.

(** [DoCommand] of a decoder that has the common commands only.  The second case is
    that of an access out of its block, which [DoCommonCommand_total] excludes. *)
#[export] Instance CommonDecoder_handler : AsyncAPIInterface (CommonDecoder * E).
Proof.
  refine {| DoCommand command n c s :=
              match DoCommonCommand command n c s with
              | Done r => r
              | DcheckFailed => (kGenericError, s)
              end |}.
  intros. by rewrite DoCommonCommand_local.
Defined.

Lemma do_command_common w (s s' : CommonDecoder * E) r :
  DoCommonCommand (header_command (value_header (hd 0 w)))
    (header_size (value_header (hd 0 w)) - 1) w s = Done (r, s') →
  do_command w s = (r, s').
Proof. intros Hc. unfold do_command, DoCommand, CommonDecoder_handler. by rewrite Hc. Qed.

End Handler.


(** An engine of its own: buffers by id, and the token. *)
Record Memory : Type := mkMemory { buffers : gmap Z (list Z); last_token : Z }.

Definition memory_store (id offset : Z) (bytes : list Z) (m : Memory) : Memory :=
  match buffers m !! id with
  | Some mem =>
      match write_mem offset bytes mem with
      | Done mem' => mkMemory (<[id := mem']> (buffers m)) (last_token m)
      | DcheckFailed => m
      end
  | None => m
  end.

#[export] Instance Memory_engine : CommandBufferEngine Memory.
Proof.
  refine {| GetSharedMemoryBuffer id m := buffers m !! id;
            write_memory := memory_store;
            engine_set_token t m := mkMemory (buffers m) t |}.
  - intros id offset bytes mem mem' m E1 E2. unfold memory_store. rewrite E1, E2. cbn.
    apply lookup_insert_eq.
  - intros id id' offset bytes m. unfold memory_store.
    destruct (buffers m !! id) as [mem|] eqn:E1; [|done].
    destruct (write_mem offset bytes mem) as [mem'|] eqn:E2; [|done]. cbn.
    destruct (decide (id = id')) as [->|Hne].
    + rewrite lookup_insert_eq, E1. cbn. f_equal. by apply write_mem_length in E2.
    + by rewrite lookup_insert_ne.
  - done.
Defined.

Definition example_memory : Memory := mkMemory {[ 5 := replicate 16 1 ]} 0.
Definition example_buckets : CommonDecoder := {[ 3 := mkBucket 4 [104; 105; 33; 0] ]}.

Lemma example_buckets_wf : wf_decoder example_buckets.
Proof. apply map_Forall_singleton. done. Qed.


(** ** Sending data through a bucket *)

(** The command by which a client sends [chunk] to [offset] of a bucket: the header and
    the arguments, then enough entries for the bytes of the chunk. *)
Definition is_immediate (w : list Z) (bucket_id offset : Z) (chunk : list Z) : Prop :=
  ∃ args data,
    SetBucketDataImmediate_Init bucket_id offset (Z.of_nat (length chunk)) = Done args ∧
    w = args ++ data ∧
    length w = Z.to_nat (ComputeNumEntries (16 + Z.of_nat (length chunk))) ∧
    take (length chunk) (bytes_of_entries data) = chunk.

(** The commands that send the chunks one after the other, from [offset] on. *)
Fixpoint upload (bucket_id offset : Z) (chunks ws : list (list Z)) : Prop :=
  match chunks, ws with
  | [], [] => True
  | chunk :: chunks, w :: ws =>
      is_immediate w bucket_id offset chunk ∧
      upload bucket_id (offset + Z.of_nat (length chunk)) chunks ws
  | _, _ => False
  end.

Lemma ComputeNumEntries_spec n :
  0 <= n <= u32_max → n <= 4 * ComputeNumEntries n < n + 4 ∧ ComputeNumEntries n < 2147483648.
Proof.
  unfold u32_max, ComputeNumEntries. intros Hn. rewrite Z.mod_small by lia.
  pose proof (Z.div_mod (n + 4 - 1) 4 ltac:(lia)).
  pose proof (Z.mod_pos_bound (n + 4 - 1) 4 ltac:(lia)).
  rewrite u32_small by auto with machine. lia.
Qed.

(** The header a command of the table starts with. *)
Lemma SetCmd_header id :
  SetCmd id = Done (mkCommandHeader (sizeof_cmd id / 4) (id_value id)) ∧
  value_header (entry_of_header (mkCommandHeader (sizeof_cmd id / 4) (id_value id)))
    = mkCommandHeader (sizeof_cmd id / 4) (id_value id).
Proof. by destruct id. Qed.

Lemma immediate_header n h :
  0 <= n → 16 + n <= u32_max → SetCmdBySize kSetBucketDataImmediate n = Done h →
  value_header (entry_of_header h) = mkCommandHeader (ComputeNumEntries (16 + n)) 4.
Proof.
  intros Hn Hu. unfold SetCmdBySize, Header_Init.
  change (sizeof_cmd kSetBucketDataImmediate) with 16.
  destruct (ComputeNumEntries_spec (16 + n)) as [Hc1 Hc2]; [lia|].
  rewrite s32_small by lia. intros E. inv_done. subst h. prop_bools.
  change kMaxSize with 2097151 in *.
  rewrite (Z.mod_small (ComputeNumEntries (16 + n))) by lia.
  change (id_value kSetBucketDataImmediate mod 2048) with 4.
  apply value_entry_header; cbn; lia.
Qed.

Section Upload.
Context {E : Type} {engine : CommandBufferEngine E}.
Implicit Types (d : CommonDecoder) (e : E).

(** [mem] with [bytes] at [offset]. *)
Definition overwrite (offset : Z) (bytes mem : list Z) : list Z :=
  take (Z.to_nat offset) mem ++ bytes ++ drop (Z.to_nat offset + length bytes) mem.

Lemma do_immediate w id offset chunk d e b :
  is_immediate w id offset chunk → d !! id = Some b → wf_bucket b →
  0 <= offset → offset + Z.of_nat (length chunk) <= size_ b → size_ b + 16 <= u32_max →
  do_command w (d, e)
    = (kNoError, (<[id := mkBucket (size_ b) (overwrite offset chunk (data_ b))]> d, e)).
Proof.
  intros (args & data & Ei & -> & Hl & Hd) Hb Hw Ho Hs Hu.
  unfold SetBucketDataImmediate_Init in Ei. apply bind_done in Ei as (h & Eh & [= <-]).
  set (n := Z.of_nat (length chunk)) in *.
  apply immediate_header in Eh; [|lia..].
  destruct (ComputeNumEntries_spec (16 + n)) as [Hc1 Hc2]; [lia|].
  apply do_command_common. cbn [app hd]. rewrite Eh. cbn [header_size header_command].
  unfold DoCommonCommand. cbn [command_info kArgFlags sizeof_cmd].
  change (16 / 4 - 1) with 3. cbn [app length] in Hl.
  decide_tests ltac:(lia).
  unfold HandleSetBucketDataImmediate, arg. cbn [lookup list_lookup mbind outcome_bind].
  rewrite (u32_small ((ComputeNumEntries (16 + n) - 1 - 3) * 4))
    by auto with machine.
  decide_tests ltac:(lia).
  change (drop 4 _) with data.
  unfold set_bucket_data, GetBucket. cbn [fst snd]. rewrite Hb.
  destruct (SetData_spec (bytes_of_entries data) offset n b) as (data' & -> & _ & ->);
    [unfold is_u32; lia..|done| |].
  { rewrite length_bytes_of_entries. lia. }
  cbn [mbind outcome_bind fst snd]. decide_tests ltac:(lia).
  unfold overwrite. subst n. rewrite Nat2Z.id, Hd.
  replace (Z.to_nat (offset + Z.of_nat (length chunk))) with (Z.to_nat offset + length chunk)%nat
    by lia.
  done.
Qed.

Lemma exec_upload id chunks : ∀ ws offset d e b prefix,
  upload id offset chunks ws → d !! id = Some b → wf_bucket b → size_ b + 16 <= u32_max →
  offset = Z.of_nat (length prefix) → take (length prefix) (data_ b) = prefix →
  offset + Z.of_nat (length (concat chunks)) = size_ b →
  exec ws (d, e) = (kNoError, [], (<[id := mkBucket (size_ b) (prefix ++ concat chunks)]> d, e)).
Proof.
  induction chunks as [|chunk chunks IH]; intros ws offset d e b prefix Hup Hb Hw Hu Ho Hp Hs;
    destruct ws as [|w ws]; try done; cbn [upload exec] in *.
  - pose proof Hw as [Hw1 _]. cbn [concat length] in Hs. rewrite app_nil_r.
    assert (prefix = data_ b) as ->.
    { rewrite <- Hp. apply take_ge. lia. }
    destruct b as [n data]. cbn. do 2 f_equal. symmetry. by apply (fin_maps.insert_id (M:=gmap Z)).
  - destruct Hup as [Hi Hup]. cbn [concat] in Hs |- *. rewrite length_app in Hs.
    pose proof Hw as [Hw1 Hw2].
    rewrite (do_immediate w id offset chunk d e b) by (done || lia).
    set (b' := mkBucket (size_ b) (overwrite offset chunk (data_ b))).
    assert (data_ b' = prefix ++ chunk ++ drop (length prefix + length chunk) (data_ b)) as Ed.
    { cbn. unfold overwrite. rewrite Ho, Nat2Z.id, Hp. done. }
    rewrite (IH ws (offset + Z.of_nat (length chunk)) _ e b' (prefix ++ chunk)); try done.
    + rewrite app_assoc. do 2 f_equal. apply (fin_maps.insert_insert_eq (M:=gmap Z)).
    + apply (fin_maps.lookup_insert_eq (M:=gmap Z)).
    + split; [|done]. rewrite Ed. cbn. rewrite !length_app, length_drop. lia.
    + rewrite length_app. lia.
    + rewrite Ed, app_assoc. by rewrite take_app_length.
    + cbn. lia.
Qed.

Lemma do_set_bucket_size w id n d e :
  SetBucketSize_Init id n = Done w → wf_decoder d → is_u32 n →
  ∃ b, do_command w (d, e) = (kNoError, (<[id := b]> d, e)) ∧ wf_bucket b ∧ size_ b = n.
Proof.
  intros Ei Hd Hn. unfold SetBucketSize_Init in Ei. destruct (SetCmd_header kSetBucketSize) as [Es Ev].
  rewrite Es in Ei.
  cbn [mbind outcome_bind] in Ei. apply (proj1 (Done_eq _ _)) in Ei. subst w.
  set (b0 := default init_Bucket (GetBucket id d)).
  assert (wf_bucket b0) as Hb0.
  { subst b0. unfold GetBucket. destruct (d !! id) as [b|] eqn:Eb; [|done].
    exact (map_Forall_lookup_1 _ _ _ _ Hd Eb). }
  exists (SetSize n b0). split_and!; [|by apply SetSize_wf|].
  - apply do_command_common. cbn [hd]. rewrite Ev. cbn [header_size header_command id_value].
    unfold DoCommonCommand. cbn [command_info kArgFlags]. rewrite Z.eqb_refl.
    unfold HandleSetBucketSize, arg. cbn [lookup list_lookup mbind outcome_bind fst snd].
    unfold CreateBucket. subst b0. destruct (GetBucket id d) eqn:Eb; cbn [default]; [done|].
    do 3 f_equal. apply (fin_maps.insert_insert_eq (M:=gmap Z)).
  - unfold SetSize. case_match eqn:Et; [by apply Z.eqb_eq in Et|done].
Qed.

Lemma do_get_bucket_data w id n shm off d e b mem :
  GetBucketData_Init id 0 n shm off = Done w → d !! id = Some b → wf_bucket b → size_ b = n →
  GetSharedMemoryBuffer (s32 shm) e = Some mem → Z.of_nat (length mem) <= u32_max →
  0 <= off → off + n <= Z.of_nat (length mem) →
  do_command w (d, e) = (kNoError, (d, write_memory (s32 shm) off (data_ b) e)).
Proof.
  intros Ei Hb [Hw1 Hw2] Hn Hm Hlm Ho Hon. unfold GetBucketData_Init in Ei.
  destruct (SetCmd_header kGetBucketData) as [Es Ev]. rewrite Es in Ei.
  cbn [mbind outcome_bind] in Ei. apply (proj1 (Done_eq _ _)) in Ei. subst w.
  apply do_command_common. cbn [hd]. rewrite Ev. cbn [header_size header_command id_value].
  unfold DoCommonCommand. cbn [command_info kArgFlags]. rewrite Z.eqb_refl.
  unfold HandleGetBucketData, arg. cbn [lookup list_lookup mbind outcome_bind fst snd].
  unfold GetAddressAndCheckSize, GetDataAddress. rewrite Hm. cbn [mbind option_bind].
  rewrite u32_small by (unfold is_u32; lia). decide_tests ltac:(lia). cbn [orb mbind option_bind].
  unfold GetBucket. rewrite Hb. unfold GetData.
  rewrite OffsetSizeValid_spec by (unfold is_u32; lia || done). decide_tests ltac:(lia).
  rewrite read_mem_done by lia. cbn [mbind outcome_bind]. change (Z.to_nat 0) with 0%nat.
  rewrite drop_0, take_ge by lia.
  destruct (store_spec (s32 shm) mem off (data_ b) e) as [-> _]; [lia|lia|]. done.
Qed.

(** Data sent through a bucket comes back.  A client that sets the size of a
    bucket, sends its data in chunks of any sizes with [SetBucketDataImmediate] and
    asks for it with [GetBucketData] finds the data in its shared memory; no command
    fails, and the service changes nothing else. *)
Theorem bucket_round_trip (bucket_id shm_id shm_offset : Z) (chunks : list (list Z))
    (set_size get_data : list Z) (sends : list (list Z)) d e mem :
  let data := concat chunks in
  let n := Z.of_nat (length data) in
  wf_decoder d → n + 16 <= u32_max →
  SetBucketSize_Init bucket_id n = Done set_size →
  upload bucket_id 0 chunks sends →
  GetBucketData_Init bucket_id 0 n shm_id shm_offset = Done get_data →
  GetSharedMemoryBuffer (s32 shm_id) e = Some mem → Z.of_nat (length mem) <= u32_max →
  0 <= shm_offset → shm_offset + n <= Z.of_nat (length mem) →
  ∃ e' mem',
    exec (set_size :: sends ++ [get_data]) (d, e)
      = (kNoError, [], (<[bucket_id := mkBucket n data]> d, e')) ∧
    e' = write_memory (s32 shm_id) shm_offset data e ∧
    GetSharedMemoryBuffer (s32 shm_id) e' = Some mem' ∧
    read_mem shm_offset n mem' = Done data.
Proof.
  intros data n Hd Hn Es Hup Eg Hm Hlm Ho Hon.
  destruct (do_set_bucket_size set_size bucket_id n d e Es Hd) as (b & E1 & Hw & Hsz);
    [unfold is_u32; lia|].
  pose proof (exec_upload bucket_id chunks sends 0 (<[bucket_id := b]> d) e b [] Hup
    (fin_maps.lookup_insert_eq (M:=gmap Z) _ _ _) Hw ltac:(lia) eq_refl eq_refl (eq_sym Hsz)) as E2.
  rewrite (fin_maps.insert_insert_eq (M:=gmap Z) d bucket_id) in E2.
  cbn [app] in E2. fold data in E2. rewrite Hsz in E2.
  assert (wf_bucket (mkBucket n data)) as Hw' by (split; cbn; [done|lia]).
  pose proof (do_get_bucket_data get_data bucket_id n shm_id shm_offset
    (<[bucket_id := mkBucket n data]> d) e (mkBucket n data) mem Eg
    (fin_maps.lookup_insert_eq (M:=gmap Z) _ _ _) Hw' eq_refl Hm Hlm Ho Hon) as E3.
  cbn [data_] in E3.
  pose proof (write_mem_done shm_offset data mem Ho Hon) as Ewr.
  exists (write_memory (s32 shm_id) shm_offset data e), 
    (overwrite shm_offset data mem). split_and!; [|done|by eapply memory_write|].
  - cbn [exec]. rewrite E1. rewrite exec_app, E2. cbn [exec].
    rewrite bool_decide_eq_true_2 by done. by rewrite E3.
  - by apply (read_write_mem shm_offset data mem).
Qed.

End Upload.

(** ** Strings in buckets *)

(** The layout [GetAsStrings] expects: the number of strings, their lengths, then each
    string with a NUL behind it. *)
Definition encode_strings (strs : list (list Z)) : list Z :=
  bytes_of_u32 (Z.of_nat (length strs)) ++
  bytes_of_entries (map (λ s, Z.of_nat (length s)) strs) ++
  concat (map (λ s, s ++ [0]) strs).

(** The strings that offsets and lengths stand for. *)
Definition strings_at (mem : list Z) (l : list (Z * Z)) : list (list Z) :=
  map (λ ol, take (Z.to_nat ol.2) (drop (Z.to_nat ol.1) mem)) l.

(** What the loop computes, on the list of the lengths. *)
Fixpoint cut_strings (total : Z) (lens : list Z) (mem : list Z) : option (list (Z * Z) * Z) :=
  match lens with
  | [] => Some ([], total)
  | len :: lens =>
      if (0 <=? len) && bool_decide (mem !! Z.to_nat (total + len) = Some 0)
      then '(l, total') ← cut_strings (total + len + 1) lens mem; Some ((total, len) :: l, total')
      else None
  end.

Lemma checked_small v : 0 <= v < 18446744073709551616 → checked v = Some v.
Proof. intros. unfold checked. by decide_tests ltac:(lia). Qed.

Lemma checked_neg v : v < 0 → checked v = None.
Proof. intros. unfold checked. by decide_tests ltac:(lia). Qed.

Lemma read_byte p mem :
  0 <= p → p < Z.of_nat (length mem) →
  ∃ c, read_mem p 1 mem = Done [c] ∧ mem !! Z.to_nat p = Some c.
Proof.
  intros H0 H1. rewrite read_mem_done by lia.
  destruct (lookup_lt_is_Some_2 mem (Z.to_nat p)) as [c Hc]; [lia|].
  exists c. split; [|done]. change (Z.to_nat 1) with 1%nat.
  rewrite (drop_S _ _ _ Hc). done.
Qed.

Lemma strings_loop_spec lens : ∀ ii total mem,
  Z.of_nat (length mem) <= u32_max → 0 <= total <= Z.of_nat (length mem) →
  (∀ j len, lens !! j = Some len → read_int (4 + 4 * (ii + Z.of_nat j)) mem = Done len
     ∧ -2147483648 <= len < 2147483648) →
  strings_loop (length lens) ii (Z.of_nat (length mem)) (Some total) mem
    = Done ('(l, t) ← cut_strings total lens mem; Some (l, Some t)).
Proof.
  unfold u32_max. induction lens as [|len lens IH]; intros ii total mem Hm Ht Hl; [done|].
  destruct (Hl 0%nat len eq_refl) as [Hr Hlen].
  rewrite Z.add_0_r in Hr. cbn [length strings_loop default]. rewrite Hr.
  cbn [mbind outcome_bind cut_strings]. unfold id.
  destruct (Z.leb_spec 0 len) as [H0|H0]; cbn [andb].
  2: { unfold checked_add. cbn [mbind option_bind]. by rewrite (checked_neg len) by lia. }
  unfold checked_add. cbn [mbind option_bind]. rewrite (checked_small len) by lia.
  cbn [mbind option_bind]. rewrite (checked_small (total + len)) by lia.
  cbn [mbind option_bind]. rewrite (checked_small 1) by lia. cbn [mbind option_bind].
  rewrite (checked_small (total + len + 1)) by lia.
  destruct (Z.ltb_spec (Z.of_nat (length mem)) (total + len + 1)) as [Hgt|Hle].
  - rewrite bool_decide_eq_false_2; [done|]. rewrite lookup_ge_None_2 by lia. done.
  - destruct (read_byte (total + len) mem) as (c & -> & ->); [lia..|].
    cbn [mbind outcome_bind].
    destruct (decide (c = 0)) as [->|Hc].
    + rewrite !bool_decide_eq_true_2 by done. cbn [negb].
      rewrite (IH (ii + 1) (total + len + 1) mem Hm); [|lia|].
      * cbn [mbind outcome_bind]. by destruct (cut_strings (total + len + 1) lens mem) as [[l t]|].
      * intros j len' Hj. destruct (Hl (S j) len' Hj) as [Hr' ?]. split; [|done].
        rewrite <- Hr'. f_equal. lia.
    + rewrite !bool_decide_eq_false_2 by congruence. done.
Qed.

(** The loop succeeds exactly on strings of these lengths, one after the other. *)
Lemma cut_strings_spec lens : ∀ total mem l t,
  0 <= total → cut_strings total lens mem = Some (l, t) →
  map (λ s, Z.of_nat (length s)) (strings_at mem l) = lens ∧
  t = total + Z.of_nat (length (concat (map (λ s, s ++ [0]) (strings_at mem l)))) ∧
  take (Z.to_nat (t - total)) (drop (Z.to_nat total) mem)
    = concat (map (λ s, s ++ [0]) (strings_at mem l)).
Proof.
  induction lens as [|len lens IH]; intros total mem l t Ht; cbn [cut_strings].
  { intros [= <- <-]. cbn. rewrite Z.sub_diag. split_and!; [done|lia|done]. }
  case_match eqn:Et; [|done]. prop_bools.
  intros ([l' t'] & Ec & [= <- <-])%bind_Some.
  destruct (IH (total + len + 1) mem l' t' ltac:(lia) Ec) as (El & Et & Ed).
  match goal with H : mem !! _ = Some 0 |- _ => rename H into Hz end.
  pose proof (lookup_lt_Some _ _ _ Hz) as Hlt.
  assert (length (take (Z.to_nat len) (drop (Z.to_nat total) mem)) = Z.to_nat len) as Hlen.
  { rewrite length_take, length_drop. lia. }
  cbn [strings_at map concat fst snd]. fold (strings_at mem l').
  rewrite !length_app, Hlen. cbn [length]. split_and!.
  - rewrite El. f_equal. lia.
  - rewrite Et. lia.
  - rewrite <- Ed.
    replace (Z.to_nat (t' - total)) with (Z.to_nat len + (1 + Z.to_nat (t' - (total + len + 1))))%nat
      by lia.
    rewrite <- take_take_drop, drop_drop. rewrite <- (app_assoc (take _ _)). f_equal.
    replace (Z.to_nat total + Z.to_nat len)%nat with (Z.to_nat (total + len)) by lia.
    rewrite (drop_S _ _ _ Hz). cbn [take Nat.add app]. f_equal. f_equal. f_equal. lia.
Qed.

Lemma cut_strings_complete strs : ∀ total mem rest,
  0 <= total → drop (Z.to_nat total) mem = concat (map (λ s, s ++ [0]) strs) ++ rest →
  ∃ l, cut_strings total (map (λ s, Z.of_nat (length s)) strs) mem
         = Some (l, total + Z.of_nat (length (concat (map (λ s, s ++ [0]) strs)))) ∧
       strings_at mem l = strs.
Proof.
  induction strs as [|s strs IH]; intros total mem rest Ht Hd; cbn [map cut_strings concat] in *.
  { exists []. by rewrite Z.add_0_r. }
  rewrite <- !app_assoc in Hd. cbn [app] in Hd.
  assert (mem !! Z.to_nat (total + Z.of_nat (length s)) = Some 0) as Hz.
  { replace (Z.to_nat (total + Z.of_nat (length s))) with (Z.to_nat total + length s)%nat by lia.
    rewrite <- lookup_drop, Hd. by rewrite list_lookup_middle. }
  decide_tests ltac:(lia). rewrite bool_decide_eq_true_2 by done. cbn [andb].
  destruct (IH (total + Z.of_nat (length s) + 1) mem rest ltac:(lia)) as (l & -> & El).
  { replace (Z.to_nat (total + Z.of_nat (length s) + 1))
      with (Z.to_nat total + (length s + 1))%nat by lia.
    rewrite <- drop_drop, Hd, <- drop_drop, drop_app_length. done. }
  cbn [mbind option_bind]. eexists. split; [f_equal; f_equal|].
  - rewrite !length_app. cbn [length]. lia.
  - cbn [strings_at map fst snd]. fold (strings_at mem l). rewrite El. f_equal.
    by rewrite Hd, Nat2Z.id, take_app_length.
Qed.

Lemma bytes_of_entries_cons e es : bytes_of_entries (e :: es) = bytes_of_u32 e ++ bytes_of_entries es.
Proof. done. Qed.

Lemma bytes_of_entries_app a b :
  bytes_of_entries (a ++ b) = bytes_of_entries a ++ bytes_of_entries b.
Proof. apply bind_app. Qed.

Lemma bytes_of_entries_inj a b :
  Forall is_u32 a → Forall is_u32 b → bytes_of_entries a = bytes_of_entries b → a = b.
Proof.
  intros Ha. revert b. induction Ha as [|x a Hx Ha IH]; intros b Hb E.
  - destruct b as [|y b]; [done|]. by rewrite bytes_of_entries_cons in E.
  - destruct Hb as [|y b Hy Hb]; [by rewrite bytes_of_entries_cons in E|].
    rewrite !bytes_of_entries_cons in E. pose proof (f_equal u32_of_bytes E) as Exy.
    rewrite !u32_of_bytes_of_u32 in Exy by done. subst y.
    apply app_inv_head in E. f_equal. by apply IH.
Qed.

(** Any bytes, four at a time, are entries. *)
Lemma bytes_are_entries n : ∀ bs,
  Forall is_byte bs → length bs = (4 * n)%nat →
  ∃ es, bs = bytes_of_entries es ∧ Forall is_u32 es ∧ length es = n.
Proof.
  induction n as [|n IH]; intros bs Hb Hl.
  { exists []. destruct bs; [done|cbn in Hl; lia]. }
  destruct bs as [|b0 [|b1 [|b2 [|b3 bs]]]]; cbn in Hl; try lia.
  rewrite !list.Forall_cons in Hb. destruct Hb as (H0 & H1 & H2 & H3 & Hb).
  destruct (IH bs Hb) as (es & -> & He & Hn); [lia|].
  destruct (bytes_of_u32_of_bytes b0 b1 b2 b3 H0 H1 H2 H3) as [Eb Eu].
  exists (u32_of_bytes [b0; b1; b2; b3] :: es). split_and!.
  - rewrite bytes_of_entries_cons. by rewrite Eb.
  - by constructor.
  - cbn. lia.
Qed.

Lemma read_int_entry pre v post :
  is_u32 v → read_int (Z.of_nat (length pre)) (pre ++ bytes_of_u32 v ++ post) = Done (s32 v).
Proof.
  intros Hv. unfold read_int. rewrite read_mem_done by (rewrite ?length_app; cbn; lia).
  cbn [mbind outcome_bind]. rewrite Nat2Z.id, drop_app_length.
  change (Z.to_nat 4) with (length (bytes_of_u32 v)). rewrite take_app_length.
  by rewrite <- (app_nil_r (bytes_of_u32 v)), u32_of_bytes_of_u32.
Qed.

Lemma s32_nat v n : is_u32 v → 0 <= n → s32 v = n → v = n.
Proof.
  unfold is_u32, u32_max, s32. intros Hv Hn E.
  destruct (decide (v < 2147483648)) as [Hlt|Hge].
  - rewrite Z.mod_small in E; lia.
  - assert ((v + 2147483648) mod 4294967296 = v - 2147483648); [|lia].
    symmetry. apply (Z.mod_unique _ _ 1); lia.
Qed.

Lemma s32_bounds v : -2147483648 <= s32 v < 2147483648.
Proof. unfold s32. pose proof (Z.mod_pos_bound (v + 2147483648) 4294967296). lia. Qed.

(** Strings whose lengths are [GLint]s. *)
Definition valid_strings (strs : list (list Z)) : Prop :=
  Z.of_nat (length strs) < 2147483648 ∧
  Forall (λ s, Z.of_nat (length s) < 2147483648) strs.

Lemma encode_strings_length strs :
  (4 + 5 * length strs <= length (encode_strings strs))%nat.
Proof.
  unfold encode_strings. rewrite !length_app, length_bytes_of_entries, length_map.
  assert (length strs <= length (concat (map (λ s, s ++ [0%Z]) strs)))%nat as Hl.
  { induction strs as [|s strs IH]; [done|]. cbn. rewrite !length_app. cbn. lia. }
  cbn [length bytes_of_u32]. lia.
Qed.

(** [GetAsStrings] on a bucket that starts with the number of strings and lengths. *)
Lemma GetAsStrings_cut c es body :
  let data := bytes_of_u32 c ++ bytes_of_entries es ++ body in
  let n := Z.of_nat (length data) in
  is_u32 c → Forall is_u32 es → s32 c = Z.of_nat (length es) → n <= u32_max →
  Z.of_nat (length es) <= (n - 4) / 5 →
  GetAsStrings (mkBucket n data)
    = Done ('(l, t) ← cut_strings (4 + 4 * Z.of_nat (length es)) (map s32 es) data;
            if t =? n then Some l else None).
Proof.
  intros data n Hc Hes Ecount Hn Hmax. unfold u32_max in Hn.
  assert (4 <= n) as H4. { subst n data. rewrite length_app. cbn [length bytes_of_u32]. lia. }
  pose proof (Z.mul_div_le (n - 4) 5 ltac:(lia)) as Hdiv.
  unfold GetAsStrings. cbn [size_ data_]. decide_tests ltac:(lia).
  unfold GetData. rewrite OffsetSizeValid_spec; cbn [size_]; unfold is_u32, u32_max;
    [|lia..|by split]. decide_tests ltac:(lia).
  pose proof (read_int_entry [] c (bytes_of_entries es ++ body) Hc) as Er.
  cbn [app length] in Er. fold data in Er. change (Z.of_nat 0) with 0 in Er. rewrite Er.
  cbn [mbind outcome_bind]. rewrite Ecount. decide_tests ltac:(lia).
  assert (checked_mul (checked 4) (Z.of_nat (length es) + 1)
          = Some (4 + 4 * Z.of_nat (length es))) as ->.
  { unfold checked_mul. rewrite (checked_small 4), (checked_small (_ + 1)) by lia.
    cbn [mbind option_bind]. rewrite checked_small by lia. f_equal. lia. }
  rewrite Nat2Z.id, <- (length_map s32 es).
  rewrite (strings_loop_spec (map s32 es) 0 _ data); rewrite ?length_map; cycle 1.
  - fold n. unfold u32_max. lia.
  - fold n. lia.
  - intros j len Hj. apply list_lookup_fmap_Some in Hj as (e & -> & He). split; [|apply s32_bounds].
    apply list_elem_of_split_length in He as (l1 & l2 & Ees & El).
    subst data. rewrite Ees, bytes_of_entries_app, bytes_of_entries_cons.
    rewrite <- (read_int_entry (bytes_of_u32 c ++ bytes_of_entries l1) e (bytes_of_entries l2 ++ body)).
    + rewrite <- !app_assoc. f_equal. rewrite length_app, length_bytes_of_entries.
      cbn [length bytes_of_u32]. lia.
    + rewrite Ees in Hes. rewrite list.Forall_app, list.Forall_cons in Hes. apply Hes.
  - cbn [mbind outcome_bind].
    destruct (cut_strings (4 + 4 * Z.of_nat (length es)) (map s32 es) data) as [[l t]|]; [|done].
    cbn [mbind option_bind default]. unfold id. by case_match.
Qed.

(** A bucket too small for the number of strings it announces. *)
Lemma GetAsStrings_bad_count c rest :
  let data := bytes_of_u32 c ++ rest in
  let n := Z.of_nat (length data) in
  is_u32 c → n <= u32_max → s32 c < 0 ∨ (n - 4) / 5 < s32 c →
  GetAsStrings (mkBucket n data) = Done None.
Proof.
  intros data n Hc Hn Hbad. unfold u32_max in Hn.
  assert (4 <= n). { subst n data. rewrite length_app. cbn [length bytes_of_u32]. lia. }
  unfold GetAsStrings. cbn [size_ data_]. decide_tests ltac:(lia).
  unfold GetData. rewrite OffsetSizeValid_spec; cbn [size_]; unfold is_u32, u32_max;
    [|lia..|by split]. decide_tests ltac:(lia).
  pose proof (read_int_entry [] c rest Hc) as Er. cbn [app length] in Er.
  fold data in Er. change (Z.of_nat 0) with 0 in Er. rewrite Er. cbn [mbind outcome_bind].
  destruct (Z.ltb_spec (s32 c) 0); [done|]. by decide_tests ltac:(lia).
Qed.

(** Every bucket of at least four bytes is a count and what follows it; if the count
    fits, the lengths follow. *)
Lemma split_strings_bucket data :
  Forall is_byte data → 4 <= Z.of_nat (length data) →
  ∃ c rest, is_u32 c ∧ data = bytes_of_u32 c ++ rest ∧ Forall is_byte rest ∧
    (0 <= s32 c <= (Z.of_nat (length data) - 4) / 5 →
     ∃ es body, rest = bytes_of_entries es ++ body ∧ Forall is_u32 es ∧
       s32 c = Z.of_nat (length es)).
Proof.
  intros Hb Hl. destruct data as [|b0 [|b1 [|b2 [|b3 rest]]]]; cbn in Hl; try lia.
  rewrite !list.Forall_cons in Hb. destruct Hb as (H0 & H1 & H2 & H3 & Hb).
  destruct (bytes_of_u32_of_bytes b0 b1 b2 b3 H0 H1 H2 H3) as [Eb Eu].
  exists (u32_of_bytes [b0; b1; b2; b3]), rest. split_and!; [done|by rewrite Eb|done|].
  set (c := u32_of_bytes _) in *. intros Hc. cbn [length] in Hc.
  pose proof (Z.mul_div_le (Z.of_nat (S (S (S (S (length rest))))) - 4) 5 ltac:(lia)) as Hdiv.
  destruct (bytes_are_entries (Z.to_nat (s32 c)) (take (4 * Z.to_nat (s32 c)) rest))
    as (es & Ees & Hes & Hn).
  - by apply Forall_take.
  - rewrite length_take. lia.
  - exists es, (drop (4 * Z.to_nat (s32 c)) rest). rewrite <- Ees, take_drop.
    split_and!; [done|done|lia].
Qed.

Lemma encode_strings_bytes strs :
  valid_strings strs →
  Forall is_u32 (map (λ s, Z.of_nat (length s)) strs) ∧ is_u32 (Z.of_nat (length strs)) ∧
  s32 (Z.of_nat (length strs)) = Z.of_nat (length strs) ∧
  map s32 (map (λ s, Z.of_nat (length s)) strs) = map (λ s, Z.of_nat (length s)) strs.
Proof.
  unfold valid_strings, is_u32, u32_max. intros [Hn Hl]. split_and!.
  - apply Forall_map. eapply Forall_impl; [|exact Hl]. cbn. intros. lia.
  - lia.
  - lia.
  - apply s32_small. lia.
  - rewrite map_map. apply map_ext_in. intros s Hs%list_elem_of_In.
    rewrite list.Forall_forall in Hl. apply s32_small. specialize (Hl s Hs). cbn in Hl. lia.
Qed.

Lemma map_s32_nat es ns :
  Forall is_u32 es → map s32 es = map (λ s : list Z, Z.of_nat (length s)) ns →
  es = map (λ s, Z.of_nat (length s)) ns.
Proof.
  intros He. revert ns. induction He as [|e es Hu He IH]; intros [|s ns] E; try done.
  cbn in E |- *. injection E as E1 E2. f_equal; [|by apply IH].
  by apply s32_nat; [|lia|].
Qed.

(** What [GetAsStrings_exact] says of the bucket with these bytes. *)
Definition strings_exact (data : list Z) : Prop :=
  ∃ r, GetAsStrings (mkBucket (Z.of_nat (length data)) data) = Done r ∧
    ∀ strs, valid_strings strs → strings_at data <$> r = Some strs ↔ data = encode_strings strs.

Lemma strings_exact_short data : Z.of_nat (length data) < 4 → strings_exact data.
Proof.
  intros H4. exists None. unfold GetAsStrings. cbn [size_]. decide_tests ltac:(lia). split; [done|].
  intros strs _. split; [done|]. intros ->. pose proof (encode_strings_length strs). lia.
Qed.

(** The count and the bytes behind it of an encoding. *)
Lemma encoded_count c rest strs :
  is_u32 c → valid_strings strs → bytes_of_u32 c ++ rest = encode_strings strs →
  c = Z.of_nat (length strs) ∧
  rest = bytes_of_entries (map (λ s, Z.of_nat (length s)) strs) ++ concat (map (λ s, s ++ [0]) strs).
Proof.
  intros Hc (_ & Hu & _)%encode_strings_bytes E. unfold encode_strings in E.
  pose proof (f_equal u32_of_bytes E) as Ec. rewrite !u32_of_bytes_of_u32 in Ec by done.
  rewrite <- Ec in E. by apply app_inv_head in E.
Qed.

(** A count that the bytes cannot hold. *)
Lemma strings_exact_bad_count c rest :
  is_u32 c → let data := bytes_of_u32 c ++ rest in
  Z.of_nat (length data) <= u32_max → ¬ 0 <= s32 c <= (Z.of_nat (length data) - 4) / 5 →
  strings_exact data.
Proof.
  intros Hc data Hn Hbad. exists None. split.
  - apply (GetAsStrings_bad_count c rest Hc Hn). fold data. lia.
  - intros strs Hv. split; [done|]. intros Eenc. destruct (encoded_count c rest strs Hc Hv Eenc) as [-> _].
    apply encode_strings_bytes in Hv as (_ & _ & Es & _). exfalso. apply Hbad. rewrite Es.
    pose proof (encode_strings_length strs) as Hl. rewrite <- Eenc in Hl. fold data in Hl.
    split; [lia|]. apply Z.div_le_lower_bound; lia.
Qed.

(** A count that they can hold: what is cut is what was encoded. *)
Lemma strings_exact_cut c es body :
  is_u32 c → Forall is_u32 es → s32 c = Z.of_nat (length es) →
  let data := bytes_of_u32 c ++ bytes_of_entries es ++ body in
  Z.of_nat (length data) <= u32_max → Z.of_nat (length es) <= (Z.of_nat (length data) - 4) / 5 →
  strings_exact data.
Proof.
  intros Hc Hes Ecount data Hn Hmax. unfold strings_exact.
  pose proof (Z.mul_div_le (Z.of_nat (length data) - 4) 5 ltac:(lia)) as Hdiv.
  pose proof (GetAsStrings_cut c es body Hc Hes Ecount Hn Hmax) as Hg. fold data in Hg.
  rewrite Hg. eexists. split; [reflexivity|]. clear Hg.
  intros strs Hv. pose proof (encode_strings_bytes strs Hv) as (Hlu & _ & Es & Emap).
  assert (drop (Z.to_nat (4 + 4 * Z.of_nat (length es))) data = body) as Ebody.
  { unfold data. rewrite app_assoc. apply drop_app_length'. rewrite length_app, length_bytes_of_entries.
    cbn [length bytes_of_u32]. lia. }
  split.
  - intros (l & Hr & ->)%fmap_Some. apply bind_Some in Hr as ([l' t] & Ec & Ht).
    revert Ht. case_match eqn:Et; [|done]. intros [= ->]. prop_bools. subst t.
    apply cut_strings_spec in Ec as (Elen & _ & Econc); [|lia].
    rewrite Ebody, take_ge in Econc by (rewrite <- Ebody, length_drop; lia).
    symmetry in Elen. apply map_s32_nat in Elen as Ees; [|done].
    assert (length es = length (strings_at data l)) as El by (rewrite Ees; by rewrite length_map).
    unfold data at 1. unfold encode_strings. rewrite <- Ees, <- Econc, <- El.
    by rewrite <- (s32_nat c (Z.of_nat (length es)) Hc ltac:(lia) Ecount).
  - intros Eenc. destruct (encoded_count c _ strs Hc Hv Eenc) as [Ec Erest]. rewrite Ec, Es in Ecount.
    apply app_inj_1 in Erest as [Ees Eb];
      [|rewrite !length_bytes_of_entries, length_map; lia].
    apply bytes_of_entries_inj in Ees; [|done..]. rewrite <- Ecount, Ees, Emap.
    destruct (cut_strings_complete strs (4 + 4 * Z.of_nat (length strs)) data [])
      as (l & -> & El); [lia|by rewrite Ecount, Ebody, app_nil_r|].
    cbn [mbind option_bind]. rewrite (proj2 (Z.eqb_eq _ _)); [change (Some (strings_at data l) = Some strs); by rewrite El|].
    unfold data. rewrite Eb, !length_app, length_bytes_of_entries, Ees, length_map.
    cbn [length bytes_of_u32]. lia.
Qed.

(** [GetAsStrings] is exact.  On any bucket it reads nothing outside of it, and it
    succeeds with strings if and only if the bucket holds exactly the encoding of these
    strings: their number, their lengths, and the strings with a NUL behind each. *)
Theorem GetAsStrings_exact (b : Bucket) :
  wf_bucket b → Forall is_byte (data_ b) →
  ∃ r, GetAsStrings b = Done r ∧
    ∀ strs, valid_strings strs →
      strings_at (data_ b) <$> r = Some strs ↔ data_ b = encode_strings strs.
Proof.
  destruct b as [n data]. unfold wf_bucket. cbn [size_ data_]. intros [-> Hn] Hb.
  change (strings_exact data). destruct (decide (4 <= Z.of_nat (length data))) as [H4|H4].
  2: { apply strings_exact_short. lia. }
  destruct (split_strings_bucket data Hb H4) as (c & rest & Hc & -> & _ & Hsplit).
  destruct (decide (0 <= s32 c <= (Z.of_nat (length (bytes_of_u32 c ++ rest)) - 4) / 5)) as [Hok|Hbad].
  - destruct (Hsplit Hok) as (es & body & -> & Hes & Ecount).
    apply strings_exact_cut; [done..|]. rewrite <- Ecount. apply Hok.
  - by apply strings_exact_bad_count.
Qed.

Definition example_strings : list (list Z) := [[104; 105]; []].

Lemma GetAsStrings_exact_witness :
  let b := mkBucket 16 (encode_strings example_strings) in
  wf_bucket b ∧ ∃ r, GetAsStrings b = Done r ∧ strings_at (data_ b) <$> r = Some example_strings.
Proof.
  intros b. assert (wf_bucket b) as Hw by (split; [reflexivity|done]). split; [exact Hw|].
  destruct (GetAsStrings_exact b Hw) as (r & E & Hr).
  { cbv. repeat constructor; lia || done. }
  exists r. split; [exact E|]. apply Hr; [|done].
  split; [cbn; lia|]. repeat constructor.
Defined.

Lemma bucket_round_trip_witness :
  ∃ e' mem', exec [[4194307; 3; 6]; [8388613; 3; 0; 4; 67305985]; [8388613; 3; 4; 2; 1541];
                   [12582918; 3; 0; 6; 5; 8]] (example_buckets, example_memory)
      = (kNoError, [], (<[3 := mkBucket 6 [1; 2; 3; 4; 5; 6]]> example_buckets, e')) ∧
    GetSharedMemoryBuffer 5 e' = Some mem' ∧ read_mem 8 6 mem' = Done [1; 2; 3; 4; 5; 6].
Proof.
  destruct (bucket_round_trip 3 5 8 [[1; 2; 3; 4]; [5; 6]] [4194307; 3; 6]
    [12582918; 3; 0; 6; 5; 8] [[8388613; 3; 0; 4; 67305985]; [8388613; 3; 4; 2; 1541]]
    example_buckets example_memory (replicate 16 1)) as (e' & mem' & E & _ & Hm & Hr);
    [apply example_buckets_wf|cbn; unfold u32_max; lia|reflexivity| |reflexivity|reflexivity
    |cbn; unfold u32_max; lia|lia|cbn; lia|].
  - split; [|split; [|done]].
    + exists [8388613; 3; 0; 4], [67305985]. done.
    + exists [8388613; 3; 4; 2], [1541]. done.
  - exists e', mem'. done.
Defined.
