(* ===== verification/CommandBufferInterface.v ===== *)
(** * gpu/command_buffer/common/command_buffer.h: the interface CommandBuffer

    The client talks to the service through the pure virtual functions of
    [CommandBuffer], a type class here, and through the shared memory of the ring
    buffer.  [CommandBufferLaws] is what command_buffer.h documents of them, on a view
    of the state: the array of entries, the get offset the client can see, the last
    put offset the service was told, and all entries it has taken out of the array. *)

From S2P Require Import Prelude CommandBufferCommon.

(** A state [B] holds everything behind the interface: the service and the shared
    memory.  [store_entries] is the client's store of entries through [entries_],
    [TimeTicks_Now] the clock. *)
Class CommandBuffer (B : Type) := {
  GetLastState : B → State * B;
  GetLastToken : B → Z * B;
  Flush : Z → B → B;
  OrderingBarrier : Z → B → B;
  WaitForTokenInRange : Z → Z → B → B;
  WaitForGetOffsetInRange : Z → Z → B → B;
  SetGetBuffer : Z → B → B;
  CreateTransferBuffer : Z → B → Z * B;
  DestroyTransferBuffer : Z → B → B;
  store_entries : Z → Z → list Z → B → B;
  TimeTicks_Now : B → Z * B
}.

Definition GetLastError {B} `{CommandBuffer B} (b : B) : Error * B :=
  let '(s, b) := GetLastState b in (error s, b).

(** ** Positions in a circular array of [n] entries *)

(** [k] entries after [i]. *)
Definition adv (n i k : Z) : Z := if i + k <? n then i + k else i + k - n.

(** The [k] entries from [i] on. *)
Definition cyc (mem : Z → Z) (n i : Z) (k : Z) : list Z :=
  (λ j, mem (adv n i (Z.of_nat j))) <$> seq 0 (Z.to_nat k).

Lemma length_cyc mem n i k : length (cyc mem n i k) = Z.to_nat k.
Proof. unfold cyc. by rewrite length_fmap, length_seq. Qed.

Lemma cyc_app mem n i a b :
  0 <= i < n → 0 <= a → 0 <= b → a + b <= n →
  cyc mem n i (a + b) = cyc mem n i a ++ cyc mem n (adv n i a) b.
Proof.
  intros Hi Ha Hb Hab. unfold cyc. rewrite Z2Nat.inj_add, seq_app, fmap_app by done. f_equal.
  rewrite Nat.add_0_l.
  rewrite <- (Nat.add_0_r (Z.to_nat a)) at 1. rewrite <- fmap_add_seq, <- list_fmap_compose.
  apply list_fmap_ext. intros j x Hx. apply lookup_seq in Hx as [-> Hj]. cbn.
  f_equal. unfold adv. destruct (Z.ltb_spec (i + a) n);
    repeat match goal with |- context [?x <? n] => destruct (Z.ltb_spec x n) end; lia.
Qed.

Lemma cyc_ext mem mem' n i k :
  (∀ j, 0 <= j < k → mem (adv n i j) = mem' (adv n i j)) → cyc mem n i k = cyc mem' n i k.
Proof.
  intros Hm. apply list_fmap_ext. intros j x Hx. apply lookup_seq in Hx as [-> Hj].
  apply Hm. lia.
Qed.

Lemma adv_0 n i : 0 <= i < n → adv n i 0 = i.
Proof. intros. unfold adv. destruct (Z.ltb_spec (i + 0) n); lia. Qed.

Lemma adv_range n i k : 0 <= i < n → 0 <= k <= n → 0 <= adv n i k < n ∨ k = n.
Proof. intros. unfold adv. destruct (Z.ltb_spec (i + k) n); lia. Qed.

(** The memory after a store of [w] at [p]. *)
Definition update (p : Z) (w : list Z) (mem : Z → Z) : Z → Z :=
  λ j, if (p <=? j) && (j <? p + Z.of_nat (length w))
       then default 0 (w !! Z.to_nat (j - p)) else mem j.

(** Stored entries are read back ... *)
Lemma cyc_update_same mem n p w :
  0 <= p → p + Z.of_nat (length w) <= n →
  cyc (update p w mem) n p (Z.of_nat (length w)) = w.
Proof.
  intros Hp Hn. apply list_eq. intros j. unfold cyc.
  rewrite list_lookup_fmap, Nat2Z.id.
  destruct (decide (j < length w)%nat) as [Hj|Hj].
  - rewrite lookup_seq_lt by done. cbn. unfold adv, update.
    decide_tests ltac:(lia). cbn [andb]. replace (Z.to_nat (p + Z.of_nat j - p)) with j by lia.
    destruct (lookup_lt_is_Some_2 w j Hj) as [x ->]. done.
  - rewrite lookup_seq_ge by lia. symmetry. apply lookup_ge_None_2. lia.
Qed.

(** ... and those elsewhere are not touched. *)
Lemma cyc_update_other mem n p w i k :
  0 <= i < n → 0 <= k → p + Z.of_nat (length w) <= n → p = adv n i k ∨ w = [] → 
  k + Z.of_nat (length w) <= n →
  cyc (update p w mem) n i k = cyc mem n i k.
Proof.
  intros Hi Hk Hn Hp Hkn. apply cyc_ext. intros j Hj. unfold update.
  destruct (Z.leb_spec p (adv n i j)), (Z.ltb_spec (adv n i j) (p + Z.of_nat (length w)));
    try done. exfalso. destruct Hp as [->| ->]; [|cbn in *; lia].
  unfold adv in *. destruct (Z.ltb_spec (i + k) n), (Z.ltb_spec (i + j) n); lia.
Qed.

(** ** The laws *)

Record View : Type := mkView {
  v_size : Z;
  v_mem : Z → Z;
  v_get : Z;
  v_put : Z;
  v_done : list Z;
  v_error : Error
}.
#[export] Instance eta_View : Eta View := λ v,
  mkView (v_size v) (v_mem v) (v_get v) (v_put v) (v_done v) (v_error v).

(** The number of entries from get to put. *)
Definition v_dist (v : View) : Z :=
  if v_get v <=? v_put v then v_put v - v_get v else v_put v - v_get v + v_size v.

Definition valid_view (v : View) : Prop :=
  0 <= v_get v < v_size v ∧ 0 <= v_put v < v_size v.

(** The service takes [k] of the entries up to put, in order, or meets an error. *)
Definition progress (v v' : View) : Prop :=
  ∃ k, 0 <= k <= v_dist v ∧ v_size v' = v_size v ∧ v_mem v' = v_mem v ∧ v_put v' = v_put v ∧
    v_get v' = adv (v_size v) (v_get v) k ∧
    v_done v' = v_done v ++ cyc (v_mem v) (v_size v) (v_get v) k ∧
    (v_error v ≠ kNoError → v_error v' ≠ kNoError).

(** A position of the range that get can still come to. *)
Definition reachable_get (start end' : Z) (v : View) : Prop :=
  ∃ k, 0 <= k <= v_dist v ∧ InRange start end' (adv (v_size v) (v_get v) k) = true.

Class CommandBufferLaws (B : Type) `{CommandBuffer B} := {
  view : B → View;
  GetLastState_law b :
    valid_view (view b) →
    progress (view b) (view (GetLastState b).2) ∧
    get_offset (GetLastState b).1 = v_get (view (GetLastState b).2) ∧
    error (GetLastState b).1 = v_error (view (GetLastState b).2);
  GetLastToken_law b : valid_view (view b) → progress (view b) (view (GetLastToken b).2);
  Flush_law put b :
    valid_view (view b) → 0 <= put < v_size (view b) →
    progress ((view b) <| v_put := put |>) (view (Flush put b));
  OrderingBarrier_law put b :
    valid_view (view b) → 0 <= put < v_size (view b) →
    progress ((view b) <| v_put := put |>) (view (OrderingBarrier put b));
  WaitForTokenInRange_law start end' b :
    valid_view (view b) → progress (view b) (view (WaitForTokenInRange start end' b));
  WaitForGetOffsetInRange_law start end' b :
    valid_view (view b) → progress (view b) (view (WaitForGetOffsetInRange start end' b)) ∧
    (reachable_get start end' (view b) →
     v_error (view (WaitForGetOffsetInRange start end' b)) ≠ kNoError ∨
     InRange start end' (v_get (view (WaitForGetOffsetInRange start end' b))) = true);
  store_entries_law id p w b :
    view (store_entries id p w b) = (view b) <| v_mem := update p w (v_mem (view b)) |>;
  TimeTicks_Now_law b : valid_view (view b) → progress (view b) (view (TimeTicks_Now b).2)
}.

(** What the making of the ring buffer promises. *)
Class CommandBufferSetup (B : Type) `{CommandBufferLaws B} := {
  CreateTransferBuffer_law size b :
    let '(id, b1) := CreateTransferBuffer size b in
    if id <? 0 then
      v_error (view b1) ≠ kNoError ∧ IsError (error (GetLastState b1).1) = true
    else
      v_size (view (SetGetBuffer id b1)) = Z.quot size 4 ∧
      v_get (view (SetGetBuffer id b1)) = 0 ∧ v_put (view (SetGetBuffer id b1)) = 0 ∧
      v_done (view (SetGetBuffer id b1)) = v_done (view b)
}.

Lemma progress_refl v : valid_view v → progress v v.
Proof.
  intros [Hg Hp]. exists 0. unfold v_dist. split_and!; try done.
  - case_match; prop_bools; lia.
  - by rewrite adv_0.
  - by rewrite app_nil_r.
Qed.
