(* ===== verification/CommandBufferHelper.v ===== *)
(** * gpu/command_buffer/client/cmd_buffer_helper.{h,cc}: the client's ring buffer

    [CommandBufferHelper] puts commands into the ring buffer and keeps track of the
    room in it.  The service is any [CommandBuffer].  The times are opaque numbers of
    the environment's clock.  Integers are below 2^31 throughout: no sum here can
    exceed twice the number of entries.  A division by zero counts as a failed check. *)

From S2P Require Import Prelude CommandBufferCommon CommandFormat CommandBufferInterface.

Definition kCommandsPerFlushCheck : Z := 100.
Definition kPeriodicFlushDelayInMicroseconds : Z := 1000000 / (5 * 60).
Definition kAutoFlushSmall : Z := 16.
Definition kAutoFlushBig : Z := 2.

(** [ring_buffer_] and [entries_] belong to the buffer [ring_buffer_id_]. *)
Record CommandBufferHelper : Type := mkCommandBufferHelper {
  ring_buffer_id_ : Z;
  ring_buffer_size_ : Z;
  total_entry_count_ : Z;
  immediate_entry_count_ : Z;
  token_ : Z;
  put_ : Z;
  last_put_sent_ : Z;
  commands_issued_ : Z;
  usable_ : bool;
  context_lost_ : bool;
  flush_automatically_ : bool;
  last_flush_time_ : Z;
  flush_generation_ : Z
}.
#[export] Instance eta_CommandBufferHelper : Eta CommandBufferHelper := λ h,
  mkCommandBufferHelper (ring_buffer_id_ h) (ring_buffer_size_ h) (total_entry_count_ h)
    (immediate_entry_count_ h) (token_ h) (put_ h) (last_put_sent_ h) (commands_issued_ h)
    (usable_ h) (context_lost_ h) (flush_automatically_ h) (last_flush_time_ h)
    (flush_generation_ h).

(** The constructor. *)
Definition init_CommandBufferHelper : CommandBufferHelper :=
  {| ring_buffer_id_ := -1; ring_buffer_size_ := 0; total_entry_count_ := 0;
     immediate_entry_count_ := 0; token_ := 0; put_ := 0; last_put_sent_ := 0;
     commands_issued_ := 0; usable_ := true; context_lost_ := false;
     flush_automatically_ := true; last_flush_time_ := 0; flush_generation_ := 0 |}.

Definition HaveRingBuffer (h : CommandBufferHelper) : bool := negb (ring_buffer_id_ h =? -1).

Section Helper.
Context {B : Type} {cb : CommandBuffer B}.
Implicit Types (h : CommandBufferHelper) (b : B).

Definition helper_get_offset (b : B) : Z * B :=
  let '(s, b) := GetLastState b in (get_offset s, b).
Definition helper_last_token_read (b : B) : Z * B := GetLastToken b.

(** A [bool] of C that is a comparison, as a number. *)
Definition b2z (b : bool) : Z := if b then 1 else 0.

(** [CalcImmediateEntries] once the ring buffer is there, with the get offset read.
    The remainder by [total_entry_count_] is undefined when it is 0. *)
Definition calc_immediate (waiting_count curr_get : Z) (h : CommandBufferHelper) :
    outcome CommandBufferHelper :=
  let h := h <| immediate_entry_count_ :=
    if put_ h <? curr_get then curr_get - put_ h - 1
    else total_entry_count_ h - put_ h - b2z (curr_get =? 0) |> in
  if flush_automatically_ h then
    let limit := Z.quot (total_entry_count_ h)
      (if curr_get =? last_put_sent_ h then kAutoFlushSmall else kAutoFlushBig) in
    DCHECK (negb (total_entry_count_ h =? 0)) ;;
    let pending :=
      Z.rem (put_ h + total_entry_count_ h - last_put_sent_ h) (total_entry_count_ h) in
    if (0 <? pending) && (limit <=? pending)
    then Done (h <| immediate_entry_count_ := 0 |>)
    else
      let limit := limit - pending in
      let limit := if limit <? waiting_count then waiting_count else limit in
      Done (h <| immediate_entry_count_ :=
        if limit <? immediate_entry_count_ h then limit else immediate_entry_count_ h |>)
  else Done h.

Definition CalcImmediateEntries (waiting_count : Z) (h : CommandBufferHelper) (b : B) :
    outcome (CommandBufferHelper * B) :=
  DCHECK (0 <=? waiting_count) ;;
  if negb (usable_ h) || negb (HaveRingBuffer h)
  then Done (h <| immediate_entry_count_ := 0 |>, b)
  else
    let '(curr_get, b) := helper_get_offset b in
    h ← calc_immediate waiting_count curr_get h; Done (h, b).

Definition SetAutomaticFlushes (enabled : bool) (h : CommandBufferHelper) (b : B) :
    outcome (CommandBufferHelper * B) :=
  CalcImmediateEntries 0 (h <| flush_automatically_ := enabled |>) b.

Definition IsContextLost (h : CommandBufferHelper) (b : B) : bool * CommandBufferHelper * B :=
  if context_lost_ h then (true, h, b)
  else
    let '(e, b) := GetLastError b in
    (IsError e, h <| context_lost_ := IsError e |>, b).

Definition ClearUsable (h : CommandBufferHelper) (b : B) : outcome (CommandBufferHelper * B) :=
  CalcImmediateEntries 0 (h <| usable_ := false |> <| context_lost_ := true |>) b.

Definition AllocateRingBuffer (h : CommandBufferHelper) (b : B) :
    outcome (bool * CommandBufferHelper * B) :=
  if negb (usable_ h) then Done (false, h, b)
  else if HaveRingBuffer h then Done (true, h, b)
  else
    let '(id, b) := CreateTransferBuffer (ring_buffer_size_ h) b in
    if id <? 0 then
      hb ← ClearUsable h b;
      let '(h, b) := hb : CommandBufferHelper * B in
      let '(e, b) := GetLastError b in
      DCHECK (IsError e) ;;
      Done (false, h, b)
    else
      let b := SetGetBuffer id b in
      let h := h <| ring_buffer_id_ := id |>
                 <| total_entry_count_ := Z.quot (ring_buffer_size_ h) 4 |>
                 <| put_ := 0 |> in
      hb ← CalcImmediateEntries 0 h b;
      Done (true, hb.1, hb.2).

Definition FreeResources (h : CommandBufferHelper) (b : B) : outcome (CommandBufferHelper * B) :=
  if HaveRingBuffer h then
    let b := DestroyTransferBuffer (ring_buffer_id_ h) b in
    CalcImmediateEntries 0 (h <| ring_buffer_id_ := -1 |>) b
  else Done (h, b).

Definition FreeRingBuffer (h : CommandBufferHelper) (b : B) : outcome (CommandBufferHelper * B) :=
  let '(get, b) := helper_get_offset b in
  if put_ h =? get then FreeResources h b
  else
    let '(s, b) := GetLastState b in
    DCHECK (IsError (error s)) ;; FreeResources h b.

Definition Initialize (ring_buffer_size : Z) (h : CommandBufferHelper) (b : B) :
    outcome (bool * CommandBufferHelper * B) :=
  AllocateRingBuffer (h <| ring_buffer_size_ := ring_buffer_size |>) b.

(** The member function; [WaitForGetOffsetInRange] is that of the interface. *)
Definition helper_WaitForGetOffsetInRange (start end' : Z) (h : CommandBufferHelper) (b : B) :
    bool * B :=
  if negb (usable_ h) then (false, b)
  else
    let b := WaitForGetOffsetInRange start end' b in
    let '(e, b) := GetLastError b in (bool_decide (e = kNoError), b).

Definition wrap_put (h : CommandBufferHelper) : CommandBufferHelper :=
  if put_ h =? total_entry_count_ h then h <| put_ := 0 |> else h.

Definition helper_Flush (h : CommandBufferHelper) (b : B) : outcome (CommandBufferHelper * B) :=
  let h := wrap_put h in
  if usable_ h then
    let '(now, b) := TimeTicks_Now b in
    let h := h <| last_flush_time_ := now |> <| last_put_sent_ := put_ h |> in
    let b := Flush (put_ h) b in
    CalcImmediateEntries 0 (h <| flush_generation_ := u32 (flush_generation_ h + 1) |>) b
  else Done (h, b).

Definition helper_OrderingBarrier (h : CommandBufferHelper) (b : B) :
    outcome (CommandBufferHelper * B) :=
  let h := wrap_put h in
  if usable_ h then
    let b := OrderingBarrier (put_ h) b in
    CalcImmediateEntries 0 (h <| flush_generation_ := u32 (flush_generation_ h + 1) |>) b
  else Done (h, b).

Definition PeriodicFlushCheck (h : CommandBufferHelper) (b : B) : outcome (CommandBufferHelper * B) :=
  let '(current_time, b) := TimeTicks_Now b in
  if kPeriodicFlushDelayInMicroseconds <? current_time - last_flush_time_ h
  then helper_Flush h b else Done (h, b).

Definition Finish (h : CommandBufferHelper) (b : B) : outcome (bool * CommandBufferHelper * B) :=
  if negb (usable_ h) then Done (false, h, b)
  else
    let '(get, b) := helper_get_offset b in
    if put_ h =? get then Done (true, h, b)
    else
      x ← (if HaveRingBuffer h then Done b
           else let '(s, b) := GetLastState b in DCHECK (IsError (error s)) ;; Done b);
      hb ← helper_Flush h x;
      let '(h, b) := hb : CommandBufferHelper * B in
      let '(ok, b) := helper_WaitForGetOffsetInRange (put_ h) (put_ h) h b in
      if negb ok then Done (false, h, b)
      else
        let '(get, b) := helper_get_offset b in
        DCHECK (get =? put_ h) ;;
        hb ← CalcImmediateEntries 0 h b;
        Done (true, hb.1, hb.2).

(** The loop of [WaitForAvailableEntries] that fills the end of the buffer with
    no-ops; [Noop::Set] writes the header only. *)
Fixpoint fill_noops (fuel : nat) (num_entries : Z) (h : CommandBufferHelper) (b : B) :
    outcome (option (CommandBufferHelper * B)) :=
  match fuel with
  | O => Done None
  | S fuel =>
      if 0 <? num_entries then
        let num_to_skip := Z.min kMaxSize num_entries in
        noop ← Noop_Init num_to_skip;
        let b := store_entries (ring_buffer_id_ h) (put_ h) noop b in
        fill_noops fuel (num_entries - num_to_skip) (h <| put_ := put_ h + num_to_skip |>) b
      else Done (Some (h, b))
  end.

(** The part of [WaitForAvailableEntries] before the wrap: it waits until get is not
    in the way, fills the end and wraps.  The result is [false] at the early return on
    an error.  The loop always has enough fuel; running out of it counts as a failure. *)
Definition wrap_around (h : CommandBufferHelper) (b : B) :
    outcome (bool * CommandBufferHelper * B) :=
  DCHECK (1 <=? put_ h) ;;
  let '(curr_get, b) := helper_get_offset b in
  w ← (if (put_ h <? curr_get) || (curr_get =? 0) then
         hb ← helper_Flush h b;
         let '(h, b) := hb : CommandBufferHelper * B in
         let '(ok, b) := helper_WaitForGetOffsetInRange 1 (put_ h) h b in
         if negb ok then Done (false, h, b)
         else
           let '(curr_get, b) := helper_get_offset b in
           DCHECK (curr_get <=? put_ h) ;;
           DCHECK (negb (curr_get =? 0)) ;;
           Done (true, h, b)
       else Done (true, h, b));
  let '(ok, h, b) := w in
  if negb ok then Done (false, h, b)
  else
    let num_entries := total_entry_count_ h - put_ h in
    r ← fill_noops (S (Z.to_nat num_entries)) num_entries h b;
    match r with
    | None => DcheckFailed
    | Some (h, b) => Done (true, h <| put_ := 0 |>, b)
    end.

(** The rest: getting [count] entries without wrapping. *)
Definition wait_for_entries (count : Z) (h : CommandBufferHelper) (b : B) :
    outcome (CommandBufferHelper * B) :=
  hb ← CalcImmediateEntries count h b;
  let '(h, b) := hb : CommandBufferHelper * B in
  if immediate_entry_count_ h <? count then
    hb ← helper_Flush h b;
    hb ← CalcImmediateEntries count hb.1 hb.2;
    let '(h, b) := hb : CommandBufferHelper * B in
    if immediate_entry_count_ h <? count then
      let '(ok, b) := helper_WaitForGetOffsetInRange (put_ h + count + 1) (put_ h) h b in
      if negb ok then Done (h, b)
      else
        hb ← CalcImmediateEntries count h b;
        DCHECK (count <=? immediate_entry_count_ hb.1) ;;
        Done hb
    else Done (h, b)
  else Done (h, b).

Definition WaitForAvailableEntries (count : Z) (h : CommandBufferHelper) (b : B) :
    outcome (CommandBufferHelper * B) :=
  x ← AllocateRingBuffer h b;
  let '(_, h, b) := x : bool * CommandBufferHelper * B in
  if negb (usable_ h) then Done (h, b)
  else
    DCHECK (HaveRingBuffer h) ;;
    DCHECK (count <? total_entry_count_ h) ;;
    if total_entry_count_ h <? put_ h + count then
      r ← wrap_around h b;
      let '(ok, h, b) := r : bool * CommandBufferHelper * B in
      if negb ok then Done (h, b) else wait_for_entries count h b
    else wait_for_entries count h b.

(** The result is the position of the space, or [None] for [NULL]. *)
Definition GetSpace (entries : Z) (h : CommandBufferHelper) (b : B) :
    outcome (option Z * CommandBufferHelper * B) :=
  let h := h <| commands_issued_ := s32 (commands_issued_ h + 1) |> in
  hb ← (if flush_automatically_ h && (Z.rem (commands_issued_ h) kCommandsPerFlushCheck =? 0)
        then PeriodicFlushCheck h b else Done (h, b));
  let '(h, b) := hb : CommandBufferHelper * B in
  hb ← (if immediate_entry_count_ h <? entries
        then WaitForAvailableEntries entries h b else Done (h, b));
  let '(h, b) := hb : CommandBufferHelper * B in
  if immediate_entry_count_ h <? entries then Done (None, h, b)
  else
    let space := put_ h in
    let h := h <| put_ := put_ h + entries |>
               <| immediate_entry_count_ := immediate_entry_count_ h - entries |> in
    DCHECK (put_ h <=? total_entry_count_ h) ;;
    Done (Some space, h, b).

(** What [SetToken], [SetBucketSize] and the other functions of the header do with a
    command: get space for it and, unless that failed, write it there. *)
Definition issue (w : list Z) (h : CommandBufferHelper) (b : B) :
    outcome (bool * CommandBufferHelper * B) :=
  x ← GetSpace (Z.of_nat (length w)) h b;
  match x with
  | (None, h, b) => Done (false, h, b)
  | (Some space, h, b) => Done (true, h, store_entries (ring_buffer_id_ h) space w b)
  end.

(** The common commands of the header.  A no-op writes its header only, over space for
    all of it.  Behind the data of [SetBucketDataImmediate] the last entry keeps the bytes
    that the memory had, [rest]. *)
Definition Noop (skip_count : Z) (h : CommandBufferHelper) (b : B) :
    outcome (bool * CommandBufferHelper * B) :=
  x ← GetSpace (s32 (ComputeNumEntries (sizeof_cmd kNoop + u32 (skip_count - 1) * 4))) h b;
  match x with
  | (None, h, b) => Done (false, h, b)
  | (Some space, h, b) =>
      w ← Noop_Init skip_count; Done (true, h, store_entries (ring_buffer_id_ h) space w b)
  end.
Definition SetBucketDataImmediate (bucket_id offset : Z) (data rest : list Z)
    (h : CommandBufferHelper) (b : B) : outcome (bool * CommandBufferHelper * B) :=
  let size := Z.of_nat (length data) in
  x ← GetSpace (s32 (ComputeNumEntries (sizeof_cmd kSetBucketDataImmediate + size))) h b;
  match x with
  | (None, h, b) => Done (false, h, b)
  | (Some space, h, b) =>
      w ← SetBucketDataImmediate_Init bucket_id offset size;
      Done (true, h,
        store_entries (ring_buffer_id_ h) space (w ++ entries_of_bytes (data ++ rest)) b)
  end.
Definition SetToken (token : Z) (h : CommandBufferHelper) (b : B) :=
  w ← SetToken_Init token; issue w h b.
Definition SetBucketSize (bucket_id size : Z) (h : CommandBufferHelper) (b : B) :=
  w ← SetBucketSize_Init bucket_id size; issue w h b.
Definition SetBucketData (bucket_id offset size shared_memory_id shared_memory_offset : Z)
    (h : CommandBufferHelper) (b : B) :=
  w ← SetBucketData_Init bucket_id offset size shared_memory_id shared_memory_offset;
  issue w h b.
Definition GetBucketStart (bucket_id result_memory_id result_memory_offset
    data_memory_size data_memory_id data_memory_offset : Z) (h : CommandBufferHelper) (b : B) :=
  w ← GetBucketStart_Init bucket_id result_memory_id result_memory_offset
        data_memory_size data_memory_id data_memory_offset;
  issue w h b.
Definition GetBucketData (bucket_id offset size shared_memory_id shared_memory_offset : Z)
    (h : CommandBufferHelper) (b : B) :=
  w ← GetBucketData_Init bucket_id offset size shared_memory_id shared_memory_offset;
  issue w h b.

Definition InsertToken (h : CommandBufferHelper) (b : B) : outcome (Z * CommandBufferHelper * B) :=
  x ← AllocateRingBuffer h b;
  let '(_, h, b) := x : bool * CommandBufferHelper * B in
  if negb (usable_ h) then Done (token_ h, h, b)
  else
    DCHECK (HaveRingBuffer h) ;;
    let h := h <| token_ := Z.land (token_ h + 1) 2147483647 |> in
    x ← SetToken (token_ h) h b;
    let '(issued, h, b) := x : bool * CommandBufferHelper * B in
    if (issued : bool) && (token_ h =? 0) then
      x ← Finish h b;
      let '(_, h, b) := x : bool * CommandBufferHelper * B in
      let '(last, b) := helper_last_token_read b in
      DCHECK (token_ h =? last) ;;
      Done (token_ h, h, b)
    else Done (token_ h, h, b).

Definition helper_HasTokenPassed (token : Z) (h : CommandBufferHelper) (b : B) : bool * B :=
  if token_ h <? token then (true, b)
  else let '(last, b) := helper_last_token_read b in (token <=? last, b).

Definition helper_WaitForToken (token : Z) (h : CommandBufferHelper) (b : B) :
    outcome (CommandBufferHelper * B) :=
  if negb (usable_ h) || negb (HaveRingBuffer h) then Done (h, b)
  else if token <? 0 then Done (h, b)
  else if token_ h <? token then Done (h, b)
  else
    let '(last, b) := helper_last_token_read b in
    if token <=? last then Done (h, b)
    else
      hb ← helper_Flush h b;
      Done (hb.1, WaitForTokenInRange token (token_ hb.1) hb.2).

Definition AvailableEntries (h : CommandBufferHelper) (b : B) : outcome (Z * B) :=
  let '(get, b) := helper_get_offset b in
  DCHECK (negb (total_entry_count_ h =? 0)) ;;
  Done (Z.rem (get - put_ h - 1 + total_entry_count_ h) (total_entry_count_ h), b).

Definition GetTotalFreeEntriesNoWaiting (h : CommandBufferHelper) (b : B) : Z * B :=
  let '(current_get_offset, b) := helper_get_offset b in
  (if put_ h <? current_get_offset then current_get_offset - put_ h - 1
   else current_get_offset + total_entry_count_ h - put_ h - b2z (current_get_offset =? 0), b).

End Helper.

(** ** The invariant of the client *)

(** The entries the client has put behind get. *)
Definition put_dist (h : CommandBufferHelper) (v : View) : Z :=
  if v_get v <=? put_ h then put_ h - v_get v else put_ h - v_get v + v_size v.

(** Everything the client has put into the ring: what the service has taken, and what
    still lies between get and put. *)
Definition sent (h : CommandBufferHelper) (v : View) : list Z :=
  v_done v ++ cyc (v_mem v) (v_size v) (v_get v) (put_dist h v).

Record ring_inv (h : CommandBufferHelper) (v : View) : Prop := {
  ri_usable : usable_ h = true;
  ri_ring : HaveRingBuffer h = true;
  ri_size : v_size v = total_entry_count_ h;
  ri_total : 0 < total_entry_count_ h <= 536870912;
  ri_view : valid_view v;
  ri_put : 0 <= put_ h <= total_entry_count_ h;
  ri_full : put_dist h v < total_entry_count_ h;
  ri_sent : v_dist v <= put_dist h v;
  ri_end : put_ h = total_entry_count_ h → v_dist v < put_dist h v
}.

(** The entries counted as immediately available can be written without reaching get
    or the end of the ring. *)
Definition room (h : CommandBufferHelper) (v : View) (k : Z) : Prop :=
  0 <= k ∧ put_dist h v + k < total_entry_count_ h ∧ put_ h + k <= total_entry_count_ h.

Definition inv (h : CommandBufferHelper) (v : View) : Prop :=
  ring_inv h v ∧ room h v (immediate_entry_count_ h).

(** The fields an operation that only waits or recalculates leaves alone. *)
Definition same_ring (h h' : CommandBufferHelper) : Prop :=
  ring_buffer_id_ h' = ring_buffer_id_ h ∧ total_entry_count_ h' = total_entry_count_ h ∧
  usable_ h' = usable_ h ∧ token_ h' = token_ h.

Lemma same_ring_refl h : same_ring h h.
Proof. done. Qed.
Lemma same_ring_trans h1 h2 h3 : same_ring h1 h2 → same_ring h2 h3 → same_ring h1 h3.
Proof. unfold same_ring. intuition congruence. Qed.

Ltac ring_arith :=
  unfold room, put_dist, v_dist, valid_view, adv in *; cbn in *;
  repeat match goal with
  | |- context [?x <=? ?y] => destruct (Z.leb_spec x y)
  | |- context [?x <? ?y] => destruct (Z.ltb_spec x y)
  | H : context [?x <=? ?y] |- _ => destruct (Z.leb_spec x y)
  | H : context [?x <? ?y] |- _ => destruct (Z.ltb_spec x y)
  end; try lia.

Lemma ring_inv_progress h v v' :
  ring_inv h v → progress v v' →
  ring_inv h v' ∧ sent h v' = sent h v ∧ (∀ k, room h v k → room h v' k).
Proof.
  intros [Hu Hr Hsz Ht Hv Hp Hf Hs He] (k & Hk & Es & Em & Ep & Eg & Ed & _).
  assert (put_dist h v' = put_dist h v - k ∧ v_dist v' = v_dist v - k ∧ valid_view v')
    as (Epd & Evd & Hv').
  { destruct v as [n mem get put don err], v' as [n' mem' get' put' don' err']. cbn in *. subst.
    split_and!; ring_arith. }
  split_and!.
  - split; rewrite ?Es, ?Epd, ?Evd; try done; try lia.
  - unfold sent. rewrite Ed, Em, Es, Eg, Epd, <- app_assoc. f_equal.
    rewrite <- cyc_app by (unfold valid_view in Hv; lia). f_equal. lia.
  - unfold room. rewrite Epd. intros. lia.
Qed.

(** The room up to the end of the ring or to the entry before get. *)
Definition contiguous (h : CommandBufferHelper) (v : View) : Z :=
  if put_ h <? v_get v then v_get v - put_ h - 1
  else total_entry_count_ h - put_ h - b2z (v_get v =? 0).

Definition with_immediate (i : Z) (h : CommandBufferHelper) : CommandBufferHelper :=
  h <| immediate_entry_count_ := i |>.

Lemma contiguous_room h v k :
  ring_inv h v → 0 <= k <= contiguous h v → room h v k.
Proof.
  intros [_ _ Hsz Ht [Hg _] Hp Hf Hs He] Hk. unfold contiguous, room, put_dist, b2z in *.
  rewrite Hsz in *. destruct (Z.ltb_spec (put_ h) (v_get v)), (Z.leb_spec (v_get v) (put_ h)),
    (Z.eqb_spec (v_get v) 0); lia.
Qed.

Lemma contiguous_nonneg h v : ring_inv h v → 0 <= contiguous h v.
Proof.
  intros [_ _ Hsz Ht [Hg _] Hp Hf Hs He]. unfold contiguous, put_dist, b2z in *.
  rewrite Hsz in *. destruct (Z.ltb_spec (put_ h) (v_get v)), (Z.leb_spec (v_get v) (put_ h)),
    (Z.eqb_spec (v_get v) 0); lia.
Qed.

Lemma ring_inv_immediate i h v : ring_inv h v → ring_inv (with_immediate i h) v.
Proof. by intros []. Qed.

(** [CalcImmediateEntries] counts no entry that is not free; right after a flush it
    counts at least the entries waited for, if they are there. *)
Lemma calc_immediate_spec w h v :
  ring_inv h v → 0 <= w →
  ∃ i, calc_immediate w (v_get v) h = Done (with_immediate i h) ∧ 0 <= i <= contiguous h v ∧
    (last_put_sent_ h = put_ h → w <= contiguous h v → w <= i).
Proof.
  intros HI Hw. pose proof (contiguous_nonneg h v HI) as Hc. destruct HI as [_ _ _ Ht _ Hp _ _ _].
  unfold calc_immediate. fold (contiguous h v). fold (with_immediate (contiguous h v) h).
  cbn [total_entry_count_ flush_automatically_ put_ last_put_sent_ immediate_entry_count_
    with_immediate set_field].
  destruct (flush_automatically_ h); [|by exists (contiguous h v)].
  pass_DCHECK ltac:(apply negb_true_iff, Z.eqb_neq; lia).
  set (limit := Z.quot _ _). set (pending := Z.rem _ _).
  assert (last_put_sent_ h = put_ h → pending = 0) as Hpend.
  { intros E. subst pending. rewrite E. replace (put_ h + _ - put_ h) with (total_entry_count_ h) by lia.
    apply Z.rem_same. lia. }
  clearbody limit pending. case_match eqn:Et.
  - exists 0. split; [by destruct h|]. prop_bools. split; [lia|]. intros E%Hpend. lia.
  - set (l := if limit - pending <? w then w else limit - pending).
    assert (w <= l) by (subst l; case_match; prop_bools; lia). clearbody l.
    exists (if l <? contiguous h v then l else contiguous h v).
    split; [by destruct h|]. case_match; prop_bools; lia.
Qed.

Section Client.
Context {B : Type} {cb : CommandBuffer B} {laws : CommandBufferLaws B}.
Implicit Types (h : CommandBufferHelper) (b : B).

(** The state [h'], [b'] is reached from [h], [b] by operations that put nothing into
    the ring: the invariant is kept, and so are the entries sent and the ring. *)
Definition quiet h b h' b' : Prop :=
  ring_inv h' (view b') ∧ same_ring h h' ∧ sent h' (view b') = sent h (view b) ∧
  (v_error (view b) ≠ kNoError → v_error (view b') ≠ kNoError).

Lemma quiet_trans h1 b1 h2 b2 h3 b3 :
  quiet h1 b1 h2 b2 → quiet h2 b2 h3 b3 → quiet h1 b1 h3 b3.
Proof.
  intros (I1 & S1 & E1 & R1) (I2 & S2 & E2 & R2).
  split_and!; [done|by eapply same_ring_trans|congruence|auto].
Qed.

Lemma quiet_progress h b b' :
  ring_inv h (view b) → progress (view b) (view b') →
  quiet h b h b' ∧ (∀ k, room h (view b) k → room h (view b') k).
Proof.
  intros HI Hp. destruct (ring_inv_progress h _ _ HI Hp) as (HI' & Es & Hr).
  destruct Hp as (_ & _ & _ & _ & _ & _ & _ & He). split; [|done].
  split_and!; [done|apply same_ring_refl|done|done].
Qed.

Lemma helper_get_offset_spec h b :
  ring_inv h (view b) →
  ∃ b', helper_get_offset b = (v_get (view b'), b') ∧ quiet h b h b' ∧
    progress (view b) (view b') ∧ (∀ k, room h (view b) k → room h (view b') k).
Proof.
  intros HI. unfold helper_get_offset. pose proof (GetLastState_law b (ri_view _ _ HI)) as (Hp & Eg & _).
  destruct (GetLastState b) as [s b']. cbn in *. exists b'. rewrite Eg.
  destruct (quiet_progress h b b' HI Hp). done.
Qed.

Lemma GetLastError_spec h b :
  ring_inv h (view b) →
  ∃ b', GetLastError b = (v_error (view b'), b') ∧ quiet h b h b' ∧ progress (view b) (view b') ∧
    (∀ k, room h (view b) k → room h (view b') k).
Proof.
  intros HI. unfold GetLastError. pose proof (GetLastState_law b (ri_view _ _ HI)) as (Hp & _ & Ee).
  destruct (GetLastState b) as [s b']. cbn in *. exists b'. rewrite Ee.
  destruct (quiet_progress h b b' HI Hp). done.
Qed.

Lemma CalcImmediateEntries_spec w h b :
  ring_inv h (view b) → 0 <= w →
  ∃ i b', CalcImmediateEntries w h b = Done (with_immediate i h, b') ∧
    quiet h b (with_immediate i h) b' ∧ progress (view b) (view b') ∧
    inv (with_immediate i h) (view b') ∧
    (last_put_sent_ h = put_ h → w <= contiguous h (view b') → w <= i).
Proof.
  intros HI Hw. unfold CalcImmediateEntries. pass_DCHECK ltac:(apply Z.leb_le; lia).
  pose proof HI as [Hu Hr _ _ _ _ _ _ _]. rewrite Hu, Hr. cbn [negb orb].
  destruct (helper_get_offset_spec h b HI) as (b' & -> & Hq & Hp & _).
  pose proof Hq as (HI' & Hs & Es & He).
  destruct (calc_immediate_spec w h (view b') HI' Hw) as (i & -> & Hi & Hw').
  cbn [mbind outcome_bind]. exists i, b'. split_and!; [done| |done| |done].
  - split_and!; [by apply ring_inv_immediate|done|done|done].
  - split; [by apply ring_inv_immediate|]. exact (contiguous_room h _ i HI' Hi).
Qed.

Lemma wrap_put_spec h v :
  ring_inv h v → ring_inv (wrap_put h) v ∧ sent (wrap_put h) v = sent h v ∧
    same_ring h (wrap_put h) ∧ put_ (wrap_put h) < total_entry_count_ h ∧
    put_dist (wrap_put h) v = put_dist h v.
Proof.
  intros [Hu Hr Hsz Ht Hv Hp Hf Hs He]. unfold wrap_put.
  destruct (Z.eqb_spec (put_ h) (total_entry_count_ h)) as [E|Hne]; [|by split_and!; [split|..|lia|]].
  assert (put_dist (h <| put_ := 0 |>) v = put_dist h v) as Epd.
  { destruct h, v. ring_arith. }
  split_and!; [|unfold sent; by rewrite Epd|done|cbn; lia|done].
  split; rewrite ?Epd; cbn; try done; lia.
Qed.

(** A flush tells the service of everything. *)
Lemma flush_progress h v v' :
  ring_inv h v → put_ h < total_entry_count_ h → progress (v <| v_put := put_ h |>) v' →
  ring_inv h v' ∧ sent h v' = sent h v ∧ v_put v' = put_ h ∧
  (v_error v ≠ kNoError → v_error v' ≠ kNoError).
Proof.
  intros [Hu Hr Hsz Ht Hv Hp Hf Hs He] Hlt Hpr.
  assert (ring_inv h (v <| v_put := put_ h |>)) as HI.
  { split; try done; destruct v; ring_arith. }
  destruct (ring_inv_progress h _ _ HI Hpr) as (HI' & Es & _).
  destruct Hpr as (k & _ & _ & _ & Ep & _ & _ & Hee). by split_and!.
Qed.

Lemma helper_Flush_spec h b :
  ring_inv h (view b) →
  ∃ h' b', helper_Flush h b = Done (h', b') ∧ quiet h b h' b' ∧ inv h' (view b') ∧
    v_put (view b') = put_ h' ∧ last_put_sent_ h' = put_ h' ∧ put_ h' = put_ (wrap_put h).
Proof.
  intros HI. destruct (wrap_put_spec h _ HI) as (HI1 & Es1 & Hs1 & Hlt & _).
  unfold helper_Flush. rewrite (ri_usable _ _ HI1).
  pose proof (TimeTicks_Now_law b (ri_view _ _ HI)) as Hpt.
  destruct (TimeTicks_Now b) as [now b1]. cbn in Hpt.
  destruct (ring_inv_progress (wrap_put h) _ _ HI1 Hpt) as (HI2 & Es2 & _).
  assert (v_error (view b) ≠ kNoError → v_error (view b1) ≠ kNoError) as He1.
  { by destruct Hpt as (_ & _ & _ & _ & _ & _ & _ & ?). }
  set (h1 := (wrap_put h) <| last_flush_time_ := now |> <| last_put_sent_ := _ |>).
  assert (ring_inv h1 (view b1)) as HI3 by (by destruct HI2).
  assert (put_ h1 < total_entry_count_ h1) as Hlt1.
  { destruct Hs1 as (_ & Et & _). change (put_ (wrap_put h) < total_entry_count_ (wrap_put h)). lia. }
  pose proof (Flush_law (put_ h1) b1 (ri_view _ _ HI3)) as Hfl.
  destruct (flush_progress h1 _ _ HI3 Hlt1 (Hfl ltac:(destruct HI3; lia))) as (HI4 & Es4 & Ep4 & He4).
  set (h2 := h1 <| flush_generation_ := _ |>).
  assert (ring_inv h2 (view (Flush (put_ h1) b1))) as HI5 by (by destruct HI4).
  destruct (CalcImmediateEntries_spec 0 h2 _ HI5 ltac:(lia)) as (i & b' & E & Hq & Hp & Hinv & _).
  exists (with_immediate i h2), b'. split; [exact E|]. destruct Hq as (Q1 & Q2 & Q3 & Q4).
  split_and!; [|done| |done|done].
  - split_and!; [done|exact Hs1| |auto].
    rewrite Q3. transitivity (sent h1 (view b1)); [exact Es4|].
    transitivity (sent (wrap_put h) (view b)); [exact Es2|exact Es1].
  - destruct Hp as (_ & _ & _ & _ & Ep & _). rewrite Ep. exact Ep4.
Qed.

Lemma helper_OrderingBarrier_spec h b :
  ring_inv h (view b) →
  ∃ h' b', helper_OrderingBarrier h b = Done (h', b') ∧ quiet h b h' b' ∧ inv h' (view b').
Proof.
  intros HI. destruct (wrap_put_spec h _ HI) as (HI1 & Es1 & Hs1 & Hlt & _).
  unfold helper_OrderingBarrier. rewrite (ri_usable _ _ HI1).
  assert (put_ (wrap_put h) < total_entry_count_ (wrap_put h)) as Hlt1.
  { destruct Hs1 as (_ & Et & _). lia. }
  pose proof (OrderingBarrier_law (put_ (wrap_put h)) b (ri_view _ _ HI)) as Hfl.
  assert (0 <= put_ (wrap_put h) < v_size (view b)) as Hput.
  { pose proof (ri_size _ _ HI1). pose proof (ri_put _ _ HI1). lia. }
  destruct (flush_progress (wrap_put h) _ _ HI1 Hlt1 (Hfl Hput)) as (HI4 & Es4 & Ep4 & He4).
  set (h2 := (wrap_put h) <| flush_generation_ := _ |>).
  assert (ring_inv h2 (view (OrderingBarrier (put_ (wrap_put h)) b))) as HI5 by (by destruct HI4).
  destruct (CalcImmediateEntries_spec 0 h2 _ HI5 ltac:(lia)) as (i & b' & E & Hq & Hp & Hinv & _).
  exists (with_immediate i h2), b'. split; [exact E|]. destruct Hq as (Q1 & Q2 & Q3 & Q4).
  split; [|done]. split_and!; [done|exact Hs1| |auto].
  rewrite Q3. transitivity (sent (wrap_put h) (view b)); [exact Es4|exact Es1].
Qed.

(** After a flush get can come to put. *)
Lemma reachable_put start end' v :
  valid_view v → InRange start end' (v_put v) = true → reachable_get start end' v.
Proof.
  intros Hv Hr. exists (v_dist v). split; [destruct v; ring_arith|].
  replace (adv (v_size v) (v_get v) (v_dist v)) with (v_put v); [done|].
  destruct v; ring_arith.
Qed.

Lemma helper_Wait_spec start end' h b :
  ring_inv h (view b) → InRange start end' (v_put (view b)) = true →
  ∃ ok b', helper_WaitForGetOffsetInRange start end' h b = (ok, b') ∧ quiet h b h b' ∧
    v_put (view b') = v_put (view b) ∧ (∀ k, room h (view b) k → room h (view b') k) ∧
    (ok = false → v_error (view b') ≠ kNoError) ∧
    (ok = true → ∃ v, valid_view v ∧ InRange start end' (v_get v) = true ∧
       v_put v = v_put (view b) ∧ v_size v = v_size (view b) ∧ progress v (view b')).
Proof.
  intros HI Hr. unfold helper_WaitForGetOffsetInRange. rewrite (ri_usable _ _ HI). cbn [negb].
  destruct (WaitForGetOffsetInRange_law start end' b (ri_view _ _ HI)) as [Hp Hpost].
  set (b1 := WaitForGetOffsetInRange start end' b) in *.
  specialize (Hpost (reachable_put _ _ _ (ri_view _ _ HI) Hr)).
  destruct (quiet_progress h b b1 HI Hp) as [Hq Hroom1]. pose proof Hq as (HI1 & _).
  destruct (GetLastError_spec h b1 HI1) as (b2 & -> & Hq2 & Hp2 & Hroom2).
  exists (bool_decide (v_error (view b2) = kNoError)), b2. split; [done|].
  pose proof Hp as (_ & _ & Esz & _ & Ep & _). pose proof Hp2 as (_ & _ & _ & _ & Ep2 & _ & _ & He2).
  split_and!; [by eapply quiet_trans|congruence|auto| |].
  - intros Hb. by apply bool_decide_eq_false_1 in Hb.
  - intros Hb. apply bool_decide_eq_true_1 in Hb. exists (view b1).
    split_and!; [apply HI1| |done|done|done].
    destruct Hpost as [Herr|]; [|done]. by destruct (He2 Herr).
Qed.

(** ** No-ops at the end of the ring *)

Definition is_noop (w : list Z) : Prop :=
  Z.of_nat (length w) <= kMaxSize ∧
  ∃ args, w = entry_of_header (mkCommandHeader (Z.of_nat (length w)) (id_value kNoop)) :: args.

Definition is_noops (l : list Z) : Prop := ∃ ws, l = concat ws ∧ Forall is_noop ws.

(** Storing [w] at put and moving put over [k] entries. *)
Lemma ring_inv_store h h' v w k :
  ring_inv h v → same_ring h h' → put_ h' = put_ h + k →
  0 < k → Z.of_nat (length w) <= k → room h v k →
  let v' := v <| v_mem := update (put_ h) w (v_mem v) |> in
  ring_inv h' v' ∧ put_dist h' v' = put_dist h v + k ∧
  sent h' v' = sent h v ++ cyc (update (put_ h) w (v_mem v)) (v_size v) (put_ h) k.
Proof.
  intros [Hu Hr Hsz Ht Hv Hp Hf Hs He] (Eid & Etot & Eu & _) Ep Hk Hw (Hr0 & Hr1 & Hr2) v'.
  assert (put_dist h' v' = put_dist h v + k ∧
          put_ h = adv (v_size v) (v_get v) (put_dist h v) ∧ v_dist v' = v_dist v) as (Epd & Eput & Evd).
  { destruct h, h', v. subst v'. cbn in *. subst. split_and!; ring_arith. }
  assert (0 <= put_dist h v) by (unfold put_dist; case_match; prop_bools; destruct Hv; lia).
  split_and!; [|done|unfold sent].
  - split; rewrite ?Epd, ?Evd, ?Etot, ?Ep; try done; try lia.
    + by rewrite Eu.
    + unfold HaveRingBuffer. by rewrite Eid.
  - change (v_done v') with (v_done v). change (v_size v') with (v_size v).
    change (v_get v') with (v_get v). change (v_mem v') with (update (put_ h) w (v_mem v)).
    rewrite Epd, cyc_app by (destruct Hv; lia). rewrite <- Eput, app_assoc. f_equal.
    f_equal. apply cyc_update_other; [apply Hv|done|lia|by left|lia].
Qed.

Lemma noop_entries mem n p k noop :
  Noop_Init k = Done noop → 0 <= p → p + k <= n → 0 < k <= kMaxSize →
  is_noop (cyc (update p noop mem) n p k) ∧ (length noop = 1)%nat.
Proof.
  intros En Hp Hn Hk. change kMaxSize with 2097151 in Hk. unfold Noop_Init in En.
  revert En. pass_DCHECK ltac:(apply Z.ltb_lt; lia).
  rewrite s32_small, Header_Init_done by (change kMaxSize with 2097151; cbn; lia).
  cbn [mbind outcome_bind]. intros [= <-]. split; [|done].
  set (x := entry_of_header _).
  assert (cyc (update p [x] mem) n p k
          = [x] ++ cyc (update p [x] mem) n (adv n p 1) (k - 1)) as E.
  { replace k with (1 + (k - 1)) at 1 by lia. rewrite cyc_app by lia. f_equal.
    apply (cyc_update_same mem n p [x]); cbn; lia. }
  split; [rewrite length_cyc; change kMaxSize with 2097151; lia|].
  eexists. rewrite length_cyc, E. cbn [app]. f_equal. subst x. do 2 f_equal. lia.
Qed.

Lemma fill_noops_spec fuel : ∀ num h b,
  ring_inv h (view b) → 0 <= num → put_ h + num = total_entry_count_ h →
  room h (view b) num → (Z.to_nat num < fuel)%nat →
  ∃ h' b' l, fill_noops fuel num h b = Done (Some (h', b')) ∧ ring_inv h' (view b') ∧
    same_ring h h' ∧ put_ h' = total_entry_count_ h ∧ last_put_sent_ h' = last_put_sent_ h ∧
    sent h' (view b') = sent h (view b) ++ l ∧ is_noops l ∧
    v_get (view b') = v_get (view b) ∧ v_put (view b') = v_put (view b) ∧
    v_error (view b') = v_error (view b).
Proof.
  induction fuel as [|fuel IH]; intros num h b HI Hn Hp Hr Hf; [lia|]. cbn [fill_noops].
  destruct (Z.ltb_spec 0 num) as [Hpos|].
  2: { exists h, b, []. split_and!; try done; [lia|by rewrite app_nil_r|by exists []]. }
  set (k := Z.min kMaxSize num).
  assert (0 < k <= num ∧ k <= kMaxSize) as [Hk Hkm] by (subst k; change kMaxSize with 2097151; lia).
  destruct (Noop_Init k) as [noop|] eqn:En.
  2: { exfalso. revert En. unfold Noop_Init. change kMaxSize with 2097151 in Hkm.
       pass_DCHECK ltac:(apply Z.ltb_lt; lia).
       rewrite s32_small, Header_Init_done by (change kMaxSize with 2097151; cbn; lia). done. }
  cbn [mbind outcome_bind]. 
  pose proof (ri_size _ _ HI) as Hsz. pose proof (ri_put _ _ HI) as Hput.
  destruct (noop_entries (v_mem (view b)) (v_size (view b)) (put_ h) k noop En)
    as [Hno Hlen]; [lia..|].
  assert (room h (view b) k) as Hrk by (destruct Hr as (? & ? & ?); unfold room; lia).
  destruct (ring_inv_store h (h <| put_ := put_ h + k |>) (view b) noop k)
    as (HI1 & Epd & Es1); [done|done|done|lia|lia|done|].
  rewrite <- (store_entries_law (ring_buffer_id_ h)) in HI1, Es1, Epd.
  destruct (IH (num - k) (h <| put_ := put_ h + k |>)
    (store_entries (ring_buffer_id_ h) (put_ h) noop b)) as
    (h' & b' & l & E & HI2 & Hs2 & Ep2 & El2 & Es2 & (ws & -> & Hws) & Eg2 & Evp2 & Ee2);
    [done|lia|cbn; lia| |lia|].
  { destruct Hr as (? & ? & ?). unfold room. rewrite Epd. cbn. lia. }
  rewrite store_entries_law in Eg2, Evp2, Ee2.
  eexists h', b', _. split; [exact E|]. split_and!; try done.
  - rewrite Es2, Es1, <- app_assoc. reflexivity.
  - eexists (_ :: ws). split; [reflexivity|]. by constructor.
Qed.

(** ** Waiting for room *)

Lemma wrap_put_small h : put_ h < total_entry_count_ h → wrap_put h = h.
Proof. intros. unfold wrap_put. by decide_tests ltac:(lia). Qed.

Lemma InRange_le start end' x : start <= end' → InRange start end' x = true → start <= x <= end'.
Proof. intros Hle. unfold InRange. decide_tests ltac:(lia). intros. prop_bools. lia. Qed.

Lemma InRange_self start end' : start <= end' → InRange start end' end' = true.
Proof. intros. unfold InRange. by decide_tests ltac:(lia). Qed.

(** get between 1 and put stays there when put is the last the service was told. *)
Lemma progress_between v v' put :
  valid_view v → progress v v' → v_put v = put → 1 <= v_get v <= put → 1 <= v_get v' <= put.
Proof.
  intros Hv (k & Hk & _ & _ & _ & Eg & _) <- Hg. rewrite Eg. destruct v. ring_arith.
Qed.

(** The wait in front of a wrap: afterwards get is between 1 and put, or there is an
    error. *)
Lemma wait_before_wrap h b1 :
  ring_inv h (view b1) → 1 <= put_ h →
  ∃ ok h2 b2, (if (put_ h <? v_get (view b1)) || (v_get (view b1) =? 0) then
     hb ← helper_Flush h b1;
     let '(h, b) := hb : CommandBufferHelper * B in
     let '(ok, b) := helper_WaitForGetOffsetInRange 1 (put_ h) h b in
     if negb ok then Done (false, h, b)
     else
       let '(curr_get, b) := helper_get_offset b in
       DCHECK (curr_get <=? put_ h) ;;
       DCHECK (negb (curr_get =? 0)) ;;
       Done (true, h, b)
   else Done (true, h, b1)) = Done (ok, h2, b2) ∧ quiet h b1 h2 b2 ∧ put_ h2 = put_ h ∧
    (ok = false → v_error (view b2) ≠ kNoError ∧ room h2 (view b2) (immediate_entry_count_ h2)) ∧
    (ok = true → 1 <= v_get (view b2) <= put_ h).
Proof.
  intros HI1 Hput. destruct (_ || _) eqn:Et.
  - assert (put_ h < total_entry_count_ h) as Hlt.
    { apply orb_true_iff in Et. destruct HI1. rewrite Z.ltb_lt, Z.eqb_eq in Et.
      unfold put_dist, valid_view in *. destruct (Z.leb_spec (v_get (view b1)) (put_ h)); lia. }
    destruct (helper_Flush_spec h b1 HI1) as (h2 & b2 & -> & Hq2 & [_ Hr2] & Evp & _ & Ep).
    rewrite wrap_put_small in Ep by done. cbn [mbind outcome_bind].
    pose proof Hq2 as (HI2 & _).
    destruct (helper_Wait_spec 1 (put_ h2) h2 b2 HI2) as (ok & b3 & -> & Hq3 & Evp3 & Hr3 & Herr & Hok).
    { rewrite Evp. apply InRange_self. lia. }
    pose proof (quiet_trans _ _ _ _ _ _ Hq2 Hq3) as Hq23. pose proof Hq23 as (HI3 & _).
    destruct ok; cbn [negb]; [|by eexists false, h2, b3; split_and!; auto].
    destruct (Hok eq_refl) as (v & Hv & Hin & Evpv & _ & Hpv).
    apply InRange_le in Hin; [|lia].
    apply (progress_between v _ (put_ h2) Hv) in Hpv; [|congruence|done].
    destruct (helper_get_offset_spec h2 b3 HI3) as (b4 & -> & Hq4 & Hp4 & _).
    apply (progress_between (view b3) _ (put_ h2) (ri_view _ _ HI3)) in Hp4; [|congruence|done].
    pass_DCHECK ltac:(apply Z.leb_le; lia).
    pass_DCHECK ltac:(apply negb_true_iff, Z.eqb_neq; lia).
    exists true, h2, b4. split_and!; try done; [|lia..]. by eapply quiet_trans.
  - exists true, h, b1. prop_bools. pose proof (ri_view _ _ HI1) as [Hg _].
    split_and!; [done|by split_and!|done|done|lia].
Qed.

Lemma wrap_around_spec h b :
  ring_inv h (view b) → 1 <= put_ h →
  ∃ ok h' b' l, wrap_around h b = Done (ok, h', b') ∧ ring_inv h' (view b') ∧ same_ring h h' ∧
    sent h' (view b') = sent h (view b) ++ l ∧ is_noops l ∧
    (ok = false → v_error (view b') ≠ kNoError) ∧ (ok = true → put_ h' = 0) ∧
    (v_error (view b) ≠ kNoError → v_error (view b') ≠ kNoError) ∧
    (ok = false → room h' (view b') (immediate_entry_count_ h')).
Proof.
  intros HI Hput. unfold wrap_around. pass_DCHECK ltac:(apply Z.leb_le; lia).
  destruct (helper_get_offset_spec h b HI) as (b1 & -> & Hq1 & Hp1 & _).
  destruct (wait_before_wrap h b1) as (ok & h2 & b2 & -> & Hq2 & Ep2 & Hf & Ht); [apply Hq1|done|].
  cbn [mbind outcome_bind]. pose proof (quiet_trans _ _ _ _ _ _ Hq1 Hq2) as (HI2 & Hs2 & Es2 & He2).
  destruct ok; cbn [negb].
  2: { destruct (Hf eq_refl). eexists false, h2, b2, []. split_and!; try done;
       [by rewrite app_nil_r|by exists []]. }
  specialize (Ht eq_refl). pose proof (ri_put _ _ HI2).
  destruct (fill_noops_spec (S (Z.to_nat (total_entry_count_ h2 - put_ h2)))
    (total_entry_count_ h2 - put_ h2) h2 b2 HI2) as
    (h3 & b3 & l & -> & HI3 & Hs3 & Ep3 & _ & Es3 & Hl & _ & _ & Ee3); [lia|lia| |lia|].
  { pose proof (ri_size _ _ HI2). unfold room, put_dist. decide_tests ltac:(lia). lia. }
  cbn [mbind outcome_bind].
  destruct (wrap_put_spec h3 _ HI3) as (HI4 & Es4 & Hs4 & _).
  assert (wrap_put h3 = h3 <| put_ := 0 |>) as E4.
  { unfold wrap_put. destruct Hs3 as (_ & Et3 & _). by rewrite (proj2 (Z.eqb_eq _ _)) by congruence. }
  rewrite E4 in *. eexists true, _, b3, l. split; [done|]. split_and!; try done.
  - by eapply same_ring_trans; [|eapply same_ring_trans].
  - by rewrite Es4, Es3, Es2.
  - by rewrite Ee3.
Qed.
(** After the wait of [wait_for_entries] the room is there, unless the command ends
    exactly at the end of the ring and get is 0. *)
Definition waited (put count : Z) (v : View) : Prop :=
  v_put v = put ∧ (put + count + 1 <= v_get v ∨ v_get v <= put).

Lemma progress_waited put count v v' :
  valid_view v → 0 <= count → progress v v' → waited put count v → waited put count v'.
Proof.
  unfold waited. intros Hv Hc (k & Hk & _ & _ & Ep & Eg & _) [<- Hg]. rewrite Ep, Eg.
  split; [done|]. destruct v. ring_arith.
Qed.

Lemma waited_room h v count :
  ring_inv h v → waited (put_ h) count v → 0 < count → put_ h + count <= total_entry_count_ h →
  put_ h + count < total_entry_count_ h ∨ v_get v ≠ 0 → count <= contiguous h v.
Proof.
  unfold waited, contiguous, b2z. intros HI [_ Hg] Hc Hp Hcorner.
  destruct (Z.ltb_spec (put_ h) (v_get v)), (Z.eqb_spec (v_get v) 0); lia.
Qed.

Definition error_or_room (count : Z) h b : Prop :=
  immediate_entry_count_ h < count → v_error (view b) ≠ kNoError.

Lemma wait_for_entries_spec count h b :
  ring_inv h (view b) → 0 < count → put_ h + count <= total_entry_count_ h →
  (∃ h' b', wait_for_entries count h b = Done (h', b') ∧ quiet h b h' b' ∧ inv h' (view b') ∧
     put_ h' = put_ h ∧ error_or_room count h' b') ∨
  (wait_for_entries count h b = DcheckFailed ∧ put_ h + count = total_entry_count_ h).
Proof.
  intros HI Hc Hend. unfold wait_for_entries, error_or_room.
  destruct (CalcImmediateEntries_spec count h b HI ltac:(lia)) as (i1 & b1 & -> & Hq1 & _ & Hinv1 & _).
  cbn [mbind outcome_bind].
  destruct (Z.ltb_spec (immediate_entry_count_ (with_immediate i1 h)) count) as [_|Hge].
  2: { left. eexists _, b1. split_and!; try done. lia. }
  pose proof Hq1 as (HI1 & Hs1 & _).
  destruct (helper_Flush_spec (with_immediate i1 h) b1 HI1) as (h2 & b2 & -> & Hq2 & _ & Evp2 & Elp2 & Ep2).
  rewrite wrap_put_small in Ep2 by (cbn; lia). change (put_ (with_immediate i1 h)) with (put_ h) in Ep2.
  cbn [mbind outcome_bind fst snd]. pose proof Hq2 as (HI2 & Hs2 & _).
  destruct (CalcImmediateEntries_spec count h2 b2 HI2 ltac:(lia)) as (i3 & b3 & -> & Hq3 & Hp3 & Hinv3 & _).
  cbn [mbind outcome_bind]. set (h3 := with_immediate i3 h2) in *.
  pose proof (quiet_trans _ _ _ _ _ _ Hq1 (quiet_trans _ _ _ _ _ _ Hq2 Hq3)) as Hq123.
  destruct (Z.ltb_spec (immediate_entry_count_ h3) count) as [_|Hge].
  2: { left. exists h3, b3. split_and!; try done. lia. }
  pose proof Hq3 as (HI3 & _). destruct Hinv3 as [_ Hr3].
  assert (v_put (view b3) = put_ h) as Evp3.
  { destruct Hp3 as (_ & _ & _ & _ & -> & _). by rewrite Evp2. }
  change (put_ h3) with (put_ h2). rewrite Ep2.
  destruct (helper_Wait_spec (put_ h + count + 1) (put_ h) h3 b3 HI3) as
    (ok & b4 & -> & Hq4 & Evp4 & Hroom4 & Herr & Hok).
  { rewrite Evp3. unfold InRange. decide_tests ltac:(lia). apply orb_true_r. }
  pose proof (quiet_trans _ _ _ _ _ _ Hq123 Hq4) as Hq1234. pose proof Hq4 as (HI4 & _).
  destruct ok; cbn [negb].
  2: { left. exists h3, b4. split_and!; try done; [by split; [|apply Hroom4]|auto]. }
  destruct (Hok eq_refl) as (v & Hv & Hin & Evpv & _ & Hpv).
  assert (waited (put_ h) count v) as Hw.
  { split; [congruence|]. revert Hin. unfold InRange. decide_tests ltac:(lia).
    rewrite orb_true_iff, !Z.leb_le. done. }
  apply (progress_waited _ count _ _ Hv ltac:(lia) Hpv) in Hw.
  destruct (CalcImmediateEntries_spec count h3 b4 HI4 ltac:(lia)) as
    (i5 & b5 & -> & Hq5 & Hp5 & Hinv5 & Hw5).
  apply (progress_waited _ count _ _ (ri_view _ _ HI4) ltac:(lia) Hp5) in Hw.
  cbn [mbind outcome_bind fst snd]. pose proof Hq5 as (HI5 & _).
  assert (total_entry_count_ h3 = total_entry_count_ h) as Et3.
  { by destruct Hq123 as (_ & (_ & ? & _) & _). }
  change (immediate_entry_count_ (with_immediate i5 h3)) with i5.
  destruct (Z.leb_spec count i5) as [Hle|Hgt].
  - left. eexists _, b5. split; [reflexivity|]. split_and!; [by eapply quiet_trans|done|done|cbn; lia].
  - right. split; [done|]. 
    destruct (decide (put_ h + count = total_entry_count_ h)) as [|Hne]; [done|]. exfalso.
    assert (count <= i5); [|lia]. apply Hw5; [done|].
    apply (waited_room (with_immediate i5 h3) (view b5)); try done;
      change (put_ (with_immediate i5 h3)) with (put_ h2);
      change (total_entry_count_ (with_immediate i5 h3)) with (total_entry_count_ h3);
      rewrite ?Ep2, ?Et3; [done|lia|left; lia].
Qed.

(** *** GetSpace *)

Lemma AllocateRingBuffer_ring h b :
  usable_ h = true → HaveRingBuffer h = true → AllocateRingBuffer h b = Done (true, h, b).
Proof. intros Hu Hr. unfold AllocateRingBuffer. by rewrite Hu, Hr. Qed.

(** What an operation that may put no-ops into the ring does. *)
Definition filled h b h' b' : Prop :=
  inv h' (view b') ∧ same_ring h h' ∧
  (∃ l, sent h' (view b') = sent h (view b) ++ l ∧ is_noops l) ∧
  (v_error (view b) ≠ kNoError → v_error (view b') ≠ kNoError).

Lemma is_noops_app l1 l2 : is_noops l1 → is_noops l2 → is_noops (l1 ++ l2).
Proof.
  intros (w1 & -> & H1) (w2 & -> & H2). exists (w1 ++ w2). rewrite concat_app.
  split; [done|]. by apply Forall_app.
Qed.

Lemma quiet_filled h b h' b' : quiet h b h' b' → inv h' (view b') → filled h b h' b'.
Proof.
  intros (HI & Hs & Es & He) Hinv. split_and!; [done|done| |done].
  exists []. rewrite app_nil_r. split; [done|by exists []].
Qed.

Lemma WaitForAvailableEntries_spec count h b :
  ring_inv h (view b) → 0 < count < total_entry_count_ h →
  (∃ h' b', WaitForAvailableEntries count h b = Done (h', b') ∧ filled h b h' b' ∧
     error_or_room count h' b') ∨
  (WaitForAvailableEntries count h b = DcheckFailed ∧ put_ h + count = total_entry_count_ h).
Proof.
  intros HI Hc. pose proof HI as [Hu Hr _ _ _ Hp _ _ _]. unfold WaitForAvailableEntries.
  rewrite AllocateRingBuffer_ring by done. cbn [mbind outcome_bind]. rewrite Hu, Hr. cbn [negb DCHECK].
  cbn [mbind outcome_bind]. pass_DCHECK ltac:(apply Z.ltb_lt; lia).
  destruct (Z.ltb_spec (total_entry_count_ h) (put_ h + count)) as [Hgt|Hle].
  - left. destruct (wrap_around_spec h b HI) as
      (ok & h1 & b1 & l & -> & HI1 & Hs1 & Es1 & Hl & Herr & Hput & He1 & Hroom); [lia|].
    cbn [mbind outcome_bind]. pose proof Hs1 as (_ & Et1 & _).
    destruct ok; cbn [negb].
    + destruct (wait_for_entries_spec count h1 b1 HI1) as
        [(h2 & b2 & -> & (HI2 & Hs2 & Es2 & He2) & Hinv & _ & Hroom2)|[_ Hbad]];
        [lia|rewrite Hput by done; lia| |rewrite Hput in Hbad by done; lia].
      exists h2, b2. split_and!; [done| |done]. split_and!; [done|by eapply same_ring_trans| |auto].
      exists l. by rewrite Es2.
    + exists h1, b1. split_and!; [done| |by intros _; apply Herr].
      split_and!; [split; [done|by apply Hroom]|done|by exists l|done].
  - destruct (wait_for_entries_spec count h b HI) as
      [(h2 & b2 & -> & Hq & Hinv & _ & Hroom2)|[-> Hbad]]; [lia..| |by right].
    left. exists h2, b2. split_and!; [done|by apply quiet_filled|done].
Qed.

Lemma inv_fields h h' v :
  same_ring h h' → put_ h' = put_ h → immediate_entry_count_ h' = immediate_entry_count_ h →
  inv h v → inv h' v.
Proof.
  intros (Ei & Et & Eu & _) Ep Eim [[] Hr]. unfold inv, room, put_dist in *.
  split; [split; unfold put_dist, HaveRingBuffer in *; rewrite ?Ei, ?Et, ?Eu, ?Ep; done|].
  rewrite ?Et, ?Ep, ?Eim. done.
Qed.

Lemma PeriodicFlushCheck_spec h b :
  inv h (view b) →
  ∃ h' b', PeriodicFlushCheck h b = Done (h', b') ∧ quiet h b h' b' ∧ inv h' (view b') ∧ (put_ h' = put_ h ∨ put_ h' = 0).
Proof.
  intros [HI Hroom]. unfold PeriodicFlushCheck.
  pose proof (TimeTicks_Now_law b (ri_view _ _ HI)) as Hp.
  destruct (TimeTicks_Now b) as [now b1]. cbn in Hp.
  destruct (quiet_progress h b b1 HI Hp) as [Hq Hr]. pose proof Hq as (HI1 & _).
  case_match.
  - destruct (helper_Flush_spec h b1 HI1) as (h2 & b2 & E & Hq2 & Hinv & _ & _ & Ep).
    exists h2, b2. split_and!; [done|by eapply quiet_trans|done|].
    rewrite Ep. unfold wrap_put. case_match; [by right|by left].
  - exists h, b1. split_and!; [done|done|split; [done|by apply Hr]|by left].
Qed.

(** Writing a command into room that is there. *)
Lemma store_command_spec w h h' b :
  inv h (view b) → (0 < length w)%nat → Z.of_nat (length w) <= immediate_entry_count_ h →
  h' = h <| put_ := put_ h + Z.of_nat (length w) |>
         <| immediate_entry_count_ := immediate_entry_count_ h - Z.of_nat (length w) |> →
  let b' := store_entries (ring_buffer_id_ h') (put_ h) w b in
  inv h' (view b') ∧ sent h' (view b') = sent h (view b) ++ w ∧
  put_ h + Z.of_nat (length w) <= total_entry_count_ h.
Proof.
  intros [HI Hr] Hw Hle Eh' b'. set (count := Z.of_nat (length w)) in *.
  pose proof (ri_size _ _ HI) as Hsz. pose proof (ri_put _ _ HI) as Hp.
  destruct Hr as (Hr0 & Hr1 & Hr2).
  destruct (ring_inv_store h h' (view b) w count) as (HI' & Ed & Es);
    [done|by subst h'|by subst h'|lia|lia|split_and!; lia|].
  assert (view b' = (view b) <| v_mem := update (put_ h) w (v_mem (view b)) |>) as Eb
    by apply store_entries_law.
  rewrite <- Eb in *. split_and!; [split; [done|]| |lia].
  - unfold room. rewrite Ed. subst h'. cbn. lia.
  - rewrite Es. f_equal. apply cyc_update_same; lia.
Qed.

Lemma is_noops_nil : is_noops [].
Proof. by exists []. Qed.

(** [issue] puts the command behind what was sent before, with no-ops in between if the
    ring wraps; it fails if there is an error, or at a command that would end exactly at
    the end of the ring. *)
Lemma issue_spec w h b :
  inv h (view b) → (0 < length w)%nat → Z.of_nat (length w) < total_entry_count_ h →
  (∃ ok h' b' l, issue w h b = Done (ok, h', b') ∧ inv h' (view b') ∧ same_ring h h' ∧
     is_noops l ∧
     sent h' (view b') = sent h (view b) ++ l ++ (if ok : bool then w else []) ∧
     (ok = false → v_error (view b') ≠ kNoError) ∧
     (v_error (view b) ≠ kNoError → v_error (view b') ≠ kNoError)) ∨
  (issue w h b = DcheckFailed ∧ put_ h + Z.of_nat (length w) = total_entry_count_ h).
Proof.
  intros Hinv Hw Hn. unfold issue, GetSpace. set (count := Z.of_nat (length w)) in *.
  set (h0 := h <| commands_issued_ := _ |>).
  assert (inv h0 (view b)) as Hinv0 by by apply (inv_fields h).
  (* the periodic flush *)
  assert (∃ h1 b1, (if flush_automatically_ h0 && (Z.rem (commands_issued_ h0) kCommandsPerFlushCheck =? 0)
      then PeriodicFlushCheck h0 b else Done (h0, b)) = Done (h1, b1) ∧
      quiet h0 b h1 b1 ∧ inv h1 (view b1) ∧ (put_ h1 = put_ h ∨ put_ h1 = 0))
    as (h1 & b1 & -> & (HI1 & Hs1 & Es1 & He1) & Hinv1 & Hput1).
  { case_match; [exact (PeriodicFlushCheck_spec h0 b Hinv0)|].
    exists h0, b. destruct Hinv0. by split_and!; [..|left]. }
  change (sent h0 (view b)) with (sent h (view b)) in Es1.
  change (same_ring h h1) in Hs1. pose proof Hs1 as (_ & Et1 & _). cbn [mbind outcome_bind].
  (* the wait *)
  assert ((∃ h2 b2, (if immediate_entry_count_ h1 <? count
      then WaitForAvailableEntries count h1 b1 else Done (h1, b1)) = Done (h2, b2) ∧
      filled h1 b1 h2 b2 ∧ error_or_room count h2 b2) ∨
    ((if immediate_entry_count_ h1 <? count
      then WaitForAvailableEntries count h1 b1 else Done (h1, b1)) = DcheckFailed ∧
      put_ h1 + count = total_entry_count_ h1))
    as [(h2 & b2 & -> & (Hinv2 & Hs2 & (l & Es2 & Hl) & He2) & Hroom)|[-> Hbad]].
  { destruct (Z.ltb_spec (immediate_entry_count_ h1) count).
    - apply WaitForAvailableEntries_spec; [done|lia].
    - left. exists h1, b1. split_and!; [done|by apply quiet_filled|unfold error_or_room; lia]. }
  2: { right. split; [done|]. lia. }
  left. cbn [mbind outcome_bind]. pose proof (same_ring_trans _ _ _ Hs1 Hs2) as Hs.
  destruct (Z.ltb_spec (immediate_entry_count_ h2) count) as [Hlt|Hge]; cbn [mbind outcome_bind].
  - exists false, h2, b2, l. split_and!; try done; [|by intros _; apply Hroom|auto].
    by rewrite app_nil_r, Es2, Es1.
  - destruct (store_command_spec w h2 _ b2 Hinv2 Hw Hge eq_refl) as (Hinv3 & Es3 & Hend).
    pass_DCHECK ltac:(apply Z.leb_le; exact Hend). cbn [mbind outcome_bind].
    eexists true, _, _, l. split; [reflexivity|]. split_and!; try done.
    + transitivity (sent h2 (view b2) ++ w); [exact Es3|]. by rewrite Es2, Es1, <- app_assoc.
    + rewrite store_entries_law. auto.
Qed.

(** ** The ring buffer is made *)

Lemma ClearUsable_spec h b :
  ClearUsable h b = Done (h <| usable_ := false |> <| context_lost_ := true |>
                            <| immediate_entry_count_ := 0 |>, b).
Proof. reflexivity. Qed.

Lemma new_ring_inv h v :
  usable_ h = true → HaveRingBuffer h = true → 0 < total_entry_count_ h <= 536870912 →
  put_ h = 0 → v_size v = total_entry_count_ h → v_get v = 0 → v_put v = 0 →
  ring_inv h v ∧ sent h v = v_done v.
Proof.
  intros Hu Hr Ht Ep Es Eg Evp.
  assert (put_dist h v = 0 ∧ v_dist v = 0) as [Ed Ev].
  { unfold put_dist, v_dist. rewrite Eg, Evp, Ep. done. }
  split; [|unfold sent; by rewrite Ed, app_nil_r].
  split; try done; rewrite ?Ed, ?Ev, ?Ep; try lia. unfold valid_view. lia.
Qed.
End Client.

(** [Initialize] makes the ring, empty and with the invariant, or leaves the helper
    unusable and the context lost. *)
Theorem Initialize_spec {B : Type} {cb : CommandBuffer B} {laws : CommandBufferLaws B}
    {setup : CommandBufferSetup B} size (h : CommandBufferHelper) (b : B) :
  usable_ h = true → HaveRingBuffer h = false → 4 <= size < 2147483648 →
  ∃ ok h' b', Initialize size h b = Done (ok, h', b') ∧ token_ h' = token_ h ∧
    (ok = true → inv h' (view b') ∧ total_entry_count_ h' = Z.quot size 4 ∧
       put_ h' = 0 ∧ sent h' (view b') = v_done (view b)) ∧
    (ok = false → usable_ h' = false ∧ context_lost_ h' = true).
Proof.
  intros Hu Hr Hs. unfold Initialize. set (h0 := h <| ring_buffer_size_ := size |>).
  unfold AllocateRingBuffer. change (usable_ h0) with (usable_ h).
  change (HaveRingBuffer h0) with (HaveRingBuffer h). rewrite Hu, Hr. cbn [negb].
  change (ring_buffer_size_ h0) with size. pose proof (CreateTransferBuffer_law size b) as Hlaw.
  destruct (CreateTransferBuffer size b) as [id b1]. destruct (Z.ltb_spec id 0) as [Hneg|Hid].
  - destruct Hlaw as [_ HeI]. rewrite ClearUsable_spec. cbn [mbind outcome_bind]. unfold GetLastError.
    destruct (GetLastState b1) as [s b2]. cbn [fst] in HeI. rewrite HeI. by eexists _, _, _.
  - destruct Hlaw as (Es & Eg & Ep & Ed).
    set (h1 := h0 <| ring_buffer_id_ := id |> <| total_entry_count_ := _ |> <| put_ := 0 |>).
    set (b2 := SetGetBuffer id b1) in *. clearbody b2.
    assert (0 < Z.quot size 4 <= 536870912) as Hq by (rewrite Z.quot_div_nonneg by lia; Z.to_euclidean_division_equations; lia).
    destruct (new_ring_inv h1 (view b2)) as [HI Esent]; try done.
    { unfold HaveRingBuffer. cbn. apply negb_true_iff, Z.eqb_neq. lia. }
    destruct (CalcImmediateEntries_spec 0 h1 b2 HI ltac:(lia)) as
      (i & b3 & -> & (_ & _ & Es3 & _) & _ & Hinv & _).
    cbn [mbind outcome_bind fst snd]. eexists true, _, b3. split; [done|]. split; [done|].
    split; [intros _|done]. split; [done|]. split; [done|]. split; [done|]. by rewrite Es3, Esent.
Qed.
