(* ===== verification/CommandBufferClient.v ===== *)
(** * The client side as a whole: sequences of operations of CommandBufferHelper

    The theorems about cmd_buffer_helper.cc, for any service that keeps the laws of
    [CommandBufferLaws]: the commands a client issues reach the service in order,
    with no-ops between them only; and a service to run the client against. *)

From stdpp Require Import sorting.
From S2P Require Import Prelude CommandBufferCommon CommandFormat CommandBufferInterface.
From S2P Require Import CommandBufferHelper.

(** ** Sequences of operations *)

Inductive client_op : Type :=
  | OpIssue (w : list Z)
  | OpInsertToken
  | OpFlush
  | OpOrderingBarrier
  | OpFinish
  | OpWaitForToken (token : Z)
  | OpHasTokenPassed (token : Z)
  | OpSetAutomaticFlushes (enabled : bool).

Section Run.
Context {B : Type} {cb : CommandBuffer B}.

Definition run_op (op : client_op) (h : CommandBufferHelper) (b : B) :
    outcome (CommandBufferHelper * B) :=
  match op with
  | OpIssue w => x ← issue w h b; Done (x.1.2, x.2)
  | OpInsertToken => x ← InsertToken h b; Done (x.1.2, x.2)
  | OpFlush => helper_Flush h b
  | OpOrderingBarrier => helper_OrderingBarrier h b
  | OpFinish => x ← Finish h b; Done (x.1.2, x.2)
  | OpWaitForToken token => helper_WaitForToken token h b
  | OpHasTokenPassed token => Done (h, (helper_HasTokenPassed token h b).2)
  | OpSetAutomaticFlushes enabled => SetAutomaticFlushes enabled h b
  end.

Fixpoint run_ops (ops : list client_op) (h : CommandBufferHelper) (b : B) :
    outcome (CommandBufferHelper * B) :=
  match ops with
  | [] => Done (h, b)
  | op :: ops => hb ← run_op op h b; run_ops ops hb.1 hb.2
  end.
End Run.

(** The entries of a [SetToken] command. *)
Definition token_command (token : Z) : list Z :=
  [entry_of_header (mkCommandHeader 2 (id_value kSetToken)); u32 token].

(** The commands that the operations put into the ring, from the last token on. *)
Fixpoint commands (token : Z) (ops : list client_op) : list (list Z) :=
  match ops with
  | [] => []
  | OpIssue w :: ops => w :: commands token ops
  | OpInsertToken :: ops => token_command (token + 1) :: commands (token + 1) ops
  | _ :: ops => commands token ops
  end.

(** The commands in order, with no-ops before, between and after them. *)
Inductive interleaved : list (list Z) → list Z → Prop :=
  | interleaved_nil l : is_noops l → interleaved [] l
  | interleaved_cons w ws l l' :
      is_noops l → interleaved ws l' → interleaved (w :: ws) (l ++ w ++ l').

Lemma interleaved_noops ws l l' : is_noops l → interleaved ws l' → interleaved ws (l ++ l').
Proof.
  intros Hl [l1 H1|w ws' l1 l2 H1 H2].
  - constructor. by apply is_noops_app.
  - rewrite app_assoc. constructor; [by apply is_noops_app|done].
Qed.

Lemma interleaved_app ws1 ws2 l1 l2 :
  interleaved ws1 l1 → interleaved ws2 l2 → interleaved (ws1 ++ ws2) (l1 ++ l2).
Proof.
  intros H1 H2. induction H1 as [l Hl|w ws l l' Hl H1 IH]; cbn.
  - by apply interleaved_noops.
  - rewrite <- !app_assoc. by constructor.
Qed.

Section Client.
Context {B : Type} {cb : CommandBuffer B} {laws : CommandBufferLaws B}.
Implicit Types (h : CommandBufferHelper) (b : B).

(** What one operation does: it keeps the invariant, and puts the commands [ws] behind
    what was sent. *)
Definition op_effect (cmds : list (list Z)) h b h' b' : Prop :=
  inv h' (view b') ∧ total_entry_count_ h' = total_entry_count_ h ∧
  (∃ ws l, sent h' (view b') = sent h (view b) ++ l ∧ interleaved ws l ∧ ws `sublist_of` cmds ∧
    (v_error (view b') = kNoError → ws = cmds)) ∧
  (v_error (view b) ≠ kNoError → v_error (view b') ≠ kNoError).

Lemma op_effect_trans c1 c2 h1 b1 h2 b2 h3 b3 :
  op_effect c1 h1 b1 h2 b2 → op_effect c2 h2 b2 h3 b3 → op_effect (c1 ++ c2) h1 b1 h3 b3.
Proof.
  intros (I1 & T1 & (w1 & l1 & S1 & L1 & U1 & E1) & R1) (I2 & T2 & (w2 & l2 & S2 & L2 & U2 & E2) & R2).
  split_and!; [done|congruence| |auto].
  exists (w1 ++ w2), (l1 ++ l2). split_and!.
  - by rewrite S2, S1, app_assoc.
  - by apply interleaved_app.
  - by apply sublist_app.
  - intros E. f_equal; [|auto]. apply E1. destruct (decide (v_error (view b2) = kNoError)); [done|].
    by destruct R2.
Qed.

Lemma quiet_effect h b h' b' : quiet h b h' b' → inv h' (view b') → op_effect [] h b h' b'.
Proof.
  intros (HI & (_ & Et & _) & Es & He) Hinv. split_and!; [done|done| |done].
  exists [], []. rewrite app_nil_r. split_and!; [done| |done|done]. constructor. apply is_noops_nil.
Qed.

Lemma issue_effect w h b :
  inv h (view b) → (0 < length w)%nat → Z.of_nat (length w) < total_entry_count_ h →
  (∃ ok h' b', issue w h b = Done (ok, h', b') ∧ token_ h' = token_ h ∧
     op_effect [w] h b h' b') ∨
  (issue w h b = DcheckFailed ∧ put_ h + Z.of_nat (length w) = total_entry_count_ h).
Proof.
  intros Hinv Hw Hn. destruct (issue_spec w h b Hinv Hw Hn) as
    [(ok & h' & b' & l & -> & Hinv' & (_ & Et & _ & Etok) & Hl & Es & He & Hr)|]; [left|by right].
  exists ok, h', b'. split; [done|]. split; [done|]. split; [done|]. split; [done|].
  split; [|done]. exists (if ok then [w] else []), (l ++ if ok then w else []).
  split_and!; [done| | |by destruct ok; [|intros E; destruct (He eq_refl E)]].
  - destruct ok; [|rewrite app_nil_r; by constructor].
    rewrite <- (app_nil_r w) at 2. constructor; [done|]. constructor. apply is_noops_nil.
  - destruct ok; [done|apply sublist_nil_l].
Qed.

(** Once get has come to put it stays there. *)
Lemma progress_drained v v' put :
  valid_view v → v_put v = put → v_get v = put → progress v v' → v_put v' = put ∧ v_get v' = put.
Proof.
  intros Hv Ep Eg (k & Hk & _ & _ & Ep' & Eg' & _). rewrite Ep', Eg'. split; [done|].
  assert (v_dist v = 0) as E0 by (unfold v_dist; decide_tests ltac:(lia); lia).
  replace k with 0 by lia. by rewrite adv_0 by apply Hv.
Qed.

Lemma drained_sent h v : v_get v = put_ h → v_done v = sent h v.
Proof.
  intros E. unfold sent, put_dist. rewrite E, (proj2 (Z.leb_le _ _) (Z.le_refl _)), Z.sub_diag.
  cbn. by rewrite app_nil_r.
Qed.

Lemma Finish_spec h b :
  inv h (view b) →
  ∃ ok h' b', Finish h b = Done (ok, h', b') ∧ quiet h b h' b' ∧ inv h' (view b') ∧
    (ok = true → v_done (view b') = sent h (view b)) ∧
    (ok = false → v_error (view b') ≠ kNoError).
Proof.
  intros [HI Hroom]. unfold Finish. rewrite (ri_usable _ _ HI). cbn [negb].
  destruct (helper_get_offset_spec h b HI) as (b1 & -> & Hq1 & _ & Hr1).
  pose proof Hq1 as (HI1 & _ & Es1 & _).
  destruct (Z.eqb_spec (put_ h) (v_get (view b1))) as [E|_].
  { exists true, h, b1. split; [done|]. split; [done|]. split; [by split; [|apply Hr1]|].
    split; [|done]. intros _. rewrite <- Es1. by apply drained_sent. }
  rewrite (ri_ring _ _ HI). cbn [mbind outcome_bind].
  destruct (helper_Flush_spec h b1 HI1) as (h2 & b2 & -> & Hq2 & [_ Hr2] & Evp & _ & _).
  cbn [mbind outcome_bind]. pose proof Hq2 as (HI2 & _).
  destruct (helper_Wait_spec (put_ h2) (put_ h2) h2 b2 HI2) as (ok & b3 & -> & Hq3 & Evp3 & Hr3 & Herr & Hok).
  { rewrite Evp. by apply InRange_self. }
  pose proof (quiet_trans _ _ _ _ _ _ Hq1 (quiet_trans _ _ _ _ _ _ Hq2 Hq3)) as Hq.
  pose proof Hq as (HI3 & _).
  destruct ok; cbn [negb].
  2: { exists false, h2, b3. split; [done|]. split; [done|]. split; [split; [done|auto]|].
       split; [done|auto]. }
  destruct (Hok eq_refl) as (v & Hv & Hin & Evpv & _ & Hpv). apply InRange_le in Hin; [|done].
  destruct (progress_drained v _ (put_ h2) Hv ltac:(congruence) ltac:(lia) Hpv) as [Ep3 Eg3].
  destruct (helper_get_offset_spec h2 b3 HI3) as (b4 & -> & Hq4 & Hp4 & _).
  destruct (progress_drained _ _ (put_ h2) (ri_view _ _ HI3) Ep3 Eg3 Hp4) as [Ep4 Eg4].
  pass_DCHECK ltac:(by apply Z.eqb_eq). pose proof Hq4 as (HI4 & _).
  destruct (CalcImmediateEntries_spec 0 h2 b4 HI4 ltac:(lia)) as (i & b5 & -> & Hq5 & Hp5 & Hinv5 & _).
  destruct (progress_drained _ _ (put_ h2) (ri_view _ _ HI4) Ep4 Eg4 Hp5) as [_ Eg5].
  cbn [mbind outcome_bind fst snd]. exists true, (with_immediate i h2), b5.
  pose proof (quiet_trans _ _ _ _ _ _ Hq (quiet_trans _ _ _ _ _ _ Hq4 Hq5)) as Hq'.
  split; [done|]. split; [done|]. split; [done|]. split; [|done]. intros _. pose proof Hq' as (_ & _ & Es5 & _).
  rewrite <- Es5. by apply drained_sent.
Qed.

Lemma GetLastToken_quiet h b :
  inv h (view b) → quiet h b h (GetLastToken b).2 ∧ inv h (view (GetLastToken b).2).
Proof.
  intros [HI Hr]. destruct (quiet_progress h b (GetLastToken b).2 HI) as [Hq Hr'].
  { apply GetLastToken_law, HI. }
  split; [done|]. split; [apply Hq|by apply Hr'].
Qed.

Lemma WaitForToken_spec token h b :
  inv h (view b) →
  ∃ h' b', helper_WaitForToken token h b = Done (h', b') ∧ quiet h b h' b' ∧ inv h' (view b').
Proof.
  intros Hinv. pose proof Hinv as [HI Hr]. unfold helper_WaitForToken, helper_last_token_read.
  rewrite (ri_usable _ _ HI), (ri_ring _ _ HI). cbn [negb orb].
  assert (quiet h b h b) as Hq0 by (by split_and!).
  case_match; [by eexists _, _|]. case_match; [by eexists _, _|].
  destruct (GetLastToken_quiet h b Hinv) as [Hq Hinv1].
  destruct (GetLastToken b) as [last b1]. cbn in *.
  case_match; [by eexists _, _|]. pose proof Hq as (HI1 & _).
  destruct (helper_Flush_spec h b1 HI1) as (h2 & b2 & -> & Hq2 & [HI2 Hr2] & _).
  cbn [mbind outcome_bind fst snd]. eexists h2, _. split; [done|].
  destruct (quiet_progress h2 b2 (WaitForTokenInRange token (token_ h2) b2) HI2) as [Hq3 Hr3].
  { apply WaitForTokenInRange_law, HI2. }
  split; [by eapply quiet_trans, quiet_trans|]. split; [apply Hq3|by apply Hr3].
Qed.

Lemma SetAutomaticFlushes_spec enabled h b :
  inv h (view b) →
  ∃ h' b', SetAutomaticFlushes enabled h b = Done (h', b') ∧ quiet h b h' b' ∧ inv h' (view b').
Proof.
  intros Hinv. unfold SetAutomaticFlushes.
  destruct (inv_fields h (h <| flush_automatically_ := enabled |>) (view b)) as [HI _]; [done..|].
  destruct (CalcImmediateEntries_spec 0 _ b HI ltac:(lia)) as (i & b' & E & Hq & _ & Hinv' & _).
  by eexists _, b'.
Qed.

(** ** Tokens *)

Lemma SetToken_issue token h b : SetToken token h b = issue (token_command token) h b.
Proof. reflexivity. Qed.

Lemma InsertToken_effect h b :
  inv h (view b) → 2 < total_entry_count_ h → 0 <= token_ h < 2147483647 →
  (∃ h' b', InsertToken h b = Done (token_ h + 1, h', b') ∧ token_ h' = token_ h + 1 ∧
     op_effect [token_command (token_ h + 1)] h b h' b') ∨
  (InsertToken h b = DcheckFailed ∧ put_ h + 2 = total_entry_count_ h).
Proof.
  intros Hinv Hn Ht. pose proof Hinv as [HI _]. unfold InsertToken.
  rewrite AllocateRingBuffer_ring by apply HI. cbn [mbind outcome_bind].
  rewrite (ri_usable _ _ HI), (ri_ring _ _ HI). cbn [negb]. cbn [DCHECK mbind outcome_bind].
  replace (Z.land (token_ h + 1) 2147483647) with (token_ h + 1).
  2: { change 2147483647 with (Z.ones 31). rewrite Z.land_ones, Z.mod_small by lia. done. }
  set (h1 := h <| token_ := token_ h + 1 |>).
  assert (inv h1 (view b)) as Hinv1.
  { destruct Hinv as [[] Hr]. split; [by split|done]. }
  change (token_ h1) with (token_ h + 1). rewrite SetToken_issue.
  destruct (issue_effect (token_command (token_ h + 1)) h1 b Hinv1) as
    [(ok & h2 & b2 & -> & Et & Heff)|[-> Hbad]]; [cbn; lia|cbn; lia| |by right].
  left. cbn [mbind outcome_bind]. change (token_ h1) with (token_ h + 1) in Et.
  rewrite Et, (proj2 (Z.eqb_neq _ 0)), andb_false_r by lia. by eexists h2, b2.
Qed.

(** ** One operation, and sequences *)

(** A command is not empty and fits into the ring. *)
Definition op_fits (n : Z) (op : client_op) : Prop :=
  match op with
  | OpIssue w => (0 < length w)%nat ∧ Z.of_nat (length w) < n
  | OpInsertToken => 2 < n
  | _ => True
  end.

(** The operation puts a command that would end exactly at the end of the ring. *)
Definition at_end (op : client_op) h : Prop :=
  ∃ w, commands (token_ h) [op] = [w] ∧ put_ h + Z.of_nat (length w) = total_entry_count_ h.

Lemma run_op_effect op h b :
  inv h (view b) → op_fits (total_entry_count_ h) op → 0 <= token_ h < 2147483647 →
  (∃ h' b', run_op op h b = Done (h', b') ∧ token_ h <= token_ h' <= token_ h + 1 ∧
     op_effect (commands (token_ h) [op]) h b h' b' ∧
     ∀ ops, commands (token_ h) (op :: ops) = commands (token_ h) [op] ++ commands (token_ h') ops) ∨
  (run_op op h b = DcheckFailed ∧ at_end op h).
Proof.
  intros Hinv Hfit Ht.
  assert (∀ h' b', quiet h b h' b' ∧ inv h' (view b') → commands (token_ h) [op] = [] →
    (∀ ops, commands (token_ h) (op :: ops) = commands (token_ h) ops) →
    token_ h <= token_ h' <= token_ h + 1 ∧ op_effect (commands (token_ h) [op]) h b h' b' ∧
    ∀ ops, commands (token_ h) (op :: ops) = commands (token_ h) [op] ++ commands (token_ h') ops)
    as Hquiet.
  { intros h' b' [Hq Hinv'] E0 E. rewrite E0. pose proof Hq as (_ & (_ & _ & _ & Et) & _).
    split; [lia|]. split; [by apply quiet_effect|]. intros ops. by rewrite E, Et. }
  destruct op as [w| | | | |token|token|enabled]; cbn [run_op op_fits] in *.
  - destruct Hfit as [Hw Hn]. destruct (issue_effect w h b Hinv Hw Hn) as
      [(ok & h' & b' & -> & Et & Heff)|[-> Hbad]]; [left|right; split; [done|by exists w]].
    eexists h', b'. split; [done|]. split; [lia|]. split; [done|]. intros ops. by rewrite Et.
  - destruct (InsertToken_effect h b Hinv Hfit Ht) as [(h' & b' & -> & Et & Heff)|[-> Hbad]].
    + left. exists h', b'. split; [done|]. split; [lia|]. split; [done|]. intros ops. by rewrite Et.
    + right. split; [done|]. by exists (token_command (token_ h + 1)).
  - left. destruct Hinv as [HI _]. destruct (helper_Flush_spec h b HI) as (h' & b' & E & Hq & Hi & _).
    exists h', b'. split; [done|]. by apply Hquiet.
  - left. destruct Hinv as [HI _]. destruct (helper_OrderingBarrier_spec h b HI) as (h' & b' & E & Hq & Hi).
    exists h', b'. split; [done|]. by apply Hquiet.
  - left. destruct (Finish_spec h b Hinv) as (ok & h' & b' & -> & Hq & Hi & _).
    exists h', b'. split; [done|]. by apply Hquiet.
  - left. destruct (WaitForToken_spec token h b Hinv) as (h' & b' & E & Hq & Hi).
    exists h', b'. split; [done|]. by apply Hquiet.
  - left. eexists h, _. split; [done|]. apply Hquiet; [|done..].
    unfold helper_HasTokenPassed, helper_last_token_read. case_match.
    + split; [|done]. split_and!; [apply Hinv|done..].
    + pose proof (GetLastToken_quiet h b Hinv). by destruct (GetLastToken b).
  - left. destruct (SetAutomaticFlushes_spec enabled h b Hinv) as (h' & b' & E & Hq & Hi).
    exists h', b'. split; [done|]. by apply Hquiet.
Qed.

Lemma run_ops_effect ops : ∀ h b,
  inv h (view b) → Forall (op_fits (total_entry_count_ h)) ops →
  0 <= token_ h → token_ h + Z.of_nat (length ops) <= 2147483647 →
  (∃ h' b', run_ops ops h b = Done (h', b') ∧ op_effect (commands (token_ h) ops) h b h' b') ∨
  (run_ops ops h b = DcheckFailed ∧
   ∃ ops1 op ops2 h' b', ops = ops1 ++ op :: ops2 ∧ run_ops ops1 h b = Done (h', b') ∧
     at_end op h').
Proof.
  induction ops as [|op ops IH]; intros h b Hinv Hfit Ht0 Ht; cbn [run_ops length] in *.
  { left. exists h, b. split; [done|]. apply quiet_effect; [|done]. by split_and!; [apply Hinv|..]. }
  inversion_clear Hfit as [|?? Hop Hops].
  destruct (run_op_effect op h b Hinv Hop) as [(h1 & b1 & E1 & Ht1 & Heff & Ec)|[-> Hbad]]; [lia| |].
  2: { right. split; [done|]. by exists [], op, ops, h, b. }
  rewrite E1. cbn [mbind outcome_bind fst snd]. pose proof Heff as (Hinv1 & Et1 & _).
  destruct (IH h1 b1 Hinv1) as [(h2 & b2 & -> & Heff2)|[-> (ops1 & op' & ops2 & h2 & b2 & -> & E & Hbad)]];
    [by rewrite Et1|lia|lia| |].
  - left. exists h2, b2. split; [done|]. rewrite Ec. by eapply op_effect_trans.
  - right. split; [done|]. exists (op :: ops1), op', ops2, h2, b2. split; [done|].
    split; [|done]. cbn [app run_ops]. rewrite E1. exact E.
Qed.

(** [C6] The ring buffer is a FIFO.  After any sequence of operations on a client whose
    ring is there, everything sent before is followed by exactly the commands issued, in
    order, interleaved with no-ops only, and it is intact: it is what the service has
    taken plus what lies in the ring from get to put.  A command can be missing only
    when the service has met an error.  Every sequence returns, unless it comes to a
    command that would end exactly at the end of the ring (see [command_at_end_is_dropped]). *)
Theorem client_fifo ops h b :
  inv h (view b) → Forall (op_fits (total_entry_count_ h)) ops →
  0 <= token_ h → token_ h + Z.of_nat (length ops) <= 2147483647 →
  (∃ h' b', run_ops ops h b = Done (h', b') ∧ op_effect (commands (token_ h) ops) h b h' b') ∨
  (run_ops ops h b = DcheckFailed ∧
   ∃ ops1 op ops2 h' b', ops = ops1 ++ op :: ops2 ∧ run_ops ops1 h b = Done (h', b') ∧
     at_end op h').
Proof. apply run_ops_effect. Qed.

(** [C39] When [Finish] returns true the service has taken everything that was sent; it
    returns false only on an error.  It returns in every case, sends nothing itself
    and keeps the invariant. *)
Theorem Finish_drains h b :
  inv h (view b) →
  ∃ ok h' b', Finish h b = Done (ok, h', b') ∧ op_effect [] h b h' b' ∧
    sent h' (view b') = sent h (view b) ∧
    (ok = true → v_done (view b') = sent h (view b)) ∧
    (ok = false → v_error (view b') ≠ kNoError).
Proof.
  intros Hinv. destruct (Finish_spec h b Hinv) as (ok & h' & b' & E & Hq & Hi & Hd).
  pose proof Hq as (_ & _ & Es & _). exists ok, h', b'. split; [done|].
  split; [by apply quiet_effect|done].
Qed.
End Client.

(** ** A service to run against

    It only reads commands when it is asked to wait for get, and only as many as
    necessary: the laziest service the laws allow.  Its state is the view. *)
Module Lazy.

Definition advance (k : Z) (v : View) : View :=
  v <| v_get := adv (v_size v) (v_get v) k |>
    <| v_done := v_done v ++ cyc (v_mem v) (v_size v) (v_get v) k |>.

(** The least number of entries that brings get into the range. *)
Definition steps_to (start end' : Z) (v : View) : option Z :=
  find (λ k, InRange start end' (adv (v_size v) (v_get v) k)) (seqZ 0 (v_dist v + 1)).

Definition wait_for (start end' : Z) (v : View) : View :=
  match steps_to start end' v with
  | Some k => advance k v
  | None => v <| v_error := kGenericError |>
  end.

#[export] Instance service : CommandBuffer View := {
  GetLastState v := (mkState (v_get v) 0 (v_error v) kUnknown 0, v);
  GetLastToken v := (0, v);
  Flush put v := v <| v_put := put |>;
  OrderingBarrier put v := v <| v_put := put |>;
  WaitForTokenInRange _ _ v := v;
  WaitForGetOffsetInRange := wait_for;
  SetGetBuffer _ v := v <| v_get := 0 |> <| v_put := 0 |>;
  CreateTransferBuffer size v := (1, v <| v_size := Z.quot size 4 |>);
  DestroyTransferBuffer _ v := v;
  store_entries _ p w v := v <| v_mem := update p w (v_mem v) |>;
  TimeTicks_Now v := (0, v)
}.

Lemma progress_advance k v : 0 <= k <= v_dist v → progress v (advance k v).
Proof. intros Hk. by exists k. Qed.

Lemma progress_error e v : valid_view v → e ≠ kNoError → progress v (v <| v_error := e |>).
Proof.
  intros [Hg Hp] He. exists 0. unfold v_dist. split_and!; try done; try (case_match; prop_bools; lia).
  - by rewrite adv_0.
  - by rewrite app_nil_r.
Qed.

Lemma wait_for_spec start end' v :
  valid_view v → progress v (wait_for start end' v) ∧
  (reachable_get start end' v →
   v_error (wait_for start end' v) ≠ kNoError ∨
   InRange start end' (v_get (wait_for start end' v)) = true).
Proof.
  intros Hv. unfold wait_for, steps_to. destruct (find _ _) as [k|] eqn:E.
  - apply find_some in E as [Hin Hr]. apply list_elem_of_In, elem_of_seqZ in Hin.
    split; [apply progress_advance; lia|by right].
  - split; [by apply progress_error|by left].
Qed.

#[export] Instance service_laws : CommandBufferLaws View.
Proof.
  refine {| view := λ v : View, v |}; cbn; intros; try by apply progress_refl.
  - split; [by apply progress_refl|done].
  - apply progress_refl. destruct H as [? ?]. by split.
  - apply progress_refl. destruct H as [? ?]. by split.
  - by apply wait_for_spec.
  - done.
Defined.

#[export] Instance service_setup : CommandBufferSetup View.
Proof. split. by cbn. Defined.

(** The entries of memory before a client comes. *)
Definition start : View := mkView 0 (λ _, 0) 0 0 [] kNoError.

(** *** The command that ends at the end of the ring *)

Lemma calc h v w :
  ring_inv h v → 0 <= w →
  ∃ i, CalcImmediateEntries w h v = Done (with_immediate i h, v) ∧ 0 <= i <= contiguous h v.
Proof.
  intros HI Hw. unfold CalcImmediateEntries. pass_DCHECK ltac:(apply Z.leb_le; lia).
  rewrite (ri_usable _ _ HI), (ri_ring _ _ HI). cbn [negb orb].
  destruct (calc_immediate_spec w h v HI Hw) as (i & E & Hi & _).
  exists i. cbn. rewrite E. split; [done|lia].
Qed.

Lemma contiguous_at_0 h v count :
  v_get v = 0 → 0 <= put_ h → put_ h + count = total_entry_count_ h → contiguous h v = count - 1.
Proof. intros Eg Hp E. unfold contiguous, b2z. rewrite Eg. decide_tests ltac:(lia). lia. Qed.

Lemma v_dist_nonneg v : valid_view v → 0 <= v_dist v.
Proof. intros [Hg Hp]. unfold v_dist. case_match; prop_bools; lia. Qed.

Lemma flush h v :
  ring_inv h v → put_ h < total_entry_count_ h →
  ∃ h', helper_Flush h v = Done (h', v <| v_put := put_ h |>) ∧
    inv h' (v <| v_put := put_ h |>) ∧ put_ h' = put_ h ∧
    total_entry_count_ h' = total_entry_count_ h.
Proof.
  intros HI Hlt. unfold helper_Flush. rewrite wrap_put_small by done. rewrite (ri_usable _ _ HI).
  cbn [TimeTicks_Now service Flush].
  set (h1 := _ <| flush_generation_ := _ |>).
  destruct (flush_progress h v (v <| v_put := put_ h |>) HI Hlt) as (HI1 & _).
  { apply progress_refl. pose proof (ri_view _ _ HI) as [? ?]. pose proof (ri_size _ _ HI).
    pose proof (ri_put _ _ HI). split; cbn; lia. }
  assert (ring_inv h1 (v <| v_put := put_ h |>)) as HI2 by (by destruct HI1).
  destruct (calc h1 _ 0 HI2 ltac:(lia)) as (i & E & Hi).
  exists (with_immediate i h1). split; [exact E|]. split; [|done].
  split; [by apply ring_inv_immediate|]. exact (contiguous_room h1 _ i HI2 Hi).
Qed.

Lemma wait_at_end h v count :
  ring_inv h v → v_get v = 0 → v_error v = kNoError → 0 < count →
  put_ h + count = total_entry_count_ h → wait_for_entries count h v = DcheckFailed.
Proof.
  intros HI Eg Ee Hc E. pose proof (ri_put _ _ HI) as Hp. unfold wait_for_entries.
  destruct (calc h v count HI ltac:(lia)) as (i & -> & Hi). rewrite (contiguous_at_0 h v count) in Hi by lia.
  cbn [mbind outcome_bind]. change (immediate_entry_count_ (with_immediate i h)) with i.
  rewrite (proj2 (Z.ltb_lt _ _)) by lia.
  destruct (flush (with_immediate i h) v) as (h2 & -> & [HI2 _] & Ep2 & Et2);
    [by apply ring_inv_immediate|cbn; lia|].
  cbn [mbind outcome_bind fst snd]. cbn in Ep2, Et2.
  destruct (calc h2 _ count HI2 ltac:(lia)) as (i2 & -> & Hi2).
  rewrite (contiguous_at_0 h2 _ count) in Hi2 by (cbn; lia).
  cbn [mbind outcome_bind]. change (immediate_entry_count_ (with_immediate i2 h2)) with i2.
  rewrite (proj2 (Z.ltb_lt _ _)) by lia. change (put_ (with_immediate i2 h2)) with (put_ h2).
  rewrite Ep2. change (put_ (with_immediate i h)) with (put_ h) in *.
  set (v2 := v <| v_put := put_ h |>) in *.
  assert (wait_for (put_ h + count + 1) (put_ h) v2 = advance 0 v2) as Ew.
  { unfold wait_for, steps_to. rewrite seqZ_cons by (pose proof (v_dist_nonneg v2 (ri_view _ _ HI2)); lia).
    cbn [find]. rewrite adv_0 by apply (ri_view _ _ HI2). change (v_get v2) with (v_get v).
    rewrite Eg. unfold InRange. by decide_tests ltac:(lia). }
  unfold helper_WaitForGetOffsetInRange. change (usable_ (with_immediate i2 h2)) with (usable_ h2).
  rewrite (ri_usable _ _ HI2). cbn [negb WaitForGetOffsetInRange service]. rewrite Ew.
  change (GetLastError (advance 0 v2)) with (v_error v, advance 0 v2).
  rewrite Ee. cbn [negb bool_decide].
  destruct (ring_inv_progress (with_immediate i2 h2) v2 (advance 0 v2)) as (HI3 & _);
    [by apply ring_inv_immediate|apply progress_advance; pose proof (v_dist_nonneg v2 (ri_view _ _ HI2)); lia|].
  destruct (calc _ _ count HI3 ltac:(lia)) as (i3 & E3 & Hi3).
  rewrite (contiguous_at_0 _ _ count) in Hi3; [|etransitivity; [apply adv_0, (ri_view _ _ HI2)|done]|cbn; lia..].
  change (bool_decide (kNoError = kNoError)) with true. cbn [negb].
  rewrite E3. cbn [mbind outcome_bind fst].
  change (immediate_entry_count_ (with_immediate i3 _)) with i3.
  by rewrite (proj2 (Z.leb_gt count i3)) by lia.
Qed.

(** The wait of [WaitForAvailableEntries] for get to reach [put_ + count + 1] does
    not wrap that position.  At a command that ends exactly at the end of the ring, with
    get at 0, the range it waits for contains get at once: the check after the wait
    fails.  Without checks [GetSpace] returns NULL and the command is dropped, although
    the service would have made room. *)
Theorem command_at_end_is_dropped w h v :
  inv h v → v_get v = 0 → v_error v = kNoError → (0 < length w)%nat → 0 < put_ h →
  put_ h + Z.of_nat (length w) = total_entry_count_ h →
  run_op (B := View) (OpIssue w) h v = DcheckFailed.
Proof.
  intros Hinv Eg Ee Hw Hp E. unfold run_op, issue, GetSpace. set (count := Z.of_nat (length w)) in *.
  set (h0 := h <| commands_issued_ := _ |>).
  assert (inv h0 v) as Hinv0 by by apply (inv_fields h).
  assert (∃ h1 v1, (if flush_automatically_ h0 && (Z.rem (commands_issued_ h0) kCommandsPerFlushCheck =? 0)
      then PeriodicFlushCheck h0 v else Done (h0, v)) = Done (h1, v1) ∧ inv h1 v1 ∧
      put_ h1 = put_ h ∧ total_entry_count_ h1 = total_entry_count_ h ∧ v_get v1 = 0 ∧
      v_error v1 = kNoError) as (h1 & v1 & -> & Hinv1 & Ep1 & Et1 & Eg1 & Ee1).
  { case_match; [|by exists h0, v]. unfold PeriodicFlushCheck. cbn [TimeTicks_Now service].
    case_match; [|by exists h0, v].
    destruct (flush h0 v) as (h1 & Ef & Hi & Ep1 & Et1); [apply Hinv0|cbn; lia|].
    by exists h1, (v <| v_put := put_ h0 |>). }
  cbn [mbind outcome_bind]. pose proof Hinv1 as [HI1 (_ & Hr1 & _)].
  unfold put_dist in Hr1. rewrite Eg1, (proj2 (Z.leb_le _ _)) in Hr1 by lia.
  rewrite (proj2 (Z.ltb_lt (immediate_entry_count_ h1) count)) by lia.
  unfold WaitForAvailableEntries. rewrite AllocateRingBuffer_ring by apply HI1.
  cbn [mbind outcome_bind]. rewrite (ri_usable _ _ HI1), (ri_ring _ _ HI1). cbn [negb].
  cbn [DCHECK mbind outcome_bind]. pass_DCHECK ltac:(apply Z.ltb_lt; lia).
  rewrite (proj2 (Z.ltb_ge _ _)) by lia.
  rewrite wait_at_end; [done|done|done|done|lia|lia].
Qed.

(** *** Eight entries *)

Definition h8 : CommandBufferHelper :=
  init_CommandBufferHelper <| ring_buffer_id_ := 1 |> <| ring_buffer_size_ := 32 |>
    <| total_entry_count_ := 8 |>.
Definition v8 : View := mkView 8 (λ _, 0) 0 0 [] kNoError.

Example h8_made : Initialize 32 init_CommandBufferHelper start = Done (true, h8, v8).
Proof. reflexivity. Qed.

Lemma h8_inv : inv h8 v8.
Proof.
  by destruct (new_ring_inv h8 v8) as [HI _].
Qed.

(** After a command of five entries. *)
Definition h5 : CommandBufferHelper := h8 <| put_ := 5 |> <| commands_issued_ := 1 |>.
Definition v5 : View := v8 <| v_mem := update 0 [1; 2; 3; 4; 5] (λ _, 0) |>.

Lemma h5_inv : inv h5 v5.
Proof. split; [split; try done; cbn; lia|]. unfold room. cbn. lia. Qed.

(** A command of five entries, one that wraps, a token and a wait for everything. *)
Definition ops8 : list client_op := [OpIssue [1; 2; 3; 4; 5]; OpFinish; OpIssue [6; 7; 8; 9];
  OpInsertToken; OpFlush; OpFinish].

Example ops8_run :
  match run_ops ops8 h8 v8 with
  | Done (h, v) => (put_ h, v_done v) = (6, [1; 2; 3; 4; 5; entry_of_header (mkCommandHeader 3 0);
      0; 0; 6; 7; 8; 9] ++ token_command 1)
  | DcheckFailed => False
  end.
Proof. vm_compute. reflexivity. Qed.
End Lazy.
Import Lazy.

Lemma client_fifo_witness :
  (∃ h' v', run_ops Lazy.ops8 Lazy.h8 Lazy.v8 = Done (h', v') ∧
     op_effect (commands 0 Lazy.ops8) Lazy.h8 Lazy.v8 h' v') ∨
  (run_ops Lazy.ops8 Lazy.h8 Lazy.v8 = DcheckFailed ∧
   ∃ ops1 op ops2 h' v', Lazy.ops8 = ops1 ++ op :: ops2 ∧
     run_ops ops1 Lazy.h8 Lazy.v8 = Done (h', v') ∧ at_end op h').
Proof.
  apply (client_fifo Lazy.ops8 Lazy.h8 Lazy.v8); [exact Lazy.h8_inv| |done|done].
  repeat constructor; cbn; lia.
Defined.

Lemma Initialize_spec_witness :
  ∃ ok h' v', Initialize 32 init_CommandBufferHelper Lazy.start = Done (ok, h', v') ∧
    token_ h' = 0 ∧
    (ok = true → inv h' (view v') ∧ total_entry_count_ h' = Z.quot 32 4 ∧ put_ h' = 0 ∧
       sent h' (view v') = v_done (view start)) ∧
    (ok = false → usable_ h' = false ∧ context_lost_ h' = true).
Proof. apply (Initialize_spec 32 init_CommandBufferHelper Lazy.start); done. Defined.

Lemma Finish_drains_witness :
  ∃ ok h' v', Finish Lazy.h8 Lazy.v8 = Done (ok, h', v') ∧ op_effect [] h8 v8 h' v' ∧
    sent h' (view v') = sent h8 (view v8) ∧
    (ok = true → v_done (view v') = sent h8 (view v8)) ∧
    (ok = false → v_error (view v') ≠ kNoError).
Proof. apply (Finish_drains h8 v8). exact h8_inv. Defined.

Lemma command_at_end_is_dropped_witness :
  run_ops [OpIssue [1; 2; 3; 4; 5]] h8 v8 = Done (h5, v5) ∧ run_op (OpIssue [6; 7; 8]) h5 v5 = DcheckFailed.
Proof.
  split; [reflexivity|]. apply command_at_end_is_dropped; [exact h5_inv|..]; try reflexivity; cbn; lia.
Defined.
