(* ===== verification/CommandBufferService.v ===== *)
(** * gpu/command_buffer/service: the buffers, the service and its scheduler

    transfer_buffer_manager.cc keeps the shared memory buffers of a client,
    command_buffer_service.cc the offsets, the token and the error of its command
    buffer, and gpu_scheduler.cc runs the parser over the commands that were flushed.
    [GpuScheduler] is the engine behind the decoder; it points to the service, which
    is a field of it here, and the callbacks of the service come back to it. *)

From stdpp Require Import gmap.
From S2P Require Import Prelude CommandBufferCommon SharedState CommandFormat CommandParser.
From S2P Require Import CommonDecoder.

(** ** TransferBufferManager

    A buffer is its bytes.  Mapped memory starts at an address that is a multiple of the
    page size, so the check of the alignment is left out; [size_t] has 64 bits. *)
Record TransferBufferManager : Type := mkTransferBufferManager {
  registered_buffers_ : gmap Z (list Z);
  shared_memory_bytes_allocated_ : Z
}.
#[export] Instance eta_TransferBufferManager : Eta TransferBufferManager := λ m,
  mkTransferBufferManager (registered_buffers_ m) (shared_memory_bytes_allocated_ m).

Definition init_TransferBufferManager : TransferBufferManager := mkTransferBufferManager ∅ 0.

Definition RegisterTransferBuffer (id : Z) (buffer : list Z) (m : TransferBufferManager) :
    bool * TransferBufferManager :=
  if id <=? 0 then (false, m)
  else
    match registered_buffers_ m !! id with
    | Some _ => (false, m)
    | None =>
        (true, m <| shared_memory_bytes_allocated_ :=
                      u64 (shared_memory_bytes_allocated_ m + Z.of_nat (length buffer)) |>
                 <| registered_buffers_ := <[id := buffer]> (registered_buffers_ m) |>)
    end.

(** Taking one buffer out; the destructor does so with each of them. *)
Definition erase (id : Z) (buffer : list Z) (m : TransferBufferManager) :
    outcome TransferBufferManager :=
  DCHECK (Z.of_nat (length buffer) <=? shared_memory_bytes_allocated_ m) ;;
  Done (m <| shared_memory_bytes_allocated_ :=
               u64 (shared_memory_bytes_allocated_ m - Z.of_nat (length buffer)) |>
          <| registered_buffers_ := delete id (registered_buffers_ m) |>).

Definition manager_DestroyTransferBuffer (id : Z) (m : TransferBufferManager) :
    outcome TransferBufferManager :=
  match registered_buffers_ m !! id with
  | None => Done m
  | Some buffer => erase id buffer m
  end.

Definition manager_GetTransferBuffer (id : Z) (m : TransferBufferManager) : option (list Z) :=
  if id =? 0 then None else registered_buffers_ m !! id.

Fixpoint erase_all (buffers : list (Z * list Z)) (m : TransferBufferManager) :
    outcome TransferBufferManager :=
  match buffers with
  | [] => Done m
  | (id, buffer) :: buffers => m ← erase id buffer m; erase_all buffers m
  end.

Definition destroy_TransferBufferManager (m : TransferBufferManager) : outcome unit :=
  m ← erase_all (map_to_list (registered_buffers_ m)) m;
  DCHECK (shared_memory_bytes_allocated_ m =? 0).

(** ** CommandBufferService

    [ring_buffer_] is the size of the buffer it points to; [shared_state_] the memory
    that the four-slot mechanism writes.  [next_id] is the counter of
    [CreateTransferBuffer]. *)
Record CommandBufferService : Type := mkCommandBufferService {
  ring_buffer_id_ : Z;
  ring_buffer_ : option Z;
  shared_state_ : option SharedState;
  num_entries_ : Z;
  get_offset_ : Z;
  put_offset_ : Z;
  transfer_buffer_manager_ : TransferBufferManager;
  token_ : Z;
  generation_ : Z;
  error_ : Error;
  context_lost_reason_ : ContextLostReason;
  next_id : Z
}.
#[export] Instance eta_CommandBufferService : Eta CommandBufferService := λ s,
  mkCommandBufferService (ring_buffer_id_ s) (ring_buffer_ s) (shared_state_ s) (num_entries_ s)
    (get_offset_ s) (put_offset_ s) (transfer_buffer_manager_ s) (token_ s) (generation_ s)
    (error_ s) (context_lost_reason_ s) (next_id s).

(** The constructor. *)
Definition init_CommandBufferService (m : TransferBufferManager) : CommandBufferService :=
  {| ring_buffer_id_ := -1; ring_buffer_ := None; shared_state_ := None; num_entries_ := 0;
     get_offset_ := 0; put_offset_ := 0; transfer_buffer_manager_ := m; token_ := 0;
     generation_ := 0; error_ := kNoError; context_lost_reason_ := kUnknown; next_id := 1 |}.

Definition service_GetLastState (s : CommandBufferService) : State * CommandBufferService :=
  let s := s <| generation_ := u32 (generation_ s + 1) |> in
  (mkState (get_offset_ s) (token_ s) (error_ s) (context_lost_reason_ s) (generation_ s), s).

Definition service_GetLastToken (s : CommandBufferService) : Z * CommandBufferService :=
  let '(state, s) := service_GetLastState s in (token state, s).

(** A whole [Write] of the four-slot mechanism. *)
Definition Write (state : State) (shared : SharedState) : SharedState :=
  (Nat.iter (4 + num_fields) (λ x, write_step x.1 x.2) (WStart state, shared)).2.

Definition UpdateState (s : CommandBufferService) : CommandBufferService :=
  match shared_state_ s with
  | None => s
  | Some shared =>
      let '(state, s) := service_GetLastState s in
      s <| shared_state_ := Some (Write state shared) |>
  end.

Definition service_WaitForTokenInRange (start end' : Z) (s : CommandBufferService) :
    outcome CommandBufferService :=
  DCHECK (bool_decide (error_ s ≠ kNoError) || InRange start end' (token_ s)) ;; Done s.

Definition service_WaitForGetOffsetInRange (start end' : Z) (s : CommandBufferService) :
    outcome CommandBufferService :=
  DCHECK (bool_decide (error_ s ≠ kNoError) || InRange start end' (get_offset_ s)) ;; Done s.

(** [Flush] before the callback; the result is whether it gets to it. *)
Definition set_put_offset (put_offset : Z) (s : CommandBufferService) :
    bool * CommandBufferService :=
  if (put_offset <? 0) || (num_entries_ s <? put_offset)
  then (false, s <| error_ := kOutOfBounds |>)
  else (true, s <| put_offset_ := put_offset |>).

Definition service_SetGetOffset (get_offset : Z) (s : CommandBufferService) :
    outcome CommandBufferService :=
  DCHECK ((0 <=? get_offset) && (get_offset <? num_entries_ s)) ;;
  Done (s <| get_offset_ := get_offset |>).

Definition GetTransferBuffer (id : Z) (s : CommandBufferService) : option (list Z) :=
  manager_GetTransferBuffer id (transfer_buffer_manager_ s).

(** [SetGetBuffer] before the callback. *)
Definition set_ring_buffer (transfer_buffer_id : Z) (s : CommandBufferService) :
    outcome CommandBufferService :=
  DCHECK (ring_buffer_id_ s =? -1) ;;
  DCHECK (put_offset_ s =? get_offset_ s) ;;
  let ring_buffer := GetTransferBuffer transfer_buffer_id s in
  let size := match ring_buffer with Some b => s32 (Z.of_nat (length b)) | None => 0 end in
  service_SetGetOffset 0
    (s <| ring_buffer_ := (λ b, Z.of_nat (length b)) <$> ring_buffer |>
       <| ring_buffer_id_ := transfer_buffer_id |>
       <| num_entries_ := s32 (u64 size / 4) |> <| put_offset_ := 0 |>).

(** The size of [CommandBufferSharedState] is [size_of_shared_state]. *)
Definition SetSharedStateBuffer (size size_of_shared_state : Z) (shared : SharedState)
    (s : CommandBufferService) : outcome CommandBufferService :=
  DCHECK (size_of_shared_state <=? size) ;;
  Done (UpdateState (s <| shared_state_ := Some shared |>)).

Definition service_RegisterTransferBuffer (id : Z) (buffer : list Z) (s : CommandBufferService) :
    bool * CommandBufferService :=
  let '(ok, m) := RegisterTransferBuffer id buffer (transfer_buffer_manager_ s) in
  (ok, s <| transfer_buffer_manager_ := m |>).

Definition out_of_memory (s : CommandBufferService) : CommandBufferService :=
  if bool_decide (error_ s = kNoError) then s <| error_ := kOutOfBounds |> else s.

(** [memory] is what [CreateAndMapAnonymous] gives: zeroes, or nothing. *)
Definition service_CreateTransferBuffer (memory : option (list Z)) (s : CommandBufferService) :
    Z * CommandBufferService :=
  match memory with
  | None => (-1, out_of_memory s)
  | Some memory =>
      let id := next_id s in
      let '(ok, s) :=
        service_RegisterTransferBuffer id memory (s <| next_id := s32 (next_id s + 1) |>) in
      if ok : bool then (id, s) else (-1, out_of_memory s)
  end.

Definition service_DestroyTransferBuffer (id : Z) (s : CommandBufferService) :
    outcome CommandBufferService :=
  m ← manager_DestroyTransferBuffer id (transfer_buffer_manager_ s);
  let s := s <| transfer_buffer_manager_ := m |> in
  Done (if id =? ring_buffer_id_ s
        then s <| ring_buffer_id_ := -1 |> <| ring_buffer_ := None |> <| num_entries_ := 0 |>
               <| get_offset_ := 0 |> <| put_offset_ := 0 |>
        else s).

Definition service_SetToken (token : Z) (s : CommandBufferService) : CommandBufferService :=
  UpdateState (s <| token_ := token |>).

(** The parse error callback tells the owner of the service and changes nothing here. *)
Definition SetParseError (error : Error) (s : CommandBufferService) : CommandBufferService :=
  if bool_decide (error_ s = kNoError) then s <| error_ := error |> else s.

Definition SetContextLostReason (reason : ContextLostReason) (s : CommandBufferService) :
    CommandBufferService := s <| context_lost_reason_ := reason |>.

Definition GetPutOffset (s : CommandBufferService) : Z := put_offset_ s.

(** ** GpuScheduler

    [decoder_] is whether there is a decoder: the virtual functions of it that are used
    are those of [GLES2Decoder] below.  [preemption_flag_] belongs to other threads; it
    is the values that the next reads of it give, and false after them.  The callbacks
    for changes of the schedule and for processed commands belong to the owner. *)
Record GpuScheduler : Type := mkGpuScheduler {
  command_buffer_ : CommandBufferService;
  parser_ : option CommandParser;
  decoder_ : bool;
  scheduled_ : bool;
  preemption_flag_ : option (list bool);
  was_preempted_ : bool
}.
#[export] Instance eta_GpuScheduler : Eta GpuScheduler := λ g,
  mkGpuScheduler (command_buffer_ g) (parser_ g) (decoder_ g) (scheduled_ g)
    (preemption_flag_ g) (was_preempted_ g).

Definition init_GpuScheduler (s : CommandBufferService) (decoder : bool) : GpuScheduler :=
  {| command_buffer_ := s; parser_ := None; decoder_ := decoder; scheduled_ := true;
     preemption_flag_ := None; was_preempted_ := false |}.

Definition upd_service (f : CommandBufferService → CommandBufferService) (g : GpuScheduler) :
    GpuScheduler := g <| command_buffer_ := f (command_buffer_ g) |>.
Definition upd_service_done (f : CommandBufferService → outcome CommandBufferService)
    (g : GpuScheduler) : outcome GpuScheduler :=
  s ← f (command_buffer_ g); Done (g <| command_buffer_ := s |>).

Definition SetScheduled (scheduled : bool) (g : GpuScheduler) : GpuScheduler :=
  if Bool.eqb (scheduled_ g) scheduled then g else g <| scheduled_ := scheduled |>.

Definition GetSharedMemoryBuffer (shm_id : Z) (g : GpuScheduler) : option (list Z) :=
  GetTransferBuffer shm_id (command_buffer_ g).

Definition set_token (token : Z) (g : GpuScheduler) : GpuScheduler :=
  upd_service (service_SetToken token) g.

Definition scheduler_SetGetOffset (offset : Z) (g : GpuScheduler) : outcome (bool * GpuScheduler) :=
  match parser_ g with
  | None => DcheckFailed
  | Some p =>
      let '(ok, p) := set_get offset p in
      if ok : bool then
        g ← upd_service_done (service_SetGetOffset (get_ p)) (g <| parser_ := Some p |>);
        Done (true, g)
      else Done (false, g)
  end.

Definition GetGetOffset (g : GpuScheduler) : outcome Z :=
  match parser_ g with None => DcheckFailed | Some p => Done (get_ p) end.

(** The callback [get_buffer_change_callback_].  The memory of the buffer becomes the
    array of the parser: from now on that list is the memory. *)
Definition scheduler_SetGetBuffer (transfer_buffer_id : Z) (g : GpuScheduler) :
    outcome (bool * GpuScheduler) :=
  match GetTransferBuffer transfer_buffer_id (command_buffer_ g) with
  | None => Done (false, g)
  | Some ring_buffer =>
      let p := default init_CommandParser (parser_ g) in
      let size := Z.of_nat (length ring_buffer) in
      p ← SetBuffer 0 (entries_of_bytes ring_buffer) size 0 size p;
      r ← scheduler_SetGetOffset 0 (g <| parser_ := Some p |>);
      Done (true, r.2)
  end.

(** [preemption_flag_->IsSet()]. *)
Definition IsSet (g : GpuScheduler) : bool * GpuScheduler :=
  match preemption_flag_ g with
  | Some (b :: reads) => (b, g <| preemption_flag_ := Some reads |>)
  | _ => (false, g)
  end.

Definition IsPreempted (g : GpuScheduler) : bool * GpuScheduler :=
  match preemption_flag_ g with
  | None => (false, g)
  | Some _ =>
      let '(first, g) :=
        if was_preempted_ g then (false, g) else IsSet g in
      if first : bool then IsSet (g <| was_preempted_ := true |>)
      else
        let '(second, g) := if was_preempted_ g then IsSet g else (true, g) in
        IsSet (if second : bool then g else g <| was_preempted_ := false |>)
  end.

(** The scheduler as the engine of the decoder.  A store through a pointer into a buffer
    changes its bytes. *)
Definition scheduler_write (id offset : Z) (bytes : list Z) (g : GpuScheduler) : GpuScheduler :=
  match GetSharedMemoryBuffer id g with
  | Some mem =>
      match write_mem offset bytes mem with
      | Done mem' =>
          upd_service (λ s, s <| transfer_buffer_manager_ := (transfer_buffer_manager_ s)
            <| registered_buffers_ := <[id := mem']> (registered_buffers_ (transfer_buffer_manager_ s)) |> |>) g
      | DcheckFailed => g
      end
  | None => g
  end.

#[export] Instance GpuScheduler_engine : CommandBufferEngine GpuScheduler.
Proof.
  refine {| CommonDecoder.GetSharedMemoryBuffer := GetSharedMemoryBuffer;
            write_memory := scheduler_write;
            engine_set_token := set_token |}.
  - intros id offset bytes mem mem' g E1 E2. unfold scheduler_write. rewrite E1, E2.
    unfold GetSharedMemoryBuffer, GetTransferBuffer, manager_GetTransferBuffer in *.
    destruct (id =? 0); [done|]. apply lookup_insert_eq.
  - intros id id' offset bytes g. unfold scheduler_write.
    destruct (GetSharedMemoryBuffer id g) as [mem|] eqn:E1; [|done].
    destruct (write_mem offset bytes mem) as [mem'|] eqn:E2; [|done].
    unfold GetSharedMemoryBuffer, GetTransferBuffer, manager_GetTransferBuffer in *.
    destruct (id' =? 0) eqn:E0; [done|]. cbn.
    destruct (decide (id = id')) as [->|Hne].
    + rewrite E0 in E1. rewrite lookup_insert_eq, E1. cbn. f_equal. by apply write_mem_length in E2.
    + by rewrite lookup_insert_ne.
  - intros id t g. unfold set_token, upd_service, service_SetToken, UpdateState. cbn.
    by destruct (shared_state_ (command_buffer_ g)).
Defined.

(** The virtual functions of the decoder that [PutChanged] and the idle work call. *)
Class GLES2Decoder (D : Type) := {
  BeginDecoding : D → D;
  EndDecoding : D → D;
  WasContextLost : D → bool;
  GetContextLostReason : D → ContextLostReason;
  decoder_HasPendingQueries : D → bool;
  decoder_ProcessPendingQueries : D → D;
  decoder_HasMoreIdleWork : D → bool;
  decoder_PerformIdleWork : D → D
}.

Section Scheduler.
Context {D : Type} {decoder : GLES2Decoder D} {handler : AsyncAPIInterface (D * GpuScheduler)}.
Implicit Types (d : D) (g : GpuScheduler).

(** The loop of [PutChanged]; the result is the error at its end.  [None] is the lack
    of fuel. *)
Fixpoint put_changed_loop (fuel : nat) (error : Error) (d : D) (g : GpuScheduler) :
    outcome (option (Error * D * GpuScheduler)) :=
  match fuel, parser_ g with
  | O, _ => Done None
  | _, None => DcheckFailed
  | S fuel, Some p =>
      if IsEmpty p then Done (Some (error, d, g))
      else
        let '(preempted, g) := IsPreempted g in
        if preempted : bool then Done (Some (error, d, g))
        else
          DCHECK (scheduled_ g) ;;
          r ← ProcessCommands kParseCommandsSlice p (d, g);
          let '(error, p, (d, g)) := r : Error * CommandParser * (D * GpuScheduler) in
          let g := g <| parser_ := Some p |> in
          if bool_decide (error = kDeferCommandUntilLater) then
            DCHECK (negb (scheduled_ g)) ;; Done (Some (error, d, g))
          else
            g ← upd_service_done (service_SetGetOffset (get_ p)) g;
            if IsError error then
              DCHECK (decoder_ g) ;;
              Done (Some (error, d,
                upd_service (λ s, SetParseError error
                  (SetContextLostReason (GetContextLostReason d) s)) g))
            else if negb (scheduled_ g) then Done (Some (error, d, g))
            else put_changed_loop fuel error d g
  end.

(** The part after the loop. *)
Definition put_changed_end (error : Error) (d : D) (g : GpuScheduler) : D * GpuScheduler :=
  if decoder_ g then
    (EndDecoding d,
     if negb (IsError error) && WasContextLost d
     then upd_service (λ s, SetParseError kLostContext
            (SetContextLostReason (GetContextLostReason d) s)) g
     else g)
  else (d, g).

Definition PutChanged (fuel : nat) (w : D * GpuScheduler) : outcome (option (D * GpuScheduler)) :=
  let '(d, g) := w in
  let '(state, s) := service_GetLastState (command_buffer_ g) in
  let g := g <| command_buffer_ := s |> in
  match parser_ g with
  | None => DCHECK (get_offset state =? GetPutOffset s) ;; Done (Some (d, g))
  | Some p =>
      let g := g <| parser_ := Some (set_put (GetPutOffset s) p) |> in
      if bool_decide (error state ≠ kNoError) then Done (Some (d, g))
      else
        r ← put_changed_loop fuel kNoError (if decoder_ g then BeginDecoding d else d) g;
        match r with
        | None => Done None
        | Some (error, d, g) => Done (Some (put_changed_end error d g))
        end
  end.

(** [CommandBufferService::Flush] with [PutChanged] as its callback. *)
Definition service_Flush (fuel : nat) (put_offset : Z) (w : D * GpuScheduler) :
    outcome (option (D * GpuScheduler)) :=
  let '(changed, s) := set_put_offset put_offset (command_buffer_ w.2) in
  let w := (w.1, w.2 <| command_buffer_ := s |>) in
  if changed : bool then PutChanged fuel w else Done (Some w).

Definition service_OrderingBarrier := service_Flush.

(** [CommandBufferService::SetGetBuffer] with its callback. *)
Definition service_SetGetBuffer (transfer_buffer_id : Z) (g : GpuScheduler) :
    outcome GpuScheduler :=
  g ← upd_service_done (set_ring_buffer transfer_buffer_id) g;
  r ← scheduler_SetGetBuffer transfer_buffer_id g;
  Done (upd_service UpdateState r.2).

Definition HasPendingQueries (d : D) (g : GpuScheduler) : bool :=
  decoder_ g && decoder_HasPendingQueries d.
Definition ProcessPendingQueries (d : D) (g : GpuScheduler) : D :=
  if decoder_ g then decoder_ProcessPendingQueries d else d.
Definition HasMoreIdleWork (d : D) (g : GpuScheduler) : bool :=
  decoder_ g && decoder_HasMoreIdleWork d.
Definition PerformIdleWork (d : D) (g : GpuScheduler) : D :=
  if decoder_ g then decoder_PerformIdleWork d else d.
End Scheduler.
