(* ===== verification/GpuSchedulerProperties.v ===== *)
(** * What the service does with the commands: theorems on gpu_scheduler.cc

    [PutChanged] executes what was flushed, in order, whatever the client wrote into the
    ring buffer; the decoder is any handler that keeps to [SchedulerHandler], and the
    decoder of the common commands does. *)

From stdpp Require Import gmap.
From S2P Require Import Prelude CommandBufferCommon CommandFormat CommandParser CommonDecoder.
From S2P Require Import CommandBufferInterface CommandBufferService.

(** ** What the decoder may do to the scheduler *)

(** A command changes the buffers, the token and what is published of the state. *)
Definition same_frame (g g' : GpuScheduler) : Prop :=
  parser_ g' = parser_ g ∧ decoder_ g' = decoder_ g ∧ scheduled_ g' = scheduled_ g ∧
  preemption_flag_ g' = preemption_flag_ g ∧ was_preempted_ g' = was_preempted_ g ∧
  num_entries_ (command_buffer_ g') = num_entries_ (command_buffer_ g) ∧
  get_offset_ (command_buffer_ g') = get_offset_ (command_buffer_ g) ∧
  put_offset_ (command_buffer_ g') = put_offset_ (command_buffer_ g) ∧
  error_ (command_buffer_ g') = error_ (command_buffer_ g) ∧
  ring_buffer_id_ (command_buffer_ g') = ring_buffer_id_ (command_buffer_ g).

#[export] Instance same_frame_refl : Reflexive same_frame.
Proof. done. Qed.
#[export] Instance same_frame_trans : Transitive same_frame.
Proof. unfold same_frame. intros x y z. intuition congruence. Qed.

(** Two schedulers that differ only in what a command does not look at: the parser, the
    get offset, and what was published of the state. *)
Record similar (g g' : GpuScheduler) : Prop := {
  similar_buffers :
    transfer_buffer_manager_ (command_buffer_ g) = transfer_buffer_manager_ (command_buffer_ g');
  similar_token : token_ (command_buffer_ g) = token_ (command_buffer_ g');
  similar_error : error_ (command_buffer_ g) = error_ (command_buffer_ g');
  similar_reason :
    context_lost_reason_ (command_buffer_ g) = context_lost_reason_ (command_buffer_ g')
}.
#[export] Instance similar_equiv : Equiv GpuScheduler := similar.
#[export] Instance similar_equivalence : Equivalence (≡@{GpuScheduler}).
Proof.
  split; [by intros g; split|intros ?? []; by split|intros ??? [] []; split; congruence].
Qed.

(** What [PutChanged] needs of the handler. *)
Class SchedulerHandler (D : Type) `{handler : AsyncAPIInterface (D * GpuScheduler)} := {
  handler_frame command n c (d : D) g :
    same_frame g (DoCommand command n c (d, g)).2.2;
  handler_no_defer command n c (d : D) g :
    (DoCommand command n c (d, g)).1 ≠ kDeferCommandUntilLater;
  handler_similar command n c (d : D) g g' :
    g ≡ g' →
    (DoCommand command n c (d, g)).1 = (DoCommand command n c (d, g')).1 ∧
    (DoCommand command n c (d, g)).2.1 = (DoCommand command n c (d, g')).2.1 ∧
    (DoCommand command n c (d, g)).2.2 ≡ (DoCommand command n c (d, g')).2.2
}.

Section PutChanged.
Context {D : Type} {decoder : GLES2Decoder D} {handler : AsyncAPIInterface (D * GpuScheduler)}.
Context {laws : SchedulerHandler D}.
Implicit Types (d : D) (g : GpuScheduler).

(** *** Any contents of the ring buffer *)

Lemma DoCommands_loop_bounds n : ∀ cmd_data pos num e ep d g,
  0 <= ep <= num → 0 <= pos <= num → num - pos <= Z.of_nat (length cmd_data) →
  ∃ e' pos' d' g', DoCommands_loop n cmd_data pos num e ep (d, g) = Done (e', pos', (d', g')) ∧
    0 <= pos' <= num ∧ same_frame g g' ∧
    (e ≠ kDeferCommandUntilLater → e' ≠ kDeferCommandUntilLater) ∧
    (e' = kNoError → pos <= pos' ∧ ((0 < n)%nat → pos < num → pos < pos')).
Proof.
  induction n as [|n IH]; intros cmd_data pos num e ep d g Hep Hpos Hlen; cbn [DoCommands_loop].
  { exists e, pos, d, g. split; [by case_match|]. split_and!; try done; lia. }
  destruct (Z.ltb_spec pos num) as [Hlt|]; cbn [andb].
  2: { exists e, pos, d, g. split_and!; try done; lia. }
  destruct (bool_decide_reflect (e = kNoError)) as [->|Hne].
  2: { by exists e, pos, d, g. }
  destruct cmd_data as [|entry rest]; [cbn in Hlen; lia|].
  destruct (Z.eqb_spec (header_size (value_header entry)) 0) as [|Hsz].
  { by exists kInvalidSize, ep, d, g. }
  destruct (Z.ltb_spec num (header_size (value_header entry) + pos)) as [|Hin].
  { by exists kOutOfBounds, ep, d, g. }
  assert (0 < header_size (value_header entry)) as Hpos'.
  { unfold value_header in *. cbn in *. pose proof (Z.land_nonneg entry kMaxSize).
    change (0 <= kMaxSize) with (0 <= 2097151) in *. lia. }
  pose proof (handler_frame (header_command (value_header entry))
    (header_size (value_header entry) - 1) (entry :: rest) d g) as Hfr.
  pose proof (handler_no_defer (header_command (value_header entry))
    (header_size (value_header entry) - 1) (entry :: rest) d g) as Hnd.
  destruct (DoCommand _ _ _ _) as [r [d1 g1]]. cbn in Hfr, Hnd.
  rewrite bool_decide_eq_true_2 by done.
  destruct (IH (drop (Z.to_nat (header_size (value_header entry))) (entry :: rest))
    (pos + header_size (value_header entry)) num r ep d1 g1)
    as (e' & pos' & d' & g' & -> & Hp & Hfr' & Hd & Hn); [lia|lia|rewrite length_drop; lia|].
  exists e', pos', d', g'. split_and!; try done; [lia|lia|by etransitivity|auto|].
  intros He. destruct (Hn He). lia.
Qed.

(** A parser on an array it does not leave. *)
Record parser_ok (p : CommandParser) : Prop := {
  po_get : 0 <= get_ p < entry_count_ p;
  po_put : 0 <= put_ p < entry_count_ p;
  po_buffer : entry_count_ p = Z.of_nat (length (buffer_ p))
}.

Definition parser_dist (p : CommandParser) : Z :=
  if get_ p <=? put_ p then put_ p - get_ p else put_ p - get_ p + entry_count_ p.

(** [p'] is [p] after [k] entries. *)
Definition moved (k : Z) (p : CommandParser) : CommandParser :=
  p <| get_ := adv (entry_count_ p) (get_ p) k |>.

Ltac parser_arith :=
  unfold moved, parser_dist, adv in *; cbn in *;
  repeat match goal with
  | |- context [?x <=? ?y] => destruct (Z.leb_spec x y)
  | |- context [?x <? ?y] => destruct (Z.ltb_spec x y)
  | |- context [?x =? ?y] => destruct (Z.eqb_spec x y)
  | H : context [?x <=? ?y] |- _ => destruct (Z.leb_spec x y)
  | H : context [?x <? ?y] |- _ => destruct (Z.ltb_spec x y)
  end; try lia.

Lemma moved_ok k p :
  parser_ok p → 0 <= k <= parser_dist p →
  parser_ok (moved k p) ∧ parser_dist (moved k p) = parser_dist p - k.
Proof. intros [Hg Hp Hb] Hk. split; [split|]; parser_arith. Qed.

Lemma moved_moved j k p :
  parser_ok p → 0 <= k → 0 <= j → j + k <= parser_dist p → moved j (moved k p) = moved (k + j) p.
Proof.
  intros [Hg Hp Hb] Hk Hj Hjk. destruct p as [get put buffer n].
  change (mkCommandParser (adv n (adv n get k) j) put buffer n
          = mkCommandParser (adv n get (k + j)) put buffer n).
  f_equal. parser_arith.
Qed.

Lemma ProcessCommands_bounds n p d g :
  parser_ok p → (0 < n)%nat → IsEmpty p = false →
  ∃ e k d' g', ProcessCommands n p (d, g) = Done (e, moved k p, (d', g')) ∧
    0 <= k <= parser_dist p ∧ same_frame g g' ∧ e ≠ kDeferCommandUntilLater ∧
    (e = kNoError → 0 < k).
Proof.
  intros [Hg Hp Hb] Hn He. apply Z.eqb_neq in He. unfold ProcessCommands, DoCommands.
  set (num := if put_ p <? get_ p then _ else _).
  assert (0 < num <= parser_dist p ∧ get_ p + num <= entry_count_ p) as [Hnum Hend].
  { subst num. parser_arith. }
  destruct (DoCommands_loop_bounds n (drop (Z.to_nat (get_ p)) (buffer_ p)) 0 num kNoError 0 d g)
    as (e & pos & d' & g' & -> & Hpos & Hfr & Hd & Hprog); [lia|lia|rewrite length_drop; lia|].
  cbn [mbind outcome_bind]. exists e, pos, d', g'. split.
  - do 3 f_equal. destruct p as [get put buffer count]. cbn in *.
    change (mkCommandParser (if get + pos =? count then 0 else get + pos) put buffer count
            = mkCommandParser (adv count get pos) put buffer count).
    f_equal. clearbody num. parser_arith.
  - split_and!; [lia|lia|done|by apply Hd|]. intros E. destruct (Hprog E). lia.
Qed.

(** The scheduler with a ring buffer, between calls. *)
Record serving (g : GpuScheduler) (p : CommandParser) : Prop := {
  sv_parser : parser_ g = Some p;
  sv_ok : parser_ok p;
  sv_entries : num_entries_ (command_buffer_ g) = entry_count_ p;
  sv_get : get_offset_ (command_buffer_ g) = get_ p;
  sv_put : put_offset_ (command_buffer_ g) = put_ p;
  sv_ring : ring_buffer_id_ (command_buffer_ g) ≠ -1;
  sv_scheduled : scheduled_ g = true;
  sv_decoder : decoder_ g = true
}.

Lemma IsPreempted_spec g :
  ∃ b flag was, IsPreempted g = (b, g <| preemption_flag_ := flag |> <| was_preempted_ := was |>) ∧
    (preemption_flag_ g = None → b = false ∧ flag = None).
Proof.
  destruct g as [s p de sc flag was]. unfold IsPreempted, IsSet. cbn.
  destruct flag as [reads|]; [|by exists false, None, was].
  destruct was, reads as [|[] [|? reads]]; eexists _, (Some _), _; (split; [cbv; reflexivity|done]).
Qed.

(** What a call of the scheduler leaves: it took [k] entries, and went on to put unless it
    met an error or was preempted. *)
Definition served (k : Z) (p : CommandParser) g g' : Prop :=
  serving g' (moved k p) ∧ 0 <= k <= parser_dist p ∧
  (preemption_flag_ g = None → preemption_flag_ g' = None ∧
     (k = parser_dist p ∨ error_ (command_buffer_ g') ≠ kNoError)) ∧
  (error_ (command_buffer_ g) ≠ kNoError → error_ (command_buffer_ g') ≠ kNoError).

Lemma serving_frame g g' p : same_frame g g' → serving g p → serving g' p.
Proof.
  intros (E1 & E2 & E3 & _ & _ & E6 & E7 & E8 & _ & E10) []. split; congruence.
Qed.

Lemma serving_get g p k :
  serving g p → 0 <= k <= parser_dist p →
  ∃ g', upd_service_done (service_SetGetOffset (get_ (moved k p)))
      (g <| parser_ := Some (moved k p) |>) = Done g' ∧ serving g' (moved k p) ∧ g ≡ g' ∧
    preemption_flag_ g' = preemption_flag_ g ∧ error_ (command_buffer_ g') = error_ (command_buffer_ g).
Proof.
  intros [] Hk. destruct (moved_ok k p sv_ok0 Hk) as [Hok _].
  unfold upd_service_done, service_SetGetOffset. set (g1 := g <| parser_ := _ |>).
  assert (num_entries_ (command_buffer_ g1) = entry_count_ (moved k p)) as -> by exact sv_entries0.
  destruct Hok as [Hg Hp Hb] eqn:Eok. clear Eok.
  pass_DCHECK ltac:(apply andb_true_iff; split; [apply Z.leb_le|apply Z.ltb_lt]; lia).
  eexists. split; [reflexivity|]. split_and!; try done; by split.
Qed.

Lemma SetParseError_error e s : e ≠ kNoError → error_ (SetParseError e s) ≠ kNoError.
Proof. unfold SetParseError. by case_bool_decide. Qed.

Lemma serving_error e r g p :
  serving g p → serving (upd_service (λ s, SetParseError e (SetContextLostReason r s)) g) p.
Proof.
  intros []. unfold upd_service, SetParseError. case_bool_decide; by split.
Qed.

Lemma moved_0 p : parser_ok p → moved 0 p = p.
Proof.
  intros [Hg _ _]. destruct p as [get put buffer n].
  change (mkCommandParser (adv n get 0) put buffer n = mkCommandParser get put buffer n).
  by rewrite adv_0.
Qed.

(** Nothing was done. *)
Lemma served_0 p g g' :
  serving g' p → error_ (command_buffer_ g') = error_ (command_buffer_ g) →
  (preemption_flag_ g = None → preemption_flag_ g' = None ∧ parser_dist p = 0) →
  served 0 p g g'.
Proof.
  intros Hs Ee Hf. pose proof (sv_ok _ _ Hs) as Hok. unfold served. rewrite moved_0, Ee by done.
  assert (0 <= parser_dist p) by (destruct Hok; parser_arith).
  split; [done|]. split; [lia|]. split; [|done]. intros [? ->]%Hf. by split; [|left].
Qed.

(** Serving some entries, then more. *)
Lemma served_trans j k p g1 g2 g3 :
  parser_ok p → 0 <= k <= parser_dist p → served j (moved k p) g2 g3 →
  (preemption_flag_ g1 = None → preemption_flag_ g2 = None) →
  error_ (command_buffer_ g2) = error_ (command_buffer_ g1) →
  served (k + j) p g1 g3.
Proof.
  intros Hok Hk (Hs & Hj & Hf & He) Hf12 Ee. destruct (moved_ok k p Hok Hk) as [_ Ed].
  rewrite Ed in *. rewrite moved_moved in Hs by (done || lia). split; [done|]. split; [lia|].
  split; [|by rewrite <- Ee]. intros [? [->|]]%Hf12%Hf; (split; [done|]); [left; lia|by right].
Qed.

Lemma serving_stopped k p g g' :
  serving g' (moved k p) → 0 <= k <= parser_dist p →
  (preemption_flag_ g = None → preemption_flag_ g' = None) →
  error_ (command_buffer_ g') ≠ kNoError → served k p g g'.
Proof. intros Hs Hk Hf He. split; [done|]. split; [done|]. by split; [auto|]. Qed.

#[local] Opaque ProcessCommands.

Lemma put_changed_loop_S fuel error d g :
  put_changed_loop (S fuel) error d g =
  match parser_ g with
  | None => DcheckFailed
  | Some p =>
      if IsEmpty p then Done (Some (error, d, g))
      else
        let '(preempted, g) := IsPreempted g in
        if preempted : bool then Done (Some (error, d, g))
        else
          DCHECK (scheduled_ g) ;;
          r ← ProcessCommands kParseCommandsSlice p (d, g);
          let '(error, p, (d, g)) := r : Error * CommandParser * (D * GpuScheduler) in
          let g := g <| parser_ := Some p |> in
          if bool_decide (error = kDeferCommandUntilLater) then
            DCHECK (negb (scheduled_ g)) ;; Done (Some (error, d, g))
          else
            g ← upd_service_done (service_SetGetOffset (get_ p)) g;
            if IsError error then
              DCHECK (decoder_ g) ;;
              Done (Some (error, d,
                upd_service (λ s, SetParseError error
                  (SetContextLostReason (GetContextLostReason d) s)) g))
            else if negb (scheduled_ g) then Done (Some (error, d, g))
            else put_changed_loop fuel error d g
  end.
Proof. reflexivity. Qed.

Lemma put_changed_loop_spec fuel : ∀ e0 d g p,
  serving g p → (Z.to_nat (parser_dist p) < fuel)%nat →
  ∃ e d' g' k, put_changed_loop fuel e0 d g = Done (Some (e, d', g')) ∧ served k p g g'.
Proof.
  induction fuel as [|fuel IH]; intros e0 d g p Hs Hf; [lia|]. rewrite put_changed_loop_S.
  pose proof (sv_ok _ _ Hs) as Hok. rewrite (sv_parser _ _ Hs).
  destruct (IsEmpty p) eqn:He.
  { apply Z.eqb_eq in He. exists e0, d, g, 0. split; [done|]. apply served_0; try done.
    intros ->. split; [done|]. destruct Hok. parser_arith. }
  destruct (IsPreempted_spec g) as (b & flag & was & -> & Hb).
  set (g1 := g <| preemption_flag_ := flag |> <| was_preempted_ := was |>).
  assert (serving g1 p) as Hs1 by (destruct Hs; by split).
  assert (preemption_flag_ g1 = flag) as Ef1 by done.
  assert (error_ (command_buffer_ g1) = error_ (command_buffer_ g)) as Ee1 by done.
  clearbody g1. destruct b.
  { exists e0, d, g1, 0. split; [done|]. apply served_0; try done. by intros []%Hb. }
  pass_DCHECK ltac:(apply (sv_scheduled _ _ Hs1)).
  destruct (ProcessCommands_bounds kParseCommandsSlice p d g1) as
    (e & k & d2 & g2 & -> & Hk & Hfr & Hnd & Hpos); [done|cbv; lia|done|].
  step_done. rewrite bool_decide_eq_false_2 by done.
  pose proof (serving_frame _ _ _ Hfr Hs1) as Hs2.
  destruct (serving_get g2 p k Hs2 Hk) as (g3 & -> & Hs3 & _ & Ef3 & Ee3).
  rewrite Done_bind. cbv beta. destruct (moved_ok k p Hok Hk) as [Hok3 Hd3].
  assert (preemption_flag_ g = None → preemption_flag_ g3 = None) as Hf3.
  { intros [_ ->]%Hb. by rewrite Ef3, (proj1 (proj2 (proj2 (proj2 Hfr)))), Ef1. }
  assert (error_ (command_buffer_ g3) = error_ (command_buffer_ g)) as Ee3'.
  { rewrite Ee3, <- Ee1. by destruct Hfr as (_ & _ & _ & _ & _ & _ & _ & _ & -> & _). }
  destruct (IsError e) eqn:Ee.
  - pass_DCHECK ltac:(apply (sv_decoder _ _ Hs3)). eexists e, d2, _, k.
    split; [reflexivity|]. apply serving_stopped; [by apply serving_error|done|done|].
    apply SetParseError_error. by intros ->.
  - rewrite (sv_scheduled _ _ Hs3). cbn [negb].
    assert (e = kNoError) as -> by (by destruct e).
    destruct (IH kNoError d2 g3 (moved k p) Hs3) as (e & d' & g' & j & -> & Hj).
    { specialize (Hpos eq_refl). rewrite Hd3. lia. }
    exists e, d', g', (k + j). split; [done|]. by eapply served_trans.
Qed.

Lemma put_changed_end_served e k p d g g1 :
  served k p g g1 → served k p g (put_changed_end e d g1).2.
Proof.
  intros (Hs & Hk & Hf & He). unfold put_changed_end. rewrite (sv_decoder _ _ Hs). cbn [snd].
  case_match; [|done].
  set (f := λ s, SetParseError kLostContext (SetContextLostReason (GetContextLostReason d) s)).
  assert (error_ (command_buffer_ (upd_service f g1)) ≠ kNoError) as Hne by by apply SetParseError_error.
  split; [by apply serving_error|]. split; [done|]. split; [|done].
  intros [? _]%Hf. by split; [|right].
Qed.

(** [Flush] on a put offset inside the ring comes to the loop. *)
Lemma Flush_loop fuel put d g p :
  serving g p → error_ (command_buffer_ g) = kNoError → 0 <= put < entry_count_ p →
  ∃ g3, service_Flush fuel put (d, g) =
      (r ← put_changed_loop fuel kNoError (BeginDecoding d) g3;
       match r with
       | None => Done None
       | Some (error, d, g) => Done (Some (put_changed_end error d g))
       end) ∧
    serving g3 (set_put put p) ∧ g ≡ g3 ∧ preemption_flag_ g3 = preemption_flag_ g.
Proof.
  intros Hs He Hput. unfold service_Flush, set_put_offset. cbn [fst snd].
  rewrite (sv_entries _ _ Hs). decide_tests ltac:(lia). cbn [orb].
  unfold PutChanged, service_GetLastState.
  set (g2 := g <| command_buffer_ := _ |> <| command_buffer_ := _ |>).
  assert (parser_ g2 = Some p) as -> by apply Hs.
  set (g3 := g2 <| parser_ := _ |>).
  assert (serving g3 (set_put put p)) as Hs3.
  { destruct Hs. split; try done. destruct sv_ok0. by split. }
  exists g3. rewrite bool_decide_eq_false_2 by (intros Hne; exact (Hne He)).
  rewrite (sv_decoder _ _ Hs3). split; [done|]. by split.
Qed.

Lemma Flush_error fuel put d g p :
  serving g p → error_ (command_buffer_ g) ≠ kNoError → 0 <= put < entry_count_ p →
  ∃ g', service_Flush fuel put (d, g) = Done (Some (d, g')) ∧ serving g' (set_put put p) ∧
    error_ (command_buffer_ g') = error_ (command_buffer_ g) ∧
    preemption_flag_ g' = preemption_flag_ g.
Proof.
  intros Hs He Hput. unfold service_Flush, set_put_offset. cbn [fst snd].
  rewrite (sv_entries _ _ Hs). decide_tests ltac:(lia). cbn [orb].
  unfold PutChanged, service_GetLastState.
  set (g2 := g <| command_buffer_ := _ |> <| command_buffer_ := _ |>).
  assert (parser_ g2 = Some p) as -> by apply Hs.
  rewrite bool_decide_eq_true_2 by exact He. eexists. split; [reflexivity|]. split; [|done].
  destruct Hs. split; try done. destruct sv_ok0. by split.
Qed.

Lemma Flush_served fuel put d g p :
  serving g p → 0 <= put < entry_count_ p → (Z.to_nat (entry_count_ p) <= fuel)%nat →
  let p' := set_put put p in
  ∃ d' g' k, service_Flush fuel put (d, g) = Done (Some (d', g')) ∧
    if bool_decide (error_ (command_buffer_ g) = kNoError) then served k p' g g'
    else k = 0 ∧ serving g' p' ∧ d' = d ∧ error_ (command_buffer_ g') = error_ (command_buffer_ g) ∧
         preemption_flag_ g' = preemption_flag_ g.
Proof.
  intros Hs Hput Hf p'. case_bool_decide as He.
  - destruct (Flush_loop fuel put d g p Hs He Hput) as (g3 & -> & Hs3 & Hg3 & Ef3).
    destruct (put_changed_loop_spec fuel kNoError (BeginDecoding d) g3 p' Hs3) as
      (e & d' & g' & k & -> & Hk).
    { pose proof (sv_ok _ _ Hs3) as []. subst p'. parser_arith. }
    rewrite Done_bind. cbv beta iota.
    pose proof (put_changed_end_served e k p' d' g3 g' Hk) as Hk4.
    destruct (put_changed_end e d' g') as [d4 g4]. exists d4, g4, k. split; [done|].
    destruct Hk4 as (A & B & C & E). split; [done|]. split; [done|].
    rewrite Ef3, <- (similar_error _ _ Hg3) in *. done.
  - destruct (Flush_error fuel put d g p Hs He Hput) as (g' & E & Hs' & Ee & Ef).
    by exists d, g', 0.
Qed.

(** *** Well-formed commands *)

Definition set_error (e : Error) d g : GpuScheduler :=
  upd_service (λ s, SetParseError e (SetContextLostReason (GetContextLostReason d) s)) g.

Lemma set_error_similar e d g g' : g ≡ g' → set_error e d g ≡ set_error e d g'.
Proof.
  intros [Hb Ht He Hr]. unfold set_error, upd_service, SetParseError, SetContextLostReason.
  split; cbn; repeat case_bool_decide; cbn in *; try done; congruence.
Qed.

Lemma exec_similar ws : ∀ d g g' e rest d2 g2,
  g ≡ g' → exec ws (d, g) = (e, rest, (d2, g2)) →
  ∃ g2', exec ws (d, g') = (e, rest, (d2, g2')) ∧ g2 ≡ g2'.
Proof.
  induction ws as [|w ws IH]; intros d g g' e rest d2 g2 Hg; cbn [exec].
  { intros [= <- <- <- <-]. by exists g'. }
  unfold do_command. set (hd := value_header _).
  destruct (handler_similar (header_command hd) (header_size hd - 1) w d g g' Hg) as (E1 & E2 & E3).
  destruct (DoCommand _ _ w (d, g)) as [e1 [d1 g1]], (DoCommand _ _ w (d, g')) as [e1' [d1' g1']].
  cbn in E1, E2, E3. subst e1' d1'.
  destruct e1; try (intros [= <- <- <- <-]; by exists g1'). by apply IH.
Qed.

Lemma exec_no_defer ws : ∀ d g, (exec ws (d, g)).1.1 ≠ kDeferCommandUntilLater.
Proof.
  induction ws as [|w ws IH]; intros d g; cbn [exec]; [done|].
  unfold do_command. set (hd := value_header _).
  pose proof (handler_no_defer (header_command hd) (header_size hd - 1) w d g).
  destruct (DoCommand _ _ w (d, g)) as [e1 [d1 g1]]. cbn in *. by destruct e1.
Qed.

(** The error that the scheduler passes on to the service. *)
Definition on_error (e : Error) d g : GpuScheduler := if IsError e then set_error e d g else g.

Lemma on_error_similar e d g g' : g ≡ g' → on_error e d g ≡ on_error e d g'.
Proof. unfold on_error. case_match; [apply set_error_similar|done]. Qed.

(** One turn of the loop on well-formed commands. *)
Lemma slice_spec d g p ws :
  serving g p → preemption_flag_ g = None → pending p ws → IsEmpty p = false →
  ∃ j k e rest d' g',
    (0 < j <= length ws)%nat ∧ 0 <= k <= parser_dist p ∧ e ≠ kDeferCommandUntilLater ∧
    exec (take j ws) (d, g) = (e, rest, (d', g')) ∧
    ProcessCommands kParseCommandsSlice p (d, g) = Done (e, moved k p, (d', g')) ∧
    serving g' p ∧ preemption_flag_ g' = None ∧ pending (moved k p) (rest ++ drop j ws).
Proof.
  intros Hs Hf Hp He. pose proof (sv_ok _ _ Hs) as Hok.
  destruct (ProcessCommands_bounds kParseCommandsSlice p d g Hok) as
    (e & k & d' & g' & E1 & Hk & Hfr & Hnd & _); [cbv; lia|done|].
  destruct (ProcessCommands_spec kParseCommandsSlice p ws (d, g)) as
    (j & e1 & rest & s1 & p1 & Hj & Hx & E2 & _ & Hp1); [cbv; lia|apply Hok|done|done|].
  rewrite E1 in E2. injection E2 as <- <- <-.
  exists j, k, e, rest, d', g'. split_and!; try done; try lia; [by eapply serving_frame|].
  by rewrite (proj1 (proj2 (proj2 (proj2 Hfr)))).
Qed.

Lemma put_changed_loop_exec fuel : ∀ d g p ws g1 e rest d2 g2,
  serving g p → preemption_flag_ g = None → pending p ws → (length ws < fuel)%nat →
  g1 ≡ g → exec ws (d, g1) = (e, rest, (d2, g2)) →
  ∃ g' p', put_changed_loop fuel kNoError d g = Done (Some (e, d2, g')) ∧ serving g' p' ∧
    pending p' rest ∧ g' ≡ on_error e d2 g2.
Proof.
  induction fuel as [|fuel IH]; intros d g p ws g1 e rest d2 g2 Hs Hf Hp Hlen Hg Hx; [lia|].
  rewrite put_changed_loop_S, (sv_parser _ _ Hs). destruct (IsEmpty p) eqn:He.
  { pose proof (pending_empty p ws Hp He). subst ws. injection Hx as <- <- <- <-.
    by exists g, p. }
  unfold IsPreempted. rewrite Hf. pass_DCHECK ltac:(apply (sv_scheduled _ _ Hs)).
  destruct (slice_spec d g p ws Hs Hf Hp He) as
    (j & k & e1 & rest1 & d3 & g3 & Hj & Hk & Hnd & Hx1 & -> & Hs3 & Hf3 & Hp3).
  step_done. rewrite bool_decide_eq_false_2 by done.
  destruct (serving_get g3 p k Hs3 Hk) as (g4 & -> & Hs4 & Hg4 & Ef4 & _).
  rewrite Done_bind. cbv beta.
  destruct (exec_similar _ _ _ g1 _ _ _ _ (symmetry Hg) Hx1) as (g3' & Hx1' & Hg3).
  rewrite <- (take_drop j ws), exec_app, Hx1' in Hx.
  assert (g3' ≡ g4) as Hg34 by (transitivity g3; [by symmetry|done]).
  destruct (IsError e1) eqn:Ee.
  - pass_DCHECK ltac:(apply (sv_decoder _ _ Hs4)).
    rewrite bool_decide_eq_false_2 in Hx by (by intros ->). injection Hx as <- <- <- <-.
    exists (set_error e1 d3 g4), (moved k p). split; [done|].
    split; [by apply serving_error|]. split; [done|].
    unfold on_error. rewrite Ee. by apply set_error_similar.
  - assert (e1 = kNoError) as -> by (by destruct e1). rewrite (sv_scheduled _ _ Hs4). cbn [negb].
    rewrite bool_decide_eq_true_2 in Hx by done.
    destruct (exec_rest _ _ _ _ _ Hx1) as [_ Er]. rewrite Er in Hp3 by done.
    apply (IH d3 g4 (moved k p) (drop j ws) g3'); try done; [by rewrite Ef4|].
    rewrite length_drop. lia.
Qed.

(** *** A put offset at the end of the ring *)

(** The loop with the parser at one of the commands that fill the ring, put at its end. *)
Record stuck (ws : list (list Z)) g (p : CommandParser) : Prop := {
  st_parser : parser_ g = Some p;
  st_at_end : put_at_end ws p;
  st_entries : num_entries_ (command_buffer_ g) = entry_count_ p;
  st_scheduled : scheduled_ g = true;
  st_preempted : preemption_flag_ g = None
}.

Lemma put_at_end_get ws p : Forall is_command ws → put_at_end ws p → 0 <= get_ p < entry_count_ p.
Proof.
  intros Hc (_ & Hn & _ & before & after & -> & Hne & Hg).
  apply Forall_app in Hc as [_ Hca]. pose proof (concat_nonempty after Hca Hne).
  rewrite concat_app, length_app in Hn. lia.
Qed.

Lemma ProcessCommands_frame n p d g e p' d' g' :
  parser_ok p ∨ put_ p = entry_count_ p ∧ 0 <= get_ p < entry_count_ p ∧
    entry_count_ p = Z.of_nat (length (buffer_ p)) →
  ProcessCommands n p (d, g) = Done (e, p', (d', g')) → same_frame g g'.
Proof.
  intros Hp. #[local] Transparent ProcessCommands. unfold ProcessCommands, DoCommands.
  set (num := if put_ p <? get_ p then _ else _).
  assert (0 <= num ∧ get_ p + num <= Z.of_nat (length (buffer_ p)) ∧ 0 <= get_ p) as (Hn & Hb & Hg).
  { subst num. destruct Hp as [[]|]; parser_arith. }
  destruct (DoCommands_loop_bounds n (drop (Z.to_nat (get_ p)) (buffer_ p)) 0 num kNoError 0 d g)
    as (e1 & pos & d1 & g1 & -> & _ & Hfr & _); [lia|lia|rewrite length_drop; lia|].
  rewrite Done_bind. by intros [= <- <- <- <-].
Qed.
#[local] Opaque ProcessCommands.

Lemma stuck_step ws d g p fuel :
  Forall is_command ws → never_fails ws → stuck ws g p →
  ∃ d' g' p', put_changed_loop (S fuel) kNoError d g = put_changed_loop fuel kNoError d' g' ∧
    stuck ws g' p'.
Proof.
  intros Hc Hnf [Ep He Hn Hsc Hpf]. rewrite put_changed_loop_S, Ep.
  rewrite (put_at_end_not_empty ws p Hc He). unfold IsPreempted. rewrite Hpf.
  pass_DCHECK ltac:(done).
  destruct (put_at_end_step ws p (d, g) Hc Hnf He) as (p' & [d' g1] & Er & He' & En').
  assert (same_frame g g1) as Hfr.
  { eapply (ProcessCommands_frame kParseCommandsSlice p); [|exact Er]. right.
    pose proof (put_at_end_get ws p Hc He). destruct He as (Eb & El & Epn & _).
    split; [done|]. split; [lia|]. by rewrite El, Eb. }
  rewrite Er. step_done. rewrite bool_decide_eq_false_2 by done.
  pose proof (put_at_end_get ws p' Hc He') as Hg.
  destruct Hfr as (_ & _ & Es & Ef & _ & En & _).
  unfold upd_service_done, service_SetGetOffset. set (g2 := g1 <| parser_ := Some p' |>).
  assert (num_entries_ (command_buffer_ g2) = entry_count_ p') as Eg2.
  { transitivity (num_entries_ (command_buffer_ g1)); [done|]. congruence. }
  rewrite Eg2. rewrite (proj2 (Z.leb_le _ _)), (proj2 (Z.ltb_lt _ _)) by lia. cbn [andb].
  rewrite DCHECK_true_bind, !Done_bind. cbv beta.
  set (g3 := g2 <| command_buffer_ := _ |>).
  assert (scheduled_ g3 = true) as E3 by (transitivity (scheduled_ g1); [done|]; congruence).
  cbn [IsError]. rewrite E3. exists d', g3, p'. split; [done|].
  split; [done|done|exact Eg2|done|].
  transitivity (preemption_flag_ g1); [done|]. congruence.
Qed.

Lemma stuck_forever ws fuel : ∀ d g p,
  Forall is_command ws → never_fails ws → stuck ws g p →
  put_changed_loop fuel kNoError d g = Done None.
Proof.
  induction fuel as [|fuel IH]; intros d g p Hc Hnf Hs; [done|].
  destruct (stuck_step ws d g p fuel Hc Hnf Hs) as (d' & g' & p' & -> & Hs'). by eapply IH.
Qed.



(** The check of the put offset lets the number of entries through, and with it
    [PutChanged] never returns: get goes back to 0 at the end of the ring, so it is never
    equal to put, and the commands of the ring are executed again and again. *)
Theorem Flush_at_end_hangs fuel d g p ws :
  serving g p → preemption_flag_ g = None → error_ (command_buffer_ g) = kNoError →
  Forall is_command ws → never_fails ws →
  put_at_end ws (set_put (entry_count_ p) p) →
  service_Flush fuel (entry_count_ p) (d, g) = Done None.
Proof.
  intros Hs Hpf He Hc Hnf Hend. unfold service_Flush, set_put_offset. cbn [fst snd].
  rewrite (sv_entries _ _ Hs). pose proof (sv_ok _ _ Hs) as [Hg _ _].
  decide_tests ltac:(lia). cbn [orb]. unfold PutChanged, service_GetLastState.
  set (g2 := g <| command_buffer_ := _ |> <| command_buffer_ := _ |>).
  assert (parser_ g2 = Some p) as -> by apply Hs.
  rewrite bool_decide_eq_false_2 by (intros Hne; exact (Hne He)).
  erewrite (stuck_forever ws fuel); [by rewrite Done_bind|done|done|].
  split; [reflexivity|exact Hend|exact (sv_entries _ _ Hs)|exact (sv_scheduled _ _ Hs)|exact Hpf].
Qed.
End PutChanged.

(** ** The decoder of the common commands *)

(** It has no context to lose and no queries. *)
#[export] Instance CommonDecoder_GLES2Decoder : GLES2Decoder CommonDecoder := {
  BeginDecoding d := d;
  EndDecoding d := d;
  WasContextLost _ := false;
  GetContextLostReason _ := kUnknown;
  decoder_HasPendingQueries _ := false;
  decoder_ProcessPendingQueries d := d;
  decoder_HasMoreIdleWork _ := false;
  decoder_PerformIdleWork d := d
}.

(** Two runs of a command, in similar states: the same errors and buckets, similar
    schedulers, within the frame. *)
Definition runs_alike (g : GpuScheduler) (r r' : outcome (Error * (CommonDecoder * GpuScheduler))) :
    Prop :=
  match r, r' with
  | Done (e, (d, g1)), Done (e', (d', g1')) =>
      e = e' ∧ d = d' ∧ g1 ≡ g1' ∧ same_frame g g1 ∧ e ≠ kDeferCommandUntilLater
  | DcheckFailed, DcheckFailed => True
  | _, _ => False
  end.

Lemma buffers_similar id g g' :
  g ≡ g' → CommonDecoder.GetSharedMemoryBuffer id g = CommonDecoder.GetSharedMemoryBuffer id g'.
Proof.
  intros [E _ _ _]. change (GetSharedMemoryBuffer id g = GetSharedMemoryBuffer id g').
  unfold GetSharedMemoryBuffer, GetTransferBuffer. by rewrite E.
Qed.

Lemma address_similar id offset n g g' :
  g ≡ g' → GetAddressAndCheckSize id offset n g = GetAddressAndCheckSize id offset n g'.
Proof. intros Hg. unfold GetAddressAndCheckSize. by rewrite (buffers_similar _ g g' Hg). Qed.

Lemma write_alike id offset bytes g g' :
  g ≡ g' → write_memory id offset bytes g ≡ write_memory id offset bytes g' ∧
    same_frame g (write_memory id offset bytes g).
Proof.
  intros Hg. pose proof (buffers_similar id g g' Hg) as E. cbn in *. unfold scheduler_write.
  rewrite <- E. destruct (GetSharedMemoryBuffer id g); [|done]. case_match; [|done].
  destruct Hg. split; [|done]. split; try done. cbn. by rewrite similar_buffers0.
Qed.

Lemma token_alike t g g' :
  g ≡ g' → engine_set_token t g ≡ engine_set_token t g' ∧ same_frame g (engine_set_token t g).
Proof.
  intros []. cbn. unfold set_token, upd_service, service_SetToken, UpdateState. cbn.
  split; [split|]; repeat case_match; done.
Qed.

Lemma runs_alike_bind {A} g (x : outcome A) f f' :
  (∀ a, runs_alike g (f a) (f' a)) → runs_alike g (x ≫= f) (x ≫= f').
Proof. intros Hf. destruct x; [apply Hf|done]. Qed.

Lemma done_alike g g1 g1' e d :
  g1 ≡ g1' → same_frame g g1 → e ≠ kDeferCommandUntilLater →
  runs_alike g (Done (e, (d, g1))) (Done (e, (d, g1'))).
Proof. by intros. Qed.

Lemma store_alike pos bytes g g' g0
    (k : GpuScheduler → outcome (Error * (CommonDecoder * GpuScheduler))) :
  g ≡ g' → same_frame g0 g →
  (∀ g1 g1', g1 ≡ g1' → same_frame g0 g1 → runs_alike g0 (k g1) (k g1')) →
  runs_alike g0 (store pos bytes g ≫= k) (store pos bytes g' ≫= k).
Proof.
  intros Hg Hfr Hk. destruct pos as [[id mem] offset]. unfold store.
  destruct (write_mem offset bytes mem); [|done]. destruct (write_alike id offset bytes g g' Hg).
  apply Hk; [done|by etransitivity].
Qed.

(** Both runs take the same steps; the second is at [g']. *)
Ltac alike Hg :=
  repeat match goal with
  | |- context [GetAddressAndCheckSize _ _ _ ?g'] =>
      match type of Hg with _ ≡ g' => rewrite <- !(address_similar _ _ _ _ g' Hg) end
  | |- runs_alike _ (store _ _ _ ≫= _) _ => apply store_alike; [eassumption|eassumption|intros ????]
  | |- runs_alike _ (Done _) (Done _) => apply done_alike; [eassumption|eassumption|by repeat case_match]
  | |- runs_alike _ (let '(_, _) := ?x in _) _ => destruct x
  | |- runs_alike _ (match ?x with _ => _ end) (match ?x with _ => _ end) => destruct x eqn:?; try done
  | |- runs_alike _ (if ?x then _ else _) (if ?x then _ else _) => destruct x eqn:?; try done
  | |- runs_alike _ (?x ≫= _) (?x ≫= _) => apply runs_alike_bind; intros ?
  end.

Lemma common_alike command n c (d : CommonDecoder) g g' :
  g ≡ g' → runs_alike g (DoCommonCommand command n c (d, g)) (DoCommonCommand command n c (d, g')).
Proof.
  intros Hg. unfold DoCommonCommand. destruct (command_info command) as [[h id]|] eqn:Ei; [|done].
  case_match; [|done]. set (m := u32 _). clearbody m. clear - Hg Ei.
  assert (same_frame g g) as Hfr by done.
  unfold command_info in Ei. repeat (case_match; try done); injection Ei as <- <-;
    unfold HandleNoop, HandleSetToken, HandleSetBucketSize, HandleSetBucketData,
      HandleSetBucketDataImmediate, HandleGetBucketStart, HandleGetBucketData, set_bucket_data;
    cbn [fst snd]; alike Hg.
  by destruct (token_alike (s32 a) g g' Hg).
Qed.

#[export] Instance CommonDecoder_SchedulerHandler : SchedulerHandler CommonDecoder.
Proof.
  assert (∀ command n c d g g', g ≡ g' →
    let r := DoCommand command n c (d, g) in let r' := DoCommand command n c (d, g') in
    r.1 = r'.1 ∧ r.2.1 = r'.2.1 ∧ r.2.2 ≡ r'.2.2 ∧ same_frame g r.2.2 ∧
    r.1 ≠ kDeferCommandUntilLater) as Hall.
  { intros command n c d g g' Hg. cbn.
    pose proof (common_alike command n c d g g' Hg) as Ha.
    destruct (DoCommonCommand command n c (d, g)) as [[e [d1 g1]]|],
      (DoCommonCommand command n c (d, g')) as [[e' [d1' g1']]|]; cbn in Ha; try done; by cbn. }
  split; intros.
  - by destruct (Hall command n c d g g (reflexivity g)) as (_ & _ & _ & ? & _).
  - by destruct (Hall command n c d g g (reflexivity g)) as (_ & _ & _ & _ & ?).
  - by destruct (Hall command n c d g g' H) as (? & ? & ? & _).
Qed.

(** *** Eight entries

    A [SetBucketSize] and a [SetToken], in the ring buffer of id 1. *)
Definition example_commands : list (list Z) := [[4194307; 3; 4]; [2097154; 7]].
Definition example_ring : list Z := [4194307; 3; 4; 2097154; 7; 0; 0; 0].

Definition example_service : CommandBufferService :=
  (service_CreateTransferBuffer (Some (bytes_of_entries example_ring))
    (init_CommandBufferService init_TransferBufferManager)).2.

(** The scheduler on these entries. *)
Definition scheduler_on (ring : list Z) : GpuScheduler :=
  (init_GpuScheduler example_service true)
    <| command_buffer_ := example_service <| ring_buffer_ := Some 32 |> <| ring_buffer_id_ := 1 |>
         <| num_entries_ := 8 |> |>
    <| parser_ := Some (mkCommandParser 0 0 ring 8) |>.

Example set_get_buffer :
  service_SetGetBuffer 1 (init_GpuScheduler example_service true) = Done (scheduler_on example_ring).
Proof. vm_compute. reflexivity. Qed.

Lemma serving_on ring :
  length ring = 8%nat → serving (scheduler_on ring) (mkCommandParser 0 0 ring 8).
Proof. intros Hl. split; try done. split; cbn; lia. Qed.



(** Four tokens fill the ring. *)
Definition four_tokens : list (list Z) := repeat [2097154; 7] 4.

Lemma four_tokens_commands : Forall is_command four_tokens.
Proof. repeat constructor; by eexists _, _. Qed.

Lemma Flush_at_end_hangs_witness :
  service_Flush 1000 8 (∅ : CommonDecoder, scheduler_on (concat four_tokens)) = Done None.
Proof.
  apply (Flush_at_end_hangs 1000 (∅ : CommonDecoder) (scheduler_on (concat four_tokens))
    (mkCommandParser 0 0 (concat four_tokens) 8) four_tokens); try done.
  - apply four_tokens_commands.
  - intros w s Hw. apply list_elem_of_In, repeat_spec in Hw. subst w. by destruct s.
  - split_and!; try done. exists [], four_tokens. done.
Defined.
