(* ===== verification/ServiceTrace.v ===== *)
(** * What a flush executed

    The entries that get passed over without an error are commands, and the decoder
    executed them in order: the trace of gpu_scheduler.cc, for any contents of the ring
    buffer. *)

From stdpp Require Import gmap.
From S2P Require Import Prelude CommandBufferCommon CommandFormat CommandParser CommonDecoder.
From S2P Require Import CommandBufferInterface CommandBufferService GpuSchedulerProperties.

(** ** Slices *)

Lemma is_command_take entry rest :
  0 < header_size (value_header entry) <= Z.of_nat (length (entry :: rest)) →
  is_command (take (Z.to_nat (header_size (value_header entry))) (entry :: rest)).
Proof.
  intros Hs. destruct (Z.to_nat (header_size (value_header entry))) as [|k] eqn:Ek; [lia|].
  cbn [take]. eexists _, _. split; [done|]. cbn [length] in *. rewrite length_take. lia.
Qed.

Section Trace.
Context {S : Type} {handler : AsyncAPIInterface S}.

Lemma DoCommands_loop_trace n : ∀ cmd_data pos num ep s pos' s',
  pos <= num → num - pos <= Z.of_nat (length cmd_data) → 0 <= pos →
  DoCommands_loop n cmd_data pos num kNoError ep s = Done (kNoError, pos', s') →
  pos <= pos' <= num ∧
  ∃ ws, Forall is_command ws ∧ concat ws = take (Z.to_nat (pos' - pos)) cmd_data ∧
    exec ws s = (kNoError, [], s').
Proof.
  assert (∀ pos (cmd_data : list Z) s, ∃ ws, Forall is_command ws ∧
    concat ws = take (Z.to_nat (pos - pos)) cmd_data ∧ exec ws s = (kNoError, [], s)) as Hnil.
  { intros. exists []. by rewrite Z.sub_diag. }
  induction n as [|n IH]; intros cmd_data pos num ep s pos' s' Hle Hlen Hpos; cbn [DoCommands_loop].
  { intros E. assert (pos = pos' ∧ s = s') as [<- <-] by (case_match; by inversion E).
    split; [lia|apply Hnil]. }
  destruct (Z.ltb_spec pos num) as [Hlt|]; cbn [andb].
  2: { intros [= <- <-]. split; [lia|apply Hnil]. }
  rewrite bool_decide_eq_true_2 by done. destruct cmd_data as [|entry rest]; [done|].
  destruct (Z.eqb_spec (header_size (value_header entry)) 0) as [|Hsz]; [done|].
  destruct (Z.ltb_spec num (header_size (value_header entry) + pos)) as [|Hin]; [done|].
  assert (0 < header_size (value_header entry)) as Hp.
  { unfold value_header in *. cbn in *. pose proof (Z.land_nonneg entry kMaxSize).
    change (0 <= kMaxSize) with (0 <= 2097151) in *. lia. }
  set (sz := header_size (value_header entry)) in *. set (w := take (Z.to_nat sz) (entry :: rest)).
  assert (is_command w) as Hw by (apply is_command_take; lia).
  assert (hd 0 w = entry) as Ehd by (unfold w; destruct (Z.to_nat sz) eqn:?; [lia|done]).
  assert (entry :: rest = w ++ drop (Z.to_nat sz) (entry :: rest)) as Esplit
    by (symmetry; apply take_drop).
  pose proof (DoCommand_prefix w (drop (Z.to_nat sz) (entry :: rest)) s Hw) as Edo.
  rewrite <- Esplit, Ehd in Edo. fold sz in Edo. rewrite Edo.
  destruct (do_command w s) as [r s1] eqn:Ew.
  destruct (decide (r = kNoError)) as [->|Hne].
  2: { case_bool_decide; rewrite DoCommands_loop_stop by done; by intros [= ? _ _]. }
  rewrite bool_decide_eq_true_2 by done. intros E.
  apply IH in E as (Hpos' & ws & Hws & Ec & Ex); [|lia|rewrite length_drop; lia|lia].
  split; [lia|]. exists (w :: ws). split; [by constructor|]. split.
  - cbn [concat]. rewrite Ec. unfold w.
    replace (Z.to_nat (pos' - pos)) with (Z.to_nat sz + Z.to_nat (pos' - (pos + sz)))%nat by lia.
    by rewrite take_take_drop.
  - cbn [exec]. by rewrite Ew.
Qed.
End Trace.

(** The next [k] entries from get on. *)
Definition entry_at (p : CommandParser) (j : Z) : Z := default 0 (buffer_ p !! Z.to_nat j).
Definition passed (k : Z) (p : CommandParser) : list Z :=
  cyc (entry_at p) (entry_count_ p) (get_ p) k.

Lemma passed_straight k p :
  parser_ok p → 0 <= k → get_ p + k <= entry_count_ p →
  passed k p = take (Z.to_nat k) (drop (Z.to_nat (get_ p)) (buffer_ p)).
Proof.
  intros [Hg _ Hb] Hk Hend. apply list_eq. intros j. unfold passed, cyc.
  rewrite list_lookup_fmap. destruct (decide (j < Z.to_nat k)%nat) as [Hj|Hj].
  - rewrite lookup_seq_lt, lookup_take_lt, lookup_drop by done. cbn.
    unfold entry_at, adv. decide_tests ltac:(lia).
    replace (Z.to_nat (get_ p + Z.of_nat j)) with (Z.to_nat (get_ p) + j)%nat by lia.
    destruct (lookup_lt_is_Some_2 (buffer_ p) (Z.to_nat (get_ p) + j)) as [x ->]; [lia|done].
  - rewrite lookup_seq_ge, lookup_take_ge by lia. done.
Qed.

Lemma passed_app k j p :
  parser_ok p → 0 <= k → 0 <= j → k + j <= parser_dist p →
  passed (k + j) p = passed k p ++ passed j (moved k p).
Proof.
  intros Hok Hk Hj Hkj. unfold passed. destruct Hok as [Hg Hp Hb].
  apply cyc_app; [done..|]. change (entry_count_ (moved k p)) with (entry_count_ p).
  revert Hkj. unfold parser_dist. destruct (Z.leb_spec (get_ p) (put_ p)); lia.
Qed.

Section Flush.
Context {D : Type} {decoder : GLES2Decoder D} {handler : AsyncAPIInterface (D * GpuScheduler)}.
Context {laws : SchedulerHandler D}.
Implicit Types (d : D) (g : GpuScheduler).

(** [k] entries were passed over and executed. *)
Definition executed (k : Z) (p : CommandParser) d g d' g' : Prop :=
  ∃ ws g1, Forall is_command ws ∧ concat ws = passed k p ∧
    exec ws (d, g) = (kNoError, [], (d', g1)) ∧ g1 ≡ g'.

Lemma ProcessCommands_trace n p d g d' g' p' :
  parser_ok p → ProcessCommands n p (d, g) = Done (kNoError, p', (d', g')) →
  ∃ k, p' = moved k p ∧ 0 <= k <= parser_dist p ∧ executed k p d g d' g'.
Proof.
  intros Hok. pose proof Hok as [Hg Hp Hb]. unfold ProcessCommands, DoCommands.
  set (num := if put_ p <? get_ p then _ else _).
  assert (0 <= num <= parser_dist p ∧ get_ p + num <= entry_count_ p) as [Hnum Hend].
  { subst num. unfold parser_dist. destruct (Z.ltb_spec (put_ p) (get_ p));
      destruct (Z.leb_spec (get_ p) (put_ p)); lia. }
  destruct (DoCommands_loop _ _ _ _ _ _ _) as [[[e pos] s1]|] eqn:El; [|done].
  rewrite Done_bind. intros [= -> <- ->].
  apply DoCommands_loop_trace in El as (Hpos & ws & Hws & Ec & Ex); [|lia|rewrite length_drop; lia|lia].
  rewrite Z.sub_0_r in Ec. exists pos. split_and!; [|lia|lia|].
  - destruct p as [get put buffer count]. cbn in *.
    change (mkCommandParser (if get + pos =? count then 0 else get + pos) put buffer count
            = mkCommandParser (adv count get pos) put buffer count).
    f_equal. unfold adv. clearbody num.
    destruct (Z.eqb_spec (get + pos) count), (Z.ltb_spec (get + pos) count); lia.
  - exists ws, g'. split_and!; [done| |done|done]. rewrite Ec. symmetry. apply passed_straight; [done|lia|lia].
Qed.

Lemma executed_trans k j p d1 g1 d2 g2 d3 g3 :
  parser_ok p → 0 <= k → 0 <= j → k + j <= parser_dist p →
  executed k p d1 g1 d2 g2 → executed j (moved k p) d2 g2 d3 g3 →
  executed (k + j) p d1 g1 d3 g3.
Proof.
  intros Hok Hk Hj Hkj (ws1 & g1' & H1 & E1 & X1 & R1) (ws2 & g2' & H2 & E2 & X2 & R2).
  destruct (exec_similar _ _ _ g1' _ _ _ _ (symmetry R1) X2) as (g3' & X3 & R3).
  exists (ws1 ++ ws2), g3'. split_and!; [by apply Forall_app| | |].
  - by rewrite concat_app, E1, E2, passed_app.
  - by rewrite exec_app, X1, bool_decide_eq_true_2.
  - etransitivity; [symmetry; exact R3|exact R2].
Qed.

Lemma executed_similar k p d g d' g1 g2 :
  g1 ≡ g2 → executed k p d g d' g1 → executed k p d g d' g2.
Proof.
  intros Hg (ws & g3 & Hws & Ec & Ex & R). exists ws, g3.
  split_and!; [done..|]. by transitivity g1.
Qed.

Lemma executed_0 p d g g' : g ≡ g' → executed 0 p d g d g'.
Proof. intros Hg. by exists [], g. Qed.

Lemma executed_start k p d g1 g2 d' g' :
  g1 ≡ g2 → executed k p d g2 d' g' → executed k p d g1 d' g'.
Proof.
  intros Hg (ws & g3 & Hws & Ec & Ex & R).
  destruct (exec_similar _ _ _ g1 _ _ _ _ (symmetry Hg) Ex) as (g4 & Ex4 & R4).
  exists ws, g4. split_and!; [done..|]. etransitivity; [symmetry; exact R4|exact R].
Qed.

(** *** The loop *)

Lemma error_frame g g' : same_frame g g' → error_ (command_buffer_ g') = error_ (command_buffer_ g).
Proof. by intros (_ & _ & _ & _ & _ & _ & _ & _ & ? & _). Qed.

Lemma put_changed_loop_trace fuel : ∀ e0 d g p e d' g',
  serving g p → preemption_flag_ g = None →
  put_changed_loop fuel e0 d g = Done (Some (e, d', g')) → error_ (command_buffer_ g') = kNoError →
  ∃ k, serving g' (moved k p) ∧ 0 <= k <= parser_dist p ∧ executed k p d g d' g'.
Proof.
  induction fuel as [|fuel IH]; intros e0 d g p e d' g' Hs Hf; [done|].
  pose proof (sv_ok _ _ Hs) as Hok. rewrite put_changed_loop_S, (sv_parser _ _ Hs).
  destruct (IsEmpty p) eqn:He.
  { intros [= <- <- <-] _. exists 0. rewrite moved_0 by done. apply Z.eqb_eq in He.
    split; [done|]. split; [|by apply executed_0]. unfold parser_dist.
    destruct Hok. rewrite He, Z.leb_refl. lia. }
  unfold IsPreempted. rewrite Hf. pass_DCHECK ltac:(apply (sv_scheduled _ _ Hs)).
  destruct (ProcessCommands_bounds kParseCommandsSlice p d g Hok) as
    (e1 & k & d1 & g1 & E1 & Hk & Hfr & Hnd & Hpos); [cbv; lia|done|].
  pose proof (serving_frame _ _ _ Hfr Hs) as Hs1.
  assert (preemption_flag_ g1 = None) as Hf1 by by rewrite (proj1 (proj2 (proj2 (proj2 Hfr)))).
  rewrite E1. step_done. rewrite bool_decide_eq_false_2 by done.
  destruct (decide (e1 = kNoError)) as [->|Hne].
  - clear Hk Hpos. destruct (ProcessCommands_trace _ _ _ _ _ _ _ Hok E1) as (k' & -> & Hk & Hex).
    destruct (serving_get g1 p k' Hs1 Hk) as (g2 & -> & Hs2 & Hg2 & Ef2 & Ee2).
    rewrite Done_bind. cbv beta. cbn [IsError]. rewrite (sv_scheduled _ _ Hs2). cbn [negb].
    intros El Hne. destruct (moved_ok k' p Hok Hk) as [Hok' Ed].
    destruct (IH kNoError d1 g2 (moved k' p) e d' g' Hs2) as (j & Hs' & Hj & Hex');
      [by rewrite Ef2|exact El|done|].
    exists (k' + j). rewrite moved_moved in Hs' by (done || lia).
    split; [done|]. split; [lia|]. eapply executed_trans; [done|lia|lia|lia| |exact Hex'].
    by eapply executed_similar.
  - destruct (serving_get g1 p k Hs1 Hk) as (g2 & -> & Hs2 & _).
    rewrite Done_bind. cbv beta.
    assert (IsError e1 = true) as -> by (by destruct e1). rewrite (sv_decoder _ _ Hs2), DCHECK_true_bind.
    intros [= <- <- <-] Hno. exfalso. revert Hno. by apply SetParseError_error.
Qed.

Lemma parser_dist_bounds p : parser_ok p → 0 <= parser_dist p < entry_count_ p.
Proof. intros [Hg Hp _]. unfold parser_dist. destruct (Z.leb_spec (get_ p) (put_ p)); lia. Qed.

Lemma moved_inj p j k :
  parser_ok p → 0 <= j <= parser_dist p → 0 <= k <= parser_dist p →
  moved j p = moved k p → j = k.
Proof.
  intros [Hg Hp Hb] Hj Hk E. apply (f_equal get_) in E. revert E Hj Hk.
  change (adv (entry_count_ p) (get_ p) j = adv (entry_count_ p) (get_ p) k →
    0 <= j <= parser_dist p → 0 <= k <= parser_dist p → j = k).
  unfold parser_dist, adv. destruct (Z.leb_spec (get_ p) (put_ p)),
    (Z.ltb_spec (get_ p + j) (entry_count_ p)), (Z.ltb_spec (get_ p + k) (entry_count_ p)); lia.
Qed.

(** A [Flush] that leaves no error executed everything up to the new put offset. *)
Lemma Flush_trace fuel put d g p d' g' :
  serving g p → preemption_flag_ g = None → error_ (command_buffer_ g) = kNoError →
  0 <= put < entry_count_ p → (Z.to_nat (entry_count_ p) <= fuel)%nat →
  service_Flush fuel put (d, g) = Done (Some (d', g')) → error_ (command_buffer_ g') = kNoError →
  let p' := set_put put p in
  ∃ d1, d' = EndDecoding d1 ∧ serving g' (moved (parser_dist p') p') ∧
    executed (parser_dist p') p' (BeginDecoding d) g d1 g'.
Proof.
  intros Hs Hf He Hput Hfuel Efl Hno p'.
  destruct (Flush_served fuel put d g p Hs Hput Hfuel) as (d2 & g2 & k2 & Efl' & Hserved).
  rewrite Efl in Efl'. injection Efl' as <- <-. rewrite bool_decide_eq_true_2 in Hserved by done.
  destruct (Flush_loop fuel put d g p Hs He Hput) as (g3 & E3 & Hs3 & Hg3 & Ef3).
  rewrite E3 in Efl. clear E3.
  destruct (put_changed_loop fuel kNoError (BeginDecoding d) g3) as [[[[e d1] g1]|]|] eqn:El; try done.
  rewrite Done_bind in Efl. injection Efl as Eend.
  destruct (put_changed_loop_spec fuel kNoError (BeginDecoding d) g3 p' Hs3) as
    (e' & d1' & g1' & k1 & El' & Hs1 & _).
  { pose proof (parser_dist_bounds _ (sv_ok _ _ Hs3)) as Hd.
    change (0 <= parser_dist p' < entry_count_ p) in Hd. lia. }
  rewrite El in El'. injection El' as <- <- <-.
  unfold put_changed_end in Eend. rewrite (sv_decoder _ _ Hs1) in Eend. injection Eend as <- Eg.
  destruct (negb (IsError e) && WasContextLost d1).
  { exfalso. revert Hno. rewrite <- Eg. by apply SetParseError_error. }
  subst g1. destruct (put_changed_loop_trace _ _ _ _ _ _ _ _ Hs3 ltac:(congruence) El Hno)
    as (k & Hs' & Hk & Hex).
  destruct Hserved as (Hs2 & Hk2 & Hdist & _). destruct (Hdist Hf) as [_ [->|]]; [|done].
  assert (k = parser_dist p') as ->.
  { apply (moved_inj p'); [apply Hs3|done|done|].
    apply (inj Some). transitivity (parser_ g'); [symmetry|]; [apply Hs'|apply Hs2]. }
  exists d1. split; [done|]. split; [done|]. by apply (executed_start _ _ _ g g3).
Qed.
End Flush.
