(* ===== verification/EndToEnd.v ===== *)
(** * From the client to the decoder

    The client's helper and the service in one process, as the tests of the command
    buffer run them: [Flush] of the service is called directly, with [PutChanged] as its
    callback, and the decoder is that of the common commands.  The service keeps the laws
    of [CommandBuffer], so what is proved of the client holds with it; and the decoder
    executes the commands that the client issued.

    The ring buffer and the other buffers exist for the whole of a run: the functions
    that make and free them fail or do nothing here. *)

From stdpp Require Import gmap.
From S2P Require Import CommandBufferHelper CommandBufferClient.
From S2P Require Import Prelude CommandBufferCommon CommandFormat CommandParser CommonDecoder.
From S2P Require Import CommandBufferInterface CommandBufferService GpuSchedulerProperties.
From S2P Require Import ServiceTrace.

(** ** The process

    [ip_memory] is the memory of the ring buffer, and [ip_taken] the entries that get
    has passed over. *)
Record InProcess : Type := mkInProcess {
  ip_decoder : CommonDecoder;
  ip_scheduler : GpuScheduler;
  ip_memory : Z → Z;
  ip_taken : list Z;
  ip_clock : Z
}.
#[export] Instance eta_InProcess : Eta InProcess := λ b,
  mkInProcess (ip_decoder b) (ip_scheduler b) (ip_memory b) (ip_taken b) (ip_clock b).

Definition ip_service (b : InProcess) : CommandBufferService := command_buffer_ (ip_scheduler b).
Definition ip_parser (b : InProcess) : CommandParser :=
  default init_CommandParser (parser_ (ip_scheduler b)).
Definition with_service (s : CommandBufferService) (b : InProcess) : InProcess :=
  b <| ip_scheduler := (ip_scheduler b) <| command_buffer_ := s |> |>.

Definition ip_GetLastState (b : InProcess) : State * InProcess :=
  let '(state, s) := service_GetLastState (ip_service b) in (state, with_service s b).
Definition ip_GetLastToken (b : InProcess) : Z * InProcess :=
  let '(token, s) := service_GetLastToken (ip_service b) in (token, with_service s b).

(** The number of entries from one get offset to a later one. *)
Definition get_dist (n get get' : Z) : Z := if get <=? get' then get' - get else get' - get + n.

(** A put offset of the number of entries would not return; no client sends it. *)
Definition ip_Flush (put : Z) (b : InProcess) : InProcess :=
  let p := ip_parser b in
  if put =? entry_count_ p then b
  else
    match service_Flush (S (Z.to_nat (entry_count_ p))) put (ip_decoder b, ip_scheduler b) with
    | Done (Some (d, g)) =>
        let p' := default init_CommandParser (parser_ g) in
        b <| ip_decoder := d |> <| ip_scheduler := g |>
          <| ip_taken := ip_taken b ++ passed (get_dist (entry_count_ p) (get_ p) (get_ p')) p |>
    | _ => b
    end.

Definition ip_WaitForTokenInRange (start end' : Z) (b : InProcess) : InProcess :=
  match service_WaitForTokenInRange start end' (ip_service b) with
  | Done s => with_service s b
  | DcheckFailed => b
  end.
Definition ip_WaitForGetOffsetInRange (start end' : Z) (b : InProcess) : InProcess :=
  match service_WaitForGetOffsetInRange start end' (ip_service b) with
  | Done s => with_service s b
  | DcheckFailed => b
  end.

(** The array that the parser reads, and the memory that the client writes. *)
Definition ring_entries (mem : Z → Z) (n : Z) : list Z := cyc mem n 0 n.

Definition ip_store (p : Z) (w : list Z) (b : InProcess) : InProcess :=
  let mem := update p w (ip_memory b) in
  let ring := (ip_parser b) <| buffer_ := ring_entries mem (entry_count_ (ip_parser b)) |> in
  b <| ip_memory := mem |> <| ip_scheduler := (ip_scheduler b) <| parser_ := Some ring |> |>.

Definition ip_view (b : InProcess) : View :=
  mkView (entry_count_ (ip_parser b)) (ip_memory b) (get_ (ip_parser b)) (put_ (ip_parser b))
    (ip_taken b) (error_ (ip_service b)).

(** ** What holds between calls

    [d0] and [g0] are the decoder and the scheduler at the start.  Without an error the
    ring is drained, and what was taken out of it was executed from the start on. *)
Record alive (d0 : CommonDecoder) (g0 : GpuScheduler) (b : InProcess) : Prop := {
  al_serving : serving (ip_scheduler b) (ip_parser b);
  al_memory : buffer_ (ip_parser b) = ring_entries (ip_memory b) (entry_count_ (ip_parser b));
  al_flag : preemption_flag_ (ip_scheduler b) = None;
  al_drained : error_ (ip_service b) = kNoError → get_ (ip_parser b) = put_ (ip_parser b);
  al_trace : error_ (ip_service b) = kNoError →
    ∃ ws g1, Forall is_command ws ∧ concat ws = ip_taken b ∧
      exec ws (d0, g0) = (kNoError, [], (ip_decoder b, g1)) ∧ g1 ≡ ip_scheduler b
}.

Section Process.
Context (d0 : CommonDecoder) (g0 : GpuScheduler).
Implicit Types b : InProcess.

Lemma alive_valid b : alive d0 g0 b → valid_view (ip_view b).
Proof. intros []. destruct (sv_ok _ _ al_serving0). by split. Qed.

(** A change of the service that no command looks at. *)
Lemma alive_service s b :
  alive d0 g0 b →
  num_entries_ s = num_entries_ (ip_service b) → get_offset_ s = get_offset_ (ip_service b) →
  put_offset_ s = put_offset_ (ip_service b) → ring_buffer_id_ s = ring_buffer_id_ (ip_service b) →
  error_ s = error_ (ip_service b) → token_ s = token_ (ip_service b) →
  transfer_buffer_manager_ s = transfer_buffer_manager_ (ip_service b) →
  context_lost_reason_ s = context_lost_reason_ (ip_service b) →
  alive d0 g0 (with_service s b) ∧ ip_view (with_service s b) = ip_view b.
Proof.
  intros [] En Eg Ep Er Ee Et Em Ec. destruct al_serving0. split.
  - split; try done.
    + change (ip_parser (with_service s b)) with (ip_parser b). unfold ip_service in *.
      split; try done; cbn; congruence.
    + intros Hno. apply al_drained0. unfold ip_service in *. cbn in *. congruence.
    + intros Hno. destruct al_trace0 as (ws & g1 & H1 & H2 & H3 & H4).
      { unfold ip_service in *. cbn in *. congruence. }
      exists ws, g1. split_and!; try done. destruct H4. unfold ip_service in *.
      split; cbn; congruence.
  - unfold ip_view. f_equal. exact Ee.
Qed.

Lemma alive_wait start end' b :
  alive d0 g0 b → ip_WaitForGetOffsetInRange start end' b = b ∧ ip_WaitForTokenInRange start end' b = b.
Proof.
  intros _. unfold ip_WaitForGetOffsetInRange, ip_WaitForTokenInRange,
    service_WaitForGetOffsetInRange, service_WaitForTokenInRange.
  split; destruct (_ || _); try done; by destruct b as [? [] ? ? ?].
Qed.

Lemma ring_entry mem n j : 0 <= j < n → ring_entries mem n !! Z.to_nat j = Some (mem j).
Proof.
  intros Hj. unfold ring_entries, cyc. rewrite list_lookup_fmap, lookup_seq_lt by lia. cbn.
  f_equal. f_equal. unfold adv. decide_tests ltac:(lia). lia.
Qed.

Lemma passed_memory k p mem :
  parser_ok p → buffer_ p = ring_entries mem (entry_count_ p) → 0 <= k <= entry_count_ p →
  passed k p = cyc mem (entry_count_ p) (get_ p) k.
Proof.
  intros [Hg _ _] Hb Hk. apply cyc_ext. intros j Hj.
  assert (0 <= adv (entry_count_ p) (get_ p) j < entry_count_ p) as Hadv.
  { unfold adv. destruct (Z.ltb_spec (get_ p + j) (entry_count_ p)); lia. }
  unfold entry_at. by rewrite Hb, ring_entry.
Qed.

Lemma get_dist_moved k p :
  parser_ok p → 0 <= k <= parser_dist p →
  get_dist (entry_count_ p) (get_ p) (get_ (moved k p)) = k.
Proof.
  intros [Hg Hp _] Hk. revert Hk. unfold get_dist.
  change (get_ (moved k p)) with (adv (entry_count_ p) (get_ p) k). unfold parser_dist, adv.
  destruct (Z.leb_spec (get_ p) (put_ p)), (Z.ltb_spec (get_ p + k) (entry_count_ p));
    match goal with |- context [?x <=? ?y] => destruct (Z.leb_spec x y) end; lia.
Qed.

Lemma alive_store pos w b :
  alive d0 g0 b → alive d0 g0 (ip_store pos w b) ∧
  ip_view (ip_store pos w b) = (ip_view b) <| v_mem := update pos w (v_mem (ip_view b)) |>.
Proof.
  intros []. split; [|done]. split; try done.
  - destruct al_serving0. destruct sv_ok. split; try done.
    split; try done. symmetry. etransitivity; [apply (f_equal Z.of_nat), length_cyc|].
    cbn. unfold ip_parser in *. lia.
  - intros Hno. destruct (al_trace0 Hno) as (ws & g1 & ? & ? & ? & R). exists ws, g1.
    split_and!; try done. by destruct R.
Qed.

(** [b] after its decoder and scheduler became [d'] and [g']. *)
Definition after b (d' : CommonDecoder) (g' : GpuScheduler) : InProcess :=
  b <| ip_decoder := d' |> <| ip_scheduler := g' |>
    <| ip_taken := ip_taken b ++ passed (get_dist (entry_count_ (ip_parser b))
         (get_ (ip_parser b)) (get_ (default init_CommandParser (parser_ g')))) (ip_parser b) |>.

Lemma after_taken b put k d' g' :
  let p := set_put put (ip_parser b) in
  parser_ok p → 0 <= k <= parser_dist p → serving g' (moved k p) →
  ip_parser (after b d' g') = moved k p ∧
  ip_taken (after b d' g') = ip_taken b ++ passed k (ip_parser b).
Proof.
  intros p Hok Hk Hs. pose proof (get_dist_moved k p Hok Hk) as E.
  change (entry_count_ p) with (entry_count_ (ip_parser b)) in E.
  change (get_ p) with (get_ (ip_parser b)) in E.
  unfold ip_parser at 1. change (ip_scheduler (after b d' g')) with g'.
  unfold after. rewrite (sv_parser _ _ Hs). cbn [default ip_taken set_field]. split; [done|].
  change (ip_taken b ++ passed (get_dist (entry_count_ (ip_parser b)) (get_ (ip_parser b))
    (get_ (moved k p))) (ip_parser b) = ip_taken b ++ passed k (ip_parser b)).
  by rewrite E.
Qed.

Lemma alive_after b put k d' g' :
  let p := set_put put (ip_parser b) in
  alive d0 g0 b → parser_ok p →
  0 <= k <= parser_dist p → serving g' (moved k p) → preemption_flag_ g' = None →
  (error_ (command_buffer_ g') = kNoError →
     error_ (ip_service b) = kNoError ∧ k = parser_dist p ∧
     executed k p (ip_decoder b) (ip_scheduler b) d' g') →
  alive d0 g0 (after b d' g').
Proof.
  intros p [] Hok Hk Hs Hf Hex. destruct (after_taken b put k d' g' Hok Hk Hs) as [Ep Et].
  split.
  - by rewrite Ep.
  - by rewrite Ep.
  - done.
  - intros [_ [-> _]]%Hex. rewrite Ep. pose proof Hok as [Hg Hp _].
    change (adv (entry_count_ p) (get_ p) (parser_dist p) = put_ p). unfold adv, parser_dist.
    destruct (Z.leb_spec (get_ p) (put_ p));
      match goal with |- context [?x <? ?y] => destruct (Z.ltb_spec x y) end; lia.
  - intros (He & _ & ws2 & g2 & H2 & E2 & X2 & R2)%Hex.
    destruct (al_trace0 He) as (ws1 & g1 & H1 & E1 & X1 & R1).
    destruct (exec_similar _ _ _ g1 _ _ _ _ (symmetry R1) X2) as (g3 & X3 & R3).
    exists (ws1 ++ ws2), g3. split; [by apply Forall_app|]. split; [by rewrite concat_app, E1, E2, Et|].
    split; [by rewrite exec_app, X1, bool_decide_eq_true_2|].
    etransitivity; [symmetry; exact R3|exact R2].
Qed.

Lemma progress_after b put k d' g' :
  let p := set_put put (ip_parser b) in
  alive d0 g0 b → parser_ok p →
  0 <= k <= parser_dist p → serving g' (moved k p) →
  (error_ (ip_service b) ≠ kNoError → error_ (command_buffer_ g') ≠ kNoError) →
  progress ((ip_view b) <| v_put := put |>) (ip_view (after b d' g')).
Proof.
  intros p [] Hok Hk Hs He. destruct (after_taken b put k d' g' Hok Hk Hs) as [Ep Et].
  unfold ip_view at 2. rewrite Ep, Et. exists k. split; [exact Hk|].
  split; [done|]. split; [done|]. split; [done|]. split; [done|]. split; [|done].
  cbn. f_equal. apply passed_memory; [apply al_serving0|done|].
  pose proof (parser_dist_bounds p Hok) as Hd. change (entry_count_ (ip_parser b)) with (entry_count_ p). lia.
Qed.

Lemma Flush_alive put b :
  alive d0 g0 b → 0 <= put < entry_count_ (ip_parser b) →
  alive d0 g0 (ip_Flush put b) ∧
  progress ((ip_view b) <| v_put := put |>) (ip_view (ip_Flush put b)).
Proof.
  intros Ha Hput. pose proof (al_serving _ _ _ Ha) as Hs.
  unfold ip_Flush. rewrite (proj2 (Z.eqb_neq _ _)) by lia.
  set (fuel := S (Z.to_nat (entry_count_ (ip_parser b)))).
  assert (Z.to_nat (entry_count_ (ip_parser b)) <= fuel)%nat as Hfuel by (subst fuel; lia).
  clearbody fuel. set (p := set_put put (ip_parser b)).
  destruct (Flush_served fuel put (ip_decoder b) (ip_scheduler b) (ip_parser b) Hs Hput Hfuel)
    as (d' & g' & k & E & Hserved). fold p in Hserved. rewrite E. fold (after b d' g').
  assert (parser_ok p) as Hok by (destruct (sv_ok _ _ Hs); by split).
  pose proof (parser_dist_bounds p Hok) as Hd.
  assert (serving g' (moved k p) ∧ 0 <= k <= parser_dist p ∧ preemption_flag_ g' = None ∧
    (error_ (ip_service b) ≠ kNoError → error_ (command_buffer_ g') ≠ kNoError) ∧
    (error_ (command_buffer_ g') = kNoError →
      error_ (ip_service b) = kNoError ∧ k = parser_dist p ∧
      executed k p (ip_decoder b) (ip_scheduler b) d' g')) as (Hs' & Hk & Hf & He & Hex).
  { case_bool_decide as Hno.
    - destruct Hserved as (Hs' & Hk & Hflag & He). destruct (Hflag (al_flag _ _ _ Ha)) as [Hf Hdist].
      split; [done|]. split; [done|]. split; [done|]. split; [done|]. intros Hno'.
      split; [done|]. assert (k = parser_dist p) as -> by (by destruct Hdist).
      split; [done|].
      destruct (Flush_trace fuel put _ _ _ d' g' Hs (al_flag _ _ _ Ha) Hno Hput Hfuel E Hno')
        as (d1 & -> & _ & Hex). exact Hex.
    - destruct Hserved as (-> & Hs' & _ & Ee & Ef). rewrite moved_0, Ee, Ef by done.
      split; [done|]. split; [lia|]. split; [apply Ha|]. by split. }
  split; [by apply (alive_after b put k)|by apply (progress_after b put k)].
Qed.

(** Out of range there is an error, or the call is not made. *)
Lemma Flush_out_alive put b :
  alive d0 g0 b → ¬ 0 <= put < entry_count_ (ip_parser b) → alive d0 g0 (ip_Flush put b).
Proof.
  intros Ha Hout. pose proof (al_serving _ _ _ Ha) as Hs. unfold ip_Flush.
  destruct (Z.eqb_spec put (entry_count_ (ip_parser b))); [done|].
  unfold service_Flush, set_put_offset. cbn [fst snd]. rewrite (sv_entries _ _ Hs).
  assert ((put <? 0) || (entry_count_ (ip_parser b) <? put) = true) as ->.
  { apply orb_true_iff. rewrite !Z.ltb_lt. lia. }
  set (g' := (ip_scheduler b) <| command_buffer_ := _ |>). fold (after b (ip_decoder b) g').
  assert (set_put (put_ (ip_parser b)) (ip_parser b) = ip_parser b) as E
    by (by destruct (ip_parser b)).
  apply (alive_after b (put_ (ip_parser b)) 0); rewrite ?E; [done|apply (sv_ok _ _ Hs)|..].
  - pose proof (parser_dist_bounds _ (sv_ok _ _ Hs)) as Hd. lia.
  - rewrite moved_0 by apply (sv_ok _ _ Hs). by destruct Hs.
  - apply Ha.
  - done.
Qed.

(** [CreateTransferBuffer] without memory. *)
Definition ip_CreateTransferBuffer (b : InProcess) : Z * InProcess :=
  let '(id, s) := service_CreateTransferBuffer None (ip_service b) in (id, with_service s b).

Lemma Create_alive b : alive d0 g0 b → alive d0 g0 (ip_CreateTransferBuffer b).2.
Proof.
  intros []. unfold ip_CreateTransferBuffer, service_CreateTransferBuffer, out_of_memory. cbn [snd].
  case_bool_decide as Hno.
  - split; try done. by destruct al_serving0.
  - split; try done. by destruct al_serving0.
Qed.
End Process.

(** ** The process as a command buffer *)

Definition Process (d0 : CommonDecoder) (g0 : GpuScheduler) : Type := { b : InProcess | alive d0 g0 b }.

Section Instance_.
Context {d0 : CommonDecoder} {g0 : GpuScheduler}.

Lemma GetLastState_alive b :
  alive d0 g0 b → alive d0 g0 (ip_GetLastState b).2 ∧ ip_view (ip_GetLastState b).2 = ip_view b.
Proof. intros Ha. by apply alive_service. Qed.

Lemma GetLastToken_alive b :
  alive d0 g0 b → alive d0 g0 (ip_GetLastToken b).2 ∧ ip_view (ip_GetLastToken b).2 = ip_view b.
Proof. intros Ha. by apply alive_service. Qed.

Lemma Wait_alive start end' b :
  alive d0 g0 b → alive d0 g0 (ip_WaitForGetOffsetInRange start end' b) ∧
    alive d0 g0 (ip_WaitForTokenInRange start end' b).
Proof. intros Ha. by destruct (alive_wait d0 g0 start end' b Ha) as [-> ->]. Qed.

Lemma Flush_any_alive put b : alive d0 g0 b → alive d0 g0 (ip_Flush put b).
Proof.
  intros Ha. destruct (decide (0 <= put < entry_count_ (ip_parser b))).
  - by apply Flush_alive.
  - by apply Flush_out_alive.
Qed.

Definition ip_tick (b : InProcess) : InProcess := b <| ip_clock := ip_clock b + 1 |>.

Lemma tick_alive b : alive d0 g0 b → alive d0 g0 (ip_tick b).
Proof. by intros []. Qed.

Definition lift (f : InProcess → InProcess) (Hf : ∀ b, alive d0 g0 b → alive d0 g0 (f b))
    (b : Process d0 g0) : Process d0 g0 := exist _ (f (`b)) (Hf _ (proj2_sig b)).

#[export] Instance process_buffer : CommandBuffer (Process d0 g0) := {
  GetLastState b := ((ip_GetLastState (`b)).1,
    lift (λ b, (ip_GetLastState b).2) (λ b H, proj1 (GetLastState_alive b H)) b);
  GetLastToken b := ((ip_GetLastToken (`b)).1,
    lift (λ b, (ip_GetLastToken b).2) (λ b H, proj1 (GetLastToken_alive b H)) b);
  Flush put := lift (ip_Flush put) (Flush_any_alive put);
  OrderingBarrier put := lift (ip_Flush put) (Flush_any_alive put);
  WaitForTokenInRange start end' :=
    lift (ip_WaitForTokenInRange start end') (λ b H, proj2 (Wait_alive start end' b H));
  WaitForGetOffsetInRange start end' :=
    lift (ip_WaitForGetOffsetInRange start end') (λ b H, proj1 (Wait_alive start end' b H));
  SetGetBuffer _ b := b;
  CreateTransferBuffer _ b := ((ip_CreateTransferBuffer (`b)).1,
    lift (λ b, (ip_CreateTransferBuffer b).2) (Create_alive d0 g0) b);
  DestroyTransferBuffer _ b := b;
  store_entries _ p w := lift (ip_store p w) (λ b H, proj1 (alive_store d0 g0 p w b H));
  TimeTicks_Now b := (ip_clock (`b), lift ip_tick tick_alive b)
}.

#[export] Instance process_laws : CommandBufferLaws (Process d0 g0).
Proof.
  refine {| view := λ b : Process d0 g0, ip_view (`b) |}; intros; cbn [GetLastState GetLastToken
    Flush OrderingBarrier WaitForTokenInRange WaitForGetOffsetInRange store_entries TimeTicks_Now
    process_buffer lift proj1_sig fst snd];
    try pose proof (proj2_sig b) as Ha.
  - rewrite (proj2 (GetLastState_alive _ Ha)). split; [by apply progress_refl|]. split; [|done].
    apply (sv_get _ _ (al_serving _ _ _ Ha)).
  - rewrite (proj2 (GetLastToken_alive _ Ha)). by apply progress_refl.
  - by apply (Flush_alive d0 g0).
  - by apply (Flush_alive d0 g0).
  - rewrite (proj2 (alive_wait d0 g0 start end' _ Ha)). by apply progress_refl.
  - rewrite (proj1 (alive_wait d0 g0 start end' _ Ha)). split; [by apply progress_refl|].
    intros (k & Hk & Hr). destruct (decide (error_ (ip_service (`b)) = kNoError)) as [Hno|]; [|by left].
    right. pose proof (al_drained _ _ _ Ha Hno) as Hd.
    assert (v_dist (ip_view (`b)) = 0) as E0.
    { unfold v_dist. cbn. rewrite Hd, Z.leb_refl. lia. }
    rewrite E0 in Hk. replace k with 0 in Hr by lia.
    by rewrite adv_0 in Hr by apply (alive_valid d0 g0 _ Ha).
  - by apply (alive_store d0 g0).
  - by apply progress_refl.
Defined.
End Instance_.

(** ** The commands are executed *)

(** Headers split a list of entries in one way. *)
Lemma commands_unique ws1 : ∀ ws2,
  Forall is_command ws1 → Forall is_command ws2 → concat ws1 = concat ws2 → ws1 = ws2.
Proof.
  induction ws1 as [|w1 ws1 IH]; intros [|w2 ws2] H1 H2 E; [done|..].
  - apply Forall_cons_1 in H2 as [(x & args & -> & _) _]. done.
  - apply Forall_cons_1 in H1 as [(x & args & -> & _) _]. done.
  - apply Forall_cons_1 in H1 as [Hw1 H1], H2 as [Hw2 H2].
    apply is_command_size in Hw1 as [S1 N1], Hw2 as [S2 N2]. cbn [concat] in E.
    assert (hd 0 w1 = hd 0 w2) as Eh.
    { destruct w1, w2; [done..|]. by injection E. }
    rewrite Eh in S1. apply app_inj_1 in E as [-> E]; [|lia]. f_equal. by apply IH.
Qed.

Lemma noop_command w (s : CommonDecoder * GpuScheduler) :
  is_noop w → is_command w ∧ do_command w s = (kNoError, s).
Proof.
  intros [Hlen (args & E)].
  assert (value_header (hd 0 w) = mkCommandHeader (Z.of_nat (length w)) 0) as Eh.
  { rewrite E at 1. cbn [hd]. apply value_entry_header; cbn; [|lia].
    change kMaxSize with 2097151 in Hlen. lia. }
  split.
  - rewrite E in Eh |- *. cbn [hd] in Eh. eexists _, args. split; [done|]. by rewrite Eh, <- E.
  - apply do_command_common. rewrite Eh. cbn [header_command header_size].
    assert (1 <= Z.of_nat (length w)) by (rewrite E; cbn [length]; lia).
    unfold DoCommonCommand. cbn [command_info kArgFlags sizeof_cmd].
    change (4 / 4 - 1) with 0. by rewrite (proj2 (Z.leb_le _ _)) by lia.
Qed.

Lemma noops_exec ws (s : CommonDecoder * GpuScheduler) :
  Forall is_noop ws → Forall is_command ws ∧ exec ws s = (kNoError, [], s).
Proof.
  induction 1 as [|w ws Hw Hws IH]; [done|]. destruct (noop_command w s Hw) as [Hc E].
  destruct IH as [Hcs Ex]. split; [by constructor|]. cbn [exec]. by rewrite E.
Qed.

(** No-ops between commands change nothing. *)
Lemma interleaved_exec ws l :
  interleaved ws l → Forall is_command ws →
  ∃ all, Forall is_command all ∧ concat all = l ∧
    ∀ s s' : CommonDecoder * GpuScheduler,
      exec all s = (kNoError, [], s') → exec ws s = (kNoError, [], s').
Proof.
  induction 1 as [l (nops & -> & Hn)|w ws l l' (nops & -> & Hn) Hl IH]; intros Hc.
  - exists nops. split; [apply (noops_exec nops (∅, init_GpuScheduler (init_CommandBufferService
      init_TransferBufferManager) true) Hn)|]. split; [done|].
    intros s s'. rewrite (proj2 (noops_exec nops s Hn)). done.
  - apply Forall_cons_1 in Hc as [Hw Hc]. destruct (IH Hc) as (all & Ha & <- & Hex).
    exists (nops ++ w :: all). split.
    { apply Forall_app. split; [|by constructor]. apply (noops_exec nops (∅, init_GpuScheduler
        (init_CommandBufferService init_TransferBufferManager) true) Hn). }
    split; [by rewrite concat_app|]. intros s s'.
    rewrite exec_app, (proj2 (noops_exec nops s Hn)), bool_decide_eq_true_2 by done.
    cbn [exec]. destruct (do_command w s) as [e s1]. destruct e; try done. apply Hex.
Qed.

(** What the client issues are commands. *)
Definition op_is_command (op : client_op) : Prop :=
  match op with OpIssue w => is_command w | _ => True end.

Lemma token_is_command t : is_command (token_command t).
Proof.
  eexists _, _. split; [done|]. cbn [length].
  by rewrite (proj1 (value_entry_header (mkCommandHeader 2 (id_value kSetToken)) ltac:(cbn; lia) ltac:(cbn; lia))).
Qed.

Lemma commands_are_commands ops : ∀ t, Forall op_is_command ops → Forall is_command (commands t ops).
Proof.
  induction ops as [|op ops IH]; intros t Hops; [done|].
  apply Forall_cons_1 in Hops as [Hop Hops].
  destruct op; cbn [commands]; try (by apply IH); constructor; auto using token_is_command.
Qed.

(** [C1] From the client to the decoder.  The client starts with an empty ring, issues
    commands and tokens between flushes, barriers and waits in any order, and ends with a
    [Finish] that succeeds without an error: then the decoder is in the state of
    executing exactly the issued commands, each once, in order, from the start, although
    they went through the ring buffer with its wraps, no-ops and partial flushes. *)
Theorem issued_commands_are_executed {d0 : CommonDecoder} {g0 : GpuScheduler} ops
    (h h1 h2 : CommandBufferHelper) (b b1 b2 : Process d0 g0) :
  inv h (view b) → sent h (view b) = [] →
  Forall (op_fits (total_entry_count_ h)) ops → Forall op_is_command ops →
  0 <= CommandBufferHelper.token_ h →
  CommandBufferHelper.token_ h + Z.of_nat (length ops) <= 2147483647 →
  run_ops ops h b = Done (h1, b1) → Finish h1 b1 = Done (true, h2, b2) →
  error_ (ip_service (`b2)) = kNoError →
  ∃ g, exec (commands (CommandBufferHelper.token_ h) ops) (d0, g0)
      = (kNoError, [], (ip_decoder (`b2), g)) ∧ g ≡ ip_scheduler (`b2).
Proof.
  intros Hinv Hsent Hfit Hcmd Ht0 Ht Erun Efin Hno.
  destruct (run_ops_effect ops h b Hinv Hfit Ht0 Ht) as [(h1' & b1' & E1 & Heff)|[E1 _]];
    rewrite E1 in Erun; [|done]. injection Erun as -> ->.
  destruct Heff as (Hinv1 & _ & (ws & l & Es & Hl & _ & Hws) & _). rewrite Hsent, app_nil_l in Es.
  destruct (Finish_spec h1 b1 Hinv1) as (ok & h2' & b2' & E2 & (_ & _ & _ & He) & _ & Hdone & _).
  rewrite E2 in Efin. injection Efin as -> -> ->.
  assert (v_error (view b1) = kNoError) as Hno1.
  { destruct (decide (v_error (view b1) = kNoError)) as [|Hne]; [done|]. by destruct (He Hne). }
  rewrite (Hws Hno1) in Hl. specialize (Hdone eq_refl). rewrite Es in Hdone.
  destruct (al_trace _ _ _ (proj2_sig b2) Hno) as (all & g & Hall & Ec & Ex & Hg).
  change (ip_taken (`b2) = l) in Hdone. rewrite Hdone in Ec.
  destruct (interleaved_exec _ _ Hl (commands_are_commands ops _ Hcmd)) as (all' & Hall' & Ec' & Hex).
  assert (all = all') as -> by (apply commands_unique; congruence).
  exists g. split; [by apply Hex|done].
Qed.

(** *** A run on eight entries *)

Definition example_start : InProcess :=
  mkInProcess ∅ (scheduler_on (repeat 0 8)) (λ _, 0) [] 0.

Lemma example_alive : alive ∅ (scheduler_on (repeat 0 8)) example_start.
Proof.
  split; [by apply serving_on|done|done|done|].
  intros _. by exists [], (scheduler_on (repeat 0 8)).
Qed.

Definition example_process : Process ∅ (scheduler_on (repeat 0 8)) := exist _ _ example_alive.

Definition example_ops : list client_op :=
  [OpIssue [4194307; 3; 4]; OpFlush; OpIssue [4194307; 5; 2]; OpInsertToken; OpIssue [4194307; 6; 1]].

(** The run, with the put offset and what the end shows. *)
Definition example_run : outcome (Z * bool * Error * CommonDecoder * Z) :=
  hb ← run_ops example_ops Lazy.h8 example_process;
  x ← Finish hb.1 hb.2;
  let '(ok, h, b) := x : bool * CommandBufferHelper * Process _ _ in
  Done (CommandBufferHelper.put_ h, ok, error_ (ip_service (`b)), ip_decoder (`b),
    token_ (ip_service (`b))).

Example example_run_done :
  example_run = Done (3, true, kNoError,
    {[3 := mkBucket 4 [0; 0; 0; 0]; 5 := mkBucket 2 [0; 0]; 6 := mkBucket 1 [0]]}, 1).
Proof. vm_compute. reflexivity. Qed.

Lemma example_inv : inv Lazy.h8 (view example_process) ∧ sent Lazy.h8 (view example_process) = [].
Proof.
  destruct (new_ring_inv Lazy.h8 (view example_process)) as [HI Es]; try done.
Qed.

Lemma example_fits : Forall (op_fits 8) example_ops ∧ Forall op_is_command example_ops.
Proof.
  split; repeat (apply Forall_cons_2; [cbn; first [lia|done|by eexists _, _]|]); apply Forall_nil_2.
Qed.

Lemma issued_commands_are_executed_witness :
  ∃ h1 h2 (b1 b2 : Process _ _), run_ops example_ops Lazy.h8 example_process = Done (h1, b1) ∧
    Finish h1 b1 = Done (true, h2, b2) ∧
    ∃ g, exec (commands 0 example_ops) (∅, scheduler_on (repeat 0 8))
      = (kNoError, [], (ip_decoder (`b2), g)) ∧ g ≡ ip_scheduler (`b2).
Proof.
  pose proof example_run_done as E. unfold example_run in E.
  destruct (run_ops example_ops Lazy.h8 example_process) as [[h1 b1]|] eqn:E1; [|done].
  rewrite Done_bind in E. cbn [fst snd] in E.
  destruct (Finish h1 b1) as [[[ok h2] b2]|] eqn:E2; [|done]. rewrite Done_bind in E.
  injection E as _ -> Hno _ _. exists h1, h2, b1, b2. split; [done|]. split; [done|].
  apply (issued_commands_are_executed example_ops Lazy.h8 h1 h2 example_process b1 b2
    (proj1 example_inv) (proj2 example_inv)); [| |done|done|done|done|exact Hno].
  - exact (proj1 example_fits).
  - exact (proj2 example_fits).
Defined.
