(* ===== verification/WebSocketFrame.v ===== *)
(** * net/websockets/websocket_frame.{h,cc}: frame headers and masking

    Writing the header of a WebSocket frame, and masking its payload a word at a time.
    A [char] is a byte, 0 to 255; the numbers of base/big_endian.h are read and written
    as that file does it. *)

From S2P Require Import Prelude.

(** ** base/big_endian.h *)

(** [WriteBigEndian] of an integer of [n] bytes, from its lowest byte down to index 0. *)
Fixpoint WriteBigEndian (n : nat) (val : Z) : list Z :=
  match n with
  | O => []
  | S n => WriteBigEndian n (Z.shiftr val 8) ++ [Z.land val 255]
  end.

(** A [char] is signed: the first byte is extended to the width of the integer, and the
    bits above it are shifted out. *)
Definition ReadBigEndian (n : nat) (buf : list Z) : Z :=
  let width := 2 ^ (8 * Z.of_nat n) in
  match take n buf with
  | [] => 0
  | b :: bs =>
      fold_left (λ out b, Z.lor (Z.shiftl out 8 mod width) b) bs (signed_char b mod width)
  end.

(** ** Frame headers *)

Definition OpCode : Type := Z.
Record WebSocketFrameHeader : Type := mkWebSocketFrameHeader {
  final : bool;
  reserved1 : bool;
  reserved2 : bool;
  reserved3 : bool;
  opcode : OpCode;
  masked : bool;
  payload_length : Z
}.
#[export] Instance eta_WebSocketFrameHeader : Eta WebSocketFrameHeader := λ h,
  mkWebSocketFrameHeader (final h) (reserved1 h) (reserved2 h) (reserved3 h) (opcode h)
    (masked h) (payload_length h).

(** The constructor. *)
Definition new_WebSocketFrameHeader (op : OpCode) : WebSocketFrameHeader :=
  {| final := false; reserved1 := false; reserved2 := false; reserved3 := false;
     opcode := op; masked := false; payload_length := 0 |}.

Definition CopyFrom (source this : WebSocketFrameHeader) : WebSocketFrameHeader :=
  this <| final := final source |> <| reserved1 := reserved1 source |>
       <| reserved2 := reserved2 source |> <| reserved3 := reserved3 source |>
       <| opcode := opcode source |> <| masked := masked source |>
       <| payload_length := payload_length source |>.
Definition Clone (h : WebSocketFrameHeader) : WebSocketFrameHeader :=
  CopyFrom h (new_WebSocketFrameHeader (opcode h)).

Definition kOpCodeContinuation : OpCode := 0.
Definition kOpCodeText : OpCode := 1.
Definition kOpCodeBinary : OpCode := 2.
Definition kOpCodeClose : OpCode := 8.
Definition kOpCodePing : OpCode := 9.
Definition kOpCodePong : OpCode := 10.
Definition IsKnownDataOpCode (op : OpCode) : bool :=
  (op =? kOpCodeContinuation) || (op =? kOpCodeText) || (op =? kOpCodeBinary).
Definition IsKnownControlOpCode (op : OpCode) : bool :=
  (op =? kOpCodeClose) || (op =? kOpCodePing) || (op =? kOpCodePong).

Definition kBaseHeaderSize : Z := 2.
Definition kMaximumExtendedLengthSize : Z := 8.
Definition kMaskingKeyLength : Z := 4.

Definition kFinalBit : Z := 128.
Definition kReserved1Bit : Z := 64.
Definition kReserved2Bit : Z := 32.
Definition kReserved3Bit : Z := 16.
Definition kOpCodeMask : Z := 15.
Definition kMaskBit : Z := 128.
Definition kMaxPayloadLengthWithoutExtendedLengthField : Z := 125.
Definition kPayloadLengthWithTwoByteExtendedLengthField : Z := 126.
Definition kPayloadLengthWithEightByteExtendedLengthField : Z := 127.
Definition UINT16_MAX : Z := 65535.
Definition INT64_MAX : Z := 9223372036854775807.
Definition INT32_MAX : Z := 2147483647.
Definition ERR_INVALID_ARGUMENT : Z := -4.

Definition extended_length_size (header : WebSocketFrameHeader) : Z :=
  if (kMaxPayloadLengthWithoutExtendedLengthField <? payload_length header) &&
     (payload_length header <=? UINT16_MAX) then 2
  else if UINT16_MAX <? payload_length header then 8 else 0.

Definition GetWebSocketFrameHeaderSize (header : WebSocketFrameHeader) : Z :=
  kBaseHeaderSize + extended_length_size header + (if masked header then kMaskingKeyLength else 0).

Definition bit (b : bool) (mask : Z) : Z := if b then mask else 0.

Definition first_byte (header : WebSocketFrameHeader) : Z :=
  Z.lor (Z.lor (Z.lor (Z.lor (bit (final header) kFinalBit)
    (bit (reserved1 header) kReserved1Bit)) (bit (reserved2 header) kReserved2Bit))
    (bit (reserved3 header) kReserved3Bit)) (Z.land (opcode header) kOpCodeMask).

(** The second byte and the extended length behind it. *)
Definition length_bytes (header : WebSocketFrameHeader) : list Z :=
  let second_byte := bit (masked header) kMaskBit in
  if payload_length header <=? kMaxPayloadLengthWithoutExtendedLengthField
  then [Z.lor second_byte (payload_length header)]
  else if payload_length header <=? UINT16_MAX
  then Z.lor second_byte kPayloadLengthWithTwoByteExtendedLengthField
         :: WriteBigEndian 2 (payload_length header mod 65536)
  else Z.lor second_byte kPayloadLengthWithEightByteExtendedLengthField
         :: WriteBigEndian 8 (payload_length header).

(** The result is the return value and the contents of [buffer]; [masking_key] is
    [None] for NULL.  Writing past the buffer is undefined. *)
Definition WriteWebSocketFrameHeader (header : WebSocketFrameHeader)
    (masking_key : option (list Z)) (buffer : list Z) (buffer_size : Z) :
    outcome (Z * list Z) :=
  DCHECK (Z.land (opcode header) kOpCodeMask =? opcode header) ;;
  DCHECK (payload_length header <=? INT64_MAX) ;;
  DCHECK (0 <=? buffer_size) ;;
  let header_size := GetWebSocketFrameHeaderSize header in
  if buffer_size <? header_size then Done (ERR_INVALID_ARGUMENT, buffer)
  else
    key ← (if masked header
           then match masking_key with Some key => Done key | None => DcheckFailed end
           else DCHECK (bool_decide (masking_key = None)) ;; Done []);
    let bytes := first_byte header :: length_bytes header ++ key in
    DCHECK (header_size =? Z.of_nat (length bytes)) ;;
    DCHECK (Z.of_nat (length bytes) <=? Z.of_nat (length buffer)) ;;
    Done (header_size, bytes ++ drop (length bytes) buffer).

(** ** Masking

    A key is its four bytes.  [MaskWebSocketFramePayloadByBytes] over a range of
    memory. *)
Definition key_byte (masking_key : list Z) (offset : Z) : Z :=
  nth (Z.to_nat offset) masking_key 0.

Fixpoint MaskWebSocketFramePayloadByBytes (masking_key : list Z) (masking_key_offset : Z)
    (range : list Z) : list Z :=
  match range with
  | [] => []
  | masked :: range =>
      Z.lxor masked (key_byte masking_key masking_key_offset)
        :: MaskWebSocketFramePayloadByBytes masking_key
             (let next := masking_key_offset + 1 in if next =? kMaskingKeyLength then 0 else next)
             range
  end.

(** One word xor another, byte by byte. *)
Definition xor_word (word mask : list Z) : list Z := zip_with Z.lxor word mask.

(** The main loop, from [merged] to the end of the aligned range.  [None] is the lack of
    fuel. *)
Fixpoint mask_words (fuel : nat) (word_size : nat) (mask range : list Z) : option (list Z) :=
  match fuel, range with
  | O, _ => None
  | _, [] => Some []
  | S fuel, _ =>
      rest ← mask_words fuel word_size mask (drop word_size range);
      Some (xor_word (take word_size range) mask ++ rest)
  end.

Section Masking.

(** The size of [PackedMaskType], 16 or that of [size_t], as the [static_assert] has it. *)
Context (kPackedMaskKeySize : Z).

(** [address] is that of [data]. *)
Definition MaskWebSocketFramePayload (masking_key : list Z) (frame_offset : Z)
    (address : Z) (data : list Z) : outcome (list Z) :=
  let data_size := Z.of_nat (length data) in
  if data_size <=? kPackedMaskKeySize * 2 then
    Done (MaskWebSocketFramePayloadByBytes masking_key (frame_offset mod kMaskingKeyLength) data)
  else
    let data_modulus := address mod kPackedMaskKeySize in
    let aligned_begin := if data_modulus =? 0 then 0 else kPackedMaskKeySize - data_modulus in
    DCHECK (aligned_begin <? data_size) ;;
    let front := MaskWebSocketFramePayloadByBytes masking_key (frame_offset mod kMaskingKeyLength)
                   (take (Z.to_nat aligned_begin) data) in
    let end_modulus := (address + data_size) mod kPackedMaskKeySize in
    let aligned_end := data_size - end_modulus in
    DCHECK (aligned_begin <? aligned_end) ;;
    let realigned_mask :=
      MaskWebSocketFramePayloadByBytes masking_key
        (u64 (frame_offset + aligned_begin) mod kMaskingKeyLength)
        (replicate (Z.to_nat kMaskingKeyLength) 0) in
    let packed_mask_key :=
      concat (replicate (Z.to_nat (kPackedMaskKeySize / kMaskingKeyLength)) realigned_mask) in
    let aligned :=
      drop (Z.to_nat aligned_begin) (take (Z.to_nat aligned_end) data) in
    match mask_words (S (length aligned)) (Z.to_nat kPackedMaskKeySize) packed_mask_key aligned with
    | None => DcheckFailed
    | Some merged =>
        Done (front ++ merged ++
          MaskWebSocketFramePayloadByBytes masking_key
            (u64 (frame_offset + aligned_end) mod kMaskingKeyLength)
            (drop (Z.to_nat aligned_end) data))
    end.
End Masking.

(** ** What masking is *)

(** Byte [i] of a frame is masked with byte [i mod 4] of the key. *)
Definition mask_spec (masking_key : list Z) (offset : Z) (data : list Z) : list Z :=
  imap (λ i b, Z.lxor b (key_byte masking_key ((offset + Z.of_nat i) mod 4))) data.

Lemma mask_spec_cons key o b bs :
  mask_spec key o (b :: bs) = Z.lxor b (key_byte key (o mod 4)) :: mask_spec key (o + 1) bs.
Proof.
  unfold mask_spec. rewrite imap_cons. f_equal; [by rewrite Z.add_0_r|].
  apply imap_ext. intros i x _. cbn. do 3 f_equal. lia.
Qed.

Lemma mask_spec_app key bs1 : ∀ o bs2,
  mask_spec key o (bs1 ++ bs2) = mask_spec key o bs1 ++ mask_spec key (o + Z.of_nat (length bs1)) bs2.
Proof.
  induction bs1 as [|b bs1 IH]; intros o bs2; cbn [app length].
  - by rewrite Z.add_0_r.
  - rewrite !mask_spec_cons, IH. cbn [app]. do 3 f_equal. lia.
Qed.

Lemma mask_spec_mod key o o' bs : o mod 4 = o' mod 4 → mask_spec key o bs = mask_spec key o' bs.
Proof.
  intros E. apply imap_ext. intros i x _. by rewrite Z.add_mod, E, <- Z.add_mod.
Qed.

Lemma mask_spec_length key o bs : length (mask_spec key o bs) = length bs.
Proof. apply length_imap. Qed.

Lemma ByBytes_spec key bs : ∀ o,
  0 <= o < 4 → MaskWebSocketFramePayloadByBytes key o bs = mask_spec key o bs.
Proof.
  induction bs as [|b bs IH]; intros o Ho; cbn [MaskWebSocketFramePayloadByBytes]; [done|].
  rewrite mask_spec_cons, Z.mod_small by done. f_equal. unfold kMaskingKeyLength.
  destruct (Z.eqb_spec (o + 1) 4) as [E|]; [|apply IH; lia].
  rewrite IH by lia. apply mask_spec_mod. by rewrite E.
Qed.

Lemma u64_mod_4 x : u64 x mod 4 = x mod 4.
Proof. unfold u64. apply Z.mod_mod_divide. by exists 4611686018427387904. Qed.

Lemma mask_zeroes key n : ∀ o,
  concat (replicate n (mask_spec key o (replicate 4 0))) = mask_spec key o (replicate (n * 4) 0).
Proof.
  induction n as [|n IH]; intros o; [done|].
  change (S n * 4)%nat with (4 + n * 4)%nat. rewrite replicate_add, mask_spec_app. cbn [concat replicate].
  f_equal. fold (replicate 4 0). rewrite IH. apply mask_spec_mod.
  rewrite length_replicate, Z.add_mod, Z_mod_same_full, Z.add_0_r by done. by rewrite Z.mod_mod.
Qed.

Lemma xor_zeroes key bs : ∀ o,
  xor_word bs (mask_spec key o (replicate (length bs) 0)) = mask_spec key o bs.
Proof.
  induction bs as [|b bs IH]; intros o; [done|].
  cbn [length replicate]. rewrite !mask_spec_cons. unfold xor_word in *. cbn [zip_with].
  by rewrite IH, Z.lxor_0_l.
Qed.

Lemma mask_words_spec fuel : ∀ n key o range,
  (0 < n)%nat → (length range < fuel)%nat → (∃ k, length range = k * (n * 4))%nat →
  mask_words fuel (n * 4) (mask_spec key o (replicate (n * 4) 0)) range = Some (mask_spec key o range).
Proof.
  induction fuel as [|fuel IH]; intros n key o range Hn Hf [k Hk]; [lia|].
  destruct range as [|b range]; [done|]. set (r := b :: range) in *.
  change (mask_words (S fuel) (n * 4) (mask_spec key o (replicate (n * 4) 0)) r)
    with (rest ← mask_words fuel (n * 4) (mask_spec key o (replicate (n * 4) 0)) (drop (n * 4) r);
          Some (xor_word (take (n * 4) r) (mask_spec key o (replicate (n * 4) 0)) ++ rest)).
  assert (0 < length r)%nat by (cbn; lia).
  destruct k as [|k]; [lia|]. assert (length (take (n * 4) r) = n * 4)%nat as El by (rewrite length_take; lia).
  rewrite IH; [|done|rewrite length_drop; lia|exists k; rewrite length_drop; lia]. cbn [mbind option_bind].
  f_equal. pose proof (xor_zeroes key (take (n * 4) r) o) as E. rewrite El in E. rewrite E.
  rewrite <- (take_drop (n * 4) r) at 3. rewrite mask_spec_app, El. f_equal. apply mask_spec_mod.
  rewrite Nat2Z.inj_mul, Z.mod_add by done. done.
Qed.

Lemma mask_spec_involutive key o bs : mask_spec key o (mask_spec key o bs) = bs.
Proof.
  apply list_eq. intros i. unfold mask_spec. rewrite !list_lookup_imap.
  destruct (bs !! i) as [b|]; [|done]. cbn. f_equal.
  by rewrite Z.lxor_assoc, Z.lxor_nilpotent, Z.lxor_0_r.
Qed.

Lemma masked_bytewise K key o address data :
  4 <= K → K mod 4 = 0 → 0 <= o →
  MaskWebSocketFramePayload K key o address data = Done (mask_spec key o data).
Proof.
  intros HK Hdiv Ho. unfold MaskWebSocketFramePayload. unfold kMaskingKeyLength.
  assert (0 <= o mod 4 < 4) by (apply Z.mod_pos_bound; lia).
  destruct (Z.leb_spec (Z.of_nat (length data)) (K * 2)) as [|Hlong].
  { f_equal. rewrite ByBytes_spec by done. apply mask_spec_mod, Z.mod_mod. done. }
  set (size' := Z.of_nat (length data)) in *.
  set (a := if address mod K =? 0 then 0 else K - address mod K).
  assert (0 <= a < K ∧ (address + a) mod K = 0) as [Ha Hal].
  { pose proof (Z.mod_pos_bound address K ltac:(lia)). subst a.
    destruct (Z.eqb_spec (address mod K) 0) as [E|]; [split; [lia|by rewrite Z.add_0_r]|].
    split; [lia|]. replace (address + (K - address mod K)) with ((address - address mod K) + 1 * K) by lia.
    rewrite Z.mod_add, Zminus_mod, Z.mod_mod, Z.sub_diag by lia. done. }
  pose proof (Z.mod_pos_bound (address + size') K ltac:(lia)) as He.
  set (e := size' - (address + size') mod K) in *.
  pass_DCHECK ltac:(apply Z.ltb_lt; lia). pass_DCHECK ltac:(apply Z.ltb_lt; lia).
  assert ((e - a) mod K = 0) as Hmul.
  { replace (e - a) with (((address + size') / K - (address + a) / K) * K); [apply Z.mod_mul; lia|].
    pose proof (Z.div_mod (address + size') K ltac:(lia)).
    pose proof (Z.div_mod (address + a) K ltac:(lia)). lia. }
  assert (K = K / 4 * 4) as EK by (pose proof (Z.div_mod K 4); lia).
  set (n := Z.to_nat (K / 4)). assert (0 < n)%nat by lia.
  replace (Z.to_nat K) with (n * 4)%nat by lia. change (Z.to_nat 4) with 4%nat.
  set (mid := drop (Z.to_nat a) (take (Z.to_nat e) data)).
  assert (Z.of_nat (length mid) = e - a) as Emid.
  { subst mid. rewrite length_drop, length_take. lia. }
  rewrite !ByBytes_spec by (apply Z.mod_pos_bound; lia). rewrite mask_zeroes, mask_words_spec;
    [|done|lia|].
  2: { exists (Z.to_nat ((e - a) / K)). pose proof (Z.div_mod (e - a) K ltac:(lia)).
       assert (0 <= (e - a) / K) by (apply Z.div_pos; lia).
       apply Nat2Z.inj. rewrite Emid, !Nat2Z.inj_mul, !Z2Nat.id by lia. subst n.
       rewrite Z2Nat.id by lia. change (Z.of_nat 4) with 4. rewrite <- EK. lia. }
  f_equal. 
  transitivity (mask_spec key o (take (Z.to_nat a) data ++ mid ++ drop (Z.to_nat e) data)).
  - rewrite !mask_spec_app, length_take, Emid. f_equal; [apply mask_spec_mod, Z.mod_mod; done|].
    f_equal; apply mask_spec_mod; rewrite Z.mod_mod, u64_mod_4 by done; f_equal; lia.
  - f_equal. subst mid. rewrite app_assoc.
    assert (take (Z.to_nat a) data = take (Z.to_nat a) (take (Z.to_nat e) data)) as ->.
    { rewrite take_take. f_equal. lia. }
    by rewrite !take_drop.
Qed.

(** [C34] Masking a word at a time is masking byte by byte: whatever the size of the words
    (a multiple of 4), the address of the data and its place in the frame, byte [i] of the
    frame is masked with byte [i mod 4] of the key, no check fails, and masking once more
    gives the data back. *)
Theorem masking_is_bytewise (kPackedMaskKeySize : Z) (masking_key : list Z)
    (frame_offset address address' : Z) (data : list Z) :
  4 <= kPackedMaskKeySize → kPackedMaskKeySize mod 4 = 0 → 0 <= frame_offset →
  MaskWebSocketFramePayload kPackedMaskKeySize masking_key frame_offset address data
    = Done (mask_spec masking_key frame_offset data) ∧
  (data' ← MaskWebSocketFramePayload kPackedMaskKeySize masking_key frame_offset address data;
   MaskWebSocketFramePayload kPackedMaskKeySize masking_key frame_offset address' data') = Done data.
Proof.
  intros HK Hdiv Ho.
  assert (∀ a d, MaskWebSocketFramePayload kPackedMaskKeySize masking_key frame_offset a d
    = Done (mask_spec masking_key frame_offset d)) as H.
  { intros. by apply masked_bytewise. }
  rewrite !H. split; [done|]. rewrite Done_bind, H. by rewrite mask_spec_involutive.
Qed.

Lemma masking_is_bytewise_witness :
  let data := seqZ 100 45 in
  MaskWebSocketFramePayload 16 [1; 2; 3; 255] 6 1003 data
    = Done (mask_spec [1; 2; 3; 255] 6 data) ∧
  (data' ← MaskWebSocketFramePayload 16 [1; 2; 3; 255] 6 1003 data;
   MaskWebSocketFramePayload 16 [1; 2; 3; 255] 6 2048 data') = Done data.
Proof. apply (masking_is_bytewise 16 [1; 2; 3; 255] 6 1003 2048); [lia|done|lia]. Defined.

(** ** Integers in big-endian order *)

Definition big_endian_value (bs : list Z) : Z := fold_left (λ v b, v * 256 + b) bs 0.

Lemma fold_value bs : ∀ v,
  fold_left (λ v b, v * 256 + b) bs v = v * 256 ^ Z.of_nat (length bs) + big_endian_value bs.
Proof.
  unfold big_endian_value. induction bs as [|b bs IH]; intros v; cbn [fold_left length]; [lia|].
  rewrite IH, (IH (0 * 256 + b)), Nat2Z.inj_succ, Z.pow_succ_r by lia. lia.
Qed.

Lemma read_step n x b :
  byte_ok b → let width := 2 ^ (8 * Z.of_nat (S n)) in
  Z.lor (Z.shiftl (x mod width) 8 mod width) b = (x * 256 + b) mod width.
Proof.
  intros Hb width. unfold byte_ok in Hb.
  assert (width = 256 ^ Z.of_nat n * 256) as Ew.
  { unfold width. rewrite Z.pow_mul_r by lia. change (2 ^ 8) with 256.
    rewrite Nat2Z.inj_succ, Z.pow_succ_r by lia. lia. }
  assert (0 < 256 ^ Z.of_nat n) by (apply Z.pow_pos_nonneg; lia).
  rewrite Z.shiftl_mul_pow2 by lia. change (2 ^ 8) with 256.
  rewrite Z.mul_mod_idemp_l by lia. rewrite Ew, Zmult_mod_distr_r.
  set (y := x mod 256 ^ Z.of_nat n).
  assert (0 <= y < 256 ^ Z.of_nat n) as Hy by (apply Z.mod_pos_bound; lia).
  rewrite Z.lor_comm. change 256 with (2 ^ 8) at 1. rewrite <- Z.shiftl_mul_pow2 by lia.
  rewrite lor_shiftl_add by lia. change (2 ^ 8) with 256.
  symmetry. replace (x * 256 + b) with (b + y * 256 + x / 256 ^ Z.of_nat n * (256 ^ Z.of_nat n * 256)).
  { rewrite Z.mod_add by lia. apply Z.mod_small. nia. }
  unfold y. pose proof (Z.div_mod x (256 ^ Z.of_nat n) ltac:(lia)). nia.
Qed.

Lemma value_bounds bs :
  Forall byte_ok bs → 0 <= big_endian_value bs < 256 ^ Z.of_nat (length bs).
Proof.
  induction bs as [|b bs IH]; intros Hbs; [done|]. apply Forall_cons_1 in Hbs as [Hb Hbs].
  unfold big_endian_value. cbn [fold_left length]. rewrite fold_value.
  rewrite Nat2Z.inj_succ, Z.pow_succ_r by lia. specialize (IH Hbs). unfold byte_ok in Hb. nia.
Qed.

Lemma ReadBigEndian_value n bs :
  (0 < n)%nat → length bs = n → Forall byte_ok bs → ReadBigEndian n bs = big_endian_value bs.
Proof.
  intros Hn Hl Hbs. unfold ReadBigEndian. rewrite firstn_all2 by lia.
  destruct bs as [|b bs]; [cbn in Hl; lia|]. destruct n as [|n]; [lia|].
  set (width := 2 ^ (8 * Z.of_nat (S n))). apply Forall_cons_1 in Hbs as [Hb Hbs].
  assert (∀ bs x, Forall byte_ok bs →
    fold_left (λ out b, Z.lor (Z.shiftl out 8 mod width) b) bs (x mod width)
      = fold_left (λ v b, v * 256 + b) bs x mod width) as Hfold.
  { clear. induction bs as [|b bs IH]; intros x Hbs; [done|].
    apply Forall_cons_1 in Hbs as [Hb Hbs]. cbn [fold_left]. unfold width in *.
    rewrite read_step by done. by apply IH. }
  rewrite Hfold by done. unfold big_endian_value. cbn [length fold_left] in *. injection Hl as Hl.
  rewrite !fold_value, Hl.
  assert (width = 256 ^ Z.of_nat n * 256) as Ew.
  { unfold width. rewrite Z.pow_mul_r by lia. change (2 ^ 8) with 256.
    rewrite Nat2Z.inj_succ, Z.pow_succ_r by lia. lia. }
  assert (0 < 256 ^ Z.of_nat n) by (apply Z.pow_pos_nonneg; lia).
  assert (0 <= big_endian_value bs < 256 ^ Z.of_nat n) as Hv by (rewrite <- Hl; by apply value_bounds).
  unfold byte_ok, signed_char in *.
  transitivity ((b * 256 ^ Z.of_nat n + big_endian_value bs) mod width).
  - destruct (Z.ltb_spec b 128); [done|].
    rewrite <- (Z.mod_add ((b - 256) * 256 ^ Z.of_nat n + big_endian_value bs) 1 width) by nia.
    f_equal. nia.
  - rewrite Z.mod_small; [|nia]. lia.
Qed.

Lemma WriteBigEndian_value n : ∀ v,
  0 <= v < 256 ^ Z.of_nat n →
  big_endian_value (WriteBigEndian n v) = v ∧ length (WriteBigEndian n v) = n ∧
  Forall byte_ok (WriteBigEndian n v).
Proof.
  induction n as [|n IH]; intros v Hv; [cbn in *; split_and!; [lia|done|done]|].
  rewrite Nat2Z.inj_succ, Z.pow_succ_r in Hv by lia.
  assert (Z.shiftr v 8 = v / 256 ∧ Z.land v 255 = v mod 256) as [E1 E2].
  { rewrite Z.shiftr_div_pow2 by lia. split; [done|]. by apply (Z.land_ones v 8). }
  cbn [WriteBigEndian]. rewrite E1, E2.
  destruct (IH (v / 256)) as (Ev & El & Ef).
  { split; [apply Z.div_pos; lia|apply Z.div_lt_upper_bound; lia]. }
  unfold big_endian_value in *. rewrite fold_left_app. cbn [fold_left]. rewrite Ev.
  pose proof (Z.div_mod v 256 ltac:(lia)). pose proof (Z.mod_pos_bound v 256 ltac:(lia)).
  split_and!; [lia|rewrite length_app, El; cbn; lia|].
  apply Forall_app. split; [done|]. by apply Forall_singleton.
Qed.

(** Numbers survive. *)
Lemma big_endian_round_trip n v rest :
  (0 < n)%nat → 0 <= v < 256 ^ Z.of_nat n →
  ReadBigEndian n (WriteBigEndian n v ++ rest) = v ∧ drop n (WriteBigEndian n v ++ rest) = rest.
Proof.
  intros Hn Hv. destruct (WriteBigEndian_value n v Hv) as (Ev & El & Ef). split.
  - rewrite <- Ev at 2. rewrite <- (ReadBigEndian_value n) by done.
    unfold ReadBigEndian. rewrite take_app_length' by done. by rewrite firstn_all2 by lia.
  - by apply drop_app_length'.
Qed.
