(* ===== verification/WebSocketFrameParser.v ===== *)
(** * net/websockets/websocket_frame_parser.{h,cc}: parsing WebSocket frames

    [WebSocketFrameParser] is fed the bytes of a connection as they come, in pieces of any
    length, and gives out the frames as chunks.  The parser keeps the bytes of a header
    that is not complete. *)

From S2P Require Import Prelude WebSocketFrame.

(** websocket_errors.h. *)
Inductive WebSocketError : Type :=
  | kWebSocketNormalClosure
  | kWebSocketErrorGoingAway
  | kWebSocketErrorProtocolError
  | kWebSocketErrorUnsupportedData
  | kWebSocketErrorNoStatusReceived
  | kWebSocketErrorAbnormalClosure
  | kWebSocketErrorInvalidFramePayloadData
  | kWebSocketErrorPolicyViolation
  | kWebSocketErrorMessageTooBig
  | kWebSocketErrorMandatoryExtension
  | kWebSocketErrorInternalServerError
  | kWebSocketErrorTlsHandshake
  | kWebSocketErrorProtocolReservedMax
  | kWebSocketErrorRegisteredReservedMin
  | kWebSocketErrorRegisteredReservedMax
  | kWebSocketErrorPrivateReservedMin
  | kWebSocketErrorPrivateReservedMax.
#[export] Instance WebSocketError_eq_dec : EqDecision WebSocketError.
Proof. solve_decision. Defined.

Definition error_value (error : WebSocketError) : Z :=
  match error with
  | kWebSocketNormalClosure => 1000
  | kWebSocketErrorGoingAway => 1001
  | kWebSocketErrorProtocolError => 1002
  | kWebSocketErrorUnsupportedData => 1003
  | kWebSocketErrorNoStatusReceived => 1005
  | kWebSocketErrorAbnormalClosure => 1006
  | kWebSocketErrorInvalidFramePayloadData => 1007
  | kWebSocketErrorPolicyViolation => 1008
  | kWebSocketErrorMessageTooBig => 1009
  | kWebSocketErrorMandatoryExtension => 1010
  | kWebSocketErrorInternalServerError => 1011
  | kWebSocketErrorTlsHandshake => 1015
  | kWebSocketErrorProtocolReservedMax => 2999
  | kWebSocketErrorRegisteredReservedMin => 3000
  | kWebSocketErrorRegisteredReservedMax => 3999
  | kWebSocketErrorPrivateReservedMin => 4000
  | kWebSocketErrorPrivateReservedMax => 4999
  end.

(** websocket_errors.cc, with the codes of net_error_list.h. *)
Definition OK : Z := 0.
Definition ERR_UNEXPECTED : Z := -9.
Definition ERR_CONNECTION_CLOSED : Z := -100.
Definition ERR_SSL_PROTOCOL_ERROR : Z := -107.
Definition ERR_MSG_TOO_BIG : Z := -142.
Definition ERR_WS_PROTOCOL_ERROR : Z := -145.
Definition WebSocketErrorToNetError (error : WebSocketError) : Z :=
  match error with
  | kWebSocketNormalClosure => OK
  | kWebSocketErrorGoingAway | kWebSocketErrorProtocolError | kWebSocketErrorUnsupportedData
  | kWebSocketErrorInvalidFramePayloadData | kWebSocketErrorPolicyViolation
  | kWebSocketErrorMandatoryExtension | kWebSocketErrorInternalServerError => ERR_WS_PROTOCOL_ERROR
  | kWebSocketErrorNoStatusReceived | kWebSocketErrorAbnormalClosure => ERR_CONNECTION_CLOSED
  | kWebSocketErrorTlsHandshake => ERR_SSL_PROTOCOL_ERROR
  | kWebSocketErrorMessageTooBig => ERR_MSG_TOO_BIG
  | _ => ERR_UNEXPECTED
  end.

Definition kPayloadLengthMask : Z := 127.

(** [data] is [None] when it is null. *)
Record WebSocketFrameChunk : Type := mkWebSocketFrameChunk {
  header : option WebSocketFrameHeader;
  final_chunk : bool;
  data : option (list Z)
}.

Record WebSocketFrameParser : Type := mkWebSocketFrameParser {
  buffer_ : list Z;
  current_read_pos_ : Z;
  current_frame_header_ : option WebSocketFrameHeader;
  masking_key_ : list Z;
  frame_offset_ : Z;
  websocket_error_ : WebSocketError
}.
#[export] Instance eta_WebSocketFrameParser : Eta WebSocketFrameParser := λ p,
  mkWebSocketFrameParser (buffer_ p) (current_read_pos_ p) (current_frame_header_ p)
    (masking_key_ p) (frame_offset_ p) (websocket_error_ p).

(** The constructor. *)
Definition init_WebSocketFrameParser : WebSocketFrameParser :=
  {| buffer_ := []; current_read_pos_ := 0; current_frame_header_ := None;
     masking_key_ := replicate 4 0; frame_offset_ := 0;
     websocket_error_ := kWebSocketNormalClosure |}.

(** The payload length of a header: [None] if it is not complete, or else the length, the
    bytes behind it, and the error. *)
Definition read_length (second_byte : Z) (current : list Z) :
    option (Z * list Z * WebSocketError) :=
  let payload_length := Z.land second_byte kPayloadLengthMask in
  if payload_length =? kPayloadLengthWithTwoByteExtendedLengthField then
    if Z.of_nat (length current) <? 2 then None
    else
      let payload_length := ReadBigEndian 2 current in
      Some (payload_length, drop 2 current,
        if payload_length <=? kMaxPayloadLengthWithoutExtendedLengthField
        then kWebSocketErrorProtocolError else kWebSocketNormalClosure)
  else if payload_length =? kPayloadLengthWithEightByteExtendedLengthField then
    if Z.of_nat (length current) <? 8 then None
    else
      let payload_length := ReadBigEndian 8 current in
      Some (payload_length, drop 8 current,
        if (payload_length <=? UINT16_MAX) || (INT64_MAX <? payload_length)
        then kWebSocketErrorProtocolError
        else if INT32_MAX <? payload_length then kWebSocketErrorMessageTooBig
        else kWebSocketNormalClosure)
  else Some (payload_length, current, kWebSocketNormalClosure).

(** It is called without an error, so the error afterwards is that of the length. *)
Definition DecodeFrameHeader (p : WebSocketFrameParser) : outcome WebSocketFrameParser :=
  match current_frame_header_ p with
  | Some _ => DcheckFailed
  | None =>
      let start := drop (Z.to_nat (current_read_pos_ p)) (buffer_ p) in
      match start with
      | first_byte :: second_byte :: current =>
          let masked := negb (Z.land second_byte kMaskBit =? 0) in
          match read_length second_byte current with
          | None => Done p
          | Some (payload_length, current, error) =>
              if bool_decide (error ≠ kWebSocketNormalClosure) then
                Done (p <| websocket_error_ := error |> <| buffer_ := [] |>
                        <| current_read_pos_ := 0 |> <| current_frame_header_ := None |>
                        <| frame_offset_ := 0 |>)
              else if masked && (Z.of_nat (length current) <? kMaskingKeyLength) then Done p
              else
                let key := if masked then take 4 current else replicate 4 0 in
                let current := if masked then drop 4 current else current in
                let header :=
                  {| final := negb (Z.land first_byte kFinalBit =? 0);
                     reserved1 := negb (Z.land first_byte kReserved1Bit =? 0);
                     reserved2 := negb (Z.land first_byte kReserved2Bit =? 0);
                     reserved3 := negb (Z.land first_byte kReserved3Bit =? 0);
                     opcode := Z.land first_byte kOpCodeMask;
                     WebSocketFrame.masked := masked;
                     WebSocketFrame.payload_length := payload_length |} in
                DCHECK (frame_offset_ p =? 0) ;;
                Done (p <| masking_key_ := key |> <| current_frame_header_ := Some header |>
                        <| current_read_pos_ := current_read_pos_ p
                             + (Z.of_nat (length start) - Z.of_nat (length current)) |>)
          end
      | _ => Done p
      end
  end.

Section Parser.
(** The size of the words that masking uses, and the address of the buffer for the data of
    the next chunk. *)
Context (kPackedMaskKeySize : Z) (io_data : WebSocketFrameParser → Z).

Definition DecodeFramePayload (first_chunk : bool) (p : WebSocketFrameParser) :
    outcome (WebSocketFrameChunk * WebSocketFrameParser) :=
  match current_frame_header_ p with
  | None => DcheckFailed
  | Some h =>
      let next_size := s32 (Z.min (u64 (Z.of_nat (length (buffer_ p)) - current_read_pos_ p))
                                  (u64 (payload_length h - frame_offset_ p))) in
      let chunk_header := if first_chunk then Some (Clone h) else None in
      r ← (if next_size =? 0 then Done (None, p)
           else
             let bytes := take (Z.to_nat next_size)
                            (drop (Z.to_nat (current_read_pos_ p)) (buffer_ p)) in
             bytes ← (if masked h
                      then MaskWebSocketFramePayload kPackedMaskKeySize (masking_key_ p)
                             (frame_offset_ p) (io_data p) bytes
                      else Done bytes);
             Done (Some bytes, p <| current_read_pos_ := current_read_pos_ p + next_size |>
                                 <| frame_offset_ := u64 (frame_offset_ p + next_size) |>));
      let '(bytes, p) := r : option (list Z) * WebSocketFrameParser in
      DCHECK (frame_offset_ p <=? payload_length h) ;;
      if frame_offset_ p =? payload_length h
      then Done (mkWebSocketFrameChunk chunk_header true bytes,
                 p <| current_frame_header_ := None |> <| frame_offset_ := 0 |>)
      else Done (mkWebSocketFrameChunk chunk_header false bytes, p)
  end.

(** The loop of [Decode]; the result is [false] at the early return, the parser and the
    chunks.  [None] is the lack of fuel. *)
Fixpoint decode_loop (fuel : nat) (p : WebSocketFrameParser) (chunks : list WebSocketFrameChunk) :
    outcome (option (bool * WebSocketFrameParser * list WebSocketFrameChunk)) :=
  match fuel with
  | O => Done None
  | S fuel =>
      if current_read_pos_ p <? Z.of_nat (length (buffer_ p)) then
        let in_frame := bool_decide (is_Some (current_frame_header_ p)) in
        p ← (if in_frame then Done p else DecodeFrameHeader p);
        if negb in_frame && bool_decide (websocket_error_ p ≠ kWebSocketNormalClosure)
        then Done (Some (false, p, chunks))
        else if bool_decide (current_frame_header_ p = None) then Done (Some (true, p, chunks))
        else
          r ← DecodeFramePayload (negb in_frame) p;
          let '(chunk, p) := r : WebSocketFrameChunk * WebSocketFrameParser in
          let chunks := chunks ++ [chunk] in
          match current_frame_header_ p with
          | Some _ =>
              DCHECK (current_read_pos_ p =? Z.of_nat (length (buffer_ p))) ;;
              Done (Some (true, p, chunks))
          | None => decode_loop fuel p chunks
          end
      else Done (Some (true, p, chunks))
  end.

Definition kMaximumFrameHeaderSize : Z :=
  kBaseHeaderSize + kMaximumExtendedLengthSize + kMaskingKeyLength.

Definition Decode (bytes : list Z) (p : WebSocketFrameParser) (frame_chunks : list WebSocketFrameChunk) :
    outcome (option (bool * WebSocketFrameParser * list WebSocketFrameChunk)) :=
  if bool_decide (websocket_error_ p ≠ kWebSocketNormalClosure)
  then Done (Some (false, p, frame_chunks))
  else if (length bytes =? 0)%nat then Done (Some (true, p, frame_chunks))
  else
    let p := p <| buffer_ := buffer_ p ++ bytes |> in
    r ← decode_loop (S (length (buffer_ p))) p frame_chunks;
    match r with
    | None => Done None
    | Some (false, p, frame_chunks) => Done (Some (false, p, frame_chunks))
    | Some (true, p, frame_chunks) =>
        let p := p <| buffer_ := drop (Z.to_nat (current_read_pos_ p)) (buffer_ p) |>
                   <| current_read_pos_ := 0 |> in
        DCHECK (Z.of_nat (length (buffer_ p)) <? kMaximumFrameHeaderSize) ;;
        Done (Some (true, p, frame_chunks))
    end.

(** The pieces of a connection, one [Decode] after the other, up to the first that
    fails. *)
Fixpoint decode_all (pieces : list (list Z)) (p : WebSocketFrameParser)
    (frame_chunks : list WebSocketFrameChunk) :
    outcome (option (bool * WebSocketFrameParser * list WebSocketFrameChunk)) :=
  match pieces with
  | [] => Done (Some (true, p, frame_chunks))
  | piece :: pieces =>
      r ← Decode piece p frame_chunks;
      match r with
      | Some (true, p, frame_chunks) => decode_all pieces p frame_chunks
      | _ => Done r
      end
  end.
End Parser.

(** ** One step at a time *)

(** The bytes not yet read. *)
Definition unread (p : WebSocketFrameParser) : list Z :=
  drop (Z.to_nat (current_read_pos_ p)) (buffer_ p).

(** What holds at the head of the loop of [Decode]. *)
Definition parser_inv (p : WebSocketFrameParser) : Prop :=
  websocket_error_ p = kWebSocketNormalClosure ∧
  0 <= current_read_pos_ p <= Z.of_nat (length (buffer_ p)) ∧
  Z.of_nat (length (buffer_ p)) < 2 ^ 64 ∧
  Forall byte_ok (buffer_ p) ∧
  match current_frame_header_ p with
  | None => frame_offset_ p = 0
  | Some h => 0 <= frame_offset_ p < payload_length h ∧ payload_length h <= INT32_MAX
  end.

Lemma unread_length p :
  0 <= current_read_pos_ p <= Z.of_nat (length (buffer_ p)) →
  Z.of_nat (length (unread p)) = Z.of_nat (length (buffer_ p)) - current_read_pos_ p.
Proof. intros H. unfold unread. rewrite length_drop. lia. Qed.

Lemma unread_bytes p : Forall byte_ok (buffer_ p) → Forall byte_ok (unread p).
Proof. intros H. by apply Forall_drop. Qed.

Lemma Clone_same h : Clone h = h.
Proof. by destruct h. Qed.

Lemma ReadBigEndian_bounds n bs :
  (0 < n <= length bs)%nat → Forall byte_ok bs → 0 <= ReadBigEndian n bs < 256 ^ Z.of_nat n.
Proof.
  intros Hn Hbs.
  assert (ReadBigEndian n bs = ReadBigEndian n (take n bs)) as ->.
  { unfold ReadBigEndian. rewrite take_take. by rewrite Nat.min_id. }
  assert (length (take n bs) = n) as El by (rewrite length_take; lia).
  rewrite ReadBigEndian_value by first [lia | done | by apply Forall_take].
  rewrite <- El at 3. apply value_bounds. by apply Forall_take.
Qed.

(** The length of a payload without error fits an int, and is read from no more than
    8 bytes. *)
Lemma read_length_bounds second_byte current :
  Forall byte_ok current →
  match read_length second_byte current with
  | None => (length current < 8)%nat
  | Some (L, rest, error) =>
      (length rest <= length current <= length rest + 8)%nat ∧
      (error = kWebSocketNormalClosure → 0 <= L <= INT32_MAX)
  end.
Proof.
  intros Hbs. unfold read_length, INT64_MAX, INT32_MAX, UINT16_MAX, kPayloadLengthMask.
  assert (0 <= Z.land second_byte 127 < 128) as Hs.
  { change 127 with (Z.ones 7). rewrite Z.land_ones by lia. by apply Z.mod_pos_bound. }
  destruct (Z.eqb_spec (Z.land second_byte 127) kPayloadLengthWithTwoByteExtendedLengthField).
  { destruct (Z.ltb_spec (Z.of_nat (length current)) 2); [lia|]. split; [rewrite length_drop; lia|].
    pose proof (ReadBigEndian_bounds 2 current ltac:(lia) Hbs) as Hb. cbn in Hb. lia. }
  destruct (Z.eqb_spec (Z.land second_byte 127) kPayloadLengthWithEightByteExtendedLengthField).
  { destruct (Z.ltb_spec (Z.of_nat (length current)) 8); [lia|]. split; [rewrite length_drop; lia|].
    pose proof (ReadBigEndian_bounds 8 current ltac:(lia) Hbs) as Hb.
    destruct (Z.leb_spec (ReadBigEndian 8 current) 65535); [done|].
    destruct (Z.ltb_spec 9223372036854775807 (ReadBigEndian 8 current)); [done|]. cbn [orb].
    destruct (Z.ltb_spec 2147483647 (ReadBigEndian 8 current)); [done|]. lia. }
  split; lia.
Qed.

(** A header is incomplete, or in error, or read. *)
Lemma DecodeFrameHeader_cases p :
  parser_inv p → current_frame_header_ p = None →
  (DecodeFrameHeader p = Done p ∧ (length (unread p) < 14)%nat) ∨
  (∃ p', DecodeFrameHeader p = Done p' ∧ websocket_error_ p' ≠ kWebSocketNormalClosure ∧
     buffer_ p' = []) ∨
  (∃ h key n, DecodeFrameHeader p =
     Done (p <| masking_key_ := key |> <| current_frame_header_ := Some h |>
             <| current_read_pos_ := current_read_pos_ p + n |>) ∧
     2 <= n <= Z.of_nat (length (unread p)) ∧ 0 <= payload_length h <= INT32_MAX).
Proof.
  intros (He & Hp & _ & Hbs & Ho) Hh. rewrite Hh in Ho. apply unread_bytes in Hbs.
  unfold DecodeFrameHeader. rewrite Hh. fold (unread p).
  destruct (unread p) as [|b1 [|b2 current]]; [left; split; [done|cbn; lia]..|].
  apply Forall_cons_1 in Hbs as [_ Hbs]. apply Forall_cons_1 in Hbs as [_ Hbs].
  pose proof (read_length_bounds b2 current Hbs) as HL. cbn [length].
  destruct (read_length b2 current) as [[[L rest] error]|]; [|left; split; [done|lia]].
  destruct HL as [Hlen HL]. case_bool_decide as Herr; [right; left; by eexists|].
  specialize (HL Herr).
  destruct (negb (Z.land b2 kMaskBit =? 0)) eqn:Em; cbn [andb].
  - destruct (Z.ltb_spec (Z.of_nat (length rest)) kMaskingKeyLength); [left; split; [done|unfold kMaskingKeyLength in *; lia]|].
    right; right. pass_DCHECK ltac:(by rewrite Ho). do 3 eexists. split; [done|].
    rewrite length_drop. unfold kMaskingKeyLength in *. cbn [payload_length]. lia.
  - right; right. pass_DCHECK ltac:(by rewrite Ho). do 3 eexists. split; [done|].
    cbn [payload_length]. lia.
Qed.

Definition unmasked (h : WebSocketFrameHeader) (key : list Z) (offset : Z) (bytes : list Z) : list Z :=
  if masked h then mask_spec key offset bytes else bytes.

(** A header is read, and its payload not yet. *)
Definition in_frame (p : WebSocketFrameParser) (h : WebSocketFrameHeader) : Prop :=
  websocket_error_ p = kWebSocketNormalClosure ∧
  0 <= current_read_pos_ p <= Z.of_nat (length (buffer_ p)) ∧
  Z.of_nat (length (buffer_ p)) < 2 ^ 64 ∧
  Forall byte_ok (buffer_ p) ∧
  current_frame_header_ p = Some h ∧
  0 <= frame_offset_ p <= payload_length h ∧ payload_length h <= INT32_MAX.

Lemma parser_inv_in_frame p h :
  parser_inv p → current_frame_header_ p = Some h → in_frame p h ∧ frame_offset_ p < payload_length h.
Proof. intros (? & ? & ? & ? & Ho) Hh. rewrite Hh in Ho. unfold in_frame. naive_solver lia. Qed.

(** The parser after the next [n] bytes of a payload. *)
Definition advance (h : WebSocketFrameHeader) (n : Z) (p : WebSocketFrameParser) : WebSocketFrameParser :=
  let p := p <| current_read_pos_ := current_read_pos_ p + n |>
             <| frame_offset_ := frame_offset_ p + n |> in
  if frame_offset_ p =? payload_length h
  then p <| current_frame_header_ := None |> <| frame_offset_ := 0 |> else p.

(** The bytes of the payload that the buffer has, and the chunk made of them. *)
Definition available (p : WebSocketFrameParser) (h : WebSocketFrameHeader) : Z :=
  Z.min (Z.of_nat (length (unread p))) (payload_length h - frame_offset_ p).
Definition next_chunk (first_chunk : bool) (p : WebSocketFrameParser) (h : WebSocketFrameHeader) :
    WebSocketFrameChunk :=
  mkWebSocketFrameChunk (if first_chunk then Some h else None)
    (frame_offset_ p + available p h =? payload_length h)
    (if available p h =? 0 then None
     else Some (unmasked h (masking_key_ p) (frame_offset_ p)
                  (take (Z.to_nat (available p h)) (unread p)))).

(** A frame that is not complete has used up the buffer. *)
Lemma advance_inv p h :
  in_frame p h → let p' := advance h (available p h) p in
  parser_inv p' ∧
  (current_frame_header_ p' = None ∨ current_frame_header_ p' = Some h ∧ unread p' = []) ∧
  length (unread p') = (length (unread p) - Z.to_nat (available p h))%nat.
Proof.
  intros (He & Hp & Hl & Hbs & Hh & Ho & HL) p'. pose proof (unread_length p Hp) as Eu.
  assert (unread p' = drop (Z.to_nat (current_read_pos_ p + available p h)) (buffer_ p) ∧
    parser_inv p' ∧ (current_frame_header_ p' = None ∨ current_frame_header_ p' = Some h ∧
      available p h = Z.of_nat (length (unread p)))) as (E & Hinv & Hc).
  { subst p'. unfold advance, unread at 1, parser_inv, available. cbn.
    destruct (Z.eqb_spec (frame_offset_ p +
      Z.min (Z.of_nat (length (unread p))) (payload_length h - frame_offset_ p)) (payload_length h)); cbn.
    - split_and!; try done; try lia. by left.
    - rewrite Hh. split_and!; try done; try lia. right. split; [done|lia]. }
  assert (length (unread p') = (length (unread p) - Z.to_nat (available p h))%nat) as El.
  { rewrite E, length_drop. unfold available in *. lia. }
  split_and!; [done| |done]. destruct Hc as [|[? Ea]]; [by left|right].
  split; [done|]. apply nil_length_inv. lia.
Qed.

Section Steps.
Context (kPackedMaskKeySize : Z) (io_data : WebSocketFrameParser → Z).
Hypothesis word_size : 4 <= kPackedMaskKeySize.
Hypothesis word_keys : kPackedMaskKeySize mod 4 = 0.

Lemma DecodeFramePayload_spec first_chunk p h :
  in_frame p h →
  DecodeFramePayload kPackedMaskKeySize io_data first_chunk p
    = Done (next_chunk first_chunk p h, advance h (available p h) p).
Proof.
  intros (_ & Hp & Hl & _ & Hh & Ho & HL). unfold INT32_MAX in HL. pose proof (unread_length p Hp) as Eu.
  unfold DecodeFramePayload. rewrite Hh, Clone_same. fold (unread p). rewrite <- Eu.
  assert (s32 (Z.min (u64 (Z.of_nat (length (unread p)))) (u64 (payload_length h - frame_offset_ p)))
    = available p h) as ->.
  { unfold u64, available. rewrite !Z.mod_small by lia. apply s32_small. lia. }
  assert (0 <= available p h <= payload_length h - frame_offset_ p) as Ha by (unfold available; lia).
  unfold advance, next_chunk. destruct (Z.eqb_spec (available p h) 0) as [En|Hn].
  { step_done. pass_DCHECK ltac:(apply Z.leb_le; lia).
    rewrite En. destruct p. cbn in *. subst. rewrite !Z.add_0_r. by destruct (_ =? _). }
  assert (∀ bytes : list Z, (if masked h
    then MaskWebSocketFramePayload kPackedMaskKeySize (masking_key_ p) (frame_offset_ p) (io_data p) bytes
    else Done bytes) = Done (unmasked h (masking_key_ p) (frame_offset_ p) bytes)) as ->.
  { intros bytes. unfold unmasked. destruct (masked h); [|done]. apply masked_bytewise; lia || done. }
  step_done. cbn [frame_offset_].
  assert (u64 (frame_offset_ p + available p h) = frame_offset_ p + available p h) as Eo
    by (apply Z.mod_small; lia).
  cbn. rewrite Eo. pass_DCHECK ltac:(apply Z.leb_le; lia).
  by destruct (_ =? _).
Qed.

(** What the loop does behind a step. *)
Definition next_step (fuel : nat) (p : WebSocketFrameParser) (chunks : list WebSocketFrameChunk) :
    outcome (option (bool * WebSocketFrameParser * list WebSocketFrameChunk)) :=
  match current_frame_header_ p with
  | None => decode_loop kPackedMaskKeySize io_data fuel p chunks
  | Some _ => Done (Some (true, p, chunks))
  end.

Lemma loop_payload fuel first_chunk p h chunks :
  in_frame p h →
  (r ← DecodeFramePayload kPackedMaskKeySize io_data first_chunk p;
   let '(chunk, p) := r : WebSocketFrameChunk * WebSocketFrameParser in
   let chunks := chunks ++ [chunk] in
   match current_frame_header_ p with
   | Some _ =>
       DCHECK (current_read_pos_ p =? Z.of_nat (length (buffer_ p))) ;;
       Done (Some (true, p, chunks))
   | None => decode_loop kPackedMaskKeySize io_data fuel p chunks
   end) = next_step fuel (advance h (available p h) p) (chunks ++ [next_chunk first_chunk p h]).
Proof.
  intros Hin. rewrite (DecodeFramePayload_spec _ _ h), Done_bind by done. cbv beta iota zeta.
  destruct (advance_inv p h Hin) as (Hinv & Hc & _). unfold next_step.
  destruct Hc as [->|[-> E]]; [done|]. destruct Hinv as (_ & Hp & _).
  pose proof (unread_length _ Hp) as Eu. rewrite E in Eu. cbn in Eu.
  by pass_DCHECK ltac:(apply Z.eqb_eq; lia).
Qed.

Lemma loop_in_frame fuel p h chunks :
  in_frame p h → unread p ≠ [] →
  decode_loop kPackedMaskKeySize io_data (S fuel) p chunks
    = next_step fuel (advance h (available p h) p) (chunks ++ [next_chunk false p h]).
Proof.
  intros Hin Hu. rewrite <- loop_payload by done. destruct Hin as (_ & Hp & _ & _ & Hh & _).
  pose proof (unread_length p Hp). cbn [decode_loop].
  destruct (Z.ltb_spec (current_read_pos_ p) (Z.of_nat (length (buffer_ p)))).
  2: { destruct Hu. apply nil_length_inv. lia. }
  rewrite Hh, bool_decide_true, Done_bind by done. cbv beta iota zeta.
  cbn [negb andb]. by rewrite bool_decide_false by (by rewrite Hh).
Qed.

Lemma loop_idle fuel p p1 chunks :
  current_frame_header_ p = None → current_read_pos_ p < Z.of_nat (length (buffer_ p)) →
  DecodeFrameHeader p = Done p1 →
  decode_loop kPackedMaskKeySize io_data (S fuel) p chunks
    = if bool_decide (websocket_error_ p1 ≠ kWebSocketNormalClosure) then Done (Some (false, p1, chunks))
      else if bool_decide (current_frame_header_ p1 = None) then Done (Some (true, p1, chunks))
      else r ← DecodeFramePayload kPackedMaskKeySize io_data true p1;
        let '(chunk, p) := r : WebSocketFrameChunk * WebSocketFrameParser in
        let chunks := chunks ++ [chunk] in
        match current_frame_header_ p with
        | Some _ =>
            DCHECK (current_read_pos_ p =? Z.of_nat (length (buffer_ p))) ;;
            Done (Some (true, p, chunks))
        | None => decode_loop kPackedMaskKeySize io_data fuel p chunks
        end.
Proof.
  intros Hh Hmore E. cbn [decode_loop]. rewrite (proj2 (Z.ltb_lt _ _)), Hh, bool_decide_false by
    (done || by intros []). by rewrite E.
Qed.

(** What holds between two calls of [Decode]. *)
Definition carried_over (p : WebSocketFrameParser) : Prop :=
  websocket_error_ p ≠ kWebSocketNormalClosure ∨
  parser_inv p ∧
  match current_frame_header_ p with
  | None => (length (unread p) < 14)%nat
  | Some _ => unread p = []
  end.

Definition loop_result (chunks : list WebSocketFrameChunk)
    (r : outcome (option (bool * WebSocketFrameParser * list WebSocketFrameChunk))) : Prop :=
  ∃ ok p' new, r = Done (Some (ok, p', chunks ++ new)) ∧ carried_over p' ∧
    (ok = true ↔ websocket_error_ p' = kWebSocketNormalClosure) ∧
    (ok = false → buffer_ p' = []).

Lemma loop_result_app chunks new r : loop_result (chunks ++ new) r → loop_result chunks r.
Proof. intros (ok & p & new' & E & H). exists ok, p, (new ++ new'). by rewrite app_assoc. Qed.

Lemma next_step_result fuel p h chunks :
  in_frame p h →
  (∀ p chunks, parser_inv p → (length (unread p) < fuel)%nat →
     loop_result chunks (decode_loop kPackedMaskKeySize io_data fuel p chunks)) →
  (length (unread p) - Z.to_nat (available p h) < fuel)%nat →
  loop_result chunks (next_step fuel (advance h (available p h) p) chunks).
Proof.
  intros Hin IH Hf. destruct (advance_inv p h Hin) as (Hinv & Hc & El). unfold next_step.
  destruct (current_frame_header_ _) as [h'|] eqn:E'; [|apply IH; [done|lia]].
  destruct Hc as [|[_ E]]; [done|]. eexists true, _, []. rewrite app_nil_r.
  split_and!; [done| |by destruct Hinv|done]. right. by rewrite E'.
Qed.

Lemma decode_loop_returns fuel : ∀ p chunks,
  parser_inv p → (length (unread p) < fuel)%nat →
  loop_result chunks (decode_loop kPackedMaskKeySize io_data fuel p chunks).
Proof.
  induction fuel as [|fuel IH]; intros p chunks Hinv Hfuel; [lia|].
  pose proof Hinv as (He & Hp & Hl & Hbs & Ho). pose proof (unread_length p Hp) as Eu.
  destruct (Z.ltb_spec (current_read_pos_ p) (Z.of_nat (length (buffer_ p)))) as [Hmore|].
  2: { cbn [decode_loop]. rewrite (proj2 (Z.ltb_ge _ _)) by done. exists true, p, []. rewrite app_nil_r.
       assert (unread p = []) as E by (apply nil_length_inv; lia).
       split_and!; [done| |done|done]. right. split; [done|]. rewrite E. case_match; [done|cbn; lia]. }
  destruct (current_frame_header_ p) as [h|] eqn:Hh.
  - destruct (parser_inv_in_frame p h Hinv Hh) as [Hin Hlt].
    rewrite (loop_in_frame fuel p h) by first [done | intros E; rewrite E in Eu; cbn in Eu; lia].
    eapply loop_result_app, next_step_result; [done|done|unfold available; lia].
  - destruct (DecodeFrameHeader_cases p Hinv Hh) as [[E H14]|[(p1 & E & Herr & Eb)|(h & key & n & E & Hn & HL)]];
      rewrite (loop_idle fuel p _ chunks Hh Hmore E).
    + rewrite bool_decide_false, bool_decide_true by (done || by intros []). exists true, p, [].
      rewrite app_nil_r. split_and!; [done| |done|done]. right. split; [done|]. by rewrite Hh.
    + rewrite bool_decide_true by done. exists false, p1, []. rewrite app_nil_r.
      split_and!; [done|by left| |done]. by split.
    + set (p1 := p <| masking_key_ := _ |> <| current_frame_header_ := _ |> <| current_read_pos_ := _ |>).
      rewrite bool_decide_false, bool_decide_false by (done || by intros []).
      assert (in_frame p1 h) as Hin by (unfold in_frame, p1; cbn; split_and!; done || lia).
      rewrite (loop_payload fuel true p1 h) by done.
      eapply loop_result_app, next_step_result; [done|done|].
      assert (Z.of_nat (length (unread p1)) = Z.of_nat (length (unread p)) - n).
      { rewrite (unread_length p1) by apply Hin. cbn. lia. }
      lia.
Qed.

(** What holds between two calls of [Decode]. *)
Definition waiting (p : WebSocketFrameParser) : Prop :=
  carried_over p ∧
  (websocket_error_ p = kWebSocketNormalClosure → current_read_pos_ p = 0) ∧
  (websocket_error_ p ≠ kWebSocketNormalClosure → buffer_ p = []).

Lemma waiting_buffer p : waiting p → (length (buffer_ p) < 14)%nat.
Proof.
  intros (Hc & Hpos & Hb). destruct (decide (websocket_error_ p = kWebSocketNormalClosure)) as [E|E].
  2: { rewrite Hb by done. cbn. lia. }
  destruct Hc as [|[_ Hc]]; [done|]. unfold unread in Hc. rewrite (Hpos E), drop_0 in Hc.
  destruct (current_frame_header_ p); [|done]. rewrite Hc. cbn. lia.
Qed.

(** The end of [Decode]: what is read is dropped. *)
Lemma drain_waiting p :
  websocket_error_ p = kWebSocketNormalClosure → carried_over p →
  waiting (p <| buffer_ := unread p |> <| current_read_pos_ := 0 |>).
Proof.
  intros He [|[(_ & Hp & Hl & Hbs & Ho) Hc]]; [done|]. pose proof (unread_length p Hp).
  split; [|by split]. right. split.
  - unfold parser_inv. cbn. split_and!; try done; try lia. by apply unread_bytes.
  - unfold unread at 2 3. cbn [current_frame_header_ current_read_pos_ buffer_]. by rewrite drop_0.
Qed.

Lemma Decode_returns p bytes chunks :
  waiting p → Forall byte_ok bytes → Z.of_nat (length bytes) < 2 ^ 63 →
  ∃ ok p' new, Decode kPackedMaskKeySize io_data bytes p chunks = Done (Some (ok, p', chunks ++ new)) ∧
    waiting p' ∧ (ok = true ↔ websocket_error_ p' = kWebSocketNormalClosure) ∧
    (websocket_error_ p ≠ kWebSocketNormalClosure → p' = p ∧ new = []).
Proof.
  intros Hw Hbs Hlen. pose proof (waiting_buffer p Hw) as Hbuf. unfold Decode.
  case_bool_decide as He.
  { exists false, p, []. rewrite app_nil_r. by split_and!; [| |split|]. }
  destruct (Nat.eqb_spec (length bytes) 0) as [E0|].
  { exists true, p, []. rewrite app_nil_r. by split_and!; [| |split|]. }
  set (p1 := p <| buffer_ := buffer_ p ++ bytes |>).
  assert (parser_inv p1) as Hinv.
  { destruct Hw as ([|[(_ & Hp & Hl & Hb & Ho) _]] & _); [done|]. unfold parser_inv, p1. cbn.
    rewrite length_app. split_and!; try done; try lia. by apply Forall_app. }
  destruct (decode_loop_returns (S (length (buffer_ p1))) p1 chunks Hinv) as (ok & p' & new & E & Hc & Hok & Hb).
  { unfold unread. rewrite length_drop. lia. }
  rewrite E. step_done. destruct ok.
  - fold (unread p'). pose proof (drain_waiting p' (proj1 Hok eq_refl) Hc) as Hw'.
    pass_DCHECK ltac:(apply Z.ltb_lt; change kMaximumFrameHeaderSize with 14; apply waiting_buffer in Hw'; lia).
    do 3 eexists. split_and!; [done|done|done|]. by intros [].
  - assert (websocket_error_ p' ≠ kWebSocketNormalClosure) as Herr by (intros E'; by apply Hok in E').
    do 3 eexists. split_and!; [done| |done|by intros []]. split; [done|]. split; [done|]. intros _. by apply Hb.
Qed.

(** The states of a parser. *)
Inductive decoding : WebSocketFrameParser → Prop :=
  | decoding_init : decoding init_WebSocketFrameParser
  | decoding_step p bytes chunks ok p' chunks' :
      decoding p → Forall byte_ok bytes → Z.of_nat (length bytes) < 2 ^ 63 →
      Decode kPackedMaskKeySize io_data bytes p chunks = Done (Some (ok, p', chunks')) →
      decoding p'.

Lemma decoding_waiting p : decoding p → waiting p.
Proof.
  induction 1 as [|p bytes chunks ok p' chunks' _ IH Hbs Hlen E].
  - split; [|done]. right. unfold parser_inv, unread. cbn. rewrite drop_nil. cbn. split_and!; done || lia.
  - destruct (Decode_returns p bytes chunks IH Hbs Hlen) as (? & ? & ? & E' & Hw & _).
    rewrite E' in E. by simplify_eq.
Qed.
End Steps.

(** ** Any bytes *)

(** [C33] Whatever bytes a connection brings, in whatever pieces: [Decode] returns, with no
    check failed and its loop at an end; it gives out the chunks so far and some more; what
    it keeps for the next call is shorter than the longest header; it returns [true] just
    when there is no error; and once there is an error it does nothing more. *)
Theorem decoding_any_bytes (kPackedMaskKeySize : Z) (io_data : WebSocketFrameParser → Z)
    (p : WebSocketFrameParser) (bytes : list Z) (chunks : list WebSocketFrameChunk) :
  4 <= kPackedMaskKeySize → kPackedMaskKeySize mod 4 = 0 →
  decoding kPackedMaskKeySize io_data p →
  Forall byte_ok bytes → Z.of_nat (length bytes) < 2 ^ 63 →
  ∃ ok p' new,
    Decode kPackedMaskKeySize io_data bytes p chunks = Done (Some (ok, p', chunks ++ new)) ∧
    Z.of_nat (length (buffer_ p')) < kMaximumFrameHeaderSize ∧
    (ok = true ↔ websocket_error_ p' = kWebSocketNormalClosure) ∧
    (websocket_error_ p ≠ kWebSocketNormalClosure → p' = p ∧ new = []).
Proof.
  intros HK Hdiv Hp Hbs Hlen. apply decoding_waiting in Hp; [|done..].
  destruct (Decode_returns kPackedMaskKeySize io_data HK Hdiv p bytes chunks Hp Hbs Hlen)
    as (ok & p' & new & E & Hw & H).
  exists ok, p', new. split; [done|]. split; [|done].
  apply waiting_buffer in Hw. change kMaximumFrameHeaderSize with 14. lia.
Qed.

(** A text frame of 3 bytes, and then a header whose length should have been shorter. *)
Lemma decoding_any_bytes_witness :
  ∃ ok p' new,
    Decode 8 (λ _, 4096) [129; 3; 97; 98; 99; 130; 126; 0; 5] init_WebSocketFrameParser []
      = Done (Some (ok, p', [] ++ new)) ∧
    Z.of_nat (length (buffer_ p')) < kMaximumFrameHeaderSize ∧
    (ok = true ↔ websocket_error_ p' = kWebSocketNormalClosure) ∧
    (websocket_error_ init_WebSocketFrameParser ≠ kWebSocketNormalClosure →
       p' = init_WebSocketFrameParser ∧ new = []).
Proof.
  apply (decoding_any_bytes 8 (λ _, 4096) init_WebSocketFrameParser
    [129; 3; 97; 98; 99; 130; 126; 0; 5] []); [lia|done|constructor| |cbn; lia].
  unfold byte_ok. repeat constructor; lia.
Defined.

Example broken_length :
  (r ← Decode 8 (λ _, 4096) [129; 3; 97; 98; 99; 130; 126; 0; 5] init_WebSocketFrameParser [];
   Done (option_map (λ '(ok, p, chunks), (ok, websocket_error_ p, map data chunks)) r))
  = Done (Some (false, kWebSocketErrorProtocolError, [Some [97; 98; 99]])).
Proof. reflexivity. Qed.
