(* ===== verification/WebSocketRoundTrip.v ===== *)
(** * Frames written and read back

    A connection as websocket_basic_stream.cc writes it, frame after frame, cut into pieces
    in any way, is parsed into chunks that make up the same frames. *)

From S2P Require Import Prelude WebSocketFrame WebSocketFrameParser.

(** ** What is sent and what is received *)

Record frame : Type := mkframe {
  f_header : WebSocketFrameHeader;
  f_key : list Z;
  f_payload : list Z
}.

Definition valid_frame (f : frame) : Prop :=
  0 <= opcode (f_header f) <= kOpCodeMask ∧
  payload_length (f_header f) = Z.of_nat (length (f_payload f)) ∧
  payload_length (f_header f) <= INT32_MAX ∧
  Forall byte_ok (f_key f) ∧ Forall byte_ok (f_payload f) ∧
  (masked (f_header f) = true → length (f_key f) = 4%nat).

(** [address] is that of the buffer of the frame. *)
Definition serialize (kPackedMaskKeySize : Z) (address : frame → Z) (f : frame) : outcome (list Z) :=
  let size := GetWebSocketFrameHeaderSize (f_header f) in
  r ← WriteWebSocketFrameHeader (f_header f)
        (if masked (f_header f) then Some (f_key f) else None) (replicate (Z.to_nat size) 0) size;
  payload ← (if masked (f_header f)
             then MaskWebSocketFramePayload kPackedMaskKeySize (f_key f) 0 (address f) (f_payload f)
             else Done (f_payload f));
  Done (r.2 ++ payload).

Fixpoint serialize_all (kPackedMaskKeySize : Z) (address : frame → Z) (frames : list frame) :
    outcome (list Z) :=
  match frames with
  | [] => Done []
  | f :: frames =>
      bytes ← serialize kPackedMaskKeySize address f;
      more ← serialize_all kPackedMaskKeySize address frames;
      Done (bytes ++ more)
  end.

(** The frames that chunks make up, and the one that is open; [None] if a chunk is out of
    place. *)
Definition add_chunk
    (st : option (list (WebSocketFrameHeader * list Z) * option (WebSocketFrameHeader * list Z)))
    (chunk : WebSocketFrameChunk) :
    option (list (WebSocketFrameHeader * list Z) * option (WebSocketFrameHeader * list Z)) :=
  '(frames, open) ← st;
  '(h, bytes) ← match header chunk, open with
                | Some h, None => Some (h, [])
                | None, Some frame => Some frame
                | _, _ => None
                end;
  let bytes := bytes ++ default [] (data chunk) in
  Some (if final_chunk chunk then (frames ++ [(h, bytes)], None) else (frames, Some (h, bytes))).

Definition assemble (chunks : list WebSocketFrameChunk) :
    option (list (WebSocketFrameHeader * list Z) * option (WebSocketFrameHeader * list Z)) :=
  fold_left add_chunk chunks (Some ([], None)).

Definition sent (f : frame) : WebSocketFrameHeader * list Z := (f_header f, f_payload f).

(** ** Headers *)

Definition header_bytes (f : frame) : list Z :=
  first_byte (f_header f) :: length_bytes (f_header f)
    ++ (if masked (f_header f) then f_key f else []).

Definition wire (f : frame) : list Z := header_bytes f ++ unmasked (f_header f) (f_key f) 0 (f_payload f).

Lemma length_bytes_size h :
  0 <= payload_length h →
  Z.of_nat (length (length_bytes h)) = 1 + extended_length_size h.
Proof.
  intros H. unfold length_bytes, extended_length_size, kMaxPayloadLengthWithoutExtendedLengthField, UINT16_MAX.
  destruct (Z.leb_spec (payload_length h) 125), (Z.ltb_spec 125 (payload_length h)); try lia; cbn [andb].
  - by rewrite (proj2 (Z.ltb_ge _ _)) by lia.
  - destruct (Z.leb_spec (payload_length h) 65535), (Z.ltb_spec 65535 (payload_length h)); try lia; done.
Qed.

Lemma header_bytes_size f :
  valid_frame f →
  Z.of_nat (length (header_bytes f)) = GetWebSocketFrameHeaderSize (f_header f).
Proof.
  intros (_ & HL & _ & _ & _ & Hkey). unfold header_bytes, GetWebSocketFrameHeaderSize. cbn [length].
  pose proof (length_bytes_size (f_header f) ltac:(lia)) as E. rewrite length_app.
  unfold kBaseHeaderSize, kMaskingKeyLength. destruct (masked (f_header f)); [specialize (Hkey eq_refl)|cbn]; lia.
Qed.

(** The header is written in front of what the buffer had. *)
Lemma WriteWebSocketFrameHeader_bytes f buffer :
  valid_frame f → (length (header_bytes f) <= length buffer)%nat →
  WriteWebSocketFrameHeader (f_header f) (if masked (f_header f) then Some (f_key f) else None)
    buffer (Z.of_nat (length buffer))
  = Done (Z.of_nat (length (header_bytes f)), header_bytes f ++ drop (length (header_bytes f)) buffer).
Proof.
  intros Hf Hl. pose proof (header_bytes_size f Hf) as Hsize.
  destruct Hf as (Hop & HL & Hmax & _). unfold WriteWebSocketFrameHeader.
  unfold kOpCodeMask, INT32_MAX, INT64_MAX in *.
  pass_DCHECK ltac:(apply Z.eqb_eq; rewrite (Z.land_ones _ 4) by lia; apply Z.mod_small; lia).
  pass_DCHECK ltac:(apply Z.leb_le; lia).
  pass_DCHECK ltac:(apply Z.leb_le; lia).
  rewrite <- Hsize, (proj2 (Z.ltb_ge _ _)) by lia.
  assert ((if masked (f_header f)
    then match (if masked (f_header f) then Some (f_key f) else None) with
         | Some key => Done key | None => DcheckFailed end
    else DCHECK (bool_decide ((if masked (f_header f) then Some (f_key f) else None) = None)) ;; Done [])
    = Done (if masked (f_header f) then f_key f else [])) as -> by (by destruct (masked (f_header f))).
  rewrite Done_bind. cbv beta zeta. fold (header_bytes f).
  pass_DCHECK ltac:(by apply Z.eqb_refl).
  by pass_DCHECK ltac:(apply Z.leb_le; lia).
Qed.

Lemma serialize_wire K address f :
  4 <= K → K mod 4 = 0 → valid_frame f → serialize K address f = Done (wire f).
Proof.
  intros HK Hdiv Hf. pose proof (header_bytes_size f Hf) as Hsize. unfold serialize. rewrite <- Hsize, Nat2Z.id.
  pose proof (WriteWebSocketFrameHeader_bytes f (replicate (length (header_bytes f)) 0) Hf) as E.
  rewrite length_replicate in E. rewrite E, Done_bind by lia. cbn [snd].
  rewrite (drop_ge (replicate _ 0)), app_nil_r by (rewrite length_replicate; lia).
  unfold wire, unmasked. destruct (masked (f_header f)); [|done]. by rewrite masked_bytewise by done.
Qed.

Lemma serialize_all_wire K address frames :
  4 <= K → K mod 4 = 0 → Forall valid_frame frames →
  serialize_all K address frames = Done (concat (map wire frames)).
Proof.
  intros HK Hdiv. induction 1 as [|f frames Hf _ IH]; [done|]. cbn [serialize_all map concat].
  by rewrite serialize_wire, Done_bind, IH by done.
Qed.

(** What the bits of the first two bytes say. *)
Lemma first_byte_bits h :
  0 <= opcode h < 16 →
  byte_ok (first_byte h) ∧
  (Z.land (first_byte h) kFinalBit =? 0) = negb (final h) ∧
  (Z.land (first_byte h) kReserved1Bit =? 0) = negb (reserved1 h) ∧
  (Z.land (first_byte h) kReserved2Bit =? 0) = negb (reserved2 h) ∧
  (Z.land (first_byte h) kReserved3Bit =? 0) = negb (reserved3 h) ∧
  Z.land (first_byte h) kOpCodeMask = opcode h.
Proof.
  destruct h as [fin r1 r2 r3 op m L]. unfold first_byte. cbn [final reserved1 reserved2 reserved3 opcode].
  intros Hop. apply (elem_of_seqZ 0 16 op) in Hop. unfold byte_ok.
  change (seqZ 0 16) with [0; 1; 2; 3; 4; 5; 6; 7; 8; 9; 10; 11; 12; 13; 14; 15] in Hop.
  repeat (apply elem_of_cons in Hop as [->|Hop]; [by destruct fin, r1, r2, r3|]).
  by apply elem_of_nil in Hop.
Qed.

Lemma second_byte_bits (m : bool) L :
  0 <= L < 128 →
  byte_ok (Z.lor (bit m kMaskBit) L) ∧
  (Z.land (Z.lor (bit m kMaskBit) L) kMaskBit =? 0) = negb m ∧
  Z.land (Z.lor (bit m kMaskBit) L) kPayloadLengthMask = L.
Proof.
  intros HL. apply (elem_of_seqZ 0 128 L) in HL.
  assert (forallb (λ L, let b := Z.lor (bit m kMaskBit) L in
    (0 <=? b) && (b <? 256) && eqb (Z.land b kMaskBit =? 0) (negb m)
      && (Z.land b kPayloadLengthMask =? L)) (seqZ 0 128) = true) as H by (destruct m; by vm_compute).
  rewrite forallb_forall in H. specialize (H L (proj1 (list_elem_of_In _ _) HL)). cbv beta zeta in H.
  unfold byte_ok. rewrite !andb_true_iff, Z.leb_le, Z.ltb_lt, eqb_true_iff, Z.eqb_eq in H. naive_solver.
Qed.

Lemma app_split {A} (a b tail future : list A) :
  b ++ future = a ++ tail → (length a <= length b)%nat →
  b = a ++ drop (length a) b ∧ drop (length a) b ++ future = tail.
Proof.
  intros E Hl. assert (take (length a) b = a) as Ea.
  { rewrite <- (take_app_le b future) by done. rewrite E. by apply take_app_length'. }
  split; [by rewrite <- Ea at 1; rewrite take_drop|].
  rewrite <- drop_app_le by done. rewrite E. by apply drop_app_length'.
Qed.

(** The length that [length_bytes] wrote is read back, as soon as all of it is there. *)
Lemma read_length_written h current future tail :
  0 <= payload_length h <= INT32_MAX →
  current ++ future = tl (length_bytes h) ++ tail →
  read_length (hd 0 (length_bytes h)) current =
    if (length current <? length (tl (length_bytes h)))%nat then None
    else Some (payload_length h, drop (length (tl (length_bytes h))) current, kWebSocketNormalClosure).
Proof.
  intros HL E. unfold length_bytes, read_length, INT32_MAX, UINT16_MAX, INT64_MAX,
    kMaxPayloadLengthWithoutExtendedLengthField, kPayloadLengthWithTwoByteExtendedLengthField,
    kPayloadLengthWithEightByteExtendedLengthField in *.
  destruct (Z.leb_spec (payload_length h) 125) as [H125|H125]; cbn [hd tl] in *.
  { destruct (second_byte_bits (masked h) (payload_length h)) as (_ & _ & ->); [lia|].
    by rewrite !(proj2 (Z.eqb_neq _ _)) by lia. }
  destruct (Z.leb_spec (payload_length h) 65535) as [H65535|H65535]; cbn [hd tl] in *.
  - destruct (second_byte_bits (masked h) 126) as (_ & _ & ->); [lia|]. cbn [Z.eqb Pos.eqb].
    rewrite Z.mod_small in * by lia.
    destruct (WriteBigEndian_value 2 (payload_length h)) as (_ & El & _); [cbn; lia|]. rewrite El.
    destruct (Z.ltb_spec (Z.of_nat (length current)) 2), (Nat.ltb_spec (length current) 2); try lia; [done|].
    destruct (app_split _ _ _ _ E) as [Ec _]; [lia|].
    assert (ReadBigEndian 2 current = payload_length h) as ->.
    { rewrite Ec. apply big_endian_round_trip; [lia|cbn; lia]. }
    by rewrite (proj2 (Z.leb_gt _ _)) by lia.
  - destruct (second_byte_bits (masked h) 127) as (_ & _ & ->); [lia|]. cbn [Z.eqb Pos.eqb].
    destruct (WriteBigEndian_value 8 (payload_length h)) as (_ & El & _); [cbn; lia|]. rewrite El.
    destruct (Z.ltb_spec (Z.of_nat (length current)) 8), (Nat.ltb_spec (length current) 8); try lia; [done|].
    destruct (app_split _ _ _ _ E) as [Ec _]; [lia|].
    assert (ReadBigEndian 8 current = payload_length h) as ->.
    { rewrite Ec. apply big_endian_round_trip; [lia|cbn; lia]. }
    rewrite (proj2 (Z.leb_gt _ 65535)), !(proj2 (Z.ltb_ge _ _)) by lia. done.
Qed.

Lemma length_bytes_second_byte h :
  0 <= payload_length h →
  ∃ L, 0 <= L < 128 ∧ length_bytes h = Z.lor (bit (masked h) kMaskBit) L :: tl (length_bytes h).
Proof.
  intros HL. unfold length_bytes, kMaxPayloadLengthWithoutExtendedLengthField.
  destruct (Z.leb_spec (payload_length h) 125); [exists (payload_length h); split; [lia|done]|].
  destruct (_ <=? _); [by exists 126|by exists 127].
Qed.

Lemma header_of_bits h :
  0 <= opcode h < 16 →
  {| final := negb (Z.land (first_byte h) kFinalBit =? 0);
     reserved1 := negb (Z.land (first_byte h) kReserved1Bit =? 0);
     reserved2 := negb (Z.land (first_byte h) kReserved2Bit =? 0);
     reserved3 := negb (Z.land (first_byte h) kReserved3Bit =? 0);
     opcode := Z.land (first_byte h) kOpCodeMask;
     masked := masked h; payload_length := payload_length h |} = h.
Proof.
  intros Hop. destruct (first_byte_bits h Hop) as (_ & -> & -> & -> & -> & ->).
  rewrite !negb_involutive. by destruct h.
Qed.

(** The key that the parser keeps. *)
Definition kept_key (f : frame) : list Z :=
  if masked (f_header f) then f_key f else replicate 4 0.

(** A header is read once all of it is there. *)
Lemma DecodeFrameHeader_written f p future tail :
  valid_frame f → current_frame_header_ p = None → frame_offset_ p = 0 →
  unread p ++ future = header_bytes f ++ tail →
  DecodeFrameHeader p =
    if (length (unread p) <? length (header_bytes f))%nat then Done p
    else Done (p <| masking_key_ := kept_key f |> <| current_frame_header_ := Some (f_header f) |>
                 <| current_read_pos_ := current_read_pos_ p + Z.of_nat (length (header_bytes f)) |>).
Proof.
  intros (Hop & HL & Hmax & _ & _ & Hkey) Hh Ho E. unfold DecodeFrameHeader. rewrite Hh. fold (unread p).
  unfold header_bytes, kept_key in *. unfold kOpCodeMask in Hop.
  destruct (length_bytes_second_byte (f_header f)) as (L & HL7 & El); [lia|].
  set (ext := tl (length_bytes (f_header f))) in *. set (key := if masked (f_header f) then f_key f else []) in *.
  pose proof (read_length_written (f_header f)) as Hread. fold ext in Hread. rewrite El in *. cbn [hd app length] in *.
  destruct (unread p) as [|b1 [|b2 current]]; [done..|]. injection E as -> -> E.
  rewrite (Hread current future (key ++ tail)) by (by rewrite ?app_assoc in * || lia).
  destruct (second_byte_bits (masked (f_header f)) L HL7) as (_ & -> & _). rewrite negb_involutive.
  cbn [length]. rewrite length_app.
  destruct (Nat.ltb_spec (length current) (length ext)) as [Hs|Hs].
  { by rewrite (proj2 (Nat.ltb_lt _ _)) by lia. }
  rewrite <- app_assoc in E. destruct (app_split _ _ _ _ E Hs) as [Ec E']. rewrite bool_decide_false by (by intros []).
  rewrite header_of_bits by lia. unfold kMaskingKeyLength. subst key.
  destruct (masked (f_header f)) eqn:Em; cbn [andb length].
  - rewrite (Hkey eq_refl) in *.
    destruct (Z.ltb_spec (Z.of_nat (length (drop (length ext) current))) 4) as [H4|H4]; rewrite length_drop in H4.
    { by rewrite (proj2 (Nat.ltb_lt _ _)) by lia. }
    rewrite (proj2 (Nat.ltb_ge _ _)) by lia. pass_DCHECK ltac:(by rewrite Ho).
    destruct (app_split _ _ _ _ E') as [Ek _]; [rewrite length_drop, (Hkey eq_refl); lia|].
    assert (take 4 (drop (length ext) current) = f_key f) as ->
      by (rewrite Ek; apply take_app_length'; by rewrite (Hkey eq_refl)).
    rewrite !length_drop.
    by replace (Z.of_nat (S (S (length current))) - Z.of_nat (length current - length ext - 4))
      with (Z.of_nat (S (S (length ext + 4)))) by lia.
  - rewrite (proj2 (Nat.ltb_ge _ _)) by lia. pass_DCHECK ltac:(by rewrite Ho).
    rewrite length_drop.
    by replace (Z.of_nat (S (S (length current))) - Z.of_nat (length current - length ext))
      with (Z.of_nat (S (S (length ext + 0)))) by lia.
Qed.

(** ** Payloads *)

Lemma unmasked_app h key bs1 bs2 o :
  unmasked h key o (bs1 ++ bs2) = unmasked h key o bs1 ++ unmasked h key (o + Z.of_nat (length bs1)) bs2.
Proof. unfold unmasked. destruct (masked h); [apply mask_spec_app|done]. Qed.

Lemma unmasked_length h key o bs : length (unmasked h key o bs) = length bs.
Proof. unfold unmasked. destruct (masked h); [apply mask_spec_length|done]. Qed.

Lemma unmasked_twice h key o bs : unmasked h key o (unmasked h key o bs) = bs.
Proof. unfold unmasked. destruct (masked h); [apply mask_spec_involutive|done]. Qed.

Lemma unmasked_kept f o bs : unmasked (f_header f) (kept_key f) o bs = unmasked (f_header f) (f_key f) o bs.
Proof. unfold unmasked, kept_key. by destruct (masked (f_header f)). Qed.

(** A part of what was masked, unmasked in its place. *)
Lemma unmasked_slice h key bs o n :
  (o <= length bs)%nat →
  unmasked h key (Z.of_nat o) (take n (drop o (unmasked h key 0 bs))) = take n (drop o bs).
Proof.
  intros Ho. rewrite <- (take_drop o bs) at 1. rewrite unmasked_app, length_take_le by done.
  rewrite drop_app_length' by (by rewrite unmasked_length, length_take_le). rewrite Z.add_0_l.
  rewrite <- (take_drop n (drop o bs)) at 1. rewrite unmasked_app.
  destruct (Nat.le_gt_cases n (length (drop o bs))).
  - rewrite take_app_length' by (by rewrite unmasked_length, length_take_le). apply unmasked_twice.
  - rewrite (drop_ge (drop o bs)), (take_ge (drop o bs)) by lia.
    rewrite take_ge by (rewrite length_app, !unmasked_length; cbn; lia).
    replace (unmasked h key (Z.of_nat o + _) []) with ([] : list Z) by (unfold unmasked; by destruct (masked h)).
    rewrite app_nil_r. apply unmasked_twice.
Qed.

Lemma unread_advance p h :
  0 <= current_read_pos_ p <= Z.of_nat (length (buffer_ p)) → 0 <= available p h →
  unread (advance h (available p h) p) = drop (Z.to_nat (available p h)) (unread p).
Proof.
  intros Hp Ha. unfold unread. rewrite drop_drop.
  replace (current_read_pos_ (advance h (available p h) p)) with (current_read_pos_ p + available p h)
    by (unfold advance; cbn; by destruct (_ =? _)).
  replace (buffer_ (advance h (available p h) p)) with (buffer_ p) by (unfold advance; cbn; by destruct (_ =? _)).
  f_equal. lia.
Qed.

(** ** The invariant

    [future] are the bytes not yet fed: with those that the parser has not read they are
    the rest of the open frame and the frames behind it. *)

Definition wires (frames : list frame) : list Z := concat (map wire frames).

Definition received (frames : list frame) (future : list Z) (p : WebSocketFrameParser)
    (chunks : list WebSocketFrameChunk) : Prop :=
  parser_inv p ∧
  match current_frame_header_ p with
  | None => ∃ got fs, frames = got ++ fs ∧
      assemble chunks = Some (map sent got, None) ∧ unread p ++ future = wires fs
  | Some h => ∃ got f fs, frames = got ++ f :: fs ∧ h = f_header f ∧ masking_key_ p = kept_key f ∧
      assemble chunks = Some (map sent got, Some (h, take (Z.to_nat (frame_offset_ p)) (f_payload f))) ∧
      unread p ++ future =
        drop (Z.to_nat (frame_offset_ p)) (unmasked h (kept_key f) 0 (f_payload f)) ++ wires fs
  end.

Lemma assemble_snoc chunks chunk : assemble (chunks ++ [chunk]) = add_chunk (assemble chunks) chunk.
Proof. unfold assemble. by rewrite fold_left_app. Qed.

(** The bytes of the next chunk. *)
Lemma next_chunk_bytes f p future rest first_chunk :
  in_frame p (f_header f) → valid_frame f → masking_key_ p = kept_key f →
  unread p ++ future =
    drop (Z.to_nat (frame_offset_ p)) (unmasked (f_header f) (kept_key f) 0 (f_payload f)) ++ rest →
  default [] (data (next_chunk first_chunk p (f_header f))) =
    take (Z.to_nat (available p (f_header f))) (drop (Z.to_nat (frame_offset_ p)) (f_payload f)).
Proof.
  intros Hin (_ & HL & _) Hk E. destruct Hin as (_ & _ & _ & _ & _ & Ho & _).
  set (n := available p (f_header f)). assert (0 <= n) by (unfold n, available; lia).
  unfold next_chunk. fold n. cbn [data]. destruct (Z.eqb_spec n 0) as [->|]; [done|]. cbn [default]. unfold id.
  rewrite Hk, <- (unmasked_slice (f_header f) (kept_key f)) by lia. rewrite Z2Nat.id by lia. f_equal.
  transitivity (take (Z.to_nat n) (unread p ++ future)).
  - symmetry. apply take_app_le. unfold n, available. lia.
  - rewrite E. apply take_app_le. rewrite length_drop, unmasked_length. unfold n, available. lia.
Qed.

(** The part of a frame in front of [n]. *)
Lemma step_received frames future got f fs p chunks (first_chunk : bool) :
  in_frame p (f_header f) → valid_frame f → masking_key_ p = kept_key f →
  frames = got ++ f :: fs →
  assemble chunks = Some (map sent got,
    if first_chunk then None
    else Some (f_header f, take (Z.to_nat (frame_offset_ p)) (f_payload f))) →
  (first_chunk = true → frame_offset_ p = 0) →
  unread p ++ future =
    drop (Z.to_nat (frame_offset_ p)) (unmasked (f_header f) (kept_key f) 0 (f_payload f)) ++ wires fs →
  received frames future (advance (f_header f) (available p (f_header f)) p)
    (chunks ++ [next_chunk first_chunk p (f_header f)]).
Proof.
  intros Hin Hf Hk Efr Hass Hfirst E. pose proof (next_chunk_bytes f p future (wires fs) first_chunk Hin Hf Hk E) as Hb.
  destruct (advance_inv p _ Hin) as (Hinv & _ & _). destruct Hin as (_ & Hp & _ & _ & Hh & Ho & _).
  destruct Hf as (_ & HL & _). set (n := available p (f_header f)) in *. set (o := frame_offset_ p) in *.
  set (W := unmasked (f_header f) (kept_key f) 0 (f_payload f)) in *.
  assert (0 <= n <= payload_length (f_header f) - o ∧ n <= Z.of_nat (length (unread p))) as Hn
    by (unfold n, available; fold o; lia).
  assert (unread (advance (f_header f) n p) ++ future = drop (Z.to_nat (o + n)) W ++ wires fs) as E'.
  { unfold n at 1. rewrite unread_advance by (done || apply Hn). fold n.
    rewrite <- drop_app_le by lia. rewrite E, drop_app_le, drop_drop.
    - do 2 f_equal. lia.
    - unfold W. rewrite length_drop, unmasked_length. lia. }
  assert (assemble (chunks ++ [next_chunk first_chunk p (f_header f)]) =
    let bytes := take (Z.to_nat (o + n)) (f_payload f) in
    Some (if o + n =? payload_length (f_header f) then (map sent got ++ [(f_header f, bytes)], None)
          else (map sent got, Some (f_header f, bytes)))) as Hass'.
  { rewrite assemble_snoc, Hass. unfold add_chunk. cbn [mbind option_bind]. rewrite Hb.
    replace (take (Z.to_nat (o + n)) (f_payload f)) with
      (take (Z.to_nat o) (f_payload f) ++ take (Z.to_nat n) (drop (Z.to_nat o) (f_payload f))).
    2: { rewrite Z2Nat.inj_add by lia. apply take_take_drop. }
    destruct first_chunk; [|done]. by replace (Z.to_nat o) with 0%nat by (specialize (Hfirst eq_refl); lia). }
  split; [done|]. rewrite Hass'. cbv zeta. unfold advance in *. cbn in *. fold o in E' |- *.
  destruct (Z.eqb_spec (o + n) (payload_length (f_header f))) as [Efull|Hopen]; cbn in *.
  - exists (got ++ [f]), fs. rewrite <- app_assoc, map_app. split; [done|]. split.
    + do 4 f_equal. unfold sent. by rewrite take_ge by lia.
    + rewrite E', drop_ge; [done|]. unfold W. rewrite unmasked_length. lia.
  - rewrite Hh. exists got, f, fs. by split_and!.
Qed.

Section Stream.
Context (kPackedMaskKeySize : Z) (io_data : WebSocketFrameParser → Z).
Hypothesis word_size : 4 <= kPackedMaskKeySize.
Hypothesis word_keys : kPackedMaskKeySize mod 4 = 0.
Context (frames : list frame) (frames_valid : Forall valid_frame frames).

(** Nothing more can be done before more bytes come. *)
Definition settled (future : list Z) (p : WebSocketFrameParser) : Prop :=
  match current_frame_header_ p with
  | None => ∀ f tail, valid_frame f → unread p ++ future = header_bytes f ++ tail →
      (length (unread p) < length (header_bytes f))%nat
  | Some _ => unread p = []
  end.

Definition stream_result (future : list Z)
    (r : outcome (option (bool * WebSocketFrameParser * list WebSocketFrameChunk))) : Prop :=
  ∃ p chunks, r = Done (Some (true, p, chunks)) ∧ received frames future p chunks ∧ settled future p.

Lemma next_step_stream fuel future p h chunks :
  in_frame p h → received frames future (advance h (available p h) p) chunks →
  (∀ p chunks, received frames future p chunks → (length (unread p) < fuel)%nat →
     stream_result future (decode_loop kPackedMaskKeySize io_data fuel p chunks)) →
  (length (unread p) - Z.to_nat (available p h) < fuel)%nat →
  stream_result future (next_step kPackedMaskKeySize io_data fuel (advance h (available p h) p) chunks).
Proof.
  intros Hin Hr IH Hf. destruct (advance_inv p h Hin) as (_ & Hc & El). unfold next_step.
  destruct (current_frame_header_ _) as [h'|] eqn:E'; [|apply IH; [done|lia]].
  destruct Hc as [|[_ E]]; [done|]. eexists _, _. split; [done|]. split; [done|].
  unfold settled. by rewrite E'.
Qed.

(** The step that reads a header. *)
Lemma header_stream fuel future p chunks got f fs :
  parser_inv p → current_frame_header_ p = None → valid_frame f → frames = got ++ f :: fs →
  assemble chunks = Some (map sent got, None) →
  unread p ++ future = header_bytes f ++ unmasked (f_header f) (f_key f) 0 (f_payload f) ++ wires fs →
  (length (header_bytes f) <= length (unread p) < S fuel)%nat →
  (∀ p chunks, received frames future p chunks → (length (unread p) < fuel)%nat →
     stream_result future (decode_loop kPackedMaskKeySize io_data fuel p chunks)) →
  let p1 := p <| masking_key_ := kept_key f |> <| current_frame_header_ := Some (f_header f) |>
              <| current_read_pos_ := current_read_pos_ p + Z.of_nat (length (header_bytes f)) |> in
  stream_result future
    (next_step kPackedMaskKeySize io_data fuel (advance (f_header f) (available p1 (f_header f)) p1)
       (chunks ++ [next_chunk true p1 (f_header f)])).
Proof.
  intros (He & Hp & Hl & Hbs & Ho) Hh Hf Efr Hass E Hlen IH p1. rewrite Hh in Ho.
  pose proof (unread_length p Hp) as Eu.
  assert (in_frame p1 (f_header f)) as Hin.
  { destruct Hf as (_ & HL & Hmax & _). unfold in_frame, p1. clear p1 E.
    generalize dependent (length (header_bytes f)); intros n Hn. cbn. rewrite Ho. split_and!; done || lia. }
  assert (unread p1 = drop (length (header_bytes f)) (unread p)) as E1.
  { unfold unread, p1. cbn. rewrite drop_drop. f_equal. lia. }
  assert (0 < length (header_bytes f))%nat by (cbn; lia).
  apply next_step_stream; [done| |done|rewrite E1, length_drop; lia].
  apply (step_received frames future got f fs); [done..|].
  rewrite E1. destruct (app_split _ _ _ _ E) as [_ ->]; [lia|].
  replace (frame_offset_ p1) with 0 by (symmetry; exact Ho). rewrite drop_0. by rewrite unmasked_kept.
Qed.

Lemma decode_loop_stream fuel : ∀ future p chunks,
  received frames future p chunks → (length (unread p) < fuel)%nat →
  stream_result future (decode_loop kPackedMaskKeySize io_data fuel p chunks).
Proof.
  induction fuel as [|fuel IH]; intros future p chunks Hr Hfuel; [lia|].
  pose proof Hr as [Hinv Hcur]. pose proof Hinv as (He & Hp & Hl & Hbs & Ho).
  pose proof (unread_length p Hp) as Eu.
  destruct (Z.ltb_spec (current_read_pos_ p) (Z.of_nat (length (buffer_ p)))) as [Hmore|].
  2: { cbn [decode_loop]. rewrite (proj2 (Z.ltb_ge _ _)) by done. exists p, chunks.
       split; [done|]. split; [done|]. unfold settled.
       assert (unread p = []) as E by (apply nil_length_inv; lia). rewrite E.
       destruct (current_frame_header_ p); [done|]. intros f tail _ _. cbn. lia. }
  destruct (current_frame_header_ p) as [h|] eqn:Hh.
  - destruct Hcur as (got & f & fs & Efr & -> & Hk & Hass & E).
    destruct (parser_inv_in_frame p _ Hinv Hh) as [Hin Hlt].
    assert (valid_frame f) as Hf by (rewrite Efr in frames_valid; decompose_Forall; done).
    rewrite (loop_in_frame _ _ word_size word_keys fuel p _)
      by first [done | intros E'; rewrite E' in Eu; cbn in Eu; lia].
    apply next_step_stream; [done| |by intros; apply IH|unfold available; lia].
    by apply (step_received frames future got f fs).
  - destruct Hcur as (got & [|f fs] & Efr & Hass & E).
    { apply (f_equal length) in E. rewrite length_app in E. cbn in E. lia. }
    assert (valid_frame f) as Hf by (rewrite Efr in frames_valid; decompose_Forall; done).
    unfold wires in E. cbn [map concat] in E. unfold wire in E at 1. rewrite <- app_assoc in E.
    pose proof (DecodeFrameHeader_written f p _ _ Hf Hh Ho E) as Ed.
    destruct (Nat.ltb_spec (length (unread p)) (length (header_bytes f))) as [Hs|Hs];
      rewrite (loop_idle _ _ fuel p _ chunks Hh Hmore Ed).
    + rewrite bool_decide_false, bool_decide_true by (done || by intros []). exists p, chunks.
      split; [done|]. split; [done|]. unfold settled. rewrite Hh. intros f' tail Hf' E'.
      pose proof (DecodeFrameHeader_written f' p _ _ Hf' Hh Ho E') as Ed'. rewrite Ed in Ed'.
      destruct (Nat.ltb_spec (length (unread p)) (length (header_bytes f'))); [done|].
      injection Ed' as Ep. apply (f_equal current_frame_header_) in Ep. cbn in Ep. congruence.
    + rewrite bool_decide_false, bool_decide_false by (done || by intros []).
      rewrite (loop_payload _ _ word_size word_keys fuel true _ (f_header f)).
      * apply (header_stream fuel future p chunks got f fs); try done; try lia. by intros; apply IH.
      * destruct Hf as (_ & HL & Hmax & _). unfold in_frame. clear Ed E.
        generalize dependent (length (header_bytes f)); intros n Hn. cbn. rewrite Ho. split_and!; done || lia.
Qed.

(** What holds of the parser between two calls. *)
Definition streaming (future : list Z) (p : WebSocketFrameParser) (chunks : list WebSocketFrameChunk) : Prop :=
  waiting p ∧ received frames future p chunks ∧ settled future p.

Lemma feed_received bytes future p chunks :
  waiting p → Forall byte_ok bytes → Z.of_nat (length bytes) < 2 ^ 63 →
  received frames (bytes ++ future) p chunks →
  received frames future (p <| buffer_ := buffer_ p ++ bytes |>) chunks.
Proof.
  intros Hw Hbs Hlen [(He & Hp & Hl & Hb & Ho) Hr]. pose proof (waiting_buffer p Hw).
  assert (unread (p <| buffer_ := buffer_ p ++ bytes |>) = unread p ++ bytes) as Eu
    by (apply drop_app_le; lia).
  split.
  - unfold parser_inv. cbn. rewrite length_app. split_and!; try done; try lia. by apply Forall_app.
  - cbn. rewrite Eu. rewrite <- app_assoc. done.
Qed.

Lemma drain_received future p chunks :
  received frames future p chunks → settled future p → carried_over p →
  streaming future (p <| buffer_ := unread p |> <| current_read_pos_ := 0 |>) chunks.
Proof.
  intros Hr Hs Hc. pose proof Hr as [(He & _) Hr'].
  pose proof (drain_waiting p He Hc) as Hw.
  assert (unread (p <| buffer_ := unread p |> <| current_read_pos_ := 0 |>) = unread p) as Eu
    by (apply drop_0).
  split; [done|]. split; [split|].
  - by destruct Hw as [[|[? _]] _].
  - rewrite Eu. exact Hr'.
  - unfold settled. rewrite Eu. exact Hs.
Qed.

Lemma Decode_stream bytes future p chunks :
  streaming (bytes ++ future) p chunks → Forall byte_ok bytes → Z.of_nat (length bytes) < 2 ^ 63 →
  ∃ p' chunks', Decode kPackedMaskKeySize io_data bytes p chunks = Done (Some (true, p', chunks')) ∧
    streaming future p' chunks'.
Proof.
  intros (Hw & Hr & Hs) Hbs Hlen. unfold Decode. rewrite bool_decide_false by (intros []; apply Hr).
  destruct (Nat.eqb_spec (length bytes) 0) as [E0|].
  { apply nil_length_inv in E0 as ->. by exists p, chunks. }
  pose proof (feed_received bytes future p chunks Hw Hbs Hlen Hr) as Hr1.
  set (p1 := p <| buffer_ := buffer_ p ++ bytes |>) in *.
  assert (length (unread p1) < S (length (buffer_ p1)))%nat as Hf by (unfold unread; rewrite length_drop; lia).
  destruct (decode_loop_stream _ future p1 chunks Hr1 Hf) as (p' & chunks' & E & Hr' & Hs').
  destruct (decode_loop_returns _ io_data word_size word_keys _ p1 chunks (proj1 Hr1) Hf)
    as (ok & q & new & Eq & Hc & _). rewrite E in Eq. injection Eq as <- <- _.
  rewrite E. step_done. fold (unread p').
  pose proof (drain_received future p' chunks' Hr' Hs' Hc) as Hst.
  pass_DCHECK ltac:(apply Z.ltb_lt; change kMaximumFrameHeaderSize with 14;
    destruct Hst as (Hw' & _); apply waiting_buffer in Hw'; lia).
  by eexists _, _.
Qed.

Lemma decode_all_stream pieces : ∀ p chunks,
  streaming (concat pieces) p chunks →
  Forall (λ piece, Forall byte_ok piece ∧ Z.of_nat (length piece) < 2 ^ 63) pieces →
  ∃ p' chunks', decode_all kPackedMaskKeySize io_data pieces p chunks = Done (Some (true, p', chunks')) ∧
    streaming [] p' chunks'.
Proof.
  induction pieces as [|piece pieces IH]; intros p chunks Hst Hpieces; [by exists p, chunks|].
  apply Forall_cons_1 in Hpieces as [[Hbs Hlen] Hpieces]. cbn [decode_all concat] in *.
  destruct (Decode_stream piece _ p chunks Hst Hbs Hlen) as (p' & chunks' & -> & Hst').
  rewrite Done_bind. by apply IH.
Qed.

(** At the end nothing is open. *)
Lemma streaming_done p chunks :
  streaming [] p chunks →
  assemble chunks = Some (map sent frames, None) ∧ buffer_ p = [] ∧ current_frame_header_ p = None.
Proof.
  intros (Hw & [Hinv Hr] & Hs). unfold settled in Hs.
  assert (unread p = buffer_ p) as Eu.
  { unfold unread. destruct Hw as (_ & Hpos & _). rewrite Hpos by apply Hinv. apply drop_0. }
  destruct (current_frame_header_ p) as [h|] eqn:Hh.
  - destruct Hr as (got & f & fs & Efr & -> & _ & _ & E). rewrite Hs in E.
    destruct (parser_inv_in_frame p _ Hinv Hh) as [_ Hlt]. destruct Hinv as (_ & _ & _ & _ & Ho).
    rewrite Hh in Ho.
    assert (valid_frame f) as (_ & HL & _) by (rewrite Efr in frames_valid; decompose_Forall; done).
    apply (f_equal length) in E. rewrite !length_app, length_drop, unmasked_length in E. cbn in E. lia.
  - destruct Hr as (got & [|f fs] & Efr & Hass & E).
    + rewrite app_nil_r in *. subst. rewrite Eu in E. done.
    + assert (valid_frame f) as Hf by (rewrite Efr in frames_valid; decompose_Forall; done).
      unfold wires in E. cbn [map concat] in E. unfold wire in E at 1. rewrite <- app_assoc in E.
      specialize (Hs f _ Hf E). rewrite app_nil_r in E. rewrite E, length_app in Hs. lia.
Qed.

Lemma streaming_init bytes : bytes = wires frames → streaming bytes init_WebSocketFrameParser [].
Proof.
  intros ->. assert (unread init_WebSocketFrameParser = []) as Eu by apply drop_nil.
  assert (waiting init_WebSocketFrameParser) as Hw
    by apply (decoding_waiting _ io_data word_size word_keys), decoding_init.
  split; [done|]. split; [split|].
  - by destruct Hw as [[|[? _]] _].
  - exists [], frames. split_and!; [done|done|]. by rewrite Eu.
  - unfold settled. rewrite Eu. intros f tail _ _. cbn. lia.
Qed.
End Stream.

(** ** The bytes of a frame are bytes *)

Lemma lxor_byte a b : byte_ok a → byte_ok b → byte_ok (Z.lxor a b).
Proof.
  unfold byte_ok. intros Ha Hb. assert (0 <= Z.lxor a b) by (apply Z.lxor_nonneg; lia).
  split; [done|]. apply (Z.bounded_iff_bits_nonneg 8); [lia|done|]. intros l Hl. rewrite Z.lxor_spec.
  rewrite (proj1 (Z.bounded_iff_bits_nonneg 8 a ltac:(lia) ltac:(lia)) ltac:(lia) l Hl).
  by rewrite (proj1 (Z.bounded_iff_bits_nonneg 8 b ltac:(lia) ltac:(lia)) ltac:(lia) l Hl).
Qed.

Lemma mask_spec_bytes key o bs :
  Forall byte_ok key → Forall byte_ok bs → Forall byte_ok (mask_spec key o bs).
Proof.
  intros Hkey Hbs. revert o. induction Hbs as [|b bs Hb _ IH]; intros o; [constructor|].
  rewrite mask_spec_cons. constructor; [|by apply IH]. apply lxor_byte; [done|].
  unfold key_byte. rewrite nth_lookup. destruct (key !! _) as [k|] eqn:Ek; [|done].
  by apply (Forall_lookup_1 _ _ _ _ Hkey Ek).
Qed.

Lemma length_bytes_bytes h :
  0 <= payload_length h <= INT32_MAX → Forall byte_ok (length_bytes h).
Proof.
  intros HL. unfold length_bytes, INT32_MAX, kMaxPayloadLengthWithoutExtendedLengthField in *.
  destruct (Z.leb_spec (payload_length h) 125); [|destruct (_ <=? _)];
    (constructor; [apply second_byte_bits; done || lia|]); [constructor|apply WriteBigEndian_value..].
  - apply Z.mod_pos_bound. lia.
  - cbn. lia.
Qed.

Lemma wire_bytes f : valid_frame f → Forall byte_ok (wire f).
Proof.
  intros (Hop & HL & Hmax & Hkey & Hpay & _). unfold wire, header_bytes, kOpCodeMask in *.
  apply Forall_app. split; [constructor; [apply first_byte_bits; lia|apply Forall_app; split]|].
  - apply length_bytes_bytes. lia.
  - by destruct (masked (f_header f)).
  - unfold unmasked. destruct (masked (f_header f)); [by apply mask_spec_bytes|done].
Qed.

Lemma wires_bytes frames : Forall valid_frame frames → Forall byte_ok (wires frames).
Proof.
  induction 1 as [|f fs Hf _ IH]; [constructor|]. apply Forall_app. split; [by apply wire_bytes|done].
Qed.

(** ** The round trip *)

(** [C11] Frames survive the wire, however it cuts them: any frames (of lengths that fit an
    int, masked or not) are written without a check failing; and if the bytes are fed to a
    new parser in pieces of any sizes, every [Decode] succeeds, the chunks are in order, and
    they make up exactly the frames that were written, each with its header and its
    unmasked payload; nothing is left over. *)
Theorem frames_survive (kPackedMaskKeySize : Z) (address : frame → Z)
    (io_data : WebSocketFrameParser → Z) (frames : list frame) :
  4 <= kPackedMaskKeySize → kPackedMaskKeySize mod 4 = 0 → Forall valid_frame frames →
  ∃ bytes, serialize_all kPackedMaskKeySize address frames = Done bytes ∧
    ∀ pieces, concat pieces = bytes →
      Forall (λ piece, Z.of_nat (length piece) < 2 ^ 63) pieces →
      ∃ p chunks,
        decode_all kPackedMaskKeySize io_data pieces init_WebSocketFrameParser []
          = Done (Some (true, p, chunks)) ∧
        assemble chunks = Some (map sent frames, None) ∧
        buffer_ p = [] ∧ current_frame_header_ p = None.
Proof.
  intros HK Hdiv Hframes. exists (wires frames). split; [by apply serialize_all_wire|].
  intros pieces Ecat Hlen. pose proof (wires_bytes frames Hframes) as Hbs. rewrite <- Ecat in Hbs.
  destruct (decode_all_stream kPackedMaskKeySize io_data HK Hdiv frames Hframes pieces
    init_WebSocketFrameParser []) as (p & chunks & E & Hst).
  - by apply (streaming_init kPackedMaskKeySize io_data HK Hdiv).
  - clear Ecat. induction Hlen; constructor; cbn in Hbs; apply Forall_app in Hbs as [? ?]; [done|eauto].
  - exists p, chunks. split; [done|]. by apply streaming_done.
Qed.

Definition example_frames : list frame :=
  [ mkframe (mkWebSocketFrameHeader true false false false kOpCodeText true 3) [1; 2; 3; 200] [97; 98; 99];
    mkframe (mkWebSocketFrameHeader false true false false kOpCodeBinary false 130) [] (replicate 130 7);
    mkframe (mkWebSocketFrameHeader true false false true kOpCodePing true 0) [9; 9; 9; 9] [] ].

Lemma example_frames_valid : Forall valid_frame example_frames.
Proof.
  repeat constructor; cbn; unfold byte_ok; try lia; try done; try (repeat constructor; lia).
Qed.

Lemma frames_survive_witness :
  ∃ bytes, serialize_all 8 (λ _, 1001) example_frames = Done bytes ∧
    ∀ pieces, concat pieces = bytes →
      Forall (λ piece, Z.of_nat (length piece) < 2 ^ 63) pieces →
      ∃ p chunks,
        decode_all 8 (λ _, 4096) pieces init_WebSocketFrameParser [] = Done (Some (true, p, chunks)) ∧
        assemble chunks = Some (map sent example_frames, None) ∧
        buffer_ p = [] ∧ current_frame_header_ p = None.
Proof.
  apply (frames_survive 8 (λ _, 1001) (λ _, 4096) example_frames); [lia|done|].
  apply example_frames_valid.
Defined.

(** The same frames, cut in the middle of headers and payloads. *)
Example frames_cut :
  (bytes ← serialize_all 8 (λ _, 1001) example_frames;
   r ← decode_all 8 (λ _, 4096)
     [take 1 bytes; take 6 (drop 1 bytes); take 4 (drop 7 bytes); drop 11 bytes]
     init_WebSocketFrameParser [];
   Done (option_map (λ '(ok, _, chunks), (ok, length chunks, assemble chunks)) r))
  = Done (Some (true, 4%nat, Some (map sent example_frames, None))).
Proof. vm_compute. reflexivity. Qed.
