(* ===== verification/WebSocketBasicStream.v ===== *)
(** * net/websockets/websocket_basic_stream.{h,cc}: frames over a socket

    [WebSocketBasicStream] writes frames to a socket and reads them from it.  The socket is
    the list of the results its calls will have, with the bytes for a read; a call that
    has no result yet is [ERR_IO_PENDING].  Strings of the handshake, the connection
    handle and the binding of callbacks are left out: a callback that is run is the
    result of the function that runs it. *)

From S2P Require Import Prelude WebSocketFrame WebSocketFrameParser.

Definition ERR_IO_PENDING : Z := -1.
Definition kMaxControlFramePayload : Z := 125.
Definition kReadBufferSize : Z := 32 * 1024.

(** [data] is [None] when it is null. *)
Record WebSocketFrame : Type := mkWebSocketFrame {
  frame_header : WebSocketFrameHeader;
  frame_data : option (list Z)
}.
#[export] Instance eta_WebSocketFrame : Eta WebSocketFrame := λ f,
  mkWebSocketFrame (frame_header f) (frame_data f).

(** [stream_frame_header_] is the [current_frame_header_] of the stream (the parser has one of
    the same name); the body of a control frame, a [GrowableIOBuffer], is the bytes in front
    of its offset. *)
Record WebSocketBasicStream : Type := mkWebSocketBasicStream {
  stream_frame_header_ : option WebSocketFrameHeader;
  incomplete_control_frame_body_ : option (list Z);
  http_read_buffer_ : option (list Z);
  parser_ : WebSocketFrameParser
}.
#[export] Instance eta_WebSocketBasicStream : Eta WebSocketBasicStream := λ s,
  mkWebSocketBasicStream (stream_frame_header_ s) (incomplete_control_frame_body_ s)
    (http_read_buffer_ s) (parser_ s).

(** The constructor. *)
Definition init_WebSocketBasicStream (http_read_buffer : option (list Z)) : WebSocketBasicStream :=
  {| stream_frame_header_ := None; incomplete_control_frame_body_ := None;
     http_read_buffer_ := match http_read_buffer with Some [] => None | b => b end;
     parser_ := init_WebSocketFrameParser |}.

(** ** From chunks to frames *)

Definition data_size (data : option (list Z)) : Z := Z.of_nat (length (default [] data)).

Definition AddToIncompleteControlFrameBody (data_buffer : option (list Z))
    (s : WebSocketBasicStream) : outcome WebSocketBasicStream :=
  match data_buffer with
  | None => Done s
  | Some bytes =>
      match incomplete_control_frame_body_ s with
      | None => DcheckFailed
      | Some body =>
          DCHECK (Z.of_nat (length body) + Z.of_nat (length bytes) <=? kMaxControlFramePayload) ;;
          Done (s <| incomplete_control_frame_body_ := Some (body ++ bytes) |>)
      end
  end.

Definition CreateFrame (is_final_chunk : bool) (bytes : option (list Z)) (s : WebSocketBasicStream) :
    outcome (option WebSocketFrame * WebSocketBasicStream) :=
  match stream_frame_header_ s with
  | None => DcheckFailed
  | Some h =>
      let is_final_chunk_in_message := is_final_chunk && final h in
      let '(result_frame, s) :=
        if is_final_chunk_in_message || (0 <? data_size bytes) ||
           negb (opcode h =? kOpCodeContinuation)
        then (Some {| frame_header := (CopyFrom h (new_WebSocketFrameHeader (opcode h)))
                        <| final := is_final_chunk_in_message |>
                        <| payload_length := data_size bytes |>;
                      frame_data := bytes |},
              if negb is_final_chunk && IsKnownDataOpCode (opcode h)
              then s <| stream_frame_header_ := Some (h <| opcode := kOpCodeContinuation |>
                          <| reserved1 := false |> <| reserved2 := false |>
                          <| reserved3 := false |>) |>
              else s)
        else (None, s) in
      Done (result_frame, if is_final_chunk then s <| stream_frame_header_ := None |> else s)
  end.

(** The end of [ConvertChunkToFrame], where the chunk becomes a frame. *)
Definition convert_to_frame (is_first_chunk is_final_chunk : bool) (bytes : option (list Z))
    (h : WebSocketFrameHeader) (s : WebSocketBasicStream) :
    outcome (Z * option WebSocketFrame * WebSocketBasicStream) :=
  DCHECK (data_size bytes <=? payload_length h) ;;
  DCHECK (negb is_first_chunk || negb is_final_chunk || (payload_length h =? data_size bytes)) ;;
  r ← CreateFrame is_final_chunk bytes s;
  Done (OK, r.1, r.2).

Definition ConvertChunkToFrame (chunk : WebSocketFrameChunk) (s : WebSocketBasicStream) :
    outcome (Z * option WebSocketFrame * WebSocketBasicStream) :=
  s ← match header chunk with
      | Some h =>
          DCHECK (bool_decide (stream_frame_header_ s = None)) ;;
          Done (s <| stream_frame_header_ := Some h |>)
      | None => Done s
      end;
  let is_first_chunk := bool_decide (is_Some (header chunk)) in
  let is_final_chunk := final_chunk chunk in
  match stream_frame_header_ s with
  | None => DcheckFailed
  | Some h =>
      if IsKnownControlOpCode (opcode h) then
        if negb (final h) || (kMaxControlFramePayload <? payload_length h) then
          Done (ERR_WS_PROTOCOL_ERROR, None, s <| stream_frame_header_ := None |>)
        else if negb is_final_chunk then
          let s := match incomplete_control_frame_body_ s with
                   | Some _ => s
                   | None => s <| incomplete_control_frame_body_ := Some [] |>
                   end in
          s ← AddToIncompleteControlFrameBody (data chunk) s;
          Done (OK, None, s)
        else
          match incomplete_control_frame_body_ s with
          | Some _ =>
              s ← AddToIncompleteControlFrameBody (data chunk) s;
              let body := default [] (incomplete_control_frame_body_ s) in
              DCHECK (Z.of_nat (length body) =? payload_length h) ;;
              r ← CreateFrame is_final_chunk (Some body)
                    (s <| incomplete_control_frame_body_ := None |>);
              Done (OK, r.1, r.2)
          | None => convert_to_frame is_first_chunk is_final_chunk (data chunk) h s
          end
      else convert_to_frame is_first_chunk is_final_chunk (data chunk) h s
  end.

(** [frames] is the vector that the frames are appended to. *)
Fixpoint ConvertChunksToFrames (frame_chunks : list WebSocketFrameChunk)
    (frames : list WebSocketFrame) (s : WebSocketBasicStream) :
    outcome (Z * list WebSocketFrame * WebSocketBasicStream) :=
  match frame_chunks with
  | [] => Done (if bool_decide (frames = []) then ERR_IO_PENDING else OK, frames, s)
  | chunk :: frame_chunks =>
      r ← ConvertChunkToFrame chunk s;
      let '(result, frame, s) := r : Z * option WebSocketFrame * WebSocketBasicStream in
      if negb (result =? OK) then Done (result, frames, s)
      else ConvertChunksToFrames frame_chunks (frames ++ option_list frame) s
  end.

(** ** Reading *)

Section Reading.
Context (kPackedMaskKeySize : Z) (io_data : WebSocketFrameParser → Z).

(** The bytes are given to the parser, and its chunks converted; both [ReadFrames], with
    the bytes left over from the handshake, and [HandleReadResult] do this. *)
Definition parse_frames (bytes : list Z) (frames : list WebSocketFrame) (s : WebSocketBasicStream) :
    outcome (Z * list WebSocketFrame * WebSocketBasicStream) :=
  r ← Decode kPackedMaskKeySize io_data bytes (parser_ s) [];
  match r with
  | None => DcheckFailed
  | Some (false, p, _) =>
      Done (WebSocketErrorToNetError (websocket_error_ p), frames, s <| parser_ := p |>)
  | Some (true, p, []) => Done (ERR_IO_PENDING, frames, s <| parser_ := p |>)
  | Some (true, p, frame_chunks) => ConvertChunksToFrames frame_chunks frames (s <| parser_ := p |>)
  end.

(** [read_buffer] has the bytes of the read; [result] is their number, or an error. *)
Definition HandleReadResult (result : Z) (read_buffer : list Z) (frames : list WebSocketFrame)
    (s : WebSocketBasicStream) : outcome (Z * list WebSocketFrame * WebSocketBasicStream) :=
  DCHECK (negb (result =? ERR_IO_PENDING)) ;;
  DCHECK (bool_decide (frames = [])) ;;
  if result <? 0 then Done (result, frames, s)
  else if result =? 0 then Done (ERR_CONNECTION_CLOSED, frames, s)
  else parse_frames (take (Z.to_nat result) read_buffer) frames s.

(** The loop of [ReadFrames].  [reads] are the reads that complete at once; behind them
    the socket has nothing. *)
Fixpoint read_loop (reads : list (Z * list Z)) (frames : list WebSocketFrame)
    (s : WebSocketBasicStream) :
    outcome (Z * list WebSocketFrame * WebSocketBasicStream * list (Z * list Z)) :=
  match reads with
  | [] => Done (ERR_IO_PENDING, frames, s, [])
  | (result, read_buffer) :: reads =>
      r ← HandleReadResult result read_buffer frames s;
      let '(result, frames, s) := r : Z * list WebSocketFrame * WebSocketBasicStream in
      if negb (result =? ERR_IO_PENDING) then Done (result, frames, s, reads)
      else
        DCHECK (bool_decide (frames = [])) ;;
        read_loop reads frames s
  end.

Definition ReadFrames (reads : list (Z * list Z)) (frames : list WebSocketFrame)
    (s : WebSocketBasicStream) :
    outcome (Z * list WebSocketFrame * WebSocketBasicStream * list (Z * list Z)) :=
  DCHECK (bool_decide (frames = [])) ;;
  match http_read_buffer_ s with
  | None => read_loop reads frames s
  | Some buffered_data =>
      r ← parse_frames buffered_data frames (s <| http_read_buffer_ := None |>);
      let '(result, frames, s) := r : Z * list WebSocketFrame * WebSocketBasicStream in
      if negb (result =? ERR_IO_PENDING) then Done (result, frames, s, reads)
      else read_loop reads frames s
  end.

(** A read that was pending completes.  The result is that of the callback, which is not
    run if it is [ERR_IO_PENDING]. *)
Definition OnReadComplete (result : Z) (read_buffer : list Z) (reads : list (Z * list Z))
    (frames : list WebSocketFrame) (s : WebSocketBasicStream) :
    outcome (Z * list WebSocketFrame * WebSocketBasicStream * list (Z * list Z)) :=
  r ← HandleReadResult result read_buffer frames s;
  let '(result, frames, s) := r : Z * list WebSocketFrame * WebSocketBasicStream in
  if result =? ERR_IO_PENDING then ReadFrames reads frames s else Done (result, frames, s, reads).
End Reading.

(** ** Writing *)

Definition kMaximumTotalSize : Z := INT32_MAX.

(** The frames with the masked bit on, and their size. *)
Fixpoint CalculateSerializedSizeAndTurnOnMaskBit (frames : list WebSocketFrame) (total_size : Z) :
    outcome (list WebSocketFrame * Z) :=
  match frames with
  | [] => Done ([], total_size)
  | frame :: frames =>
      let frame := frame <| frame_header := (frame_header frame) <| masked := true |> |> in
      let frame_size := u64 (payload_length (frame_header frame)
                             + GetWebSocketFrameHeaderSize (frame_header frame)) in
      DCHECK (frame_size <=? kMaximumTotalSize - total_size) ;;
      r ← CalculateSerializedSizeAndTurnOnMaskBit frames (total_size + frame_size);
      Done (frame :: r.1, r.2)
  end.

Section Writing.
Context (kPackedMaskKeySize : Z).

(** The loop of [WriteFrames]; the generator of keys gives those of [keys], and [dest] is an
    address.  The result is what the loop wrote and the size that remains. *)
Fixpoint write_loop (frames : list WebSocketFrame) (keys : list (list Z)) (dest : Z)
    (remaining_size : Z) : outcome (list Z * Z) :=
  match frames, keys with
  | [], _ => Done ([], remaining_size)
  | _, [] => DcheckFailed
  | frame :: frames, mask :: keys =>
      r ← WriteWebSocketFrameHeader (frame_header frame) (Some mask)
            (replicate (Z.to_nat remaining_size) 0) remaining_size;
      let '(result, buffer) := r : Z * list Z in
      DCHECK (negb (result =? ERR_INVALID_ARGUMENT)) ;;
      DCHECK (0 <=? result) ;;
      let header_bytes := take (Z.to_nat result) buffer in
      let dest := dest + result in
      let remaining_size := remaining_size - result in
      DCHECK (payload_length (frame_header frame) <=? remaining_size) ;;
      let frame_size := s32 (payload_length (frame_header frame)) in
      payload ← (if 0 <? frame_size then
                   let bytes := default [] (frame_data frame) in
                   DCHECK (frame_size <=? Z.of_nat (length bytes)) ;;
                   MaskWebSocketFramePayload kPackedMaskKeySize mask 0 dest
                     (take (Z.to_nat frame_size) bytes)
                 else Done []);
      let size := if 0 <? frame_size then frame_size else 0 in
      w ← write_loop frames keys (dest + size) (remaining_size - size);
      Done (header_bytes ++ payload ++ w.1, w.2)
  end.

(** The bytes of [combined_buffer]. *)
Definition combine_frames (frames : list WebSocketFrame) (keys : list (list Z)) (address : Z) :
    outcome (list Z) :=
  r ← CalculateSerializedSizeAndTurnOnMaskBit frames 0;
  let '(frames, total_size) := r : list WebSocketFrame * Z in
  w ← write_loop frames keys address (s32 total_size);
  let '(bytes, remaining_size) := w : list Z * Z in
  DCHECK (remaining_size =? 0) ;;
  Done bytes.
End Writing.

(** The socket takes as many bytes as its result says; [writes] are its results.  The
    result is that of the function, the bytes that were taken and those that remain. *)
Fixpoint WriteEverything (writes : list Z) (buffer : list Z) : outcome (Z * list Z * list Z) :=
  match buffer, writes with
  | [], _ => Done (OK, [], [])
  | _, [] => Done (ERR_IO_PENDING, [], buffer)
  | _, result :: writes =>
      if 0 <? result then
        DCHECK (result <=? Z.of_nat (length buffer)) ;;
        r ← WriteEverything writes (drop (Z.to_nat result) buffer);
        let '(code, taken, rest) := r : Z * list Z * list Z in
        Done (code, take (Z.to_nat result) buffer ++ taken, rest)
      else Done (result, [], buffer)
  end.

(** A write that was pending completes. *)
Definition OnWriteComplete (result : Z) (writes : list Z) (buffer : list Z) :
    outcome (Z * list Z * list Z) :=
  if result <? 0 then
    DCHECK (negb (result =? ERR_IO_PENDING)) ;;
    Done (result, [], buffer)
  else
    DCHECK (negb (result =? 0)) ;;
    DCHECK (result <=? Z.of_nat (length buffer)) ;;
    r ← WriteEverything writes (drop (Z.to_nat result) buffer);
    let '(code, taken, rest) := r : Z * list Z * list Z in
    Done (code, take (Z.to_nat result) buffer ++ taken, rest).

Definition WriteFrames (kPackedMaskKeySize : Z) (frames : list WebSocketFrame) (keys : list (list Z))
    (address : Z) (writes : list Z) : outcome (Z * list Z * list Z) :=
  bytes ← combine_frames kPackedMaskKeySize frames keys address;
  WriteEverything writes bytes.
