(* ===== verification/WebSocketMessages.v ===== *)
(** * Messages over a WebSocket connection

    What websocket_basic_stream.cc promises to the code above it: the frames that it
    gives out are not those that were sent, since a frame can arrive in pieces, but they
    carry the same messages. *)

From S2P Require Import Prelude WebSocketFrame WebSocketFrameParser WebSocketRoundTrip WebSocketBasicStream.

(** ** Messages

    A control frame is a message of its own; a data message starts with a text or binary
    frame and goes on with continuations up to a final frame (RFC 6455, section 5.4). *)

Definition message_start : Type := OpCode * bool * bool * bool.
Definition start_of (h : WebSocketFrameHeader) : message_start :=
  (opcode h, reserved1 h, reserved2 h, reserved3 h).

Inductive message : Type :=
  | ControlMessage (start : message_start) (payload : list Z)
  | DataMessage (start : message_start) (payload : list Z).

(** The messages so far, and the data message that is open. *)
Definition session : Type := list message * option (message_start * list Z).

(** [None]: the frames are not messages. *)
Definition deliver_frame (st : option session) (f : WebSocketFrameHeader * list Z) : option session :=
  '(messages, open) ← st;
  let '(h, payload) := f in
  if IsKnownControlOpCode (opcode h) then
    if final h && (payload_length h <=? kMaxControlFramePayload)
    then Some (messages ++ [ControlMessage (start_of h) payload], open) else None
  else
    '(start, bytes) ← (if opcode h =? kOpCodeContinuation then open
                       else if IsKnownDataOpCode (opcode h)
                       then match open with None => Some (start_of h, []) | Some _ => None end
                       else None);
    Some (if final h then (messages ++ [DataMessage start (bytes ++ payload)], None)
          else (messages, Some (start, bytes ++ payload))).

Definition deliver (frames : list (WebSocketFrameHeader * list Z)) : option session :=
  fold_left deliver_frame frames (Some ([], None)).

Definition content (f : WebSocketFrame) : WebSocketFrameHeader * list Z :=
  (frame_header f, default [] (frame_data f)).

(** A caller that reads until the stream waits for the socket: its frames are those of all
    calls of [ReadFrames] up to the first that does not return [OK]. *)
Fixpoint read_all (kPackedMaskKeySize : Z) (io_data : WebSocketFrameParser → Z) (fuel : nat)
    (reads : list (Z * list Z)) (frames : list WebSocketFrame) (s : WebSocketBasicStream) :
    outcome (option (Z * list WebSocketFrame * WebSocketBasicStream)) :=
  match fuel with
  | O => Done None
  | S fuel =>
      r ← ReadFrames kPackedMaskKeySize io_data reads [] s;
      let '(result, vec, s, reads) := r : Z * list WebSocketFrame * WebSocketBasicStream * list (Z * list Z) in
      if result =? OK then read_all kPackedMaskKeySize io_data fuel reads (frames ++ vec) s
      else Done (Some (result, frames ++ vec, s))
  end.

Lemma data_opcodes op : IsKnownDataOpCode op = true ↔
  op = kOpCodeContinuation ∨ op = kOpCodeText ∨ op = kOpCodeBinary.
Proof. unfold IsKnownDataOpCode. rewrite !orb_true_iff, !Z.eqb_eq. tauto. Qed.

Lemma data_not_control op : IsKnownDataOpCode op = true → IsKnownControlOpCode op = false.
Proof. by intros [-> | [-> | ->]]%data_opcodes. Qed.

Lemma deliver_snoc frames f : deliver (frames ++ [f]) = deliver_frame (deliver frames) f.
Proof. unfold deliver. by rewrite fold_left_app. Qed.

Lemma deliver_None frames : fold_left deliver_frame frames None = None.
Proof. by induction frames. Qed.

Lemma deliver_prefix frames more : is_Some (deliver (frames ++ more)) → is_Some (deliver frames).
Proof.
  unfold deliver. rewrite fold_left_app. destruct (fold_left deliver_frame frames _) eqn:E; [by eexists|].
  rewrite deliver_None. by intros [].
Qed.

Lemma deliver_frame_prefix st f : is_Some (deliver_frame st f) → is_Some st.
Proof. destruct st; [by eexists|by intros []]. Qed.

(** Whether a frame can come does not depend on its payload. *)
Lemma deliver_frame_payload st h b b' :
  is_Some (deliver_frame st (h, b)) → is_Some (deliver_frame st (h, b')).
Proof.
  destruct st as [[ms open]|]; [|done]. unfold deliver_frame. cbn [mbind option_bind].
  destruct (IsKnownControlOpCode (opcode h)); [by destruct (final h && _); [eexists|]|].
  destruct (if opcode h =? kOpCodeContinuation then _ else _) as [[start bytes]|]; [|done].
  by eexists.
Qed.

(** A data frame with another flag at its end. *)
Lemma deliver_frame_final st h b v :
  IsKnownControlOpCode (opcode h) = false →
  is_Some (deliver_frame st (h, b)) → is_Some (deliver_frame st (h <| final := v |>, b)).
Proof.
  intros Hc. destruct st as [[ms open]|]; [|done]. unfold deliver_frame. cbn. rewrite Hc.
  destruct (if opcode h =? kOpCodeContinuation then _ else _) as [[start bytes]|]; [|done].
  by eexists.
Qed.

Lemma deliver_control st h b :
  IsKnownControlOpCode (opcode h) = true → is_Some (deliver_frame st (h, b)) →
  final h = true ∧ payload_length h <= kMaxControlFramePayload.
Proof.
  intros Hc. destruct st as [[ms open]|]; [|by intros []]. unfold deliver_frame. cbn [mbind option_bind].
  rewrite Hc. destruct (final h); cbn [andb]; [|by intros []].
  destruct (Z.leb_spec (payload_length h) kMaxControlFramePayload); [done|by intros []].
Qed.

Lemma deliver_data st h b :
  IsKnownControlOpCode (opcode h) = false → is_Some (deliver_frame st (h, b)) →
  IsKnownDataOpCode (opcode h) = true.
Proof.
  intros Hc. destruct st as [[ms open]|]; [|by intros []]. unfold deliver_frame. cbn [mbind option_bind].
  rewrite Hc. destruct (Z.eqb_spec (opcode h) kOpCodeContinuation) as [->|]; [done|].
  destruct (IsKnownDataOpCode (opcode h)); [done|]. by intros [].
Qed.

(** A data frame may be sent as a first part and a continuation. *)
Lemma deliver_split st h h' b x :
  IsKnownControlOpCode (opcode h) = false → opcode h' = kOpCodeContinuation →
  deliver_frame (deliver_frame st (h <| final := false |>, b)) (h', x)
    = deliver_frame st (h <| final := final h' |>, b ++ x).
Proof.
  intros Hc Hc'. destruct st as [[ms open]|]; [|done]. unfold deliver_frame. cbn.
  rewrite Hc, Hc'. cbn.
  destruct (if opcode h =? kOpCodeContinuation then _ else _) as [[start bytes]|]; [|done].
  cbn. by rewrite app_assoc.
Qed.

(** What [deliver_frame] looks at. *)
Lemma deliver_frame_data_ext st h h' b :
  IsKnownControlOpCode (opcode h) = false → start_of h' = start_of h → final h' = final h →
  deliver_frame st (h', b) = deliver_frame st (h, b).
Proof.
  intros Hc Hs Hf. unfold deliver_frame, start_of in *. injection Hs as Eo E1 E2 E3.
  rewrite Eo, E1, E2, E3, Hf, Hc. done.
Qed.

(** An empty continuation that is not final adds nothing. *)
Lemma deliver_empty st h :
  opcode h = kOpCodeContinuation → final h = false → is_Some (deliver_frame st (h, [])) →
  deliver_frame st (h, []) = st.
Proof.
  intros Ho Hf. destruct st as [[ms open]|]; [|by intros []]. unfold deliver_frame. cbn [mbind option_bind].
  rewrite Ho, Hf. cbn. destruct open as [[start bytes]|]; [|by intros []]. cbn. by rewrite app_nil_r.
Qed.

(** ** Frames that arrive in chunks

    The frames that are complete, and the one that is open with its bytes so far. *)

Definition assembly : Type :=
  list (WebSocketFrameHeader * list Z) * option (WebSocketFrameHeader * list Z).

(** The frames have the length that their headers announce, and are messages. *)
Definition whole (st : assembly) : option session :=
  match st.2 with
  | Some f => deliver_frame (deliver st.1) f
  | None => deliver st.1
  end.
Definition good_assembly (st : assembly) : Prop :=
  Forall (λ f, payload_length f.1 = Z.of_nat (length f.2)) st.1 ∧
  match st.2 with
  | Some (h, bytes) => Z.of_nat (length bytes) <= payload_length h
  | None => True
  end ∧
  is_Some (whole st).

(** The four ways a chunk can come. *)
Lemma add_chunk_cases st c st' :
  add_chunk (Some st) c = Some st' →
  ∃ h b, let bytes := b ++ default [] (data c) in
    (header c = Some h ∧ st.2 = None ∧ b = [] ∨ header c = None ∧ st.2 = Some (h, b)) ∧
    st' = if final_chunk c then (st.1 ++ [(h, bytes)], None) else (st.1, Some (h, bytes)).
Proof.
  destruct st as [frames open]. unfold add_chunk. cbn [mbind option_bind].
  destruct (header c) as [h|], open as [[h' b]|]; cbn [mbind option_bind fst snd]; try done.
  - intros [= <-]. exists h, []. split; [by left|done].
  - intros [= <-]. exists h', b. split; [by right|done].
Qed.

Lemma good_before st c st' :
  add_chunk (Some st) c = Some st' → good_assembly st' → good_assembly st.
Proof.
  intros (h & b & Hb & ->)%add_chunk_cases Hg. set (bytes := b ++ default [] (data c)) in *.
  assert (Forall (λ f, payload_length f.1 = Z.of_nat (length f.2)) st.1 ∧
    Z.of_nat (length bytes) <= payload_length h ∧ is_Some (deliver_frame (deliver st.1) (h, bytes)))
    as (Hf & Hl & Hd).
  { unfold good_assembly, whole in Hg. destruct (final_chunk c); cbn [fst snd] in Hg.
    - destruct Hg as (Hf & _ & Hd). apply Forall_app in Hf as [Hf Hl]. apply Forall_cons_1 in Hl as [Hl _]. cbn [fst snd] in Hl.
      rewrite deliver_snoc in Hd. split_and!; [done|rewrite Hl; lia|done].
    - naive_solver. }
  split; [done|]. unfold whole. subst bytes. rewrite length_app in Hl.
  destruct Hb as [(_ & -> & ->)|(_ & ->)].
  - split; [done|]. by apply deliver_frame_prefix in Hd.
  - split; [lia|]. by eapply deliver_frame_payload.
Qed.

(** ** The stream and the chunks it was given *)

Definition related (st : assembly) (s : WebSocketBasicStream) (frames : list WebSocketFrame) : Prop :=
  let delivered := deliver (map content frames) in
  match st.2 with
  | None => stream_frame_header_ s = None ∧ incomplete_control_frame_body_ s = None ∧
      delivered = deliver st.1
  | Some (h, bytes) =>
      if IsKnownControlOpCode (opcode h)
      then stream_frame_header_ s = Some h ∧ incomplete_control_frame_body_ s = Some bytes ∧
        delivered = deliver st.1
      else ∃ h', stream_frame_header_ s = Some h' ∧ incomplete_control_frame_body_ s = None ∧
        opcode h' = kOpCodeContinuation ∧ final h' = final h ∧ payload_length h' = payload_length h ∧
        delivered = deliver_frame (deliver st.1) (h <| final := false |>, bytes)
  end.

(** What does not change when chunks are converted. *)
Definition same_source (s s' : WebSocketBasicStream) : Prop :=
  (parser_ s', http_read_buffer_ s') = (parser_ s, http_read_buffer_ s).

Lemma data_size_nonneg d : 0 <= data_size d.
Proof. unfold data_size. lia. Qed.

(** [CreateFrame] on a chunk of a data frame. *)
Lemma CreateFrame_data fin d s h st :
  stream_frame_header_ s = Some h → IsKnownControlOpCode (opcode h) = false →
  is_Some (deliver_frame st (h, default [] d)) →
  ∃ frame s' , CreateFrame fin d s = Done (frame, s') ∧ same_source s s' ∧
    incomplete_control_frame_body_ s' = incomplete_control_frame_body_ s ∧
    fold_left deliver_frame (map content (option_list frame)) st
      = deliver_frame st (h <| final := fin && final h |>, default [] d) ∧
    (if fin then stream_frame_header_ s' = None
     else ∃ h', stream_frame_header_ s' = Some h' ∧ opcode h' = kOpCodeContinuation ∧
       final h' = final h ∧ payload_length h' = payload_length h).
Proof.
  intros Hh Hc Hd. pose proof (deliver_data _ _ _ Hc Hd) as Hk. unfold CreateFrame. rewrite Hh, Hk, andb_true_r.
  destruct (_ || _) eqn:Ee; do 2 eexists; (split; [reflexivity|]).
  - split; [by destruct fin|]. split; [by destruct fin|]. split.
    + unfold content. cbn. apply deliver_frame_data_ext; [exact Hc|by destruct h|reflexivity].
    + destruct fin; cbn; [done|]. eexists. by split_and!.
  - apply orb_false_iff in Ee as [[Ef Es]%orb_false_iff Eo]. apply Z.ltb_ge in Es.
    apply negb_false_iff, Z.eqb_eq in Eo.
    assert (default [] d = []) as En by (apply nil_length_inv; unfold data_size in Es; lia).
    split; [by destruct fin|]. split; [by destruct fin|]. split; [|destruct fin; [done|by exists h]].
    cbn [option_list map fold_left]. rewrite En, Ef in *. symmetry. apply deliver_empty; [done|done|].
    by apply deliver_frame_final.
Qed.

(** [CreateFrame] on a whole control frame. *)
Lemma CreateFrame_control d s h st :
  stream_frame_header_ s = Some h → IsKnownControlOpCode (opcode h) = true →
  is_Some (deliver_frame st (h, default [] d)) → data_size d <= payload_length h →
  ∃ frame s', CreateFrame true d s = Done (Some frame, s') ∧ same_source s s' ∧
    incomplete_control_frame_body_ s' = incomplete_control_frame_body_ s ∧
    stream_frame_header_ s' = None ∧
    deliver_frame st (content frame) = deliver_frame st (h, default [] d).
Proof.
  intros Hh Hc Hd Hl. destruct (deliver_control _ _ _ Hc Hd) as [Hf Hmax].
  unfold CreateFrame. rewrite Hh, Hf. cbn [andb orb negb]. do 2 eexists. split; [reflexivity|].
  split; [done|]. split; [done|]. split; [done|]. unfold content, deliver_frame. cbn. rewrite Hc, Hf. cbn [andb].
  rewrite !(proj2 (Z.leb_le _ _)) by lia. by destruct h.
Qed.

Lemma AddToIncomplete_done d s body :
  incomplete_control_frame_body_ s = Some body →
  Z.of_nat (length (body ++ default [] d)) <= kMaxControlFramePayload →
  AddToIncompleteControlFrameBody d s
    = Done (s <| incomplete_control_frame_body_ := Some (body ++ default [] d) |>).
Proof.
  intros Hb Hl. unfold AddToIncompleteControlFrameBody. rewrite Hb. destruct d as [bytes|]; cbn [default] in *.
  - unfold id in *. rewrite length_app in Hl. by pass_DCHECK ltac:(apply Z.leb_le; lia).
  - rewrite app_nil_r. destruct s. cbn in *. by subst.
Qed.

(** The header of the frame that a chunk belongs to is set. *)
Definition with_header (c : WebSocketFrameChunk) (s : WebSocketBasicStream) : WebSocketBasicStream :=
  match header c with Some h => s <| stream_frame_header_ := Some h |> | None => s end.

(** What [good_assembly] says of the next chunk. *)
Definition chunk_fits (st : assembly) (c : WebSocketFrameChunk) (h : WebSocketFrameHeader) (b : list Z) : Prop :=
  let bytes := b ++ default [] (data c) in
  Z.of_nat (length bytes) <= payload_length h ∧
  (final_chunk c = true → payload_length h = Z.of_nat (length bytes)) ∧
  is_Some (deliver_frame (deliver st.1) (h, bytes)).

Lemma good_chunk_fits (st : assembly) c h b :
  let bytes := b ++ default [] (data c) in
  good_assembly (if final_chunk c then (st.1 ++ [(h, bytes)], None) else (st.1, Some (h, bytes))) →
  chunk_fits st c h b.
Proof.
  intros bytes Hg. unfold chunk_fits, good_assembly, whole in *. fold bytes.
  destruct (final_chunk c); cbn [fst snd] in Hg.
  - destruct Hg as (Hf & _ & Hd). apply Forall_app in Hf as [_ Hl].
    apply Forall_cons_1 in Hl as [Hl _]. cbn [fst snd] in Hl. rewrite deliver_snoc in Hd.
    split_and!; [lia|done|done].
  - naive_solver.
Qed.

(** The frame, if any, and the stream after a chunk. *)
Definition converts_to (st : assembly) (frames : list WebSocketFrame) (c : WebSocketFrameChunk)
    (s : WebSocketBasicStream) : Prop :=
  ∃ frame s', ConvertChunkToFrame c s = Done (OK, frame, s') ∧ same_source s s' ∧
    related st s' (frames ++ option_list frame).

Lemma related_snoc frames frame : deliver (map content (frames ++ option_list frame))
  = fold_left deliver_frame (map content (option_list frame)) (deliver (map content frames)).
Proof. unfold deliver. by rewrite map_app, fold_left_app. Qed.

(** A chunk of a data frame, the first one or a later one: [h1] is the header that the
    stream has by now, [st0] what was delivered. *)
Lemma convert_data_chunk st0 c s frames h1 :
  stream_frame_header_ (with_header c s) = Some h1 → IsKnownControlOpCode (opcode h1) = false →
  (is_Some (header c) → stream_frame_header_ s = None) →
  incomplete_control_frame_body_ s = None →
  deliver (map content frames) = st0 →
  is_Some (deliver_frame st0 (h1, default [] (data c))) → data_size (data c) <= payload_length h1 →
  (is_Some (header c) → final_chunk c = true → payload_length h1 = data_size (data c)) →
  ∃ frame s', ConvertChunkToFrame c s = Done (OK, frame, s') ∧ same_source s s' ∧
    incomplete_control_frame_body_ s' = None ∧
    deliver (map content (frames ++ option_list frame))
      = deliver_frame st0 (h1 <| final := final_chunk c && final h1 |>, default [] (data c)) ∧
    (if final_chunk c then stream_frame_header_ s' = None
     else ∃ h', stream_frame_header_ s' = Some h' ∧ opcode h' = kOpCodeContinuation ∧
       final h' = final h1 ∧ payload_length h' = payload_length h1).
Proof.
  intros Hh Hc Hnew Hi Edel Hd Hl Hfull.
  destruct (CreateFrame_data (final_chunk c) (data c) (with_header c s) h1 st0 Hh Hc Hd)
    as (frame & s' & E & Hsrc & Ei & Ed & Hs').
  exists frame, s'. split_and!; [| |by rewrite Ei; unfold with_header; destruct (header c)| |done].
  - unfold ConvertChunkToFrame.
    assert ((match header c with
      | Some h => DCHECK (bool_decide (stream_frame_header_ s = None)) ;; Done (s <| stream_frame_header_ := Some h |>)
      | None => Done s end) = Done (with_header c s)) as ->.
    { unfold with_header. destruct (header c); [|done].
      by pass_DCHECK ltac:(apply bool_decide_eq_true_2, Hnew; by eexists). }
    step_done. rewrite Hh, Hc. unfold convert_to_frame.
    pass_DCHECK ltac:(by apply Z.leb_le).
    pass_DCHECK ltac:(case_bool_decide; [|done]; destruct (final_chunk c); [|done];
      cbn [negb orb]; apply Z.eqb_eq; auto).
    by rewrite E.
  - unfold same_source in *. rewrite Hsrc. unfold with_header. by destruct (header c).
  - by rewrite related_snoc, Edel.
Qed.

(** The frame of a control frame that is complete. *)
Lemma control_delivered (st : assembly) frames h d s s0 :
  stream_frame_header_ s0 = Some h → IsKnownControlOpCode (opcode h) = true →
  same_source s s0 → incomplete_control_frame_body_ s0 = None →
  deliver (map content frames) = deliver st.1 →
  is_Some (deliver_frame (deliver st.1) (h, default [] d)) → data_size d <= payload_length h →
  ∃ frame s', CreateFrame true d s0 = Done (frame, s') ∧ same_source s s' ∧
    related (st.1 ++ [(h, default [] d)], None) s' (frames ++ option_list frame).
Proof.
  intros Hh Hc Hsrc Hi Edel Hd Hl.
  destruct (CreateFrame_control d s0 h (deliver st.1) Hh Hc Hd Hl) as (frame & s' & Ec & Hs & Ei & Eh & Ed).
  exists (Some frame), s'. split; [done|]. split; [unfold same_source in *; congruence|].
  unfold related. cbn [fst snd]. split; [done|]. split; [congruence|].
  rewrite related_snoc, Edel, deliver_snoc. exact Ed.
Qed.

(** A chunk of a control frame.  [b] are the bytes so far. *)
Lemma convert_control_chunk (st : assembly) c s frames h b :
  stream_frame_header_ (with_header c s) = Some h → IsKnownControlOpCode (opcode h) = true →
  (is_Some (header c) → stream_frame_header_ s = None) →
  (incomplete_control_frame_body_ s = Some b ∨
   incomplete_control_frame_body_ s = None ∧ b = [] ∧ is_Some (header c)) →
  deliver (map content frames) = deliver st.1 → chunk_fits st c h b →
  converts_to (if final_chunk c then (st.1 ++ [(h, b ++ default [] (data c))], None)
               else (st.1, Some (h, b ++ default [] (data c)))) frames c s.
Proof.
  intros Hh Hc Hnew Hi Edel (Hl & Hfin & Hd). destruct (deliver_control _ _ _ Hc Hd) as [Hf Hmax].
  unfold converts_to, ConvertChunkToFrame.
  assert ((match header c with
    | Some h => DCHECK (bool_decide (stream_frame_header_ s = None)) ;; Done (s <| stream_frame_header_ := Some h |>)
    | None => Done s end) = Done (with_header c s)) as ->.
  { unfold with_header. destruct (header c); [|done].
    by pass_DCHECK ltac:(apply bool_decide_eq_true_2, Hnew; by eexists). }
  step_done. rewrite Hh, Hc, Hf, (proj2 (Z.ltb_ge _ _) Hmax). cbn [negb orb].
  assert (incomplete_control_frame_body_ (with_header c s) = incomplete_control_frame_body_ s) as Ei
    by (unfold with_header; by destruct (header c)).
  assert (same_source s (with_header c s)) as Hsrc by (unfold with_header; by destruct (header c)).
  rewrite Ei. destruct (final_chunk c) eqn:Efin; cbn [negb].
  - destruct Hi as [E|(E & -> & Hnewc)]; rewrite E.
    + rewrite (AddToIncomplete_done (data c) _ b) by (by rewrite Ei || lia). step_done. cbn.
      pass_DCHECK ltac:(apply Z.eqb_eq; rewrite Hfin by done; done).
      destruct (control_delivered st frames h (Some (b ++ default [] (data c))) s
        ((with_header c s) <| incomplete_control_frame_body_ := Some (b ++ default [] (data c)) |>
           <| incomplete_control_frame_body_ := None |>)) as (frame & s' & Ec & Hs & Hr);
        [exact Hh|done|exact Hsrc|done|done|done|exact Hl|].
      rewrite Ec. by exists frame, s'.
    + unfold convert_to_frame. cbn [app] in *. rewrite (bool_decide_eq_true_2 _ Hnewc). cbn [negb orb].
      pass_DCHECK ltac:(by apply Z.leb_le).
      pass_DCHECK ltac:(apply Z.eqb_eq; by rewrite Hfin).
      destruct (control_delivered st frames h (data c) s (with_header c s)) as (frame & s' & Ec & Hs & Hr);
        [exact Hh|done|exact Hsrc|congruence|done|done|exact Hl|].
      rewrite Ec. by exists frame, s'.
  - set (s1 := match incomplete_control_frame_body_ s with Some _ => _ | None => _ end).
    assert (incomplete_control_frame_body_ s1 = Some b ∧ same_source s s1 ∧
      stream_frame_header_ s1 = Some h) as (E1 & Hsrc1 & Hh1).
    { subst s1. by destruct Hi as [E|(E & -> & _)]; rewrite E in *. }
    rewrite (AddToIncomplete_done (data c) s1 b E1) by lia. step_done.
    exists None. eexists. split; [reflexivity|]. split; [done|].
    unfold related. cbn [fst snd option_list]. rewrite Hc, app_nil_r. done.
Qed.

Lemma same_final h : h <| final := final h |> = h.
Proof. by destruct h. Qed.

(** Every chunk. *)
Lemma convert_chunk (st : assembly) c st' s frames :
  related st s frames → add_chunk (Some st) c = Some st' → good_assembly st' →
  converts_to st' frames c s.
Proof.
  intros Hr (h & b & Hb & ->)%add_chunk_cases Hg. pose proof (good_chunk_fits st c h b Hg) as Hfits.
  unfold related in Hr. destruct Hb as [(Hh & Eo & ->)|(Hh & Eo)]; rewrite Eo in Hr.
  - destruct Hr as (Es & Ei & Edel).
    assert (stream_frame_header_ (with_header c s) = Some h) as Hw by (unfold with_header; by rewrite Hh).
    destruct (IsKnownControlOpCode (opcode h)) eqn:Hc.
    { apply convert_control_chunk; try done. right. split_and!; [done|done|by eexists]. }
    destruct Hfits as (Hl & Hfin & Hd). cbn [app] in *.
    destruct (convert_data_chunk (deliver st.1) c s frames h) as (frame & s' & E & Hsrc & Ei' & Ed & Hs'); try done.
    exists frame, s'. split; [done|]. split; [done|]. unfold related.
    destruct (final_chunk c); cbn [andb fst snd] in *.
    + rewrite Ed, deliver_snoc, same_final. done.
    + rewrite Hc. destruct Hs' as (h' & ? & ? & ? & ?). by exists h'.
  - assert (with_header c s = s) as Hw by (unfold with_header; by rewrite Hh).
    assert (¬ is_Some (header c)) as Hn by (rewrite Hh; by intros []).
    destruct (IsKnownControlOpCode (opcode h)) eqn:Hc.
    { destruct Hr as (Es & Ei & Edel). apply convert_control_chunk; try done; [by rewrite Hw|by left]. }
    destruct Hr as (h1 & Es & Ei & Eo1 & Ef1 & El1 & Edel). destruct Hfits as (Hl & Hfin & Hd).
    destruct (convert_data_chunk (deliver_frame (deliver st.1) (h <| final := false |>, b)) c s frames h1)
      as (frame & s' & E & Hsrc & Ei' & Ed & Hs'); try done.
    + by rewrite Hw.
    + by rewrite Eo1.
    + rewrite deliver_split by done. by rewrite Ef1, same_final.
    + rewrite El1. rewrite length_app in Hl. unfold data_size. lia.
    + exists frame, s'. split; [done|]. split; [done|]. unfold related.
      rewrite deliver_split in Ed by done. cbn in Ed. rewrite Ef1 in Ed.
      destruct (final_chunk c); cbn [andb fst snd] in *.
      * rewrite deliver_snoc. rewrite same_final in Ed. done.
      * rewrite Hc. destruct Hs' as (h' & ? & ? & ? & ?). exists h'. split_and!; congruence.
Qed.

Lemma add_chunk_None chunks : fold_left add_chunk chunks None = None.
Proof. by induction chunks. Qed.

Lemma good_start chunks : ∀ (st st' : assembly),
  fold_left add_chunk chunks (Some st) = Some st' → good_assembly st' → good_assembly st.
Proof.
  induction chunks as [|c chunks IH]; intros st st' E Hg; cbn [fold_left] in E; [by injection E as <-|].
  destruct (add_chunk (Some st) c) as [st1|] eqn:E1; [|by rewrite add_chunk_None in E].
  apply (good_before st c st1 E1). by apply (IH st1 st').
Qed.

(** A list of chunks.  [frames] were given out before, [vec] are those of this call. *)
Lemma convert_chunks chunks : ∀ (st st' : assembly) s frames vec,
  related st s (frames ++ vec) → fold_left add_chunk chunks (Some st) = Some st' → good_assembly st' →
  ∃ vec' s', ConvertChunksToFrames chunks vec s
      = Done (if bool_decide (vec' = []) then ERR_IO_PENDING else OK, vec', s') ∧
    same_source s s' ∧ related st' s' (frames ++ vec').
Proof.
  induction chunks as [|c chunks IH]; intros st st' s frames vec Hr E Hg; cbn [fold_left ConvertChunksToFrames] in *.
  { injection E as <-. by exists vec, s. }
  destruct (add_chunk (Some st) c) as [st1|] eqn:E1; [|by rewrite add_chunk_None in E].
  pose proof (good_start chunks st1 st' E Hg) as Hg1.
  destruct (convert_chunk st c st1 s (frames ++ vec) Hr E1 Hg1) as (frame & s1 & -> & Hsrc & Hr1).
  rewrite <- app_assoc in Hr1. step_done. cbn [negb Z.eqb OK].
  destruct (IH st1 st' s1 frames (vec ++ option_list frame) Hr1 E Hg) as (vec' & s' & -> & Hsrc' & Hr').
  exists vec', s'. split; [done|]. split; [unfold same_source in *; congruence|done].
Qed.

(** ** What the headers of the frames keep

    A property of headers that does not look at the end and the length of a frame, and that a
    continuation without reserved bits has. *)

Record header_property (Q : WebSocketFrameHeader → Prop) : Prop := {
  property_alike h h' : start_of h' = start_of h → Q h → Q h';
  property_continued h : Q h → IsKnownDataOpCode (opcode h) = true →
    Q (h <| opcode := kOpCodeContinuation |> <| reserved1 := false |> <| reserved2 := false |> <| reserved3 := false |>)
}.

Section Kept.
Context (Q : WebSocketFrameHeader → Prop) (HQ : header_property Q).

(** The header of the stream has it, and the frames have it and a length that is that of
    their data. *)
Definition kept (s : WebSocketBasicStream) (frames : list WebSocketFrame) : Prop :=
  (∀ h, stream_frame_header_ s = Some h → Q h) ∧
  Forall (λ f, Q (frame_header f) ∧ payload_length (frame_header f) = data_size (frame_data f)) frames.

Lemma kept_app s given frames : kept s given → kept s frames → kept s (given ++ frames).
Proof. intros [H ?] [_ ?]. split; [done|by apply Forall_app]. Qed.

Lemma CreateFrame_kept fin d s frame s' frames :
  CreateFrame fin d s = Done (frame, s') → kept s frames → kept s' (frames ++ option_list frame).
Proof.
  unfold CreateFrame. destruct (stream_frame_header_ s) as [h|] eqn:Eh; [|done]. intros E [Hs Hf].
  pose proof (Hs h Eh) as Hh. destruct (orb _ _).
  - injection E as <- <-. split.
    + destruct fin; [done|]. cbn [negb andb]. destruct (IsKnownDataOpCode (opcode h)) eqn:Ek; [|exact Hs].
      intros h' [= <-]. by apply (property_continued Q HQ).
    + apply Forall_app. split; [done|]. constructor; [|constructor]. split; [|done].
      by apply (property_alike Q HQ h).
  - injection E as <- <-. rewrite app_nil_r. split; [by destruct fin|done].
Qed.

Lemma convert_kept c s r frame s' frames :
  ConvertChunkToFrame c s = Done (r, frame, s') → (∀ h, header c = Some h → Q h) → kept s frames →
  kept s' (frames ++ option_list frame).
Proof.
  unfold ConvertChunkToFrame. intros E Hc Hk. apply bind_done in E as (s0 & E0 & E).
  assert (kept s0 frames) as Hk0.
  { destruct (header c) as [h|]; [|by injection E0 as <-]. apply bind_done in E0 as (_ & _ & E0). injection E0 as <-.
    split; [intros h' [= <-]; by apply Hc|apply Hk]. }
  clear E0 Hk s. destruct (stream_frame_header_ s0) as [h|] eqn:Eh; [|done].
  assert (∀ a b d r frame s', convert_to_frame a b d h s0 = Done (r, frame, s') → kept s' (frames ++ option_list frame)) as Hcf.
  { clear -Hk0 HQ. unfold convert_to_frame. intros a b d r frame s' E. apply bind_done in E as (_ & _ & E).
    apply bind_done in E as (_ & _ & E). apply bind_done in E as ([fr s1] & E1 & E). injection E as <- <- <-.
    by eapply CreateFrame_kept. }
  assert (∀ d s1 s2, kept s1 frames → AddToIncompleteControlFrameBody d s1 = Done s2 → kept s2 frames) as Hadd.
  { clear. unfold AddToIncompleteControlFrameBody. intros d s1 s2 H E. destruct d; [|by injection E as <-].
    destruct (incomplete_control_frame_body_ s1); [|done]. apply bind_done in E as (_ & _ & E). by injection E as <-. }
  destruct (IsKnownControlOpCode _); [|by eapply Hcf]. destruct (_ || _).
  { injection E as <- <- <-. rewrite app_nil_r. split; [done|apply Hk0]. }
  destruct (negb (final_chunk c)).
  - apply bind_done in E as (s1 & E1 & E). injection E as <- <- <-. rewrite app_nil_r.
    eapply Hadd; [|exact E1]. by destruct (incomplete_control_frame_body_ s0).
  - destruct (incomplete_control_frame_body_ s0); [|by eapply Hcf].
    apply bind_done in E as (s1 & E1 & E). apply Hadd in E1; [|done]. apply bind_done in E as (_ & _ & E).
    apply bind_done in E as ([fr s2] & E2 & E). injection E as <- <- <-. by eapply CreateFrame_kept.
Qed.

Lemma convert_chunks_kept chunks : ∀ vec s r vec' s',
  ConvertChunksToFrames chunks vec s = Done (r, vec', s') → r = OK ∨ r = ERR_IO_PENDING →
  Forall (λ c, ∀ h, header c = Some h → Q h) chunks → kept s vec → kept s' vec'.
Proof.
  induction chunks as [|c chunks IH]; intros vec s r vec' s' E Hr Hc Hk; cbn [ConvertChunksToFrames] in E.
  { by injection E as <- <- <-. }
  apply Forall_cons_1 in Hc as [Hc Hcs]. apply bind_done in E as ([[r1 frame] s1] & E1 & E).
  pose proof (convert_kept _ _ _ _ _ _ E1 Hc Hk) as Hk1. destruct (Z.eqb_spec r1 OK) as [->|Hne]; cbn [negb] in E.
  - by eapply IH.
  - injection E as -> <- <-. split; [apply Hk1|apply Hk].
Qed.

(** The headers of chunks are those of the frames that they make up. *)
Definition headers_of (st : assembly) : list WebSocketFrameHeader := map fst st.1 ++ map fst (option_list st.2).

Lemma assembled_headers chunks : ∀ st, assemble chunks = Some st → Forall Q (headers_of st) →
  Forall (λ c, ∀ h, header c = Some h → Q h) chunks.
Proof.
  induction chunks as [|c chunks IH] using rev_ind; intros st E HQs; [constructor|].
  rewrite assemble_snoc in E. destruct (assemble chunks) as [st0|]; [|done].
  apply add_chunk_cases in E as (h & b & Hb & ->). apply Forall_app.
  assert (Forall Q (headers_of st0) ∧ Q h) as [H0 Hh].
  { unfold headers_of in *. destruct (final_chunk c); cbn [fst snd option_list map] in HQs.
    - rewrite map_app in HQs. rewrite !Forall_app in *. destruct HQs as [[? HQ1] _]. apply Forall_cons_1 in HQ1 as [? _].
      destruct Hb as [(_ & -> & _)|(_ & ->)]; by repeat constructor.
    - rewrite !Forall_app in *. destruct HQs as [? HQ1]. apply Forall_cons_1 in HQ1 as [? _].
      destruct Hb as [(_ & -> & _)|(_ & ->)]; by repeat constructor. }
  split; [by apply (IH st0)|]. constructor; [|constructor]. intros h' E'. destruct Hb as [(E & _)|(E & _)]; rewrite E in E'; [|done].
  by injection E' as <-.
Qed.
End Kept.

(** ** The parser under the stream *)

(** The result of [Decode] with chunks in front of those it gives. *)
Definition prepend (pre : list WebSocketFrameChunk)
    (r : outcome (option (bool * WebSocketFrameParser * list WebSocketFrameChunk))) :
    outcome (option (bool * WebSocketFrameParser * list WebSocketFrameChunk)) :=
  o ← r; Done (option_map (λ '(ok, p, chunks), (ok, p, pre ++ chunks)) o).

Section Stream.
Context (kPackedMaskKeySize : Z) (io_data : WebSocketFrameParser → Z).
Hypothesis word_size : 4 <= kPackedMaskKeySize.
Hypothesis word_keys : kPackedMaskKeySize mod 4 = 0.

Lemma decode_loop_prepend fuel pre : ∀ p chunks,
  decode_loop kPackedMaskKeySize io_data fuel p (pre ++ chunks)
    = prepend pre (decode_loop kPackedMaskKeySize io_data fuel p chunks).
Proof.
  unfold prepend. induction fuel as [|fuel IH]; intros p chunks; [done|]. cbn [decode_loop].
  destruct (_ <? _); [|done].
  destruct (if bool_decide (is_Some (current_frame_header_ p)) then Done p else DecodeFrameHeader p)
    as [p1|]; [|done]. step_done.
  destruct (_ && _); [done|]. destruct (bool_decide (current_frame_header_ p1 = None)); [done|].
  destruct (DecodeFramePayload _ _ _ p1) as [[c p2]|]; [|done]. step_done.
  destruct (current_frame_header_ p2).
  - destruct (current_read_pos_ p2 =? _); [|done]. step_done. cbn. by rewrite app_assoc.
  - rewrite <- app_assoc. apply IH.
Qed.

Lemma Decode_prepend bytes p pre :
  Decode kPackedMaskKeySize io_data bytes p pre
    = prepend pre (Decode kPackedMaskKeySize io_data bytes p []).
Proof.
  unfold Decode. case_bool_decide; [by unfold prepend; cbn; rewrite app_nil_r|].
  destruct (_ =? _)%nat; [by unfold prepend; cbn; rewrite app_nil_r|].
  set (p1 := p <| buffer_ := _ |>). rewrite <- (app_nil_r pre) at 1. rewrite decode_loop_prepend.
  unfold prepend. destruct (decode_loop _ _ _ p1 []) as [[[[ok p2] chunks]|]|]; [|done..]. step_done.
  cbn [option_map]. destruct ok; [|done].
  by destruct (_ <? kMaximumFrameHeaderSize).
Qed.

(** [frames] are sent over the connection; [future] are the bytes that the parser has not
    been given, [given] the frames that the stream has given out. *)
Context (frames : list frame) (frames_valid : Forall valid_frame frames).
Context (frames_messages : is_Some (deliver (map sent frames))).
Context (Q : WebSocketFrameHeader → Prop) (HQ : header_property Q) (frames_Q : Forall (λ f, Q (f_header f)) frames).

Definition flowing (future : list Z) (s : WebSocketBasicStream) (given : list WebSocketFrame) : Prop :=
  ∃ chunks st, streaming frames future (parser_ s) chunks ∧ assemble chunks = Some st ∧ related st s given ∧
    kept Q s given.

Lemma received_headers future p chunks : received frames future p chunks →
  Forall (λ c, ∀ h, header c = Some h → Q h) chunks.
Proof.
  intros [_ Hr]. assert (∀ got, Forall (λ f, Q (f_header f)) got → Forall Q (map fst (map sent got))) as Hgot
    by (intros got H; by do 2 apply Forall_map). destruct (current_frame_header_ p) as [h|].
  - destruct Hr as (got & f & fs & Efr & -> & _ & E & _). apply (assembled_headers Q _ _ E). rewrite Efr in frames_Q.
    apply Forall_app in frames_Q as [H1 H2]. apply Forall_cons_1 in H2 as [H2 _].
    apply Forall_app. split; [by apply Hgot|by repeat constructor].
  - destruct Hr as (got & fs & Efr & E & _). apply (assembled_headers Q _ _ E). rewrite Efr in frames_Q.
    apply Forall_app in frames_Q as [H1 _]. unfold headers_of. cbn [fst snd option_list map]. rewrite app_nil_r. by apply Hgot.
Qed.

(** What the parser has given out fits. *)
Lemma received_good future p chunks :
  received frames future p chunks → ∃ st, assemble chunks = Some st ∧ good_assembly st.
Proof.
  assert (∀ fs, Forall valid_frame fs →
    Forall (λ f, payload_length f.1 = Z.of_nat (length f.2)) (map sent fs)) as Hlen.
  { intros fs Hfs. apply Forall_map. apply (list.Forall_impl valid_frame _ _ Hfs). by intros f (_ & HL & _). }
  intros [_ Hr]. destruct (current_frame_header_ p) as [h|].
  - destruct Hr as (got & f & fs & Efr & -> & _ & E & _). eexists. split; [exact E|].
    rewrite Efr in frames_valid, frames_messages. apply Forall_app in frames_valid as [Hv Hv'].
    apply Forall_cons_1 in Hv' as [(_ & HL & _) _].
    split; [by apply Hlen|]. cbn [fst snd]. split; [rewrite length_take; lia|].
    unfold whole. cbn [fst snd]. rewrite map_app in frames_messages. cbn [map] in frames_messages.
    rewrite cons_middle, app_assoc in frames_messages. apply deliver_prefix in frames_messages.
    rewrite deliver_snoc in frames_messages. by eapply deliver_frame_payload.
  - destruct Hr as (got & fs & Efr & E & _). eexists. split; [exact E|].
    rewrite Efr in frames_valid, frames_messages. apply Forall_app in frames_valid as [Hv _].
    split; [by apply Hlen|]. split; [done|]. rewrite map_app in frames_messages.
    by apply deliver_prefix in frames_messages.
Qed.

(** Bytes are parsed and converted. *)
Lemma parse_frames_flowing bytes future s given :
  flowing (bytes ++ future) s given → Forall byte_ok bytes → Z.of_nat (length bytes) < 2 ^ 63 →
  ∃ vec s', parse_frames kPackedMaskKeySize io_data bytes [] s
      = Done (if bool_decide (vec = []) then ERR_IO_PENDING else OK, vec, s') ∧
    flowing future s' (given ++ vec) ∧ http_read_buffer_ s' = http_read_buffer_ s.
Proof.
  intros (chunks & st & Hst & Eass & Hrel & Hkept) Hbs Hlen.
  destruct (Decode_stream _ io_data word_size word_keys frames frames_valid bytes future _ chunks Hst Hbs Hlen)
    as (p' & chunks' & E & Hst').
  rewrite Decode_prepend in E. unfold parse_frames, prepend in *.
  destruct (Decode _ _ bytes (parser_ s) []) as [[[[ok p] new]|]|]; try done. injection E as -> -> Enew.
  destruct (received_good future p' chunks') as (st' & Eass' & Hg); [apply Hst'|].
  assert (fold_left add_chunk new (Some st) = Some st') as Efold.
  { rewrite <- Enew in Eass'. unfold assemble in *. by rewrite fold_left_app, Eass in Eass'. }
  step_done. assert (related st (s <| parser_ := p' |>) (given ++ [])) as Hrel1 by (by rewrite app_nil_r).
  destruct (convert_chunks new st st' (s <| parser_ := p' |>) given [] Hrel1 Efold Hg)
    as (vec & s' & Ec & Hsrc & Hrel').
  unfold same_source in Hsrc. injection Hsrc as Ep Eh.
  assert (kept Q s' vec) as Hnew.
  { pose proof (received_headers _ _ _ (proj1 (proj2 Hst'))) as Hc. rewrite <- Enew in Hc. apply Forall_app in Hc as [_ Hc].
    apply (convert_chunks_kept Q HQ _ _ _ _ _ _ Ec); [by case_bool_decide; [right|left]|exact Hc|].
    split; [apply Hkept|constructor]. }
  exists vec, s'. split; [|split; [|done]].
  - destruct new as [|c new]; [|exact Ec]. cbn in Ec. injection Ec as _ <- <-. done.
  - exists chunks', st'. rewrite Ep. split_and!; [done|done|done|]. apply kept_app; [|apply Hnew].
    by split; [apply Hnew|apply Hkept].
Qed.

(** The reads that bring these pieces. *)
Definition reads_of (pieces : list (list Z)) : list (Z * list Z) :=
  map (λ piece, (Z.of_nat (length piece), piece)) pieces.
Definition pieces_ok (pieces : list (list Z)) : Prop :=
  Forall (λ piece, piece ≠ [] ∧ Forall byte_ok piece ∧ Z.of_nat (length piece) < 2 ^ 63) pieces.

Lemma HandleReadResult_data piece s :
  piece ≠ [] → HandleReadResult kPackedMaskKeySize io_data (Z.of_nat (length piece)) piece [] s
    = parse_frames kPackedMaskKeySize io_data piece [] s.
Proof.
  intros Hne. assert (0 < Z.of_nat (length piece)) by (destruct piece; [done|cbn; lia]).
  unfold HandleReadResult. pass_DCHECK ltac:(apply negb_true_iff, Z.eqb_neq; unfold ERR_IO_PENDING; lia).
  pass_DCHECK ltac:(done). rewrite (proj2 (Z.ltb_ge _ _)), (proj2 (Z.eqb_neq _ _)) by lia.
  by rewrite Nat2Z.id, firstn_all.
Qed.

(** What a call of [ReadFrames] does: it gives out frames, and fewer than [n] reads are
    left; or it has read everything and waits. *)
Definition read_result (n : nat) (given : list WebSocketFrame)
    (r : outcome (Z * list WebSocketFrame * WebSocketBasicStream * list (Z * list Z))) : Prop :=
  ∃ vec s' rest, r = Done (if bool_decide (vec = []) then ERR_IO_PENDING else OK, vec, s', reads_of rest) ∧
    flowing (concat rest) s' (given ++ vec) ∧ http_read_buffer_ s' = None ∧
    pieces_ok rest ∧ (if bool_decide (vec = []) then rest = [] else (length rest < n)%nat).

Lemma read_result_le n m given r : (n <= m)%nat → read_result n given r → read_result m given r.
Proof.
  intros Hle (vec & s & rest & E & Hfl & Hh & Hok & Hrest). exists vec, s, rest.
  split_and!; try done. destruct (bool_decide _); [done|lia].
Qed.

Lemma read_loop_flowing pieces : ∀ s given,
  flowing (concat pieces) s given → http_read_buffer_ s = None → pieces_ok pieces →
  read_result (length pieces) given (read_loop kPackedMaskKeySize io_data (reads_of pieces) [] s).
Proof.
  induction pieces as [|piece pieces IH]; intros s given Hfl Hh Hok; cbn [reads_of map read_loop].
  { exists [], s, []. rewrite app_nil_r. by split_and!. }
  apply Forall_cons_1 in Hok as [(Hne & Hbs & Hlen) Hok]. cbn [concat] in Hfl.
  destruct (parse_frames_flowing piece (concat pieces) s given Hfl Hbs Hlen) as (vec & s' & E & Hfl' & Hh').
  rewrite HandleReadResult_data, E by done. step_done. rewrite Hh in Hh'. case_bool_decide as Ev.
  - subst vec. cbn [negb Z.eqb Pos.eqb ERR_IO_PENDING]. step_done. rewrite app_nil_r in Hfl'.
    apply (read_result_le (length pieces)); [cbn; lia|by apply IH].
  - exists vec, s', pieces. rewrite bool_decide_false by done. split_and!; try done. cbn. lia.
Qed.

(** The bytes left over from the handshake come first. *)
Definition left_over (s : WebSocketBasicStream) : list Z := default [] (http_read_buffer_ s).

Lemma ReadFrames_flowing pieces s given :
  flowing (left_over s ++ concat pieces) s given → pieces_ok pieces →
  Forall byte_ok (left_over s) → Z.of_nat (length (left_over s)) < 2 ^ 63 →
  read_result (length pieces + match http_read_buffer_ s with Some _ => 1 | None => 0 end) given
    (ReadFrames kPackedMaskKeySize io_data (reads_of pieces) [] s).
Proof.
  intros Hfl Hok Hbs Hlen. unfold ReadFrames. pass_DCHECK ltac:(done). unfold left_over in *.
  destruct (http_read_buffer_ s) as [bytes|] eqn:Hh; cbn [default] in *.
  - unfold id in *. assert (flowing (bytes ++ concat pieces) (s <| http_read_buffer_ := None |>) given) as Hfl1 by exact Hfl.
    destruct (parse_frames_flowing bytes (concat pieces) _ given Hfl1 Hbs Hlen) as (vec & s' & -> & Hfl' & Hh').
    step_done. case_bool_decide as Ev.
    + subst vec. cbn [negb Z.eqb Pos.eqb ERR_IO_PENDING]. rewrite app_nil_r in Hfl'.
      apply (read_result_le (length pieces)); [lia|by apply read_loop_flowing].
    + exists vec, s', pieces. rewrite bool_decide_false by done. split_and!; try done. lia.
  - apply (read_result_le (length pieces)); [lia|by apply read_loop_flowing].
Qed.

(** The caller reads until the stream waits for the socket. *)
Lemma read_all_flowing fuel : ∀ pieces s given,
  flowing (left_over s ++ concat pieces) s given → pieces_ok pieces →
  Forall byte_ok (left_over s) → Z.of_nat (length (left_over s)) < 2 ^ 63 →
  (length pieces + match http_read_buffer_ s with Some _ => 1 | None => 0 end < fuel)%nat →
  ∃ vec s', read_all kPackedMaskKeySize io_data fuel (reads_of pieces) given s
    = Done (Some (ERR_IO_PENDING, vec, s')) ∧ flowing [] s' vec.
Proof.
  induction fuel as [|fuel IH]; intros pieces s given Hfl Hok Hbs Hlen Hf; [lia|]. cbn [read_all].
  destruct (ReadFrames_flowing pieces s given Hfl Hok Hbs Hlen)
    as (vec & s' & rest & -> & Hfl' & Hh' & Hok' & Hrest). step_done. case_bool_decide as Ev.
  - subst. exists (given ++ []), s'. done.
  - cbn [Z.eqb OK]. apply IH; unfold left_over in *; rewrite ?Hh'; try done; cbn [default]; lia.
Qed.
End Stream.

(** ** Writing *)

(** A frame to be written with the key it is masked with. *)
Definition turn_on_mask (f : WebSocketFrame) : WebSocketFrame :=
  f <| frame_header := (frame_header f) <| masked := true |> |>.
Definition outgoing (p : WebSocketFrame * list Z) : frame :=
  mkframe (frame_header (turn_on_mask p.1)) p.2 (default [] (frame_data p.1)).

Definition serialized_size (out : list (WebSocketFrame * list Z)) : Z :=
  Z.of_nat (length (wires (map outgoing out))).

Lemma wire_length p :
  valid_frame (outgoing p) →
  Z.of_nat (length (wire (outgoing p)))
    = payload_length (frame_header p.1) + GetWebSocketFrameHeaderSize (frame_header (turn_on_mask p.1)).
Proof.
  intros Hf. pose proof (header_bytes_size _ Hf) as Hs. destruct Hf as (_ & HL & _).
  unfold wire. rewrite length_app, unmasked_length. cbn in HL, Hs |- *. lia.
Qed.

Lemma CalculateSerializedSize_wires out : ∀ total_size,
  Forall (λ p, valid_frame (outgoing p)) out →
  0 <= total_size → total_size + serialized_size out <= INT32_MAX →
  CalculateSerializedSizeAndTurnOnMaskBit (map fst out) total_size
    = Done (map (λ p, turn_on_mask p.1) out, total_size + serialized_size out).
Proof.
  unfold serialized_size, wires, INT32_MAX.
  induction out as [|p out IH]; intros total_size Hv H0 Hmax; cbn [map concat CalculateSerializedSizeAndTurnOnMaskBit] in *.
  { by rewrite Z.add_0_r. }
  apply Forall_cons_1 in Hv as [Hp Hv]. rewrite length_app in *. pose proof (wire_length p Hp) as Hw.
  fold (turn_on_mask p.1). change (payload_length (frame_header (turn_on_mask p.1))) with (payload_length (frame_header p.1)).
  rewrite <- Hw. unfold u64. rewrite Z.mod_small by lia.
  pass_DCHECK ltac:(apply Z.leb_le; unfold kMaximumTotalSize, INT32_MAX; lia).
  rewrite IH by (done || lia). step_done. cbn [fst snd]. do 2 f_equal. lia.
Qed.

Section Writing.
Context (kPackedMaskKeySize : Z).
Hypothesis word_size : 4 <= kPackedMaskKeySize.
Hypothesis word_keys : kPackedMaskKeySize mod 4 = 0.

Lemma write_loop_wires out : ∀ dest,
  Forall (λ p, valid_frame (outgoing p)) out →
  write_loop kPackedMaskKeySize (map (λ p, turn_on_mask p.1) out) (map snd out) dest (serialized_size out)
    = Done (wires (map outgoing out), 0).
Proof.
  unfold serialized_size, wires.
  induction out as [|p out IH]; intros dest Hv; cbn [map concat write_loop] in *; [done|].
  apply Forall_cons_1 in Hv as [Hp Hv]. set (more := concat (map wire (map outgoing out))) in *.
  set (size := Z.of_nat (length (wire (outgoing p) ++ more))).
  pose proof (WriteWebSocketFrameHeader_bytes (outgoing p) (replicate (Z.to_nat size) 0) Hp) as E.
  rewrite length_replicate, Z2Nat.id in E by lia. cbn [outgoing f_header f_key] in E.
  change (masked (frame_header (turn_on_mask p.1))) with true in E.
  assert (size = Z.of_nat (length (header_bytes (outgoing p))) + Z.of_nat (length (f_payload (outgoing p)))
    + Z.of_nat (length more)) as Esize.
  { unfold size, wire. rewrite !length_app, unmasked_length. lia. }
  rewrite E by lia. clear E. step_done.
  rewrite Nat2Z.id, take_app_length. destruct Hp as (_ & HL & Hmax & _). cbn [outgoing f_header f_payload] in *.
  unfold INT32_MAX in *.
  change (payload_length (frame_header (turn_on_mask p.1))) with (payload_length (frame_header p.1)) in *.
  pass_first_DCHECK ltac:(apply Z.leb_le; lia).
  rewrite (s32_small (payload_length (frame_header p.1))) by lia. rewrite HL.
  change (frame_data (turn_on_mask p.1)) with (frame_data p.1).
  set (bytes := default [] (frame_data p.1)) in *.
  assert ((if 0 <? Z.of_nat (length bytes) then
      DCHECK (Z.of_nat (length bytes) <=? Z.of_nat (length bytes)) ;;
      MaskWebSocketFramePayload kPackedMaskKeySize p.2 0 (dest + Z.of_nat (length (header_bytes (outgoing p))))
        (take (Z.to_nat (Z.of_nat (length bytes))) bytes)
    else Done []) = Done (mask_spec p.2 0 bytes)) as ->.
  { rewrite Z.leb_refl, Nat2Z.id, firstn_all. destruct bytes as [|b bytes]; [done|].
    rewrite (proj2 (Z.ltb_lt _ _)) by (cbn; lia). rewrite DCHECK_true_bind. by apply masked_bytewise. }
  step_done.
  assert ((if 0 <? Z.of_nat (length bytes) then Z.of_nat (length bytes) else 0) = Z.of_nat (length bytes)) as ->
    by (destruct (Z.ltb_spec 0 (Z.of_nat (length bytes))); lia).
  replace (size - _ - _) with (Z.of_nat (length more)) by lia.
  rewrite IH by done. step_done. cbn [fst snd]. unfold wire, unmasked. by rewrite <- app_assoc.
Qed.

Lemma combine_frames_wires out address :
  Forall (λ p, valid_frame (outgoing p)) out → serialized_size out <= INT32_MAX →
  combine_frames kPackedMaskKeySize (map fst out) (map snd out) address
    = Done (wires (map outgoing out)).
Proof.
  intros Hv Hmax. unfold combine_frames.
  rewrite CalculateSerializedSize_wires by (done || lia). step_done. rewrite Z.add_0_l.
  assert (0 <= serialized_size out) by (unfold serialized_size; lia). unfold INT32_MAX in Hmax.
  rewrite s32_small by lia. rewrite write_loop_wires by done. by step_done.
Qed.
End Writing.

(** The socket gets the bytes of the buffer in order, and all of them if the result is
    [OK]. *)
Lemma WriteEverything_prefix writes : ∀ buffer code taken rest,
  WriteEverything writes buffer = Done (code, taken, rest) →
  taken ++ rest = buffer ∧ (code = OK → Forall (λ w, w ≠ 0) writes → rest = []).
Proof.
  induction writes as [|w writes IH]; intros [|b buffer] code taken rest E; cbn [WriteEverything] in E;
    simplify_eq; try done.
  destruct (Z.ltb_spec 0 w) as [Hw|Hw].
  - inv_done. destruct a0 as [[code' taken'] rest']. inv_done. simplify_eq.
    apply IH in E1 as [E1 Hr]. split; [by rewrite <- app_assoc, E1, take_drop|].
    intros Hc Hws. apply Forall_cons_1 in Hws as [_ Hws]. by apply Hr.
  - inv_done. simplify_eq. split; [done|]. intros Hc Hws. apply Forall_cons_1 in Hws as [Hw0 _]. done.
Qed.

(** ** Messages survive *)

(** The masked bit makes no difference. *)
Lemma deliver_outgoing out : ∀ st,
  fold_left deliver_frame (map sent (map outgoing out)) st
    = fold_left deliver_frame (map content (map fst out)) st.
Proof.
  induction out as [|p out IH]; intros st; [done|]. cbn [map fold_left]. by rewrite IH.
Qed.

Lemma init_flowing (frames : list frame) Q bytes buffered :
  bytes = wires frames →
  flowing frames Q bytes (init_WebSocketBasicStream buffered) [].
Proof.
  intros E. exists [], ([], None). split; [|done].
  by apply (streaming_init 8 (λ _, 0) ltac:(done) ltac:(done)).
Qed.

(** Frames that are sent, read to the end. *)
Lemma messages_read kPackedMaskKeySize io_data (Q : WebSocketFrameHeader → Prop) (frames : list frame) messages buffered pieces :
  4 <= kPackedMaskKeySize → kPackedMaskKeySize mod 4 = 0 → header_property Q →
  Forall valid_frame frames → Forall (λ f, Q (f_header f)) frames → deliver (map sent frames) = Some messages →
  Z.of_nat (length (wires frames)) <= INT32_MAX → buffered ++ concat pieces = wires frames →
  Forall (λ piece, 0 < Z.of_nat (length piece) <= kReadBufferSize) pieces →
  ∃ vec s,
    read_all kPackedMaskKeySize io_data (S (S (length pieces))) (reads_of pieces) []
      (init_WebSocketBasicStream (Some buffered)) = Done (Some (ERR_IO_PENDING, vec, s)) ∧
    deliver (map content vec) = Some messages ∧ kept Q s vec.
Proof.
  intros HK Hdiv HQ Hv HQs Hd Hmax E Hpieces.
  pose proof (wires_bytes _ Hv) as Hbs. rewrite <- E in Hbs. apply Forall_app in Hbs as [Hbs1 Hbs2].
  assert (Z.of_nat (length buffered) < 2 ^ 63) as Hl.
  { unfold INT32_MAX in Hmax. rewrite <- E, length_app in Hmax. lia. }
  set (s := init_WebSocketBasicStream (Some buffered)).
  assert (left_over s = buffered) as El by (by destruct buffered).
  destruct (read_all_flowing _ io_data HK Hdiv frames Hv ltac:(by rewrite Hd; eexists) Q HQ HQs
    (S (S (length pieces))) pieces s []) as (vec & s' & Er & chunks & st & Hst & Eass & Hrel & Hkept).
  - rewrite El. by apply init_flowing.
  - clear -Hpieces Hbs2. unfold kReadBufferSize in *. induction Hpieces as [|piece pieces Hp _ IH]; [constructor|].
    cbn [concat] in Hbs2. apply Forall_app in Hbs2 as [? ?]. constructor; [|by apply IH].
    split_and!; [intros ->; cbn in Hp; lia|done|lia].
  - by rewrite El.
  - by rewrite El.
  - destruct (http_read_buffer_ s); lia.
  - exists vec, s'. split; [done|]. apply streaming_done in Hst as (Eass' & _ & _); [|done].
    rewrite Eass' in Eass. injection Eass as <-. destruct Hrel as (_ & _ & Hrel). cbn [fst] in Hrel.
    by rewrite Hrel.
Qed.

(** [C7] Messages survive the connection.  Any frames whose sizes fit and that make up
    messages are combined by [WriteFrames] into one buffer without a check failing, and
    the socket gets this buffer, all of it when the result is [OK].  If the bytes arrive at
    a stream, the first of them perhaps with the handshake and the others in reads of any
    sizes, a caller that reads until the stream waits gets frames, perhaps others than were
    sent, that make up the same messages, with the same open message at the end. *)
Theorem messages_survive (kPackedMaskKeySize : Z) (io_data : WebSocketFrameParser → Z) (address : Z)
    (out : list (WebSocketFrame * list Z)) (messages : session) :
  4 <= kPackedMaskKeySize → kPackedMaskKeySize mod 4 = 0 →
  Forall (λ p, valid_frame (outgoing p)) out → serialized_size out <= INT32_MAX →
  deliver (map content (map fst out)) = Some messages →
  ∃ bytes,
    combine_frames kPackedMaskKeySize (map fst out) (map snd out) address = Done bytes ∧
    (∀ writes code taken rest,
       WriteFrames kPackedMaskKeySize (map fst out) (map snd out) address writes = Done (code, taken, rest) →
       taken ++ rest = bytes ∧ (code = OK → Forall (λ w, w ≠ 0) writes → taken = bytes)) ∧
    ∀ buffered pieces, buffered ++ concat pieces = bytes →
      Forall (λ piece, 0 < Z.of_nat (length piece) <= kReadBufferSize) pieces →
      ∃ frames s,
        read_all kPackedMaskKeySize io_data (S (S (length pieces))) (reads_of pieces) []
          (init_WebSocketBasicStream (Some buffered)) = Done (Some (ERR_IO_PENDING, frames, s)) ∧
        deliver (map content frames) = Some messages.
Proof.
  intros HK Hdiv Hv Hmax Hd. exists (wires (map outgoing out)).
  pose proof (combine_frames_wires _ HK Hdiv out address Hv Hmax) as Ec. split; [done|]. split.
  { intros writes code taken rest E. unfold WriteFrames in E. rewrite Ec, Done_bind in E.
    apply WriteEverything_prefix in E as [E Hr]. split; [done|]. intros Hc Hw.
    by rewrite <- E, (Hr Hc Hw), app_nil_r. }
  intros buffered pieces E Hpieces.
  destruct (messages_read kPackedMaskKeySize io_data (λ _, True) (map outgoing out) messages buffered pieces)
    as (frames & s & Er & Ed & _); [done|done|by split|by apply Forall_map|by apply Forall_true| |done|done|done|].
  - unfold deliver. by rewrite deliver_outgoing.
  - by exists frames, s.
Qed.

(** A text message in two frames, with a ping between them. *)
Definition example_out : list (WebSocketFrame * list Z) :=
  [ (mkWebSocketFrame (mkWebSocketFrameHeader false false false false kOpCodeText false 5)
       (Some [104; 101; 108; 108; 111]), [1; 2; 3; 4]);
    (mkWebSocketFrame (mkWebSocketFrameHeader true false false false kOpCodePing false 4)
       (Some [9; 8; 7; 6]), [255; 0; 255; 0]);
    (mkWebSocketFrame (mkWebSocketFrameHeader true false false false kOpCodeContinuation false 6)
       (Some [32; 119; 111; 114; 108; 100]), [7; 7; 7; 7]) ].
Definition example_messages : session :=
  ([ControlMessage (kOpCodePing, false, false, false) [9; 8; 7; 6];
    DataMessage (kOpCodeText, false, false, false) [104; 101; 108; 108; 111; 32; 119; 111; 114; 108; 100]], None).

Lemma example_out_valid : Forall (λ p, valid_frame (outgoing p)) example_out.
Proof.
  unfold example_out. repeat (constructor; [split_and!; try done; repeat (constructor; [done|]); constructor|]).
  constructor.
Qed.

Lemma messages_survive_witness :
  ∃ bytes,
    combine_frames 8 (map fst example_out) (map snd example_out) 4097 = Done bytes ∧
    (∀ writes code taken rest,
       WriteFrames 8 (map fst example_out) (map snd example_out) 4097 writes = Done (code, taken, rest) →
       taken ++ rest = bytes ∧ (code = OK → Forall (λ w, w ≠ 0) writes → taken = bytes)) ∧
    ∀ buffered pieces, buffered ++ concat pieces = bytes →
      Forall (λ piece, 0 < Z.of_nat (length piece) <= kReadBufferSize) pieces →
      ∃ frames s,
        read_all 8 (λ _, 4096) (S (S (length pieces))) (reads_of pieces) []
          (init_WebSocketBasicStream (Some buffered)) = Done (Some (ERR_IO_PENDING, frames, s)) ∧
        deliver (map content frames) = Some example_messages.
Proof.
  apply (messages_survive 8 (λ _, 4096) 4097 example_out example_messages); [lia|done| |done|done].
  apply example_out_valid.
Defined.

(** The bytes cut in the middle of the text and of the ping: four frames come out. *)
Example frames_in_pieces :
  (bytes ← combine_frames 8 (map fst example_out) (map snd example_out) 4097;
   r ← read_all 8 (λ _, 4096) 5 (reads_of [take 5 (drop 3 bytes); take 12 (drop 8 bytes); drop 20 bytes]) []
         (init_WebSocketBasicStream (Some (take 3 bytes)));
   Done (option_map (λ '(result, frames, _),
     (result, map (λ f, (opcode (frame_header f), payload_length (frame_header f), final (frame_header f))) frames,
      deliver (map content frames))) r))
  = Done (Some (ERR_IO_PENDING, [(1, 2, false); (0, 3, false); (9, 4, true); (0, 6, true)],
                Some example_messages)).
Proof. vm_compute. reflexivity. Qed.
