(* ===== verification/Bits.v ===== *)
(** * Bytes as sequences of bits

    The bits of a number and of a string of bytes, most significant first: the order in
    which bit streams write and read them. *)

From S2P Require Import Prelude.

(** The [n] low bits of [v]. *)
Fixpoint z_bits (n : nat) (v : Z) : list bool :=
  match n with
  | O => []
  | S n => Z.testbit v (Z.of_nat n) :: z_bits n v
  end.

(** The number that a sequence of bits stands for. *)
Definition bits_value (bs : list bool) : Z := fold_left (λ v b, 2 * v + Z.b2z b) bs 0.

Definition bytes_bits (bytes : list Z) : list bool := bytes ≫= z_bits 8.

(** ** The bits of a number *)

Lemma z_bits_length n v : length (z_bits n v) = n.
Proof. induction n; cbn; [done|]. by rewrite IHn. Qed.
#[export] Hint Rewrite z_bits_length : lengths.

Lemma z_bits_lookup n v i :
  (i < n)%nat → z_bits n v !! i = Some (Z.testbit v (Z.of_nat (n - 1 - i))).
Proof.
  revert i. induction n as [|n IH]; intros i Hi; [lia|]. destruct i as [|i]; cbn.
  - do 3 f_equal. lia.
  - rewrite IH by lia. do 3 f_equal. lia.
Qed.

(** Two sequences of [n] bits are equal when they agree everywhere. *)
Lemma bits_ext (l k : list bool) n :
  length l = n → length k = n →
  (∀ i, (i < n)%nat → l !! i = k !! i) → l = k.
Proof.
  intros Hl Hk H. apply list_eq. intros i. destruct (decide (i < n)%nat); [by apply H|].
  rewrite !lookup_ge_None_2 by lia. done.
Qed.

Lemma z_bits_zero n : z_bits n 0 = replicate n false.
Proof. induction n; cbn [z_bits replicate]; [done|]. by rewrite IHn, Z.bits_0. Qed.

Lemma z_bits_app n m v :
  z_bits (n + m) v = z_bits n (Z.shiftr v (Z.of_nat m)) ++ z_bits m v.
Proof.
  induction n as [|n IH]; cbn; [done|]. rewrite IH, Z.shiftr_spec by lia.
  do 2 f_equal. lia.
Qed.

Lemma z_bits_mod n v : z_bits n (v mod 2 ^ Z.of_nat n) = z_bits n v.
Proof.
  apply (bits_ext _ _ n); [by rewrite z_bits_length..|]. intros i Hi.
  rewrite !z_bits_lookup by lia. f_equal. apply Z.mod_pow2_bits_low. lia.
Qed.

(** ** The value of bits *)

Lemma fold_bits_value bs v :
  fold_left (λ v b, 2 * v + Z.b2z b) bs v = v * 2 ^ Z.of_nat (length bs) + bits_value bs.
Proof.
  unfold bits_value. revert v. induction bs as [|b bs IH]; intros v; cbn [fold_left length].
  - cbn. lia.
  - rewrite IH, (IH (2 * 0 + Z.b2z b)), Nat2Z.inj_succ, Z.pow_succ_r by lia. nia.
Qed.

Lemma bits_value_app l k :
  bits_value (l ++ k) = bits_value l * 2 ^ Z.of_nat (length k) + bits_value k.
Proof. unfold bits_value at 1. by rewrite fold_left_app, fold_bits_value. Qed.

Lemma bits_value_cons b l :
  bits_value (b :: l) = Z.b2z b * 2 ^ Z.of_nat (length l) + bits_value l.
Proof. apply (bits_value_app [b] l). Qed.

Lemma bits_value_range bs : 0 <= bits_value bs < 2 ^ Z.of_nat (length bs).
Proof.
  induction bs as [|b bs IH]; [cbn; lia|].
  rewrite bits_value_cons. cbn [length]. rewrite Nat2Z.inj_succ, Z.pow_succ_r by lia.
  destruct b; cbn [Z.b2z]; lia.
Qed.

Lemma bits_value_replicate n : bits_value (replicate n false) = 0.
Proof. induction n; [done|]. cbn [replicate]. rewrite bits_value_cons, IHn. cbn. lia. Qed.

Lemma bits_value_z_bits n v : bits_value (z_bits n v) = v mod 2 ^ Z.of_nat n.
Proof.
  induction n as [|n IH]; cbn [z_bits].
  - cbn. by rewrite Z.mod_1_r.
  - rewrite bits_value_cons, z_bits_length, IH, Nat2Z.inj_succ, Z.pow_succ_r by lia.
    rewrite Z.testbit_spec' by lia.
    rewrite (Z.mul_comm 2), Z.rem_mul_r by lia. lia.
Qed.

Lemma z_bits_value bs : z_bits (length bs) (bits_value bs) = bs.
Proof.
  induction bs as [|b bs IH]; [done|]. cbn [length z_bits].
  pose proof (bits_value_range bs) as Hr. rewrite bits_value_cons. f_equal.
  - apply Z.b2z_inj. rewrite Z.testbit_spec' by lia.
    rewrite Z.div_add_l, Z.div_small, Z.add_0_r by lia. by destruct b.
  - rewrite <- z_bits_mod, Z.add_comm, Z.mod_add, Z.mod_small by lia. done.
Qed.

Lemma bits_value_small n v : 0 <= v < 2 ^ Z.of_nat n → bits_value (z_bits n v) = v.
Proof. intros. rewrite bits_value_z_bits. by apply Z.mod_small. Qed.

(** ** Bytes *)

Lemma bytes_bits_app l k : bytes_bits (l ++ k) = bytes_bits l ++ bytes_bits k.
Proof. apply bind_app. Qed.

Lemma bytes_bits_cons b l : bytes_bits (b :: l) = z_bits 8 b ++ bytes_bits l.
Proof. done. Qed.

Lemma bytes_bits_single b : bytes_bits [b] = z_bits 8 b.
Proof. apply app_nil_r. Qed.

Lemma bytes_bits_length l : length (bytes_bits l) = (8 * length l)%nat.
Proof. induction l; [done|]. rewrite bytes_bits_cons, length_app, IHl. cbn. lia. Qed.
#[export] Hint Rewrite bytes_bits_length : lengths.

Lemma z_bits_byte_inj a b : byte_ok a → byte_ok b → z_bits 8 a = z_bits 8 b → a = b.
Proof.
  intros Ha Hb E. rewrite <- (bits_value_small 8 a), <- (bits_value_small 8 b), E; done.
Qed.

Lemma bytes_bits_inj l k :
  Forall byte_ok l → Forall byte_ok k → bytes_bits l = bytes_bits k → l = k.
Proof.
  intros Hl. revert k. induction Hl as [|a l Ha Hl IH]; intros k Hk E.
  - destruct k; [done|]. apply (f_equal length) in E. by rewrite !bytes_bits_length in E.
  - destruct Hk as [|b k Hb Hk]; [apply (f_equal length) in E; by rewrite !bytes_bits_length in E|].
    rewrite !bytes_bits_cons in E. apply app_inj_1 in E as [E1 E2]; [|by rewrite !z_bits_length].
    f_equal; [by apply z_bits_byte_inj | by apply IH].
Qed.

Lemma bytes_bits_drop l n : bytes_bits (drop n l) = drop (8 * n) (bytes_bits l).
Proof.
  revert l. induction n as [|n IH]; intros l; [by rewrite !drop_0|].
  destruct l as [|b l]; [by destruct n|].
  cbn [drop]. rewrite IH, bytes_bits_cons, drop_app_ge by (rewrite z_bits_length; lia).
  f_equal. rewrite z_bits_length. lia.
Qed.

Lemma bytes_bits_take l n : bytes_bits (take n l) = take (8 * n) (bytes_bits l).
Proof.
  revert l. induction n as [|n IH]; intros l; [done|].
  destruct l as [|b l]; [by destruct n|].
  cbn [take]. rewrite !bytes_bits_cons, IH, take_app_ge by (rewrite z_bits_length; lia).
  do 2 f_equal. rewrite z_bits_length. lia.
Qed.

(** ** Bits in place *)

Lemma z_bits_shifted n m v :
  z_bits (n + m) (Z.shiftl v (Z.of_nat m)) = z_bits n v ++ replicate m false.
Proof.
  rewrite z_bits_app, Z.shiftr_shiftl_l, Z.sub_diag, Z.shiftl_0_r by lia. f_equal.
  rewrite <- z_bits_zero, <- z_bits_mod, Z.shiftl_mul_pow2, Z.mod_mul by lia. done.
Qed.

Lemma z_bits_high m r v :
  0 <= v < 2 ^ Z.of_nat r → z_bits (m + r) v = replicate m false ++ z_bits r v.
Proof.
  intros Hv. rewrite z_bits_app, Z.shiftr_div_pow2, Z.div_small, z_bits_zero by lia. done.
Qed.

Lemma z_bits_lor n a b : z_bits n (Z.lor a b) = zip_with orb (z_bits n a) (z_bits n b).
Proof. induction n; cbn; [done|]. by rewrite IHn, Z.lor_spec. Qed.

Lemma zip_orb_false_l l : zip_with orb (replicate (length l) false) l = l.
Proof. induction l; cbn; [done|]. by rewrite IHl. Qed.

Lemma zip_orb_false_r l : zip_with orb l (replicate (length l) false) = l.
Proof. induction l; cbn; [done|]. by rewrite IHl, orb_false_r. Qed.

Lemma z_bits_u8 v : z_bits 8 (u8 v) = z_bits 8 v.
Proof. apply (z_bits_mod 8). Qed.

(** Filling the free low part of a byte. *)
Lemma z_bits_fill (p : list bool) k n a v :
  (length p + k = 8)%nat → (n <= k)%nat → 0 <= v < 2 ^ Z.of_nat n →
  z_bits 8 a = p ++ replicate k false →
  z_bits 8 (Z.lor a (Z.shiftl v (Z.of_nat (k - n)))) = p ++ z_bits n v ++ replicate (k - n) false.
Proof.
  intros Hl Hn Hv Ha. rewrite z_bits_lor, Ha.
  assert (z_bits 8 (Z.shiftl v (Z.of_nat (k - n)))
          = replicate (length p) false ++ (z_bits n v ++ replicate (k - n) false)) as ->.
  { replace 8%nat with ((length p + n) + (k - n))%nat at 1 by lia.
    by rewrite z_bits_shifted, z_bits_high, app_assoc by done. }
  rewrite zip_with_app by by rewrite length_replicate. rewrite zip_orb_false_r. f_equal.
  replace k with (length (z_bits n v ++ replicate (k - n) false)) at 1
    by (autorewrite with lengths; lia).
  apply zip_orb_false_l.
Qed.

(** A string whose bits start with those of [l] starts with [l]. *)
Lemma bytes_bits_prefix buf l rest :
  Forall byte_ok buf → Forall byte_ok l → bytes_bits buf = bytes_bits l ++ rest →
  ∃ buf', buf = l ++ buf' ∧ bytes_bits buf' = rest.
Proof.
  intros Hb Hl E. exists (drop (length l) buf).
  rewrite bytes_bits_drop, E, drop_app_length' by by rewrite bytes_bits_length.
  split; [|done]. rewrite <- (take_drop (length l) buf) at 1. f_equal.
  apply bytes_bits_inj; [by apply Forall_take|done|].
  by rewrite bytes_bits_take, E, take_app_length' by by rewrite bytes_bits_length.
Qed.

(** ** 32-bit words filled from the top *)

Definition window (bs : list bool) : Z := bits_value (take 32 (bs ++ replicate 32 false)).

Lemma window_length bs : length (take 32 (bs ++ replicate 32 false)) = 32%nat.
Proof. rewrite length_take, length_app, length_replicate. lia. Qed.

Lemma window_range bs : 0 <= window bs < 2 ^ 32.
Proof.
  pose proof (bits_value_range (take 32 (bs ++ replicate 32 false))) as H.
  by rewrite window_length in H.
Qed.

Lemma window_bits bs : z_bits 32 (window bs) = take 32 (bs ++ replicate 32 false).
Proof.
  pose proof (z_bits_value (take 32 (bs ++ replicate 32 false))) as H.
  by rewrite window_length in H.
Qed.

Lemma window_unique w bs :
  0 <= w < 2 ^ 32 → z_bits 32 w = take 32 (bs ++ replicate 32 false) → w = window bs.
Proof. intros Hw E. unfold window. rewrite <- E. symmetry. by apply (bits_value_small 32). Qed.

Lemma z_bits_land n a b : z_bits n (Z.land a b) = zip_with andb (z_bits n a) (z_bits n b).
Proof. induction n; cbn; [done|]. by rewrite IHn, Z.land_spec. Qed.

Lemma z_bits_shiftr n m v :
  (m <= n)%nat → 0 <= v < 2 ^ Z.of_nat n →
  z_bits n (Z.shiftr v (Z.of_nat m)) = replicate m false ++ take (n - m) (z_bits n v).
Proof.
  intros Hm Hv. replace n with (m + (n - m))%nat at 1 by lia.
  rewrite z_bits_high.
  - f_equal. replace n with ((n - m) + m)%nat at 3 by lia.
    by rewrite z_bits_app, take_app_length' by by rewrite z_bits_length.
  - rewrite Z.shiftr_div_pow2 by lia. split; [apply Z.div_pos; lia|].
    apply Z.div_lt_upper_bound; [lia|]. rewrite <- Z.pow_add_r by lia.
    replace (Z.of_nat m + Z.of_nat (n - m)) with (Z.of_nat n) by lia. lia.
Qed.

Lemma z_bits_signed_char n b : (n <= 8)%nat → z_bits n (signed_char b) = z_bits n b.
Proof.
  intros Hn. unfold signed_char. destruct (Z.ltb_spec b 128); [done|].
  rewrite <- z_bits_mod, <- (z_bits_mod n b). f_equal.
  replace 256 with (2 ^ Z.of_nat (8 - n) * 2 ^ Z.of_nat n)
    by (rewrite <- Z.pow_add_r by lia; replace (Z.of_nat (8 - n) + Z.of_nat n) with 8 by lia; done).
  rewrite <- (Z.mod_add b (- 2 ^ Z.of_nat (8 - n)) (2 ^ Z.of_nat n)) by lia. f_equal. lia.
Qed.

Lemma z_bits_drop n m v : (m <= n)%nat → drop m (z_bits n v) = z_bits (n - m) v.
Proof.
  intros. replace n with (m + (n - m))%nat at 1 by lia.
  by rewrite z_bits_app, drop_app_length' by by rewrite z_bits_length.
Qed.

Lemma z_bits_u32 v : z_bits 32 (u32 v) = z_bits 32 v.
Proof. apply (z_bits_mod 32). Qed.

Lemma zip_andb_false_l l n : length l = n → zip_with andb (replicate n false) l = replicate n false.
Proof. intros <-. induction l; cbn; [done|]. by rewrite IHl. Qed.

Lemma zip_andb_false_r l n : length l = n → zip_with andb l (replicate n false) = replicate n false.
Proof. intros <-. induction l; cbn; [done|]. by rewrite IHl, andb_false_r. Qed.

Lemma land_range n a b : 0 <= b < 2 ^ Z.of_nat n → 0 <= Z.land a b < 2 ^ Z.of_nat n.
Proof.
  intros Hb. rewrite <- (Z.mod_small b (2 ^ Z.of_nat n)) by done.
  rewrite <- Z.land_ones, Z.land_assoc, Z.land_ones by lia. apply Z.mod_pos_bound. lia.
Qed.

Lemma lor_range n a b :
  0 <= a < 2 ^ Z.of_nat n → 0 <= b < 2 ^ Z.of_nat n → 0 <= Z.lor a b < 2 ^ Z.of_nat n.
Proof.
  intros Ha Hb. rewrite <- (Z.mod_small a (2 ^ Z.of_nat n)), <- (Z.mod_small b (2 ^ Z.of_nat n)) by done.
  rewrite <- !Z.land_ones, <- Z.land_lor_distr_l, Z.land_ones by lia. apply Z.mod_pos_bound. lia.
Qed.

Lemma z_bits_inj n a b :
  0 <= a < 2 ^ Z.of_nat n → 0 <= b < 2 ^ Z.of_nat n → z_bits n a = z_bits n b → a = b.
Proof. intros Ha Hb E. by rewrite <- (bits_value_small n a), E, bits_value_small. Qed.

(** Two parts of a word that do not overlap. *)
Lemma disjoint_parts a b p q :
  0 <= a < 2 ^ 32 → 0 <= b < 2 ^ 32 → (length p + length q = 32)%nat →
  z_bits 32 a = p ++ replicate (length q) false → z_bits 32 b = replicate (length p) false ++ q →
  Z.land a b = 0 ∧ z_bits 32 (Z.lor a b) = p ++ q.
Proof.
  intros Ha Hb Hl Ea Eb. split.
  - apply (z_bits_inj 32); [by apply (land_range 32)|done|].
    rewrite z_bits_land, Ea, Eb, zip_with_app by by rewrite length_replicate.
    rewrite zip_andb_false_r, zip_andb_false_l by done. by rewrite <- replicate_add, Hl, z_bits_zero.
  - rewrite z_bits_lor, Ea, Eb, zip_with_app by by rewrite length_replicate.
    by rewrite zip_orb_false_r, zip_orb_false_l.
Qed.
