(* ===== verification/HpackConstants.v ===== *)
(** * net/spdy/hpack/hpack_constants.{h,cc}: the constants of HPACK

    The opcodes, the canonical Huffman code and the static table of HTTP/2 header
    compression. *)

From Stdlib Require Import String Ascii.
From S2P Require Import Prelude.

(** ** Opcodes *)

Record HpackPrefix : Type := mkHpackPrefix { prefix_bits : Z; prefix_bit_size : Z }.

Definition kStringLiteralIdentityEncoded : HpackPrefix := mkHpackPrefix 0 1.
Definition kStringLiteralHuffmanEncoded : HpackPrefix := mkHpackPrefix 1 1.
Definition kIndexedOpcode : HpackPrefix := mkHpackPrefix 1 1.
Definition kLiteralIncrementalIndexOpcode : HpackPrefix := mkHpackPrefix 1 2.
Definition kLiteralNoIndexOpcode : HpackPrefix := mkHpackPrefix 0 4.
Definition kLiteralNeverIndexOpcode : HpackPrefix := mkHpackPrefix 1 4.
Definition kHeaderTableSizeUpdateOpcode : HpackPrefix := mkHpackPrefix 1 3.

Definition kDefaultHeaderTableSizeSetting : Z := 4096.
Definition kDefaultMaxStringLiteralSize : Z := 16 * 1024.
Definition kMaxDecodeBufferSize : Z := 32 * 1024.
Definition kPseudoHeaderPrefix : Z := 58.

(** ** The Huffman code

    [code] holds the code word in its most significant bits. *)
Record HpackHuffmanSymbol : Type := mkHpackHuffmanSymbol { code : Z; code_length : Z; code_id : Z }.

Definition HpackHuffmanCode : list HpackHuffmanSymbol :=
  [mkHpackHuffmanSymbol 0xffc00000 13 0; mkHpackHuffmanSymbol 0xffffb000 23 1;
   mkHpackHuffmanSymbol 0xfffffe20 28 2; mkHpackHuffmanSymbol 0xfffffe30 28 3;
   mkHpackHuffmanSymbol 0xfffffe40 28 4; mkHpackHuffmanSymbol 0xfffffe50 28 5;
   mkHpackHuffmanSymbol 0xfffffe60 28 6; mkHpackHuffmanSymbol 0xfffffe70 28 7;
   mkHpackHuffmanSymbol 0xfffffe80 28 8; mkHpackHuffmanSymbol 0xffffea00 24 9;
   mkHpackHuffmanSymbol 0xfffffff0 30 10; mkHpackHuffmanSymbol 0xfffffe90 28 11;
   mkHpackHuffmanSymbol 0xfffffea0 28 12; mkHpackHuffmanSymbol 0xfffffff4 30 13;
   mkHpackHuffmanSymbol 0xfffffeb0 28 14; mkHpackHuffmanSymbol 0xfffffec0 28 15;
   mkHpackHuffmanSymbol 0xfffffed0 28 16; mkHpackHuffmanSymbol 0xfffffee0 28 17;
   mkHpackHuffmanSymbol 0xfffffef0 28 18; mkHpackHuffmanSymbol 0xffffff00 28 19;
   mkHpackHuffmanSymbol 0xffffff10 28 20; mkHpackHuffmanSymbol 0xffffff20 28 21;
   mkHpackHuffmanSymbol 0xfffffff8 30 22; mkHpackHuffmanSymbol 0xffffff30 28 23;
   mkHpackHuffmanSymbol 0xffffff40 28 24; mkHpackHuffmanSymbol 0xffffff50 28 25;
   mkHpackHuffmanSymbol 0xffffff60 28 26; mkHpackHuffmanSymbol 0xffffff70 28 27;
   mkHpackHuffmanSymbol 0xffffff80 28 28; mkHpackHuffmanSymbol 0xffffff90 28 29;
   mkHpackHuffmanSymbol 0xffffffa0 28 30; mkHpackHuffmanSymbol 0xffffffb0 28 31;
   mkHpackHuffmanSymbol 0x50000000 6 32; mkHpackHuffmanSymbol 0xfe000000 10 33;
   mkHpackHuffmanSymbol 0xfe400000 10 34; mkHpackHuffmanSymbol 0xffa00000 12 35;
   mkHpackHuffmanSymbol 0xffc80000 13 36; mkHpackHuffmanSymbol 0x54000000 6 37;
   mkHpackHuffmanSymbol 0xf8000000 8 38; mkHpackHuffmanSymbol 0xff400000 11 39;
   mkHpackHuffmanSymbol 0xfe800000 10 40; mkHpackHuffmanSymbol 0xfec00000 10 41;
   mkHpackHuffmanSymbol 0xf9000000 8 42; mkHpackHuffmanSymbol 0xff600000 11 43;
   mkHpackHuffmanSymbol 0xfa000000 8 44; mkHpackHuffmanSymbol 0x58000000 6 45;
   mkHpackHuffmanSymbol 0x5c000000 6 46; mkHpackHuffmanSymbol 0x60000000 6 47;
   mkHpackHuffmanSymbol 0x00000000 5 48; mkHpackHuffmanSymbol 0x08000000 5 49;
   mkHpackHuffmanSymbol 0x10000000 5 50; mkHpackHuffmanSymbol 0x64000000 6 51;
   mkHpackHuffmanSymbol 0x68000000 6 52; mkHpackHuffmanSymbol 0x6c000000 6 53;
   mkHpackHuffmanSymbol 0x70000000 6 54; mkHpackHuffmanSymbol 0x74000000 6 55;
   mkHpackHuffmanSymbol 0x78000000 6 56; mkHpackHuffmanSymbol 0x7c000000 6 57;
   mkHpackHuffmanSymbol 0xb8000000 7 58; mkHpackHuffmanSymbol 0xfb000000 8 59;
   mkHpackHuffmanSymbol 0xfff80000 15 60; mkHpackHuffmanSymbol 0x80000000 6 61;
   mkHpackHuffmanSymbol 0xffb00000 12 62; mkHpackHuffmanSymbol 0xff000000 10 63;
   mkHpackHuffmanSymbol 0xffd00000 13 64; mkHpackHuffmanSymbol 0x84000000 6 65;
   mkHpackHuffmanSymbol 0xba000000 7 66; mkHpackHuffmanSymbol 0xbc000000 7 67;
   mkHpackHuffmanSymbol 0xbe000000 7 68; mkHpackHuffmanSymbol 0xc0000000 7 69;
   mkHpackHuffmanSymbol 0xc2000000 7 70; mkHpackHuffmanSymbol 0xc4000000 7 71;
   mkHpackHuffmanSymbol 0xc6000000 7 72; mkHpackHuffmanSymbol 0xc8000000 7 73;
   mkHpackHuffmanSymbol 0xca000000 7 74; mkHpackHuffmanSymbol 0xcc000000 7 75;
   mkHpackHuffmanSymbol 0xce000000 7 76; mkHpackHuffmanSymbol 0xd0000000 7 77;
   mkHpackHuffmanSymbol 0xd2000000 7 78; mkHpackHuffmanSymbol 0xd4000000 7 79;
   mkHpackHuffmanSymbol 0xd6000000 7 80; mkHpackHuffmanSymbol 0xd8000000 7 81;
   mkHpackHuffmanSymbol 0xda000000 7 82; mkHpackHuffmanSymbol 0xdc000000 7 83;
   mkHpackHuffmanSymbol 0xde000000 7 84; mkHpackHuffmanSymbol 0xe0000000 7 85;
   mkHpackHuffmanSymbol 0xe2000000 7 86; mkHpackHuffmanSymbol 0xe4000000 7 87;
   mkHpackHuffmanSymbol 0xfc000000 8 88; mkHpackHuffmanSymbol 0xe6000000 7 89;
   mkHpackHuffmanSymbol 0xfd000000 8 90; mkHpackHuffmanSymbol 0xffd80000 13 91;
   mkHpackHuffmanSymbol 0xfffe0000 19 92; mkHpackHuffmanSymbol 0xffe00000 13 93;
   mkHpackHuffmanSymbol 0xfff00000 14 94; mkHpackHuffmanSymbol 0x88000000 6 95;
   mkHpackHuffmanSymbol 0xfffa0000 15 96; mkHpackHuffmanSymbol 0x18000000 5 97;
   mkHpackHuffmanSymbol 0x8c000000 6 98; mkHpackHuffmanSymbol 0x20000000 5 99;
   mkHpackHuffmanSymbol 0x90000000 6 100; mkHpackHuffmanSymbol 0x28000000 5 101;
   mkHpackHuffmanSymbol 0x94000000 6 102; mkHpackHuffmanSymbol 0x98000000 6 103;
   mkHpackHuffmanSymbol 0x9c000000 6 104; mkHpackHuffmanSymbol 0x30000000 5 105;
   mkHpackHuffmanSymbol 0xe8000000 7 106; mkHpackHuffmanSymbol 0xea000000 7 107;
   mkHpackHuffmanSymbol 0xa0000000 6 108; mkHpackHuffmanSymbol 0xa4000000 6 109;
   mkHpackHuffmanSymbol 0xa8000000 6 110; mkHpackHuffmanSymbol 0x38000000 5 111;
   mkHpackHuffmanSymbol 0xac000000 6 112; mkHpackHuffmanSymbol 0xec000000 7 113;
   mkHpackHuffmanSymbol 0xb0000000 6 114; mkHpackHuffmanSymbol 0x40000000 5 115;
   mkHpackHuffmanSymbol 0x48000000 5 116; mkHpackHuffmanSymbol 0xb4000000 6 117;
   mkHpackHuffmanSymbol 0xee000000 7 118; mkHpackHuffmanSymbol 0xf0000000 7 119;
   mkHpackHuffmanSymbol 0xf2000000 7 120; mkHpackHuffmanSymbol 0xf4000000 7 121;
   mkHpackHuffmanSymbol 0xf6000000 7 122; mkHpackHuffmanSymbol 0xfffc0000 15 123;
   mkHpackHuffmanSymbol 0xff800000 11 124; mkHpackHuffmanSymbol 0xfff40000 14 125;
   mkHpackHuffmanSymbol 0xffe80000 13 126; mkHpackHuffmanSymbol 0xffffffc0 28 127;
   mkHpackHuffmanSymbol 0xfffe6000 20 128; mkHpackHuffmanSymbol 0xffff4800 22 129;
   mkHpackHuffmanSymbol 0xfffe7000 20 130; mkHpackHuffmanSymbol 0xfffe8000 20 131;
   mkHpackHuffmanSymbol 0xffff4c00 22 132; mkHpackHuffmanSymbol 0xffff5000 22 133;
   mkHpackHuffmanSymbol 0xffff5400 22 134; mkHpackHuffmanSymbol 0xffffb200 23 135;
   mkHpackHuffmanSymbol 0xffff5800 22 136; mkHpackHuffmanSymbol 0xffffb400 23 137;
   mkHpackHuffmanSymbol 0xffffb600 23 138; mkHpackHuffmanSymbol 0xffffb800 23 139;
   mkHpackHuffmanSymbol 0xffffba00 23 140; mkHpackHuffmanSymbol 0xffffbc00 23 141;
   mkHpackHuffmanSymbol 0xffffeb00 24 142; mkHpackHuffmanSymbol 0xffffbe00 23 143;
   mkHpackHuffmanSymbol 0xffffec00 24 144; mkHpackHuffmanSymbol 0xffffed00 24 145;
   mkHpackHuffmanSymbol 0xffff5c00 22 146; mkHpackHuffmanSymbol 0xffffc000 23 147;
   mkHpackHuffmanSymbol 0xffffee00 24 148; mkHpackHuffmanSymbol 0xffffc200 23 149;
   mkHpackHuffmanSymbol 0xffffc400 23 150; mkHpackHuffmanSymbol 0xffffc600 23 151;
   mkHpackHuffmanSymbol 0xffffc800 23 152; mkHpackHuffmanSymbol 0xfffee000 21 153;
   mkHpackHuffmanSymbol 0xffff6000 22 154; mkHpackHuffmanSymbol 0xffffca00 23 155;
   mkHpackHuffmanSymbol 0xffff6400 22 156; mkHpackHuffmanSymbol 0xffffcc00 23 157;
   mkHpackHuffmanSymbol 0xffffce00 23 158; mkHpackHuffmanSymbol 0xffffef00 24 159;
   mkHpackHuffmanSymbol 0xffff6800 22 160; mkHpackHuffmanSymbol 0xfffee800 21 161;
   mkHpackHuffmanSymbol 0xfffe9000 20 162; mkHpackHuffmanSymbol 0xffff6c00 22 163;
   mkHpackHuffmanSymbol 0xffff7000 22 164; mkHpackHuffmanSymbol 0xffffd000 23 165;
   mkHpackHuffmanSymbol 0xffffd200 23 166; mkHpackHuffmanSymbol 0xfffef000 21 167;
   mkHpackHuffmanSymbol 0xffffd400 23 168; mkHpackHuffmanSymbol 0xffff7400 22 169;
   mkHpackHuffmanSymbol 0xffff7800 22 170; mkHpackHuffmanSymbol 0xfffff000 24 171;
   mkHpackHuffmanSymbol 0xfffef800 21 172; mkHpackHuffmanSymbol 0xffff7c00 22 173;
   mkHpackHuffmanSymbol 0xffffd600 23 174; mkHpackHuffmanSymbol 0xffffd800 23 175;
   mkHpackHuffmanSymbol 0xffff0000 21 176; mkHpackHuffmanSymbol 0xffff0800 21 177;
   mkHpackHuffmanSymbol 0xffff8000 22 178; mkHpackHuffmanSymbol 0xffff1000 21 179;
   mkHpackHuffmanSymbol 0xffffda00 23 180; mkHpackHuffmanSymbol 0xffff8400 22 181;
   mkHpackHuffmanSymbol 0xffffdc00 23 182; mkHpackHuffmanSymbol 0xffffde00 23 183;
   mkHpackHuffmanSymbol 0xfffea000 20 184; mkHpackHuffmanSymbol 0xffff8800 22 185;
   mkHpackHuffmanSymbol 0xffff8c00 22 186; mkHpackHuffmanSymbol 0xffff9000 22 187;
   mkHpackHuffmanSymbol 0xffffe000 23 188; mkHpackHuffmanSymbol 0xffff9400 22 189;
   mkHpackHuffmanSymbol 0xffff9800 22 190; mkHpackHuffmanSymbol 0xffffe200 23 191;
   mkHpackHuffmanSymbol 0xfffff800 26 192; mkHpackHuffmanSymbol 0xfffff840 26 193;
   mkHpackHuffmanSymbol 0xfffeb000 20 194; mkHpackHuffmanSymbol 0xfffe2000 19 195;
   mkHpackHuffmanSymbol 0xffff9c00 22 196; mkHpackHuffmanSymbol 0xffffe400 23 197;
   mkHpackHuffmanSymbol 0xffffa000 22 198; mkHpackHuffmanSymbol 0xfffff600 25 199;
   mkHpackHuffmanSymbol 0xfffff880 26 200; mkHpackHuffmanSymbol 0xfffff8c0 26 201;
   mkHpackHuffmanSymbol 0xfffff900 26 202; mkHpackHuffmanSymbol 0xfffffbc0 27 203;
   mkHpackHuffmanSymbol 0xfffffbe0 27 204; mkHpackHuffmanSymbol 0xfffff940 26 205;
   mkHpackHuffmanSymbol 0xfffff100 24 206; mkHpackHuffmanSymbol 0xfffff680 25 207;
   mkHpackHuffmanSymbol 0xfffe4000 19 208; mkHpackHuffmanSymbol 0xffff1800 21 209;
   mkHpackHuffmanSymbol 0xfffff980 26 210; mkHpackHuffmanSymbol 0xfffffc00 27 211;
   mkHpackHuffmanSymbol 0xfffffc20 27 212; mkHpackHuffmanSymbol 0xfffff9c0 26 213;
   mkHpackHuffmanSymbol 0xfffffc40 27 214; mkHpackHuffmanSymbol 0xfffff200 24 215;
   mkHpackHuffmanSymbol 0xffff2000 21 216; mkHpackHuffmanSymbol 0xffff2800 21 217;
   mkHpackHuffmanSymbol 0xfffffa00 26 218; mkHpackHuffmanSymbol 0xfffffa40 26 219;
   mkHpackHuffmanSymbol 0xffffffd0 28 220; mkHpackHuffmanSymbol 0xfffffc60 27 221;
   mkHpackHuffmanSymbol 0xfffffc80 27 222; mkHpackHuffmanSymbol 0xfffffca0 27 223;
   mkHpackHuffmanSymbol 0xfffec000 20 224; mkHpackHuffmanSymbol 0xfffff300 24 225;
   mkHpackHuffmanSymbol 0xfffed000 20 226; mkHpackHuffmanSymbol 0xffff3000 21 227;
   mkHpackHuffmanSymbol 0xffffa400 22 228; mkHpackHuffmanSymbol 0xffff3800 21 229;
   mkHpackHuffmanSymbol 0xffff4000 21 230; mkHpackHuffmanSymbol 0xffffe600 23 231;
   mkHpackHuffmanSymbol 0xffffa800 22 232; mkHpackHuffmanSymbol 0xffffac00 22 233;
   mkHpackHuffmanSymbol 0xfffff700 25 234; mkHpackHuffmanSymbol 0xfffff780 25 235;
   mkHpackHuffmanSymbol 0xfffff400 24 236; mkHpackHuffmanSymbol 0xfffff500 24 237;
   mkHpackHuffmanSymbol 0xfffffa80 26 238; mkHpackHuffmanSymbol 0xffffe800 23 239;
   mkHpackHuffmanSymbol 0xfffffac0 26 240; mkHpackHuffmanSymbol 0xfffffcc0 27 241;
   mkHpackHuffmanSymbol 0xfffffb00 26 242; mkHpackHuffmanSymbol 0xfffffb40 26 243;
   mkHpackHuffmanSymbol 0xfffffce0 27 244; mkHpackHuffmanSymbol 0xfffffd00 27 245;
   mkHpackHuffmanSymbol 0xfffffd20 27 246; mkHpackHuffmanSymbol 0xfffffd40 27 247;
   mkHpackHuffmanSymbol 0xfffffd60 27 248; mkHpackHuffmanSymbol 0xffffffe0 28 249;
   mkHpackHuffmanSymbol 0xfffffd80 27 250; mkHpackHuffmanSymbol 0xfffffda0 27 251;
   mkHpackHuffmanSymbol 0xfffffdc0 27 252; mkHpackHuffmanSymbol 0xfffffde0 27 253;
   mkHpackHuffmanSymbol 0xfffffe00 27 254; mkHpackHuffmanSymbol 0xfffffb80 26 255;
   mkHpackHuffmanSymbol 0xfffffffc 30 256].

(** ** The static table *)
Record HpackStaticEntry : Type := mkHpackStaticEntry { entry_name : list Z; entry_value : list Z }.

Definition STATIC_ENTRY (name value : string) : HpackStaticEntry :=
  mkHpackStaticEntry (chars name) (chars value).

Definition HpackStaticTableVector : list HpackStaticEntry :=
  [STATIC_ENTRY ":authority" EmptyString;
   STATIC_ENTRY ":method" "GET";
   STATIC_ENTRY ":method" "POST";
   STATIC_ENTRY ":path" "/";
   STATIC_ENTRY ":path" "/index.html";
   STATIC_ENTRY ":scheme" "http";
   STATIC_ENTRY ":scheme" "https";
   STATIC_ENTRY ":status" "200";
   STATIC_ENTRY ":status" "204";
   STATIC_ENTRY ":status" "206";
   STATIC_ENTRY ":status" "304";
   STATIC_ENTRY ":status" "400";
   STATIC_ENTRY ":status" "404";
   STATIC_ENTRY ":status" "500";
   STATIC_ENTRY "accept-charset" EmptyString;
   STATIC_ENTRY "accept-encoding" "gzip, deflate";
   STATIC_ENTRY "accept-language" EmptyString;
   STATIC_ENTRY "accept-ranges" EmptyString;
   STATIC_ENTRY "accept" EmptyString;
   STATIC_ENTRY "access-control-allow-origin" EmptyString;
   STATIC_ENTRY "age" EmptyString;
   STATIC_ENTRY "allow" EmptyString;
   STATIC_ENTRY "authorization" EmptyString;
   STATIC_ENTRY "cache-control" EmptyString;
   STATIC_ENTRY "content-disposition" EmptyString;
   STATIC_ENTRY "content-encoding" EmptyString;
   STATIC_ENTRY "content-language" EmptyString;
   STATIC_ENTRY "content-length" EmptyString;
   STATIC_ENTRY "content-location" EmptyString;
   STATIC_ENTRY "content-range" EmptyString;
   STATIC_ENTRY "content-type" EmptyString;
   STATIC_ENTRY "cookie" EmptyString;
   STATIC_ENTRY "date" EmptyString;
   STATIC_ENTRY "etag" EmptyString;
   STATIC_ENTRY "expect" EmptyString;
   STATIC_ENTRY "expires" EmptyString;
   STATIC_ENTRY "from" EmptyString;
   STATIC_ENTRY "host" EmptyString;
   STATIC_ENTRY "if-match" EmptyString;
   STATIC_ENTRY "if-modified-since" EmptyString;
   STATIC_ENTRY "if-none-match" EmptyString;
   STATIC_ENTRY "if-range" EmptyString;
   STATIC_ENTRY "if-unmodified-since" EmptyString;
   STATIC_ENTRY "last-modified" EmptyString;
   STATIC_ENTRY "link" EmptyString;
   STATIC_ENTRY "location" EmptyString;
   STATIC_ENTRY "max-forwards" EmptyString;
   STATIC_ENTRY "proxy-authenticate" EmptyString;
   STATIC_ENTRY "proxy-authorization" EmptyString;
   STATIC_ENTRY "range" EmptyString;
   STATIC_ENTRY "referer" EmptyString;
   STATIC_ENTRY "refresh" EmptyString;
   STATIC_ENTRY "retry-after" EmptyString;
   STATIC_ENTRY "server" EmptyString;
   STATIC_ENTRY "set-cookie" EmptyString;
   STATIC_ENTRY "strict-transport-security" EmptyString;
   STATIC_ENTRY "transfer-encoding" EmptyString;
   STATIC_ENTRY "user-agent" EmptyString;
   STATIC_ENTRY "vary" EmptyString;
   STATIC_ENTRY "via" EmptyString;
   STATIC_ENTRY "www-authenticate" EmptyString].
