(* ===== verification/HpackOutputStream.v ===== *)
(** * net/spdy/hpack/hpack_output_stream.{h,cc}: writing bits, integers and strings *)

From S2P Require Import Prelude Bits HpackConstants.

Record HpackOutputStream : Type := mkHpackOutputStream {
  buffer_ : list Z;
  bit_offset_ : Z
}.
#[export] Instance eta_HpackOutputStream : Eta HpackOutputStream := λ s,
  mkHpackOutputStream (buffer_ s) (bit_offset_ s).

Definition new_HpackOutputStream : HpackOutputStream :=
  {| buffer_ := []; bit_offset_ := 0 |}.

Definition append_char (c : Z) (s : HpackOutputStream) : HpackOutputStream :=
  s <| buffer_ := buffer_ s ++ [u8 c] |>.

(** [*buffer_.rbegin() |= c]; there is no last byte in an empty string. *)
Definition or_last_char (c : Z) (s : HpackOutputStream) : outcome HpackOutputStream :=
  match list.last (buffer_ s) with
  | None => DcheckFailed
  | Some l => Done (s <| buffer_ := removelast (buffer_ s) ++ [u8 (Z.lor l c)] |>)
  end.

Definition AppendBits (bits bit_size : Z) (s : HpackOutputStream) : outcome HpackOutputStream :=
  DCHECK (0 <? bit_size) ;;
  DCHECK (bit_size <=? 8) ;;
  DCHECK (Z.shiftr bits bit_size =? 0) ;;
  let new_bit_offset := bit_offset_ s + bit_size in
  s ← (if bit_offset_ s =? 0 then
         DCHECK (bit_size <=? 8) ;;
         Done (append_char (Z.shiftl bits (8 - bit_size)) s)
       else if new_bit_offset <=? 8 then
         or_last_char (Z.shiftl bits (8 - new_bit_offset)) s
       else
         s ← or_last_char (Z.shiftr bits (new_bit_offset - 8)) s;
         Done (append_char (Z.shiftl bits (16 - new_bit_offset)) s));
  Done (s <| bit_offset_ := new_bit_offset mod 8 |>).

Definition AppendPrefix (prefix : HpackPrefix) (s : HpackOutputStream) : outcome HpackOutputStream :=
  AppendBits (prefix_bits prefix) (prefix_bit_size prefix) s.

Definition AppendBytes (buffer : list Z) (s : HpackOutputStream) : outcome HpackOutputStream :=
  DCHECK (bit_offset_ s =? 0) ;;
  Done (s <| buffer_ := buffer_ s ++ buffer |>).

(** The loop of [AppendUint32]: the groups of seven bits but the last.  A [uint32] has at
    most four of them, so the fuel that [AppendUint32] gives is not used up. *)
Fixpoint append_groups (fuel : nat) (I : Z) (s : HpackOutputStream) :
    outcome (Z * HpackOutputStream) :=
  match fuel with
  | O => DcheckFailed
  | S fuel =>
      if Z.land I (u32 (Z.lnot 127)) =? 0 then Done (I, s)
      else append_groups fuel (Z.shiftr I 7) (append_char (Z.lor (Z.land I 127) 128) s)
  end.

Definition AppendUint32 (I : Z) (s : HpackOutputStream) : outcome HpackOutputStream :=
  let N := 8 - bit_offset_ s in
  let max_first_byte := u8 (Z.shiftl 1 N - 1) in
  if I <? max_first_byte then AppendBits (u8 I) N s
  else
    s ← AppendBits max_first_byte N s;
    '(I, s) ← append_groups 6 (I - max_first_byte) s;
    AppendBits (u8 I) 8 s.

(** The result is the string. *)
Definition TakeString (s : HpackOutputStream) : outcome (list Z * HpackOutputStream) :=
  DCHECK (bit_offset_ s =? 0) ;;
  Done (buffer_ s, s <| buffer_ := [] |> <| bit_offset_ := 0 |>).

(** ** What has been written *)

(** The stream holds exactly the bits [bs]; the bits behind them in the last byte are 0. *)
Definition written (s : HpackOutputStream) (bs : list bool) : Prop :=
  Forall byte_ok (buffer_ s) ∧
  bit_offset_ s = Z.of_nat (length bs mod 8) ∧
  ∃ k, (k < 8)%nat ∧ bytes_bits (buffer_ s) = bs ++ replicate k false.

Lemma written_new : written new_HpackOutputStream [].
Proof. split_and!; [constructor|done|]. exists 0%nat. split; [lia|done]. Qed.

(** On a byte boundary nothing is behind the bits. *)
Lemma written_aligned s bs :
  written s bs → bit_offset_ s = 0 → bytes_bits (buffer_ s) = bs.
Proof.
  intros (_ & Ho & k & Hk & E) H0. pose proof (f_equal length E) as El.
  rewrite bytes_bits_length, length_app, length_replicate in El.
  assert (k = 0)%nat as ->.
  { pose proof (Nat.div_mod_eq (length bs) 8). lia. }
  by rewrite E, app_nil_r.
Qed.

(** In the middle of a byte, the last byte is the rest of the bits and zeroes. *)
Lemma written_last s bs :
  written s bs → bit_offset_ s ≠ 0 →
  ∃ init l p pre k, buffer_ s = init ++ [l] ∧ Forall byte_ok init ∧ byte_ok l ∧
    bs = pre ++ p ∧ bytes_bits init = pre ∧
    z_bits 8 l = p ++ replicate k false ∧ (length p + k = 8)%nat ∧
    bit_offset_ s = Z.of_nat (length p).
Proof.
  intros (Hb & Ho & k & Hk & E) H0. pose proof (f_equal length E) as El.
  rewrite bytes_bits_length, length_app, length_replicate in El.
  pose proof (Nat.div_mod_eq (length bs) 8) as Hd.
  pose proof (Nat.mod_upper_bound (length bs) 8 ltac:(lia)) as Hu.
  destruct (buffer_ s) as [|l init _] eqn:Eb using rev_ind; [cbn in El; lia|].
  rewrite bytes_bits_app in E. apply Forall_app in Hb as [Hi Hl].
  rewrite length_app in El. cbn [length] in El.
  set (j := (8 * length init)%nat).
  assert (j + 8 = length bs + k)%nat as Hj by lia.
  rewrite <- (take_drop j bs), <- app_assoc in E.
  apply app_inj_1 in E as [E1 E2];
    [|rewrite bytes_bits_length, length_take; lia].
  exists init, l, (drop j bs), (take j bs), k. rewrite bytes_bits_single in E2.
  split_and!; [done|done|by apply Forall_singleton|by rewrite take_drop|done|done| |];
    rewrite length_drop; lia.
Qed.

(** ** The operations *)

Lemma or_last_char_snoc c s init l :
  buffer_ s = init ++ [l] →
  or_last_char c s = Done (s <| buffer_ := init ++ [u8 (Z.lor l c)] |>).
Proof. intros E. unfold or_last_char. by rewrite E, last_snoc, removelast_last. Qed.

(** A buffer of whole bytes with some bits behind it. *)
Lemma written_intro s bs init l p k :
  buffer_ s = init ++ [u8 l] → Forall byte_ok init → bs = bytes_bits init ++ p →
  z_bits 8 l = p ++ replicate k false → (k < 8)%nat →
  bit_offset_ s = Z.of_nat (length p) mod 8 → written s bs.
Proof.
  intros Eb Hi -> El Hk Ho. split_and!.
  - rewrite Eb. apply Forall_app. split; [done|]. apply Forall_singleton, u8_byte.
  - rewrite Ho, length_app, bytes_bits_length, Nat.add_comm, Nat.mul_comm, Nat.Div0.mod_add.
    by rewrite Nat2Z.inj_mod.
  - exists k. split; [done|].
    by rewrite Eb, bytes_bits_app, bytes_bits_single, z_bits_u8, El, app_assoc.
Qed.

Lemma AppendBits_written s bs v n :
  written s bs → (0 < n <= 8)%nat → 0 <= v < 2 ^ Z.of_nat n →
  ∃ s', AppendBits v (Z.of_nat n) s = Done s' ∧ written s' (bs ++ z_bits n v).
Proof.
  intros Hw Hn Hv. unfold AppendBits.
  pass_DCHECK ltac:(apply Z.ltb_lt; lia). pass_DCHECK ltac:(apply Z.leb_le; lia).
  pass_DCHECK ltac:(apply Z.eqb_eq; rewrite Z.shiftr_div_pow2, Z.div_small; lia).
  cbv zeta. destruct (Z.eqb_spec (bit_offset_ s) 0) as [H0|H0].
  - pass_DCHECK ltac:(apply Z.leb_le; lia). step_done. eexists; split; [done|].
    pose proof (written_aligned s bs Hw H0) as E. destruct Hw as (Hb & _ & _).
    eapply (written_intro _ _ (buffer_ s) _ (z_bits n v) (8 - n)); cbn [buffer_ bit_offset_ set_field append_char];
      [done|done|by rewrite E| |lia|by rewrite H0, z_bits_length].
    replace (8 - Z.of_nat n) with (Z.of_nat (8 - n)) by lia.
    replace 8%nat with (n + (8 - n))%nat at 1 by lia. apply z_bits_shifted.
  - destruct (written_last s bs Hw H0) as (init & l & p & pre & k & Eb & Hi & Hl & -> & <- & El & Hk & Ho).
    rewrite Ho in *. assert (0 < length p)%nat by lia.
    destruct (Z.leb_spec (Z.of_nat (length p) + Z.of_nat n) 8) as [Hle|Hgt];
      rewrite (or_last_char_snoc _ _ _ _ Eb); step_done; eexists; (split; [done|]).
    + eapply (written_intro _ _ init _ (p ++ z_bits n v) (k - n)); cbn [buffer_ bit_offset_ set_field append_char];
        [done|done|by rewrite app_assoc| |lia|by rewrite length_app, z_bits_length, Nat2Z.inj_add].
      replace (8 - (Z.of_nat (length p) + Z.of_nat n)) with (Z.of_nat (k - n)) by lia.
      rewrite (z_bits_fill p k n l v) by (done || lia). by rewrite app_assoc.
    + set (m := (n - k)%nat).
      replace (Z.of_nat (length p) + Z.of_nat n - 8) with (Z.of_nat m) by lia.
      replace (16 - (Z.of_nat (length p) + Z.of_nat n)) with (Z.of_nat (8 - m)) by lia.
      assert (z_bits n v = z_bits k (Z.shiftr v (Z.of_nat m)) ++ z_bits m v) as Ev.
      { replace n with (k + m)%nat by lia. apply z_bits_app. }
      eapply (written_intro _ _ (init ++ [u8 (Z.lor l (Z.shiftr v (Z.of_nat m)))]) _ (z_bits m v) (8 - m));
        cbn [buffer_ bit_offset_ set_field append_char]; [done| | | |lia|].
      * apply Forall_app. split; [done|]. apply Forall_singleton, u8_byte.
      * rewrite Ev, bytes_bits_app, bytes_bits_single, z_bits_u8.
        pose proof (z_bits_fill p k k l (Z.shiftr v (Z.of_nat m))) as F.
        rewrite Nat.sub_diag in F. cbn [replicate] in F. rewrite app_nil_r, Z.shiftl_0_r in F. rewrite F; [by rewrite !app_assoc|lia|lia| |done].
        rewrite Z.shiftr_div_pow2 by lia. split; [apply Z.div_pos; lia|].
        apply Z.div_lt_upper_bound; [lia|]. rewrite <- Z.pow_add_r by lia.
        replace (Z.of_nat m + Z.of_nat k) with (Z.of_nat n) by lia. lia.
      * replace 8%nat with (m + (8 - m))%nat at 1 by lia. apply z_bits_shifted.
      * rewrite z_bits_length. replace (Z.of_nat (length p) + Z.of_nat n) with (Z.of_nat m + 1 * 8) by lia.
        by rewrite Z.mod_add by lia.
Qed.

Lemma AppendPrefix_written s bs prefix :
  written s bs → 0 < prefix_bit_size prefix <= 8 →
  0 <= prefix_bits prefix < 2 ^ prefix_bit_size prefix →
  ∃ s', AppendPrefix prefix s = Done s' ∧
    written s' (bs ++ z_bits (Z.to_nat (prefix_bit_size prefix)) (prefix_bits prefix)).
Proof.
  intros Hw Hn Hv. unfold AppendPrefix.
  pose proof (AppendBits_written s bs (prefix_bits prefix) (Z.to_nat (prefix_bit_size prefix))) as E.
  rewrite Z2Nat.id in E by lia. apply E; [done|lia|done].
Qed.

(** Whole bytes. *)
Lemma written_append s bs bytes :
  written s bs → bit_offset_ s = 0 → Forall byte_ok bytes →
  written (s <| buffer_ := buffer_ s ++ bytes |>) (bs ++ bytes_bits bytes).
Proof.
  intros Hw H0 Hb. pose proof (written_aligned s bs Hw H0) as E. destruct Hw as (Hs & Ho & _).
  split_and!; cbn [buffer_ bit_offset_ set_field].
  - by apply Forall_app.
  - rewrite length_app, bytes_bits_length, Nat.mul_comm, Nat.Div0.mod_add. done.
  - exists 0%nat. split; [lia|]. by rewrite bytes_bits_app, E, app_nil_r.
Qed.

Lemma AppendBytes_written s bs bytes :
  written s bs → bit_offset_ s = 0 → Forall byte_ok bytes →
  ∃ s', AppendBytes bytes s = Done s' ∧ written s' (bs ++ bytes_bits bytes) ∧ bit_offset_ s' = 0.
Proof.
  intros Hw H0 Hb. unfold AppendBytes. pass_DCHECK ltac:(by apply Z.eqb_eq).
  eexists; split; [done|]. split; [by apply written_append|done].
Qed.

(** ** Integers

    The representation of RFC 7541, section 5.1, with a prefix of [N] bits. *)
Fixpoint varint_groups (fuel : nat) (I : Z) : list Z :=
  match fuel with
  | O => []
  | S fuel => if I <? 128 then [I] else (I mod 128 + 128) :: varint_groups fuel (I / 128)
  end.
Definition varint_bits (N : nat) (I : Z) : list bool :=
  if I <? 2 ^ Z.of_nat N - 1 then z_bits N I
  else z_bits N (2 ^ Z.of_nat N - 1) ++ bytes_bits (varint_groups 6 (I - (2 ^ Z.of_nat N - 1))).

Lemma low_group I : 0 <= I <= u32_max →
  (Z.land I (u32 (Z.lnot 127)) =? 0) = (I <? 128) ∧
  Z.lor (Z.land I 127) 128 = I mod 128 + 128 ∧ Z.shiftr I 7 = I / 128.
Proof.
  intros HI. change 127 with (Z.ones 7). rewrite Z.land_ones by lia. split_and!.
  - assert (Z.land I (u32 (Z.lnot (Z.ones 7))) = 2 ^ 7 * (I / 2 ^ 7)) as E.
    { rewrite <- (land_lnot_ones I 7) by lia. unfold u32. change 4294967296 with (2 ^ 32).
      rewrite <- Z.land_ones by lia. rewrite Z.land_comm, <- Z.land_assoc.
      rewrite (Z.land_comm (Z.ones 32)), Z.land_ones by lia.
      rewrite (Z.mod_small I) by (unfold u32_max in *; lia). apply Z.land_comm. }
    rewrite E. destruct (Z.ltb_spec I 128) as [H|H].
    + rewrite Z.div_small by lia. done.
    + apply Z.eqb_neq. assert (1 <= I / 2 ^ 7) by (apply Z.div_le_lower_bound; lia). lia.
  - change 128 with (Z.shiftl 1 7) at 1. rewrite lor_shiftl_add; [done|lia|].
    apply Z.mod_pos_bound. lia.
  - apply Z.shiftr_div_pow2. lia.
Qed.

Lemma varint_group_byte I : 0 <= I → byte_ok (I mod 128 + 128).
Proof. intros. pose proof (Z.mod_pos_bound I 128 ltac:(lia)). unfold byte_ok. lia. Qed.

Lemma append_groups_written fuel I s bs :
  written s bs → bit_offset_ s = 0 → 0 <= I <= u32_max → (0 < fuel)%nat → I < 2 ^ (7 * Z.of_nat fuel) →
  ∃ I' s', append_groups fuel I s = Done (I', s') ∧ 0 <= I' < 128 ∧ bit_offset_ s' = 0 ∧
    ∃ groups, varint_groups fuel I = groups ++ [I'] ∧ written s' (bs ++ bytes_bits groups).
Proof.
  revert I s bs. induction fuel as [|fuel IH]; intros I s bs Hw H0 HI Hpos Hf; [lia|].
  cbn [append_groups varint_groups]. destruct (low_group I HI) as (-> & -> & ->).
  destruct (Z.ltb_spec I 128).
  - exists I, s. split_and!; [done|lia|lia|done|]. exists []. by rewrite app_nil_r.
  - pose proof (varint_group_byte I ltac:(lia)) as Hb.
    destruct (IH (I / 128) (append_char (I mod 128 + 128) s)
                (bs ++ bytes_bits [I mod 128 + 128])) as (I' & s' & E & HI' & H0' & groups & Eg & Hw').
    + unfold append_char. rewrite (u8_small _ Hb). apply written_append; [done..|].
      by apply Forall_singleton.
    + done.
    + split; [apply Z.div_pos; lia|]. unfold u32_max in *. apply Z.div_le_upper_bound; lia.
    + destruct fuel; [cbn in Hf; lia|lia].
    + apply Z.div_lt_upper_bound; [lia|]. change 128 with (2 ^ 7). rewrite <- Z.pow_add_r by lia.
      replace (7 + 7 * Z.of_nat fuel) with (7 * Z.of_nat (S fuel)) by lia. done.
    + exists I', s'. split_and!; [done|lia|lia|done|].
      exists ((I mod 128 + 128) :: groups). rewrite Eg. split; [done|].
      rewrite <- app_assoc, <- bytes_bits_app in Hw'. done.
Qed.

Lemma max_first_byte_eq N : (N <= 8)%nat →
  u8 (Z.shiftl 1 (Z.of_nat N) - 1) = 2 ^ Z.of_nat N - 1.
Proof.
  intros HN. rewrite Z.shiftl_mul_pow2, Z.mul_1_l by lia. apply u8_small.
  pose proof (Z.pow_pos_nonneg 2 (Z.of_nat N)).
  pose proof (Z.pow_le_mono_r 2 (Z.of_nat N) 8). lia.
Qed.

Lemma AppendUint32_written s bs N I :
  written s bs → Z.of_nat N = 8 - bit_offset_ s → 0 <= I <= u32_max →
  ∃ s', AppendUint32 I s = Done s' ∧ written s' (bs ++ varint_bits N I) ∧ bit_offset_ s' = 0.
Proof.
  intros Hw HN HI. destruct Hw as (Hb & Ho & Hk).
  pose proof (Nat.mod_upper_bound (length bs) 8 ltac:(lia)).
  assert (written s bs) as Hw by done. clear Hb Hk.
  unfold AppendUint32, varint_bits. cbv zeta. rewrite <- HN.
  rewrite max_first_byte_eq by lia.
  assert (2 ^ Z.of_nat N <= 256) by (pose proof (Z.pow_le_mono_r 2 (Z.of_nat N) 8); lia).
  assert (2 <= 2 ^ Z.of_nat N) by (pose proof (Z.pow_le_mono_r 2 1 (Z.of_nat N)); lia).
  assert (∀ l s', written s' (bs ++ z_bits N l) → bit_offset_ s' = 0) as Hend.
  { intros l s' (_ & -> & _). rewrite length_app, z_bits_length.
    rewrite <- Nat.Div0.add_mod_idemp_l. replace (length bs mod 8 + N)%nat with 8%nat by lia. done. }
  destruct (Z.ltb_spec I (2 ^ Z.of_nat N - 1)).
  - rewrite u8_small by lia. destruct (AppendBits_written s bs I N Hw) as (s' & -> & Hs'); [lia..|].
    exists s'. eauto.
  - destruct (AppendBits_written s bs (2 ^ Z.of_nat N - 1) N Hw) as (s1 & -> & Hs1); [lia..|].
    step_done. unfold u32_max in *.
    destruct (append_groups_written 6 (I - (2 ^ Z.of_nat N - 1)) s1 _ Hs1 (Hend _ _ Hs1))
      as (I' & s2 & -> & HI' & Hz & groups & Eg & Hs2); [unfold u32_max; lia|lia|lia|].
    step_done. rewrite u8_small by lia.
    destruct (AppendBits_written s2 _ I' 8 Hs2) as (s3 & E3 & Hs3); [lia..|].
    change 8 with (Z.of_nat 8). exists s3. rewrite Eg, bytes_bits_app, bytes_bits_single, !app_assoc.
    split; [done|]. split; [done|].
    destruct Hs3 as (_ & -> & _). destruct Hs2 as (_ & E0 & _).
    rewrite length_app, z_bits_length, <- Nat.Div0.add_mod_idemp_l.
    replace (length _ mod 8)%nat with 0%nat by lia. done.
Qed.
