(* ===== verification/HpackInputStream.v ===== *)
(** * net/spdy/hpack/hpack_input_stream.{h,cc}: reading bits, integers and strings

    Without DecodeNextHuffmanString, which is in HpackHuffmanTable.v. *)

From S2P Require Import Prelude Bits HpackConstants HpackOutputStream.

Record HpackInputStream : Type := mkHpackInputStream {
  max_string_literal_size_ : Z;
  buffer_ : list Z;
  bit_offset_ : Z
}.
#[export] Instance eta_HpackInputStream : Eta HpackInputStream := λ s,
  mkHpackInputStream (max_string_literal_size_ s) (buffer_ s) (bit_offset_ s).

Definition new_HpackInputStream (max_string_literal_size : Z) (buffer : list Z) : HpackInputStream :=
  {| max_string_literal_size_ := max_string_literal_size; buffer_ := buffer; bit_offset_ := 0 |}.

Definition HasMoreData (s : HpackInputStream) : bool := negb (bool_decide (buffer_ s = [])).

Definition remove_prefix (n : Z) (s : HpackInputStream) : HpackInputStream :=
  s <| buffer_ := drop (Z.to_nat n) (buffer_ s) |>.

(** The results are the return value, [*peeked_count] and [*out].  The byte is a [char],
    whose sign is extended. *)
Definition PeekBits (peeked_count out : Z) (s : HpackInputStream) : outcome (bool * Z * Z) :=
  let byte_offset := (bit_offset_ s + peeked_count) / 8 in
  let bit_offset := (bit_offset_ s + peeked_count) mod 8 in
  match buffer_ s !! Z.to_nat byte_offset with
  | Some b =>
      if 32 <=? peeked_count then Done (false, peeked_count, out)
      else
        let bits_to_read := Z.min (32 - peeked_count) (8 - bit_offset) in
        let new_bits := u32 (signed_char b) in
        let new_bits := u32 (Z.shiftl new_bits (24 + bit_offset)) in
        let new_bits := Z.shiftr new_bits peeked_count in
        DCHECK (Z.land out new_bits =? 0) ;;
        Done (true, peeked_count + bits_to_read, Z.lor out new_bits)
  | None => Done (false, peeked_count, out)
  end.

Definition ConsumeBits (bit_count : Z) (s : HpackInputStream) : outcome HpackInputStream :=
  let byte_count := (bit_offset_ s + bit_count) / 8 in
  let s := s <| bit_offset_ := (bit_offset_ s + bit_count) mod 8 |> in
  let size := Z.of_nat (length (buffer_ s)) in
  DCHECK (byte_count <=? size) ;;
  (if bit_offset_ s =? 0 then Done tt else DCHECK (0 <? size)) ;;
  Done (remove_prefix byte_count s).

Definition ConsumeByteRemainder (s : HpackInputStream) : outcome HpackInputStream :=
  if bit_offset_ s =? 0 then Done s else ConsumeBits (8 - bit_offset_ s) s.

Definition MatchPrefixAndConsume (prefix : HpackPrefix) (s : HpackInputStream) :
    outcome (bool * HpackInputStream) :=
  DCHECK (0 <? prefix_bit_size prefix) ;;
  DCHECK (prefix_bit_size prefix <=? 8) ;;
  '(ok, _, peeked) ← PeekBits 0 0 s;
  if negb ok then Done (false, s)
  else if Z.shiftr peeked (32 - prefix_bit_size prefix) =? prefix_bits prefix then
    s ← ConsumeBits (prefix_bit_size prefix) s; Done (true, s)
  else Done (false, s).

(** [None] stands for [false]. *)
Definition PeekNextOctet (s : HpackInputStream) : option Z :=
  if 0 <? bit_offset_ s then None else head (buffer_ s).

Definition DecodeNextOctet (s : HpackInputStream) : option (Z * HpackInputStream) :=
  next_octet ← PeekNextOctet s;
  Some (next_octet, remove_prefix 1 s).

(** The loop of [DecodeNextUint32], which runs at most five times.  The results are
    whether it got to its end, [has_more] and [*I]. *)
Fixpoint decode_groups (fuel : nat) (has_more : bool) (shift I : Z) (s : HpackInputStream) :
    outcome (bool * bool * Z * HpackInputStream) :=
  match fuel with
  | O => DcheckFailed
  | S fuel =>
      if negb (has_more && (shift <? 32)) then Done (true, has_more, I, s)
      else
        match DecodeNextOctet s with
        | None => Done (false, has_more, I, s)
        | Some (next_octet, s) =>
            let has_more := negb (Z.land next_octet 128 =? 0) in
            let next_octet := Z.land next_octet 127 in
            let addend := u32 (Z.shiftl next_octet shift) in
            if negb (Z.shiftr addend shift =? next_octet) then Done (false, has_more, I, s)
            else decode_groups fuel has_more (shift + 7) (u32 (I + addend)) s
        end
  end.

Definition DecodeNextUint32 (s : HpackInputStream) : outcome (bool * Z * HpackInputStream) :=
  let N := 8 - bit_offset_ s in
  DCHECK (0 <? N) ;;
  DCHECK (N <=? 8) ;;
  let s := s <| bit_offset_ := 0 |> in
  let next_marker := u8 (Z.shiftl 1 N - 1) in
  match DecodeNextOctet s with
  | None => Done (false, 0, s)
  | Some (next_octet, s) =>
      let I := Z.land next_octet next_marker in
      '(ok, has_more, I, s) ← decode_groups 6 (I =? next_marker) 0 I s;
      Done (ok && negb has_more, I, s)
  end.

(** [None] stands for [false]. *)
Definition DecodeNextIdentityString (s : HpackInputStream) :
    outcome (option (list Z) * HpackInputStream) :=
  '(ok, size, s) ← DecodeNextUint32 s;
  if negb ok then Done (None, s)
  else if max_string_literal_size_ s <? size then Done (None, s)
  else if Z.of_nat (length (buffer_ s)) <? size then Done (None, s)
  else Done (Some (take (Z.to_nat size) (buffer_ s)), remove_prefix size s).

(** ** What is left to read *)

Definition good (s : HpackInputStream) : Prop :=
  Forall byte_ok (buffer_ s) ∧ 0 <= bit_offset_ s < 8 ∧ (bit_offset_ s ≠ 0 → buffer_ s ≠ []).

Definition unread (s : HpackInputStream) : list bool :=
  drop (Z.to_nat (bit_offset_ s)) (bytes_bits (buffer_ s)).

Lemma new_good max buffer : Forall byte_ok buffer → good (new_HpackInputStream max buffer).
Proof. intros. split_and!; cbn; [done|lia|lia|done]. Qed.

Lemma unread_new max buffer : unread (new_HpackInputStream max buffer) = bytes_bits buffer.
Proof. done. Qed.

Lemma unread_bits_length s :
  good s → Z.of_nat (length (unread s)) = 8 * Z.of_nat (length (buffer_ s)) - bit_offset_ s.
Proof.
  intros (_ & Ho & Hn). unfold unread. rewrite length_drop, bytes_bits_length.
  destruct (buffer_ s); cbn [length] in *; [|lia].
  destruct (decide (bit_offset_ s = 0)); [lia|]. by destruct (Hn ltac:(done)).
Qed.

Lemma HasMoreData_unread s : good s → HasMoreData s = negb (bool_decide (unread s = [])).
Proof.
  intros Hs. pose proof (unread_bits_length s Hs) as E. unfold HasMoreData. f_equal.
  apply bool_decide_ext. split; intros Hn.
  - unfold unread. rewrite Hn. apply drop_nil.
  - rewrite Hn in E. destruct (buffer_ s); [done|]. cbn [length] in E. destruct Hs as (_ & ? & _). lia.
Qed.

(** ** Peeking *)

(** The bits of one byte of the buffer, from bit [o] on, where they stand behind [pc] peeked
    bits. *)
Lemma new_bits_spec b o pc :
  (o < 8)%nat → (pc < 32)%nat →
  z_bits 32 (Z.shiftr (u32 (Z.shiftl (u32 (signed_char b)) (24 + Z.of_nat o))) (Z.of_nat pc))
  = replicate pc false ++ take (32 - pc) (drop o (z_bits 8 b) ++ replicate 32 false).
Proof.
  intros Ho Hpc. rewrite z_bits_shiftr; [|lia|].
  2:{ pose proof (u32_range (Z.shiftl (u32 (signed_char b)) (24 + Z.of_nat o))). solve_u32. }
  f_equal. rewrite z_bits_u32. replace (24 + Z.of_nat o) with (Z.of_nat (24 + o)) by lia.
  replace 32%nat with ((8 - o) + (24 + o))%nat at 2 by lia. rewrite z_bits_shifted.
  rewrite <- z_bits_mod. unfold u32. rewrite Z.mod_mod_divide.
  2:{ exists (2 ^ Z.of_nat (24 + o)). rewrite <- Z.pow_add_r by lia.
      by replace (Z.of_nat (24 + o) + Z.of_nat (8 - o)) with 32 by lia. }
  rewrite z_bits_mod, z_bits_signed_char, z_bits_drop by lia.
  rewrite !take_app. f_equal. rewrite !take_replicate, z_bits_length. f_equal. lia.
Qed.

Lemma unread_at s pc b :
  good s → 0 <= pc → buffer_ s !! Z.to_nat ((bit_offset_ s + pc) / 8) = Some b →
  ∃ rest, drop (Z.to_nat pc) (unread s)
    = drop (Z.to_nat ((bit_offset_ s + pc) mod 8)) (z_bits 8 b) ++ rest.
Proof.
  intros (_ & Ho & _) Hpc Hb. exists (bytes_bits (drop (S (Z.to_nat ((bit_offset_ s + pc) / 8))) (buffer_ s))).
  pose proof (Z.div_mod (bit_offset_ s + pc) 8 ltac:(lia)) as Hd.
  pose proof (Z.mod_pos_bound (bit_offset_ s + pc) 8 ltac:(lia)) as Hm.
  pose proof (Z.div_pos (bit_offset_ s + pc) 8 ltac:(lia) ltac:(lia)) as Hq.
  set (q := Z.to_nat ((bit_offset_ s + pc) / 8)) in *. set (r := Z.to_nat ((bit_offset_ s + pc) mod 8)).
  unfold unread. rewrite drop_drop.
  replace (Z.to_nat (bit_offset_ s) + Z.to_nat pc)%nat with (8 * q + r)%nat by lia.
  rewrite <- drop_drop, <- bytes_bits_drop, (drop_S _ _ _ Hb), bytes_bits_cons.
  apply drop_app_le. rewrite z_bits_length. lia.
Qed.

Lemma take_app_take {A} k n (l z : list A) :
  n = (k `min` length l)%nat → take k (take n l ++ z) = take k (l ++ z).
Proof.
  intros ->. destruct (Nat.le_ge_cases k (length l)).
  - rewrite Nat.min_l, !take_app_le, take_take, Nat.min_id by (rewrite ?length_take; lia). done.
  - by rewrite Nat.min_r, (take_ge l) by lia.
Qed.

Lemma PeekBits_spec s pc :
  good s → 0 <= pc <= 32 → pc <= Z.of_nat (length (unread s)) →
  let out := window (take (Z.to_nat pc) (unread s)) in
  (pc = 32 ∨ pc = Z.of_nat (length (unread s))) ∧ PeekBits pc out s = Done (false, pc, out) ∨
  ∃ n, 0 < n ∧ pc + n <= 32 ∧ pc + n <= Z.of_nat (length (unread s)) ∧
    n = Z.min (32 - pc) (8 - (bit_offset_ s + pc) mod 8) ∧
    PeekBits pc out s = Done (true, pc + n, window (take (Z.to_nat (pc + n)) (unread s))).
Proof.
  intros Hs Hpc Hlen out. pose proof (unread_bits_length s Hs) as Hl.
  pose proof (Z.div_mod (bit_offset_ s + pc) 8 ltac:(lia)) as Hd.
  pose proof (Z.mod_pos_bound (bit_offset_ s + pc) 8 ltac:(lia)) as Hm.
  destruct Hs as (Hb & Ho & Hn). assert (good s) as Hs by done.
  unfold PeekBits. destruct (buffer_ s !! _) as [b|] eqn:Eb.
  2:{ left. split; [|done]. right. apply lookup_ge_None in Eb. lia. }
  destruct (Z.leb_spec 32 pc); [left; split; [lia|done]|]. right.
  set (n := Z.min (32 - pc) (8 - (bit_offset_ s + pc) mod 8)). exists n.
  assert (Hlt := lookup_lt_Some _ _ _ Eb). 
  assert (0 <= (bit_offset_ s + pc) / 8) by (apply Z.div_pos; lia).
  split_and!; [lia|lia|lia|done|].
  destruct (unread_at s pc b Hs ltac:(lia) Eb) as (rest & Er).
  pose proof (new_bits_spec b (Z.to_nat ((bit_offset_ s + pc) mod 8)) (Z.to_nat pc) ltac:(lia) ltac:(lia)) as En.
  rewrite !Z2Nat.id in En by lia. cbv zeta. set (w := Z.shiftr _ pc) in *.
  assert (z_bits 32 out = take (Z.to_nat pc) (unread s) ++ replicate (32 - Z.to_nat pc) false) as Eo.
  { unfold out. rewrite window_bits, take_app_ge by (rewrite length_take; lia). f_equal.
    rewrite take_replicate, length_take. f_equal. lia. }
  assert (0 <= w < 2 ^ 32) as Hw.
  { unfold w. pose proof (u32_range (Z.shiftl (u32 (signed_char b)) (24 + (bit_offset_ s + pc) mod 8))).
    rewrite Z.shiftr_div_pow2 by lia. split; [apply Z.div_pos; solve_u32|].
    apply Z.div_lt_upper_bound; [lia|]. assert (1 <= 2 ^ pc) by (apply (Z.pow_le_mono_r 2 0); lia).
    unfold is_u32, u32_max in *. nia. }
  pose proof (window_range (take (Z.to_nat pc) (unread s))) as Hout. fold out in Hout.
  set (B := take _ (_ ++ _)) in En.
  assert (length (take (Z.to_nat pc) (unread s)) = Z.to_nat pc) as EA by (rewrite length_take; lia).
  assert (length B = 32 - Z.to_nat pc)%nat as EB
    by (unfold B; rewrite length_take, length_app, length_replicate; lia).
  destruct (disjoint_parts out w (take (Z.to_nat pc) (unread s)) B) as [E0 Elor];
    [done|done|lia|by rewrite EB|by rewrite EA|].
  rewrite E0. pass_DCHECK ltac:(done). do 2 f_equal.
  apply window_unique; [by apply (lor_range 32)|]. rewrite Elor.
  assert (take (Z.to_nat (pc + n)) (unread s)
    = take (Z.to_nat pc) (unread s) ++ take (Z.to_nat n) (drop (Z.to_nat ((bit_offset_ s + pc) mod 8)) (z_bits 8 b))) as ->.
  { rewrite Z2Nat.inj_add, <- take_take_drop, Er by lia. f_equal. apply take_app_le.
    rewrite length_drop, z_bits_length. lia. }
  rewrite <- app_assoc, take_app, EA, (take_ge (take (Z.to_nat pc) _)) by lia. f_equal.
  symmetry. apply take_app_take. rewrite length_drop, z_bits_length. lia.
Qed.

(** ** Consuming *)

Lemma ConsumeBits_spec s n :
  good s → 0 <= n <= Z.of_nat (length (unread s)) →
  ∃ s', ConsumeBits n s = Done s' ∧ good s' ∧ unread s' = drop (Z.to_nat n) (unread s) ∧
    max_string_literal_size_ s' = max_string_literal_size_ s ∧
    bit_offset_ s' = (bit_offset_ s + n) mod 8.
Proof.
  intros Hs Hn. pose proof (unread_bits_length s Hs) as Hl. destruct Hs as (Hb & Ho & Hne).
  pose proof (Z.div_mod (bit_offset_ s + n) 8 ltac:(lia)) as Hd.
  pose proof (Z.mod_pos_bound (bit_offset_ s + n) 8 ltac:(lia)) as Hm.
  assert (0 <= (bit_offset_ s + n) / 8) by (apply Z.div_pos; lia).
  unfold ConsumeBits. cbv zeta. cbn [bit_offset_ buffer_ set_field].
  pass_DCHECK ltac:(apply Z.leb_le; lia).
  set (s' := remove_prefix _ _). exists s'. split.
  - case_match; step_done; [done|]. by pass_DCHECK ltac:(apply Z.ltb_lt; lia).
  - unfold s', remove_prefix, good, unread. cbn [bit_offset_ buffer_ set_field max_string_literal_size_].
    split_and!; [by apply Forall_drop|lia|lia| | |done|done].
    + intros Hnz E. apply (f_equal length) in E. rewrite length_drop in E. cbn [length] in E. lia.
    + rewrite bytes_bits_drop, !drop_drop. f_equal. lia.
Qed.

Lemma ConsumeByteRemainder_spec s :
  good s → ∃ s', ConsumeByteRemainder s = Done s' ∧ good s' ∧
    unread s' = drop (Z.to_nat ((- bit_offset_ s) mod 8)) (unread s).
Proof.
  intros Hs. pose proof (unread_bits_length s Hs) as Hl. unfold ConsumeByteRemainder.
  destruct (Z.eqb_spec (bit_offset_ s) 0) as [->|Hne].
  - exists s. done.
  - assert (Hs' := Hs). destruct Hs' as (_ & Ho & Hnil).
    assert (0 < length (buffer_ s))%nat by (destruct (buffer_ s); [by destruct Hnil|cbn; lia]).
    destruct (ConsumeBits_spec s (8 - bit_offset_ s) Hs ltac:(lia)) as (s' & E & Hg & Hu & _).
    exists s'. split_and!; [done|done|]. rewrite Hu. do 2 f_equal.
    apply (Z.mod_unique _ _ (-1)); lia.
Qed.

Lemma window_nil : window [] = 0.
Proof. apply (bits_value_replicate 32). Qed.

(** [PeekBits] at the start gives the rest of the current byte. *)
Lemma first_peek s :
  good s →
  unread s = [] ∧ PeekBits 0 0 s = Done (false, 0, 0) ∨
  unread s ≠ [] ∧ 8 - bit_offset_ s <= Z.of_nat (length (unread s)) ∧
    PeekBits 0 0 s
    = Done (true, 8 - bit_offset_ s, window (take (Z.to_nat (8 - bit_offset_ s)) (unread s))).
Proof.
  intros Hs. assert (Hs' := Hs). destruct Hs' as (_ & Ho & _).
  pose proof (PeekBits_spec s 0 Hs ltac:(lia) ltac:(lia)) as H. cbv zeta in H.
  change (take (Z.to_nat 0) (unread s)) with (@nil bool) in H. rewrite window_nil in H. destruct H as [[[H|H] E]|(n & Hn & H32 & Hle & En & E)].
  - lia.
  - left. split; [|done]. by apply nil_length_inv, Nat2Z.inj.
  - right. rewrite Z.add_0_r, Z.mod_small in En by lia. rewrite Z.add_0_l in *.
    assert (n = 8 - bit_offset_ s) as <- by lia. split_and!; [|lia|done].
    intros E0. rewrite E0 in Hle. cbn [length] in Hle. lia.
Qed.

(** The [n] bits at the top of a word. *)
Lemma window_top bs n :
  (n <= 32)%nat → (n <= length bs)%nat →
  Z.shiftr (window bs) (32 - Z.of_nat n) = bits_value (take n bs).
Proof.
  intros Hn Hl. pose proof (window_range bs).
  apply (z_bits_inj 32).
  - rewrite Z.shiftr_div_pow2 by lia. split; [apply Z.div_pos; lia|].
    apply Z.div_lt_upper_bound; [lia|]. assert (1 <= 2 ^ (32 - Z.of_nat n)) by (apply (Z.pow_le_mono_r 2 0); lia).
    change (2 ^ Z.of_nat 32) with (2 ^ 32) in *. nia.
  - pose proof (bits_value_range (take n bs)) as Hr. rewrite length_take in Hr.
    assert (2 ^ Z.of_nat (n `min` length bs) <= 2 ^ Z.of_nat 32) by (apply Z.pow_le_mono_r; lia). lia.
  - replace (32 - Z.of_nat n) with (Z.of_nat (32 - n)) by lia. rewrite z_bits_shiftr, window_bits by lia.
    replace (z_bits 32 (bits_value _)) with (z_bits ((32 - n) + n) (bits_value (take n bs)))
      by (f_equal; lia).
    rewrite z_bits_high.
    2:{ pose proof (bits_value_range (take n bs)) as Hr. by rewrite length_take, Nat.min_l in Hr by lia. }
    f_equal. rewrite take_take, take_app_le by lia. replace ((32 - (32 - n)) `min` 32)%nat with n by lia.
    pose proof (z_bits_value (take n bs)) as E. rewrite length_take, Nat.min_l in E by lia. done.
Qed.

(** A prefix that does not reach into the next byte is matched as bits. *)
Definition prefix_of (prefix : HpackPrefix) : list bool :=
  z_bits (Z.to_nat (prefix_bit_size prefix)) (prefix_bits prefix).

Lemma MatchPrefixAndConsume_spec s prefix :
  good s → 0 < prefix_bit_size prefix <= 8 - bit_offset_ s →
  0 <= prefix_bits prefix < 2 ^ prefix_bit_size prefix →
  (∃ s' rest, MatchPrefixAndConsume prefix s = Done (true, s') ∧ good s' ∧
     unread s = prefix_of prefix ++ rest ∧ unread s' = rest ∧
     max_string_literal_size_ s' = max_string_literal_size_ s ∧
     bit_offset_ s' = (bit_offset_ s + prefix_bit_size prefix) mod 8) ∨
  (MatchPrefixAndConsume prefix s = Done (false, s) ∧
   ∀ rest, unread s ≠ prefix_of prefix ++ rest).
Proof.
  intros Hs Hn Hv. assert (Hs' := Hs). destruct Hs' as (_ & Ho & _).
  set (n := Z.to_nat (prefix_bit_size prefix)).
  assert (length (prefix_of prefix) = n) as Lp by apply z_bits_length.
  unfold MatchPrefixAndConsume.
  rewrite (proj2 (Z.ltb_lt 0 _)), (proj2 (Z.leb_le _ 8)) by lia. rewrite !DCHECK_true_bind.
  destruct (first_peek s Hs) as [[Hu ->]|(Hu & Hlen & ->)]; step_done; cbn [negb].
  { right. split; [done|]. intros rest E. rewrite Hu in E. symmetry in E.
    apply app_nil in E as [E _]. rewrite E in Lp. cbn in Lp. lia. }
  replace (32 - prefix_bit_size prefix) with (32 - Z.of_nat n) by lia.
  rewrite window_top, take_take, Nat.min_l by (rewrite ?length_take; lia).
  destruct (Z.eqb_spec (bits_value (take n (unread s))) (prefix_bits prefix)) as [E|E].
  - left. destruct (ConsumeBits_spec s (prefix_bit_size prefix) Hs ltac:(lia)) as (s' & Ec & Hg & Hu' & Hm & Hoff).
    rewrite Ec. step_done. exists s', (drop n (unread s)). split_and!; try done.
    rewrite <- (take_drop n (unread s)) at 1. f_equal.
    unfold prefix_of. fold n. rewrite <- E.
    pose proof (z_bits_value (take n (unread s))) as F. rewrite length_take, Nat.min_l in F by lia. done.
  - right. split; [done|]. intros rest Er. apply E. rewrite Er, take_app_length' by done.
    unfold prefix_of. apply bits_value_small. unfold n. by rewrite Z2Nat.id by lia.
Qed.

(** ** Integers *)

Lemma octet_parts a : 0 <= a < 128 →
  (Z.land a 128 = 0 ∧ Z.land a 127 = a) ∧ (Z.land (a + 128) 128 = 128 ∧ Z.land (a + 128) 127 = a).
Proof.
  intros Ha. change 127 with (Z.ones 7). rewrite !Z.land_ones by lia.
  assert (Z.land a 128 = 0) as E0.
  { apply (z_bits_inj 8); [apply (land_range 8); cbn; lia|cbn; lia|].
    rewrite z_bits_land. change 8%nat with (1 + 7)%nat. rewrite (z_bits_high 1 7) by (cbn; lia).
    cbn -[Z.testbit]. by rewrite !andb_false_r. }
  assert (a + 128 = Z.lor a 128) as Elor.
  { change 128 with (Z.shiftl 1 7) at 2. by rewrite lor_shiftl_add by lia. }
  split_and!; [done|by apply Z.mod_small| |].
  - by rewrite Elor, Z.land_lor_distr_l, E0.
  - change (a + 128) with (a + 1 * 2 ^ 7). rewrite Z.mod_add by lia. by apply Z.mod_small.
Qed.

Lemma varint_groups_fuel k d I :
  (0 < k)%nat → 0 <= I < 2 ^ (7 * Z.of_nat k) → varint_groups (k + d) I = varint_groups k I.
Proof.
  revert I. induction k as [|k IH]; intros I Hk HI; [lia|]. cbn [varint_groups Nat.add].
  destruct (Z.ltb_spec I 128); [done|]. f_equal. destruct k; [cbn in HI; lia|].
  apply IH; [lia|]. split; [apply Z.div_pos; lia|]. apply Z.div_lt_upper_bound; [lia|].
  change 128 with (2 ^ 7). rewrite <- Z.pow_add_r by lia.
  replace (7 + 7 * Z.of_nat (S k)) with (7 * Z.of_nat (S (S k))) by lia. lia.
Qed.

(** The groups that [AppendUint32] writes. *)
Lemma decode_groups_varint k fuel j J I s buf :
  (0 < k < fuel)%nat → 0 <= j < 32 → 0 <= J < 2 ^ (7 * Z.of_nat k) → 0 <= I →
  I + J * 2 ^ j <= u32_max → bit_offset_ s = 0 → buffer_ s = varint_groups k J ++ buf →
  decode_groups fuel true j I s = Done (true, false, I + J * 2 ^ j, s <| buffer_ := buf |>).
Proof.
  revert fuel j J I s. induction k as [|k IH]; intros fuel j J I s Hk Hj HJ HI Hmax H0 Eb; [lia|].
  destruct fuel as [|fuel]; [lia|]. cbn [varint_groups] in Eb.
  assert (0 < 2 ^ j) as Hp by lia.
  assert (∀ a, 0 <= a <= J → u32 (Z.shiftl a j) = a * 2 ^ j ∧ Z.shiftr (a * 2 ^ j) j = a) as Hadd.
  { intros a Ha. rewrite Z.shiftl_mul_pow2 by lia. split; [apply u32_small; unfold is_u32; nia|].
    rewrite Z.shiftr_div_pow2, Z.div_mul; lia. }
  cbn [decode_groups andb]. rewrite (proj2 (Z.ltb_lt j 32)) by lia. cbn [negb].
  unfold DecodeNextOctet, PeekNextOctet. rewrite H0. cbn [Z.ltb Z.compare].
  destruct (Z.ltb_spec J 128) as [H|H].
  - rewrite Eb. cbn [head mbind option_bind app hd_error].
    destruct (octet_parts J ltac:(lia)) as [[-> ->] _]. destruct (Hadd J ltac:(lia)) as [-> ->].
    rewrite Z.eqb_refl. cbn [negb Z.eqb]. destruct fuel as [|fuel]; [lia|].
    cbn [decode_groups andb negb]. rewrite u32_small by (unfold is_u32; nia).
    do 3 f_equal. unfold remove_prefix. cbn [set_field buffer_]. by rewrite Eb.
  - rewrite Eb. cbn [head mbind option_bind app hd_error].
    pose proof (Z.mod_pos_bound J 128 ltac:(lia)) as Hm. pose proof (Z.div_mod J 128 ltac:(lia)) as Hd.
    pose proof (Z.div_pos J 128 ltac:(lia) ltac:(lia)).
    destruct (octet_parts (J mod 128) ltac:(lia)) as [_ [-> ->]].
    destruct (Hadd (J mod 128) ltac:(lia)) as [-> ->]. rewrite Z.eqb_refl. cbn [negb Z.eqb].
    rewrite u32_small by (unfold is_u32; nia).
    assert (2 ^ (j + 7) = 2 ^ j * 128) as Ep by (rewrite Z.pow_add_r by lia; done).
    assert (1 <= J / 128) by (apply Z.div_le_lower_bound; lia).
    assert (j + 7 < 32).
    { destruct (Z.lt_ge_cases (j + 7) 32); [done|]. exfalso.
      pose proof (Z.pow_le_mono_r 2 32 (j + 7)). unfold u32_max in *. nia. }
    rewrite (IH fuel (j + 7) (J / 128)); [| |lia| |nia|nia|done|unfold remove_prefix; cbn [set_field buffer_]; by rewrite Eb].
    + do 3 f_equal. nia.
    + destruct k; [|lia]. cbn in HJ. lia.
    + split; [lia|]. apply Z.div_lt_upper_bound; [lia|]. change 128 with (2 ^ 7).
      rewrite <- Z.pow_add_r by lia. replace (7 + 7 * Z.of_nat k) with (7 * Z.of_nat (S k)) by lia. lia.
Qed.

Lemma varint_groups_bytes fuel I : 0 <= I → Forall byte_ok (varint_groups fuel I).
Proof.
  revert I. induction fuel as [|fuel IH]; intros I HI; cbn; [constructor|].
  destruct (Z.ltb_spec I 128); constructor; [unfold byte_ok; lia|constructor|by apply varint_group_byte|].
  apply IH. apply Z.div_pos; lia.
Qed.

(** The first byte: what [unread] says of its low bits. *)
Lemma unread_first s :
  good s → unread s ≠ [] →
  ∃ b buf, buffer_ s = b :: buf ∧ byte_ok b ∧ Forall byte_ok buf ∧
    unread s = z_bits (Z.to_nat (8 - bit_offset_ s)) b ++ bytes_bits buf.
Proof.
  intros (Hb & Ho & Hn) Hu. unfold unread in *. destruct (buffer_ s) as [|b buf].
  - change (bytes_bits []) with (@nil bool) in Hu. by rewrite drop_nil in Hu.
  - inversion Hb as [|? ? Hb1 Hb2]. exists b, buf. split_and!; [done..|].
    rewrite bytes_bits_cons, drop_app_le, z_bits_drop by (rewrite ?z_bits_length; lia).
    do 2 f_equal. lia.
Qed.

(** After reading whole bytes. *)
Lemma after_bytes s l buf :
  buffer_ s = l ++ buf → Forall byte_ok buf →
  let s' := remove_prefix (Z.of_nat (length l)) (s <| bit_offset_ := 0 |>) in
  good s' ∧ unread s' = bytes_bits buf ∧ bit_offset_ s' = 0 ∧
  max_string_literal_size_ s' = max_string_literal_size_ s.
Proof.
  intros E Hb. unfold good, unread. cbn [remove_prefix buffer_ bit_offset_ set_field max_string_literal_size_].
  rewrite E, Nat2Z.id, drop_app_length. split_and!; [done|lia|lia|done..].
Qed.

Lemma DecodeNextUint32_varint s N I rest :
  good s → Z.of_nat N = 8 - bit_offset_ s → 0 <= I <= u32_max →
  unread s = varint_bits N I ++ rest →
  ∃ s', DecodeNextUint32 s = Done (true, I, s') ∧ good s' ∧ unread s' = rest ∧
    bit_offset_ s' = 0 ∧ max_string_literal_size_ s' = max_string_literal_size_ s.
Proof.
  intros Hs HN HI Hu. assert (Hs' := Hs). destruct Hs' as (_ & Ho & _).
  set (m := 2 ^ Z.of_nat N - 1).
  assert (2 <= 2 ^ Z.of_nat N) by (pose proof (Z.pow_le_mono_r 2 1 (Z.of_nat N)); lia).
  assert (unread s = z_bits N (Z.min I m) ++ drop N (varint_bits N I) ++ rest) as Hu'.
  { rewrite Hu, app_assoc. f_equal. unfold varint_bits. fold m. destruct (Z.ltb_spec I m).
    - rewrite Z.min_l, drop_ge, app_nil_r by (rewrite ?z_bits_length; lia). done.
    - rewrite Z.min_r, drop_app_length' by (rewrite ?z_bits_length; lia). done. }
  destruct (unread_first s Hs) as (b & buf & Eb & Hb & Hbuf & E).
  { rewrite Hu'. intros Hnil. apply app_nil in Hnil as [Hnil _].
    apply (f_equal length) in Hnil. rewrite z_bits_length in Hnil. cbn in Hnil. lia. }
  rewrite Hu', <- HN, Nat2Z.id in E. apply app_inj_1 in E as [E1 E2]; [|by rewrite !z_bits_length].
  assert (Z.land b m = Z.min I m) as Eland.
  { transitivity (b mod 2 ^ Z.of_nat N); [unfold m; rewrite <- Z_ones_pow2; apply Z.land_ones; lia|].
    rewrite <- (bits_value_z_bits N b), <- E1, bits_value_z_bits. apply Z.mod_small. lia. }
  unfold DecodeNextUint32. rewrite <- HN.
  rewrite (proj2 (Z.ltb_lt 0 _)), (proj2 (Z.leb_le _ 8)) by lia. rewrite !DCHECK_true_bind.
  rewrite max_first_byte_eq by lia. fold m.
  unfold DecodeNextOctet, PeekNextOctet. cbn [bit_offset_ buffer_ set_field Z.ltb Z.compare].
  rewrite Eb. cbn [head mbind option_bind hd_error]. rewrite Eland.
  unfold varint_bits in E2. fold m in E2. destruct (Z.ltb_spec I m) as [H1|H1].
  - rewrite Z.min_l, (proj2 (Z.eqb_neq I m)) by lia. cbn [decode_groups andb negb]. step_done.
    rewrite drop_ge in E2 by (rewrite z_bits_length; lia). cbn [app] in E2.
    eexists. split; [done|]. rewrite E2. by apply (after_bytes s [b] buf).
  - rewrite Z.min_r, Z.eqb_refl by lia.
    rewrite drop_app_length' in E2 by by rewrite z_bits_length.
    destruct (bytes_bits_prefix buf (varint_groups 6 (I - m)) rest) as (buf' & -> & Erest);
      [done|apply varint_groups_bytes; lia|done|].
    rewrite (varint_groups_fuel 5 1) in Eb by (unfold u32_max in *; lia).
    rewrite (decode_groups_varint 5 6 0 (I - m) m _ buf');
      [step_done|lia|lia|unfold u32_max in *; lia|lia|unfold u32_max in *; lia|done|].
    2:{ unfold remove_prefix. cbn [set_field buffer_]. by rewrite Eb. }
    eexists. split; [do 3 f_equal; lia|]. apply Forall_app in Hbuf as [_ Hbuf]. rewrite <- Erest.
    split_and!; [by split_and!; cbn|done..].
Qed.

(** On any bytes the loop ends, with a stream that has read some of them. *)
Definition reads_from (s s' : HpackInputStream) : Prop :=
  good s' ∧ bit_offset_ s' = 0 ∧ max_string_literal_size_ s' = max_string_literal_size_ s ∧
  ∃ n, buffer_ s' = drop n (buffer_ s).

Lemma reads_from_refl s : good s → bit_offset_ s = 0 → reads_from s s.
Proof. intros Hs H0. split_and!; [done..|]. exists 0%nat. by rewrite drop_0. Qed.

Lemma reads_from_trans s1 s2 s3 : reads_from s1 s2 → reads_from s2 s3 → reads_from s1 s3.
Proof.
  intros (_ & _ & Em & n & E) (Hg & H0 & Em' & m & E'). split_and!; [done|done|congruence|].
  exists (n + m)%nat. by rewrite E', E, drop_drop.
Qed.

Lemma reads_prefix s n : good s → bit_offset_ s = 0 → reads_from s (remove_prefix n s).
Proof.
  intros (Hb & Ho & _) H0. unfold reads_from, good, remove_prefix.
  cbn [buffer_ bit_offset_ set_field max_string_literal_size_].
  split_and!; [by apply Forall_drop|lia|lia|done..|]. by eexists.
Qed.

Lemma decode_groups_safe fuel has_more shift I s :
  good s → bit_offset_ s = 0 → is_u32 I → (0 < fuel)%nat → 32 <= shift + 7 * (Z.of_nat fuel - 1) →
  ∃ ok hm I' s', decode_groups fuel has_more shift I s = Done (ok, hm, I', s') ∧
    is_u32 I' ∧ reads_from s s'.
Proof.
  revert has_more shift I s. induction fuel as [|fuel IH]; intros hm shift I s Hs H0 HI Hf Hsh; [lia|].
  cbn [decode_groups]. destruct (hm && (shift <? 32)) eqn:Eg; cbn [negb].
  2:{ do 4 eexists. split_and!; [done|done|]. by apply reads_from_refl. }
  prop_bools. unfold DecodeNextOctet, PeekNextOctet. rewrite H0. cbn [Z.ltb Z.compare].
  destruct (head (buffer_ s)) as [b|]; cbn [mbind option_bind].
  2:{ do 4 eexists. split_and!; [done|done|]. by apply reads_from_refl. }
  pose proof (reads_prefix s 1 Hs H0) as Hr. case_match.
  { do 4 eexists. split_and!; done. }
  destruct (IH (negb (Z.land b 128 =? 0)) (shift + 7) (u32 (I + u32 (Z.shiftl (Z.land b 127) shift)))
              (remove_prefix 1 s)) as (ok & hm' & I' & s' & E & HI' & Hr');
    [apply Hr|apply Hr|apply u32_range|lia|lia|].
  do 4 eexists. split_and!; [done|done|]. by eapply reads_from_trans.
Qed.

Lemma DecodeNextUint32_safe s :
  good s →
  ∃ ok I s', DecodeNextUint32 s = Done (ok, I, s') ∧ is_u32 I ∧ good s' ∧ bit_offset_ s' = 0 ∧
    max_string_literal_size_ s' = max_string_literal_size_ s ∧
    ∃ n, buffer_ s' = drop n (buffer_ s) ∧ (ok = true → (0 < n)%nat ∧ buffer_ s ≠ []).
Proof.
  intros (Hb & Ho & _). unfold DecodeNextUint32.
  rewrite (proj2 (Z.ltb_lt 0 _)), (proj2 (Z.leb_le _ 8)) by lia. rewrite !DCHECK_true_bind.
  set (s0 := s <| bit_offset_ := 0 |>). assert (good s0) as Hs0 by (split_and!; cbn; done || lia).
  unfold DecodeNextOctet, PeekNextOctet. change (bit_offset_ s0) with 0. cbn [Z.ltb Z.compare].
  change (buffer_ s0) with (buffer_ s). destruct (buffer_ s) as [|b buf] eqn:Eb; cbn [head hd_error mbind option_bind].
  - do 3 eexists. split_and!; [done|done|done|done|done|]. exists 0%nat. by rewrite drop_0.
  - pose proof (reads_prefix s0 1 Hs0 ltac:(done)) as Hr.
    set (m := u8 _). assert (is_u32 (Z.land b m)) as Hm.
    { pose proof (land_range 8 b m (u8_byte _)). unfold is_u32, u32_max. cbn in *. lia. }
    destruct (decode_groups_safe 6 (Z.land b m =? m) 0 (Z.land b m) (remove_prefix 1 s0))
      as (ok & hm & I & s' & E & HI & Hr'); [apply Hr|apply Hr|done|lia|lia|].
    rewrite E. step_done. destruct Hr' as (Hg & H0 & Em & n & En). do 3 eexists. split; [done|].
    split_and!; [done..|]. exists (1 + n)%nat. rewrite En. cbn [remove_prefix buffer_ set_field].
    change (buffer_ s0) with (buffer_ s). rewrite Eb, drop_drop. split; [done|]. split; [lia|done].
Qed.

(** ** Strings *)

Lemma DecodeNextIdentityString_safe s :
  good s →
  ∃ r s', DecodeNextIdentityString s = Done (r, s') ∧ good s' ∧ bit_offset_ s' = 0 ∧
    max_string_literal_size_ s' = max_string_literal_size_ s ∧
    (∃ n, buffer_ s' = drop n (buffer_ s)) ∧
    ∀ str, r = Some str → Forall byte_ok str ∧ Z.of_nat (length str) <= max_string_literal_size_ s ∧
      (length (buffer_ s') < length (buffer_ s))%nat.
Proof.
  intros Hs. unfold DecodeNextIdentityString.
  destruct (DecodeNextUint32_safe s Hs) as (ok & I & s1 & -> & HI & Hg & H0 & Em & n & En & Hok).
  step_done. unfold is_u32 in HI.
  destruct ok; cbn [negb]; [|do 2 eexists; split_and!; [done..|by eexists|done]].
  rewrite Em. destruct (Z.ltb_spec (max_string_literal_size_ s) I); [do 2 eexists; split_and!; [done..|by eexists|done]|].
  destruct (Z.ltb_spec (Z.of_nat (length (buffer_ s1))) I); [do 2 eexists; split_and!; [done..|by eexists|done]|].
  destruct (reads_prefix s1 I Hg H0) as (Hg' & H0' & Em' & k & Ek).
  do 2 eexists. split; [done|]. split_and!; [done|done|congruence| |].
  - exists (n + k)%nat. by rewrite Ek, En, drop_drop.
  - intros str [= <-]. destruct Hg as (Hb & _). split_and!; [by apply Forall_take|rewrite length_take; lia|].
    cbn [remove_prefix buffer_ set_field]. rewrite length_drop, En, length_drop.
    destruct (Hok eq_refl) as [? ?]. destruct (buffer_ s); [done|cbn [length]; lia].
Qed.

Lemma DecodeNextIdentityString_bytes s N str rest :
  good s → Z.of_nat N = 8 - bit_offset_ s → Forall byte_ok str →
  Z.of_nat (length str) <= max_string_literal_size_ s → Z.of_nat (length str) <= u32_max →
  unread s = varint_bits N (Z.of_nat (length str)) ++ bytes_bits str ++ rest →
  ∃ s', DecodeNextIdentityString s = Done (Some str, s') ∧ good s' ∧ unread s' = rest ∧
    bit_offset_ s' = 0 ∧ max_string_literal_size_ s' = max_string_literal_size_ s.
Proof.
  intros Hs HN Hstr Hmax Hu Eu. unfold DecodeNextIdentityString.
  destruct (DecodeNextUint32_varint s N _ _ Hs HN (conj (Nat2Z.is_nonneg _) Hu) Eu) as (s1 & -> & Hg & Eu1 & H0 & Em).
  step_done. cbn [negb]. rewrite Em, (proj2 (Z.ltb_ge _ _)) by done.
  assert (Hg' := Hg). destruct Hg' as (Hb & _). unfold unread in Eu1. rewrite H0, drop_0 in Eu1.
  destruct (bytes_bits_prefix _ _ _ Hb Hstr Eu1) as (buf & Eb & <-).
  rewrite Eb, length_app, (proj2 (Z.ltb_ge _ _)) by lia.
  rewrite Nat2Z.id, take_app_length. eexists. split; [done|].
  rewrite Eb in Hb. apply Forall_app in Hb as [_ Hb].
  destruct (after_bytes s1 str buf Eb Hb) as (? & ? & ? & ?).
  assert (s1 <| bit_offset_ := 0 |> = s1) as Es by (destruct s1; cbn in *; by subst).
  rewrite Es in *. split_and!; try done; congruence.
Qed.

(** The sum of the groups is not checked: the largest one wraps it around. *)
Lemma DecodeNextUint32_wraps :
  DecodeNextUint32 (new_HpackInputStream 16384 [255; 255; 255; 255; 255; 15])
  = Done (true, 254, {| max_string_literal_size_ := 16384; buffer_ := []; bit_offset_ := 0 |}).
Proof. vm_compute. reflexivity. Qed.
