(* ===== verification/HpackHuffmanTable.v ===== *)
(** * net/spdy/hpack/hpack_huffman_table.{h,cc}: the Huffman code of HPACK

    The construction of the tables, encoding and decoding, and
    HpackInputStream::DecodeNextHuffmanString, which uses them. *)

From stdpp Require Import sorting.
From S2P Require Import Prelude Bits HpackConstants HpackOutputStream HpackInputStream.

Definition kDecodeTableRootBits : Z := 9.
Definition kDecodeTableBranchBits : Z := 6.

Record DecodeEntry : Type := mkDecodeEntry {
  next_table_index : Z;
  entry_length : Z;
  symbol_id : Z
}.
#[export] Instance eta_DecodeEntry : Eta DecodeEntry := λ e,
  mkDecodeEntry (next_table_index e) (entry_length e) (symbol_id e).
Definition new_DecodeEntry : DecodeEntry := mkDecodeEntry 0 0 0.

Record DecodeTable : Type := mkDecodeTable {
  prefix_length : Z;
  indexed_length : Z;
  entries_offset : Z
}.
Definition table_size (table : DecodeTable) : Z := Z.shiftl 1 (indexed_length table).

Record HpackHuffmanTable : Type := mkHpackHuffmanTable {
  decode_tables_ : list DecodeTable;
  decode_entries_ : list DecodeEntry;
  code_by_id_ : list Z;
  length_by_id_ : list Z;
  pad_bits_ : Z;
  failed_symbol_id_ : Z
}.
#[export] Instance eta_HpackHuffmanTable : Eta HpackHuffmanTable := λ t,
  mkHpackHuffmanTable (decode_tables_ t) (decode_entries_ t) (code_by_id_ t) (length_by_id_ t)
    (pad_bits_ t) (failed_symbol_id_ t).

(** The constructor leaves the last two members uninitialised: they are arguments. *)
Definition new_HpackHuffmanTable (pad_bits failed_symbol_id : Z) : HpackHuffmanTable :=
  {| decode_tables_ := []; decode_entries_ := []; code_by_id_ := []; length_by_id_ := [];
     pad_bits_ := pad_bits; failed_symbol_id_ := failed_symbol_id |}.

Definition IsInitialized (t : HpackHuffmanTable) : bool := negb (bool_decide (code_by_id_ t = [])).

(** An index of a vector; out of range is undefined. *)
Definition at_index {A} (l : list A) (i : Z) : outcome A :=
  match (if 0 <=? i then l !! Z.to_nat i else None) with
  | Some x => Done x
  | None => DcheckFailed
  end.

(** ** The decode tables *)

Definition Entry (table : DecodeTable) (index : Z) (t : HpackHuffmanTable) : outcome DecodeEntry :=
  DCHECK (index <? table_size table) ;;
  DCHECK (entries_offset table + index <? Z.of_nat (length (decode_entries_ t))) ;;
  at_index (decode_entries_ t) (entries_offset table + index).

Definition SetEntry (table : DecodeTable) (index : Z) (entry : DecodeEntry) (t : HpackHuffmanTable) :
    outcome HpackHuffmanTable :=
  DCHECK (index <? table_size table) ;;
  DCHECK (entries_offset table + index <? Z.of_nat (length (decode_entries_ t))) ;;
  Done (t <| decode_entries_ := <[Z.to_nat (entries_offset table + index) := entry]> (decode_entries_ t) |>).

(** The result is the index of the new table. *)
Definition AddDecodeTable (prefix indexed : Z) (t : HpackHuffmanTable) :
    outcome (Z * HpackHuffmanTable) :=
  DCHECK (Z.of_nat (length (decode_tables_ t)) <? 255) ;;
  let table := {| prefix_length := prefix; indexed_length := indexed;
                  entries_offset := Z.of_nat (length (decode_entries_ t)) |} in
  let t := t <| decode_tables_ := decode_tables_ t ++ [table] |>
             <| decode_entries_ := decode_entries_ t ++
                  replicate (Z.to_nat (Z.shiftl 1 indexed)) new_DecodeEntry |> in
  Done (u8 (Z.of_nat (length (decode_tables_ t)) - 1), t).

(** The bits of a word that a table indexes.  A shift by 32 is undefined. *)
Definition index_of (bits : Z) (table : DecodeTable) : outcome Z :=
  DCHECK (prefix_length table <? 32) ;;
  DCHECK (0 <? indexed_length table) ;;
  Done (Z.shiftr (u32 (Z.shiftl bits (prefix_length table))) (32 - indexed_length table)).

(** The [while (true)] of [BuildDecodeTables] for one symbol.  Each round indexes at least
    one more bit of a code of at most 32. *)
Fixpoint place_symbol (fuel : nat) (it : HpackHuffmanSymbol) (table_index : Z)
    (t : HpackHuffmanTable) : outcome HpackHuffmanTable :=
  match fuel with
  | O => DcheckFailed
  | S fuel =>
      table ← at_index (decode_tables_ t) table_index;
      index ← index_of (code it) table;
      DCHECK (index <? table_size table) ;;
      entry ← Entry table index t;
      let total_indexed := u8 (prefix_length table + indexed_length table) in
      if code_length it <=? total_indexed then
        SetEntry table index
          (entry <| entry_length := code_length it |> <| symbol_id := code_id it |>
                 <| next_table_index := table_index |>) t
      else
        '(entry, t) ← (if entry_length entry =? 0 then
            DCHECK (next_table_index entry =? 0) ;;
            let entry := entry <| entry_length := code_length it |> in
            '(next, t) ← AddDecodeTable total_indexed
              (Z.min kDecodeTableBranchBits (u8 (entry_length entry - total_indexed))) t;
            let entry := entry <| next_table_index := next |> in
            t ← SetEntry table index entry t;
            Done (entry, t)
          else Done (entry, t));
        DCHECK (negb (next_table_index entry =? table_index)) ;;
        place_symbol fuel it (next_table_index entry) t
  end.

Fixpoint place_symbols (symbols : list HpackHuffmanSymbol) (t : HpackHuffmanTable) :
    outcome HpackHuffmanTable :=
  match symbols with
  | [] => Done t
  | it :: symbols => t ← place_symbol 33 it 0 t; place_symbols symbols t
  end.

(** The entries [k], ..., [k + count - 1] behind entry [j]. *)
Fixpoint fill_entries (count : nat) (k j : Z) (table : DecodeTable) (entry : DecodeEntry)
    (t : HpackHuffmanTable) : outcome HpackHuffmanTable :=
  match count with
  | O => Done t
  | S count =>
      e ← Entry table (j + k) t;
      DCHECK (entry_length e =? 0) ;;
      t ← SetEntry table (j + k) entry t;
      fill_entries count (k + 1) j table entry t
  end.

(** Each round goes on by at least one entry. *)
Fixpoint fill_table (fuel : nat) (j : Z) (table : DecodeTable) (t : HpackHuffmanTable) :
    outcome HpackHuffmanTable :=
  match fuel with
  | O => DcheckFailed
  | S fuel =>
      if j =? table_size table then Done t
      else
        let total_indexed := u8 (prefix_length table + indexed_length table) in
        entry ← Entry table j t;
        if negb (entry_length entry =? 0) && (entry_length entry <? total_indexed) then
          let fill_count := Z.shiftl 1 (total_indexed - entry_length entry) in
          DCHECK (j + fill_count <=? table_size table) ;;
          t ← fill_entries (Z.to_nat (fill_count - 1)) 1 j table entry t;
          fill_table fuel (j + fill_count) table t
        else fill_table fuel (j + 1) table t
  end.

Fixpoint fill_tables (tables : list DecodeTable) (t : HpackHuffmanTable) : outcome HpackHuffmanTable :=
  match tables with
  | [] => Done t
  | table :: tables =>
      t ← fill_table (S (Z.to_nat (table_size table))) 0 table t;
      fill_tables tables t
  end.

Definition BuildDecodeTables (symbols : list HpackHuffmanSymbol) (t : HpackHuffmanTable) :
    outcome HpackHuffmanTable :=
  '(_, t) ← AddDecodeTable 0 kDecodeTableRootBits t;
  t ← place_symbols (rev symbols) t;
  fill_tables (decode_tables_ t) t.

Fixpoint encode_table (i : Z) (symbols : list HpackHuffmanSymbol) (t : HpackHuffmanTable) :
    outcome HpackHuffmanTable :=
  match symbols with
  | [] => Done t
  | symbol :: symbols =>
      DCHECK (i =? code_id symbol) ;;
      encode_table (i + 1) symbols
        (t <| code_by_id_ := code_by_id_ t ++ [code symbol] |>
           <| length_by_id_ := length_by_id_ t ++ [code_length symbol] |>)
  end.
Definition BuildEncodeTable (symbols : list HpackHuffmanSymbol) (t : HpackHuffmanTable) :
    outcome HpackHuffmanTable := encode_table 0 symbols t.

(** ** Initialize *)

Definition SymbolLengthAndIdCompare (a b : HpackHuffmanSymbol) : bool :=
  if code_length a =? code_length b then code_id a <? code_id b
  else code_length a <? code_length b.
Definition SymbolIdCompare (a b : HpackHuffmanSymbol) : bool := code_id a <? code_id b.

(** [std::sort]: the orders are total on symbols with different ids, so that every correct
    sort has this result. *)
Definition sort_by (less : HpackHuffmanSymbol → HpackHuffmanSymbol → bool) :
    list HpackHuffmanSymbol → list HpackHuffmanSymbol :=
  merge_sort (λ a b, Is_true (negb (less b a))).

(** The first id that is out of sequence. *)
Fixpoint wrong_id (i : Z) (input_symbols : list HpackHuffmanSymbol) : option Z :=
  match input_symbols with
  | [] => None
  | symbol :: rest => if negb (i =? code_id symbol) then Some i else wrong_id (i + 1) rest
  end.

(** The first symbol whose code is not the canonical one. *)
Fixpoint wrong_code (previous : HpackHuffmanSymbol) (symbols : list HpackHuffmanSymbol) :
    outcome (option Z) :=
  match symbols with
  | [] => Done None
  | symbol :: rest =>
      let code_shift := 32 - code_length previous in
      DCHECK ((0 <=? code_shift) && (code_shift <? 32)) ;;
      let next := u32 (code previous + Z.shiftl 1 code_shift) in
      if negb (next =? code symbol) then Done (Some (code_id symbol))
      else if next <? code previous then Done (Some (code_id symbol))
      else wrong_code symbol rest
  end.

Definition Initialize (input_symbols : list HpackHuffmanSymbol) (t : HpackHuffmanTable) :
    outcome (bool * HpackHuffmanTable) :=
  DCHECK (negb (IsInitialized t)) ;;
  DCHECK (Z.of_nat (length input_symbols) <? 65536) ;;
  match wrong_id 0 input_symbols with
  | Some i => Done (false, t <| failed_symbol_id_ := i |>)
  | None =>
      let symbols := sort_by SymbolLengthAndIdCompare input_symbols in
      match symbols, list.last symbols with
      | first :: rest, Some back =>
          if negb (code first =? 0) then Done (false, t <| failed_symbol_id_ := 0 |>)
          else
            wrong ← wrong_code first rest;
            match wrong with
            | Some id => Done (false, t <| failed_symbol_id_ := id |>)
            | None =>
                if code_length back <? 8 then Done (false, t)
                else
                  t ← BuildDecodeTables symbols (t <| pad_bits_ := u8 (Z.shiftr (code back) 24) |>);
                  t ← BuildEncodeTable (sort_by SymbolIdCompare symbols) t;
                  Done (true, t)
            end
      | _, _ => DcheckFailed
      end
  end.

(** The shared table, with whatever values the constructor leaves. *)
Definition ObtainHpackHuffmanTable (pad_bits failed_symbol_id : Z) : outcome HpackHuffmanTable :=
  '(ok, t) ← Initialize HpackHuffmanCode (new_HpackHuffmanTable pad_bits failed_symbol_id);
  DCHECK ok ;;
  DCHECK (IsInitialized t) ;;
  Done t.

(** ** Encoding *)

(** One symbol, the low [length] bits of [code], by bytes. *)
Definition append_code (code length : Z) (out : HpackOutputStream) : outcome HpackOutputStream :=
  '(length, out) ← (if 24 <? length then
      out ← AppendBits (u8 (Z.shiftr code 24)) (length - 24) out; Done (24, out)
    else Done (length, out));
  '(length, out) ← (if 16 <? length then
      out ← AppendBits (u8 (Z.shiftr code 16)) (length - 16) out; Done (16, out)
    else Done (length, out));
  '(length, out) ← (if 8 <? length then
      out ← AppendBits (u8 (Z.shiftr code 8)) (length - 8) out; Done (8, out)
    else Done (length, out));
  AppendBits (u8 code) length out.

Fixpoint encode_symbols (t : HpackHuffmanTable) (input : list Z) (bit_remnant : Z)
    (out : HpackOutputStream) : outcome (Z * HpackOutputStream) :=
  match input with
  | [] => Done (bit_remnant, out)
  | c :: input =>
      DCHECK (c <? Z.of_nat (length (code_by_id_ t))) ;;
      length ← at_index (length_by_id_ t) c;
      code ← at_index (code_by_id_ t) c;
      DCHECK (0 <? length) ;;
      let code := Z.shiftr code (32 - length) in
      out ← append_code code length out;
      encode_symbols t input ((bit_remnant + length) mod 8) out
  end.

Definition EncodeString (t : HpackHuffmanTable) (input : list Z) (out : HpackOutputStream) :
    outcome HpackOutputStream :=
  '(bit_remnant, out) ← encode_symbols t input 0 out;
  if negb (bit_remnant =? 0) then
    AppendBits (Z.shiftr (pad_bits_ t) bit_remnant) (8 - bit_remnant) out
  else Done out.

Fixpoint count_bits (t : HpackHuffmanTable) (input : list Z) (bit_count : Z) : outcome Z :=
  match input with
  | [] => Done bit_count
  | c :: input =>
      DCHECK (c <? Z.of_nat (length (code_by_id_ t))) ;;
      length ← at_index (length_by_id_ t) c;
      count_bits t input (u64 (bit_count + length))
  end.
Definition EncodedSize (t : HpackHuffmanTable) (input : list Z) : outcome Z :=
  bit_count ← count_bits t input 0;
  let bit_count :=
    if negb (bit_count mod 8 =? 0) then u64 (bit_count + (8 - bit_count mod 8)) else bit_count in
  Done (bit_count / 8).

(** ** Decoding *)

Definition kDecodeIterations : nat := 4.

(** The inner loop, and the entry at its end. *)
Fixpoint walk (iterations : nat) (bits : Z) (table : DecodeTable) (index : Z) (t : HpackHuffmanTable) :
    outcome DecodeEntry :=
  match iterations with
  | O => Entry table index t
  | S iterations =>
      DCHECK (index <? table_size table) ;;
      entry ← Entry table index t;
      DCHECK (next_table_index entry <? Z.of_nat (length (decode_tables_ t))) ;;
      table ← at_index (decode_tables_ t) (next_table_index entry);
      index ← index_of bits table;
      walk iterations bits table index t
  end.
Definition lookup_entry (t : HpackHuffmanTable) (bits : Z) : outcome DecodeEntry :=
  table ← at_index (decode_tables_ t) 0;
  walk kDecodeIterations bits table (Z.shiftr bits (32 - kDecodeTableRootBits)) t.

(** Each round reads bits, consumes some, or finds that there are no more to read. *)
Fixpoint decode_symbols (fuel : nat) (t : HpackHuffmanTable) (out_capacity : Z)
    (peeked_success : bool) (bits_available bits : Z) (out : list Z) (input : HpackInputStream) :
    outcome (bool * list Z * HpackInputStream) :=
  match fuel with
  | O => DcheckFailed
  | S fuel =>
      entry ← lookup_entry t bits;
      if bits_available <? entry_length entry then
        if negb peeked_success then
          input ← ConsumeByteRemainder input;
          Done (negb (HasMoreData input), out, input)
        else
          '(peeked_success, bits_available, bits) ← PeekBits bits_available bits input;
          decode_symbols fuel t out_capacity peeked_success bits_available bits out input
      else if entry_length entry =? 0 then Done (false, out, input)
      else if Z.of_nat (length out) =? out_capacity then Done (false, out, input)
      else
        let out := if symbol_id entry <? 256 then out ++ [u8 (symbol_id entry)] else out in
        input ← ConsumeBits (entry_length entry) input;
        let bits := u32 (Z.shiftl bits (entry_length entry)) in
        let bits_available := bits_available - entry_length entry in
        '(peeked_success, bits_available, bits) ← PeekBits bits_available bits input;
        decode_symbols fuel t out_capacity peeked_success bits_available bits out input
  end.

(** The results are the return value, [*out] and the stream. *)
Definition DecodeString (t : HpackHuffmanTable) (input : HpackInputStream) (out_capacity : Z) :
    outcome (bool * list Z * HpackInputStream) :=
  '(peeked_success, bits_available, bits) ← PeekBits 0 0 input;
  decode_symbols (S (S (24 * length (buffer_ input)))) t out_capacity
    peeked_success bits_available bits [] input.

(** HpackInputStream::DecodeNextHuffmanString.  [*str] is not written when the size is
    wrong: [None]. *)
Definition DecodeNextHuffmanString (t : HpackHuffmanTable) (s : HpackInputStream) :
    outcome (bool * option (list Z) * HpackInputStream) :=
  '(ok, encoded_size, s) ← DecodeNextUint32 s;
  if negb ok then Done (false, None, s)
  else if Z.of_nat (length (buffer_ s)) <? encoded_size then Done (false, None, s)
  else
    let bounded_reader :=
      new_HpackInputStream (max_string_literal_size_ s) (take (Z.to_nat encoded_size) (buffer_ s)) in
    let s := remove_prefix encoded_size s in
    '(ok, str, _) ← DecodeString t bounded_reader (max_string_literal_size_ s);
    Done (ok, Some str, s).
