(* ===== verification/HpackHuffmanCode.v ===== *)
(** * The Huffman code of HPACK: the tables, and decoding what was encoded

    What a table has to satisfy for encoding and decoding to be right ([good_table]), the
    proof that the shared table does, a reference decoder that works on bits, and the
    proof that DecodeString agrees with it on every input. *)

From S2P Require Import Prelude Bits HpackConstants HpackOutputStream HpackInputStream HpackHuffmanTable.

(** ** Codes as intervals of words

    The words that start with a code of [l] bits, which is kept in the top bits of [c], are
    those from [c] up to [c + 2 ^ (32 - l)]. *)
Definition in_code (c l w : Z) : Prop := c <= w < c + 2 ^ (32 - l).

Definition symbol_at (t : HpackHuffmanTable) (i : nat) (c l : Z) : Prop :=
  code_by_id_ t !! i = Some c ∧ length_by_id_ t !! i = Some l.

Definition valid_code (c l : Z) : Prop :=
  1 <= l <= 32 ∧ 0 <= c ∧ c mod 2 ^ (32 - l) = 0 ∧ c + 2 ^ (32 - l) <= 2 ^ 32.

Record good_table (t : HpackHuffmanTable) : Prop := {
  (** Every byte has a code, and the ids of the others fit into [uint16]. *)
  gt_ids : 256 <= Z.of_nat (length (code_by_id_ t)) <= 65536;
  gt_lengths : length (length_by_id_ t) = length (code_by_id_ t);
  gt_valid : ∀ i c l, symbol_at t i c l → valid_code c l;
  (** No code is a prefix of another one. *)
  gt_disjoint : ∀ i j c l c' l' w,
    symbol_at t i c l → symbol_at t j c' l' → in_code c l w → in_code c' l' w → i = j;
  (** Every word starts with a code, and the tables find it. *)
  gt_lookup : ∀ w, 0 <= w < 2 ^ 32 → ∃ i c l e, symbol_at t i c l ∧ in_code c l w ∧
    lookup_entry t w = Done e ∧ entry_length e = l ∧ symbol_id e = Z.of_nat i;
  (** The padding is not a whole code. *)
  gt_pad_byte : byte_ok (pad_bits_ t);
  gt_pad : ∀ k i c l, (k < 8)%nat → symbol_at t i c l →
    in_code c l (window (take k (z_bits 8 (pad_bits_ t)))) → Z.of_nat k < l
}.

(** ** The shared table is good

    Each property by a check that is evaluated. *)

Definition codes (t : HpackHuffmanTable) : list (Z * Z) := zip (code_by_id_ t) (length_by_id_ t).

Lemma symbol_at_codes t i c l : symbol_at t i c l ↔ codes t !! i = Some (c, l).
Proof. unfold codes. rewrite lookup_zip_Some. done. Qed.

Definition check_valid (t : HpackHuffmanTable) : bool :=
  forallb (λ '(c, l), (1 <=? l) && (l <=? 32) && (0 <=? c) && (c mod 2 ^ (32 - l) =? 0)
                      && (c + 2 ^ (32 - l) <=? 2 ^ 32)) (codes t).

Fixpoint check_disjoint (l : list (Z * Z)) : bool :=
  match l with
  | [] => true
  | (c, n) :: l =>
      forallb (λ '(c', n'), (c + 2 ^ (32 - n) <=? c') || (c' + 2 ^ (32 - n') <=? c)) l
      && check_disjoint l
  end.

Definition check_pad (t : HpackHuffmanTable) : bool :=
  forallb (λ k, forallb (λ '(c, l),
      let w := window (take k (z_bits 8 (pad_bits_ t))) in
      negb ((c <=? w) && (w <? c + 2 ^ (32 - l))) || (Z.of_nat k <? l)) (codes t)) (seq 0 8).

(** The words from [base] on that have got to table [ti]: entry by entry, either the symbol
    is there, or the next table takes over. *)
Fixpoint check_words (fuel : nat) (t : HpackHuffmanTable) (ti base : Z) : bool :=
  match fuel with
  | O => false
  | S fuel =>
      match at_index (decode_tables_ t) ti with
      | DcheckFailed => false
      | Done table =>
          let p := prefix_length table in
          let w := indexed_length table in
          (0 <=? p) && (0 <? w) && (p + w <=? 32) &&
          forallb (λ j,
            match Entry table j t with
            | DcheckFailed => false
            | Done e =>
                let first := base + j * 2 ^ (32 - p - w) in
                if next_table_index e =? ti then
                  match codes t !! Z.to_nat (symbol_id e) with
                  | None => false
                  | Some (c, l) =>
                      (0 <=? symbol_id e) && (entry_length e =? l) && (c <=? first)
                      && (first + 2 ^ (32 - p - w) <=? c + 2 ^ (32 - l))
                  end
                else
                  match at_index (decode_tables_ t) (next_table_index e) with
                  | DcheckFailed => false
                  | Done table' =>
                      (prefix_length table' =? p + w) && check_words fuel t (next_table_index e) first
                  end
            end) (seqZ 0 (2 ^ w))
      end
  end.

Definition check_lookup (t : HpackHuffmanTable) : bool :=
  match at_index (decode_tables_ t) 0 with
  | DcheckFailed => false
  | Done table =>
      (prefix_length table =? 0) && (indexed_length table =? kDecodeTableRootBits)
      && check_words (S kDecodeIterations) t 0 0
  end.

Definition check_table (t : HpackHuffmanTable) : bool :=
  (256 <=? Z.of_nat (length (code_by_id_ t))) && (Z.of_nat (length (code_by_id_ t)) <=? 65536)
  && (length (length_by_id_ t) =? length (code_by_id_ t))%nat
  && check_valid t && check_disjoint (codes t) && check_lookup t
  && (0 <=? pad_bits_ t) && (pad_bits_ t <? 256) && check_pad t.

Lemma shared_table_checks pad failed :
  match ObtainHpackHuffmanTable pad failed with Done t => check_table t | DcheckFailed => false end = true.
Proof. vm_compute. reflexivity. Qed.

(** *** The checks are sound *)

Lemma Is_true_forallb {A} (f : A → bool) l x : forallb f l = true → x ∈ l → f x = true.
Proof. rewrite forallb_forall. intros H Hx. apply H. by apply list_elem_of_In. Qed.

Lemma check_valid_sound t i c l : check_valid t = true → symbol_at t i c l → valid_code c l.
Proof.
  intros Hc Hs. apply symbol_at_codes, list_elem_of_lookup_2 in Hs.
  apply (Is_true_forallb _ _ _ Hc) in Hs. cbn in Hs. prop_bools. done.
Qed.

Lemma check_disjoint_sound l i j c n c' n' w :
  check_disjoint l = true → l !! i = Some (c, n) → l !! j = Some (c', n') → (i < j)%nat →
  in_code c n w → in_code c' n' w → False.
Proof.
  revert i j. induction l as [|[a m] l IH]; intros i j Hc Hi Hj Hij Hw Hw'; [done|].
  cbn in Hc. prop_bools. destruct j as [|j]; [lia|]. destruct i as [|i]; cbn in Hi, Hj.
  - injection Hi as -> ->. apply list_elem_of_lookup_2 in Hj.
    eapply Is_true_forallb in Hj; [|done]. cbn in Hj. unfold in_code in *.
    apply orb_true_iff in Hj as [Hj|Hj]; prop_bools; lia.
  - by apply (IH i j); auto with lia.
Qed.

Lemma at_index_Some {A} (l : list A) (i : nat) x : l !! i = Some x → at_index l (Z.of_nat i) = Done x.
Proof. intros E. unfold at_index. by rewrite (proj2 (Z.leb_le 0 _)), Nat2Z.id, E by lia. Qed.

Lemma at_index_done {A} (l : list A) i x :
  at_index l i = Done x → 0 <= i < Z.of_nat (length l) ∧ l !! Z.to_nat i = Some x.
Proof.
  unfold at_index. destruct (Z.leb_spec 0 i); [|done]. destruct (l !! Z.to_nat i) as [y|] eqn:E; [|done].
  intros [= ->]. apply lookup_lt_Some in E as ?. split; [lia|done].
Qed.

(** A word that has got to a table is indexed by its next bits. *)
Lemma index_of_base w table base :
  let p := prefix_length table in let n := indexed_length table in
  0 <= p → 0 < n → p + n <= 32 → 0 <= base → base mod 2 ^ (32 - p) = 0 →
  base <= w < base + 2 ^ (32 - p) →
  ∃ j, index_of w table = Done j ∧ 0 <= j < 2 ^ n ∧
    base + j * 2 ^ (32 - p - n) <= w < base + j * 2 ^ (32 - p - n) + 2 ^ (32 - p - n).
Proof.
  intros p n Hp Hn Hpn Hb Hm Hw. unfold index_of. fold p n.
  rewrite (proj2 (Z.ltb_lt p 32)), (proj2 (Z.ltb_lt 0 n)), !DCHECK_true_bind by lia.
  eexists. split; [done|].
  set (P := 2 ^ p). set (Q := 2 ^ (32 - p - n)).
  assert (0 < P) by (unfold P; lia). assert (0 < Q) by (unfold Q; lia).
  assert (2 ^ (32 - p) = 2 ^ n * Q) as EQ by (unfold Q; rewrite <- Z.pow_add_r by lia; f_equal; lia).
  assert (4294967296 = 2 ^ (32 - p) * P) as EP
    by (unfold P; rewrite <- Z.pow_add_r by lia; replace (32 - p + p) with 32 by lia; done).
  assert (2 ^ (32 - n) = Q * P) as EPQ by (unfold P, Q; rewrite <- Z.pow_add_r by lia; f_equal; lia).
  assert (u32 (Z.shiftl w p) = (w - base) * P) as ->.
  { unfold u32. rewrite Z.shiftl_mul_pow2, EP, Z.mul_mod_distr_r by (fold P; lia). f_equal.
    apply Z.div_exact in Hm; [|lia]. rewrite Hm. symmetry.
    apply (Z.mod_unique _ _ (base / 2 ^ (32 - p))); lia. }
  rewrite Z.shiftr_div_pow2, EPQ, Z.div_mul_cancel_r by lia.
  pose proof (Z.div_mod (w - base) Q ltac:(lia)). pose proof (Z.mod_pos_bound (w - base) Q ltac:(lia)).
  split; [|lia]. split; [apply Z.div_pos; lia|]. apply Z.div_lt_upper_bound; lia.
Qed.

Lemma table_size_pow table : 0 < indexed_length table → table_size table = 2 ^ indexed_length table.
Proof. intros. unfold table_size. rewrite Z.shiftl_mul_pow2; lia. Qed.

(** What [check_words] says of one word. *)
Lemma check_words_step fuel t ti base w table :
  check_words (S fuel) t ti base = true → at_index (decode_tables_ t) ti = Done table →
  0 <= base → base mod 2 ^ (32 - prefix_length table) = 0 →
  base <= w < base + 2 ^ (32 - prefix_length table) →
  ∃ j e, index_of w table = Done j ∧ Entry table j t = Done e ∧ j < table_size table ∧
    ((next_table_index e = ti ∧ 0 <= symbol_id e ∧
      ∃ c l, codes t !! Z.to_nat (symbol_id e) = Some (c, l) ∧ entry_length e = l ∧ in_code c l w) ∨
     ∃ table' first, at_index (decode_tables_ t) (next_table_index e) = Done table' ∧
       check_words fuel t (next_table_index e) first = true ∧ 0 <= first ∧
       first mod 2 ^ (32 - prefix_length table') = 0 ∧
       first <= w < first + 2 ^ (32 - prefix_length table')).
Proof.
  intros Hc Et Hb Hm Hw. cbn [check_words] in Hc. rewrite Et in Hc.
  set (p := prefix_length table) in *. set (n := indexed_length table) in *.
  apply andb_true_iff in Hc as [Hc Hall]. prop_bools.
  destruct (index_of_base w table base) as (j & Ej & Hj & Hwj); fold p n; [lia|lia|lia|done|done|done|].
  fold p n in Ej, Hj, Hwj. exists j.
  assert (j ∈ seqZ 0 (2 ^ n)) as Hin by (apply elem_of_seqZ; lia).
  eapply Is_true_forallb in Hin; [|exact Hall]. cbn beta in Hin.
  destruct (Entry table j t) as [e|]; [|done]. exists e. cbv zeta in Hin.
  split_and!; [done|done|rewrite table_size_pow by done; fold n; lia|].
  destruct (Z.eqb_spec (next_table_index e) ti) as [En|En].
  - left. destruct (codes t !! _) as [[c l]|] eqn:Ec; [|done]. prop_bools.
    split_and!; [done|done|]. exists c, l. split_and!; [done|done|]. unfold in_code. lia.
  - right. destruct (at_index (decode_tables_ t) (next_table_index e)) as [table'|]; [|done].
    apply andb_true_iff in Hin as [Hp Hin]. apply Z.eqb_eq in Hp.
    exists table', (base + j * 2 ^ (32 - p - n)). rewrite Hp.
    replace (32 - (p + n)) with (32 - p - n) by lia.
    assert (0 < 2 ^ (32 - p - n)) by lia.
    split_and!; [done|done|nia| |lia|lia].
    rewrite Z.mod_add by lia. replace (32 - p) with (n + (32 - p - n)) in Hm by lia.
    rewrite Z.pow_add_r in Hm by lia. apply Z.div_exact in Hm; [|lia]. rewrite Hm.
    rewrite <- Z.mul_assoc, (Z.mul_comm (2 ^ n)), <- Z.mul_assoc, Z.mul_comm. apply Z.mod_mul. lia.
Qed.

(** An entry that refers to its own table is found again in every round. *)
Lemma walk_terminal k w table ti j e t :
  at_index (decode_tables_ t) ti = Done table → index_of w table = Done j →
  Entry table j t = Done e → j < table_size table → next_table_index e = ti →
  walk k w table j t = Done e.
Proof.
  intros Et Ej Ee Hj En. induction k as [|k IH]; [done|]. cbn [walk].
  rewrite (proj2 (Z.ltb_lt _ _) Hj). rewrite DCHECK_true_bind, Ee. step_done.
  apply at_index_done in Et as Hti. rewrite En, (proj2 (Z.ltb_lt ti _)) by lia. rewrite DCHECK_true_bind, Et.
  step_done. rewrite Ej. done.
Qed.

Lemma check_words_sound fuel k t ti base w table j :
  check_words (S fuel) t ti base = true → (fuel <= k)%nat → at_index (decode_tables_ t) ti = Done table →
  0 <= base → base mod 2 ^ (32 - prefix_length table) = 0 →
  base <= w < base + 2 ^ (32 - prefix_length table) → index_of w table = Done j →
  ∃ e c l, walk k w table j t = Done e ∧ 0 <= symbol_id e ∧
    codes t !! Z.to_nat (symbol_id e) = Some (c, l) ∧ entry_length e = l ∧ in_code c l w.
Proof.
  revert k ti base table j. induction fuel as [|fuel IH]; intros k ti base table j Hc Hk Et Hb Hm Hw Ej.
  all: pose proof (check_words_step _ t ti base w table Hc Et Hb Hm Hw) as H; destruct H as (j' & e & Ej' & Ee & Hj & H).
  all: rewrite Ej in Ej'; injection Ej' as <-.
  all: destruct H as [(En & Hid & c & l & Ec & El & Hin)|(table' & first & Et' & Hc' & Hf & Hfm & Hfw)];
    [exists e, c, l; split; [by eapply walk_terminal|done]|].
  - done.
  - destruct k as [|k]; [lia|]. cbn [walk].
    rewrite (proj2 (Z.ltb_lt _ _) Hj). rewrite DCHECK_true_bind, Ee. step_done.
    apply at_index_done in Et' as Hti. rewrite (proj2 (Z.ltb_lt (next_table_index e) (Z.of_nat (length (decode_tables_ t))))) by lia.
    rewrite DCHECK_true_bind, Et'. step_done.
    destruct (check_words_step fuel t (next_table_index e) first w table' Hc' Et' Hf Hfm Hfw) as (j' & _ & Ej' & _).
    rewrite Ej'. step_done. apply (IH k (next_table_index e) first table' j'); [done|lia|done..].
Qed.

Lemma check_lookup_sound t w :
  check_lookup t = true → 0 <= w < 2 ^ 32 →
  ∃ i c l e, symbol_at t i c l ∧ in_code c l w ∧ lookup_entry t w = Done e ∧
    entry_length e = l ∧ symbol_id e = Z.of_nat i.
Proof.
  intros Hc Hw. unfold check_lookup in Hc. destruct (at_index (decode_tables_ t) 0) as [table|] eqn:Et; [|done].
  apply andb_true_iff in Hc as [Hp Hc]. prop_bools.
  assert (index_of w table = Done (Z.shiftr w (32 - kDecodeTableRootBits))) as Ej.
  { unfold index_of. replace (prefix_length table) with 0 by done.
    replace (indexed_length table) with kDecodeTableRootBits by done.
    rewrite Z.shiftl_0_r, u32_small by (unfold is_u32, u32_max; lia). done. }
  pose proof (λ j, check_words_sound _ _ t 0 0 w table j Hc (le_n _) Et) as F.
  replace (prefix_length table) with 0 in F by done.
  destruct (F _ ltac:(lia) eq_refl ltac:(lia) Ej) as (e & c & l & Ew & Hid & Ec & El & Hin).
  exists (Z.to_nat (symbol_id e)), c, l, e. rewrite symbol_at_codes, Z2Nat.id by done.
  split_and!; [done|done| |done|done]. unfold lookup_entry. rewrite Et. exact Ew.
Qed.

Lemma check_pad_sound t k i c l :
  check_pad t = true → (k < 8)%nat → symbol_at t i c l →
  in_code c l (window (take k (z_bits 8 (pad_bits_ t)))) → Z.of_nat k < l.
Proof.
  intros Hc Hk Hs Hin. apply symbol_at_codes, list_elem_of_lookup_2 in Hs.
  apply (Is_true_forallb _ _ k) in Hc; [|apply elem_of_seq; lia].
  apply (Is_true_forallb _ _ _ Hc) in Hs. cbn beta iota zeta in Hs.
  apply orb_true_iff in Hs as [Hs|Hs]; [|by apply Z.ltb_lt].
  unfold in_code in Hin. apply negb_true_iff, andb_false_iff in Hs as [Hs|Hs]; prop_bools; lia.
Qed.

Lemma check_table_sound t : check_table t = true → good_table t.
Proof.
  intros Hc. unfold check_table in Hc. prop_bools. constructor.
  - lia.
  - by apply Nat.eqb_eq.
  - intros. by eapply check_valid_sound.
  - intros i j c l c' l' w Hi Hj Hw Hw'. apply symbol_at_codes in Hi, Hj.
    destruct (Nat.lt_trichotomy i j) as [Hij|[Hij|Hij]]; [|done|]; exfalso.
    + by apply (check_disjoint_sound (codes t) i j c l c' l' w).
    + by apply (check_disjoint_sound (codes t) j i c' l' c l w).
  - intros. by apply check_lookup_sound.
  - unfold byte_ok. lia.
  - intros. by eapply check_pad_sound.
Qed.

(** Initialize accepts the code of HPACK, no check fails, and the tables are right. *)
Lemma shared_table_good pad failed :
  ∃ t, ObtainHpackHuffmanTable pad failed = Done t ∧ good_table t.
Proof.
  pose proof (shared_table_checks pad failed) as H.
  destruct (ObtainHpackHuffmanTable pad failed) as [t|]; [|done].
  exists t. split; [done|]. by apply check_table_sound.
Qed.

(** ** Codes as bits *)

Definition codeword (t : HpackHuffmanTable) (i : nat) : list bool :=
  match code_by_id_ t !! i, length_by_id_ t !! i with
  | Some c, Some l => z_bits (Z.to_nat l) (Z.shiftr c (32 - l))
  | _, _ => []
  end.

Lemma codeword_at t i c l :
  symbol_at t i c l → codeword t i = z_bits (Z.to_nat l) (Z.shiftr c (32 - l)).
Proof. intros [Ec El]. unfold codeword. by rewrite Ec, El. Qed.

Lemma in_code_bits c l w :
  valid_code c l → 0 <= w < 2 ^ 32 →
  in_code c l w ↔ take (Z.to_nat l) (z_bits 32 w) = z_bits (Z.to_nat l) (Z.shiftr c (32 - l)).
Proof.
  intros (Hl & Hc & Hm & Hmax) Hw.
  replace 32%nat with (Z.to_nat l + Z.to_nat (32 - l))%nat by lia.
  rewrite z_bits_app, take_app_length' by by rewrite z_bits_length. rewrite Z2Nat.id by lia.
  set (P := 2 ^ (32 - l)) in *. assert (0 < P) as HP by (unfold P; lia).
  assert (2 ^ 32 = 2 ^ l * P) as E32
    by (unfold P; rewrite <- Z.pow_add_r by lia; f_equal; lia).
  rewrite !Z.shiftr_div_pow2 by lia. fold P.
  apply Z.div_exact in Hm; [|lia]. unfold in_code. fold P.
  pose proof (Z.div_mod w P ltac:(lia)) as Hd. pose proof (Z.mod_pos_bound w P HP).
  pose proof (Z.div_pos w P ltac:(lia) HP). pose proof (Z.div_pos c P ltac:(lia) HP).
  split; intros Hin.
  - f_equal. nia.
  - apply z_bits_inj in Hin; rewrite ?Z2Nat.id by lia; [nia| |]; split; try done;
      apply Z.div_lt_upper_bound; lia.
Qed.

Section Code.
Context (t : HpackHuffmanTable) (Ht : good_table t).

Lemma symbol_exists i :
  (i < length (code_by_id_ t))%nat → ∃ c l, symbol_at t i c l ∧ valid_code c l.
Proof.
  intros Hi. destruct (lookup_lt_is_Some_2 _ _ Hi) as [c Ec].
  rewrite <- (gt_lengths t Ht) in Hi. destruct (lookup_lt_is_Some_2 _ _ Hi) as [l El].
  exists c, l. split; [done|]. by apply (gt_valid t Ht i).
Qed.

Lemma codeword_length i c l : symbol_at t i c l → length (codeword t i) = Z.to_nat l.
Proof. intros Hs. by rewrite (codeword_at _ _ _ _ Hs), z_bits_length. Qed.

(** A word window starts with a code just when the bits do, as far as there are bits. *)
Lemma in_code_window i c l bs rest :
  symbol_at t i c l → bs = codeword t i ++ rest → in_code c l (window bs).
Proof.
  intros Hs ->. pose proof (gt_valid t Ht _ _ _ Hs) as Hv.
  apply in_code_bits; [done|apply window_range|]. rewrite <- (codeword_at _ _ _ _ Hs).
  destruct Hv as (Hl & _). pose proof (codeword_length _ _ _ Hs) as E.
  rewrite window_bits, take_take, Nat.min_l by lia.
  by rewrite <- app_assoc, take_app_length' by done.
Qed.

Lemma window_in_code i c l bs :
  symbol_at t i c l → in_code c l (window bs) → l <= Z.of_nat (length bs) →
  bs = codeword t i ++ drop (Z.to_nat l) bs.
Proof.
  intros Hs Hin Hlen. pose proof (gt_valid t Ht _ _ _ Hs) as Hv.
  apply in_code_bits in Hin; [|done|apply window_range]. rewrite <- (codeword_at _ _ _ _ Hs) in Hin.
  destruct Hv as (Hl & _). rewrite window_bits, take_take, Nat.min_l in Hin by lia.
  rewrite take_app_le in Hin by lia. by rewrite <- Hin, take_drop.
Qed.

(** No two codes are at the start of the same bits. *)
Lemma codeword_unique i j c l c' l' bs rest rest' :
  symbol_at t i c l → symbol_at t j c' l' →
  bs = codeword t i ++ rest → bs = codeword t j ++ rest' → i = j.
Proof.
  intros Hi Hj Ei Ej. apply (gt_disjoint t Ht i j c l c' l' (window bs)); [done|done| |];
    by eapply in_code_window.
Qed.

(** ** Encoding *)

Definition encode_bits (s : list Z) : list bool := s ≫= λ b, codeword t (Z.to_nat b).

Definition padding (n : nat) : list bool := take ((8 - n mod 8) mod 8) (z_bits 8 (pad_bits_ t)).

(** The bytes of a code above bit [m]. *)
Lemma append_code_stage m len code out bs :
  written out bs → 0 <= code → 0 <= m < len → len <= m + 8 → code < 2 ^ len ∨ len = m + 8 →
  ∃ out', AppendBits (u8 (Z.shiftr code m)) (len - m) out = Done out' ∧
    written out' (bs ++ z_bits (Z.to_nat (len - m)) (Z.shiftr code m)).
Proof.
  intros Hw Hc Hm Hl Hr. assert (0 <= u8 (Z.shiftr code m) < 2 ^ (len - m)) as Hv.
  { destruct Hr as [Hr| ->].
    - rewrite u8_small; rewrite Z.shiftr_div_pow2 by lia; split; try (apply Z.div_pos; lia).
      + apply Z.div_lt_upper_bound; [lia|]. rewrite <- Z.pow_add_r by lia.
        by replace (m + (len - m)) with len by lia.
      + apply Z.div_lt_upper_bound; [lia|]. change 256 with (2 ^ 8). rewrite <- Z.pow_add_r by lia.
        pose proof (Z.pow_le_mono_r 2 len (m + 8)). lia.
    - replace (m + 8 - m) with 8 by lia. apply Z.mod_pos_bound. lia. }
  destruct (AppendBits_written out bs (u8 (Z.shiftr code m)) (Z.to_nat (len - m)) Hw)
    as (out' & E & Hw'); [lia|by rewrite Z2Nat.id by lia|].
  rewrite Z2Nat.id in E by lia. exists out'. split; [done|].
  replace (z_bits (Z.to_nat (len - m)) (Z.shiftr code m))
    with (z_bits (Z.to_nat (len - m)) (u8 (Z.shiftr code m))); [done|].
  rewrite <- z_bits_mod, <- (z_bits_mod _ (Z.shiftr code m)). f_equal. unfold u8.
  apply Z.mod_mod_divide. exists (2 ^ (8 - (len - m))). rewrite Z2Nat.id, <- Z.pow_add_r by lia.
  by replace (8 - (len - m) + (len - m)) with 8 by lia.
Qed.

Lemma append_code_written code l out bs :
  written out bs → 1 <= l <= 32 → 0 <= code < 2 ^ l →
  ∃ out', append_code code l out = Done out' ∧ written out' (bs ++ z_bits (Z.to_nat l) code).
Proof.
  intros Hw Hl Hc.
  (* after a stage at most [m] bits are left *)
  assert (∀ m len out bs, 0 <= m → 1 <= len <= m + 8 → code < 2 ^ len ∨ len = m + 8 →
    written out bs →
    ∃ len' out' p, (if m <? len then out ← AppendBits (u8 (Z.shiftr code m)) (len - m) out; Done (m, out)
                    else Done (len, out)) = Done (len', out') ∧
      len' = Z.min len m ∧ z_bits (Z.to_nat len) code = p ++ z_bits (Z.to_nat len') code ∧
      written out' (bs ++ p)) as Hstage.
  { intros m len o b Hm Hlen Hr Ho. destruct (Z.ltb_spec m len).
    - destruct (append_code_stage m len code o b Ho) as (o' & -> & Ho'); [lia..|done|].
      step_done. exists m, o', (z_bits (Z.to_nat (len - m)) (Z.shiftr code m)).
      split_and!; [done|lia| |done]. replace (Z.to_nat len) with (Z.to_nat (len - m) + Z.to_nat m)%nat by lia.
      rewrite z_bits_app. by rewrite Z2Nat.id by lia.
    - exists len, o, []. rewrite app_nil_r. split_and!; [done|lia|done|done]. }
  unfold append_code.
  destruct (Hstage 24 l out bs) as (l1 & o1 & p1 & -> & E1 & Ep1 & H1); [lia|lia|left; lia|done|].
  step_done.
  destruct (Hstage 16 l1 o1 (bs ++ p1)) as (l2 & o2 & p2 & -> & E2 & Ep2 & H2);
    [lia|lia|destruct (decide (l <= 24)); [left; replace l1 with l by lia; lia|right; lia]|done|].
  step_done.
  destruct (Hstage 8 l2 o2 ((bs ++ p1) ++ p2)) as (l3 & o3 & p3 & -> & E3 & Ep3 & H3);
    [lia|lia|destruct (decide (l <= 16)); [left; replace l2 with l by lia; lia|right; lia]|done|].
  step_done. rewrite Ep1, Ep2, Ep3.
  destruct (append_code_stage 0 l3 code o3 _ H3) as (o4 & E4 & H4);
    [lia|lia|lia|destruct (decide (l <= 8)); [left; replace l3 with l by lia; lia|right; lia]|].
  rewrite Z.shiftr_0_r, Z.sub_0_r in *. exists o4. split; [done|]. by rewrite !app_assoc in *.
Qed.

Lemma byte_symbol b : byte_ok b → (Z.to_nat b < length (code_by_id_ t))%nat.
Proof. intros Hb. pose proof (gt_ids t Ht). unfold byte_ok in Hb. lia. Qed.

Lemma encode_symbols_written s r out bs :
  written out bs → Forall byte_ok s →
  ∃ out', encode_symbols t s r out
    = Done (match s with [] => r | _ => (r + Z.of_nat (length (encode_bits s))) mod 8 end, out') ∧
    written out' (bs ++ encode_bits s).
Proof.
  intros Hw Hs. revert r out bs Hw. induction Hs as [|b s Hb Hs IH]; intros r out bs Hw.
  - exists out. by rewrite app_nil_r.
  - destruct (symbol_exists _ (byte_symbol b Hb)) as (c & l & [Ec El] & Hv).
    pose proof (codeword_at t _ _ _ (conj Ec El)) as Ew.
    pose proof (byte_symbol b Hb). unfold byte_ok in Hb.
    cbn [encode_symbols]. rewrite (proj2 (Z.ltb_lt b _)) by lia. rewrite DCHECK_true_bind.
    pose proof (at_index_Some _ _ _ El) as El'. pose proof (at_index_Some _ _ _ Ec) as Ec'.
    rewrite Z2Nat.id in El', Ec' by lia. rewrite El'. step_done. rewrite Ec'. step_done.
    destruct Hv as (Hl & Hc & Hm & Hmax).
    rewrite (proj2 (Z.ltb_lt 0 l)) by lia. rewrite DCHECK_true_bind.
    destruct (append_code_written (Z.shiftr c (32 - l)) l out bs Hw Hl) as (o1 & -> & H1).
    { rewrite Z.shiftr_div_pow2 by lia. split; [apply Z.div_pos; lia|].
      apply Z.div_lt_upper_bound; [lia|]. rewrite <- Z.pow_add_r by lia.
      replace (32 - l + l) with 32 by lia. lia. }
    step_done. destruct (IH ((r + l) mod 8) o1 _ H1) as (o2 & -> & H2). exists o2.
    unfold encode_bits in *. cbn [mbind list_bind]. fold (encode_bits s) in *. rewrite Ew, app_assoc. split; [|done].
    do 2 f_equal. rewrite length_app, z_bits_length, Nat2Z.inj_add, Z2Nat.id by lia.
    destruct s; [cbn; f_equal; lia|]. rewrite Z.add_mod_idemp_l by lia. f_equal. lia.
Qed.

(** The bits of a string that is encoded: its codes, and padding up to a whole byte. *)
Definition huffman_bits (s : list Z) : list bool :=
  encode_bits s ++ padding (length (encode_bits s)).

Lemma padding_length n : length (padding n) = ((8 - n mod 8) mod 8)%nat.
Proof.
  unfold padding. rewrite length_take, z_bits_length.
  pose proof (Nat.mod_upper_bound (8 - n mod 8) 8). lia.
Qed.

Lemma huffman_bits_aligned s : ∃ n, length (huffman_bits s) = (8 * n)%nat.
Proof.
  unfold huffman_bits. rewrite length_app, padding_length. set (m := length _).
  exists ((m + (8 - m mod 8) mod 8) / 8)%nat. apply Nat.Div0.div_exact.
  pose proof (Nat.mod_upper_bound m 8).
  destruct (decide (m mod 8 = 0)%nat) as [E|E].
  - rewrite E. cbn. by rewrite Nat.add_0_r.
  - rewrite (Nat.mod_small (8 - m mod 8)) by lia. rewrite <- Nat.Div0.add_mod_idemp_l.
    by replace (m mod 8 + (8 - m mod 8))%nat with 8%nat by lia.
Qed.

Lemma written_offset out bs :
  written out bs → HpackOutputStream.bit_offset_ out = 0 ↔ (length bs mod 8 = 0)%nat.
Proof. intros (_ & -> & _). lia. Qed.

Lemma pad_bits_top r :
  (r <= 8)%nat → 0 <= Z.shiftr (pad_bits_ t) (Z.of_nat r) < 2 ^ Z.of_nat (8 - r) ∧
  z_bits (8 - r) (Z.shiftr (pad_bits_ t) (Z.of_nat r)) = take (8 - r) (z_bits 8 (pad_bits_ t)).
Proof.
  intros Hr. pose proof (gt_pad_byte t Ht) as Hb. unfold byte_ok in Hb. split.
  - rewrite Z.shiftr_div_pow2 by lia. split; [apply Z.div_pos; lia|].
    apply Z.div_lt_upper_bound; [lia|]. rewrite <- Z.pow_add_r by lia.
    replace (Z.of_nat r + Z.of_nat (8 - r)) with 8 by lia. lia.
  - replace (z_bits 8 (pad_bits_ t)) with (z_bits ((8 - r) + r) (pad_bits_ t)) by (f_equal; lia).
    by rewrite z_bits_app, take_app_length' by by rewrite z_bits_length.
Qed.

Lemma EncodeString_written s out bs :
  written out bs → HpackOutputStream.bit_offset_ out = 0 → Forall byte_ok s →
  ∃ out', EncodeString t s out = Done out' ∧ written out' (bs ++ huffman_bits s) ∧
    HpackOutputStream.bit_offset_ out' = 0.
Proof.
  intros Hw H0 Hs. pose proof (proj1 (written_offset _ _ Hw) H0) as Hb.
  unfold EncodeString. destruct (encode_symbols_written s 0 out bs Hw Hs) as (o1 & -> & H1). step_done.
  set (n := length (encode_bits s)) in *. pose proof (Nat.mod_upper_bound n 8 ltac:(lia)) as Hn.
  replace (match s with [] => 0 | _ :: _ => (0 + Z.of_nat n) mod 8 end) with (Z.of_nat (n mod 8)).
  2:{ destruct s; [done|]. by rewrite Z.add_0_l, Nat2Z.inj_mod. }
  unfold huffman_bits, padding. fold n.
  assert (∀ o, written o (bs ++ huffman_bits s) → HpackOutputStream.bit_offset_ o = 0) as Hend.
  { intros o Ho. apply (written_offset _ _ Ho). destruct (huffman_bits_aligned s) as [k E].
    rewrite length_app, E, Nat.mul_comm, Nat.Div0.mod_add. done. }
  destruct (Z.eqb_spec (Z.of_nat (n mod 8)) 0) as [E|E]; cbn [negb].
  - exists o1. assert ((8 - n mod 8) mod 8 = 0)%nat as Ep by (replace (n mod 8)%nat with 0%nat by lia; done).
    rewrite Ep. cbn [take]. rewrite app_nil_r. split_and!; [done|done|]. apply Hend.
    unfold huffman_bits, padding. fold n. rewrite Ep. cbn [take]. by rewrite app_nil_r.
  - destruct (pad_bits_top (n mod 8) ltac:(lia)) as [Hv Ev].
    assert (0 < 8 - n mod 8 <= 8)%nat as Hr by lia.
    destruct (AppendBits_written o1 _ _ (8 - n mod 8) H1 Hr Hv) as (o2 & E2 & H2).
    replace (8 - Z.of_nat (n mod 8)) with (Z.of_nat (8 - n mod 8)) by lia.
    exists o2. rewrite Ev, <- app_assoc in H2. rewrite (Nat.mod_small (8 - n mod 8)) by lia.
    split_and!; [done|done|]. apply Hend. unfold huffman_bits, padding. fold n.
    by rewrite (Nat.mod_small (8 - n mod 8)) by lia.
Qed.

Lemma encode_bits_length s :
  Forall byte_ok s → Z.of_nat (length (encode_bits s)) <= 32 * Z.of_nat (length s).
Proof.
  induction 1 as [|b s Hb Hs IH]; [done|]. unfold encode_bits in *. cbn [mbind list_bind].
  destruct (symbol_exists _ (byte_symbol b Hb)) as (c & l & Hsym & Hl & _).
  rewrite length_app, (codeword_length _ _ _ Hsym). cbn [length]. lia.
Qed.

(** [EncodedSize] is the number of bytes that [EncodeString] writes. *)
Lemma count_bits_exact s n :
  Forall byte_ok s → 0 <= n → n + Z.of_nat (length (encode_bits s)) < 2 ^ 64 →
  count_bits t s n = Done (n + Z.of_nat (length (encode_bits s))).
Proof.
  intros Hs. revert n. induction Hs as [|b s Hb Hs IH]; intros n Hn Hmax; [cbn; f_equal; lia|].
  destruct (symbol_exists _ (byte_symbol b Hb)) as (c & l & [Ec El] & Hl & _).
  pose proof (codeword_length _ _ _ (conj Ec El)) as Ew. pose proof (byte_symbol b Hb).
  unfold encode_bits in Hmax |- *. cbn [mbind list_bind] in Hmax |- *. fold (encode_bits s) in Hmax |- *.
  rewrite length_app, Ew in Hmax |- *. unfold byte_ok in Hb. cbn [count_bits].
  rewrite (proj2 (Z.ltb_lt b _)) by lia. rewrite DCHECK_true_bind.
  pose proof (at_index_Some _ _ _ El) as El'. rewrite Z2Nat.id in El' by lia. rewrite El'. step_done.
  unfold u64. rewrite Z.mod_small by lia. rewrite IH by lia. f_equal. lia.
Qed.

Lemma EncodedSize_exact s :
  Forall byte_ok s → Z.of_nat (length (encode_bits s)) < 2 ^ 64 - 8 →
  EncodedSize t s = Done (Z.of_nat (length (huffman_bits s) / 8)).
Proof.
  intros Hs Hmax. unfold EncodedSize. rewrite count_bits_exact by (done || lia). step_done.
  unfold huffman_bits. rewrite length_app, padding_length. set (n := length (encode_bits s)) in *.
  rewrite Z.add_0_l. pose proof (Nat.mod_upper_bound n 8 ltac:(lia)) as Hn.
  replace (Z.of_nat n mod 8) with (Z.of_nat (n mod 8)) by by rewrite Nat2Z.inj_mod.
  f_equal. rewrite Nat2Z.inj_div. f_equal. destruct (Z.eqb_spec (Z.of_nat (n mod 8)) 0) as [E|E]; cbn [negb].
  - replace (n mod 8)%nat with 0%nat by lia. cbn. lia.
  - rewrite (Nat.mod_small (8 - n mod 8)) by lia. unfold u64. rewrite Z.mod_small; lia.
Qed.
End Code.
