(* ===== verification/HpackHuffmanDecode.v ===== *)
(** * Decoding Huffman strings: agreement with a decoder on bits

    DecodeString looks words up in tables of tables, a byte at a time; the reference takes
    the code that is at the start of the bits, one after the other. *)

From S2P Require Import Prelude Bits HpackConstants HpackOutputStream HpackInputStream HpackHuffmanTable HpackHuffmanCode.

(** ** The reference *)

Definition starts_with (w bs : list bool) : bool := bool_decide (take (length w) bs = w).

(** The id of the code at the start of the bits. *)
Definition read_symbol (t : HpackHuffmanTable) (bs : list bool) : option nat :=
  List.find (λ i, starts_with (codeword t i) bs) (seq 0 (length (code_by_id_ t))).

(** Bits that are no whole code may only be the rest of the last byte. *)
Fixpoint reference_decode (fuel : nat) (t : HpackHuffmanTable) (out_capacity : Z) (bs : list bool)
    (out : list Z) : bool * list Z :=
  match fuel with
  | O => (false, out)
  | S fuel =>
      match read_symbol t bs with
      | None => ((length bs <? 8)%nat, out)
      | Some i =>
          if Z.of_nat (length out) =? out_capacity then (false, out)
          else reference_decode fuel t out_capacity (drop (length (codeword t i)) bs)
                 (if (i <? 256)%nat then out ++ [Z.of_nat i] else out)
      end
  end.

Section Decode.
Context (t : HpackHuffmanTable) (Ht : good_table t).

Lemma starts_with_app w bs : starts_with w bs = true ↔ bs = w ++ drop (length w) bs.
Proof.
  unfold starts_with. rewrite bool_decide_eq_true. split; intros E.
  - rewrite <- E at 1. by rewrite take_drop.
  - rewrite E. by rewrite take_app_length.
Qed.

Lemma codeword_nonempty i : (i < length (code_by_id_ t))%nat → (0 < length (codeword t i))%nat.
Proof.
  intros Hi. destruct (symbol_exists t Ht i Hi) as (c & l & Hs & Hl & _).
  rewrite (codeword_length t _ _ _ Hs). lia.
Qed.

Lemma read_symbol_Some bs i :
  read_symbol t bs = Some i ↔ (i < length (code_by_id_ t))%nat ∧ bs = codeword t i ++ drop (length (codeword t i)) bs.
Proof.
  unfold read_symbol. split; intros E.
  - apply find_some in E as [Hin E]. apply in_seq in Hin. split; [lia|]. by apply starts_with_app.
  - destruct E as [Hi E]. destruct (find _ _) as [j|] eqn:Ej.
    + apply find_some in Ej as [Hin Ej]. apply in_seq in Hin. apply starts_with_app in Ej.
      destruct (symbol_exists t Ht i Hi) as (c & l & Hs & _).
      destruct (symbol_exists t Ht j ltac:(lia)) as (c' & l' & Hs' & _).
      f_equal. by apply (codeword_unique t Ht j i c' l' c l bs _ _ Hs' Hs Ej E).
    + apply (find_none _ _) with (x := i) in Ej; [|apply in_seq; lia].
      by rewrite (proj2 (starts_with_app _ _) E) in Ej.
Qed.

(** The window of a stream after [l] of its bits have been consumed. *)
Lemma window_shift bs l :
  (l <= length bs <= 32)%nat → u32 (Z.shiftl (window bs) (Z.of_nat l)) = window (drop l bs).
Proof.
  intros Hl. apply window_unique; [apply Z.mod_pos_bound; lia|].
  rewrite z_bits_u32. replace 32%nat with ((32 - l) + l)%nat at 1 by lia.
  rewrite z_bits_shifted, <- z_bits_drop, window_bits by lia.
  rewrite !take_app_ge by (rewrite ?length_drop; lia).
  rewrite drop_app_le, <- app_assoc by lia. f_equal. rewrite !take_replicate, length_drop.
  rewrite <- replicate_add. f_equal. lia.
Qed.

(** What the loop knows of the stream. *)
Definition peeked (ok : bool) (available w : Z) (s : HpackInputStream) : Prop :=
  good s ∧ 0 <= available <= 32 ∧ available <= Z.of_nat (length (unread s)) ∧
  w = window (take (Z.to_nat available) (unread s)) ∧
  (ok = false → available = 32 ∨ available = Z.of_nat (length (unread s))).

(** How many rounds are left, at most. *)
Definition rounds (ok : bool) (available : Z) (s : HpackInputStream) : Z :=
  3 * Z.of_nat (length (unread s)) - available + Z.b2z ok.

Lemma PeekBits_peeked s available :
  good s → 0 <= available <= 32 → available <= Z.of_nat (length (unread s)) →
  ∃ ok available' w, PeekBits available (window (take (Z.to_nat available) (unread s))) s
      = Done (ok, available', w) ∧ peeked ok available' w s ∧
    rounds ok available' s < rounds true available s.
Proof.
  intros Hs Ha Hl. unfold rounds.
  destruct (PeekBits_spec s available Hs Ha Hl) as [[H E]|(n & Hn & H32 & Hle & _ & E)]; rewrite E; do 3 eexists;
    (split; [done|]); (split; [split_and!; try done; lia|]); cbn [Z.b2z]; lia.
Qed.

Lemma symbol_at_lt i c l : symbol_at t i c l → (i < length (code_by_id_ t))%nat.
Proof. intros [E _]. by apply lookup_lt_Some in E. Qed.

(** At the end of the bits, no code is left just when the one that the tables find is too
    long. *)
Lemma no_symbol_left i c l bs :
  symbol_at t i c l → in_code c l (window bs) → Z.of_nat (length bs) < l → read_symbol t bs = None.
Proof.
  intros Hs Hin Hl. destruct (read_symbol t bs) as [j|] eqn:Ej; [|done]. exfalso.
  apply read_symbol_Some in Ej as [Hj Ej].
  destruct (symbol_exists t Ht j Hj) as (c' & l' & Hs' & _).
  assert (i = j) as <-.
  { apply (gt_disjoint t Ht i j c l c' l' (window bs)); [done..|]. by eapply in_code_window. }
  apply (f_equal length) in Ej. rewrite length_app, (codeword_length t _ _ _ Hs) in Ej.
  pose proof (gt_valid t Ht _ _ _ Hs) as (? & _). lia.
Qed.

Lemma symbol_read i c l bs n :
  symbol_at t i c l → in_code c l (window (take n bs)) → l <= Z.of_nat (length (take n bs)) →
  read_symbol t bs = Some i ∧ length (codeword t i) = Z.to_nat l.
Proof.
  intros Hs Hin Hl. pose proof (codeword_length t _ _ _ Hs) as El.
  pose proof (window_in_code t Ht _ _ _ _ Hs Hin Hl) as E. split; [|done].
  apply read_symbol_Some. split; [by eapply symbol_at_lt|]. apply starts_with_app.
  unfold starts_with. rewrite bool_decide_eq_true. apply (f_equal (take (length (codeword t i)))) in E.
  rewrite take_app_length, take_take, Nat.min_l in E; [done|]. rewrite length_take in Hl.
  pose proof (gt_valid t Ht _ _ _ Hs) as (? & _). lia.
Qed.

(** The rest of a byte has fewer than eight bits. *)
Lemma remainder_consumed s :
  good s → ∃ s', ConsumeByteRemainder s = Done s' ∧
    negb (HasMoreData s') = (length (unread s) <? 8)%nat.
Proof.
  intros Hs. pose proof (unread_bits_length s Hs) as Hl. assert (Hs' := Hs). destruct Hs' as (_ & Ho & _).
  destruct (ConsumeByteRemainder_spec s Hs) as (s' & E & Hg & Hu). exists s'. split; [done|].
  rewrite HasMoreData_unread, negb_involutive, Hu by done.
  assert ((- bit_offset_ s) mod 8 = Z.of_nat (length (unread s)) mod 8) as ->.
  { rewrite Hl. replace (8 * Z.of_nat (length (buffer_ s)) - bit_offset_ s)
      with (- bit_offset_ s + Z.of_nat (length (buffer_ s)) * 8) by lia. by rewrite Z.mod_add by lia. }
  apply eq_bool_prop_intro. rewrite bool_decide_spec, Is_true_true, Nat.ltb_lt.
  pose proof (Z.div_mod (Z.of_nat (length (unread s))) 8 ltac:(lia)).
  pose proof (Z.mod_pos_bound (Z.of_nat (length (unread s))) 8 ltac:(lia)).
  split; intros H'.
  - apply (f_equal length) in H'. rewrite length_drop in H'. cbn in H'. lia.
  - apply nil_length_inv. rewrite length_drop. lia.
Qed.

Lemma decode_symbols_reference fuel rfuel cap ok available w out s :
  peeked ok available w s → rounds ok available s < Z.of_nat fuel →
  (length (unread s) < rfuel)%nat →
  ∃ s', decode_symbols fuel t cap ok available w out s =
    let '(r, out') := reference_decode rfuel t cap (unread s) out in Done (r, out', s').
Proof.
  revert rfuel ok available w out s.
  induction fuel as [|fuel IH]; intros rfuel ok available w out s Hp Hr Hrf.
  { exfalso. destruct Hp as (_ & Ha & Hl & _). unfold rounds in Hr. destruct ok; cbn in Hr; lia. }
  destruct rfuel as [|rfuel]; [lia|]. destruct Hp as (Hs & Ha & Hl & Hw & Hok).
  destruct (gt_lookup t Ht w) as (i & c & l & e & Hsym & Hin & Hlook & El & Eid);
    [rewrite Hw; apply window_range|].
  pose proof (gt_valid t Ht _ _ _ Hsym) as (Hl32 & _).
  cbn [decode_symbols]. rewrite Hlook. step_done. rewrite El, Eid.
  destruct (Z.ltb_spec available l) as [Hlt|Hge].
  - destruct ok; cbn [negb].
    + destruct (PeekBits_peeked s available Hs Ha Hl) as (ok & av & w' & E & Hp' & Hrd).
      rewrite Hw, E. step_done. apply IH; [done|lia|done].
    + destruct (Hok eq_refl) as [?|Eav]; [lia|]. destruct (remainder_consumed s Hs) as (s' & -> & E).
      exists s'. step_done. rewrite E. cbn [reference_decode].
      rewrite take_ge in Hw by lia. rewrite (no_symbol_left i c l); [done|done|by rewrite <- Hw|lia].
  - rewrite Hw in Hin. destruct (symbol_read i c l (unread s) _ Hsym Hin) as [Eread Elen];
      [rewrite length_take; lia|].
    cbn [reference_decode]. rewrite Eread, Elen. rewrite (proj2 (Z.eqb_neq l 0)) by lia.
    destruct (Z.of_nat (length out) =? cap) eqn:Ecap; [by exists s|].
    destruct (ConsumeBits_spec s l Hs ltac:(lia)) as (s1 & -> & Hs1 & Hu1 & _). step_done.
    assert (length (unread s1) = length (unread s) - Z.to_nat l)%nat as Hlen1
      by by rewrite Hu1, length_drop.
    assert (u32 (Z.shiftl w l) = window (take (Z.to_nat (available - l)) (unread s1))) as ->.
    { rewrite Hw, <- (Z2Nat.id l) at 1 by lia.
      rewrite window_shift by (rewrite length_take; lia). rewrite Hu1, skipn_firstn_comm.
      do 2 f_equal. lia. }
    destruct (PeekBits_peeked s1 (available - l) Hs1) as (ok' & av & w' & -> & Hp' & Hrd); [lia|lia|].
    step_done. rewrite <- Hu1. 
    assert ((if Z.of_nat i <? 256 then out ++ [u8 (Z.of_nat i)] else out)
            = (if (i <? 256)%nat then out ++ [Z.of_nat i] else out)) as ->.
    { destruct (Nat.ltb_spec i 256), (Z.ltb_spec (Z.of_nat i) 256); try lia; [|done].
      by rewrite u8_small by lia. }
    apply IH; [done| |lia]. unfold rounds in *. rewrite Hlen1 in *. destruct ok; cbn [Z.b2z] in *; lia.
Qed.
Lemma DecodeString_bits cap s :
  good s → ∃ s', DecodeString t s cap =
    let '(ok, out) := reference_decode (S (length (unread s))) t cap (unread s) [] in
    Done (ok, out, s').
Proof.
  intros Hs. pose proof (unread_bits_length s Hs) as Hl. assert (Hs' := Hs). destruct Hs' as (_ & Ho & _).
  unfold DecodeString. destruct (PeekBits_peeked s 0 Hs) as (ok & av & w & E & Hp & Hr); [lia|lia|].
  change (take (Z.to_nat 0) (unread s)) with (@nil bool) in E. rewrite window_nil in E. rewrite E.
  step_done. apply decode_symbols_reference; [done| |lia].
  unfold rounds in *. cbn [Z.b2z] in Hr. lia.
Qed.

(** ** Decoding what was encoded *)

Lemma padding_no_symbol n : read_symbol t (padding t n) = None ∧ (length (padding t n) < 8)%nat.
Proof.
  pose proof (padding_length t n) as Hl. pose proof (Nat.mod_upper_bound (8 - n mod 8) 8 ltac:(lia)) as Hm.
  split; [|lia].
  destruct (gt_lookup t Ht (window (padding t n)) (window_range _)) as (i & c & l & e & Hs & Hin & _).
  apply (no_symbol_left i c l); [done..|]. rewrite Hl.
  apply (gt_pad t Ht _ i c l); [lia|done|done].
Qed.

Lemma reference_decode_encoded s n cap out fuel :
  Forall byte_ok s → Z.of_nat (length out + length s) <= cap →
  (length (encode_bits t s) < fuel)%nat →
  reference_decode fuel t cap (encode_bits t s ++ padding t n) out = (true, out ++ s).
Proof.
  intros Hs. revert out fuel. induction Hs as [|b s Hb Hs IH]; intros out fuel Hcap Hf.
  - destruct fuel; [lia|]. cbn [encode_bits mbind list_bind app reference_decode].
    destruct (padding_no_symbol n) as [-> Hl]. rewrite app_nil_r. by rewrite (proj2 (Nat.ltb_lt _ _)).
  - destruct fuel; [lia|]. unfold encode_bits in *. cbn [mbind list_bind] in *. fold (encode_bits t s) in *.
    pose proof (byte_symbol t Ht b Hb) as Hlt. pose proof (codeword_nonempty _ Hlt) as Hne.
    set (w := codeword t (Z.to_nat b)) in *. rewrite length_app in Hf.
    cbn [reference_decode]. rewrite <- app_assoc.
    assert (read_symbol t (w ++ encode_bits t s ++ padding t n) = Some (Z.to_nat b)) as ->.
    { apply read_symbol_Some. split; [done|]. by rewrite drop_app_length. }
    cbn [length] in Hcap. rewrite (proj2 (Z.eqb_neq _ cap)) by lia.
    fold w. rewrite drop_app_length. unfold byte_ok in Hb.
    rewrite (proj2 (Nat.ltb_lt (Z.to_nat b) 256)) by lia. rewrite Z2Nat.id by lia.
    rewrite IH by (rewrite ?length_app; cbn [length]; lia). by rewrite <- app_assoc.
Qed.

Lemma DecodeString_encoded max str cap bytes :
  Forall byte_ok str → Z.of_nat (length str) <= cap → Forall byte_ok bytes →
  bytes_bits bytes = huffman_bits t str →
  ∃ s', DecodeString t (new_HpackInputStream max bytes) cap = Done (true, str, s').
Proof.
  intros Hs Hcap Hb E. destruct (DecodeString_bits cap _ (new_good max bytes Hb)) as (s' & Ed).
  exists s'. rewrite Ed, unread_new, E. unfold huffman_bits at 2.
  rewrite reference_decode_encoded by (done || (unfold huffman_bits; rewrite ?length_app; cbn; lia)). done.
Qed.

Lemma reference_decode_capacity fuel cap bs out :
  0 <= cap → Z.of_nat (length out) <= cap → Forall byte_ok out →
  let '(_, out') := reference_decode fuel t cap bs out in
  Z.of_nat (length out') <= cap ∧ Forall byte_ok out'.
Proof.
  intros Hc. revert bs out. induction fuel as [|fuel IH]; intros bs out Hl Hb; cbn [reference_decode]; [done|].
  destruct (read_symbol t bs) as [i|]; [|done]. destruct (Z.eqb_spec (Z.of_nat (length out)) cap); [done|].
  destruct (Nat.ltb_spec i 256); [|by apply IH]. apply IH.
  - rewrite length_app. cbn [length]. lia.
  - apply Forall_app. split; [done|]. apply Forall_singleton. unfold byte_ok. lia.
Qed.
End Decode.

(** [C16] Decoding by tables agrees with decoding code by code: on any bytes, from any bit
    of the first one, DecodeString returns, with no check failed, what the decoder on bits
    returns, and gives out no more bytes than it may. *)
Theorem DecodeString_reference pad failed t s cap :
  ObtainHpackHuffmanTable pad failed = Done t → good s → 0 <= cap →
  let '(ok, out) := reference_decode (S (length (unread s))) t cap (unread s) [] in
  (∃ s', DecodeString t s cap = Done (ok, out, s')) ∧ Z.of_nat (length out) <= cap.
Proof.
  intros Ht Hs Hc. destruct (shared_table_good pad failed) as (t' & Ht' & Hgood).
  rewrite Ht in Ht'. injection Ht' as <-.
  destruct (DecodeString_bits t Hgood cap s Hs) as (s' & E).
  pose proof (reference_decode_capacity t (S (length (unread s))) cap (unread s) [] Hc Hc ltac:(constructor)) as Hcap.
  destruct (reference_decode _ _ _ _ _) as [ok out]. split; [by exists s'|apply Hcap].
Qed.

(** [C17] What EncodeString writes, DecodeString reads back, for every string of bytes that
    fits into the capacity, and EncodedSize is the number of bytes in between. *)
Theorem Huffman_round_trip pad failed t str cap max :
  ObtainHpackHuffmanTable pad failed = Done t → Forall byte_ok str →
  Z.of_nat (length str) <= cap → cap < 2 ^ 56 →
  ∃ out s', EncodeString t str new_HpackOutputStream = Done out ∧
    EncodedSize t str = Done (Z.of_nat (length (HpackOutputStream.buffer_ out))) ∧
    DecodeString t (new_HpackInputStream max (HpackOutputStream.buffer_ out)) cap = Done (true, str, s').
Proof.
  intros Ht Hstr Hcap Hmax. destruct (shared_table_good pad failed) as (t' & Ht' & Hgood).
  rewrite Ht in Ht'. injection Ht' as <-.
  destruct (EncodeString_written t Hgood str new_HpackOutputStream [] written_new eq_refl Hstr)
    as (out & E & Hw & H0).
  pose proof (written_aligned _ _ Hw H0) as Eb. cbn [app] in Eb.
  destruct (DecodeString_encoded t Hgood max str cap (HpackOutputStream.buffer_ out)) as (s' & Ed);
    [done|done|apply Hw|done|].
  exists out, s'. split_and!; [done| |done].
  pose proof (encode_bits_length t Hgood str Hstr) as Hlen.
  rewrite (EncodedSize_exact t Hgood str Hstr) by lia.
  by rewrite <- Eb, bytes_bits_length, Nat.mul_comm, Nat.div_mul.
Qed.

Lemma DecodeString_reference_witness :
  ∃ t, ObtainHpackHuffmanTable 0 0 = Done t ∧
    let s := new_HpackInputStream 16384 [60; 255; 18] in
    let '(ok, out) := reference_decode (S (length (unread s))) t 2 (unread s) [] in
    (∃ s', DecodeString t s 2 = Done (ok, out, s')) ∧ Z.of_nat (length out) <= 2.
Proof.
  destruct (shared_table_good 0 0) as (t & Ht & _). exists t. split; [exact Ht|].
  apply (DecodeString_reference 0 0 t (new_HpackInputStream 16384 [60; 255; 18]) 2 Ht); [|lia].
  apply new_good. repeat constructor; unfold byte_ok; lia.
Defined.

Lemma Huffman_round_trip_witness :
  ∃ t out s', ObtainHpackHuffmanTable 0 0 = Done t ∧
    EncodeString t [119; 119; 119; 0; 255] new_HpackOutputStream = Done out ∧
    EncodedSize t [119; 119; 119; 0; 255] = Done (Z.of_nat (length (HpackOutputStream.buffer_ out))) ∧
    DecodeString t (new_HpackInputStream 5 (HpackOutputStream.buffer_ out)) 5 = Done (true, [119; 119; 119; 0; 255], s').
Proof.
  destruct (shared_table_good 0 0) as (t & Ht & _).
  assert (Forall byte_ok [119; 119; 119; 0; 255]) as Hb by (repeat constructor; unfold byte_ok; lia).
  assert (Z.of_nat (length [119; 119; 119; 0; 255]) <= 5) as Hl by (cbn; lia).
  assert (5 < 2 ^ 56) as Hc by lia.
  destruct (Huffman_round_trip 0 0 t [119; 119; 119; 0; 255] 5 5 Ht Hb Hl Hc) as (out & s' & H).
  exists t, out, s'. exact (conj Ht H).
Defined.
