(* ===== verification/HpackHeaderTable.v ===== *)
(** * net/spdy/hpack: entries, the static table and the header table

    hpack_entry.{h,cc}, hpack_static_table.{h,cc} and hpack_header_table.{h,cc}.  A pointer
    to an entry of a table is the entry itself, which its insertion index identifies. *)

From S2P Require Import Prelude HpackConstants.

(** ** Entries *)

Inductive EntryType : Type := LOOKUP | DYNAMIC | STATIC.
#[export] Instance EntryType_eq_dec : EqDecision EntryType.
Proof. solve_decision. Defined.

Record HpackEntry : Type := mkHpackEntry {
  name_ : list Z;
  value_ : list Z;
  insertion_index_ : Z;
  type_ : EntryType
}.
#[export] Instance HpackEntry_eq_dec : EqDecision HpackEntry.
Proof. solve_decision. Defined.

Definition kSizeOverhead : Z := 32.

Definition new_HpackEntry (name value : list Z) (is_static : bool) (insertion_index : Z) : HpackEntry :=
  mkHpackEntry name value insertion_index (if is_static then STATIC else DYNAMIC).
Definition lookup_HpackEntry (name value : list Z) : HpackEntry := mkHpackEntry name value 0 LOOKUP.

Definition IsStatic (e : HpackEntry) : bool := bool_decide (type_ e = STATIC).
Definition IsLookup (e : HpackEntry) : bool := bool_decide (type_ e = LOOKUP).

Definition Size (name value : list Z) : Z :=
  u64 (Z.of_nat (length name) + Z.of_nat (length value) + kSizeOverhead).
Definition entry_size (e : HpackEntry) : Z := Size (name_ e) (value_ e).

(** ** The order of the index *)

(** [StringPiece::compare]: by bytes, then by length. *)
Fixpoint compare_pieces (a b : list Z) : comparison :=
  match a, b with
  | [], [] => Eq
  | [], _ => Lt
  | _, [] => Gt
  | x :: a, y :: b => match x ?= y with Eq => compare_pieces a b | c => c end
  end.

Definition order_index (e : HpackEntry) : Z := if IsLookup e then 0 else 1 + insertion_index_ e.

Definition EntryComparator (lhs rhs : HpackEntry) : outcome bool :=
  match compare_pieces (name_ lhs) (name_ rhs) with
  | Lt => Done true
  | Gt => Done false
  | Eq =>
      match compare_pieces (value_ lhs) (value_ rhs) with
      | Lt => Done true
      | Gt => Done false
      | Eq =>
          DCHECK (bool_decide (lhs = rhs) || negb (order_index lhs =? order_index rhs)) ;;
          Done (order_index lhs <? order_index rhs)
      end
  end.

(** [std::set] with this order: its elements in order. *)
Definition OrderedEntrySet : Type := list HpackEntry.

(** The elements before the first one that is not less than the key, and the others. *)
Fixpoint set_lower_bound (key : HpackEntry) (set : OrderedEntrySet) :
    outcome (OrderedEntrySet * OrderedEntrySet) :=
  match set with
  | [] => Done ([], [])
  | e :: rest =>
      less ← EntryComparator e key;
      if less : bool then
        '(before, from) ← set_lower_bound key rest;
        Done (e :: before, from)
      else Done ([], e :: rest)
  end.

(** The result is that of [insert(...).second]. *)
Definition set_insert (e : HpackEntry) (set : OrderedEntrySet) : outcome (bool * OrderedEntrySet) :=
  '(before, from) ← set_lower_bound e set;
  match from with
  | [] => Done (true, before ++ [e])
  | x :: _ =>
      less ← EntryComparator e x;
      if less : bool then Done (true, before ++ e :: from) else Done (false, set)
  end.

(** The result is the number of elements erased. *)
Definition set_erase (e : HpackEntry) (set : OrderedEntrySet) : outcome (Z * OrderedEntrySet) :=
  '(before, from) ← set_lower_bound e set;
  match from with
  | [] => Done (0, set)
  | x :: rest =>
      less ← EntryComparator e x;
      if less : bool then Done (0, set) else Done (1, before ++ rest)
  end.

(** ** The static table *)

Record HpackStaticTable : Type := mkHpackStaticTable {
  st_entries : list HpackEntry;
  st_index : OrderedEntrySet
}.
#[export] Instance eta_HpackStaticTable : Eta HpackStaticTable := λ t,
  mkHpackStaticTable (st_entries t) (st_index t).
Definition new_HpackStaticTable : HpackStaticTable := {| st_entries := []; st_index := [] |}.

Definition static_IsInitialized (t : HpackStaticTable) : bool := negb (bool_decide (st_entries t = [])).

Fixpoint add_static (entries : list HpackStaticEntry) (total_insertions : Z) (t : HpackStaticTable) :
    outcome HpackStaticTable :=
  match entries with
  | [] => Done t
  | it :: entries =>
      let e := new_HpackEntry (entry_name it) (entry_value it) true total_insertions in
      '(inserted, index) ← set_insert e (st_index t);
      DCHECK inserted ;;
      add_static entries (total_insertions + 1)
        (t <| st_entries := st_entries t ++ [e] |> <| st_index := index |>)
  end.
Definition static_Initialize (static_entry_table : list HpackStaticEntry) (t : HpackStaticTable) :
    outcome HpackStaticTable :=
  DCHECK (negb (static_IsInitialized t)) ;;
  add_static static_entry_table 0 t.

Definition ObtainHpackStaticTable : outcome HpackStaticTable :=
  t ← static_Initialize HpackStaticTableVector new_HpackStaticTable;
  DCHECK (static_IsInitialized t) ;;
  Done t.

(** ** The header table *)

Record HpackHeaderTable : Type := mkHpackHeaderTable {
  static_entries_ : list HpackEntry;
  dynamic_entries_ : list HpackEntry;
  static_index_ : OrderedEntrySet;
  dynamic_index_ : OrderedEntrySet;
  settings_size_bound_ : Z;
  size_ : Z;
  max_size_ : Z;
  total_insertions_ : Z
}.
#[export] Instance eta_HpackHeaderTable : Eta HpackHeaderTable := λ t,
  mkHpackHeaderTable (static_entries_ t) (dynamic_entries_ t) (static_index_ t) (dynamic_index_ t)
    (settings_size_bound_ t) (size_ t) (max_size_ t) (total_insertions_ t).

Definition new_HpackHeaderTable (st : HpackStaticTable) : HpackHeaderTable :=
  {| static_entries_ := st_entries st;
     dynamic_entries_ := [];
     static_index_ := st_index st;
     dynamic_index_ := [];
     settings_size_bound_ := kDefaultHeaderTableSizeSetting;
     size_ := 0;
     max_size_ := kDefaultHeaderTableSizeSetting;
     total_insertions_ := Z.of_nat (length (st_entries st)) |}.

(** [None] is NULL. *)
Definition GetByIndex (index : Z) (t : HpackHeaderTable) : option HpackEntry :=
  if index =? 0 then None
  else
    let index := index - 1 in
    let statics := Z.of_nat (length (static_entries_ t)) in
    if index <? statics then static_entries_ t !! Z.to_nat index
    else
      let index := index - statics in
      if index <? Z.of_nat (length (dynamic_entries_ t)) then dynamic_entries_ t !! Z.to_nat index
      else None.

(** The first element that is not less than the query, if it passes the test. *)
Definition find_in (query : HpackEntry) (test : HpackEntry → bool) (set : OrderedEntrySet) :
    outcome (option HpackEntry) :=
  '(_, from) ← set_lower_bound query set;
  match from with
  | e :: _ => Done (if test e then Some e else None)
  | [] => Done None
  end.
Definition find_in_both (query : HpackEntry) (test : HpackEntry → bool) (t : HpackHeaderTable) :
    outcome (option HpackEntry) :=
  found ← find_in query test (static_index_ t);
  match found with
  | Some e => Done (Some e)
  | None => find_in query test (dynamic_index_ t)
  end.

Definition GetByName (name : list Z) (t : HpackHeaderTable) : outcome (option HpackEntry) :=
  find_in_both (lookup_HpackEntry name []) (λ e, bool_decide (name_ e = name)) t.

Definition GetByNameAndValue (name value : list Z) (t : HpackHeaderTable) : outcome (option HpackEntry) :=
  find_in_both (lookup_HpackEntry name value)
    (λ e, bool_decide (name_ e = name) && bool_decide (value_ e = value)) t.

Definition IndexOf (entry : HpackEntry) (t : HpackHeaderTable) : Z :=
  if IsLookup entry then 0
  else if IsStatic entry then 1 + insertion_index_ entry
  else u64 (total_insertions_ t - insertion_index_ entry + Z.of_nat (length (static_entries_ t))).

(** ** Eviction *)

(** The loop goes from the oldest entry on. *)
Fixpoint count_to_reclaim (oldest_first : list HpackEntry) (reclaim_size count : Z) : Z :=
  match oldest_first with
  | [] => count
  | e :: rest =>
      if reclaim_size =? 0 then count
      else count_to_reclaim rest (reclaim_size - Z.min reclaim_size (entry_size e)) (count + 1)
  end.
Definition EvictionCountToReclaim (reclaim_size : Z) (t : HpackHeaderTable) : Z :=
  count_to_reclaim (reverse (dynamic_entries_ t)) reclaim_size 0.

Definition EvictionCountForEntry (name value : list Z) (t : HpackHeaderTable) : Z :=
  let available_size := u64 (max_size_ t - size_ t) in
  let entry_size := Size name value in
  if entry_size <=? available_size then 0
  else EvictionCountToReclaim (entry_size - available_size) t.

(** The iterators as positions in [dynamic_entries_]. *)
Definition EvictionSet (name value : list Z) (t : HpackHeaderTable) : Z * Z :=
  let eviction_count := EvictionCountForEntry name value t in
  (Z.of_nat (length (dynamic_entries_ t)) - eviction_count, Z.of_nat (length (dynamic_entries_ t))).

Fixpoint Evict (count : nat) (t : HpackHeaderTable) : outcome HpackHeaderTable :=
  match count with
  | O => Done t
  | S count =>
      match list.last (dynamic_entries_ t) with
      | None => DcheckFailed
      | Some entry =>
          '(erased, index) ← set_erase entry (dynamic_index_ t);
          DCHECK (erased =? 1) ;;
          Evict count (t <| size_ := u64 (size_ t - entry_size entry) |>
                         <| dynamic_index_ := index |>
                         <| dynamic_entries_ := removelast (dynamic_entries_ t) |>)
      end
  end.

Definition SetMaxSize (max_size : Z) (t : HpackHeaderTable) : outcome HpackHeaderTable :=
  DCHECK (max_size <=? settings_size_bound_ t) ;;
  let t := t <| max_size_ := max_size |> in
  if max_size_ t <? size_ t then
    t ← Evict (Z.to_nat (EvictionCountToReclaim (size_ t - max_size_ t) t)) t;
    DCHECK (size_ t <=? max_size_ t) ;;
    Done t
  else Done t.

Definition SetSettingsHeaderTableSize (settings_size : Z) (t : HpackHeaderTable) :
    outcome HpackHeaderTable :=
  let t := t <| settings_size_bound_ := settings_size |> in
  if settings_size_bound_ t <? max_size_ t then SetMaxSize (settings_size_bound_ t) t else Done t.

(** The result is the new entry, [None] for NULL. *)
Definition TryAddEntry (name value : list Z) (t : HpackHeaderTable) :
    outcome (option HpackEntry * HpackHeaderTable) :=
  t ← Evict (Z.to_nat (EvictionCountForEntry name value t)) t;
  let size := Size name value in
  if u64 (max_size_ t - size_ t) <? size then
    DCHECK (bool_decide (dynamic_entries_ t = [])) ;;
    DCHECK (size_ t =? 0) ;;
    Done (None, t)
  else
    let entry := new_HpackEntry name value false (total_insertions_ t) in
    '(inserted, index) ← set_insert entry (dynamic_index_ t);
    DCHECK inserted ;;
    Done (Some entry,
          t <| dynamic_entries_ := entry :: dynamic_entries_ t |>
            <| dynamic_index_ := index |>
            <| size_ := u64 (size_ t + size) |>
            <| total_insertions_ := u64 (total_insertions_ t + 1) |>).
