(* ===== verification/HpackTableInvariant.v ===== *)
(** * The header table of HPACK: invariant and specification

    The table is a sequence of name and value pairs, newest first, of a bounded size; its
    index and its counters agree with it, and the operations never fail a check. *)

From S2P Require Import Prelude HpackConstants HpackHeaderTable.
From stdpp Require Import sorting list.

#[local] Open Scope Z_scope.

(** ** The order *)

Lemma compare_pieces_refl a : compare_pieces a a = Eq.
Proof. induction a; cbn; [done|]. by rewrite Z.compare_refl. Qed.

Lemma compare_pieces_eq a b : compare_pieces a b = Eq ↔ a = b.
Proof.
  split; [|intros ->; apply compare_pieces_refl].
  revert b. induction a as [|x a IH]; intros [|y b]; cbn; try done.
  destruct (Z.compare_spec x y); try done. intros E. by rewrite (IH _ E), H.
Qed.

Lemma compare_pieces_antisym a b : compare_pieces b a = CompOpp (compare_pieces a b).
Proof.
  revert b. induction a as [|x a IH]; intros [|y b]; cbn; try done.
  rewrite (Z.compare_antisym x y). destruct (x ?= y); cbn; auto.
Qed.

Lemma compare_pieces_trans a b c :
  compare_pieces a b = Lt → compare_pieces b c = Lt → compare_pieces a c = Lt.
Proof.
  revert b c. induction a as [|x a IH]; intros [|y b] [|z c]; cbn; try done.
  destruct (Z.compare_spec x y) as [->|Hxy|Hxy]; try done.
  - destruct (Z.compare_spec y z) as [->|Hyz|Hyz]; try done. apply IH.
  - intros _. destruct (Z.compare_spec y z) as [->|Hyz|Hyz]; try done; intros _;
      by rewrite (proj2 (Z.compare_lt_iff _ _)) by lia.
Qed.

(** By name, value and position. *)
Definition entry_lt (a b : HpackEntry) : Prop :=
  compare_pieces (name_ a) (name_ b) = Lt ∨
  name_ a = name_ b ∧
    (compare_pieces (value_ a) (value_ b) = Lt ∨
     value_ a = value_ b ∧ order_index a < order_index b).

#[export] Instance entry_lt_trans : Transitive entry_lt.
Proof.
  intros a b c. unfold entry_lt.
  intros [H|[E [H|[E' H]]]] [K|[F [K|[F' K]]]];
    rewrite ?E, ?F, ?E', ?F' in *; try (left; by eauto using compare_pieces_trans);
    right; (split; [done|]); try (left; by eauto using compare_pieces_trans);
    right; (split; [congruence|lia]).
Qed.

#[export] Instance entry_lt_irreflexive : Irreflexive entry_lt.
Proof.
  intros a [H|[_ [H|[_ H]]]]; [|  |lia]; by rewrite compare_pieces_refl in H.
Qed.

(** Entries that the comparator tells apart. *)
Definition comparable (a b : HpackEntry) : Prop := a = b ∨ order_index a ≠ order_index b.

Lemma EntryComparator_spec a b :
  comparable a b → ∃ r, EntryComparator a b = Done r ∧ (r = true ↔ entry_lt a b).
Proof.
  intros Hc. unfold EntryComparator, entry_lt.
  destruct (compare_pieces (name_ a) (name_ b)) eqn:En.
  - apply compare_pieces_eq in En. rewrite En.
    destruct (compare_pieces (value_ a) (value_ b)) eqn:Ev.
    + apply compare_pieces_eq in Ev. rewrite Ev.
      replace (bool_decide (a = b) || negb (order_index a =? order_index b)) with true.
      2:{ symmetry. apply orb_true_iff. destruct Hc as [Hc|Hc]; [left; by apply bool_decide_eq_true|].
          right. by rewrite negb_true_iff, Z.eqb_neq. }
      rewrite DCHECK_true_bind. eexists. split; [done|]. rewrite Z.ltb_lt. naive_solver.
    + eexists. split; [done|]. naive_solver.
    + eexists. split; [done|]. split; [done|]. intros [?|[_ [?|[E _]]]]; [done..|].
      by rewrite E, compare_pieces_refl in Ev.
  - eexists. split; [done|]. naive_solver.
  - eexists. split; [done|]. split; [done|]. intros [?|[E _]]; [done|].
    by rewrite E, compare_pieces_refl in En.
Qed.

Lemma not_lt_comparable a b :
  comparable a b → ¬ entry_lt a b → a = b ∨ entry_lt b a.
Proof.
  intros Hc Hn. destruct Hc as [->|Hne]; [by left|right].
  unfold entry_lt in *. rewrite (compare_pieces_antisym (name_ a)), (compare_pieces_antisym (value_ a)).
  destruct (compare_pieces (name_ a) (name_ b)) eqn:En; cbn; [|naive_solver|naive_solver].
  apply compare_pieces_eq in En. right. split; [done|].
  destruct (compare_pieces (value_ a) (value_ b)) eqn:Ev; cbn; [|naive_solver|naive_solver].
  apply compare_pieces_eq in Ev. right. split; [done|].
  destruct (Z.lt_trichotomy (order_index a) (order_index b)) as [?|[?|?]]; [|done|done]. naive_solver.
Qed.

(** ** The ordered set *)

Lemma set_lower_bound_spec key set :
  StronglySorted entry_lt set → Forall (λ x, comparable x key) set →
  ∃ before from, set_lower_bound key set = Done (before, from) ∧ set = before ++ from ∧
    Forall (λ x, entry_lt x key) before ∧ Forall (λ x, ¬ entry_lt x key) from.
Proof.
  induction 1 as [|e rest Hs IH Hall]; intros Hc; cbn [set_lower_bound].
  { exists [], []. done. }
  apply Forall_cons_1 in Hc as [He Hc].
  destruct (EntryComparator_spec e key He) as (r & -> & Hr). step_done. destruct r.
  - destruct (IH Hc) as (before & from & -> & -> & Hb & Hf). step_done.
    exists (e :: before), from. split_and!; [done|done| |done]. constructor; [by apply Hr|done].
  - exists [], (e :: rest). split_and!; [done|done|constructor|].
    assert (¬ entry_lt e key) as Hne by naive_solver. constructor; [done|].
    eapply Forall_impl; [exact Hall|]. intros x Hx Hk. apply Hne. by transitivity x.
Qed.

Lemma set_insert_spec e set :
  StronglySorted entry_lt set → Forall (λ x, order_index x ≠ order_index e) set →
  ∃ set', set_insert e set = Done (true, set') ∧ StronglySorted entry_lt set' ∧ set' ≡ₚ e :: set.
Proof.
  intros Hs Hi. unfold set_insert.
  destruct (set_lower_bound_spec e set Hs) as (before & from & -> & -> & Hb & Hf).
  { eapply Forall_impl; [exact Hi|]. by right. }
  step_done. apply StronglySorted_app in Hs as (Hbf & Hsb & Hsf). apply Forall_app in Hi as [_ Hi].
  assert (Forall (entry_lt e) from) as Hlt.
  { apply Forall_forall. intros x Hx. rewrite Forall_forall in Hi, Hf.
    destruct (not_lt_comparable x e) as [->|?]; [right; by apply Hi|by apply Hf| |done].
    by destruct (Hi _ Hx). }
  assert (StronglySorted entry_lt (before ++ e :: from)) as Hs'.
  { apply StronglySorted_app. split_and!; [|done|by constructor].
    intros x y Hx Hy. apply elem_of_cons in Hy as [->|Hy]; [|by apply Hbf].
    rewrite Forall_forall in Hb. by apply Hb. }
  destruct from as [|x from].
  - exists (before ++ [e]). split_and!; [done|done|]. rewrite app_nil_r. symmetry. apply Permutation_cons_append.
  - apply Forall_cons_1 in Hi as [Hx _].
    destruct (EntryComparator_spec e x) as (r & -> & Hr); [right; congruence|]. step_done.
    apply Forall_cons_1 in Hlt as [Hex _]. rewrite (proj2 Hr Hex).
    exists (before ++ e :: x :: from). split_and!; [done|done|]. symmetry. apply Permutation_middle.
Qed.

Lemma set_erase_spec e set :
  StronglySorted entry_lt set → e ∈ set → (∀ x, x ∈ set → comparable x e) →
  ∃ set', set_erase e set = Done (1, set') ∧ StronglySorted entry_lt set' ∧ e :: set' ≡ₚ set.
Proof.
  intros Hs Hin Hc. unfold set_erase.
  destruct (set_lower_bound_spec e set Hs) as (before & from & -> & -> & Hb & Hf).
  { by apply Forall_forall. }
  step_done. apply StronglySorted_app in Hs as (Hbf & Hsb & Hsf).
  assert (e ∈ from) as Hfrom.
  { apply elem_of_app in Hin as [Hin|Hin]; [|done]. rewrite Forall_forall in Hb.
    exfalso. by apply (irreflexivity entry_lt e), Hb. }
  destruct from as [|x from]; [by apply elem_of_nil in Hfrom|].
  assert (x = e) as ->.
  { apply elem_of_cons in Hfrom as [->|Hfrom]; [done|].
    apply StronglySorted_inv in Hsf as [_ Hx]. rewrite Forall_forall in Hx.
    apply Forall_cons_1 in Hf as [Hne _]. by destruct Hne; apply Hx. }
  destruct (EntryComparator_spec e e) as (r & -> & Hr); [by left|]. step_done.
  destruct r; [by destruct (irreflexivity entry_lt e); apply Hr|].
  exists (before ++ from). split_and!; [done| |apply Permutation_middle].
  apply StronglySorted_app. split_and!; [|done|by apply StronglySorted_inv in Hsf as [? _]].
  intros y z Hy Hz. apply Hbf; [done|by right].
Qed.

(** A query finds the least element that is not less. *)
Lemma find_in_spec query test set :
  StronglySorted entry_lt set → Forall (λ x, order_index x ≠ order_index query) set →
  (∀ x y, entry_lt query x → entry_lt x y → test y = true → test x = true) →
  (∀ x, x ∈ set → test x = true → ¬ entry_lt x query) →
  ∃ r, find_in query test set = Done r ∧
    match r with
    | Some e => e ∈ set ∧ test e = true
    | None => ∀ x, x ∈ set → test x = false
    end.
Proof.
  intros Hs Hi Hconvex Hge. unfold find_in.
  destruct (set_lower_bound_spec query set Hs) as (before & from & -> & -> & Hb & Hf).
  { eapply Forall_impl; [exact Hi|]. by right. }
  step_done. rewrite Forall_forall in Hb.
  assert (∀ x, x ∈ before → test x = false) as Hbefore.
  { intros x Hx. destruct (test x) eqn:E; [|done]. destruct (Hge x); [|done|by apply Hb].
    apply elem_of_app. by left. }
  destruct from as [|e from].
  - exists None. split; [done|]. intros x Hx. rewrite app_nil_r in Hx. auto.
  - apply StronglySorted_app in Hs as (_ & _ & Hsf). apply StronglySorted_inv in Hsf as [_ He].
    apply Forall_app in Hi as [_ Hi]. apply Forall_cons_1 in Hi as [Hi _]. apply Forall_cons_1 in Hf as [Hne _].
    exists (if test e then Some e else None). split; [done|]. destruct (test e) eqn:Et.
    + split; [|done]. apply elem_of_app. right. left.
    + intros x [Hx|Hx]%elem_of_app; [auto|]. apply elem_of_cons in Hx as [->|Hx]; [done|].
      destruct (test x) eqn:Ex; [|done]. rewrite Forall_forall in He.
      destruct (not_lt_comparable e query) as [->|Hlt]; [by right|done|done|].
      rewrite (Hconvex e x Hlt (He x Hx) Ex) in Et. done.
Qed.

(** ** The static table *)

Record static_ok (st : HpackStaticTable) : Prop := {
  so_entries : ∀ i e, st_entries st !! i = Some e →
    type_ e = STATIC ∧ insertion_index_ e = Z.of_nat i;
  so_sorted : StronglySorted entry_lt (st_index st);
  so_perm : st_index st ≡ₚ st_entries st
}.

Lemma add_static_spec entries t :
  static_ok t →
  ∃ t', add_static entries (Z.of_nat (length (st_entries t))) t = Done t' ∧ static_ok t' ∧
    length (st_entries t') = (length (st_entries t) + length entries)%nat ∧
    st_entries t' = st_entries t ++
      imap (λ i it, new_HpackEntry (entry_name it) (entry_value it) true
                      (Z.of_nat (length (st_entries t) + i))) entries.
Proof.
  revert t. induction entries as [|it entries IH]; intros t [Hent Hs Hp]; cbn [add_static].
  { exists t. split_and!; [done|done|cbn; lia|by rewrite app_nil_r]. }
  set (e := new_HpackEntry _ _ _ _).
  destruct (set_insert_spec e (st_index t) Hs) as (index & -> & Hs' & Hp').
  { apply Forall_forall. intros x Hx. rewrite Hp in Hx. apply list_elem_of_lookup in Hx as [i Hx].
    pose proof (lookup_lt_Some _ _ _ Hx). apply Hent in Hx as [Ht Hi].
    unfold order_index, IsLookup, e, new_HpackEntry. cbn [type_ insertion_index_]. rewrite Ht, Hi.
    rewrite !bool_decide_eq_false_2 by done. lia. }
  step_done.
  set (t1 := t <| st_entries := st_entries t ++ [e] |> <| st_index := index |>).
  assert (length (st_entries t1) = S (length (st_entries t))) as El
    by (unfold t1; cbn [st_entries set_field]; rewrite length_app; cbn; lia).
  assert (static_ok t1) as H1.
  { constructor; unfold t1; cbn [st_entries st_index set_field].
    - intros i x Hx. apply lookup_app_Some in Hx as [Hx|[Hl Hx]]; [by apply Hent|].
      apply list_lookup_singleton_Some in Hx as [Hi <-]. split; [done|]. cbn. lia.
    - done.
    - rewrite Hp', Hp. apply Permutation_cons_append. }
  destruct (IH t1 H1) as (t' & E & Hok & Hlen & Happ). rewrite El in E, Hlen.
  replace (Z.of_nat (length (st_entries t)) + 1) with (Z.of_nat (S (length (st_entries t)))) by lia.
  exists t'. split_and!; [done|done|cbn [length]; lia|]. rewrite Happ. unfold t1 at 1. cbn [st_entries set_field].
  rewrite <- app_assoc. f_equal. cbn [imap app]. f_equal.
  - unfold e. f_equal. lia.
  - apply imap_ext. intros i x _. rewrite El. unfold compose. do 2 f_equal. lia.
Qed.

Definition is_static_table (st : HpackStaticTable) : Prop := ObtainHpackStaticTable = Done st.

Lemma static_table_ok :
  ∃ st, is_static_table st ∧ static_ok st ∧ length (st_entries st) = 61%nat.
Proof.
  destruct (add_static_spec HpackStaticTableVector new_HpackStaticTable) as (st & E & Hok & Hl & Happ).
  { constructor; [done|constructor|done]. }
  exists st. split_and!; [|done|done]. unfold is_static_table, ObtainHpackStaticTable, static_Initialize.
  change (negb (static_IsInitialized new_HpackStaticTable)) with true. rewrite DCHECK_true_bind.
  change (add_static HpackStaticTableVector 0 new_HpackStaticTable) with
    (add_static HpackStaticTableVector (Z.of_nat (length (st_entries new_HpackStaticTable))) new_HpackStaticTable).
  rewrite E. step_done. unfold static_IsInitialized. rewrite bool_decide_eq_false_2; [done|].
  intros Hn. by rewrite Hn in Hl.
Qed.

Lemma is_static_table_ok st : is_static_table st → static_ok st ∧ length (st_entries st) = 61%nat.
Proof.
  intros H. destruct static_table_ok as (st' & H' & ? & ?). unfold is_static_table in *.
  rewrite H in H'. injection H' as <-. split; assumption.
Qed.

(** ** The specification: a sequence of pairs of a bounded size *)

Notation header := (list Z * list Z)%type (only parsing).

Definition pair_size (p : header) : Z := Z.of_nat (length p.1) + Z.of_nat (length p.2) + 32.
Definition total (l : list header) : Z := foldr (λ p s, pair_size p + s) 0 l.

(** As many of the newest ones as fit. *)
Fixpoint fit (max : Z) (l : list header) : list header :=
  match l with
  | [] => []
  | p :: l => if pair_size p <=? max then p :: fit (max - pair_size p) l else []
  end.

(** Adding a header evicts old ones; one that is too large for the table empties it. *)
Definition add_header (max : Z) (p : header) (l : list header) : list header :=
  if pair_size p <=? max then p :: fit (max - pair_size p) l else [].

Lemma pair_size_pos p : 32 <= pair_size p.
Proof. unfold pair_size. lia. Qed.

Lemma total_cons p l : total (p :: l) = pair_size p + total l.
Proof. done. Qed.

Lemma total_size_nonneg l : 0 <= total l.
Proof. induction l as [|p l IH]; [done|]. rewrite total_cons. pose proof (pair_size_pos p). lia. Qed.

Lemma total_size_app l k : total (l ++ k) = total l + total k.
Proof. induction l as [|p l IH]; [done|]. cbn [app]. rewrite !total_cons. lia. Qed.

Lemma fit_all max l : total l <= max → fit max l = l.
Proof.
  revert max. induction l as [|p l IH]; intros max H; cbn [fit]; [done|]. rewrite total_cons in H.
  pose proof (total_size_nonneg l). rewrite (proj2 (Z.leb_le (pair_size p) max)) by lia. by rewrite IH by lia.
Qed.

Lemma fit_stop max l k : max < total l → fit max (l ++ k) = fit max l.
Proof.
  revert max. induction l as [|p l IH]; intros max H; cbn [fit app].
  - change (total []) with 0 in H. destruct k as [|p k]; cbn [fit]; [done|]. pose proof (pair_size_pos p).
    by rewrite (proj2 (Z.leb_gt (pair_size p) max)) by lia.
  - rewrite total_cons in H. destruct (pair_size p <=? max); [|done]. by rewrite IH by lia.
Qed.

Lemma fit_snoc max l p : total l <= max < total l + pair_size p → fit max (l ++ [p]) = l.
Proof.
  revert max. induction l as [|q l IH]; intros max H; cbn [fit app].
  - change (total []) with 0 in H. by rewrite (proj2 (Z.leb_gt (pair_size p) max)) by lia.
  - rewrite total_cons in H. pose proof (total_size_nonneg l).
    rewrite (proj2 (Z.leb_le (pair_size q) max)) by lia. by rewrite IH by lia.
Qed.

Lemma fit_total max l : 0 <= max → total (fit max l) <= max.
Proof.
  revert max. induction l as [|p l IH]; intros max H; cbn [fit]; [done|].
  destruct (Z.leb_spec (pair_size p) max); [|done]. rewrite total_cons.
  specialize (IH (max - pair_size p)). lia.
Qed.

(** ** The invariant *)

Definition as_header (e : HpackEntry) : header := (name_ e, value_ e).
Definition small (p : header) : Prop := pair_size p < 2 ^ 64.
Definition dynamic (t : HpackHeaderTable) : list header := List.map as_header (dynamic_entries_ t).

(** All but the bound on the size. *)
Record table_core (st : HpackStaticTable) (t : HpackHeaderTable) : Prop := {
  tc_statics : static_entries_ t = st_entries st;
  tc_static_index : static_index_ t = st_index st;
  tc_entries : ∀ i e, dynamic_entries_ t !! i = Some e →
    type_ e = DYNAMIC ∧ insertion_index_ e = total_insertions_ t - 1 - Z.of_nat i ∧ small (as_header e);
  tc_insertions : Z.of_nat (length (st_entries st) + length (dynamic_entries_ t)) <= total_insertions_ t;
  tc_sorted : StronglySorted entry_lt (dynamic_index_ t);
  tc_perm : dynamic_index_ t ≡ₚ dynamic_entries_ t;
  tc_size : size_ t = total (dynamic t)
}.
Record table_inv (st : HpackStaticTable) (t : HpackHeaderTable) : Prop := {
  ti_core : table_core st t;
  ti_max : size_ t <= max_size_ t;
  ti_bound : max_size_ t <= settings_size_bound_ t
}.

Lemma new_table_inv st : static_ok st → table_inv st (new_HpackHeaderTable st).
Proof. intros Hst. constructor; [constructor|..]; cbn; try done; [lia|constructor]. Qed.

Lemma entry_size_small e : small (as_header e) → entry_size e = pair_size (as_header e).
Proof.
  intros Hs. unfold entry_size, HpackHeaderTable.Size, u64, kSizeOverhead. apply Z.mod_small.
  pose proof (pair_size_pos (as_header e)). unfold small, pair_size, as_header in *. cbn in *. lia.
Qed.

Lemma Size_small name value : small (name, value) → HpackHeaderTable.Size name value = pair_size (name, value).
Proof. intros Hs. apply (entry_size_small (lookup_HpackEntry name value)). done. Qed.

Section Table.
Context (st : HpackStaticTable) (Hst : static_ok st).

Lemma dynamic_order_index t i e :
  table_core st t → dynamic_entries_ t !! i = Some e → order_index e = total_insertions_ t - Z.of_nat i.
Proof.
  intros Ht He. apply (tc_entries _ _ Ht) in He as (Hty & Hi & _).
  unfold order_index, IsLookup. rewrite Hty, Hi, bool_decide_eq_false_2 by done. lia.
Qed.

Lemma dynamic_comparable t x y :
  table_core st t → x ∈ dynamic_entries_ t → y ∈ dynamic_entries_ t → comparable x y.
Proof.
  intros Ht [i Hi]%list_elem_of_lookup [j Hj]%list_elem_of_lookup.
  destruct (decide (i = j)) as [->|Hne]; [left; congruence|right].
  rewrite (dynamic_order_index t i x), (dynamic_order_index t j y) by done. lia.
Qed.

Lemma dynamic_app t es e :
  dynamic_entries_ t = es ++ [e] → dynamic t = List.map as_header es ++ [as_header e].
Proof. intros E. unfold dynamic. by rewrite E, map_app. Qed.

(** Evicting the oldest entry. *)
Lemma Evict_one t es e :
  table_core st t → dynamic_entries_ t = es ++ [e] → size_ t < 2 ^ 64 →
  ∃ index, set_erase e (dynamic_index_ t) = Done (1, index) ∧
    let t' := t <| size_ := u64 (size_ t - entry_size e) |> <| dynamic_index_ := index |>
                <| dynamic_entries_ := removelast (dynamic_entries_ t) |> in
    table_core st t' ∧ dynamic_entries_ t' = es ∧ size_ t' < 2 ^ 64.
Proof.
  intros Ht E Hsz. assert (e ∈ dynamic_entries_ t) as Hin by (rewrite E; apply elem_of_app; right; left).
  destruct (set_erase_spec e (dynamic_index_ t)) as (index & Ee & Hs & Hp).
  { apply (tc_sorted _ _ Ht). }
  { by rewrite (tc_perm _ _ Ht). }
  { intros x Hx. rewrite (tc_perm _ _ Ht) in Hx. by apply (dynamic_comparable t). }
  exists index. split; [done|]. cbv zeta.
  assert (removelast (dynamic_entries_ t) = es) as El by (rewrite E; apply removelast_last).
  assert (small (as_header e)) as Hsm.
  { apply list_elem_of_lookup in Hin as [i Hi]. by apply (tc_entries _ _ Ht) in Hi as (_ & _ & ?). }
  assert (u64 (size_ t - entry_size e) = total (List.map as_header es)) as Esize.
  { rewrite entry_size_small by done. pose proof (tc_size _ _ Ht) as Hd.
    rewrite (dynamic_app t es e E), total_size_app, total_cons in Hd. change (total []) with 0 in Hd.
    unfold u64. pose proof (total_size_nonneg (List.map as_header es)). pose proof (pair_size_pos (as_header e)).
    rewrite Z.mod_small; lia. }
  split_and!; [|done|].
  - constructor; cbn [set_field static_entries_ static_index_ dynamic_entries_ dynamic_index_ size_ total_insertions_];
      rewrite ?El; try apply Ht; [|  |done| |].
    + intros i x Hx. apply (tc_entries _ _ Ht). rewrite E. by apply lookup_app_l_Some.
    + pose proof (tc_insertions _ _ Ht) as Hi. rewrite E, length_app in Hi. lia.
    + apply (Permutation_cons_inv (a := e)). rewrite Hp, (tc_perm _ _ Ht), E. symmetry.
      apply Permutation_cons_append.
    + by rewrite Esize.
  - cbn [set_field size_]. apply Z.mod_pos_bound. lia.
Qed.

Lemma Evict_spec t k :
  table_core st t → size_ t < 2 ^ 64 → (k <= length (dynamic_entries_ t))%nat →
  ∃ t', Evict k t = Done t' ∧ table_core st t' ∧
    dynamic_entries_ t' = take (length (dynamic_entries_ t) - k) (dynamic_entries_ t) ∧
    max_size_ t' = max_size_ t ∧ settings_size_bound_ t' = settings_size_bound_ t ∧
    total_insertions_ t' = total_insertions_ t.
Proof.
  revert t. induction k as [|k IH]; intros t Ht Hsz Hk; cbn [Evict].
  { exists t. rewrite take_ge by lia. done. }
  destruct (dynamic_entries_ t) as [|e es _] eqn:E using rev_ind; [cbn in Hk; lia|].
  rewrite last_snoc. destruct (Evict_one t es e Ht E Hsz) as (index & Ee & Ht' & E' & Hsz').
  rewrite length_app in Hk. cbn [length] in Hk.
  rewrite Ee. step_done. rewrite <- E. set (t1 := set_field _ _ _) in *.
  destruct (IH t1 Ht' Hsz') as (t' & Et & Hc & Ed & Em & Eb & Ei); [rewrite E'; lia|].
  exists t'. split; [done|]. split_and!; [done| |by rewrite Em|by rewrite Eb|by rewrite Ei].
  rewrite Ed, E', E, length_app. cbn [length]. rewrite take_app_le by lia. f_equal. lia.
Qed.

(** ** How much is evicted *)

Lemma count_to_reclaim_add l r c : count_to_reclaim l r c = c + count_to_reclaim l r 0.
Proof.
  revert r c. induction l as [|e l IH]; intros r c; cbn [count_to_reclaim]; [lia|].
  destruct (r =? 0); [lia|]. rewrite (IH _ (c + 1)), (IH _ (0 + 1)). lia.
Qed.

(** The newest entries that fit are kept. *)
Lemma count_to_reclaim_fit es max :
  Forall (λ e, small (as_header e)) es → max < total (List.map as_header es) →
  ∃ k, count_to_reclaim (reverse es) (total (List.map as_header es) - max) 0 = Z.of_nat k ∧
    (k <= length es)%nat ∧ List.map as_header (take (length es - k) es) = fit max (List.map as_header es).
Proof.
  induction es as [|e es IH] using rev_ind; intros Hs Hm.
  { exists 0%nat. done. }
  apply Forall_app in Hs as [Hs He]. apply Forall_inv in He.
  rewrite map_app, total_size_app in *. cbn [List.map] in *. rewrite total_cons in *. change (total []) with 0 in *.
  rewrite reverse_snoc, length_app. cbn [count_to_reclaim length].
  rewrite (proj2 (Z.eqb_neq _ 0)) by lia. rewrite entry_size_small, count_to_reclaim_add by done.
  pose proof (pair_size_pos (as_header e)).
  destruct (Z.lt_ge_cases max (total (List.map as_header es))) as [Hlt|Hge].
  - destruct (IH Hs Hlt) as (k & Ek & Hk & Hf). exists (S k).
    replace (total (List.map as_header es) + (pair_size (as_header e) + 0) - max
             - Z.min (total (List.map as_header es) + (pair_size (as_header e) + 0) - max) (pair_size (as_header e)))
      with (total (List.map as_header es) - max) by lia.
    rewrite Ek. split_and!; [lia|lia|]. rewrite take_app_le by lia. rewrite fit_stop by done.
    rewrite <- Hf. do 2 f_equal. lia.
  - exists 1%nat. rewrite Z.min_l, Z.sub_diag by lia. split_and!; [|lia|].
    + destruct (reverse es); cbn; lia.
    + rewrite take_app_le, take_ge by lia. symmetry. apply fit_snoc. lia.
Qed.

Lemma all_small t : table_core st t → Forall (λ e, small (as_header e)) (dynamic_entries_ t).
Proof.
  intros Ht. apply Forall_lookup. intros i e Hi. by apply (tc_entries _ _ Ht) in Hi as (_ & _ & ?).
Qed.

Lemma Evict_to t max :
  table_core st t → size_ t < 2 ^ 64 → max < size_ t →
  ∃ t', Evict (Z.to_nat (EvictionCountToReclaim (size_ t - max) t)) t = Done t' ∧ table_core st t' ∧
    dynamic t' = fit max (dynamic t) ∧
    max_size_ t' = max_size_ t ∧ settings_size_bound_ t' = settings_size_bound_ t ∧
    total_insertions_ t' = total_insertions_ t.
Proof.
  intros Ht Hsz Hm. rewrite (tc_size _ _ Ht) in Hm |- *. unfold EvictionCountToReclaim.
  destruct (count_to_reclaim_fit _ max (all_small t Ht) Hm) as (k & Ek & Hk & Hf).
  unfold dynamic at 1. rewrite Ek, Nat2Z.id.
  destruct (Evict_spec t k Ht Hsz Hk) as (t' & E & Ht' & Ed & ? & ? & ?).
  exists t'. split_and!; try done. unfold dynamic. by rewrite Ed.
Qed.

(** ** The operations *)

Lemma core_bounds t settings max :
  table_core st t → table_core st (t <| settings_size_bound_ := settings |> <| max_size_ := max |>).
Proof. intros [E1 E2 E3 E4 E5 E6 E7]. by constructor. Qed.

Lemma SetMaxSize_core t max :
  table_core st t → size_ t < 2 ^ 64 → 0 <= max <= settings_size_bound_ t →
  ∃ t', SetMaxSize max t = Done t' ∧ table_inv st t' ∧ dynamic t' = fit max (dynamic t) ∧
    max_size_ t' = max ∧ settings_size_bound_ t' = settings_size_bound_ t ∧
    total_insertions_ t' = total_insertions_ t.
Proof.
  intros Hc Hsz Hmax. unfold SetMaxSize. rewrite (proj2 (Z.leb_le max _)) by lia.
  rewrite DCHECK_true_bind. cbv zeta. set (t1 := t <| max_size_ := max |>).
  assert (table_core st t1) as Hc1 by apply (core_bounds t (settings_size_bound_ t) max Hc).
  change (max_size_ t1) with max.
  destruct (Z.ltb_spec max (size_ t1)) as [Hlt|Hge].
  - destruct (Evict_to t1 max Hc1 Hsz Hlt) as (t' & -> & Hc' & Ed & Em & Eb & Ei). step_done.
    pose proof (fit_total max (dynamic t1) ltac:(lia)) as Hf. rewrite <- Ed in Hf.
    pose proof (tc_size _ _ Hc') as Es. change (max_size_ t1) with max in Em.
    rewrite (proj2 (Z.leb_le (size_ t') _)) by lia. rewrite DCHECK_true_bind.
    exists t'. split_and!; try done. constructor; [done|lia|]. rewrite Em, Eb. cbn. lia.
  - exists t1. split_and!; try done. { constructor; [done|exact Hge|apply Hmax]. }
    symmetry. apply fit_all. by rewrite <- (tc_size _ _ Hc1).
Qed.

Lemma SetSettingsHeaderTableSize_spec t settings :
  table_inv st t → size_ t < 2 ^ 64 → 0 <= settings →
  ∃ t', SetSettingsHeaderTableSize settings t = Done t' ∧ table_inv st t' ∧
    dynamic t' = fit (Z.min settings (max_size_ t)) (dynamic t) ∧
    max_size_ t' = Z.min settings (max_size_ t) ∧ settings_size_bound_ t' = settings ∧
    total_insertions_ t' = total_insertions_ t.
Proof.
  intros [Hc Hm Hb] Hsz Hs. unfold SetSettingsHeaderTableSize. cbv zeta.
  set (t1 := t <| settings_size_bound_ := settings |>).
  assert (table_core st t1) as Hc1 by apply (core_bounds t settings (max_size_ t) Hc).
  change (settings_size_bound_ t1) with settings. change (max_size_ t1) with (max_size_ t).
  destruct (Z.ltb_spec settings (max_size_ t)).
  - rewrite Z.min_l by lia.
    apply (SetMaxSize_core t1 settings); [done|done|change (settings_size_bound_ t1) with settings; lia].
  - rewrite Z.min_r by lia. exists t1. split_and!; try done.
    symmetry. apply fit_all. change (total (dynamic t) <= max_size_ t). pose proof (tc_size _ _ Hc). lia.
Qed.

(** Room for a new entry. *)
Lemma EvictionCountForEntry_spec t p :
  table_inv st t → max_size_ t < 2 ^ 64 → small p →
  ∃ t', Evict (Z.to_nat (EvictionCountForEntry p.1 p.2 t)) t = Done t' ∧ table_core st t' ∧
    dynamic t' = fit (max_size_ t - pair_size p) (dynamic t) ∧
    max_size_ t' = max_size_ t ∧ settings_size_bound_ t' = settings_size_bound_ t ∧
    total_insertions_ t' = total_insertions_ t.
Proof.
  intros [Hc Hm Hb] Hsz Hp. unfold EvictionCountForEntry. cbv zeta. destruct p as [name value]. cbn [fst snd].
  pose proof (total_size_nonneg (dynamic t)) as Ht. pose proof (tc_size _ _ Hc) as Es.
  rewrite Size_small by done. unfold u64. rewrite Z.mod_small by lia.
  destruct (Z.leb_spec (pair_size (name, value)) (max_size_ t - size_ t)).
  - exists t. split_and!; try done. symmetry. apply fit_all. lia.
  - replace (pair_size (name, value) - (max_size_ t - size_ t))
      with (size_ t - (max_size_ t - pair_size (name, value))) by lia.
    apply Evict_to; [done|lia|lia].
Qed.

Lemma new_entry_core t name value index :
  table_core st t → small (name, value) → 0 <= total_insertions_ t < 2 ^ 64 - 1 →
  total (dynamic t) + pair_size (name, value) < 2 ^ 64 →
  let entry := new_HpackEntry name value false (total_insertions_ t) in
  StronglySorted entry_lt index → index ≡ₚ entry :: dynamic_index_ t →
  table_core st (t <| dynamic_entries_ := entry :: dynamic_entries_ t |> <| dynamic_index_ := index |>
                   <| size_ := u64 (size_ t + pair_size (name, value)) |>
                   <| total_insertions_ := u64 (total_insertions_ t + 1) |>).
Proof.
  intros Hc Hp Hi Ht entry Hs Hperm. unfold u64. pose proof (tc_size _ _ Hc) as Es.
  pose proof (total_size_nonneg (dynamic t)). pose proof (pair_size_pos (name, value)).
  rewrite !Z.mod_small by lia.
  constructor; cbn [set_field static_entries_ static_index_ dynamic_entries_ dynamic_index_ size_ total_insertions_];
    try apply Hc; [| |done| |].
  - intros [|i] e He; cbn in He.
    + injection He as <-. split_and!; [done| |done]. cbn. lia.
    + apply (tc_entries _ _ Hc) in He as (? & -> & ?). split_and!; [done|lia|done].
  - pose proof (tc_insertions _ _ Hc). cbn [length]. lia.
  - by rewrite Hperm, (tc_perm _ _ Hc).
  - transitivity (total ((name, value) :: dynamic t)); [rewrite total_cons; lia|done].
Qed.

Lemma TryAddEntry_spec t p :
  table_inv st t → max_size_ t < 2 ^ 64 → small p → total_insertions_ t < 2 ^ 64 - 1 →
  ∃ r t', TryAddEntry p.1 p.2 t = Done (r, t') ∧ table_inv st t' ∧
    dynamic t' = add_header (max_size_ t) p (dynamic t) ∧
    (r = None ↔ max_size_ t < pair_size p) ∧
    max_size_ t' = max_size_ t ∧ settings_size_bound_ t' = settings_size_bound_ t ∧
    0 <= total_insertions_ t' - total_insertions_ t <= 1.
Proof.
  intros Ht Hsz Hp Hi. destruct (EvictionCountForEntry_spec t p Ht Hsz Hp) as (t1 & E & Hc1 & Ed & Em & Eb & Ei).
  destruct Ht as [Hc Hm Hb]. pose proof (total_size_nonneg (dynamic t)) as Hn. pose proof (tc_size _ _ Hc) as Es.
  destruct p as [name value]. cbn [fst snd] in *. set (p := (name, value)) in *.
  unfold TryAddEntry. rewrite E. step_done. rewrite Size_small by done. fold p. rewrite Em.
  pose proof (total_size_nonneg (dynamic t1)) as Hn1. pose proof (tc_size _ _ Hc1) as Es1.
  pose proof (pair_size_pos p) as Hpos. pose proof (tc_insertions _ _ Hc1) as Hins.
  unfold add_header. destruct (Z.leb_spec (pair_size p) (max_size_ t)) as [Hle|Hgt].
  - pose proof (fit_total (max_size_ t - pair_size p) (dynamic t) ltac:(lia)) as Hf. rewrite <- Ed in Hf.
    unfold u64 at 1. rewrite Z.mod_small by lia. rewrite (proj2 (Z.ltb_ge _ (pair_size p))) by lia.
    destruct (set_insert_spec (new_HpackEntry name value false (total_insertions_ t1)) (dynamic_index_ t1))
      as (index & -> & Hs & Hperm); [apply (tc_sorted _ _ Hc1)| |].
    { apply Forall_forall. intros x Hx. rewrite (tc_perm _ _ Hc1) in Hx.
      apply list_elem_of_lookup in Hx as [i Hx]. rewrite (dynamic_order_index _ _ _ Hc1 Hx).
      unfold order_index, IsLookup. cbn [type_ insertion_index_ new_HpackEntry].
      rewrite bool_decide_eq_false_2 by done. lia. }
    step_done.
    pose proof (new_entry_core t1 name value index Hc1 Hp) as Hc2. fold p in Hc2.
    do 2 eexists. split; [done|]. split; [|split_and!].
    + constructor; [apply Hc2; [lia|lia|done|done]| |];
        cbn [set_field size_ max_size_ settings_size_bound_]; [|lia].
      unfold u64. rewrite Z.mod_small; lia.
    + unfold dynamic at 1. cbn [set_field dynamic_entries_ List.map]. f_equal. exact Ed.
    + split; [done|lia].
    + done.
    + done.
    + cbn [set_field total_insertions_]. unfold u64. rewrite Z.mod_small; lia.
    + cbn [set_field total_insertions_]. unfold u64. rewrite Z.mod_small; lia.
  - assert (dynamic t1 = []) as E0.
    { rewrite Ed. destruct (dynamic t) as [|q l]; [done|]. cbn [fit]. pose proof (pair_size_pos q).
      by rewrite (proj2 (Z.leb_gt (pair_size q) _)) by lia. }
    rewrite E0 in Es1. change (total []) with 0 in Es1. rewrite Es1.
    pose proof (total_size_nonneg (dynamic t)). unfold u64. rewrite Z.sub_0_r, Z.mod_small by lia.
    rewrite (proj2 (Z.ltb_lt (max_size_ t) _)) by done.
    assert (dynamic_entries_ t1 = []) as E1 by (by apply map_eq_nil in E0).
    rewrite bool_decide_eq_true_2 by done. rewrite DCHECK_true_bind. change (0 =? 0) with true. rewrite DCHECK_true_bind.
    do 2 eexists. split; [done|]. split_and!; [|done|done|done|done|lia|lia].
    constructor; [done|lia|lia].
Qed.

(** ** Looking up *)

Lemma compare_pieces_nil v : compare_pieces v [] ≠ Lt.
Proof. by destruct v. Qed.

Lemma compare_pieces_between a b : compare_pieces a b = Lt → compare_pieces b a = Lt → False.
Proof. rewrite (compare_pieces_antisym a b). by destruct (compare_pieces a b). Qed.

(** Between a query and an entry of its name, all entries have the name. *)
Lemma name_between query x y :
  entry_lt query x → entry_lt x y → name_ y = name_ query → name_ x = name_ query.
Proof.
  intros [H|[E _]] [K|[F _]] Ey; [|congruence..]. rewrite Ey in K.
  by destruct (compare_pieces_between _ _ H K).
Qed.

Lemma value_between query x y :
  entry_lt query x → entry_lt x y → name_ y = name_ query → value_ y = value_ query →
  value_ x = value_ query.
Proof.
  intros H K Ey Ev. pose proof (name_between _ _ _ H K Ey) as Ex.
  destruct H as [H|[_ H]]; [by rewrite Ex, compare_pieces_refl in H|].
  destruct K as [K|[_ K]]; [by rewrite Ex, Ey, compare_pieces_refl in K|].
  destruct H as [H|[E _]], K as [K|[F _]]; [|congruence..]. rewrite Ev in K.
  by destruct (compare_pieces_between _ _ H K).
Qed.

Definition entries (t : HpackHeaderTable) : list HpackEntry := st_entries st ++ dynamic_entries_ t.

(** An entry of the table is found at its index. *)
Lemma GetByIndex_IndexOf t e :
  table_core st t → total_insertions_ t + Z.of_nat (length (st_entries st)) < 2 ^ 64 → e ∈ entries t →
  GetByIndex (IndexOf e t) t = Some e ∧
  1 <= IndexOf e t <= Z.of_nat (length (entries t)).
Proof.
  intros Ht Hmax He. pose proof (tc_insertions _ _ Ht) as Hins. unfold entries in *. rewrite length_app in *.
  unfold GetByIndex, IndexOf, IsLookup, IsStatic.
  rewrite (tc_statics _ _ Ht).
  apply elem_of_app in He as [[i He]%list_elem_of_lookup|[i He]%list_elem_of_lookup];
    pose proof (lookup_lt_Some _ _ _ He) as Hlt.
  - destruct (so_entries _ Hst _ _ He) as [Hty Hi]. rewrite Hty, Hi.
    rewrite bool_decide_eq_false_2, bool_decide_eq_true_2 by done. split; [|lia].
    rewrite (proj2 (Z.eqb_neq _ 0)) by lia. rewrite (proj2 (Z.ltb_lt _ _)) by lia.
    rewrite <- He. f_equal. lia.
  - destruct (tc_entries _ _ Ht _ _ He) as (Hty & Hi & _). rewrite Hty, Hi.
    rewrite !bool_decide_eq_false_2 by done.
    replace (total_insertions_ t - (total_insertions_ t - 1 - Z.of_nat i) + Z.of_nat (length (st_entries st)))
      with (1 + Z.of_nat i + Z.of_nat (length (st_entries st))) by lia.
    unfold u64. rewrite Z.mod_small by lia. split; [|lia].
    rewrite (proj2 (Z.eqb_neq _ 0)) by lia. rewrite (proj2 (Z.ltb_ge _ _)) by lia.
    rewrite (proj2 (Z.ltb_lt _ _)) by lia. rewrite <- He. f_equal. lia.
Qed.

Lemma entry_order t e : table_core st t → e ∈ entries t → 0 < order_index e.
Proof.
  intros Ht He. apply elem_of_app in He as [[i He]%list_elem_of_lookup|[i He]%list_elem_of_lookup].
  - destruct (so_entries _ Hst _ _ He) as [Hty Hi]. unfold order_index, IsLookup.
    rewrite Hty, Hi, bool_decide_eq_false_2 by done. lia.
  - rewrite (dynamic_order_index _ _ _ Ht He). pose proof (lookup_lt_Some _ _ _ He).
    pose proof (tc_insertions _ _ Ht). lia.
Qed.

Lemma find_in_both_spec t name value test :
  table_core st t →
  (∀ x y, entry_lt (lookup_HpackEntry name value) x → entry_lt x y → test y = true → test x = true) →
  (∀ x, 0 < order_index x → test x = true → ¬ entry_lt x (lookup_HpackEntry name value)) →
  ∃ r, find_in_both (lookup_HpackEntry name value) test t = Done r ∧
    match r with
    | Some e => e ∈ entries t ∧ test e = true
    | None => ∀ x, x ∈ entries t → test x = false
    end.
Proof.
  intros Ht Hconvex Hge. unfold find_in_both.
  rewrite (tc_static_index _ _ Ht).
  assert (∀ x, x ∈ st_index st → x ∈ entries t) as Hin1.
  { intros x Hx. rewrite (so_perm _ Hst) in Hx. apply elem_of_app. by left. }
  assert (∀ x, x ∈ dynamic_index_ t → x ∈ entries t) as Hin2.
  { intros x Hx. rewrite (tc_perm _ _ Ht) in Hx. apply elem_of_app. by right. }
  assert (∀ x, x ∈ entries t → order_index x ≠ order_index (lookup_HpackEntry name value)) as Hne.
  { intros x Hx. pose proof (entry_order t x Ht Hx). change (order_index (lookup_HpackEntry name value)) with 0. lia. }
  destruct (find_in_spec (lookup_HpackEntry name value) test (st_index st)) as (r1 & -> & H1);
    [apply Hst|by apply Forall_forall; auto|done|eauto using entry_order|].
  step_done. destruct r1 as [e|].
  { exists (Some e). destruct H1. split_and!; auto. }
  destruct (find_in_spec (lookup_HpackEntry name value) test (dynamic_index_ t)) as (r2 & -> & H2);
    [apply Ht|by apply Forall_forall; auto|done|eauto using entry_order|].
  exists r2. split; [done|]. destruct r2 as [e|]; [destruct H2; split; auto|].
  intros x [Hx|Hx]%elem_of_app.
  - apply H1. by rewrite (so_perm _ Hst).
  - apply H2. by rewrite (tc_perm _ _ Ht).
Qed.

Lemma GetByName_spec t name :
  table_core st t →
  ∃ r, GetByName name t = Done r ∧
    match r with
    | Some e => e ∈ entries t ∧ name_ e = name
    | None => ∀ x, x ∈ entries t → name_ x ≠ name
    end.
Proof.
  intros Ht. destruct (find_in_both_spec t name [] (λ e, bool_decide (name_ e = name)) Ht)
    as (r & E & H).
  - intros x y Hx Hy Ey. apply bool_decide_eq_true in Ey. apply bool_decide_eq_true.
    exact (name_between _ _ _ Hx Hy Ey).
  - intros x Hx Ex [H|[_ [H|[_ H]]]].
    + apply bool_decide_eq_true in Ex. cbn in H. by rewrite Ex, compare_pieces_refl in H.
    + by apply compare_pieces_nil in H.
    + change (order_index (lookup_HpackEntry name [])) with 0 in H. lia.
  - exists r. split; [done|]. destruct r as [e|].
    + by rewrite bool_decide_eq_true in H.
    + intros x Hx. specialize (H x Hx). by apply bool_decide_eq_false in H.
Qed.

Lemma GetByNameAndValue_spec t name value :
  table_core st t →
  ∃ r, GetByNameAndValue name value t = Done r ∧
    match r with
    | Some e => e ∈ entries t ∧ as_header e = (name, value)
    | None => ∀ x, x ∈ entries t → as_header x ≠ (name, value)
    end.
Proof.
  intros Ht.
  destruct (find_in_both_spec t name value (λ e, bool_decide (name_ e = name) && bool_decide (value_ e = value)) Ht)
    as (r & E & H).
  - intros x y Hx Hy [En Ev]%andb_true_iff. apply bool_decide_eq_true in En, Ev.
    rewrite andb_true_iff, !bool_decide_eq_true.
    split; [exact (name_between _ _ _ Hx Hy En)|exact (value_between _ _ _ Hx Hy En Ev)].
  - intros x Hx [En Ev]%andb_true_iff. apply bool_decide_eq_true in En, Ev.
    intros [H|[_ [H|[_ H]]]]; cbn in H.
    + by rewrite En, compare_pieces_refl in H.
    + by rewrite Ev, compare_pieces_refl in H.
    + change (order_index (lookup_HpackEntry name value)) with 0 in H. lia.
  - exists r. split; [done|]. unfold as_header. destruct r as [e|].
    + rewrite andb_true_iff, !bool_decide_eq_true in H. destruct H as [? [-> ->]]. done.
    + intros x Hx [= En Ev]. specialize (H x Hx). by rewrite !bool_decide_eq_true_2 in H.
Qed.
End Table.
