(* ===== verification/HpackTableSpec.v ===== *)
(** * The header table refines a bounded sequence of headers

    The abstract table of RFC 7541 is a sequence of headers, newest first, with a maximum
    size and a bound on it; any sequence of operations on the table has the effect that it
    has on the sequence, and the look-ups answer for the sequence. *)

From S2P Require Import Prelude HpackConstants HpackHeaderTable HpackTableInvariant.

(** ** The abstract table *)

Record abstract_table : Type := mkAbstract {
  headers : list header;
  max : Z;
  bound : Z
}.

Inductive table_op : Type :=
  | Add (name value : list Z)
  | MaxSize (n : Z)
  | SettingsSize (n : Z).

Definition abstract_new : abstract_table :=
  mkAbstract [] kDefaultHeaderTableSizeSetting kDefaultHeaderTableSizeSetting.

Definition abstract_step (op : table_op) (a : abstract_table) : abstract_table :=
  match op with
  | Add name value => mkAbstract (add_header (max a) (name, value) (headers a)) (max a) (bound a)
  | MaxSize n => mkAbstract (fit n (headers a)) n (bound a)
  | SettingsSize n => mkAbstract (fit (Z.min n (max a)) (headers a)) (Z.min n (max a)) n
  end.

(** What the callers guarantee: the sizes are in range. *)
Definition op_ok (a : abstract_table) (op : table_op) : bool :=
  match op with
  | Add name value => pair_size (name, value) <? 2 ^ 64
  | MaxSize n => (0 <=? n) && (n <=? bound a)
  | SettingsSize n => (0 <=? n) && (n <? 2 ^ 64)
  end.

Fixpoint ops_ok (ops : list table_op) (a : abstract_table) : bool :=
  match ops with
  | [] => true
  | op :: ops => op_ok a op && ops_ok ops (abstract_step op a)
  end.
Definition abstract_steps (ops : list table_op) (a : abstract_table) : abstract_table :=
  foldl (λ a op, abstract_step op a) a ops.

(** ** The table *)

Definition table_step (op : table_op) (t : HpackHeaderTable) : outcome HpackHeaderTable :=
  match op with
  | Add name value => '(_, t) ← TryAddEntry name value t; Done t
  | MaxSize n => SetMaxSize n t
  | SettingsSize n => SetSettingsHeaderTableSize n t
  end.

Fixpoint table_steps (ops : list table_op) (t : HpackHeaderTable) : outcome HpackHeaderTable :=
  match ops with
  | [] => Done t
  | op :: ops => t ← table_step op t; table_steps ops t
  end.

Section Refinement.
Context (st : HpackStaticTable) (Hst : static_ok st).

(** [b] is how many headers may still be added. *)
Record represents (b : nat) (t : HpackHeaderTable) (a : abstract_table) : Prop := {
  re_inv : table_inv st t;
  re_headers : dynamic t = headers a;
  re_max : max_size_ t = max a;
  re_bound : settings_size_bound_ t = bound a;
  re_range : 0 <= max a ∧ bound a < 2 ^ 64;
  re_room : total_insertions_ t + Z.of_nat b < 2 ^ 63
}.

Lemma represents_new b :
  Z.of_nat (length (st_entries st) + b) < 2 ^ 63 → represents b (new_HpackHeaderTable st) abstract_new.
Proof.
  intros Hb. constructor; [by apply new_table_inv|done|done|done|done|].
  cbn [new_HpackHeaderTable total_insertions_]. lia.
Qed.

Lemma step_refines b op t a :
  represents (S b) t a → op_ok a op = true →
  ∃ t', table_step op t = Done t' ∧ represents b t' (abstract_step op a).
Proof.
  intros [Hinv Hh Hm Hb Hr Hi] Hok. assert (Hinv' := Hinv). destruct Hinv' as [Hc Hs Hmb].
  destruct op as [name value|n|n]; cbn [op_ok table_step abstract_step] in *.
  - apply Z.ltb_lt in Hok.
    destruct (TryAddEntry_spec st t (name, value) Hinv) as (r & t' & E & Hinv' & Hd & _ & Em & Eb & Ei); [lia|done|lia|].
    cbn [fst snd] in E. rewrite E. step_done. exists t'. split; [done|]. constructor; try done.
    + by rewrite Hd, Hm, Hh.
    + cbn; congruence.
    + cbn; congruence.
    + lia.
  - apply andb_true_iff in Hok as [H1%Z.leb_le H2%Z.leb_le].
    destruct (SetMaxSize_core st t n Hc) as (t' & E & Hinv' & Hd & Em & Eb & Ei); [lia|lia|].
    exists t'. split; [done|]. constructor; cbn; [done|by rewrite Hd, Hh|done|congruence|lia|lia].
  - apply andb_true_iff in Hok as [H1%Z.leb_le H2%Z.ltb_lt].
    destruct (SetSettingsHeaderTableSize_spec st t n Hinv) as (t' & E & Hinv' & Hd & Em & Eb & Ei); [lia|lia|].
    rewrite Hm in *. exists t'. split; [done|]. constructor; cbn; [done|by rewrite Hd, Hh|done|done|lia|lia].
Qed.

Lemma steps_refine b ops t a :
  represents (b + length ops) t a → ops_ok ops a = true →
  ∃ t', table_steps ops t = Done t' ∧ represents b t' (abstract_steps ops a).
Proof.
  revert t a. induction ops as [|op ops IH]; intros t a Hr Hok; cbn [table_steps ops_ok length] in *.
  { exists t. rewrite Nat.add_0_r in Hr. done. }
  apply andb_true_iff in Hok as [Hop Hok]. rewrite <- plus_n_Sm in Hr.
  destruct (step_refines _ op t a Hr Hop) as (t1 & -> & Hr1). step_done. by apply IH.
Qed.

(** ** Look-ups *)

Definition known (a : abstract_table) : list header := List.map as_header (st_entries st) ++ headers a.

Lemma entries_known b t a : represents b t a → List.map as_header (entries st t) = known a.
Proof. intros Hr. unfold entries, known. rewrite map_app, <- (re_headers _ _ _ Hr). done. Qed.

Lemma GetByIndex_known b t a i :
  represents b t a → 0 < i → as_header <$> GetByIndex i t = known a !! Z.to_nat (i - 1).
Proof.
  intros Hr Hi. unfold GetByIndex, known. rewrite (proj2 (Z.eqb_neq i 0)) by lia.
  rewrite (tc_statics _ _ (ti_core _ _ (re_inv _ _ _ Hr))), <- (re_headers _ _ _ Hr). unfold dynamic.
  change (List.map as_header) with (fmap (M:=list) as_header).
  destruct (Z.ltb_spec (i - 1) (Z.of_nat (length (st_entries st)))).
  - rewrite lookup_app_l by (rewrite length_fmap; lia). by rewrite list_lookup_fmap.
  - rewrite lookup_app_r by (rewrite length_fmap; lia). rewrite length_fmap, list_lookup_fmap.
    replace (Z.to_nat (i - 1) - length (st_entries st))%nat
      with (Z.to_nat (i - 1 - Z.of_nat (length (st_entries st)))) by lia.
    destruct (Z.ltb_spec (i - 1 - Z.of_nat (length (st_entries st))) (Z.of_nat (length (dynamic_entries_ t)))); [done|].
    by rewrite (lookup_ge_None_2 (dynamic_entries_ t)) by lia.
Qed.

(** An answer with an entry that its index leads back to, or none when there is none. *)
Definition answers (t : HpackHeaderTable) (a : abstract_table) (P : header → Prop)
    (r : outcome (option HpackEntry)) : Prop :=
  match r with
  | Done (Some e) => P (as_header e) ∧ as_header e ∈ known a ∧ GetByIndex (IndexOf e t) t = Some e
  | Done None => ∀ p, p ∈ known a → ¬ P p
  | _ => False
  end.

Lemma entry_answers b t a P r :
  represents (b + length (st_entries st)) t a →
  (∃ o, r = Done o ∧ match o with
     | Some e => e ∈ entries st t ∧ P (as_header e)
     | None => ∀ x, x ∈ entries st t → ¬ P (as_header x)
     end) → answers t a P r.
Proof.
  intros Hr (o & -> & Ho). unfold answers. rewrite <- (entries_known _ _ _ Hr).
  change (List.map as_header) with (fmap (M:=list) as_header). destruct o as [e|].
  - destruct Ho as [Hin HP]. split_and!; [done|by apply list_elem_of_fmap_2|].
    apply (GetByIndex_IndexOf st Hst); [apply (re_inv _ _ _ Hr)| |done]. pose proof (re_room _ _ _ Hr). lia.
  - intros p (x & -> & Hx)%list_elem_of_fmap. by apply Ho.
Qed.

Lemma lookups_answer b t a name value :
  represents (b + length (st_entries st)) t a →
  answers t a (λ p, p.1 = name) (GetByName name t) ∧
  answers t a (λ p, p = (name, value)) (GetByNameAndValue name value t).
Proof.
  intros Hr. pose proof (ti_core _ _ (re_inv _ _ _ Hr)) as Hc. split; apply (entry_answers b); try done.
  - destruct (GetByName_spec st Hst t name Hc) as (o & E & Ho). exists o. split; [done|]. by destruct o.
  - destruct (GetByNameAndValue_spec st Hst t name value Hc) as (o & E & Ho). exists o. split; [done|]. by destruct o.
Qed.
End Refinement.

(** [C14] Refinement: for every sequence of operations in range, no check of the header
    table fails, and the table holds the headers of the abstract table within its maximum
    size; an index from 1 on is a position in the static headers and these, and a search by
    name, or name and value, finds an entry exactly when there is one and its index leads
    back to it. *)
Theorem HeaderTable_refines st ops :
  ObtainHpackStaticTable = Done st → ops_ok ops abstract_new = true → Z.of_nat (length ops) < 2 ^ 60 →
  let a := abstract_steps ops abstract_new in
  ∃ t, table_steps ops (new_HpackHeaderTable st) = Done t ∧
    dynamic t = headers a ∧ size_ t = total (headers a) ∧ size_ t <= max a ∧ max a <= bound a ∧
    (∀ i, 0 < i → as_header <$> GetByIndex i t = known st a !! Z.to_nat (i - 1)) ∧
    ∀ name value,
      answers st t a (λ p, p.1 = name) (GetByName name t) ∧
      answers st t a (λ p, p = (name, value)) (GetByNameAndValue name value t).
Proof.
  intros Hst Hok Hn a. destruct (is_static_table_ok st Hst) as [Hso Hlen].
  destruct (steps_refine st (0 + length (st_entries st)) ops (new_HpackHeaderTable st) abstract_new) as (t & E & Hr);
    [apply represents_new; [exact Hso|lia]|exact Hok|].
  exists t. destruct (re_inv _ _ _ _ Hr) as [Hc Hs Hm].
  rewrite (re_max _ _ _ _ Hr), (re_bound _ _ _ _ Hr) in *.
  pose proof (tc_size _ _ Hc) as Hsize. rewrite (re_headers _ _ _ _ Hr) in Hsize.
  split_and!; [exact E|apply Hr|exact Hsize|exact Hs|exact Hm|..].
  - intros i Hi. exact (GetByIndex_known st _ t a i Hr Hi).
  - intros name value. exact (lookups_answer st Hso 0 t a name value Hr).
Qed.

(** Two headers into a table of 100 bytes: the second one evicts the first one. *)
Definition some_ops : list table_op :=
  [SettingsSize 100; MaxSize 90; Add [120] [49]; Add [120; 121] (List.repeat 49 20); Add [120] (List.repeat 50 90)].

Lemma HeaderTable_refines_witness :
  ∃ st t, ObtainHpackStaticTable = Done st ∧
    let a := abstract_steps some_ops abstract_new in
    table_steps some_ops (new_HpackHeaderTable st) = Done t ∧
    dynamic t = headers a ∧ size_ t = total (headers a) ∧ size_ t <= max a ∧ max a <= bound a ∧
    (∀ i, 0 < i → as_header <$> GetByIndex i t = known st a !! Z.to_nat (i - 1)) ∧
    ∀ name value,
      answers st t a (λ p, p.1 = name) (GetByName name t) ∧
      answers st t a (λ p, p = (name, value)) (GetByNameAndValue name value t).
Proof.
  destruct static_table_ok as (st & Hst & _).
  assert (ops_ok some_ops abstract_new = true) as Hok by reflexivity.
  assert (Z.of_nat (length some_ops) < 2 ^ 60) as Hn by (cbn; lia).
  destruct (HeaderTable_refines st some_ops Hst Hok Hn) as (t & H). exists st, t. exact (conj Hst H).
Defined.

(** Of two entries that match, the search gives the older one, whose index is higher. *)
Lemma GetByNameAndValue_oldest :
  (st ← ObtainHpackStaticTable;
   t ← table_steps [Add [120] [49]; Add [120] [49]] (new_HpackHeaderTable st);
   e ← GetByNameAndValue [120] [49] t;
   Done (match e with Some e => IndexOf e t | None => 0 end, as_header <$> GetByIndex 62 t))
  = Done (63, Some ([120], [49])).
Proof. vm_compute. reflexivity. Qed.
