(* ===== verification/SpdyHeaderBlock.v ===== *)
(** * net/spdy/spdy_header_block.{h,cc}, with net/base/linked_hash_map.h and the functions
    of base/strings/string_piece.cc that HPACK uses

    A header block is a sequence of names and values in the order of insertion, with
    different names; the hash map beside the list and the storage of the strings only make
    it fast. *)

From S2P Require Import Prelude.

Notation StringPiece := (list Z) (only parsing).
Notation SpdyHeaderBlock := (list (list Z * list Z)) (only parsing).

(** ** Header blocks *)

(** [find]: the value of the name, [None] for [end()]. *)
Fixpoint block_find (key : StringPiece) (block : SpdyHeaderBlock) : option StringPiece :=
  match block with
  | [] => None
  | (k, v) :: block => if bool_decide (k = key) then Some v else block_find key block
  end.

Fixpoint block_update (key value : StringPiece) (block : SpdyHeaderBlock) : SpdyHeaderBlock :=
  match block with
  | [] => []
  | (k, v) :: block =>
      if bool_decide (k = key) then (k, value) :: block else (k, v) :: block_update key value block
  end.

(** [AppendHeader]: [linked_hash_map::insert] keeps an element that is there. *)
Definition AppendHeader (key value : StringPiece) (block : SpdyHeaderBlock) : SpdyHeaderBlock :=
  match block_find key block with
  | Some _ => block
  | None => block ++ [(key, value)]
  end.

Definition ReplaceOrAppendHeader (key value : StringPiece) (block : SpdyHeaderBlock) : SpdyHeaderBlock :=
  match block_find key block with
  | None => AppendHeader key value block
  | Some _ => block_update key value block
  end.

(** [block[key] = value], by way of [StringPieceProxy]. *)
Definition block_assign (key value : StringPiece) (block : SpdyHeaderBlock) : SpdyHeaderBlock :=
  match block_find key block with
  | None => block ++ [(key, value)]
  | Some _ => block_update key value block
  end.

(** ** Strings

    A position is a [nat]; [npos] is [None]. *)

Fixpoint find_from (c : Z) (s : StringPiece) : option nat :=
  match s with
  | [] => None
  | x :: s => if x =? c then Some O else S <$> find_from c s
  end.

(** [self.find(c, pos)], and [self.find(s, pos)] for a string of one character. *)
Definition find (self : StringPiece) (c : Z) (pos : nat) : option nat :=
  if (length self <=? pos)%nat then None
  else (λ n, pos + n)%nat <$> find_from c (drop pos self).

(** [substr(pos, n)]: both are cut to the string. *)
Definition substr (self : StringPiece) (pos : nat) (n : option nat) : StringPiece :=
  match n with
  | None => drop pos self
  | Some n => take n (drop pos self)
  end.

Definition in_set (set : StringPiece) (c : Z) : bool := existsb (Z.eqb c) set.

Fixpoint find_first_not_of (self set : StringPiece) : option nat :=
  match self with
  | [] => None
  | c :: self => if in_set set c then S <$> find_first_not_of self set else Some O
  end.

(** From the end on. *)
Definition find_last_not_of (self set : StringPiece) : option nat :=
  (λ n, length self - 1 - n)%nat <$> find_first_not_of (reverse self) set.
