(* ===== verification/HpackEncoder.v ===== *)
(** * net/spdy/hpack/hpack_encoder.{h,cc} *)

From Stdlib Require Import String.
From S2P Require Import Prelude HpackConstants HpackOutputStream HpackHuffmanTable HpackHeaderTable SpdyHeaderBlock.

Notation Representation := (list Z * list Z)%type (only parsing).
Notation Representations := (list (list Z * list Z)) (only parsing).

(** [std::numeric_limits<size_t>::max()]. *)
Definition size_t_max : Z := 18446744073709551615.

Record HpackEncoder : Type := mkHpackEncoder {
  header_table_ : HpackHeaderTable;
  output_stream_ : HpackOutputStream;
  min_table_size_setting_received_ : Z;
  allow_huffman_compression_ : bool;
  should_emit_table_size_ : bool
}.
#[export] Instance eta_HpackEncoder : Eta HpackEncoder := λ e,
  mkHpackEncoder (header_table_ e) (output_stream_ e) (min_table_size_setting_received_ e)
    (allow_huffman_compression_ e) (should_emit_table_size_ e).

Definition new_HpackEncoder (st : HpackStaticTable) : HpackEncoder :=
  {| header_table_ := new_HpackHeaderTable st;
     output_stream_ := new_HpackOutputStream;
     min_table_size_setting_received_ := size_t_max;
     allow_huffman_compression_ := true;
     should_emit_table_size_ := false |}.

Definition CurrentHeaderTableSizeSetting (e : HpackEncoder) : Z := settings_size_bound_ (header_table_ e).

(** A call on the output stream. *)
Definition emit (f : HpackOutputStream → outcome HpackOutputStream) (e : HpackEncoder) : outcome HpackEncoder :=
  out ← f (output_stream_ e);
  Done (e <| output_stream_ := out |>).

Definition cookie : StringPiece := chars "cookie"%string.
Definition authority : StringPiece := chars ":authority"%string.

Section Encoder.
Context (huffman_table_ : HpackHuffmanTable).

(** ** Representations *)

Definition EmitString (str : StringPiece) (e : HpackEncoder) : outcome HpackEncoder :=
  encoded_size ← (if negb (allow_huffman_compression_ e) then Done (Z.of_nat (length str))
                  else EncodedSize huffman_table_ str);
  if encoded_size <? Z.of_nat (length str) then
    e ← emit (AppendPrefix kStringLiteralHuffmanEncoded) e;
    e ← emit (AppendUint32 (u32 encoded_size)) e;
    emit (EncodeString huffman_table_ str) e
  else
    e ← emit (AppendPrefix kStringLiteralIdentityEncoded) e;
    e ← emit (AppendUint32 (u32 (Z.of_nat (length str)))) e;
    emit (AppendBytes str) e.

Definition EmitIndex (entry : HpackEntry) (e : HpackEncoder) : outcome HpackEncoder :=
  e ← emit (AppendPrefix kIndexedOpcode) e;
  emit (AppendUint32 (u32 (IndexOf entry (header_table_ e)))) e.

Definition EmitLiteral (representation : Representation) (e : HpackEncoder) : outcome HpackEncoder :=
  name_entry ← GetByName representation.1 (header_table_ e);
  e ← match name_entry with
      | Some name_entry => emit (AppendUint32 (u32 (IndexOf name_entry (header_table_ e)))) e
      | None =>
          e ← emit (AppendUint32 0) e;
          EmitString representation.1 e
      end;
  EmitString representation.2 e.

Definition EmitIndexedLiteral (representation : Representation) (e : HpackEncoder) : outcome HpackEncoder :=
  e ← emit (AppendPrefix kLiteralIncrementalIndexOpcode) e;
  e ← EmitLiteral representation e;
  '(_, table) ← TryAddEntry representation.1 representation.2 (header_table_ e);
  Done (e <| header_table_ := table |>).

Definition EmitNonIndexedLiteral (representation : Representation) (e : HpackEncoder) : outcome HpackEncoder :=
  e ← emit (AppendPrefix kLiteralNoIndexOpcode) e;
  e ← emit (AppendUint32 0) e;
  e ← EmitString representation.1 e;
  EmitString representation.2 e.

Definition MaybeEmitTableSize (e : HpackEncoder) : outcome HpackEncoder :=
  if negb (should_emit_table_size_ e) then Done e
  else
    let current_size := CurrentHeaderTableSizeSetting e in
    e ← (if min_table_size_setting_received_ e <? current_size then
           e ← emit (AppendPrefix kHeaderTableSizeUpdateOpcode) e;
           emit (AppendUint32 (u32 (min_table_size_setting_received_ e))) e
         else Done e);
    e ← emit (AppendPrefix kHeaderTableSizeUpdateOpcode) e;
    e ← emit (AppendUint32 (u32 current_size)) e;
    Done (e <| min_table_size_setting_received_ := size_t_max |> <| should_emit_table_size_ := false |>).

Definition ApplyHeaderTableSizeSetting (size_setting : Z) (e : HpackEncoder) : outcome HpackEncoder :=
  let bound := settings_size_bound_ (header_table_ e) in
  if size_setting =? bound then Done e
  else
    let e := if size_setting <? bound
             then e <| min_table_size_setting_received_ :=
                         Z.min size_setting (min_table_size_setting_received_ e) |>
             else e in
    table ← SetSettingsHeaderTableSize size_setting (header_table_ e);
    Done (e <| header_table_ := table |> <| should_emit_table_size_ := true |>).

(** ** Header values in pieces *)

(** The rounds go on by one character at least. *)
Fixpoint crumbs_from (fuel : nat) (name cookie_value : StringPiece) (pos : nat) (out : Representations) :
    outcome Representations :=
  match fuel with
  | O => DcheckFailed
  | S fuel =>
      match find cookie_value 59 pos with
      | None => Done (out ++ [(name, substr cookie_value pos None)])
      | Some end_ =>
          let out := out ++ [(name, substr cookie_value pos (Some (end_ - pos)%nat))] in
          let pos := (end_ + 1)%nat in
          let pos := match cookie_value !! pos with
                     | Some c => if c =? 32 then (pos + 1)%nat else pos
                     | None => pos
                     end in
          crumbs_from fuel name cookie_value pos out
      end
  end.

Definition blanks : StringPiece := [32; 9].
Definition trim_blanks (cookie_value : StringPiece) : StringPiece :=
  match find_first_not_of cookie_value blanks, find_last_not_of cookie_value blanks with
  | Some first, Some last => substr cookie_value first (Some ((last - first) + 1)%nat)
  | _, _ => []
  end.

Definition CookieToCrumbs (cookie : Representation) (out : Representations) : outcome Representations :=
  let cookie_value := trim_blanks cookie.2 in
  crumbs_from (S (length cookie_value)) cookie.1 cookie_value 0 out.

Fixpoint pieces_from (fuel : nat) (name value : StringPiece) (pos : nat) (out : Representations) :
    outcome Representations :=
  match fuel with
  | O => DcheckFailed
  | S fuel =>
      match find value 0 pos with
      | None => Done (out ++ [(name, substr value pos None)])
      | Some end_ =>
          pieces_from fuel name value (end_ + 1) (out ++ [(name, substr value pos (Some (end_ - pos)%nat))])
      end
  end.

Definition DecomposeRepresentation (header_field : Representation) (out : Representations) :
    outcome Representations :=
  pieces_from (S (length header_field.2)) header_field.1 header_field.2 0 out.

(** ** Header sets *)

(** Whether the first character is a colon. *)
Definition is_pseudo (name : StringPiece) : bool :=
  match name with
  | c :: _ => c =? kPseudoHeaderPrefix
  | [] => false
  end.

(** The results are the pseudo-headers and the regular headers. *)
Fixpoint separate (header_set : SpdyHeaderBlock) (found_cookie : bool)
    (pseudo_headers regular_headers : Representations) : outcome (Representations * Representations) :=
  match header_set with
  | [] => Done (pseudo_headers, regular_headers)
  | header :: header_set =>
      if negb found_cookie && bool_decide (header.1 = cookie) then
        regular_headers ← CookieToCrumbs header regular_headers;
        separate header_set true pseudo_headers regular_headers
      else if is_pseudo header.1 then
        pseudo_headers ← DecomposeRepresentation header pseudo_headers;
        separate header_set found_cookie pseudo_headers regular_headers
      else
        regular_headers ← DecomposeRepresentation header regular_headers;
        separate header_set found_cookie pseudo_headers regular_headers
  end.

Fixpoint encode_pseudo_headers (pseudo_headers : Representations) (found_authority : bool)
    (e : HpackEncoder) : outcome HpackEncoder :=
  match pseudo_headers with
  | [] => Done e
  | header :: pseudo_headers =>
      entry ← GetByNameAndValue header.1 header.2 (header_table_ e);
      match entry with
      | Some entry =>
          e ← EmitIndex entry e;
          encode_pseudo_headers pseudo_headers found_authority e
      | None =>
          if negb found_authority && bool_decide (header.1 = authority) then
            e ← EmitIndexedLiteral header e;
            encode_pseudo_headers pseudo_headers true e
          else
            e ← EmitNonIndexedLiteral header e;
            encode_pseudo_headers pseudo_headers found_authority e
      end
  end.

Fixpoint encode_regular_headers (regular_headers : Representations) (e : HpackEncoder) : outcome HpackEncoder :=
  match regular_headers with
  | [] => Done e
  | header :: regular_headers =>
      entry ← GetByNameAndValue header.1 header.2 (header_table_ e);
      e ← match entry with
          | Some entry => EmitIndex entry e
          | None => EmitIndexedLiteral header e
          end;
      encode_regular_headers regular_headers e
  end.

Definition take_output (e : HpackEncoder) : outcome (list Z * HpackEncoder) :=
  '(output, out) ← TakeString (output_stream_ e);
  Done (output, e <| output_stream_ := out |>).

(** The result is [*output]; the return value is always [true]. *)
Definition EncodeHeaderSet (header_set : SpdyHeaderBlock) (e : HpackEncoder) :
    outcome (list Z * HpackEncoder) :=
  e ← MaybeEmitTableSize e;
  '(pseudo_headers, regular_headers) ← separate header_set false [] [];
  e ← encode_pseudo_headers pseudo_headers false e;
  e ← encode_regular_headers regular_headers e;
  take_output e.

Fixpoint encode_plain (header_set : SpdyHeaderBlock) (e : HpackEncoder) : outcome HpackEncoder :=
  match header_set with
  | [] => Done e
  | header :: header_set =>
      e ← EmitNonIndexedLiteral header e;
      encode_plain header_set e
  end.

Definition EncodeHeaderSetWithoutCompression (header_set : SpdyHeaderBlock) (e : HpackEncoder) :
    outcome (list Z * HpackEncoder) :=
  let e := e <| allow_huffman_compression_ := false |> in
  e ← MaybeEmitTableSize e;
  e ← encode_plain header_set e;
  take_output (e <| allow_huffman_compression_ := true |>).

End Encoder.
