(* ===== verification/HpackDecoder.v ===== *)
(** * net/spdy/hpack/hpack_decoder.{h,cc}

    The calls of the decoder on its handler are kept in a list. *)

From Stdlib Require Import String.
From S2P Require Import Prelude HpackConstants HpackInputStream HpackHuffmanTable HpackHeaderTable SpdyHeaderBlock.

(** net/spdy/spdy_headers_handler_interface.h. *)
Inductive HandlerCall : Type :=
  | OnHeaderBlockStart
  | OnHeader (key value : StringPiece)
  | OnHeaderBlockEnd (header_bytes_parsed : Z).

Record HpackDecoder : Type := mkHpackDecoder {
  max_string_literal_size_ : Z;
  header_table_ : HpackHeaderTable;
  headers_block_buffer_ : list Z;
  decoded_block_ : SpdyHeaderBlock;
  key_buffer_ : list Z;
  value_buffer_ : list Z;
  handler_ : bool;  (* whether there is one *)
  calls : list HandlerCall;
  regular_header_seen_ : bool;
  header_block_started_ : bool
}.
#[export] Instance eta_HpackDecoder : Eta HpackDecoder := λ d,
  mkHpackDecoder (max_string_literal_size_ d) (header_table_ d) (headers_block_buffer_ d)
    (decoded_block_ d) (key_buffer_ d) (value_buffer_ d) (handler_ d) (calls d)
    (regular_header_seen_ d) (header_block_started_ d).

Definition new_HpackDecoder (st : HpackStaticTable) : HpackDecoder :=
  {| max_string_literal_size_ := kDefaultMaxStringLiteralSize;
     header_table_ := new_HpackHeaderTable st;
     headers_block_buffer_ := [];
     decoded_block_ := [];
     key_buffer_ := [];
     value_buffer_ := [];
     handler_ := false;
     calls := [];
     regular_header_seen_ := false;
     header_block_started_ := false |}.

Definition kCookieKey : StringPiece := chars "cookie"%string.

Definition call_handler (c : HandlerCall) (d : HpackDecoder) : HpackDecoder :=
  if handler_ d then d <| calls := calls d ++ [c] |> else d.

Definition ApplyHeaderTableSizeSetting (size_setting : Z) (d : HpackDecoder) : outcome HpackDecoder :=
  table ← SetSettingsHeaderTableSize size_setting (header_table_ d);
  Done (d <| header_table_ := table |>).

Definition HandleControlFrameHeadersStart (handler : bool) (d : HpackDecoder) : HpackDecoder :=
  d <| handler_ := handler |>.

Definition HandleControlFrameHeadersData (headers_data : list Z) (d : HpackDecoder) : bool * HpackDecoder :=
  let d := d <| decoded_block_ := [] |> in
  let d := if negb (header_block_started_ d)
           then call_handler OnHeaderBlockStart (d <| header_block_started_ := true |>) else d in
  let new_size := Z.of_nat (length (headers_block_buffer_ d)) + Z.of_nat (length headers_data) in
  if kMaxDecodeBufferSize <? new_size then (false, d)
  else (true, d <| headers_block_buffer_ := headers_block_buffer_ d ++ headers_data |>).

(** ** Headers *)

Definition starts_with_colon (name : StringPiece) : bool :=
  match name with
  | c :: _ => c =? kPseudoHeaderPrefix
  | [] => false
  end.

(** [None]: a pseudo-header follows a regular header. *)
Definition see_header (name : StringPiece) (d : HpackDecoder) : option HpackDecoder :=
  if (0 <? length name)%nat then
    if starts_with_colon name then (if regular_header_seen_ d then None else Some d)
    else Some (d <| regular_header_seen_ := true |>)
  else Some d.

Definition HandleHeaderRepresentation (name value : StringPiece) (d : HpackDecoder) :
    outcome (bool * HpackDecoder) :=
  match see_header name d with
  | None => Done (false, d)
  | Some d =>
      if negb (handler_ d) then
        match block_find name (decoded_block_ d) with
        | None => Done (true, d <| decoded_block_ := block_assign name value (decoded_block_ d) |>)
        | Some old =>
            let new_value := old ++ (if bool_decide (name = kCookieKey) then chars "; "%string else [0]) ++ value in
            Done (true, d <| decoded_block_ := ReplaceOrAppendHeader name new_value (decoded_block_ d) |>)
        end
      else
        DCHECK (bool_decide (decoded_block_ d = [])) ;;
        Done (true, call_handler (OnHeader name value) d)
  end.

Section Decoder.
Context (huffman_table_ : HpackHuffmanTable).

(** [None] for [false]. *)
Definition DecodeNextStringLiteral (is_key : bool) (input_stream : HpackInputStream) (d : HpackDecoder) :
    outcome (option StringPiece * HpackInputStream * HpackDecoder) :=
  '(huffman, input_stream) ← MatchPrefixAndConsume kStringLiteralHuffmanEncoded input_stream;
  if huffman : bool then
    '(result, str, input_stream) ← DecodeNextHuffmanString huffman_table_ input_stream;
    let buffer := default (if is_key then key_buffer_ d else value_buffer_ d) str in
    let d := if is_key then d <| key_buffer_ := buffer |> else d <| value_buffer_ := buffer |> in
    Done (if result : bool then Some buffer else None, input_stream, d)
  else
    '(identity, input_stream) ← MatchPrefixAndConsume kStringLiteralIdentityEncoded input_stream;
    if identity : bool then
      '(output, input_stream) ← DecodeNextIdentityString input_stream;
      Done (output, input_stream, d)
    else Done (None, input_stream, d).

Definition DecodeNextName (input_stream : HpackInputStream) (d : HpackDecoder) :
    outcome (option StringPiece * HpackInputStream * HpackDecoder) :=
  '(ok, index_or_zero, input_stream) ← DecodeNextUint32 input_stream;
  if negb ok then Done (None, input_stream, d)
  else if index_or_zero =? 0 then DecodeNextStringLiteral true input_stream d
  else
    match GetByIndex index_or_zero (header_table_ d) with
    | None => Done (None, input_stream, d)
    | Some entry =>
        if IsStatic entry then Done (Some (name_ entry), input_stream, d)
        else Done (Some (name_ entry), input_stream, d <| key_buffer_ := name_ entry |>)
    end.

Definition DecodeNextLiteralHeader (should_index : bool) (input_stream : HpackInputStream) (d : HpackDecoder) :
    outcome (bool * HpackInputStream * HpackDecoder) :=
  '(name, input_stream, d) ← DecodeNextName input_stream d;
  match name with
  | None => Done (false, input_stream, d)
  | Some name =>
      '(value, input_stream, d) ← DecodeNextStringLiteral false input_stream d;
      match value with
      | None => Done (false, input_stream, d)
      | Some value =>
          '(ok, d) ← HandleHeaderRepresentation name value d;
          if negb ok then Done (false, input_stream, d)
          else if negb should_index then Done (true, input_stream, d)
          else
            '(_, table) ← TryAddEntry name value (header_table_ d);
            Done (true, input_stream, d <| header_table_ := table |>)
      end
  end.

Definition DecodeNextIndexedHeader (input_stream : HpackInputStream) (d : HpackDecoder) :
    outcome (bool * HpackInputStream * HpackDecoder) :=
  '(ok, index, input_stream) ← DecodeNextUint32 input_stream;
  if negb ok then Done (false, input_stream, d)
  else
    match GetByIndex index (header_table_ d) with
    | None => Done (false, input_stream, d)
    | Some entry =>
        '(ok, d) ← HandleHeaderRepresentation (name_ entry) (value_ entry) d;
        Done (ok, input_stream, d)
    end.

Definition DecodeNextHeaderTableSizeUpdate (input_stream : HpackInputStream) (d : HpackDecoder) :
    outcome (bool * HpackInputStream * HpackDecoder) :=
  '(ok, size, input_stream) ← DecodeNextUint32 input_stream;
  if negb ok then Done (false, input_stream, d)
  else if settings_size_bound_ (header_table_ d) <? size then Done (false, input_stream, d)
  else
    table ← SetMaxSize size (header_table_ d);
    Done (true, input_stream, d <| header_table_ := table |>).

Definition DecodeNextOpcode (input_stream : HpackInputStream) (d : HpackDecoder) :
    outcome (bool * HpackInputStream * HpackDecoder) :=
  '(matched, input_stream) ← MatchPrefixAndConsume kIndexedOpcode input_stream;
  if matched : bool then DecodeNextIndexedHeader input_stream d else
  '(matched, input_stream) ← MatchPrefixAndConsume kLiteralIncrementalIndexOpcode input_stream;
  if matched : bool then DecodeNextLiteralHeader true input_stream d else
  '(matched, input_stream) ← MatchPrefixAndConsume kLiteralNoIndexOpcode input_stream;
  if matched : bool then DecodeNextLiteralHeader false input_stream d else
  '(matched, input_stream) ← MatchPrefixAndConsume kLiteralNeverIndexOpcode input_stream;
  if matched : bool then DecodeNextLiteralHeader false input_stream d else
  '(matched, input_stream) ← MatchPrefixAndConsume kHeaderTableSizeUpdateOpcode input_stream;
  if matched : bool then DecodeNextHeaderTableSizeUpdate input_stream d else
  Done (false, input_stream, d).

(** An opcode that is decoded takes at least a byte. *)
Fixpoint decode_opcodes (fuel : nat) (input_stream : HpackInputStream) (d : HpackDecoder) :
    outcome (bool * HpackDecoder) :=
  match fuel with
  | O => DcheckFailed
  | S fuel =>
      if negb (HasMoreData input_stream) then Done (true, d)
      else
        '(ok, input_stream, d) ← DecodeNextOpcode input_stream d;
        if negb ok then Done (false, d) else decode_opcodes fuel input_stream d
  end.

(** The results are the return value and [*compressed_len]. *)
Definition HandleControlFrameHeadersComplete (d : HpackDecoder) : outcome (bool * Z * HpackDecoder) :=
  let input_stream := new_HpackInputStream (max_string_literal_size_ d) (headers_block_buffer_ d) in
  let d := d <| regular_header_seen_ := false |> in
  let compressed_len := Z.of_nat (length (headers_block_buffer_ d)) in
  '(ok, d) ← decode_opcodes (S (length (headers_block_buffer_ d))) input_stream d;
  if negb ok then Done (false, compressed_len, d <| headers_block_buffer_ := [] |>)
  else
    let d := call_handler (OnHeaderBlockEnd (Z.of_nat (length (headers_block_buffer_ d)))) d in
    Done (true, compressed_len,
      d <| headers_block_buffer_ := [] |> <| header_block_started_ := false |> <| handler_ := false |>).

End Decoder.
