(* ===== verification/HpackWire.v ===== *)
(** * HPACK on the wire: what the encoder writes for a header and how the decoder reads it

    The bits of strings and of the representations of section 6 of RFC 7541, and that the
    two sides agree on them. *)

From S2P Require Import Prelude Bits HpackConstants HpackOutputStream HpackInputStream HpackHuffmanTable HpackHuffmanCode HpackHuffmanDecode HpackHeaderTable SpdyHeaderBlock HpackEncoder HpackDecoder.

(** The lengths that the decoder accepts. *)
Definition literal_ok (str : StringPiece) : Prop :=
  Forall byte_ok str ∧ Z.of_nat (length str) <= kDefaultMaxStringLiteralSize.

(** A stream at the start of an opcode or a string. *)
Definition at_byte (s : HpackInputStream) (bs : list bool) : Prop :=
  good s ∧ HpackInputStream.bit_offset_ s = 0 ∧
  HpackInputStream.max_string_literal_size_ s = kDefaultMaxStringLiteralSize ∧ unread s = bs.

Definition aligned (o : HpackOutputStream) (bs : list bool) : Prop :=
  written o bs ∧ HpackOutputStream.bit_offset_ o = 0.

Lemma aligned_length o bs : aligned o bs → (length bs mod 8 = 0)%nat.
Proof. intros [Hw H0]. by apply (written_offset _ _ Hw). Qed.

(** ** Prefixes with integers *)

Definition prefix_ok (p : HpackPrefix) : Prop :=
  0 < prefix_bit_size p < 8 ∧ 0 <= prefix_bits p < 2 ^ prefix_bit_size p.

(** How many bits of the byte are left. *)
Definition prefix_rest (p : HpackPrefix) : nat := (8 - Z.to_nat (prefix_bit_size p))%nat.

Definition prefixed (p : HpackPrefix) (I : Z) : list bool := prefix_of p ++ varint_bits (prefix_rest p) I.

Lemma AppendPrefix_ok o bs p :
  aligned o bs → prefix_ok p →
  ∃ o', AppendPrefix p o = Done o' ∧ written o' (bs ++ prefix_of p) ∧
    HpackOutputStream.bit_offset_ o' = prefix_bit_size p.
Proof.
  intros Ha [Hn Hv]. pose proof (aligned_length _ _ Ha) as Hl. destruct Ha as [Hw H0].
  destruct (AppendPrefix_written o bs p Hw) as (o' & E & Hw'); [lia|done|].
  exists o'. split_and!; [done|done|]. destruct Hw' as (_ & -> & _).
  rewrite length_app, z_bits_length, <- Nat.Div0.add_mod_idemp_l, Hl, Nat.add_0_l, Nat.mod_small by lia. lia.
Qed.

Lemma AppendUint32_after_prefix o bs p I :
  written o (bs ++ prefix_of p) → HpackOutputStream.bit_offset_ o = prefix_bit_size p → prefix_ok p →
  0 <= I <= u32_max →
  ∃ o', AppendUint32 I o = Done o' ∧ aligned o' (bs ++ prefixed p I).
Proof.
  intros Hw Ho [Hn Hv] HI.
  destruct (AppendUint32_written o _ (prefix_rest p) I Hw) as (o' & E & Hw' & H0);
    [unfold prefix_rest; lia|done|].
  exists o'. unfold aligned, prefixed. by rewrite app_assoc.
Qed.

Lemma MatchPrefix_yes s p bs :
  at_byte s (prefix_of p ++ bs) → prefix_ok p →
  ∃ s', MatchPrefixAndConsume p s = Done (true, s') ∧ good s' ∧ unread s' = bs ∧
    HpackInputStream.bit_offset_ s' = prefix_bit_size p ∧
    HpackInputStream.max_string_literal_size_ s' = kDefaultMaxStringLiteralSize.
Proof.
  intros (Hs & H0 & Hm & Hu) [Hn Hv].
  destruct (MatchPrefixAndConsume_spec s p Hs) as [(s' & rest & E & Hg & Eu & Eu' & Em & Eo)|[_ Hno]];
    [lia|done| |by destruct (Hno bs)].
  exists s'. rewrite Eo, H0, Z.add_0_l, Z.mod_small, Em by lia. split_and!; try done.
  rewrite Eu in Hu. apply app_inv_head in Hu. congruence.
Qed.

(** Prefixes that cannot both be at the same place. *)
Definition prefixes_differ (p q : HpackPrefix) : bool :=
  let n := Nat.min (length (prefix_of p)) (length (prefix_of q)) in
  negb (bool_decide (take n (prefix_of p) = take n (prefix_of q))).

Lemma MatchPrefix_no s p q bs :
  at_byte s (prefix_of p ++ bs) → prefix_ok q → prefixes_differ q p = true →
  MatchPrefixAndConsume q s = Done (false, s).
Proof.
  intros (Hs & H0 & Hm & Hu) [Hn Hv] Hd.
  destruct (MatchPrefixAndConsume_spec s q Hs) as [(s' & rest & _ & _ & Eu & _)|[E _]]; [lia|done| |done].
  exfalso. rewrite Hu in Eu. unfold prefixes_differ in Hd. apply negb_true_iff, bool_decide_eq_false in Hd.
  apply Hd. set (n := Nat.min _ _). apply (f_equal (take n)) in Eu.
  rewrite !take_app_le in Eu by lia. done.
Qed.

Lemma DecodeUint32_after_prefix s p I rest :
  good s → HpackInputStream.bit_offset_ s = prefix_bit_size p →
  HpackInputStream.max_string_literal_size_ s = kDefaultMaxStringLiteralSize → prefix_ok p →
  0 <= I <= u32_max → unread s = varint_bits (prefix_rest p) I ++ rest →
  ∃ s', DecodeNextUint32 s = Done (true, I, s') ∧ at_byte s' rest.
Proof.
  intros Hs Ho Hm [Hn Hv] HI Hu.
  destruct (DecodeNextUint32_varint s (prefix_rest p) I rest Hs) as (s' & E & Hg & Hu' & H0 & Hm');
    [unfold prefix_rest; lia|done|done|].
  exists s'. split; [done|]. split_and!; congruence.
Qed.

Section Wire.
Context (t : HpackHuffmanTable) (Ht : good_table t).

(** ** Strings *)

(** Whether a string is written with the Huffman code: when it is shorter. *)
Definition use_huffman (allow : bool) (str : StringPiece) : bool :=
  allow && (length (huffman_bits t str) / 8 <? length str)%nat.

Definition string_bits (allow : bool) (str : StringPiece) : list bool :=
  if use_huffman allow str then
    prefixed kStringLiteralHuffmanEncoded (Z.of_nat (length (huffman_bits t str) / 8)) ++ huffman_bits t str
  else prefixed kStringLiteralIdentityEncoded (Z.of_nat (length str)) ++ bytes_bits str.

Lemma string_prefixes_ok : prefix_ok kStringLiteralHuffmanEncoded ∧ prefix_ok kStringLiteralIdentityEncoded.
Proof. split; (split; cbn; lia). Qed.

Lemma emit_Done f e o : f (output_stream_ e) = Done o → emit f e = Done (e <| output_stream_ := o |>).
Proof. intros E. unfold emit. by rewrite E. Qed.

Lemma emit_after f e o o' :
  f o = Done o' → emit f (e <| output_stream_ := o |>) = Done (e <| output_stream_ := o' |>).
Proof. intros E. unfold emit. cbn [output_stream_ set_field]. by rewrite E. Qed.

(** The encoder after it has written [bits]: nothing else changes. *)
Definition emits (bits : list bool) (f : HpackEncoder → outcome HpackEncoder) (e : HpackEncoder) : Prop :=
  ∀ bs, aligned (output_stream_ e) bs →
  ∃ o, f e = Done (e <| output_stream_ := o |>) ∧ aligned o (bs ++ bits).

Lemma set_output_twice e o o' : e <| output_stream_ := o |> <| output_stream_ := o' |> = e <| output_stream_ := o' |>.
Proof. done. Qed.

(** A prefix with an integer. *)
Lemma emit_prefixed p I e bs :
  aligned (output_stream_ e) bs → prefix_ok p → 0 <= I <= u32_max →
  ∃ o1 o2, emit (AppendPrefix p) e = Done (e <| output_stream_ := o1 |>) ∧
    emit (AppendUint32 I) (e <| output_stream_ := o1 |>) = Done (e <| output_stream_ := o2 |>) ∧
    aligned o2 (bs ++ prefixed p I).
Proof.
  intros Ha Hp HI. destruct (AppendPrefix_ok _ _ p Ha Hp) as (o1 & E1 & H1 & Ho1).
  destruct (AppendUint32_after_prefix _ _ p I H1 Ho1 Hp HI) as (o2 & E2 & H2).
  exists o1, o2. split_and!; [by apply emit_Done|by apply emit_after|done].
Qed.

Lemma emits_prefixed p I e bs :
  aligned (output_stream_ e) bs → prefix_ok p → 0 <= I <= u32_max →
  ∃ o, (∀ k : HpackEncoder → outcome HpackEncoder,
          (e ← emit (AppendPrefix p) e; e ← emit (AppendUint32 I) e; k e)
          = k (e <| output_stream_ := o |>)) ∧
    aligned o (bs ++ prefixed p I).
Proof.
  intros Ha Hp HI. destruct (emit_prefixed p I e bs Ha Hp HI) as (o1 & o2 & E1 & E2 & H).
  exists o2. split; [|done]. intros k. rewrite E1. step_done. by rewrite E2.
Qed.

Lemma EmitString_spec str e :
  literal_ok str → emits (string_bits (allow_huffman_compression_ e) str) (EmitString t str) e.
Proof.
  intros [Hb Hl] bs Ha. unfold kDefaultMaxStringLiteralSize in Hl. unfold EmitString, string_bits, use_huffman.
  pose proof (encode_bits_length t Ht str Hb) as Henc.
  destruct string_prefixes_ok as [Hp1 Hp2].
  set (n := (length (huffman_bits t str) / 8)%nat).
  assert ((if negb (allow_huffman_compression_ e) then Done (Z.of_nat (length str)) else EncodedSize t str)
          = Done (if allow_huffman_compression_ e then Z.of_nat n else Z.of_nat (length str))) as ->.
  { destruct (allow_huffman_compression_ e); cbn [negb]; [|done]. apply (EncodedSize_exact t Ht); [done|lia]. }
  step_done.
  replace ((if allow_huffman_compression_ e then Z.of_nat n else Z.of_nat (length str)) <? Z.of_nat (length str))
    with (allow_huffman_compression_ e && (n <? length str)%nat).
  2:{ destruct (allow_huffman_compression_ e); cbn [andb]; [|by rewrite Z.ltb_irrefl].
      destruct (Nat.ltb_spec n (length str)), (Z.ltb_spec (Z.of_nat n) (Z.of_nat (length str))); try done; lia. }
  destruct (allow_huffman_compression_ e && (n <? length str)%nat) eqn:Euse.
  - apply andb_true_iff in Euse as [-> Hn]. apply Nat.ltb_lt in Hn. cbn beta iota.
    rewrite u32_small by (unfold is_u32, u32_max; lia).
    destruct (emits_prefixed kStringLiteralHuffmanEncoded (Z.of_nat n) e bs Ha Hp1) as (o & -> & [Hw H0]);
      [unfold u32_max; lia|].
    destruct (EncodeString_written t Ht str o _ Hw H0 Hb) as (o' & E & Hw' & H0').
    rewrite (emit_after _ e _ _ E). exists o'. split; [done|].
    split; [by rewrite app_assoc|done].
  - rewrite u32_small by (unfold is_u32, u32_max; lia).
    destruct (emits_prefixed kStringLiteralIdentityEncoded (Z.of_nat (length str)) e bs Ha Hp2) as (o & -> & [Hw H0]);
      [unfold u32_max; lia|].
    destruct (AppendBytes_written o _ str Hw H0 Hb) as (o' & E & Hw' & H0').
    rewrite (emit_after _ e _ _ E). exists o'. split; [done|].
    split; [by rewrite app_assoc|done].
Qed.

(** Bytes at the front of a stream. *)
Lemma at_byte_split s n X rest :
  at_byte s (X ++ rest) → length X = (8 * n)%nat →
  (n <= length (HpackInputStream.buffer_ s))%nat ∧ Forall byte_ok (take n (HpackInputStream.buffer_ s)) ∧
  bytes_bits (take n (HpackInputStream.buffer_ s)) = X ∧
  at_byte (remove_prefix (Z.of_nat n) s) rest.
Proof.
  intros (Hs & H0 & Hm & Hu) Hl. assert (Hs' := Hs). destruct Hs' as (Hb & _ & _).
  assert (bytes_bits (HpackInputStream.buffer_ s) = X ++ rest) as E
    by (unfold unread in Hu; by rewrite H0, drop_0 in Hu).
  assert (n <= length (HpackInputStream.buffer_ s))%nat as Hn.
  { apply (f_equal length) in E. rewrite bytes_bits_length, length_app in E. lia. }
  split_and!; [done|by apply Forall_take|by rewrite bytes_bits_take, E, take_app_length'|].
  destruct (reads_prefix s (Z.of_nat n) Hs H0) as (Hg & H0' & Em & _). split_and!; [done|done|congruence|].
  unfold unread. rewrite H0', drop_0. cbn [remove_prefix HpackInputStream.buffer_ set_field].
  by rewrite Nat2Z.id, bytes_bits_drop, E, drop_app_length'.
Qed.

Lemma DecodeNextHuffmanString_spec str rest s :
  good s → HpackInputStream.bit_offset_ s = prefix_bit_size kStringLiteralHuffmanEncoded →
  HpackInputStream.max_string_literal_size_ s = kDefaultMaxStringLiteralSize → literal_ok str →
  (length (huffman_bits t str) / 8 < length str)%nat →
  unread s = varint_bits (prefix_rest kStringLiteralHuffmanEncoded)
               (Z.of_nat (length (huffman_bits t str) / 8)) ++ huffman_bits t str ++ rest →
  ∃ s', DecodeNextHuffmanString t s = Done (true, Some str, s') ∧ at_byte s' rest.
Proof.
  intros Hs Ho Hm [Hb Hl] Hn Hu. unfold kDefaultMaxStringLiteralSize in Hl.
  destruct (huffman_bits_aligned t str) as [n En]. rewrite En, Nat.mul_comm, Nat.div_mul in * by lia.
  destruct (DecodeUint32_after_prefix s _ (Z.of_nat n) (huffman_bits t str ++ rest) Hs Ho Hm
              (proj1 string_prefixes_ok)) as (s1 & E1 & H1); [unfold u32_max; lia|exact Hu|].
  destruct (at_byte_split s1 n (huffman_bits t str) rest H1) as (Hle & Hbytes & Ebits & Hrest); [lia|].
  unfold DecodeNextHuffmanString. rewrite E1. step_done. cbn [negb].
  rewrite (proj2 (Z.ltb_ge _ _)) by lia. rewrite Nat2Z.id.
  assert (HpackInputStream.max_string_literal_size_ (remove_prefix (Z.of_nat n) s1) = kDefaultMaxStringLiteralSize)
    as -> by apply Hrest.
  destruct (DecodeString_encoded t Ht (HpackInputStream.max_string_literal_size_ s1) str
              kDefaultMaxStringLiteralSize (take n (HpackInputStream.buffer_ s1)) Hb) as (s' & E2);
    [done|exact Hbytes|done|].
  rewrite E2. step_done. by eexists.
Qed.

Definition set_buffers (kb vb : list Z) (d : HpackDecoder) : HpackDecoder :=
  d <| key_buffer_ := kb |> <| value_buffer_ := vb |>.

Lemma string_prefixes_differ : prefixes_differ kStringLiteralHuffmanEncoded kStringLiteralIdentityEncoded = true.
Proof. reflexivity. Qed.

Lemma DecodeNextStringLiteral_spec allow str rest is_key s d :
  literal_ok str → at_byte s (string_bits allow str ++ rest) →
  ∃ s' kb vb, DecodeNextStringLiteral t is_key s d = Done (Some str, s', set_buffers kb vb d) ∧ at_byte s' rest.
Proof.
  intros Hstr Ha. unfold string_bits in Ha. unfold DecodeNextStringLiteral.
  destruct string_prefixes_ok as [Hp1 Hp2]. destruct (use_huffman allow str) eqn:Euse.
  - unfold use_huffman in Euse. apply andb_true_iff in Euse as [_ Hn]. apply Nat.ltb_lt in Hn.
    unfold prefixed in Ha. rewrite <- !app_assoc in Ha.
    destruct (MatchPrefix_yes s _ _ Ha Hp1) as (s1 & -> & Hg & Hu & Ho & Hm). step_done.
    destruct (DecodeNextHuffmanString_spec str rest s1 Hg Ho Hm Hstr Hn Hu) as (s2 & -> & H2). step_done.
    cbn [default from_option id]. destruct is_key.
    + exists s2, str, (value_buffer_ d). split; [by destruct d|done].
    + exists s2, (key_buffer_ d), str. split; [by destruct d|done].
  - unfold prefixed in Ha. rewrite <- !app_assoc in Ha.
    rewrite (MatchPrefix_no s _ _ _ Ha Hp1 string_prefixes_differ). step_done.
    destruct (MatchPrefix_yes s _ _ Ha Hp2) as (s1 & -> & Hg & Hu & Ho & Hm). step_done.
    destruct Hstr as [Hb Hl]. unfold kDefaultMaxStringLiteralSize in *.
    destruct (DecodeNextIdentityString_bytes s1 (prefix_rest kStringLiteralIdentityEncoded) str rest Hg)
      as (s2 & -> & Hg2 & Hu2 & H02 & Hm2); [by rewrite Ho|done|by rewrite Hm|unfold u32_max; lia|exact Hu|].
    step_done. exists s2, (key_buffer_ d), (value_buffer_ d). split; [by destruct d|].
    split_and!; [done|done|by rewrite Hm2|done].
Qed.
End Wire.
