(* ===== verification/HpackSync.v ===== *)
(** * Two header tables in step

    The table of an encoder and that of the decoder that reads its output.  The decoder's
    may be larger, and then has old headers that the encoder has evicted; the encoder's
    headers are the newest ones of the decoder's. *)

From S2P Require Import Prelude HpackConstants HpackHeaderTable HpackTableInvariant.

(** ** Sequences of headers *)

Lemma fit_prefix me md l x : me <= md → ∃ x', fit md (l ++ x) = fit me l ++ x'.
Proof.
  revert me md. induction l as [|p l IH]; intros me md Hm; cbn [fit app]; [by eexists|].
  destruct (Z.leb_spec (pair_size p) me); [|by eexists].
  rewrite (proj2 (Z.leb_le (pair_size p) md)) by lia.
  destruct (IH (me - pair_size p) (md - pair_size p) ltac:(lia)) as [x' ->]. by exists x'.
Qed.

Lemma add_header_prefix me md p l x :
  me <= md → ∃ x', add_header md p (l ++ x) = add_header me p l ++ x'.
Proof.
  intros Hm. unfold add_header. destruct (Z.leb_spec (pair_size p) me); [|by eexists].
  rewrite (proj2 (Z.leb_le (pair_size p) md)) by lia.
  destruct (fit_prefix (me - pair_size p) (md - pair_size p) l x ltac:(lia)) as [x' ->]. by exists x'.
Qed.

Lemma total_length l : 32 * Z.of_nat (length l) <= total l.
Proof. induction l as [|p l IH]; [done|]. rewrite total_cons. cbn [length]. pose proof (pair_size_pos p). lia. Qed.

(** ** The relation *)

Section Sync.
Context (st : HpackStaticTable).

(** [b] is how many headers may still be added. *)
Record synced (b : nat) (te td : HpackHeaderTable) : Prop := {
  sy_encoder : table_inv st te;
  sy_decoder : table_inv st td;
  sy_prefix : ∃ old, dynamic td = dynamic te ++ old;
  sy_max : max_size_ te <= max_size_ td;
  sy_nonneg : 0 <= max_size_ te;
  sy_bound : settings_size_bound_ td = settings_size_bound_ te;
  sy_u32 : settings_size_bound_ te <= u32_max;
  sy_room : total_insertions_ te + Z.of_nat b < 2 ^ 63 ∧ total_insertions_ td + Z.of_nat b < 2 ^ 63
}.

Lemma synced_sizes b te td :
  synced b te td → max_size_ te < 2 ^ 64 ∧ max_size_ td < 2 ^ 64 ∧ size_ te < 2 ^ 64 ∧ size_ td < 2 ^ 64 ∧
  max_size_ te <= u32_max ∧ 0 <= total_insertions_ te ∧ 0 <= total_insertions_ td.
Proof.
  intros Hs. destruct (sy_encoder _ _ _ Hs) as [Hc1 Hm1 Hb1], (sy_decoder _ _ _ Hs) as [Hc2 Hm2 Hb2].
  pose proof (sy_bound _ _ _ Hs). pose proof (sy_u32 _ _ _ Hs).
  pose proof (tc_insertions _ _ Hc1). pose proof (tc_insertions _ _ Hc2). unfold u32_max in *. lia.
Qed.

Lemma synced_less b b' te td : synced b te td → (b' <= b)%nat → synced b' te td.
Proof. intros [? ? ? ? ? ? ? [? ?]] Hb. constructor; try done. lia. Qed.

(** ** Changes on both sides *)

Lemma synced_add b te td p :
  synced (S b) te td → small p →
  ∃ re rd te' td', TryAddEntry p.1 p.2 te = Done (re, te') ∧ TryAddEntry p.1 p.2 td = Done (rd, td') ∧
    synced b te' td' ∧ max_size_ te' = max_size_ te.
Proof.
  intros Hs Hp. destruct (synced_sizes _ _ _ Hs) as (Hm1 & Hm2 & _ & _ & _ & Hi1 & Hi2).
  destruct Hs as [He Hd [old Hold] Hmax Hn Hb Hu [Hr1 Hr2]].
  destruct (TryAddEntry_spec st te p) as (re & te' & E1 & He' & D1 & _ & M1 & B1 & I1); [done..|lia|].
  destruct (TryAddEntry_spec st td p) as (rd & td' & E2 & Hd' & D2 & _ & M2 & B2 & I2); [done..|lia|].
  exists re, rd, te', td'. split_and!; [done|done| |done]. constructor; try done; [|lia..].
  rewrite D1, D2, Hold. by apply add_header_prefix.
Qed.

Lemma synced_settings b te td n :
  synced b te td → 0 <= n <= u32_max →
  ∃ te' td', SetSettingsHeaderTableSize n te = Done te' ∧ SetSettingsHeaderTableSize n td = Done td' ∧
    synced b te' td' ∧ max_size_ te' = Z.min n (max_size_ te).
Proof.
  intros Hs Hn. destruct (synced_sizes _ _ _ Hs) as (_ & _ & Hs1 & Hs2 & _).
  destruct Hs as [He Hd [old Hold] Hmax Hnn Hb Hu [Hr1 Hr2]].
  destruct (SetSettingsHeaderTableSize_spec st te n He Hs1) as (te' & E1 & He' & D1 & M1 & B1 & I1); [lia|].
  destruct (SetSettingsHeaderTableSize_spec st td n Hd Hs2) as (td' & E2 & Hd' & D2 & M2 & B2 & I2); [lia|].
  exists te', td'. split_and!; [done|done| |done]. constructor; try done; [|lia..].
  rewrite D1, D2, Hold. apply fit_prefix. lia.
Qed.

(** Nothing changes for the encoder. *)
Lemma synced_same_setting b te td :
  synced b te td →
  ∃ td', SetSettingsHeaderTableSize (settings_size_bound_ te) td = Done td' ∧ synced b te td'.
Proof.
  intros Hs. destruct (synced_sizes _ _ _ Hs) as (_ & _ & Hs1 & Hs2 & _).
  destruct Hs as [He Hd [old Hold] Hmax Hnn Hb Hu [Hr1 Hr2]]. pose proof (ti_bound _ _ He). pose proof (ti_bound _ _ Hd).
  destruct (SetSettingsHeaderTableSize_spec st td (settings_size_bound_ te) Hd Hs2)
    as (td' & E2 & Hd' & D2 & M2 & B2 & I2); [lia|].
  exists td'. split; [done|]. rewrite Z.min_r in * by lia. constructor; try done; [|lia..].
  exists old. rewrite D2, fit_all; [done|]. pose proof (ti_max _ _ Hd). pose proof (tc_size _ _ (ti_core _ _ Hd)). lia.
Qed.

(** A size update on the decoder's side. *)
Lemma synced_max_size b te td n :
  synced b te td → max_size_ te <= n <= settings_size_bound_ te →
  ∃ td', SetMaxSize n td = Done td' ∧ synced b te td'.
Proof.
  intros Hs Hn. destruct (synced_sizes _ _ _ Hs) as (_ & _ & Hs1 & Hs2 & _).
  destruct Hs as [He Hd [old Hold] Hmax Hnn Hb Hu [Hr1 Hr2]].
  destruct (SetMaxSize_core st td n (ti_core _ _ Hd) Hs2) as (td' & E & Hd' & D & M & B & I); [lia|].
  exists td'. split; [done|]. constructor; try done; [|lia..].
  destruct (fit_prefix (max_size_ te) n (dynamic te) old ltac:(lia)) as [old' Ef].
  exists old'. rewrite D, Hold, Ef, fit_all; [done|].
  pose proof (ti_max _ _ He). pose proof (tc_size _ _ (ti_core _ _ He)). lia.
Qed.
(** ** Indices *)

Context (Hst : static_ok st) (Hlen : length (st_entries st) = 61%nat).

Lemma synced_new b : Z.of_nat b < 2 ^ 62 → synced b (new_HpackHeaderTable st) (new_HpackHeaderTable st).
Proof.
  intros Hb. pose proof (new_table_inv st Hst).
  constructor; cbn [new_HpackHeaderTable max_size_ settings_size_bound_ total_insertions_]; try done.
  - exists []. by rewrite app_nil_r.
  - rewrite Hlen. lia.
Qed.

(** The index of an entry of the encoder means the same header to the decoder. *)
Lemma synced_index b te td e :
  synced b te td → e ∈ entries st te →
  0 < IndexOf e te <= u32_max ∧
  ∃ e', GetByIndex (IndexOf e te) td = Some e' ∧ as_header e' = as_header e.
Proof.
  intros Hs He. destruct (synced_sizes _ _ _ Hs) as (_ & _ & _ & _ & Hmax & Hi0 & _).
  destruct (sy_encoder _ _ _ Hs) as [Hc1 Hm1 Hb1], (sy_decoder _ _ _ Hs) as [Hc2 Hm2 Hb2].
  pose proof (sy_room _ _ _ Hs) as [Hr _].
  destruct (GetByIndex_IndexOf st Hst te e Hc1) as [Hget Hrange]; [lia|done|].
  assert (IndexOf e te <= u32_max) as Hu.
  { pose proof (total_length (dynamic te)) as Ht. pose proof (tc_size _ _ Hc1).
    unfold entries in Hrange. rewrite length_app, Hlen in Hrange.
    unfold dynamic in Ht at 1. rewrite length_map in Ht. unfold u32_max in *. lia. }
  split; [lia|]. set (i := IndexOf e te) in *. destruct (sy_prefix _ _ _ Hs) as [old Hold].
  unfold GetByIndex in *. rewrite (proj2 (Z.eqb_neq i 0)) in * by lia.
  rewrite (tc_statics _ _ Hc1) in Hget. rewrite (tc_statics _ _ Hc2).
  destruct (i - 1 <? Z.of_nat (length (st_entries st))); [by exists e|].
  set (k := i - 1 - Z.of_nat (length (st_entries st))) in *.
  destruct (Z.ltb_spec k (Z.of_nat (length (dynamic_entries_ te)))) as [Hk|]; [|done].
  assert (dynamic td !! Z.to_nat k = Some (as_header e)) as Hd.
  { rewrite Hold. apply lookup_app_l_Some. unfold dynamic.
    change (List.map as_header (dynamic_entries_ te)) with (as_header <$> dynamic_entries_ te).
    by rewrite list_lookup_fmap, Hget. }
  unfold dynamic in Hd. change (List.map as_header (dynamic_entries_ td)) with (as_header <$> dynamic_entries_ td) in Hd.
  rewrite list_lookup_fmap in Hd. apply fmap_Some in Hd as (e' & He' & Eh).
  pose proof (lookup_lt_Some _ _ _ He').
  rewrite (proj2 (Z.ltb_lt k _)) by lia. by exists e'.
Qed.
End Sync.
