(* ===== verification/HpackTransmit.v ===== *)
(** * Transmission of header representations

    Each emission of the encoder appends the bits of an instruction, and the decoder that
    reads them takes the same headers and keeps its table in step. *)

From S2P Require Import Prelude Bits HpackConstants HpackOutputStream HpackInputStream HpackHuffmanTable HpackHuffmanCode HpackHeaderTable HpackTableInvariant HpackSync SpdyHeaderBlock HpackDecoder HpackEncoder HpackWire.

(** ** Lengths *)

Lemma varint_groups_length k fuel I :
  0 <= I < 2 ^ (7 * Z.of_nat k) → (0 < k)%nat → (length (varint_groups fuel I) <= k)%nat.
Proof.
  revert fuel I. induction k as [|k IH]; intros [|fuel] I HI Hk; cbn [varint_groups length]; try lia.
  destruct (Z.ltb_spec I 128); cbn [length]; [lia|]. apply le_n_S. destruct k as [|k]; [cbn in HI; lia|].
  apply IH; [|lia]. split; [apply Z.div_pos; lia|]. apply Z.div_lt_upper_bound; [lia|].
  replace (7 * Z.of_nat (S (S k))) with (7 + 7 * Z.of_nat (S k)) in HI by lia.
  rewrite Z.pow_add_r in HI by lia. exact (proj2 HI).
Qed.

Lemma prefixed_length p I k :
  prefix_ok p → 0 <= I < 2 ^ (7 * Z.of_nat k) + (2 ^ Z.of_nat (prefix_rest p) - 1) → (0 < k)%nat →
  (8 <= length (prefixed p I) <= 8 + 8 * k)%nat.
Proof.
  intros [Hn _] HI Hk. unfold prefixed, varint_bits, prefix_of. rewrite length_app, z_bits_length.
  assert (Z.to_nat (prefix_bit_size p) + prefix_rest p = 8)%nat as E by (unfold prefix_rest; lia).
  destruct (Z.ltb_spec I (2 ^ Z.of_nat (prefix_rest p) - 1)).
  - rewrite z_bits_length. lia.
  - rewrite length_app, z_bits_length, bytes_bits_length.
    pose proof (Z.pow_pos_nonneg 2 (Z.of_nat (prefix_rest p)) ltac:(lia) ltac:(lia)).
    pose proof (varint_groups_length k 6 (I - (2 ^ Z.of_nat (prefix_rest p) - 1)) ltac:(lia) Hk). lia.
Qed.

Section Transmit.
Context (t : HpackHuffmanTable) (Ht : good_table t).
Context (st : HpackStaticTable).

Lemma string_size_length p n :
  p = kStringLiteralHuffmanEncoded ∨ p = kStringLiteralIdentityEncoded →
  Z.of_nat n <= kDefaultMaxStringLiteralSize → (length (prefixed p (Z.of_nat n)) <= 24)%nat.
Proof.
  intros Hp Hn. unfold kDefaultMaxStringLiteralSize in Hn. destruct string_prefixes_ok as [Hp1 Hp2].
  assert (prefix_ok p ∧ 2 ^ (7 * Z.of_nat 2) + (2 ^ Z.of_nat (prefix_rest p) - 1) = 16511) as [Hok E]
    by (destruct Hp as [->| ->]; done).
  pose proof (prefixed_length p (Z.of_nat n) 2 Hok ltac:(rewrite E; lia) ltac:(lia)). lia.
Qed.

Lemma string_bits_length allow str :
  literal_ok str → (length (string_bits t allow str) <= 24 + 8 * length str)%nat.
Proof.
  intros [_ Hl]. unfold string_bits, use_huffman.
  destruct (huffman_bits_aligned t str) as [n En]. rewrite En, Nat.mul_comm, Nat.div_mul by lia.
  destruct (Nat.ltb_spec n (length str)) as [Hn|Hn]; rewrite ?andb_true_r, ?andb_false_r; [destruct allow|];
    rewrite length_app, ?En, ?bytes_bits_length.
  - pose proof (string_size_length kStringLiteralHuffmanEncoded n). intuition lia.
  - pose proof (string_size_length kStringLiteralIdentityEncoded (length str)). intuition lia.
  - pose proof (string_size_length kStringLiteralIdentityEncoded (length str)). intuition lia.
Qed.

(** ** What the decoder hands out *)

(** The decoder but for its table and its buffers. *)
Definition front (d : HpackDecoder) : HpackDecoder :=
  d <| HpackDecoder.header_table_ := new_HpackHeaderTable st |> <| key_buffer_ := [] |> <| value_buffer_ := [] |>.

Definition deliver (p : header) (f : HpackDecoder) : option HpackDecoder :=
  match HandleHeaderRepresentation p.1 p.2 f with
  | Done (true, f') => Some f'
  | _ => None
  end.
Fixpoint deliver_all (l : list header) (f : HpackDecoder) : option HpackDecoder :=
  match l with
  | [] => Some f
  | p :: l => f ← deliver p f; deliver_all l f
  end.

Lemma deliver_all_app l k f : deliver_all (l ++ k) f = (f ← deliver_all l f; deliver_all k f).
Proof.
  revert f. induction l as [|p l IH]; intros f; cbn; [done|]. destruct (deliver p f); cbn; [apply IH|done].
Qed.

Lemma deliver_front p d f' :
  deliver p (front d) = Some f' →
  ∃ d', HandleHeaderRepresentation p.1 p.2 d = Done (true, d') ∧ front d' = f' ∧
    HpackDecoder.header_table_ d' = HpackDecoder.header_table_ d.
Proof.
  destruct d as [m tbl buf block kb vb h cs seen started]. unfold deliver, HandleHeaderRepresentation, see_header, front.
  cbn [set_field HpackDecoder.header_table_ key_buffer_ value_buffer_ regular_header_seen_].
  destruct (0 <? length p.1)%nat; [destruct (starts_with_colon p.1); [destruct seen; [done|]|]|];
    cbn [set_field handler_ decoded_block_ negb]; destruct h; cbn [negb];
    try (destruct (bool_decide (block = [])); cbn; [|done]);
    try (destruct (block_find p.1 block)); intros [= <-]; eexists; done.
Qed.

Lemma front_table tbl d : front (d <| HpackDecoder.header_table_ := tbl |>) = front d.
Proof. by destruct d. Qed.

Lemma front_buffers kb vb d : front (set_buffers kb vb d) = front d.
Proof. by destruct d. Qed.

Lemma table_buffers kb vb d : HpackDecoder.header_table_ (set_buffers kb vb d) = HpackDecoder.header_table_ d.
Proof. by destruct d. Qed.

(** The decoder at [X] hands out the headers and gets from one table to the other. *)
Definition understood (X : list bool) (reps : list header) (td td' : HpackHeaderTable) : Prop :=
  ∀ s d rest f', at_byte s (X ++ rest) → HpackDecoder.header_table_ d = td →
  deliver_all reps (front d) = Some f' →
  ∃ n s' d', (∀ fuel, decode_opcodes t (n + fuel) s d = decode_opcodes t fuel s' d') ∧
    (8 * n <= length X)%nat ∧ at_byte s' rest ∧ HpackDecoder.header_table_ d' = td' ∧ front d' = f'.

Lemma understood_nil td : understood [] [] td td.
Proof. intros s d rest f' Hs Hd [= <-]. exists 0%nat, s, d. done. Qed.

Lemma understood_app X Y l k td1 td2 td3 :
  understood X l td1 td2 → understood Y k td2 td3 → understood (X ++ Y) (l ++ k) td1 td3.
Proof.
  intros HX HY s d rest f' Hs Hd Hf. rewrite <- app_assoc in Hs. rewrite deliver_all_app in Hf.
  destruct (deliver_all l (front d)) as [f1|] eqn:E1; [|done]. cbn in Hf.
  destruct (HX s d (Y ++ rest) f1 Hs Hd E1) as (n & s1 & d1 & Hn & Hl1 & Hs1 & Hd1 & <-).
  destruct (HY s1 d1 rest f' Hs1 Hd1 Hf) as (m & s2 & d2 & Hm & Hl2 & Hs2 & Hd2 & Hf2).
  exists (n + m)%nat, s2, d2. split_and!; try done; [|rewrite length_app; lia].
  intros fuel. by rewrite <- Nat.add_assoc, Hn, Hm.
Qed.

Lemma HasMoreData_at s b bs : at_byte s (b :: bs) → HasMoreData s = true.
Proof.
  intros (Hs & _ & _ & Hu). rewrite HasMoreData_unread by done. apply negb_true_iff, bool_decide_eq_false.
  by rewrite Hu.
Qed.

Lemma understood_one X l td td' :
  (8 <= length X)%nat →
  (∀ s d rest f', at_byte s (X ++ rest) → HpackDecoder.header_table_ d = td →
     deliver_all l (front d) = Some f' →
     ∃ s' d', DecodeNextOpcode t s d = Done (true, s', d') ∧ at_byte s' rest ∧
       HpackDecoder.header_table_ d' = td' ∧ front d' = f') →
  understood X l td td'.
Proof.
  intros HX H s d rest f' Hs Hd Hf. destruct (H s d rest f' Hs Hd Hf) as (s' & d' & E & Hs' & Hd' & Hf').
  exists 1%nat, s', d'. split_and!; [|lia|done..]. intros fuel. cbn [Nat.add decode_opcodes].
  destruct X as [|x X]; [cbn in HX; lia|]. rewrite (HasMoreData_at s x (X ++ rest)) by done.
  cbn [negb]. rewrite E. done.
Qed.

(** ** Opcodes *)

(** A stream behind the prefix of an opcode or a string. *)
Definition behind (p : HpackPrefix) (s : HpackInputStream) (bs : list bool) : Prop :=
  good s ∧ HpackInputStream.bit_offset_ s = prefix_bit_size p ∧
  HpackInputStream.max_string_literal_size_ s = kDefaultMaxStringLiteralSize ∧ unread s = bs.

Lemma opcodes_ok :
  prefix_ok kIndexedOpcode ∧ prefix_ok kLiteralIncrementalIndexOpcode ∧ prefix_ok kLiteralNoIndexOpcode ∧
  prefix_ok kLiteralNeverIndexOpcode ∧ prefix_ok kHeaderTableSizeUpdateOpcode.
Proof. repeat split; cbn; lia. Qed.

Lemma Match_behind s p bs :
  at_byte s (prefix_of p ++ bs) → prefix_ok p →
  ∃ s', MatchPrefixAndConsume p s = Done (true, s') ∧ behind p s' bs.
Proof. intros Hs Hp. destruct (MatchPrefix_yes s p bs Hs Hp) as (s' & E & ? & ? & ? & ?). by exists s'. Qed.

Ltac skip_prefix Hs Hp :=
  rewrite (MatchPrefix_no _ _ _ _ Hs Hp) by reflexivity; step_done.
Ltac take_prefix Hs Hp :=
  let s' := fresh "s'" in let H := fresh in
  destruct (Match_behind _ _ _ Hs Hp) as (s' & -> & H); exists s'; split; [done|exact H].

Lemma opcode_indexed s d bs :
  at_byte s (prefix_of kIndexedOpcode ++ bs) →
  ∃ s', DecodeNextOpcode t s d = DecodeNextIndexedHeader s' d ∧ behind kIndexedOpcode s' bs.
Proof.
  destruct opcodes_ok as (H1 & H2 & H3 & H4 & H5). intros Hs. unfold DecodeNextOpcode. take_prefix Hs H1.
Qed.

Lemma opcode_incremental s d bs :
  at_byte s (prefix_of kLiteralIncrementalIndexOpcode ++ bs) →
  ∃ s', DecodeNextOpcode t s d = DecodeNextLiteralHeader t true s' d ∧
    behind kLiteralIncrementalIndexOpcode s' bs.
Proof.
  destruct opcodes_ok as (H1 & H2 & H3 & H4 & H5). intros Hs. unfold DecodeNextOpcode.
  skip_prefix Hs H1. take_prefix Hs H2.
Qed.

Lemma opcode_no_index s d bs :
  at_byte s (prefix_of kLiteralNoIndexOpcode ++ bs) →
  ∃ s', DecodeNextOpcode t s d = DecodeNextLiteralHeader t false s' d ∧ behind kLiteralNoIndexOpcode s' bs.
Proof.
  destruct opcodes_ok as (H1 & H2 & H3 & H4 & H5). intros Hs. unfold DecodeNextOpcode.
  skip_prefix Hs H1. skip_prefix Hs H2. take_prefix Hs H3.
Qed.

Lemma opcode_size_update s d bs :
  at_byte s (prefix_of kHeaderTableSizeUpdateOpcode ++ bs) →
  ∃ s', DecodeNextOpcode t s d = DecodeNextHeaderTableSizeUpdate s' d ∧
    behind kHeaderTableSizeUpdateOpcode s' bs.
Proof.
  destruct opcodes_ok as (H1 & H2 & H3 & H4 & H5). intros Hs. unfold DecodeNextOpcode.
  skip_prefix Hs H1. skip_prefix Hs H2. skip_prefix Hs H3. skip_prefix Hs H4. take_prefix Hs H5.
Qed.

Lemma behind_uint32 p s I rest :
  behind p s (varint_bits (prefix_rest p) I ++ rest) → prefix_ok p → 0 <= I <= u32_max →
  ∃ s', DecodeNextUint32 s = Done (true, I, s') ∧ at_byte s' rest.
Proof. intros (Hs & Ho & Hm & Hu) Hp HI. by apply (DecodeUint32_after_prefix s p I rest). Qed.

(** ** Instructions *)

(** The encoder writes instructions for some headers, of [cost] bytes at most; the decoder
    understands them. *)
Definition transmits (f : HpackEncoder → outcome HpackEncoder) (reps : list header) (cost : nat)
    (e : HpackEncoder) : Prop :=
  ∀ b td bs, synced st (b + length reps) (header_table_ e) td → aligned (output_stream_ e) bs →
  ∃ o te' td' X, f e = Done (e <| output_stream_ := o |> <| header_table_ := te' |>) ∧
    aligned o (bs ++ X) ∧ synced st b te' td' ∧ max_size_ te' = max_size_ (header_table_ e) ∧
    (length X <= 8 * cost)%nat ∧ understood X reps td td'.

Lemma same_table e o : e <| output_stream_ := o |> <| header_table_ := header_table_ e |> = e <| output_stream_ := o |>.
Proof. by destruct e. Qed.

Lemma table_output e o : header_table_ (e <| output_stream_ := o |>) = header_table_ e.
Proof. by destruct e. Qed.

Lemma EmitString_after str e o bs :
  literal_ok str → aligned o bs →
  ∃ o', EmitString t str (e <| output_stream_ := o |>) = Done (e <| output_stream_ := o' |>) ∧
    aligned o' (bs ++ string_bits t (allow_huffman_compression_ e) str).
Proof. intros Hstr. exact (EmitString_spec t Ht str (e <| output_stream_ := o |>) Hstr bs). Qed.

Lemma deliver_one p f f' : deliver_all [p] f = Some f' → deliver p f = Some f'.
Proof. cbn. by destruct (deliver p f). Qed.

Lemma index_length p I : prefix_ok p → 0 <= I <= u32_max → (8 <= length (prefixed p I) <= 8 * 6)%nat.
Proof.
  intros Hp HI. pose proof Hp as [Hn _]. apply (prefixed_length p I 5); [done| |lia].
  pose proof (Z.pow_pos_nonneg 2 (Z.of_nat (prefix_rest p))). unfold u32_max in HI.
  change (2 ^ (7 * Z.of_nat 5)) with 34359738368. lia.
Qed.

Lemma transmits_nil e : transmits (λ e, Done e) [] 0 e.
Proof.
  intros b td bs Hs Ha. rewrite Nat.add_0_r in Hs. exists (output_stream_ e), (header_table_ e), td, [].
  rewrite app_nil_r. split_and!; [by destruct e|done|done|done|done|apply understood_nil].
Qed.

Lemma transmits_seq f g l k c1 c2 e :
  transmits f l c1 e → (∀ e', transmits g k c2 e') → transmits (λ e, e ← f e; g e) (l ++ k) (c1 + c2) e.
Proof.
  intros Hf Hg b td bs Hs Ha. rewrite length_app in Hs.
  destruct (Hf (b + length k)%nat td bs) as (o1 & te1 & td1 & X & E1 & H1 & Hs1 & Em1 & Hl1 & Hu1); [|done|].
  { by replace (b + length k + length l)%nat with (b + (length l + length k))%nat by lia. }
  set (e1 := e <| output_stream_ := o1 |> <| header_table_ := te1 |>) in *.
  assert (synced st (b + length k) (header_table_ e1) td1 ∧ aligned (output_stream_ e1) (bs ++ X)) as [Hs1' H1'] by done.
  destruct (Hg e1 b td1 (bs ++ X) Hs1' H1')
    as (o2 & te2 & td2 & Y & E2 & H2 & Hs2 & Em2 & Hl2 & Hu2).
  exists o2, te2, td2, (X ++ Y). split_and!; [|by rewrite app_assoc|done| |rewrite length_app; lia|].
  - rewrite E1. step_done. rewrite E2. by destruct e.
  - rewrite Em2, <- Em1. by destruct e.
  - by apply (understood_app _ _ _ _ td td1).
Qed.

Lemma transmits_weaken f g l c c' e : f e = g e → (c <= c')%nat → transmits f l c e → transmits g l c' e.
Proof.
  intros E Hc Hf b td bs Hs Ha. destruct (Hf b td bs Hs Ha) as (o & te & td' & X & E1 & H1 & ? & ? & ? & ?).
  exists o, te, td', X. rewrite <- E. split_and!; try done. lia.
Qed.

(** A size that the decoder can take. *)
Lemma size_update_understood b te td n :
  synced st b te td → max_size_ te <= n <= settings_size_bound_ te →
  ∃ td', synced st b te td' ∧ understood (prefixed kHeaderTableSizeUpdateOpcode n) [] td td'.
Proof.
  intros Hs Hn. destruct (synced_max_size st b te td n Hs Hn) as (td' & E & Hs'). exists td'. split; [done|].
  pose proof (sy_nonneg _ _ _ _ Hs). pose proof (sy_u32 _ _ _ _ Hs). pose proof (sy_bound _ _ _ _ Hs) as Hb.
  destruct opcodes_ok as (_ & _ & _ & _ & Hp). pose proof (index_length _ n Hp ltac:(lia)) as Hl.
  apply understood_one; [lia|]. intros s d rest f' Hat Hd [= <-]. unfold prefixed in Hat. rewrite <- app_assoc in Hat.
  destruct (opcode_size_update s d _ Hat) as (s1 & -> & H1).
  destruct (behind_uint32 _ s1 n rest H1 Hp) as (s2 & Ed & H2); [lia|].
  exists s2, (d <| HpackDecoder.header_table_ := td' |>). unfold DecodeNextHeaderTableSizeUpdate.
  rewrite Ed. step_done. cbn [negb]. rewrite Hd, (proj2 (Z.ltb_ge _ n)) by lia. rewrite E. step_done.
  split_and!; [done|done|by destruct d|by rewrite front_table].
Qed.

Context (Hst : static_ok st) (Hlen : length (st_entries st) = 61%nat).

Lemma EmitIndex_transmits e entry :
  entry ∈ entries st (header_table_ e) → transmits (EmitIndex entry) [as_header entry] 6 e.
Proof.
  intros Hin b td bs Hs Ha. apply (synced_less st _ b) in Hs; [|cbn; lia].
  destruct (synced_index st Hst Hlen b _ _ _ Hs Hin) as (Hi & e' & Hget & Ee).
  destruct opcodes_ok as [Hp _]. set (I := IndexOf entry (header_table_ e)) in *.
  destruct (emit_prefixed kIndexedOpcode I e bs Ha Hp) as (o1 & o & E1 & E2 & Ho); [lia|].
  pose proof (index_length _ I Hp ltac:(lia)) as Hl.
  exists o, (header_table_ e), td, (prefixed kIndexedOpcode I). rewrite same_table.
  split_and!; [|done|done|done|lia|].
  - unfold EmitIndex. rewrite E1. step_done. rewrite table_output. fold I. rewrite u32_small; [done|]. unfold is_u32. lia.
  - apply understood_one; [lia|]. intros s d rest f' Hat Hd Hf. unfold prefixed in Hat. rewrite <- app_assoc in Hat.
    destruct (opcode_indexed s d _ Hat) as (s1 & -> & H1).
    destruct (behind_uint32 _ s1 I rest H1 Hp) as (s2 & E & H2); [lia|].
    apply deliver_one, deliver_front in Hf as (d' & Eh & Hf & Hd'). unfold as_header in Ee, Eh. injection Ee as En Ev.
    cbn [fst snd] in Eh. rewrite <- En, <- Ev in Eh.
    exists s2, d'. unfold DecodeNextIndexedHeader. rewrite E. step_done. cbn [negb]. rewrite Hd, Hget, Eh. step_done.
    split_and!; [done|done|congruence|done].
Qed.

(** ** Literals *)

(** How a name is written: [0] and the string, or the index of an entry with that name. *)
Definition name_index (tbl : HpackHeaderTable) (name : list Z) (I : Z) : Prop :=
  I = 0 ∨ 0 < I ∧ ∃ e, GetByIndex I tbl = Some e ∧ name_ e = name.

Definition name_bits (allow : bool) (name : list Z) (I : Z) : list bool :=
  if I =? 0 then string_bits t allow name else [].

Definition literal_bits (p : HpackPrefix) (allow : bool) (rep : header) (I : Z) : list bool :=
  prefixed p I ++ name_bits allow rep.1 I ++ string_bits t allow rep.2.

Definition rep_ok (rep : header) : Prop := literal_ok rep.1 ∧ literal_ok rep.2.

Lemma literal_bits_length p allow rep I :
  prefix_ok p → rep_ok rep → 0 <= I <= u32_max →
  (8 <= length (literal_bits p allow rep I) <= 8 * Z.to_nat (pair_size rep))%nat.
Proof.
  intros Hp [Hn Hv] HI. unfold literal_bits, name_bits, pair_size. rewrite !length_app.
  pose proof (index_length p I Hp HI). pose proof (string_bits_length allow _ Hn).
  pose proof (string_bits_length allow _ Hv). destruct (I =? 0); cbn [length]; lia.
Qed.

Lemma DecodeNextName_understood p s d allow name I rest :
  prefix_ok p → 0 <= I <= u32_max → literal_ok name → name_index (HpackDecoder.header_table_ d) name I →
  behind p s (varint_bits (prefix_rest p) I ++ name_bits allow name I ++ rest) →
  ∃ s' d', DecodeNextName t s d = Done (Some name, s', d') ∧ at_byte s' rest ∧ front d' = front d ∧
    HpackDecoder.header_table_ d' = HpackDecoder.header_table_ d.
Proof.
  intros Hp HI Hname Hidx Hs. destruct (behind_uint32 p s I _ Hs Hp HI) as (s1 & E1 & H1).
  unfold DecodeNextName. rewrite E1. step_done. cbn [negb]. unfold name_bits in H1.
  destruct Hidx as [->|(Hpos & e & Hget & <-)].
  - cbn [Z.eqb] in *. destruct (DecodeNextStringLiteral_spec t Ht allow name rest true s1 d Hname H1)
      as (s2 & kb & vb & E2 & H2).
    rewrite E2. exists s2, (set_buffers kb vb d). split_and!; [done|done|apply front_buffers|apply table_buffers].
  - rewrite (proj2 (Z.eqb_neq I 0)) in * by lia. rewrite Hget.
    destruct (IsStatic e); eexists s1, _; (split_and!; [done|done|..]); by destruct d.
Qed.

(** The opcode of a literal, and whether the header is added to the table. *)
Definition literal_opcode (should_index : bool) : HpackPrefix :=
  if should_index then kLiteralIncrementalIndexOpcode else kLiteralNoIndexOpcode.

Lemma literal_opcode_ok should_index : prefix_ok (literal_opcode should_index).
Proof. destruct opcodes_ok as (_ & H2 & H3 & _). by destruct should_index. Qed.

Lemma opcode_literal should_index s d bs :
  at_byte s (prefix_of (literal_opcode should_index) ++ bs) →
  ∃ s', DecodeNextOpcode t s d = DecodeNextLiteralHeader t should_index s' d ∧
    behind (literal_opcode should_index) s' bs.
Proof. destruct should_index; [apply opcode_incremental|apply opcode_no_index]. Qed.

Lemma literal_understood (should_index : bool) allow rep I td td' r :
  rep_ok rep → 0 <= I <= u32_max → name_index td rep.1 I →
  (if should_index then TryAddEntry rep.1 rep.2 td = Done (r, td') else td' = td) →
  understood (literal_bits (literal_opcode should_index) allow rep I) [rep] td td'.
Proof.
  intros Hrep HI Hidx Hadd. pose proof (literal_opcode_ok should_index) as Hp.
  pose proof (literal_bits_length _ allow rep I Hp Hrep HI) as Hl. destruct Hrep as [Hn Hv].
  apply understood_one; [lia|]. intros s d rest f' Hat Hd Hf.
  unfold literal_bits, prefixed in Hat. rewrite <- !app_assoc in Hat.
  destruct (opcode_literal _ s d _ Hat) as (s1 & -> & H1). rewrite <- Hd in Hidx.
  destruct (DecodeNextName_understood _ s1 d allow _ I _ Hp HI Hn Hidx H1) as (s2 & d2 & E2 & H2 & Hf2 & Hd2).
  destruct (DecodeNextStringLiteral_spec t Ht allow rep.2 rest false s2 d2 Hv H2) as (s3 & kb & vb & E3 & H3).
  rewrite <- Hf2, <- (front_buffers kb vb d2) in Hf. apply deliver_one, deliver_front in Hf as (d4 & E4 & Hf & Hd4).
  rewrite table_buffers in Hd4.
  unfold DecodeNextLiteralHeader. rewrite E2. step_done. rewrite E3. step_done. rewrite E4. step_done. cbn [negb].
  destruct should_index; cbn [negb].
  - rewrite Hd4, Hd2, Hd, Hadd. step_done. eexists s3, _. split_and!; [done|done|by destruct d4|by rewrite front_table].
  - exists s3, d4. split_and!; [done|done|congruence|done].
Qed.

Lemma rep_small rep : rep_ok rep → small rep.
Proof.
  intros [[_ Hn] [_ Hv]]. unfold small, pair_size, kDefaultMaxStringLiteralSize in *. lia.
Qed.

(** The name that the encoder writes. *)
Lemma encoder_name_index b te td name :
  synced st b te td →
  ∃ r I, GetByName name te = Done r ∧ 0 <= I <= u32_max ∧ name_index td name I ∧
    match r with
    | Some entry => I = IndexOf entry te ∧ I ≠ 0
    | None => I = 0
    end.
Proof.
  intros Hs. destruct (GetByName_spec st Hst te name (ti_core _ _ (sy_encoder _ _ _ _ Hs))) as (r & E & Hr).
  destruct r as [entry|].
  - destruct Hr as [Hin Hname]. destruct (synced_index st Hst Hlen b te td entry Hs Hin) as (Hi & e' & Hget & Ee).
    exists (Some entry), (IndexOf entry te). split_and!; [done|lia|lia| |done|lia].
    right. split; [lia|]. exists e'. split; [done|]. unfold as_header in Ee. congruence.
  - exists None, 0. split_and!; [done|lia|unfold u32_max; lia|by left|done].
Qed.

Lemma EmitLiteral_spec b te td (rep : Representation) e :
  synced st b te td → te = header_table_ e → rep_ok rep →
  ∃ I, 0 <= I <= u32_max ∧ name_index td rep.1 I ∧
  ∀ o1 o2 bs, emit (AppendUint32 I) (e <| output_stream_ := o1 |>) = Done (e <| output_stream_ := o2 |>) →
  aligned o2 bs →
  ∃ o, EmitLiteral t rep (e <| output_stream_ := o1 |>) = Done (e <| output_stream_ := o |>) ∧
    aligned o (bs ++ name_bits (allow_huffman_compression_ e) rep.1 I
                  ++ string_bits t (allow_huffman_compression_ e) rep.2).
Proof.
  intros Hs -> [Hn Hv]. destruct (encoder_name_index b _ td rep.1 Hs) as (r & I & E & HI & Hidx & Hr).
  exists I. split_and!; [lia|lia|done|]. intros o1 o2 bs Eemit Ha. unfold EmitLiteral, name_bits.
  rewrite table_output, E. step_done.
  destruct r as [entry|].
  - destruct Hr as [-> Hne]. rewrite u32_small by (unfold is_u32; lia). rewrite Eemit. step_done.
    rewrite (proj2 (Z.eqb_neq _ 0)) by done.
    destruct (EmitString_after rep.2 e o2 bs Hv Ha) as (o & E2 & H2).
    by exists o.
  - subst I. rewrite Eemit. step_done.
    destruct (EmitString_after rep.1 e o2 bs Hn Ha) as (o3 & E3 & H3).
    rewrite E3. step_done.
    destruct (EmitString_after rep.2 e o3 _ Hv H3) as (o & E4 & H4).
    exists o. split; [done|]. rewrite <- app_assoc in H4. exact H4.
Qed.

Lemma EmitIndexedLiteral_transmits (rep : Representation) e :
  rep_ok rep → transmits (EmitIndexedLiteral t rep) [rep] (Z.to_nat (pair_size rep)) e.
Proof.
  intros Hrep b td bs Hs Ha. cbn [length] in Hs. rewrite Nat.add_1_r in Hs.
  destruct (EmitLiteral_spec _ _ td rep e Hs eq_refl Hrep) as (I & HI & Hidx & Hemit).
  pose proof (literal_opcode_ok true) as Hp.
  destruct (emit_prefixed kLiteralIncrementalIndexOpcode I e bs Ha Hp HI) as (o1 & o2 & E1 & E2 & H2).
  destruct (Hemit o1 o2 _ E2 H2) as (o & E3 & H3).
  destruct (synced_add st b _ _ rep Hs (rep_small rep Hrep)) as (re & rd & te' & td' & E4 & E5 & Hs' & Em).
  exists o, te', td', (literal_bits kLiteralIncrementalIndexOpcode (allow_huffman_compression_ e) rep I).
  rewrite <- app_assoc in H3. split_and!; [|exact H3|done|done| |].
  - unfold EmitIndexedLiteral. rewrite E1. step_done. rewrite E3. step_done. rewrite table_output.
    change (TryAddEntry rep.1 rep.2 (header_table_ e) = Done (re, te')) in E4. by rewrite E4.
  - by apply literal_bits_length.
  - by apply (literal_understood true _ rep I td td' rd).
Qed.

Lemma EmitNonIndexedLiteral_transmits (rep : Representation) e :
  rep_ok rep → transmits (EmitNonIndexedLiteral t rep) [rep] (Z.to_nat (pair_size rep)) e.
Proof.
  intros Hrep b td bs Hs Ha. apply (synced_less st _ b) in Hs; [|cbn; lia]. pose proof (literal_opcode_ok false) as Hp.
  assert (0 <= 0 <= u32_max) as H0 by (unfold u32_max; lia).
  destruct (emit_prefixed kLiteralNoIndexOpcode 0 e bs Ha Hp H0) as (o1 & o2 & E1 & E2 & H2).
  destruct (EmitString_after rep.1 e o2 _ (proj1 Hrep) H2) as (o3 & E3 & H3).
  destruct (EmitString_after rep.2 e o3 _ (proj2 Hrep) H3) as (o & E4 & H4).
  exists o, (header_table_ e), td, (literal_bits kLiteralNoIndexOpcode (allow_huffman_compression_ e) rep 0).
  rewrite same_table. split_and!; [| |done|done| |].
  - unfold EmitNonIndexedLiteral. rewrite E1. step_done. rewrite E2. step_done. rewrite E3. step_done. exact E4.
  - rewrite <- !app_assoc in H4. exact H4.
  - by apply literal_bits_length.
  - apply (literal_understood false _ rep 0 td td None); [done|done|by left|done].
Qed.

(** ** Sequences *)

Lemma transmits_intro f l c e : (table_inv st (header_table_ e) → transmits f l c e) → transmits f l c e.
Proof. intros H b td bs Hs. exact (H (sy_encoder _ _ _ _ Hs) b td bs Hs). Qed.

(** A header that the table has is written as an index. *)
Lemma lookup_transmits (rep : Representation) e :
  table_inv st (header_table_ e) →
  ∃ r, GetByNameAndValue rep.1 rep.2 (header_table_ e) = Done r ∧
    ∀ entry, r = Some entry → transmits (EmitIndex entry) [rep] (Z.to_nat (pair_size rep)) e.
Proof.
  intros Hinv. destruct (GetByNameAndValue_spec st Hst (header_table_ e) rep.1 rep.2 (ti_core _ _ Hinv)) as (r & E & Hr).
  exists r. split; [done|]. intros entry ->. destruct Hr as [Hin Heq]. pose proof (pair_size_pos rep).
  replace rep with (as_header entry) in * by (rewrite Heq; by destruct rep).
  apply (transmits_weaken (EmitIndex entry) _ _ 6); [done|lia|]. by apply EmitIndex_transmits.
Qed.

Lemma total_to_nat rep l : Z.to_nat (total (rep :: l)) = (Z.to_nat (pair_size rep) + Z.to_nat (total l))%nat.
Proof. rewrite total_cons. pose proof (pair_size_pos rep). pose proof (total_size_nonneg l). lia. Qed.

Lemma transmits_cons f g h rep l e :
  h e = (e ← f e; g e) → transmits f [rep] (Z.to_nat (pair_size rep)) e →
  (∀ e', transmits g l (Z.to_nat (total l)) e') → transmits h (rep :: l) (Z.to_nat (total (rep :: l))) e.
Proof.
  intros E Hf Hg. rewrite total_to_nat.
  by apply (transmits_weaken (λ e, e ← f e; g e) _ _ _ _ _ (eq_sym E) (le_n _)), (transmits_seq f g [rep] l).
Qed.

Lemma regular_transmits (l : Representations) e :
  Forall rep_ok l → transmits (encode_regular_headers t l) l (Z.to_nat (total l)) e.
Proof.
  intros Hl. revert e. induction Hl as [|rep l Hrep Hl IH]; intros e; [apply transmits_nil|].
  apply transmits_intro. intros Hinv. destruct (lookup_transmits rep e Hinv) as (r & E & Hindex).
  cbn [encode_regular_headers]. destruct r as [entry|].
  - apply (transmits_cons (EmitIndex entry) (encode_regular_headers t l)); [by rewrite E|by apply Hindex|done].
  - apply (transmits_cons (EmitIndexedLiteral t rep) (encode_regular_headers t l));
      [by rewrite E|by apply EmitIndexedLiteral_transmits|done].
Qed.

Lemma pseudo_transmits (l : Representations) found_authority e :
  Forall rep_ok l → transmits (encode_pseudo_headers t l found_authority) l (Z.to_nat (total l)) e.
Proof.
  intros Hl. revert found_authority e. induction Hl as [|rep l Hrep Hl IH]; intros found e; [apply transmits_nil|].
  apply transmits_intro. intros Hinv. destruct (lookup_transmits rep e Hinv) as (r & E & Hindex).
  cbn [encode_pseudo_headers]. destruct r as [entry|].
  - apply (transmits_cons (EmitIndex entry) (encode_pseudo_headers t l found)); [by rewrite E|by apply Hindex|done].
  - match goal with |- context [negb found && ?b] => destruct (negb found && b) eqn:Eauth end.
    + apply (transmits_cons (EmitIndexedLiteral t rep) (encode_pseudo_headers t l true));
        [by rewrite E|by apply EmitIndexedLiteral_transmits|done].
    + apply (transmits_cons (EmitNonIndexedLiteral t rep) (encode_pseudo_headers t l found));
        [by rewrite E|by apply EmitNonIndexedLiteral_transmits|done].
Qed.
End Transmit.
