(* ===== verification/HpackMessages.v ===== *)
(** * Header sets as sequences of representations

    What the encoder makes of a header set before it writes it, and what the decoder makes
    of the headers that it reads. *)

From Stdlib Require Import String.
From S2P Require Import Prelude HpackConstants HpackHeaderTable HpackTableInvariant SpdyHeaderBlock HpackEncoder HpackDecoder HpackTransmit.

(** ** Splitting and joining *)

(** The pieces between the separators; there is one at least. *)
Fixpoint split_on (c : Z) (s : StringPiece) : list StringPiece :=
  match s with
  | [] => [[]]
  | x :: s =>
      if x =? c then [] :: split_on c s
      else match split_on c s with
           | p :: ps => (x :: p) :: ps
           | [] => [[x]]
           end
  end.

Fixpoint join (sep : StringPiece) (pieces : list StringPiece) : StringPiece :=
  match pieces with
  | [] => []
  | p :: ps => match ps with [] => p | _ => p ++ sep ++ join sep ps end
  end.

Lemma split_on_nonempty c s : ∃ p ps, split_on c s = p :: ps.
Proof.
  induction s as [|x s (p & ps & E)]; cbn [split_on]; [by do 2 eexists|].
  destruct (x =? c); [by do 2 eexists|]. rewrite E. by do 2 eexists.
Qed.

Lemma join_cons sep p ps : ps ≠ [] → join sep (p :: ps) = p ++ sep ++ join sep ps.
Proof. by destruct ps. Qed.

Lemma join_split c s : join [c] (split_on c s) = s.
Proof.
  induction s as [|x s IH]; [done|]. cbn [split_on]. destruct (split_on_nonempty c s) as (p & ps & E).
  destruct (Z.eqb_spec x c) as [->|_].
  - rewrite join_cons by (by rewrite E). cbn. by rewrite IH.
  - rewrite E in IH |- *. destruct ps as [|q ps]; [cbn in *; congruence|].
    rewrite join_cons in IH |- * by done. cbn. f_equal. exact IH.
Qed.

Lemma split_on_find c s :
  match find_from c s with
  | None => split_on c s = [s]
  | Some k => split_on c s = take k s :: split_on c (drop (S k) s) ∧ (k < length s)%nat
  end.
Proof.
  induction s as [|x s IH]; [done|]. cbn [find_from split_on]. destruct (x =? c).
  - cbn. rewrite drop_0. split; [done|lia].
  - destruct (find_from c s) as [k|]; cbn [fmap option_fmap option_map] in *; [|by rewrite IH].
    destruct IH as [-> Hk]. cbn. split; [done|lia].
Qed.

(** Searching from a position is searching in the rest. *)
Lemma find_drop s c pos :
  (pos <= length s)%nat → find s c pos = (λ n, pos + n)%nat <$> find_from c (drop pos s).
Proof.
  intros Hp. unfold find. destruct (Nat.leb_spec (length s) pos); [|done].
  by rewrite drop_ge.
Qed.

Lemma find_split s c pos :
  (pos <= length s)%nat →
  match find s c pos with
  | None => split_on c (drop pos s) = [drop pos s]
  | Some e => split_on c (drop pos s) = take (e - pos) (drop pos s) :: split_on c (drop (e + 1) s) ∧
      (pos <= e < length s)%nat
  end.
Proof.
  intros Hp. rewrite find_drop by done. pose proof (split_on_find c (drop pos s)) as H.
  destruct (find_from c (drop pos s)) as [k|]; cbn [fmap option_fmap option_map]; [|done].
  destruct H as [E Hk]. rewrite length_drop in Hk. split; [|lia]. rewrite E, drop_drop.
  f_equal; [f_equal; lia|do 2 f_equal; lia].
Qed.

(** ** Pieces of values *)

Definition with_name (name : StringPiece) (pieces : list StringPiece) : Representations :=
  (λ v, (name, v)) <$> pieces.

Lemma pieces_from_spec fuel name value pos out :
  (pos <= length value)%nat → (length value - pos < fuel)%nat →
  pieces_from fuel name value pos out = Done (out ++ with_name name (split_on 0 (drop pos value))).
Proof.
  revert pos out. induction fuel as [|fuel IH]; intros pos out Hp Hf; [lia|]. cbn [pieces_from].
  pose proof (find_split value 0 pos Hp) as H. destruct (find value 0 pos) as [e|].
  - destruct H as [-> He]. rewrite IH by lia. rewrite <- app_assoc. done.
  - by rewrite H.
Qed.

Lemma DecomposeRepresentation_spec (rep : Representation) out :
  DecomposeRepresentation rep out = Done (out ++ with_name rep.1 (split_on 0 rep.2)).
Proof. unfold DecomposeRepresentation. rewrite pieces_from_spec by lia. by rewrite drop_0. Qed.

Definition drop_space (s : StringPiece) : StringPiece :=
  match s with
  | c :: s' => if c =? 32 then s' else s
  | [] => []
  end.

(** The crumbs of a cookie: the pieces between semicolons, without the space before. *)
Definition crumbs (s : StringPiece) : list StringPiece :=
  match split_on 59 s with
  | p :: ps => p :: (drop_space <$> ps)
  | [] => []
  end.

Lemma crumbs_drop_space s : crumbs (drop_space s) = drop_space <$> split_on 59 s.
Proof.
  unfold crumbs. destruct s as [|c s]; [done|]. cbn [drop_space]. destruct (Z.eqb_spec c 32) as [->|Hne].
  - cbn [split_on]. rewrite (proj2 (Z.eqb_neq 32 59)) by done.
    destruct (split_on_nonempty 59 s) as (p & ps & ->). done.
  - cbn [split_on]. destruct (c =? 59); [done|]. destruct (split_on_nonempty 59 s) as (p & ps & ->).
    cbn [fmap list_fmap drop_space]. by rewrite (proj2 (Z.eqb_neq c 32)).
Qed.

(** The position behind a semicolon. *)
Definition behind_space (value : StringPiece) (pos : nat) : nat :=
  match value !! pos with
  | Some c => if c =? 32 then (pos + 1)%nat else pos
  | None => pos
  end.

Lemma behind_space_spec value pos :
  (pos <= length value)%nat →
  drop (behind_space value pos) value = drop_space (drop pos value) ∧
  (pos <= behind_space value pos <= length value)%nat.
Proof.
  intros Hp. unfold behind_space.
  match goal with |- context [match ?o with Some _ => _ | None => _ end] => destruct o as [c|] eqn:E end.
  - pose proof (lookup_lt_Some _ _ _ E). rewrite (drop_S _ _ _ E). cbn [drop_space].
    destruct (c =? 32); [rewrite Nat.add_1_r; split; [done|lia]|]. by rewrite <- (drop_S _ _ _ E).
  - apply lookup_ge_None in E. rewrite drop_ge by lia. split; [done|lia].
Qed.

Lemma crumbs_from_spec fuel name value pos out :
  (pos <= length value)%nat → (length value - pos < fuel)%nat →
  crumbs_from fuel name value pos out = Done (out ++ with_name name (crumbs (drop pos value))).
Proof.
  revert pos out. induction fuel as [|fuel IH]; intros pos out Hp Hf; [lia|]. cbn [crumbs_from].
  pose proof (find_split value 59 pos Hp) as H. destruct (find value 59 pos) as [e|].
  - destruct H as [E He]. fold (behind_space value (e + 1)).
    destruct (behind_space_spec value (e + 1) ltac:(lia)) as [Ed Hb]. rewrite IH by lia.
    rewrite Ed, crumbs_drop_space, <- app_assoc. unfold crumbs. by rewrite E.
  - unfold crumbs. by rewrite H.
Qed.

Lemma CookieToCrumbs_spec (rep : Representation) out :
  CookieToCrumbs rep out = Done (out ++ with_name rep.1 (crumbs (trim_blanks rep.2))).
Proof. unfold CookieToCrumbs. rewrite crumbs_from_spec by lia. by rewrite drop_0. Qed.

(** ** Header sets *)

Definition is_cookie (p : header) : bool := bool_decide (p.1 = cookie).

(** What a value is cut into, and what it is put together with. *)
Definition value_pieces (p : header) : list StringPiece :=
  if is_cookie p then crumbs (trim_blanks p.2) else split_on 0 p.2.
Definition separator (p : header) : StringPiece :=
  if is_cookie p then chars "; "%string else [0].

Definition header_reps (p : header) : list header := with_name p.1 (value_pieces p).
Definition pseudo_part (hs : list header) : list header := filter (λ p, is_pseudo p.1 = true) hs.
Definition regular_part (hs : list header) : list header := filter (λ p, is_pseudo p.1 = false) hs.

(** The headers in the order of their transmission, and their representations. *)
Definition ordered (hs : list header) : list header := pseudo_part hs ++ regular_part hs.
Definition representations (hs : list header) : list header := ordered hs ≫= header_reps.

(** A header as it is received: only the value of a cookie may be different. *)
Definition received (p : header) : header := (p.1, join (separator p) (value_pieces p)).

Lemma received_same p : p.1 ≠ cookie → received p = p.
Proof.
  intros Hp. unfold received, separator, value_pieces, is_cookie. rewrite bool_decide_eq_false_2 by done.
  rewrite join_split. by destruct p.
Qed.

Lemma cookie_reps p : p.1 = cookie → header_reps p = with_name p.1 (crumbs (trim_blanks p.2)).
Proof. intros E. unfold header_reps, value_pieces, is_cookie. by rewrite bool_decide_eq_true_2. Qed.

Lemma value_reps p : p.1 ≠ cookie → header_reps p = with_name p.1 (split_on 0 p.2).
Proof. intros E. unfold header_reps, value_pieces, is_cookie. by rewrite bool_decide_eq_false_2. Qed.

Lemma separate_spec hs found ps rs :
  NoDup hs.*1 → (found = true → cookie ∉ hs.*1) →
  separate hs found ps rs
  = Done (ps ++ (pseudo_part hs ≫= header_reps), rs ++ (regular_part hs ≫= header_reps)).
Proof.
  revert found ps rs. induction hs as [|p hs IH]; intros found ps rs Hnd Hf; cbn [separate].
  { by rewrite !app_nil_r. }
  apply list.NoDup_cons in Hnd as [Hp Hnd]. unfold pseudo_part, regular_part. rewrite !filter_cons.
  destruct (decide (p.1 = cookie)) as [Ec|Ec].
  - rewrite (bool_decide_eq_true_2 (p.1 = cookie)) by done.
    destruct found; [by destruct Hf; [|rewrite <- Ec; left]|]. cbn [negb andb].
    rewrite CookieToCrumbs_spec. step_done. rewrite IH by (done || by rewrite <- Ec).
    assert (is_pseudo p.1 = false) as Eps by by rewrite Ec.
    rewrite decide_False, decide_True by (by rewrite Eps). cbn [mbind list_bind].
    by rewrite cookie_reps, <- app_assoc.
  - rewrite (bool_decide_eq_false_2 (p.1 = cookie)), andb_false_r by done.
    rewrite !DecomposeRepresentation_spec, <- value_reps by done. step_done.
    assert (found = true → cookie ∉ hs.*1) as Hf' by (intros ->; set_solver).
    destruct (is_pseudo p.1); [rewrite decide_True, decide_False by done|rewrite decide_False, decide_True by done];
      step_done; rewrite IH by done; cbn [mbind list_bind]; by rewrite <- app_assoc.
Qed.

(** ** What the decoder makes of the headers *)

Definition on_header (rep : header) : HandlerCall := OnHeader rep.1 rep.2.

(** What headers do to the output of the decoder: calls of the handler, or a block. *)
Definition take_headers (hs : list header) (f : HpackDecoder) : HpackDecoder :=
  if handler_ f then f <| calls := calls f ++ (on_header <$> (hs ≫= header_reps)) |>
  else f <| decoded_block_ := decoded_block_ f ++ (received <$> hs) |>.

(** A regular header is remembered. *)
Definition mark (name : StringPiece) (f : HpackDecoder) : HpackDecoder :=
  f <| regular_header_seen_ := regular_header_seen_ f || ((0 <? length name)%nat && negb (is_pseudo name)) |>.

Definition allowed (name : StringPiece) (f : HpackDecoder) : Prop :=
  is_pseudo name = true → regular_header_seen_ f = false.

Lemma see_header_spec name f : allowed name f → see_header name f = Some (mark name f).
Proof.
  intros Ha. destruct f as [m tbl buf block kb vb h cs seen started]. unfold see_header, allowed, mark, starts_with_colon, is_pseudo in *.
  cbn [regular_header_seen_ set_field] in *. destruct name as [|c name]; cbn [length Nat.ltb Nat.leb andb] in *.
  - by rewrite orb_false_r.
  - destruct (c =? kPseudoHeaderPrefix); cbn [negb]; [|by rewrite orb_true_r].
    rewrite Ha by done. done.
Qed.

Lemma mark_allowed name f : allowed name f → allowed name (mark name f) ∧ mark name (mark name f) = mark name f.
Proof.
  intros Ha. split.
  - intros Hp. unfold mark. cbn [regular_header_seen_ set_field]. by rewrite (Ha Hp), Hp, andb_false_r.
  - destruct f as [m tbl buf block kb vb h cs seen started]. unfold mark. cbn [regular_header_seen_ set_field]. by rewrite <- orb_assoc, orb_diag.
Qed.

Lemma mark_calls name f c1 c2 :
  mark name ((mark name f) <| calls := c1 |> <| calls := c2 |>) = mark name (f <| calls := c2 |>).
Proof.
  destruct f as [m tbl buf block kb vb h cs seen started]. unfold mark. cbn. by rewrite <- orb_assoc, orb_diag.
Qed.

(** With a handler. *)
Lemma deliver_calls name pieces f :
  handler_ f = true → decoded_block_ f = [] → allowed name f → pieces ≠ [] →
  deliver_all (with_name name pieces) f
  = Some (mark name (f <| calls := calls f ++ (on_header <$> with_name name pieces) |>)).
Proof.
  intros Hh Hb. revert f Hh Hb. induction pieces as [|v pieces IH]; intros f Hh Hb Ha Hne; [done|].
  cbn [with_name fmap list_fmap deliver_all]. unfold deliver at 1, HandleHeaderRepresentation. cbn [fst snd].
  rewrite see_header_spec by done. set (f1 := mark name f).
  assert (handler_ f1 = true ∧ decoded_block_ f1 = [] ∧ calls f1 = calls f) as (Hh1 & Hb1 & Hc1) by (by destruct f).
  destruct (mark_allowed name f Ha) as [Ha1 Em]. fold f1 in Ha1, Em.
  rewrite Hh1, Hb1. cbn [negb]. rewrite bool_decide_eq_true_2 by done. rewrite DCHECK_true_bind.
  cbn [mbind option_bind]. unfold call_handler. rewrite Hh1, Hc1.
  destruct pieces as [|v' pieces]; [done|]. set (f2 := f1 <| calls := _ |>).
  fold (with_name name (v' :: pieces)).
  rewrite (IH f2); [|done|done|done|done]. unfold f2. cbn [calls set_field]. rewrite <- app_assoc.
  f_equal. apply mark_calls.
Qed.

(** Without one. *)
Lemma block_find_None name block : name ∉ block.*1 → block_find name block = None.
Proof.
  induction block as [|[k v] block IH]; [done|]. cbn [block_find fmap list_fmap fst].
  intros [Hk Hn]%list.not_elem_of_cons. rewrite bool_decide_eq_false_2 by congruence. auto.
Qed.

Lemma block_find_last name block v : name ∉ block.*1 → block_find name (block ++ [(name, v)]) = Some v.
Proof.
  induction block as [|[k w] block IH]; cbn [block_find fmap list_fmap fst app].
  - by rewrite bool_decide_eq_true_2.
  - intros [Hk Hn]%list.not_elem_of_cons. rewrite bool_decide_eq_false_2 by congruence. auto.
Qed.

Lemma block_update_last name block v w :
  name ∉ block.*1 → block_update name w (block ++ [(name, v)]) = block ++ [(name, w)].
Proof.
  induction block as [|[k u] block IH]; cbn [block_update fmap list_fmap fst app].
  - by rewrite bool_decide_eq_true_2.
  - intros [Hk Hn]%list.not_elem_of_cons. rewrite bool_decide_eq_false_2 by congruence. by rewrite IH.
Qed.

Lemma join_snoc sep p ps q : join sep ((p :: ps) ++ [q]) = join sep (p :: ps) ++ sep ++ q.
Proof.
  revert p. induction ps as [|p' ps IH]; intros p; [done|]. cbn [app].
  rewrite join_cons by done. rewrite (join_cons sep p (p' :: ps)) by done.
  specialize (IH p'). cbn [app] in IH. by rewrite IH, !app_assoc.
Qed.

Lemma mark_block name f b1 b2 :
  mark name ((mark name f) <| decoded_block_ := b1 |> <| decoded_block_ := b2 |>)
  = mark name (f <| decoded_block_ := b2 |>).
Proof.
  destruct f as [m tbl buf block kb vb h cs seen started]. unfold mark. cbn. by rewrite <- orb_assoc, orb_diag.
Qed.

(** One more piece of a value is put at the end of the last header. *)
Lemma deliver_piece (name v : StringPiece) B f :
  handler_ f = false → name ∉ B.*1 → allowed name f →
  (decoded_block_ f = B →
   deliver (name, v) f = Some ((mark name f) <| decoded_block_ := B ++ [(name, v)] |>)) ∧
  ∀ old, decoded_block_ f = B ++ [(name, old)] →
   deliver (name, v) f
   = Some ((mark name f) <| decoded_block_ := B ++ [(name, old ++ separator (name, v) ++ v)] |>).
Proof.
  intros Hh HB Ha. unfold deliver, HandleHeaderRepresentation. cbn [fst snd]. rewrite see_header_spec by done.
  change (handler_ (mark name f)) with (handler_ f). change (decoded_block_ (mark name f)) with (decoded_block_ f).
  rewrite Hh. cbn [negb]. split.
  - intros ->. rewrite block_find_None by done. unfold block_assign. by rewrite block_find_None.
  - intros old ->. rewrite block_find_last by done. unfold ReplaceOrAppendHeader. rewrite block_find_last by done.
    rewrite block_update_last by done. unfold separator, is_cookie. cbn [fst].
    done.
Qed.

Lemma deliver_block name pieces f :
  handler_ f = false → name ∉ (decoded_block_ f).*1 → allowed name f → pieces ≠ [] →
  deliver_all (with_name name pieces) f
  = Some (mark name (f <| decoded_block_ := decoded_block_ f ++ [(name, join (separator (name, [])) pieces)] |>)).
Proof.
  intros Hh HB Ha. set (B := decoded_block_ f) in *.
  induction pieces as [|v pieces IH] using rev_ind; intros Hne; [done|].
  unfold with_name. rewrite fmap_app, deliver_all_app. cbn [fmap list_fmap]. fold (with_name name pieces).
  destruct pieces as [|p ps].
  - cbn [with_name fmap list_fmap deliver_all mbind option_bind app join].
    destruct (deliver_piece name v B f Hh HB Ha) as [E _]; rewrite (E eq_refl). cbn [mbind option_bind]. done.
  - rewrite IH by done. cbn [mbind option_bind deliver_all]. rewrite join_snoc.
    set (f1 := mark name _). destruct (mark_allowed name f Ha) as [Ha1 _].
    destruct (deliver_piece name v B f1 Hh HB Ha1) as [_ Hmore].
    rewrite (Hmore (join (separator (name, [])) (p :: ps))) by done. cbn [mbind option_bind].
    unfold f1. f_equal. destruct f as [m tbl buf block kb vb h cs seen started]. unfold mark. cbn.
    by rewrite <- orb_assoc, orb_diag.
Qed.

(** ** All headers of a set *)

Lemma value_pieces_nonempty p : value_pieces p ≠ [].
Proof.
  unfold value_pieces, crumbs. destruct (split_on_nonempty 59 (trim_blanks p.2)) as (? & ? & ->).
  destruct (split_on_nonempty 0 p.2) as (? & ? & ->). by destruct (is_cookie p).
Qed.

(** The decoder is ready for a header. *)
Definition fits (hs : list header) (f : HpackDecoder) : Prop :=
  if handler_ f then decoded_block_ f = [] else NoDup ((decoded_block_ f).*1 ++ hs.*1).

Lemma deliver_header p hs f :
  fits (p :: hs) f → allowed p.1 f →
  deliver_all (header_reps p) f = Some (mark p.1 (take_headers [p] f)) ∧
  fits hs (mark p.1 (take_headers [p] f)).
Proof.
  intros Hfit Ha. unfold fits, take_headers, header_reps in *. pose proof (value_pieces_nonempty p) as Hne.
  cbn [mbind list_bind]. rewrite app_nil_r. destruct (handler_ f) eqn:Eh.
  - rewrite deliver_calls by done. split; [done|]. cbn [handler_ mark set_field]. by rewrite Eh.
  - cbn [fmap list_fmap] in Hfit. apply list.NoDup_app in Hfit as (Hnd & Hdis & Hnd').
    apply list.NoDup_cons in Hnd' as [Hp Hnd'].
    assert (p.1 ∉ (decoded_block_ f).*1) as Hb by (intros Hin; apply (Hdis _ Hin); left).
    rewrite deliver_block by done. split; [done|].
    cbn [handler_ mark set_field decoded_block_]. rewrite Eh, fmap_app, <- app_assoc. cbn [fmap list_fmap app fst received].
    apply list.NoDup_app. split_and!; [done| |by constructor].
    intros x Hx [->|Hx']%elem_of_cons; [done|]. apply (Hdis x Hx). by right.
Qed.

Lemma take_headers_app hs p f : take_headers (p :: hs) f = take_headers hs (take_headers [p] f).
Proof.
  unfold take_headers. destruct f as [m tbl buf block kb vb h cs seen started]. cbn. destruct h; cbn.
  - by rewrite app_nil_r, fmap_app, app_assoc.
  - by rewrite <- app_assoc.
Qed.

Lemma mark_take name hs f : take_headers hs (mark name f) = mark name (take_headers hs f).
Proof. unfold take_headers. destruct f as [m tbl buf block kb vb h cs seen started]. cbn. by destruct h. Qed.

(** Pseudo-headers before the regular ones. *)
Fixpoint in_order (seen : bool) (hs : list header) : Prop :=
  match hs with
  | [] => True
  | p :: hs => (is_pseudo p.1 = true → seen = false) ∧ in_order (seen || negb (is_pseudo p.1)) hs
  end.

Lemma deliver_headers hs f seen :
  fits hs f → (regular_header_seen_ f = true → seen = true) → in_order seen hs →
  ∃ b, deliver_all (hs ≫= header_reps) f = Some ((take_headers hs f) <| regular_header_seen_ := b |>).
Proof.
  revert f seen. induction hs as [|p hs IH]; intros f seen Hfit Hseen Ho.
  { exists (regular_header_seen_ f). cbn. f_equal. unfold take_headers.
    destruct f as [m tbl buf block kb vb h cs seen' started]. cbn. destruct h; cbn; by rewrite app_nil_r. }
  destruct Ho as [Hp Ho].
  assert (allowed p.1 f) as Ha.
  { intros Eps. specialize (Hp Eps). destruct (regular_header_seen_ f); [|done]. by rewrite Hseen in Hp. }
  destruct (deliver_header p hs f Hfit Ha) as [E Hfit']. set (f1 := mark _ _) in *.
  assert (regular_header_seen_ f1 = true → seen || negb (is_pseudo p.1) = true) as Hseen'.
  { unfold f1, mark, take_headers. cbn [regular_header_seen_ set_field].
    replace (regular_header_seen_ (if handler_ f then _ else _)) with (regular_header_seen_ f) by by destruct (handler_ f).
    destruct (regular_header_seen_ f); [by rewrite Hseen|]. destruct (is_pseudo p.1); [by rewrite andb_false_r|].
    by rewrite orb_true_r. }
  destruct (IH f1 _ Hfit' Hseen' Ho) as [b Eb].
  exists b. cbn [mbind list_bind]. fold (mbind (M:=list) header_reps hs).
  rewrite deliver_all_app, E. cbn [mbind option_bind]. etransitivity; [exact Eb|]. f_equal.
  unfold f1. rewrite mark_take, (take_headers_app hs p f). done.
Qed.

Lemma ordered_perm hs : ordered hs ≡ₚ hs.
Proof.
  unfold ordered, pseudo_part, regular_part. induction hs as [|p hs IH]; [done|]. rewrite !filter_cons.
  destruct (is_pseudo p.1).
  - rewrite decide_True, decide_False by done. cbn [app]. by rewrite IH.
  - rewrite decide_False, decide_True by done. rewrite <- Permutation_middle. by rewrite IH.
Qed.

Lemma in_order_regular seen hs : Forall (λ p, is_pseudo p.1 = false) hs → in_order seen hs.
Proof.
  intros Hhs. revert seen. induction Hhs as [|p hs Hp Hhs IH]; intros seen; [done|]. split; [congruence|apply IH].
Qed.

Lemma in_order_ordered hs : in_order false (ordered hs).
Proof.
  unfold ordered. assert (Forall (λ p, is_pseudo p.1 = true) (pseudo_part hs)) as Hp
    by (apply list.Forall_forall; by intros p [? _]%list_elem_of_filter).
  assert (Forall (λ p, is_pseudo p.1 = false) (regular_part hs)) as Hr
    by (apply list.Forall_forall; by intros p [? _]%list_elem_of_filter).
  induction Hp as [|p l Hp _ IH]; cbn [app in_order]; [by apply in_order_regular|]. by rewrite Hp.
Qed.

(** The whole set. *)
Lemma deliver_set hs f :
  NoDup hs.*1 → decoded_block_ f = [] → regular_header_seen_ f = false →
  ∃ b, deliver_all (representations hs) f = Some ((take_headers (ordered hs) f) <| regular_header_seen_ := b |>).
Proof.
  intros Hnd Hb Hs. apply (deliver_headers (ordered hs) f false).
  - unfold fits. destruct (handler_ f); [done|]. rewrite Hb. cbn. by rewrite ordered_perm.
  - by rewrite Hs.
  - apply in_order_ordered.
Qed.

Lemma separate_set hs :
  NoDup hs.*1 →
  separate hs false [] [] = Done (pseudo_part hs ≫= header_reps, regular_part hs ≫= header_reps) ∧
  representations hs = (pseudo_part hs ≫= header_reps) ++ (regular_part hs ≫= header_reps).
Proof. intros Hnd. split; [by apply (separate_spec hs false [] [])|]. unfold representations, ordered. by rewrite bind_app. Qed.
