(* ===== verification/HpackSession.v ===== *)
(** * An HPACK encoder and its decoder

    Any sequence of changes of the settings and of header sets: the decoder takes what the
    encoder writes and hands out the same headers. *)

From S2P Require Import Prelude Bits HpackConstants HpackOutputStream HpackInputStream HpackHuffmanTable HpackHuffmanCode HpackHeaderTable HpackTableInvariant HpackSync SpdyHeaderBlock HpackDecoder HpackEncoder HpackWire HpackTransmit HpackMessages.

(** ** What may be sent *)

Definition header_ok (p : header) : Prop := literal_ok p.1 ∧ literal_ok p.2.

(** The output has to fit into the buffer of the decoder: 32 bytes are counted for every
    representation, and 12 for changes of the table size. *)
Definition message_ok (hs : SpdyHeaderBlock) : Prop :=
  NoDup hs.*1 ∧ Forall header_ok hs ∧ total (representations hs) + 12 <= kMaxDecodeBufferSize.

Lemma split_on_parts (P : Z → Prop) c s q :
  Forall P s → q ∈ split_on c s → Forall P q ∧ (length q <= length s)%nat.
Proof.
  intros Hs. revert q. induction Hs as [|x s Hx Hs IH]; intros q; cbn [split_on].
  - intros ->%list_elem_of_singleton. done.
  - destruct (x =? c); [intros [->|Hq]%elem_of_cons; [split; [done|cbn; lia]|]|].
    + destruct (IH q Hq). cbn. split; [done|lia].
    + destruct (split_on_nonempty c s) as (p & ps & E). rewrite E in *.
      intros [->|Hq]%elem_of_cons.
      * destruct (IH p); [left|]. cbn. split; [by constructor|lia].
      * destruct (IH q); [by right|]. cbn. split; [done|lia].
Qed.

Lemma literal_part s q : literal_ok s → Forall byte_ok q → (length q <= length s)%nat → literal_ok q.
Proof. intros [_ Hl] Hq Hlen. split; [done|lia]. Qed.

Lemma drop_space_part (P : Z → Prop) s : Forall P s → Forall P (drop_space s) ∧ (length (drop_space s) <= length s)%nat.
Proof. destruct 1 as [|c s Hc Hs]; cbn; [done|]. destruct (c =? 32); cbn; split; auto with lia. Qed.

Lemma trim_blanks_part s : literal_ok s → literal_ok (trim_blanks s).
Proof.
  intros [Hs Hl]. apply (literal_part s); [done|..]; unfold trim_blanks;
    destruct (find_first_not_of s blanks), (find_last_not_of s blanks); cbn [substr length]; try lia; try constructor.
  - by apply Forall_take, Forall_drop.
  - rewrite length_take, length_drop. lia.
Qed.

Lemma header_reps_ok p : header_ok p → Forall rep_ok (header_reps p).
Proof.
  intros [Hn Hv]. unfold header_reps, with_name. apply Forall_fmap, list.Forall_forall. intros v Hin.
  split; [done|]. cbn [snd compose]. unfold value_pieces, crumbs in Hin. destruct (is_cookie p).
  - pose proof (trim_blanks_part _ Hv) as Ht. destruct (split_on 59 (trim_blanks p.2)) as [|q qs] eqn:E; [by apply elem_of_nil in Hin|].
    assert (∀ x, x ∈ q :: qs → literal_ok x) as Hall.
    { intros x Hx. rewrite <- E in Hx. destruct (split_on_parts byte_ok 59 _ x (proj1 Ht) Hx).
      by apply (literal_part (trim_blanks p.2)). }
    apply elem_of_cons in Hin as [->|Hin]; [apply Hall; left|].
    apply list_elem_of_fmap in Hin as (x & -> & Hx). assert (literal_ok x) as Hxo by (apply Hall; by right).
    destruct (drop_space_part byte_ok x (proj1 Hxo)). by apply (literal_part x).
  - destruct (split_on_parts byte_ok 0 _ v (proj1 Hv) Hin). by apply (literal_part p.2).
Qed.

Lemma parts_ok (P : header → Prop) `{!∀ p, Decision (P p)} hs :
  Forall header_ok hs → Forall rep_ok (filter P hs ≫= header_reps).
Proof.
  intros Hhs. apply list.Forall_forall. intros rep (p & Hrep & Hp)%list_elem_of_bind.
  apply list_elem_of_filter in Hp as [_ Hp]. rewrite list.Forall_forall in Hhs.
  pose proof (header_reps_ok p (Hhs p Hp)) as Hall. rewrite list.Forall_forall in Hall. by apply Hall.
Qed.

(** ** The two sides *)

(** What the decoder hands out for a header block: the block, the calls of the handler and
    the length; [None] when it fails. *)
Definition reception : Type := option (SpdyHeaderBlock * list HandlerCall * Z).

Fixpoint feed (pieces : list (list Z)) (d : HpackDecoder) : bool * HpackDecoder :=
  match pieces with
  | [] => (true, d)
  | p :: pieces =>
      let '(ok, d) := HandleControlFrameHeadersData p d in
      if ok then feed pieces d else (false, d)
  end.

Definition receive (t : HpackHuffmanTable) (handler : bool) (pieces : list (list Z)) (d : HpackDecoder) :
    outcome (reception * HpackDecoder) :=
  let d := HandleControlFrameHeadersStart handler (d <| calls := [] |>) in
  let '(fed, d) := feed pieces d in
  if negb fed then Done (None, d)
  else
    '(ok, compressed_len, d) ← HandleControlFrameHeadersComplete t d;
    Done (if ok : bool then Some (decoded_block_ d, calls d, compressed_len) else None, d).

(** Frames cut the output anywhere; there is one at least. *)
Fixpoint cut (sizes : list nat) (output : list Z) : list (list Z) :=
  match sizes with
  | [] => [output]
  | n :: sizes => take n output :: cut sizes (drop n output)
  end.

Inductive event : Type :=
  | Setting (size_setting : Z)
  | Headers (header_set : SpdyHeaderBlock) (handler : bool) (sizes : list nat).

(** A setting is applied on both sides between the same two header blocks. *)
Definition exchange (t : HpackHuffmanTable) (ev : event) (e : HpackEncoder) (d : HpackDecoder) :
    outcome (list reception * HpackEncoder * HpackDecoder) :=
  match ev with
  | Setting size_setting =>
      e ← ApplyHeaderTableSizeSetting size_setting e;
      d ← HpackDecoder.ApplyHeaderTableSizeSetting size_setting d;
      Done ([], e, d)
  | Headers header_set handler sizes =>
      '(output, e) ← EncodeHeaderSet t header_set e;
      '(r, d) ← receive t handler (cut sizes output) d;
      Done ([r], e, d)
  end.

Fixpoint run (t : HpackHuffmanTable) (events : list event) (e : HpackEncoder) (d : HpackDecoder) :
    outcome (list reception * HpackEncoder * HpackDecoder) :=
  match events with
  | [] => Done ([], e, d)
  | ev :: events =>
      '(rs, e, d) ← exchange t ev e d;
      '(rs', e, d) ← run t events e d;
      Done (rs ++ rs', e, d)
  end.

Section Session.
Context (t : HpackHuffmanTable) (Ht : good_table t).
Context (st : HpackStaticTable).

(** ** The encoder *)

(** Between header sets: the sizes that are still to be written suffice for the table. *)
Definition encoder_ok (e : HpackEncoder) : Prop :=
  aligned (output_stream_ e) [] ∧ max_size_ (header_table_ e) <= min_table_size_setting_received_ e.

(** A size update is written and understood. *)
Lemma emit_size_update b e td bs n :
  synced st b (header_table_ e) td → aligned (output_stream_ e) bs →
  max_size_ (header_table_ e) <= n <= settings_size_bound_ (header_table_ e) →
  ∃ o1 o2 td' X, emit (AppendPrefix kHeaderTableSizeUpdateOpcode) e = Done (e <| output_stream_ := o1 |>) ∧
    emit (AppendUint32 (u32 n)) (e <| output_stream_ := o1 |>) = Done (e <| output_stream_ := o2 |>) ∧
    aligned o2 (bs ++ X) ∧ synced st b (header_table_ e) td' ∧ (length X <= 8 * 6)%nat ∧
    understood t st X [] td td'.
Proof.
  intros Hs Ha Hn. pose proof (sy_nonneg _ _ _ _ Hs). pose proof (sy_u32 _ _ _ _ Hs).
  destruct opcodes_ok as (_ & _ & _ & _ & Hp). rewrite u32_small by (unfold is_u32; lia).
  destruct (emit_prefixed kHeaderTableSizeUpdateOpcode n e bs Ha Hp) as (o1 & o2 & E1 & E2 & H2); [lia|].
  destruct (size_update_understood t st b _ td n Hs Hn) as (td' & Hs' & Hu).
  exists o1, o2, td', (prefixed kHeaderTableSizeUpdateOpcode n). split_and!; try done.
  apply (index_length _ n Hp). lia.
Qed.

Lemma min_output e o :
  min_table_size_setting_received_ (e <| output_stream_ := o |>) = min_table_size_setting_received_ e.
Proof. by destruct e. Qed.

Lemma MaybeEmitTableSize_sent b e td :
  synced st b (header_table_ e) td → encoder_ok e →
  ∃ e' td' X, MaybeEmitTableSize e = Done e' ∧ header_table_ e' = header_table_ e ∧
    aligned (output_stream_ e') X ∧ max_size_ (header_table_ e) <= min_table_size_setting_received_ e' ∧
    synced st b (header_table_ e) td' ∧ (length X <= 8 * 12)%nat ∧ understood t st X [] td td'.
Proof.
  intros Hs [Ha Hmin]. unfold MaybeEmitTableSize. destruct (should_emit_table_size_ e); cbn [negb].
  2:{ exists e, td, []. split_and!; try done; [cbn; lia|apply understood_nil]. }
  unfold CurrentHeaderTableSizeSetting. pose proof (ti_bound _ _ (sy_encoder _ _ _ _ Hs)) as Hb.
  pose proof (synced_sizes _ _ _ _ Hs) as (_ & _ & _ & _ & Hu32 & _).
  assert (max_size_ (header_table_ e) <= size_t_max) as Hmax by (unfold size_t_max, u32_max in *; lia).
  set (current := settings_size_bound_ (header_table_ e)) in *. 
  destruct (Z.ltb_spec (min_table_size_setting_received_ e) current) as [Hlt|_].
  - destruct (emit_size_update b e td [] (min_table_size_setting_received_ e) Hs Ha)
      as (o1 & o2 & td1 & X & E1 & E2 & H2 & Hs1 & Hl1 & Hu1); [lia|].
    rewrite E1. step_done. rewrite min_output, E2. step_done. set (e1 := e <| output_stream_ := o2 |>).
    destruct (emit_size_update b e1 td1 X current Hs1 H2) as (o3 & o4 & td2 & Y & E3 & E4 & H4 & Hs2 & Hl2 & Hu2);
      [by split|].
    rewrite E3. step_done. rewrite E4. step_done.
    eexists _, td2, (X ++ Y). split_and!; [done|by destruct e|done|done|done|rewrite length_app; lia|].
    by apply (understood_app _ _ _ _ [] [] td td1).
  - destruct (emit_size_update b e td [] current Hs Ha) as (o1 & o2 & td1 & X & E1 & E2 & H2 & Hs1 & Hl1 & Hu1);
      [by split|].
    step_done. rewrite E1. step_done. rewrite E2. step_done.
    eexists _, td1, X. split_and!; [done|by destruct e|done|done|done|lia|done].
Qed.

Lemma representations_length hs : message_ok hs → (length (representations hs) <= 1024)%nat.
Proof.
  intros (_ & _ & Hsize). pose proof (total_length (representations hs)). unfold kMaxDecodeBufferSize in Hsize. lia.
Qed.

Context (Hst : static_ok st) (Hlen : length (st_entries st) = 61%nat).

Lemma EncodeHeaderSet_sent b e td hs :
  message_ok hs → synced st (b + 1024) (header_table_ e) td → encoder_ok e →
  ∃ output e' td', EncodeHeaderSet t hs e = Done (output, e') ∧ encoder_ok e' ∧
    Forall byte_ok output ∧ Z.of_nat (length output) <= kMaxDecodeBufferSize ∧
    synced st b (header_table_ e') td' ∧ understood t st (bytes_bits output) (representations hs) td td'.
Proof.
  intros Hm Hs He. pose proof (representations_length hs Hm) as Hcount. destruct Hm as (Hnd & Hok & Hsize).
  destruct (MaybeEmitTableSize_sent _ e td Hs He) as (e1 & td1 & X & E1 & Et1 & Ha1 & Hmin1 & Hs1 & Hl1 & Hu1).
  destruct (separate_set hs Hnd) as [Esep Ereps]. set (ps := pseudo_part hs ≫= header_reps) in *.
  set (rs := regular_part hs ≫= header_reps) in *.
  pose proof (transmits_seq t st (encode_pseudo_headers t ps false) (encode_regular_headers t rs) ps rs
    (Z.to_nat (total ps)) (Z.to_nat (total rs)) e1
    (pseudo_transmits t Ht st Hst Hlen ps false e1 (parts_ok _ hs Hok))
    (λ e', regular_transmits t Ht st Hst Hlen rs e' (parts_ok _ hs Hok))) as Htr.
  rewrite <- Ereps in Htr. destruct (Htr b td1 X) as (o & te' & td' & Y & E2 & Ha2 & Hs2 & Em2 & Hl2 & Hu2);
    [rewrite Et1; by apply (synced_less _ _ _ _ _ Hs1); lia|done|].
  destruct Ha2 as [Hw H0]. pose proof (written_aligned _ _ Hw H0) as Ebits.
  rewrite Ereps, total_size_app in Hsize. pose proof (total_size_nonneg ps). pose proof (total_size_nonneg rs).
  unfold EncodeHeaderSet. rewrite E1. step_done. rewrite Esep. step_done.
  cbv beta in E2. destruct (encode_pseudo_headers t ps false e1) as [e2|]; [|done]. autorewrite with outcome in E2 |- *.
  rewrite E2. step_done. unfold take_output, TakeString. cbn [output_stream_ set_field]. rewrite H0. step_done.
  eexists (HpackOutputStream.buffer_ o), _, td'. split_and!; [done| |apply Hw| |done|].
  - split; [split; [apply written_new|done]|]. cbn. by rewrite Em2, Et1.
  - pose proof (bytes_bits_length (HpackOutputStream.buffer_ o)) as Hb. rewrite Ebits, length_app in Hb. lia.
  - rewrite Ebits. by apply (understood_app _ _ X Y [] _ td td1).
Qed.

(** ** The decoder *)

(** Between header blocks. *)
Definition decoder_ok (d : HpackDecoder) : Prop :=
  headers_block_buffer_ d = [] ∧ header_block_started_ d = false ∧ handler_ d = false ∧
  HpackDecoder.max_string_literal_size_ d = kDefaultMaxStringLiteralSize.

Lemma feed_more pieces d :
  header_block_started_ d = true → decoded_block_ d = [] →
  Z.of_nat (length (headers_block_buffer_ d) + length (concat pieces)) <= kMaxDecodeBufferSize →
  feed pieces d = (true, d <| headers_block_buffer_ := headers_block_buffer_ d ++ concat pieces |>).
Proof.
  revert d. induction pieces as [|p pieces IH]; intros d Hs Hb Hl; cbn [feed concat] in *.
  { rewrite app_nil_r. by destruct d. }
  rewrite length_app in Hl. unfold HandleControlFrameHeadersData.
  change (header_block_started_ (d <| decoded_block_ := [] |>)) with (header_block_started_ d).
  rewrite Hs. cbn [negb].
  change (headers_block_buffer_ (d <| decoded_block_ := [] |>)) with (headers_block_buffer_ d).
  rewrite (proj2 (Z.ltb_ge kMaxDecodeBufferSize _)) by lia.
  set (d1 := _ <| headers_block_buffer_ := _ |>).
  assert (headers_block_buffer_ d1 = headers_block_buffer_ d ++ p) as Eb by done.
  rewrite IH; [|done|done|rewrite Eb, length_app; lia]. rewrite Eb, <- app_assoc. unfold d1. f_equal.
  rewrite <- Hb. by destruct d.
Qed.

(** The decoder when all pieces have arrived. *)
Definition fed_decoder (output : list Z) (d : HpackDecoder) : HpackDecoder :=
  call_handler OnHeaderBlockStart (d <| decoded_block_ := [] |> <| header_block_started_ := true |>)
    <| headers_block_buffer_ := output |>.

Lemma feed_all p pieces d :
  headers_block_buffer_ d = [] → header_block_started_ d = false →
  Z.of_nat (length (concat (p :: pieces))) <= kMaxDecodeBufferSize →
  feed (p :: pieces) d = (true, fed_decoder (concat (p :: pieces)) d).
Proof.
  destruct d as [m tbl buf block kb vb h cs seen started]. cbn. intros -> -> Hl. rewrite length_app in Hl.
  unfold HandleControlFrameHeadersData, call_handler, fed_decoder, call_handler. cbn.
  destruct h; cbn; rewrite (proj2 (Z.ltb_ge kMaxDecodeBufferSize _)) by lia;
    (rewrite feed_more; [done|done|done|cbn; lia]).
Qed.

Lemma cut_concat sizes output : ∃ p ps, cut sizes output = p :: ps ∧ concat (p :: ps) = output.
Proof.
  revert output. induction sizes as [|n sizes IH]; intros output.
  - exists output, []. cbn. by rewrite app_nil_r.
  - destruct (IH (drop n output)) as (p & ps & E & Ec). cbn [cut]. exists (take n output), (p :: ps).
    rewrite E. split; [done|]. change (take n output ++ concat (p :: ps) = output). by rewrite Ec, take_drop.
Qed.

(** What is to be handed out for a header set. *)
Definition expected (hs : SpdyHeaderBlock) (handler : bool) (len : Z) : reception :=
  if handler then
    Some ([], OnHeaderBlockStart :: (on_header <$> representations hs) ++ [OnHeaderBlockEnd len], len)
  else Some (received <$> ordered hs, [], len).

Lemma front_fields hs b d d' :
  front st d' = (take_headers hs (front st (d <| regular_header_seen_ := false |>))) <| regular_header_seen_ := b |> →
  handler_ d' = handler_ d ∧ headers_block_buffer_ d' = headers_block_buffer_ d ∧
  HpackDecoder.max_string_literal_size_ d' = HpackDecoder.max_string_literal_size_ d ∧
  decoded_block_ d' = decoded_block_ (take_headers hs (front st d)) ∧
  calls d' = calls (take_headers hs (front st d)).
Proof.
  destruct d as [m tbl buf block kb vb h cs seen started], d' as [m' tbl' buf' block' kb' vb' h' cs' seen' started'].
  unfold take_headers, front. cbn. destruct h; cbn; intros [=]; subst; done.
Qed.

Lemma Complete_spec hs output d td' :
  NoDup hs.*1 → Forall byte_ok output → decoded_block_ d = [] → headers_block_buffer_ d = output →
  HpackDecoder.max_string_literal_size_ d = kDefaultMaxStringLiteralSize →
  understood t st (bytes_bits output) (representations hs) (HpackDecoder.header_table_ d) td' →
  ∃ d' f', HandleControlFrameHeadersComplete t d = Done (true, Z.of_nat (length output), d') ∧
    f' = take_headers (ordered hs) (front st d) ∧
    HpackDecoder.header_table_ d' = td' ∧ decoder_ok d' ∧ decoded_block_ d' = decoded_block_ f' ∧
    calls d' = calls f' ++ (if handler_ d then [OnHeaderBlockEnd (Z.of_nat (length output))] else []).
Proof.
  intros Hnd Hb Hblock Hbuf Hmax Hu. unfold HandleControlFrameHeadersComplete. rewrite Hbuf, Hmax.
  set (s := new_HpackInputStream _ _). set (d1 := d <| regular_header_seen_ := false |>).
  assert (at_byte s (bytes_bits output ++ [])) as Hat.
  { rewrite app_nil_r. split_and!; [by apply new_good|done|done|apply unread_new]. }
  destruct (deliver_set hs (front st d1) Hnd) as [b Ef]; [done|done|].
  destruct (Hu s d1 [] _ Hat eq_refl Ef) as (n & s' & d' & Hn & Hl & Hat' & Etd & Ed').
  rewrite bytes_bits_length in Hl.
  replace (S (length (headers_block_buffer_ d1))) with (n + S (length output - n))%nat
    by (change (headers_block_buffer_ d1) with (headers_block_buffer_ d); rewrite Hbuf; lia).
  rewrite Hn. cbn [decode_opcodes].
  assert (HasMoreData s' = false) as ->.
  { destruct Hat' as (Hg & _ & _ & Hu'). rewrite HasMoreData_unread by done. by rewrite Hu'. }
  cbn [negb]. step_done. cbn [negb].
  destruct (front_fields (ordered hs) b d d' Ed') as (Eh & Ebuf & Em & Eblock & Ecalls).
  change (headers_block_buffer_ d1) with (headers_block_buffer_ d). rewrite Hbuf.
  eexists _, _. split; [done|]. split; [done|]. rewrite Ebuf, Hbuf. unfold call_handler. rewrite Eh.
  split_and!.
  - rewrite <- Etd. by destruct (handler_ d).
  - split_and!; [done|done|done|]. rewrite <- Hmax, <- Em. by destruct (handler_ d).
  - rewrite <- Eblock. by destruct (handler_ d).
  - rewrite <- Ecalls. destruct (handler_ d); [done|]. by rewrite app_nil_r.
Qed.

Lemma cut_receive hs handler sizes output d td' :
  NoDup hs.*1 → Forall byte_ok output → Z.of_nat (length output) <= kMaxDecodeBufferSize → decoder_ok d →
  understood t st (bytes_bits output) (representations hs) (HpackDecoder.header_table_ d) td' →
  ∃ d', receive t handler (cut sizes output) d = Done (expected hs handler (Z.of_nat (length output)), d') ∧
    decoder_ok d' ∧ HpackDecoder.header_table_ d' = td'.
Proof.
  intros Hnd Hb Hl (Hbuf & Hst' & Hh & Hm) Hu. destruct (cut_concat sizes output) as (p & ps & -> & Ec).
  unfold receive. set (d0 := HandleControlFrameHeadersStart handler _).
  rewrite (feed_all p ps d0) by (done || by rewrite Ec). rewrite Ec. cbn [negb]. set (d1 := fed_decoder output d0).
  assert (HpackDecoder.header_table_ d1 = HpackDecoder.header_table_ d ∧ handler_ d1 = handler ∧ decoded_block_ d1 = [] ∧
    headers_block_buffer_ d1 = output ∧ HpackDecoder.max_string_literal_size_ d1 = kDefaultMaxStringLiteralSize ∧
    calls d1 = if handler then [OnHeaderBlockStart] else []) as (Et & Eh & Eb & Ebuf & Em & Ec1).
  { rewrite <- Hm. destruct d as [m tbl buf block kb vb h cs seen started]. cbn. by destruct handler. }
  rewrite <- Et in Hu. destruct (Complete_spec hs output d1 td' Hnd Hb Eb Ebuf Em Hu)
    as (d' & f' & -> & -> & Etd & Hd' & Eblock & Ecalls).
  step_done. exists d'. split; [|done]. rewrite Eblock, Ecalls, Eh. unfold expected, take_headers.
  change (handler_ (front st d1)) with (handler_ d1). rewrite Eh. destruct handler.
  - cbn [decoded_block_ calls set_field front]. rewrite Eb, Ec1. done.
  - cbn [decoded_block_ calls set_field front]. rewrite Eb, Ec1. done.
Qed.

(** ** Sequences of events *)

Record linked (b : nat) (e : HpackEncoder) (d : HpackDecoder) : Prop := {
  li_tables : synced st b (header_table_ e) (HpackDecoder.header_table_ d);
  li_encoder : encoder_ok e;
  li_decoder : decoder_ok d
}.

Definition event_ok (ev : event) : Prop :=
  match ev with
  | Setting size_setting => 0 <= size_setting <= u32_max
  | Headers header_set _ _ => message_ok header_set
  end.

(** The receptions that an event should have. *)
Definition delivered (ev : event) (rs : list reception) : Prop :=
  match ev with
  | Setting _ => rs = []
  | Headers header_set handler _ =>
      ∃ len, 0 <= len <= kMaxDecodeBufferSize ∧ rs = [expected header_set handler len]
  end.

Lemma linked_new b :
  Z.of_nat b < 2 ^ 62 → linked b (new_HpackEncoder st) (new_HpackDecoder st).
Proof.
  intros Hb. split; [by apply synced_new|split|split_and!; done].
  - split; [apply written_new|done].
  - done.
Qed.

Lemma exchange_setting b n e d :
  linked b e d → 0 <= n <= u32_max →
  ∃ e' d', exchange t (Setting n) e d = Done ([], e', d') ∧ linked b e' d'.
Proof.
  intros [Hs [Ha Hmin] Hd] Hn. unfold exchange, ApplyHeaderTableSizeSetting, HpackDecoder.ApplyHeaderTableSizeSetting.
  destruct (Z.eqb_spec n (settings_size_bound_ (header_table_ e))) as [->|Hne].
  - step_done. destruct (synced_same_setting st b _ _ Hs) as (td' & E & Hs'). rewrite E. step_done.
    eexists _, _. split; [done|]. constructor; [|by split|]; by destruct d.
  - set (e1 := if n <? _ then _ else e).
    assert (header_table_ e1 = header_table_ e ∧ output_stream_ e1 = output_stream_ e ∧
            Z.min n (max_size_ (header_table_ e)) <= min_table_size_setting_received_ e1) as (Et & Eo & Hmin1).
    { unfold e1. destruct (n <? _); (split_and!; [by destruct e|by destruct e|]); cbn; lia. }
    destruct (synced_settings st b _ _ n Hs Hn) as (te' & td' & E1 & E2 & Hs' & Em).
    rewrite Et, E1. step_done. rewrite E2. step_done.
    eexists _, _. split; [done|]. constructor; [done| |by destruct d].
    split; cbn [output_stream_ set_field header_table_ min_table_size_setting_received_]; [by rewrite Eo|lia].
Qed.

Lemma exchange_headers b hs handler sizes e d :
  message_ok hs → linked (b + 1024) e d →
  ∃ rs e' d', exchange t (Headers hs handler sizes) e d = Done (rs, e', d') ∧ linked b e' d' ∧
    delivered (Headers hs handler sizes) rs.
Proof.
  intros Hm [Hs He Hd]. destruct (EncodeHeaderSet_sent b e _ hs Hm Hs He)
    as (output & e' & td' & E1 & He' & Hb & Hl & Hs' & Hu).
  destruct (cut_receive hs handler sizes output d td') as (d' & E2 & Hd' & Etd); [apply Hm|done..|].
  unfold exchange. rewrite E1. step_done. rewrite E2. step_done.
  eexists _, e', d'. split; [done|]. split; [by constructor; [rewrite Etd|..]|].
  eexists. split; [|done]. lia.
Qed.

Lemma run_delivers events b e d :
  Forall event_ok events → linked (b + length events * 1024) e d →
  ∃ rss e' d', run t events e d = Done (concat rss, e', d') ∧ linked b e' d' ∧ Forall2 delivered events rss.
Proof.
  intros Hev. revert e d. induction Hev as [|ev events Hev Hevs IH]; intros e d Hl.
  { exists [], e, d. rewrite Nat.add_0_r in Hl. done. }
  assert (∃ rs e1 d1, exchange t ev e d = Done (rs, e1, d1) ∧ linked (b + length events * 1024) e1 d1 ∧ delivered ev rs)
    as (rs & e1 & d1 & E1 & Hl1 & Hrs).
  { destruct ev as [n|hs handler sizes].
    - destruct (exchange_setting _ n e d Hl Hev) as (e1 & d1 & E1 & [Hs1 ? ?]). exists [], e1, d1.
      split_and!; [done| |done]. constructor; [|done..]. by apply (synced_less _ _ _ _ _ Hs1); cbn; lia.
    - apply exchange_headers; [done|].
      by replace (b + length events * 1024 + 1024)%nat with (b + length (Headers hs handler sizes :: events) * 1024)%nat
        by (cbn; lia). }
  destruct (IH e1 d1 Hl1) as (rss & e' & d' & E2 & Hl2 & Hrss).
  exists (rs :: rss), e', d'. split_and!; [|done|by constructor]. cbn [run]. rewrite E1. step_done. rewrite E2. done.
Qed.
End Session.

(** [C4] HPACK end to end: for every sequence of settings and of header sets that fit the
    limits of the decoder, no check fails on either side, the decoder accepts every header
    block that the encoder writes, cut into frames anywhere, and hands out exactly the
    headers of the set - pseudo-headers first, every other value as it was, the value of a
    cookie in crumbs - as a block or as calls of a handler. *)
Theorem Hpack_session pad failed t st events :
  ObtainHpackHuffmanTable pad failed = Done t → ObtainHpackStaticTable = Done st →
  Forall event_ok events → Z.of_nat (length events) <= 2 ^ 50 →
  ∃ rss e d, run t events (new_HpackEncoder st) (new_HpackDecoder st) = Done (concat rss, e, d) ∧
    Forall2 delivered events rss.
Proof.
  intros Ht Hst Hev Hn. destruct (shared_table_good pad failed) as (t' & Ht' & Hgood).
  rewrite Ht in Ht'. injection Ht' as <-. destruct (is_static_table_ok st Hst) as [Hok Hlen].
  destruct (run_delivers t Hgood st Hok Hlen events 0 (new_HpackEncoder st) (new_HpackDecoder st) Hev)
    as (rss & e & d & E & _ & Hrss); [apply linked_new; [done..|lia]|].
  exists rss, e, d. exact (conj E Hrss).
Qed.

(** Settings down and up again; then a set with a cookie and a value with a separator, twice. *)
Definition some_set : SpdyHeaderBlock :=
  [([97], [49; 0; 50]); ([99; 111; 111; 107; 105; 101], [97; 61; 49; 59; 32; 98; 61; 50]);
   ([58; 112; 97; 116; 104], [47; 120])].
Definition some_events : list event :=
  [Setting 10; Headers some_set false [1%nat; 3%nat]; Setting 200; Setting 4096; Headers some_set true []; Headers some_set false []].

Lemma Hpack_session_witness :
  ∃ t st rss e d, ObtainHpackHuffmanTable 0 0 = Done t ∧ ObtainHpackStaticTable = Done st ∧
    run t some_events (new_HpackEncoder st) (new_HpackDecoder st) = Done (concat rss, e, d) ∧
    Forall2 delivered some_events rss.
Proof.
  assert (message_ok some_set) as Hm.
  { split; [|split].
    - apply (bool_decide_unpack _). reflexivity.
    - repeat constructor; cbn; try (unfold byte_ok; lia); unfold kDefaultMaxStringLiteralSize; lia.
    - vm_compute. discriminate. }
  assert (Forall event_ok some_events) as Hev 
    by (repeat (constructor; [first [exact Hm|cbn; unfold u32_max; lia]|]); constructor).
  assert (Z.of_nat (length some_events) <= 2 ^ 50) as Hn by (cbn; lia).
  destruct (shared_table_good 0 0) as (t & Ht & _). destruct static_table_ok as (st & Hst & _).
  destruct (Hpack_session 0 0 t st some_events Ht Hst Hev Hn) as (rss & e & d & H).
  exists t, st, rss, e, d. exact (conj Ht (conj Hst H)).
Defined.

(** ** Two remarks *)

(** After the setting has gone down and up, the encoder announces the larger size, but its
    own table keeps the smaller one. *)
Lemma encoder_table_stays_small :
  (st ← ObtainHpackStaticTable;
   e ← ApplyHeaderTableSizeSetting 0 (new_HpackEncoder st);
   e ← ApplyHeaderTableSizeSetting 4096 e;
   e ← MaybeEmitTableSize e;
   Done (HpackOutputStream.buffer_ (output_stream_ e), max_size_ (header_table_ e)))
  = Done ([32; 63; 225; 31], 0).
Proof. vm_compute. reflexivity. Qed.

(** Without compression the order of the headers is kept, and the decoder rejects a
    pseudo-header behind another header. *)
Lemma without_compression_rejected :
  (t ← ObtainHpackHuffmanTable 0 0;
   st ← ObtainHpackStaticTable;
   '(output, _) ← EncodeHeaderSetWithoutCompression t [([97], [98]); ([58; 112; 97; 116; 104], [47])]
                    (new_HpackEncoder st);
   '(r, _) ← receive t false [output] (new_HpackDecoder st);
   Done r) = Done None.
Proof. vm_compute. reflexivity. Qed.
