(* ===== verification/HpackSafety.v ===== *)
(** * The HPACK decoder on any input

    Whatever bytes a peer sends, in whatever pieces, no check of the decoder fails and its
    table stays well formed. *)

From S2P Require Import Prelude Bits HpackConstants HpackInputStream HpackHuffmanTable HpackHuffmanCode HpackHuffmanDecode HpackHeaderTable HpackTableInvariant SpdyHeaderBlock HpackDecoder HpackWire.

(** The entries of the static table are short. *)
Definition static_small (st : HpackStaticTable) : Prop :=
  Forall (λ e, pair_size (as_header e) <= 200) (st_entries st).

Lemma is_static_table_small st : is_static_table st → static_small st.
Proof.
  assert (match ObtainHpackStaticTable with
          | Done st => forallb (λ e, pair_size (as_header e) <=? 200) (st_entries st)
          | _ => false
          end = true) as H by (vm_compute; reflexivity).
  intros E. unfold is_static_table in E. rewrite E in H. apply list.Forall_forall. intros e He.
  rewrite forallb_forall in H. apply Z.leb_le, H. by apply list_elem_of_In.
Qed.

(** A stream at a byte. *)
Definition ready (s : HpackInputStream) : Prop :=
  good s ∧ HpackInputStream.bit_offset_ s = 0 ∧
  HpackInputStream.max_string_literal_size_ s = kDefaultMaxStringLiteralSize.
Definition left (s : HpackInputStream) : nat := length (HpackInputStream.buffer_ s).

(** Behind a prefix, as much is left of the bytes. *)
Definition in_byte (s0 s : HpackInputStream) : Prop :=
  good s ∧ left s = left s0 ∧ HpackInputStream.max_string_literal_size_ s = kDefaultMaxStringLiteralSize.

Lemma Match_safe p s :
  ready s → prefix_ok p →
  (∃ s', MatchPrefixAndConsume p s = Done (true, s') ∧ in_byte s s') ∨
  MatchPrefixAndConsume p s = Done (false, s).
Proof.
  intros (Hs & H0 & Hm) [Hn Hv].
  destruct (MatchPrefixAndConsume_spec s p Hs) as [(s' & rest & E & Hg & Eu & Eu' & Em & Eo)|[E _]];
    [lia|done| |by right].
  left. exists s'. split; [done|]. split_and!; [done| |congruence].
  pose proof (unread_bits_length s Hs) as L. pose proof (unread_bits_length s' Hg) as L'.
  rewrite Eu, length_app in L. unfold prefix_of in L. rewrite Eu' in L'. rewrite z_bits_length in L. rewrite H0, Z.add_0_l, Z.mod_small in Eo by lia. unfold left. lia.
Qed.

Lemma Uint32_safe s0 s :
  in_byte s0 s →
  ∃ ok I s', DecodeNextUint32 s = Done (ok, I, s') ∧ is_u32 I ∧ ready s' ∧ (left s' <= left s0)%nat ∧
    (ok = true → (left s' < left s0)%nat).
Proof.
  intros (Hs & El & Hm). destruct (DecodeNextUint32_safe s Hs) as (ok & I & s' & E & HI & Hg & H0 & Em & n & En & Hok).
  exists ok, I, s'. unfold left in *. rewrite En, length_drop.
  split; [done|]. split; [done|]. split; [split_and!; [done|done|congruence]|]. split; [lia|].
  intros ->. destruct (Hok eq_refl) as [Hn Hne]. destruct (HpackInputStream.buffer_ s); [done|]. cbn in *. lia.
Qed.

(** ** Calls of the decoder *)

Inductive decoder_call : Type :=
  | HeadersStart (handler : bool)
  | HeadersData (headers_data : list Z)
  | HeadersComplete
  | SizeSetting (size_setting : Z).

Definition decoder_call_ok (c : decoder_call) : Prop :=
  match c with
  | HeadersData headers_data => Forall byte_ok headers_data
  | SizeSetting size_setting => 0 <= size_setting <= u32_max
  | _ => True
  end.

(** In any order, whatever the results. *)
Definition decoder_step (t : HpackHuffmanTable) (c : decoder_call) (d : HpackDecoder) : outcome HpackDecoder :=
  match c with
  | HeadersStart handler => Done (HandleControlFrameHeadersStart handler d)
  | HeadersData headers_data => Done (HandleControlFrameHeadersData headers_data d).2
  | HeadersComplete => '(_, _, d) ← HandleControlFrameHeadersComplete t d; Done d
  | SizeSetting size_setting => ApplyHeaderTableSizeSetting size_setting d
  end.

Fixpoint decoder_steps (t : HpackHuffmanTable) (cs : list decoder_call) (d : HpackDecoder) : outcome HpackDecoder :=
  match cs with
  | [] => Done d
  | c :: cs => d ← decoder_step t c d; decoder_steps t cs d
  end.

Section Safety.
Context (t : HpackHuffmanTable) (Ht : good_table t).
Context (st : HpackStaticTable) (Hsmall : static_small st).

Lemma HuffmanString_safe s0 s :
  in_byte s0 s →
  ∃ ok str s', DecodeNextHuffmanString t s = Done (ok, str, s') ∧
    (ok = true → ∃ x, str = Some x ∧ Z.of_nat (length x) <= kDefaultMaxStringLiteralSize ∧
                 ready s' ∧ (left s' < left s0)%nat).
Proof.
  intros Hs. destruct (Uint32_safe s0 s Hs) as (ok & I & s1 & E & HI & Hr & Hl & Hok).
  unfold DecodeNextHuffmanString. rewrite E. step_done. destruct ok; cbn [negb]; [|by do 3 eexists].
  destruct (Z.ltb_spec (Z.of_nat (length (HpackInputStream.buffer_ s1))) I) as [_|Hge]; [by do 3 eexists|].
  destruct Hr as (Hg & H0 & Hm). assert (Hg' := Hg). destruct Hg' as (Hb & _ & _).
  destruct (reads_prefix s1 I Hg H0) as (Hg2 & H02 & Hm2 & _). rewrite Hm2, Hm in *.
  set (bytes := take (Z.to_nat I) (HpackInputStream.buffer_ s1)).
  assert (Forall byte_ok bytes) as Hbytes by by apply Forall_take.
  pose proof (new_good kDefaultMaxStringLiteralSize bytes Hbytes) as Hnew.
  set (reader := new_HpackInputStream kDefaultMaxStringLiteralSize bytes) in *.
  destruct (DecodeString_bits t Ht kDefaultMaxStringLiteralSize reader Hnew) as (s2 & E2).
  assert (0 <= kDefaultMaxStringLiteralSize) as Hcap by done.
  pose proof (reference_decode_capacity t (S (length (unread reader))) _ (unread reader) [] Hcap Hcap
    ltac:(constructor)) as Hlen.
  destruct (reference_decode _ _ _ _ _) as [ok out]. rewrite E2. step_done.
  exists ok, (Some out), (remove_prefix I s1). split; [done|]. intros _. exists out.
  split; [done|]. split; [apply Hlen|]. split; [done|].
  unfold left, remove_prefix. cbn [HpackInputStream.buffer_ set_field]. rewrite length_drop. specialize (Hok eq_refl).
  unfold left in Hok. lia.
Qed.

(** A string: what is left is shorter. *)
Definition string_read (s0 s' : HpackInputStream) (r : option StringPiece) : Prop :=
  ∀ x, r = Some x → Z.of_nat (length x) <= kDefaultMaxStringLiteralSize ∧ ready s' ∧ (left s' < left s0)%nat.

Lemma StringLiteral_safe is_key s d :
  ready s →
  ∃ r s' kb vb, DecodeNextStringLiteral t is_key s d = Done (r, s', set_buffers kb vb d) ∧ string_read s s' r.
Proof.
  intros Hs. unfold DecodeNextStringLiteral. destruct string_prefixes_ok as [Hp1 Hp2].
  assert (set_buffers (key_buffer_ d) (value_buffer_ d) d = d) as Ed by by destruct d.
  destruct (Match_safe _ s Hs Hp1) as [(s1 & -> & H1)| ->]; step_done.
  - destruct (HuffmanString_safe s s1 H1) as (ok & str & s2 & -> & Hok). step_done.
    set (buffer := default _ str).
    assert (string_read s s2 (if ok then Some buffer else None)) as Hr.
    { intros x Hx. destruct ok; [|done]. destruct (Hok eq_refl) as (y & -> & ?). injection Hx as <-. done. }
    destruct is_key.
    + exists (if ok then Some buffer else None), s2, buffer, (value_buffer_ d). split; [by destruct d|done].
    + exists (if ok then Some buffer else None), s2, (key_buffer_ d), buffer. split; [by destruct d|done].
  - destruct (Match_safe _ s Hs Hp2) as [(s1 & -> & (Hg & Hl & Hm))| ->]; step_done.
    + destruct (DecodeNextIdentityString_safe s1 Hg) as (r & s2 & -> & Hg2 & H02 & Hm2 & _ & Hr). step_done.
      exists r, s2, (key_buffer_ d), (value_buffer_ d). rewrite Ed. split; [done|].
      intros x Hx. destruct (Hr x Hx) as (_ & Hlen & Hlt). rewrite Hm in Hlen, Hm2. unfold left in *.
      split; [done|]. split; [done|lia].
    + exists None, s, (key_buffer_ d), (value_buffer_ d). rewrite Ed. done.
Qed.

(** ** Tables and headers *)

(** [b] is how many headers may still be added. *)
Definition table_safe (b : nat) (tbl : HpackHeaderTable) : Prop :=
  table_inv st tbl ∧ 0 <= max_size_ tbl ∧ settings_size_bound_ tbl <= u32_max ∧
  total_insertions_ tbl + Z.of_nat b < 2 ^ 63.

Definition max_name : Z := u32_max + 200.

Lemma GetByIndex_small b tbl i e :
  table_safe b tbl → GetByIndex i tbl = Some e → Z.of_nat (length (name_ e)) <= max_name.
Proof.
  intros ([Hc Hm Hb] & _ & Hu & _) E.
  assert (pair_size (as_header e) <= max_name) as Hp.
  { unfold GetByIndex in E. destruct (i =? 0); [done|]. rewrite (tc_statics _ _ Hc) in E. unfold max_name, u32_max in *.
    destruct (_ <? _) in E.
    - pose proof (list.Forall_lookup_1 _ _ _ _ Hsmall E) as Hp. cbn beta in Hp. lia.
    - destruct (_ <? _) in E; [|done]. pose proof (tc_size _ _ Hc) as Hs.
      unfold dynamic in Hs. rewrite <- (take_drop_middle _ _ _ E), map_app, total_size_app in Hs.
      cbn [List.map] in Hs. rewrite total_cons in Hs.
      match type of Hs with _ = total ?l + (_ + total ?k) => pose proof (total_size_nonneg l); pose proof (total_size_nonneg k) end.
      lia. }
  unfold pair_size in Hp. cbn [as_header fst snd] in Hp. lia.
Qed.

Lemma TryAddEntry_safe b tbl p :
  table_safe (S b) tbl → small p →
  ∃ r tbl', TryAddEntry p.1 p.2 tbl = Done (r, tbl') ∧ table_safe b tbl'.
Proof.
  intros (Hinv & H0 & Hu & Hb) Hp. pose proof (ti_bound _ _ Hinv). unfold u32_max in Hu.
  destruct (TryAddEntry_spec st tbl p Hinv) as (r & tbl' & E & Hinv' & _ & _ & Em & Eb & Ei); [lia|done|lia|].
  exists r, tbl'. split; [done|]. split_and!; [done|lia|unfold u32_max; lia|lia].
Qed.

Lemma SetMaxSize_safe b tbl n :
  table_safe b tbl → 0 <= n <= settings_size_bound_ tbl →
  ∃ tbl', SetMaxSize n tbl = Done tbl' ∧ table_safe b tbl'.
Proof.
  intros ([Hc Hm Hb] & H0 & Hu & Hi) Hn. unfold u32_max in Hu.
  destruct (SetMaxSize_core st tbl n Hc) as (tbl' & E & Hinv & _ & Em & Eb & Ei); [lia|done|].
  exists tbl'. split; [done|]. split_and!; [done|lia|unfold u32_max; lia|lia].
Qed.

Lemma SetSettings_safe b tbl n :
  table_safe b tbl → 0 <= n <= u32_max →
  ∃ tbl', SetSettingsHeaderTableSize n tbl = Done tbl' ∧ table_safe b tbl'.
Proof.
  intros (Hinv & H0 & Hu & Hi) Hn. pose proof (ti_bound _ _ Hinv). pose proof (ti_max _ _ Hinv). unfold u32_max in *.
  destruct (SetSettingsHeaderTableSize_spec st tbl n Hinv) as (tbl' & E & Hinv' & _ & Em & Eb & Ei); [lia|lia|].
  exists tbl'. split; [done|]. split_and!; [done|lia|unfold u32_max; lia|lia].
Qed.

(** While a header block is decoded. *)
Definition decoding (b : nat) (d : HpackDecoder) : Prop :=
  table_safe b (header_table_ d) ∧ (handler_ d = true → decoded_block_ d = []).
Definition kept (d d' : HpackDecoder) : Prop :=
  handler_ d' = handler_ d ∧ headers_block_buffer_ d' = headers_block_buffer_ d ∧
  max_string_literal_size_ d' = max_string_literal_size_ d.

Lemma kept_trans d1 d2 d3 : kept d1 d2 → kept d2 d3 → kept d1 d3.
Proof. unfold kept. intuition congruence. Qed.

Lemma decoding_buffers b kb vb d : decoding b d → decoding b (set_buffers kb vb d) ∧ kept d (set_buffers kb vb d).
Proof. by destruct d. Qed.

Lemma decoding_table b b' tbl d : decoding b d → table_safe b' tbl →
  decoding b' (d <| header_table_ := tbl |>) ∧ kept d (d <| header_table_ := tbl |>).
Proof. intros [_ H] Ht'. by destruct d. Qed.

Lemma decoding_less b d : decoding (S b) d → decoding b d.
Proof. intros [(? & ? & ? & ?) ?]. split; [split_and!; try done; lia|done]. Qed.

Lemma Handle_safe b name value d :
  decoding b d →
  ∃ ok d', HandleHeaderRepresentation name value d = Done (ok, d') ∧ decoding b d' ∧ kept d d'.
Proof.
  intros [Ht' Hb]. unfold HandleHeaderRepresentation.
  destruct (see_header name d) as [d1|] eqn:E; [|exists false, d; split_and!; done].
  assert (decoding b d1 ∧ kept d d1) as [[Ht1 Hb1] Hk].
  { unfold see_header in E. destruct (0 <? length name)%nat; [|by injection E as <-].
    destruct (starts_with_colon name); [|by injection E as <-; destruct d].
    destruct (regular_header_seen_ d); [done|]. by injection E as <-. }
  destruct (handler_ d1) eqn:Eh; cbn [negb].
  - rewrite bool_decide_eq_true_2 by auto. rewrite DCHECK_true_bind. unfold call_handler. rewrite Eh.
    eexists true, _. split; [done|]. split; [split; [exact Ht1|intros _; by apply Hb1]|exact Hk].
  - destruct (block_find name (decoded_block_ d1)); eexists true, _; (split; [done|]); (split; [|exact Hk]);
      (split; [exact Ht1|]); cbn; congruence.
Qed.

(** ** Opcodes *)

Definition name_read (s0 s' : HpackInputStream) (r : option StringPiece) : Prop :=
  ∀ x, r = Some x → Z.of_nat (length x) <= max_name ∧ ready s' ∧ (left s' < left s0)%nat.

Lemma DecodeNextName_safe b s0 s d :
  in_byte s0 s → decoding b d →
  ∃ r s' kb vb, DecodeNextName t s d = Done (r, s', set_buffers kb vb d) ∧ name_read s0 s' r.
Proof.
  intros Hs [Htbl _]. unfold DecodeNextName.
  assert (set_buffers (key_buffer_ d) (value_buffer_ d) d = d) as Ed by by destruct d.
  destruct (Uint32_safe s0 s Hs) as (ok & I & s1 & -> & HI & Hr & Hl & Hok). step_done.
  destruct ok; cbn [negb]; [specialize (Hok eq_refl)|by exists None, s1, (key_buffer_ d), (value_buffer_ d); rewrite Ed].
  destruct (I =? 0).
  - destruct (StringLiteral_safe true s1 d Hr) as (r & s2 & kb & vb & E & Hread).
    exists r, s2, kb, vb. split; [done|]. intros x Hx. destruct (Hread x Hx) as (Hx' & Hr2 & Hl2).
    split; [unfold kDefaultMaxStringLiteralSize, max_name, u32_max in *; lia|]. split; [done|lia].
  - destruct (GetByIndex I (header_table_ d)) as [e|] eqn:Ee;
      [|by exists None, s1, (key_buffer_ d), (value_buffer_ d); rewrite Ed].
    pose proof (GetByIndex_small b _ I e Htbl Ee) as Hlen.
    destruct (IsStatic e).
    + exists (Some (name_ e)), s1, (key_buffer_ d), (value_buffer_ d). rewrite Ed. split; [done|].
      by intros x [= <-].
    + exists (Some (name_ e)), s1, (name_ e), (value_buffer_ d). split; [by destruct d|]. by intros x [= <-].
Qed.

(** What holds after an opcode. *)
Definition opcode_result (b : nat) (s0 : HpackInputStream) (d : HpackDecoder)
    (r : outcome (bool * HpackInputStream * HpackDecoder)) : Prop :=
  ∃ ok s' d', r = Done (ok, s', d') ∧ decoding b d' ∧ kept d d' ∧
    (ok = true → ready s' ∧ (left s' < left s0)%nat).

Lemma opcode_failed b s0 s d : decoding b d → opcode_result b s0 d (Done (false, s, d)).
Proof. intros Hd. exists false, s, d. by split_and!. Qed.

Lemma LiteralHeader_safe b s0 s d should_index :
  in_byte s0 s → decoding (S b) d → opcode_result b s0 d (DecodeNextLiteralHeader t should_index s d).
Proof.
  intros Hs Hd. unfold DecodeNextLiteralHeader.
  destruct (DecodeNextName_safe _ s0 s d Hs Hd) as (name & s1 & kb & vb & -> & Hname). step_done.
  destruct (decoding_buffers _ kb vb d Hd) as [Hd1 Hk1]. set (d1 := set_buffers kb vb d) in *.
  destruct name as [name|]; [|exists false, s1, d1; split_and!; [done|by apply decoding_less|done|done]].
  destruct (Hname name eq_refl) as (Hlen & Hr1 & Hl1).
  destruct (StringLiteral_safe false s1 d1 Hr1) as (value & s2 & kb2 & vb2 & -> & Hvalue). step_done.
  destruct (decoding_buffers _ kb2 vb2 d1 Hd1) as [Hd2 Hk2]. set (d2 := set_buffers kb2 vb2 d1) in *.
  pose proof (kept_trans _ _ _ Hk1 Hk2) as Hk.
  destruct value as [value|]; [|exists false, s2, d2; split_and!; [done|by apply decoding_less|done|done]].
  destruct (Hvalue value eq_refl) as (Hlen2 & Hr2 & Hl2).
  destruct (Handle_safe (S b) name value d2 Hd2) as (ok & d3 & -> & Hd3 & Hk3). step_done.
  pose proof (kept_trans _ _ _ Hk Hk3) as Hk'.
  destruct ok; cbn [negb]; [|exists false, s2, d3; split_and!; [done|by apply decoding_less|done|done]].
  destruct should_index; cbn [negb].
  - assert (small (name, value)) as Hsm.
    { unfold small, pair_size, max_name, u32_max, kDefaultMaxStringLiteralSize in *. cbn [fst snd]. lia. }
    destruct (TryAddEntry_safe b (header_table_ d3) (name, value) (proj1 Hd3) Hsm) as (r & tbl & E & Htbl).
    cbn [fst snd] in E. rewrite E. step_done. destruct (decoding_table _ _ tbl d3 Hd3 Htbl) as [Hd4 Hk4].
    eexists true, s2, _. split_and!; [done|done|by apply (kept_trans _ d3)|]. intros _. split; [done|lia].
  - exists true, s2, d3. split_and!; [done|by apply decoding_less|done|]. intros _. split; [done|lia].
Qed.

Lemma IndexedHeader_safe b s0 s d :
  in_byte s0 s → decoding (S b) d → opcode_result b s0 d (DecodeNextIndexedHeader s d).
Proof.
  intros Hs Hd%decoding_less. unfold DecodeNextIndexedHeader.
  destruct (Uint32_safe s0 s Hs) as (ok & I & s1 & -> & HI & Hr & Hl & Hok). step_done.
  destruct ok; cbn [negb]; [specialize (Hok eq_refl)|by apply opcode_failed].
  destruct (GetByIndex I (header_table_ d)) as [e|]; [|by apply opcode_failed].
  destruct (Handle_safe b (name_ e) (value_ e) d Hd) as (ok & d' & -> & Hd' & Hk). step_done.
  exists ok, s1, d'. by split_and!.
Qed.

Lemma SizeUpdate_safe b s0 s d :
  in_byte s0 s → decoding (S b) d → opcode_result b s0 d (DecodeNextHeaderTableSizeUpdate s d).
Proof.
  intros Hs Hd%decoding_less. unfold DecodeNextHeaderTableSizeUpdate.
  destruct (Uint32_safe s0 s Hs) as (ok & I & s1 & -> & HI & Hr & Hl & Hok). step_done.
  destruct ok; cbn [negb]; [specialize (Hok eq_refl)|by apply opcode_failed].
  destruct (Z.ltb_spec (settings_size_bound_ (header_table_ d)) I) as [|Hle]; [by apply opcode_failed|].
  unfold is_u32 in HI.
  destruct (SetMaxSize_safe b (header_table_ d) I (proj1 Hd)) as (tbl & -> & Htbl); [lia|]. step_done.
  destruct (decoding_table _ _ tbl d Hd Htbl). eexists true, s1, _. by split_and!.
Qed.

Lemma DecodeNextOpcode_safe b s d :
  ready s → decoding (S b) d → opcode_result b s d (DecodeNextOpcode t s d).
Proof.
  intros Hs Hd. unfold DecodeNextOpcode.
  assert (prefix_ok kIndexedOpcode ∧ prefix_ok kLiteralIncrementalIndexOpcode ∧ prefix_ok kLiteralNoIndexOpcode ∧
    prefix_ok kLiteralNeverIndexOpcode ∧ prefix_ok kHeaderTableSizeUpdateOpcode) as (H1 & H2 & H3 & H4 & H5)
    by (repeat split; cbn; lia).
  destruct (Match_safe _ s Hs H1) as [(s1 & -> & Hb)| ->]; step_done; [by apply IndexedHeader_safe|].
  destruct (Match_safe _ s Hs H2) as [(s1 & -> & Hb)| ->]; step_done; [by apply LiteralHeader_safe|].
  destruct (Match_safe _ s Hs H3) as [(s1 & -> & Hb)| ->]; step_done; [by apply LiteralHeader_safe|].
  destruct (Match_safe _ s Hs H4) as [(s1 & -> & Hb)| ->]; step_done; [by apply LiteralHeader_safe|].
  destruct (Match_safe _ s Hs H5) as [(s1 & -> & Hb)| ->]; step_done; [by apply SizeUpdate_safe|].
  by apply opcode_failed, decoding_less.
Qed.

Lemma decode_opcodes_safe fuel b s d :
  ready s → decoding (b + left s) d → (left s < fuel)%nat →
  ∃ ok d', decode_opcodes t fuel s d = Done (ok, d') ∧ decoding b d' ∧ kept d d'.
Proof.
  assert (∀ k b d, decoding (b + k) d → decoding b d) as Hless.
  { intros k b' d' [(? & ? & ? & ?) ?]. split; [split_and!; try done; lia|done]. }
  revert s d. induction fuel as [|fuel IH]; intros s d Hs Hd Hf; [lia|]. cbn [decode_opcodes].
  destruct (negb (HasMoreData s)) eqn:Em; [by exists true, d; split_and!; eauto|].
  destruct (left s) as [|l] eqn:El.
  { unfold HasMoreData in Em. rewrite negb_involutive in Em. apply bool_decide_eq_false in Em.
    unfold left in El. by destruct (HpackInputStream.buffer_ s). }
  rewrite <- plus_n_Sm in Hd.
  destruct (DecodeNextOpcode_safe _ s d Hs Hd) as (ok & s1 & d1 & -> & Hd1 & Hk1 & Hok). step_done.
  destruct ok; cbn [negb]; [|by exists false, d1; split_and!; eauto].
  destruct (Hok eq_refl) as [Hs1 Hl1]. rewrite El in Hl1.
  destruct (IH s1 d1 Hs1) as (ok & d2 & -> & Hd2 & Hk2); [|lia|].
  { apply (Hless (l - left s1)%nat). by replace (b + left s1 + (l - left s1))%nat with (b + l)%nat by lia. }
  exists ok, d2. split_and!; [done|done|by apply (kept_trans _ d1)].
Qed.

(** ** Sequences of calls *)

(** The block that is decoded is cleared when the first bytes of the next one arrive. *)
Record decoder_inv (b : nat) (d : HpackDecoder) : Prop := {
  di_table : table_safe b (header_table_ d);
  di_block : headers_block_buffer_ d ≠ [] → decoded_block_ d = [];
  di_bytes : Forall byte_ok (headers_block_buffer_ d);
  di_size : Z.of_nat (length (headers_block_buffer_ d)) <= kMaxDecodeBufferSize;
  di_max : max_string_literal_size_ d = kDefaultMaxStringLiteralSize
}.

Lemma decoder_inv_less b b' d : decoder_inv b d → (b' <= b)%nat → decoder_inv b' d.
Proof. intros [(? & ? & ? & ?) ? ? ? ?] Hb. constructor; try done. split_and!; try done. lia. Qed.

Lemma Data_safe b data d :
  decoder_inv b d → Forall byte_ok data → decoder_inv b (HandleControlFrameHeadersData data d).2.
Proof.
  intros [Htbl Hblock Hbytes Hsize Hmax] Hdata. destruct d as [m tbl buf block kb vb h cs seen started].
  unfold HandleControlFrameHeadersData, call_handler. cbn in *.
  destruct started; cbn; [|destruct h; cbn];
    (destruct (Z.ltb_spec kMaxDecodeBufferSize (Z.of_nat (length buf) + Z.of_nat (length data))); cbn;
     constructor; cbn; try done; [by apply list.Forall_app|rewrite length_app; lia]).
Qed.

Lemma Complete_safe b d :
  decoder_inv (b + Z.to_nat kMaxDecodeBufferSize) d →
  ∃ ok len d', HandleControlFrameHeadersComplete t d = Done (ok, len, d') ∧ decoder_inv b d'.
Proof.
  intros [Htbl Hblock Hbytes Hsize Hmax]. unfold HandleControlFrameHeadersComplete.
  set (s := new_HpackInputStream _ _). set (d1 := d <| regular_header_seen_ := false |>).
  assert (∃ ok d2, decode_opcodes t (S (length (headers_block_buffer_ d1))) s d1 = Done (ok, d2) ∧
    table_safe b (header_table_ d2) ∧ max_string_literal_size_ d2 = kDefaultMaxStringLiteralSize)
    as (ok & d2 & -> & Htbl2 & Hmax2).
  { destruct (decide (headers_block_buffer_ d = [])) as [Ebuf|Hne].
    - exists true, d1. unfold s, d1. split; [by destruct d; cbn in *; subst|].
      split; [|done]. change (table_safe b (header_table_ d)).
      destruct Htbl as (? & ? & ? & ?). split_and!; try done. lia.
    - assert (ready s) as Hs by (unfold s; split_and!; [by apply new_good|done|done]).
      assert (left s = length (headers_block_buffer_ d)) as El by done.
      destruct (decode_opcodes_safe (S (left s)) b s d1 Hs) as (ok & d2 & E & [Htbl2 _] & (_ & _ & Hm2)); [|lia|].
      + split; [|intros _; by apply Hblock]. change (table_safe (b + left s) (header_table_ d)).
        destruct Htbl as (? & ? & ? & ?). split_and!; try done. lia.
      + exists ok, d2. split_and!; [exact E|done|by rewrite Hm2]. }
  step_done. destruct ok; cbn [negb].
  - eexists true, _, _. split; [done|]. constructor; unfold call_handler; destruct (handler_ d2); cbn; try done.
  - eexists false, _, _. split; [done|]. constructor; cbn; done.
Qed.

Lemma decoder_step_safe b c d :
  decoder_call_ok c → decoder_inv (b + Z.to_nat kMaxDecodeBufferSize) d →
  ∃ d', decoder_step t c d = Done d' ∧ decoder_inv b d'.
Proof.
  intros Hc Hd. destruct c as [handler|data| |n]; cbn [decoder_step decoder_call_ok] in *.
  - eexists. split; [done|]. apply (decoder_inv_less _ b) in Hd; [|lia]. by destruct Hd; constructor.
  - eexists. split; [done|]. apply Data_safe; [|done]. apply (decoder_inv_less _ b _ Hd). lia.
  - destruct (Complete_safe b d Hd) as (ok & len & d' & -> & Hd'). by exists d'.
  - apply (decoder_inv_less _ b) in Hd; [|lia]. destruct Hd as [Htbl ? ? ? ?].
    destruct (SetSettings_safe b _ n Htbl Hc) as (tbl & E & Htbl'). unfold ApplyHeaderTableSizeSetting.
    rewrite E. step_done. eexists. split; [done|]. by constructor.
Qed.

Lemma decoder_steps_safe b cs d :
  Forall decoder_call_ok cs → decoder_inv (b + length cs * Z.to_nat kMaxDecodeBufferSize) d →
  ∃ d', decoder_steps t cs d = Done d' ∧ decoder_inv b d'.
Proof.
  intros Hcs. revert d. induction Hcs as [|c cs Hc Hcs IH]; intros d Hd; cbn [decoder_steps].
  { exists d. split; [done|]. by rewrite Nat.add_0_r in Hd. }
  destruct (decoder_step_safe (b + length cs * Z.to_nat kMaxDecodeBufferSize) c d Hc) as (d1 & -> & Hd1).
  { apply (decoder_inv_less _ _ _ Hd). cbn [length]. lia. }
  step_done. by apply IH.
Qed.
End Safety.

(** [C12] The HPACK decoder on any input: for every sequence of calls, with any bytes and in
    any order, no check fails and the decoder returns; the header table stays well formed,
    within the size that was set. *)
Theorem Decoder_safe pad failed t st cs :
  ObtainHpackHuffmanTable pad failed = Done t → ObtainHpackStaticTable = Done st →
  Forall decoder_call_ok cs → Z.of_nat (length cs) <= 2 ^ 40 →
  ∃ d, decoder_steps t cs (new_HpackDecoder st) = Done d ∧ table_inv st (header_table_ d).
Proof.
  intros Ht Hst Hcs Hn. destruct (shared_table_good pad failed) as (t' & Ht' & Hgood).
  rewrite Ht in Ht'. injection Ht' as <-. destruct (is_static_table_ok st Hst) as [Hok Hlen].
  destruct (decoder_steps_safe t Hgood st (is_static_table_small st Hst) 0 cs (new_HpackDecoder st) Hcs)
    as (d & E & Hd).
  - constructor; [|done|constructor|done|done]. split_and!; [by apply new_table_inv|done|done|].
    cbn [new_HpackDecoder header_table_ new_HpackHeaderTable total_insertions_]. rewrite Hlen.
    change (Z.to_nat kMaxDecodeBufferSize) with (Z.to_nat 32768). lia.
  - exists d. exact (conj E (proj1 (di_table _ _ _ Hd))).
Qed.

Lemma Decoder_safe_witness :
  ∃ t st d, ObtainHpackHuffmanTable 0 0 = Done t ∧ ObtainHpackStaticTable = Done st ∧
    decoder_steps t [HeadersData [255; 255]; HeadersComplete; HeadersStart true; SizeSetting 10;
                     HeadersData [63; 0; 130]; HeadersComplete; HeadersComplete] (new_HpackDecoder st) = Done d ∧
    table_inv st (header_table_ d).
Proof.
  destruct (shared_table_good 0 0) as (t & Ht & _). destruct static_table_ok as (st & Hst & _).
  set (cs := [_; _; _; _; _; _; _]).
  assert (Forall decoder_call_ok cs) as Hcs
    by (repeat constructor; cbn; repeat constructor; unfold byte_ok, u32_max; lia).
  assert (Z.of_nat (length cs) <= 2 ^ 40) as Hn by (cbn; lia).
  destruct (Decoder_safe 0 0 t st cs Ht Hst Hcs Hn) as (d & H). exists t, st, d. exact (conj Ht (conj Hst H)).
Defined.
