(* ===== verification/Utf8Validator.v ===== *)
(** * base/i18n/streaming_utf8_validator.{h,cc} and utf8_validator_tables.cc

    The validator runs a table over the bytes it is given; what it accepts, whatever the
    pieces the bytes come in, is UTF-8 as RFC 3629 has it, and it sees an error at the first
    byte that makes one. *)

From S2P Require Import Prelude.

(** ** The tables *)

Definition I18N_UTF8_VALIDATOR_INVALID_INDEX : Z := 129.

Definition kUtf8ValidatorTables : list Z := [
  (* State 0, offset 0x00 *)
  0; 129; 129; 129; 129; 129; 129; 129;
  129; 129; 129; 129; 129; 129; 129; 129;
  129; 129; 129; 129; 129; 129; 129; 129;
  129; 129; 129; 129; 129; 129; 129; 129;
  129; 129; 129; 129; 129; 129; 129; 129;
  129; 129; 129; 129; 129; 129; 129; 129;
  129; 129; 129; 129; 129; 129; 129; 129;
  129; 129; 129; 129; 129; 129; 129; 129;
  129; 129; 129; 131; 131; 131; 131; 131;
  131; 131; 131; 131; 131; 131; 131; 131;
  131; 131; 131; 131; 131; 131; 131; 131;
  131; 131; 131; 131; 131; 131; 131; 131;
  131; 134; 139; 139; 139; 139; 139; 139;
  139; 139; 139; 139; 139; 139; 142; 139;
  139; 147; 156; 156; 156; 159; 129; 129;
  129; 129; 129; 129; 129; 129; 129; 129;
  129;
  (* State 1, offset 0x81 *)
  7; 129;
  (* State 2, offset 0x83 *)
  6; 0; 129;
  (* State 3, offset 0x86 *)
  5; 129; 131; 129; 129;
  (* State 4, offset 0x8b *)
  6; 131; 129;
  (* State 5, offset 0x8e *)
  5; 131; 129; 129; 129;
  (* State 6, offset 0x93 *)
  4; 129; 139; 139; 139; 129; 129; 129;
  129;
  (* State 7, offset 0x9c *)
  6; 139; 129;
  (* State 8, offset 0x9f *)
  4; 139; 129; 129; 129; 129; 129; 129;
  129
].
Definition kUtf8ValidatorTablesSize : Z := 168.

Definition StateTableLookup (offset : Z) : outcome Z :=
  DCHECK (offset <? kUtf8ValidatorTablesSize) ;;
  match kUtf8ValidatorTables !! Z.to_nat offset with
  | Some entry => Done entry
  | None => DcheckFailed
  end.

(** ** The validator *)

Inductive Utf8State : Type := VALID_ENDPOINT | VALID_MIDPOINT | INVALID.
#[export] Instance Utf8State_eq_dec : EqDecision Utf8State.
Proof. solve_decision. Defined.

(** [utf8_state_] is the [state_] of the class. *)
Record StreamingUtf8Validator : Type := mkStreamingUtf8Validator { utf8_state_ : Z }.

(** The constructor. *)
Definition init_StreamingUtf8Validator : StreamingUtf8Validator := {| utf8_state_ := 0 |}.

(** The loop of [AddBytes]. *)
Fixpoint add_bytes_loop (state : Z) (data : list Z) : outcome Z :=
  match data with
  | [] => Done state
  | p :: data =>
      if Z.land p 128 =? 0 then
        if state =? 0 then add_bytes_loop state data
        else Done I18N_UTF8_VALIDATOR_INVALID_INDEX
      else
        shift_amount ← StateTableLookup state;
        let shifted_char := Z.shiftr (Z.land p 127) shift_amount in
        state ← StateTableLookup (u8 (state + shifted_char + 1));
        add_bytes_loop state data
  end.

Definition AddBytes (data : list Z) (v : StreamingUtf8Validator) :
    outcome (Utf8State * StreamingUtf8Validator) :=
  state ← add_bytes_loop (utf8_state_ v) data;
  Done (if state =? 0 then VALID_ENDPOINT
        else if state =? I18N_UTF8_VALIDATOR_INVALID_INDEX then INVALID
        else VALID_MIDPOINT,
        {| utf8_state_ := state |}).

Definition Reset (v : StreamingUtf8Validator) : StreamingUtf8Validator := {| utf8_state_ := 0 |}.

Definition Validate (s : list Z) : outcome bool :=
  r ← AddBytes s init_StreamingUtf8Validator;
  Done (bool_decide (r.1 = VALID_ENDPOINT)).

(** Several calls of [AddBytes]. *)
Fixpoint AddPieces (pieces : list (list Z)) (v : StreamingUtf8Validator) :
    outcome StreamingUtf8Validator :=
  match pieces with
  | [] => Done v
  | piece :: pieces => r ← AddBytes piece v; AddPieces pieces r.2
  end.

(** ** UTF-8 (RFC 3629, section 3)

    The characters are U+0000 to U+10FFFF but for the surrogates; each is encoded in the
    fewest bytes that hold it. *)
Definition scalar_value (c : Z) : Prop := 0 <= c <= 55295 ∨ 57344 <= c <= 1114111.

Definition utf8_char (c : Z) : list Z :=
  if c <? 128 then [c]
  else if c <? 2048 then [192 + c / 64; 128 + c mod 64]
  else if c <? 65536 then [224 + c / 4096; 128 + c / 64 mod 64; 128 + c mod 64]
  else [240 + c / 262144; 128 + c / 4096 mod 64; 128 + c / 64 mod 64; 128 + c mod 64].

Definition utf8 (s : list Z) : Prop :=
  ∃ cs, Forall scalar_value cs ∧ s = concat (map utf8_char cs).
Definition utf8_prefix (s : list Z) : Prop := ∃ t, Forall byte_ok t ∧ utf8 (s ++ t).

(** ** The bytes that a state waits for

    A state is the list of the ranges of the bytes that complete the current character;
    [None] is the state behind an error. *)
Definition range : Type := Z * Z.
Definition in_range (r : range) (b : Z) : Prop := r.1 <= b <= r.2.
#[export] Instance in_range_dec r b : Decision (in_range r b).
Proof. unfold in_range. apply _. Defined.
Definition tail : range := (128, 191).

Definition awaited (state : Z) : option (list range) :=
  if state =? 0 then Some []
  else if state =? 131 then Some [tail]
  else if state =? 134 then Some [(160, 191); tail]
  else if state =? 139 then Some [tail; tail]
  else if state =? 142 then Some [(128, 159); tail]
  else if state =? 147 then Some [(144, 191); tail; tail]
  else if state =? 156 then Some [tail; tail; tail]
  else if state =? 159 then Some [(128, 143); tail; tail]
  else None.
Definition utf8_states : list Z := [0; 129; 131; 134; 139; 142; 147; 156; 159].

(** What the first byte of a character asks for. *)
Definition lead (b : Z) : option (list range) :=
  if b <? 128 then Some []
  else if b <? 194 then None
  else if b <? 224 then Some [tail]
  else if b =? 224 then Some [(160, 191); tail]
  else if b =? 237 then Some [(128, 159); tail]
  else if b <? 240 then Some [tail; tail]
  else if b =? 240 then Some [(144, 191); tail; tail]
  else if b <? 244 then Some [tail; tail; tail]
  else if b =? 244 then Some [(128, 143); tail; tail]
  else None.

Definition read_byte (st : option (list range)) (b : Z) : option (list range) :=
  match st with
  | None => None
  | Some [] => lead b
  | Some (r :: rs) => if decide (in_range r b) then Some rs else None
  end.

Lemma read_bytes_None s : fold_left read_byte s None = None.
Proof. by induction s. Qed.

(** ** The table follows the ranges *)

Definition step_follows (state b : Z) : bool :=
  match add_bytes_loop state [b] with
  | Done state' =>
      bool_decide (state' ∈ utf8_states) &&
      bool_decide (awaited state' = read_byte (awaited state) b)
  | DcheckFailed => false
  end.

Lemma table_follows :
  forallb (λ state, forallb (step_follows state) (seqZ 0 256)) utf8_states = true.
Proof. vm_compute. reflexivity. Qed.

Lemma one_byte state b :
  state ∈ utf8_states → byte_ok b →
  ∃ state', add_bytes_loop state [b] = Done state' ∧ state' ∈ utf8_states ∧
    awaited state' = read_byte (awaited state) b.
Proof.
  intros Hs Hb. pose proof table_follows as H.
  rewrite forallb_forall in H. specialize (H state (proj1 (list_elem_of_In _ _) Hs)).
  rewrite forallb_forall in H. specialize (H b). unfold step_follows in H.
  destruct (add_bytes_loop state [b]) as [state'|].
  - exists state'. split; [done|]. apply andb_true_iff in H as [?%bool_decide_eq_true ?%bool_decide_eq_true]; [done|].
    apply list_elem_of_In, elem_of_seqZ. unfold byte_ok in Hb. lia.
  - discriminate H. apply list_elem_of_In, elem_of_seqZ. unfold byte_ok in Hb. lia.
Qed.

Lemma after_error s : Forall byte_ok s →
  add_bytes_loop I18N_UTF8_VALIDATOR_INVALID_INDEX s = Done I18N_UTF8_VALIDATOR_INVALID_INDEX.
Proof.
  induction 1 as [|b s Hb _ IH]; [done|]. cbn [add_bytes_loop].
  destruct (one_byte 129 b) as (state & E & _); [by apply (bool_decide_eq_true_1 (129 ∈ utf8_states))|done|].
  cbn [add_bytes_loop] in E. destruct (Z.land b 128 =? 0); [done|].
  assert (Z.shiftr (Z.land b 127) 7 = 0) as Ez.
  { rewrite Z.shiftr_div_pow2 by done. apply Z.div_small.
    change 127 with (Z.ones 7). rewrite Z.land_ones by done. apply Z.mod_pos_bound. done. }
  change (StateTableLookup I18N_UTF8_VALIDATOR_INVALID_INDEX) with (Done 7).
  rewrite Done_bind, Ez. exact IH.
Qed.

Lemma awaited_None state : state ∈ utf8_states → awaited state = None →
  state = I18N_UTF8_VALIDATOR_INVALID_INDEX.
Proof. unfold utf8_states. intros Hs. repeat (apply elem_of_cons in Hs as [->|Hs]; [done|]). by apply elem_of_nil in Hs. Qed.

(** The loop runs the ranges, and stays inside the table. *)
Lemma add_bytes_loop_reads s : ∀ state,
  state ∈ utf8_states → Forall byte_ok s →
  ∃ state', add_bytes_loop state s = Done state' ∧ state' ∈ utf8_states ∧
    awaited state' = fold_left read_byte s (awaited state).
Proof.
  induction s as [|b s IH]; intros state Hs Hb; [by exists state|].
  apply Forall_cons_1 in Hb as [Hb Hbs]. destruct (one_byte state b Hs Hb) as (q & E & Hq & Ea).
  cbn [fold_left]. rewrite <- Ea. destruct (IH q Hq Hbs) as (q' & E' & Hq' & Ea').
  exists q'. split; [|done]. rewrite <- E'. cbn [add_bytes_loop] in E |- *.
  destruct (Z.land b 128 =? 0).
  - destruct (state =? 0); injection E as <-; [done|]. by rewrite after_error.
  - destruct (StateTableLookup state) as [shift|]; [|done]. rewrite Done_bind in E |- *.
    destruct (StateTableLookup _) as [q1|]; [|done]. rewrite Done_bind in E |- *.
    by injection E as <-.
Qed.

(** ** The ranges are the characters *)

Definition completes (rs : list range) (bs : list Z) : Prop := Forall2 in_range rs bs.

(** Quotients and remainders by constants. *)
Ltac div_lia := Z.to_euclidean_division_equations; lia.

Ltac solve_lead :=
  eexists _, _, _; split; [reflexivity|];
  split; [unfold lead; decide_tests ltac:(div_lia); reflexivity | repeat constructor; cbn; div_lia].

Lemma utf8_char_lead c : scalar_value c →
  ∃ b bs rs, utf8_char c = b :: bs ∧ lead b = Some rs ∧ completes rs bs.
Proof.
  unfold scalar_value, utf8_char, completes. intros Hc.
  destruct (Z.ltb_spec c 128).
  { exists c, [], []. split; [done|]. unfold lead. rewrite (proj2 (Z.ltb_lt c 128)) by done. split; constructor. }
  destruct (Z.ltb_spec c 2048); [|destruct (Z.ltb_spec c 65536)].
  - solve_lead.
  - assert (c / 4096 = 0 ∨ c / 4096 = 13 ∨ 1 <= c / 4096 <= 12 ∨ 14 <= c / 4096 <= 15) as [E|[E|[E|E]]] by div_lia;
      solve_lead.
  - assert (c / 262144 = 0 ∨ c / 262144 = 4 ∨ 1 <= c / 262144 <= 3) as [E|[E|E]] by div_lia; solve_lead.
Qed.

(** The characters of two, three and four bytes, from their bytes. *)
Lemma utf8_char_2 b b1 : 194 <= b <= 223 → in_range tail b1 →
  ∃ c, scalar_value c ∧ utf8_char c = [b; b1].
Proof.
  unfold in_range, scalar_value, utf8_char. cbn. intros. exists ((b - 192) * 64 + (b1 - 128)).
  split; [lia|]. decide_tests ltac:(lia). repeat f_equal; div_lia.
Qed.

Lemma utf8_char_3 b b1 b2 :
  224 <= b <= 239 → in_range tail b1 → in_range tail b2 →
  (b = 224 → 160 <= b1) → (b = 237 → b1 <= 159) →
  ∃ c, scalar_value c ∧ utf8_char c = [b; b1; b2].
Proof.
  unfold in_range, scalar_value, utf8_char. cbn. intros.
  exists ((b - 224) * 4096 + (b1 - 128) * 64 + (b2 - 128)).
  split; [lia|]. decide_tests ltac:(lia). repeat f_equal; div_lia.
Qed.

Lemma utf8_char_4 b b1 b2 b3 :
  240 <= b <= 244 → in_range tail b1 → in_range tail b2 → in_range tail b3 →
  (b = 240 → 144 <= b1) → (b = 244 → b1 <= 143) →
  ∃ c, scalar_value c ∧ utf8_char c = [b; b1; b2; b3].
Proof.
  unfold in_range, scalar_value, utf8_char. cbn. intros.
  exists ((b - 240) * 262144 + (b1 - 128) * 4096 + (b2 - 128) * 64 + (b3 - 128)).
  split; [lia|]. decide_tests ltac:(lia). repeat f_equal; div_lia.
Qed.

Ltac inv_completes :=
  repeat match goal with
  | H : completes _ _ |- _ => unfold completes in H
  | H : Forall2 _ [] _ |- _ => apply Forall2_nil_inv_l in H as ->
  | H : Forall2 _ (_ :: _) _ |- _ => apply Forall2_cons_inv_l in H as (? & ? & ? & ? & ->)
  end.

Lemma lead_utf8_char b rs bs : byte_ok b → lead b = Some rs → completes rs bs →
  ∃ c, scalar_value c ∧ utf8_char c = b :: bs.
Proof.
  unfold byte_ok, lead. intros Hb Hl Hc.
  repeat match goal with
  | H : context [if ?t then _ else _] |- _ => destruct t eqn:?
  end; prop_bools; simplify_eq; inv_completes; unfold in_range in *; cbn in *.
  { exists b. unfold scalar_value, utf8_char. decide_tests ltac:(lia). split; [lia|done]. }
  all: first [apply utf8_char_2 | apply utf8_char_3 | apply utf8_char_4]; unfold in_range; cbn; lia.
Qed.

Lemma utf8_nil : utf8 [].
Proof. by exists []. Qed.

Lemma utf8_cons b s : byte_ok b →
  utf8 (b :: s) ↔ ∃ rs bs s', lead b = Some rs ∧ s = bs ++ s' ∧ completes rs bs ∧ utf8 s'.
Proof.
  intros Hb. split.
  - intros (cs & Hcs & E). destruct cs as [|c cs]; [done|]. apply Forall_cons_1 in Hcs as [Hc Hcs].
    destruct (utf8_char_lead c Hc) as (b' & bs & rs & Ec & El & Hr). cbn [map concat] in E.
    rewrite Ec in E. injection E as -> ->. exists rs, bs, (concat (map utf8_char cs)).
    repeat (split; [done|]). by exists cs.
  - intros (rs & bs & s' & El & -> & Hr & cs & Hcs & ->).
    destruct (lead_utf8_char b rs bs Hb El Hr) as (c & Hc & E).
    exists (c :: cs). split; [by constructor|]. cbn. by rewrite E.
Qed.

(** ** What the validator has read *)

(** [s] goes on with the bytes [rs] asks for, then with whole characters. *)
Definition goes_on (rs : list range) (s : list Z) : Prop :=
  ∃ bs s', s = bs ++ s' ∧ completes rs bs ∧ utf8 s'.

Lemma goes_on_nil s : goes_on [] s ↔ utf8 s.
Proof.
  split; [|intros H; exists [], s; by repeat (split; [constructor|])].
  intros (bs & s' & -> & H & Hs). by inv_completes.
Qed.

Lemma goes_on_cons r rs b s : goes_on (r :: rs) (b :: s) ↔ in_range r b ∧ goes_on rs s.
Proof.
  split.
  - intros (bs & s' & E & H & Hs). inv_completes. injection E as -> ->. split; [done|]. by eexists _, _.
  - intros [Hr (bs & s' & -> & H & Hs)]. exists (b :: bs), s'. split; [done|]. split; [by constructor|done].
Qed.

Lemma goes_on_empty r rs : ¬ goes_on (r :: rs) [].
Proof. intros (bs & s' & E & H & _). inv_completes. discriminate. Qed.

(** [fold_left read_byte] decides it. *)
Lemma reads_goes_on s : ∀ rs, Forall byte_ok s →
  goes_on rs s ↔ fold_left read_byte s (Some rs) = Some [].
Proof.
  induction s as [|b s IH]; intros rs Hs.
  - destruct rs as [|r rs]; cbn.
    + rewrite goes_on_nil. split; [done|]. intros _. apply utf8_nil.
    + split; [by intros H%goes_on_empty | done].
  - apply Forall_cons_1 in Hs as [Hb Hs]. cbn [fold_left]. destruct rs as [|r rs]; cbn [read_byte].
    + rewrite goes_on_nil, utf8_cons by done. destruct (lead b) as [rs|].
      * rewrite <- IH by done. split.
        -- intros (rs' & bs & s' & [= <-] & E & H1 & H2). by exists bs, s'.
        -- intros (bs & s' & E & H1 & H2). by exists rs, bs, s'.
      * rewrite read_bytes_None. naive_solver.
    + rewrite goes_on_cons. case_decide as Hr; [rewrite <- IH by done; naive_solver|].
      rewrite read_bytes_None. naive_solver.
Qed.

Definition range_ok (r : range) : Prop := 0 <= r.1 <= r.2 ∧ r.2 < 256.

Lemma awaited_ranges_ok state : from_option (Forall range_ok) True (awaited state).
Proof.
  unfold awaited. repeat case_match; repeat constructor; done.
Qed.

(** The bytes that are awaited can come. *)
Lemma completion rs : Forall range_ok rs → ∃ bs, Forall byte_ok bs ∧ completes rs bs.
Proof.
  induction 1 as [|r rs [Hr Hr'] _ (bs & Hb & Hc)]; [by exists []; repeat constructor|].
  exists (r.1 :: bs). split; constructor; [unfold byte_ok; lia|done|unfold in_range; lia|done].
Qed.

Definition result_of (state : Z) : Utf8State :=
  if state =? 0 then VALID_ENDPOINT
  else if state =? I18N_UTF8_VALIDATOR_INVALID_INDEX then INVALID else VALID_MIDPOINT.

(** The validator has read [s]. *)
Definition has_read (s : list Z) (v : StreamingUtf8Validator) : Prop :=
  Forall byte_ok s ∧ utf8_state_ v ∈ utf8_states ∧
  awaited (utf8_state_ v) = fold_left read_byte s (Some []).

Lemma has_read_nil : has_read [] init_StreamingUtf8Validator.
Proof. split; [constructor|]. split; [|done]. by apply (bool_decide_eq_true_1 (0 ∈ utf8_states)). Qed.

Lemma AddBytes_has_read s data v : has_read s v → Forall byte_ok data →
  ∃ v', AddBytes data v = Done (result_of (utf8_state_ v'), v') ∧ has_read (s ++ data) v'.
Proof.
  intros (Hs & Hv & Ha) Hd. destruct (add_bytes_loop_reads data _ Hv Hd) as (q & E & Hq & Ea).
  exists {| utf8_state_ := q |}. unfold AddBytes. rewrite E. split; [done|].
  split; [by apply Forall_app_2|]. split; [done|]. cbn. by rewrite fold_left_app, Ea, Ha.
Qed.

Lemma AddPieces_has_read pieces : ∀ s v, has_read s v → Forall (Forall byte_ok) pieces →
  ∃ v', AddPieces pieces v = Done v' ∧ has_read (s ++ concat pieces) v'.
Proof.
  induction pieces as [|piece pieces IH]; intros s v Hv Hp; cbn [AddPieces concat].
  { exists v. by rewrite app_nil_r. }
  apply Forall_cons_1 in Hp as [Hp Hps]. destruct (AddBytes_has_read s piece v Hv Hp) as (v1 & E & Hv1).
  rewrite E. destruct (IH _ v1 Hv1 Hps) as (v' & E' & Hv'). exists v'. split; [done|]. by rewrite app_assoc.
Qed.

Lemma awaited_nil state : state ∈ utf8_states → awaited state = Some [] → state = 0.
Proof.
  unfold utf8_states. intros Hs.
  repeat (apply elem_of_cons in Hs as [->|Hs]; [done|]). by apply elem_of_nil in Hs.
Qed.

Lemma result_valid s v : has_read s v → result_of (utf8_state_ v) = VALID_ENDPOINT ↔ utf8 s.
Proof.
  intros (Hs & Hv & Ha). rewrite <- goes_on_nil, reads_goes_on, <- Ha by done. unfold result_of. split.
  - destruct (Z.eqb_spec (utf8_state_ v) 0) as [->|]; [done|by case_match].
  - intros E%awaited_nil; [|done]. by rewrite E.
Qed.

Lemma result_invalid s v : has_read s v → result_of (utf8_state_ v) = INVALID ↔ ¬ utf8_prefix s.
Proof.
  intros (Hs & Hv & Ha). transitivity (awaited (utf8_state_ v) = None).
  - unfold result_of. split.
    + destruct (Z.eqb_spec (utf8_state_ v) 0); [done|].
      by destruct (Z.eqb_spec (utf8_state_ v) I18N_UTF8_VALIDATOR_INVALID_INDEX) as [->|].
    + intros E%awaited_None; [|done]. by rewrite E.
  - pose proof (awaited_ranges_ok (utf8_state_ v)) as Hr. rewrite Ha in Hr |- *. split.
    + intros E (t & Ht & Hu). apply goes_on_nil, reads_goes_on in Hu; [|by apply Forall_app_2].
      rewrite fold_left_app, E, read_bytes_None in Hu. done.
    + intros Hn. destruct (fold_left read_byte s (Some [])) as [rs|] eqn:E; [|done]. destruct Hn.
      destruct (completion rs Hr) as (bs & Hb & Hc). exists bs. split; [done|].
      apply goes_on_nil, reads_goes_on; [by apply Forall_app_2|]. rewrite fold_left_app, E.
      apply reads_goes_on; [done|]. exists bs, []. rewrite app_nil_r. repeat split; [done|apply utf8_nil].
Qed.

(** [C25] The validator is UTF-8: however the bytes are cut into calls of [AddBytes], no
    lookup leaves the table, and the last call returns [VALID_ENDPOINT] exactly when all bytes
    so far are a sequence of encoded characters, [INVALID] exactly when nothing that could
    follow would make them one, and [VALID_MIDPOINT] in between. *)
Theorem AddBytes_validates pieces data :
  Forall (Forall byte_ok) pieces → Forall byte_ok data →
  ∃ v result v', AddPieces pieces init_StreamingUtf8Validator = Done v ∧
    AddBytes data v = Done (result, v') ∧
    (result = VALID_ENDPOINT ↔ utf8 (concat pieces ++ data)) ∧
    (result = INVALID ↔ ¬ utf8_prefix (concat pieces ++ data)).
Proof.
  intros Hp Hd. destruct (AddPieces_has_read pieces [] _ has_read_nil Hp) as (v & E & Hv).
  destruct (AddBytes_has_read _ data v Hv Hd) as (v' & E' & Hv').
  exists v, (result_of (utf8_state_ v')), v'. split; [done|]. split; [done|].
  split; [by apply result_valid | by apply result_invalid].
Qed.

Lemma Validate_spec s : Forall byte_ok s → ∃ b, Validate s = Done b ∧ (b = true ↔ utf8 s).
Proof.
  intros Hs. destruct (AddBytes_has_read [] s _ has_read_nil Hs) as (v & E & Hv). unfold Validate.
  rewrite E. eexists. split; [reflexivity|]. rewrite bool_decide_eq_true. by apply result_valid.
Qed.

(** The euro sign in two pieces, and a surrogate. *)
Lemma AddBytes_validates_witness :
  (AddPieces [[226]; [130]] init_StreamingUtf8Validator = Done {| utf8_state_ := 131 |} ∧
   AddBytes [172; 33] {| utf8_state_ := 131 |} = Done (VALID_ENDPOINT, {| utf8_state_ := 0 |}) ∧
   utf8 [226; 130; 172; 33]) ∧
  AddBytes [237; 160] init_StreamingUtf8Validator = Done (INVALID, {| utf8_state_ := 129 |}).
Proof.
  split; [|reflexivity].
  destruct (AddBytes_validates [[226]; [130]] [172; 33]) as (v & r & v' & E & E' & [H _] & _).
  - repeat constructor; done.
  - repeat constructor; done.
  - assert (v = {| utf8_state_ := 131 |}) as -> by (vm_compute in E; congruence).
    split; [done|]. rewrite E'. vm_compute in E'. injection E' as <- <-. split; [done|]. by apply H.
Defined.
