(* ===== verification/WebSocketChannelState.v ===== *)
(** * net/websockets/websocket_channel.{h,cc}: the state of a channel and its surroundings

    [WebSocketChannel] is an object between a [WebSocketStream], which reads and writes
    frames, and a [WebSocketEventInterface], which takes its events to the renderer; either
    may answer at once or later, and any event may delete the channel.  A method is a
    function on a [World]: the channel, what the surroundings will answer during the call,
    and a log of the calls the channel made.  To touch a deleted channel is undefined. *)

From Stdlib Require Import String.
From S2P Require Import Prelude WebSocketFrame WebSocketFrameParser WebSocketBasicStream Utf8Validator.

(** ** The data of the channel *)

Definition kDefaultSendQuotaLowWaterMark : Z := Z.shiftl 1 16.
Definition kDefaultSendQuotaHighWaterMark : Z := Z.shiftl 1 17.
Definition kWebSocketCloseCodeLength : Z := 2.
Definition kMaximumCloseReasonLength : Z := 125 - kWebSocketCloseCodeLength.
Definition INT_MAX : Z := 2147483647.

(** [base::TimeDelta], in seconds. *)
Definition TimeDelta : Type := Z.
Definition kClosingHandshakeTimeoutSeconds : TimeDelta := 60.
Definition kUnderlyingConnectionCloseTimeoutSeconds : TimeDelta := 2.

(** websocket_event_interface.h. *)
Inductive ChannelState : Type := CHANNEL_ALIVE | CHANNEL_DELETED.
#[export] Instance ChannelState_eq_dec : EqDecision ChannelState.
Proof. solve_decision. Defined.

Inductive State : Type :=
  | FRESHLY_CONSTRUCTED
  | CONNECTING
  | CONNECTED
  | SEND_CLOSED
  | RECV_CLOSED
  | CLOSE_WAIT
  | CLOSED.
#[export] Instance State_eq_dec : EqDecision State.
Proof. solve_decision. Defined.

Record SendBuffer : Type := mkSendBuffer {
  frames_ : list WebSocketFrame;
  total_bytes_ : Z
}.
#[export] Instance eta_SendBuffer : Eta SendBuffer := λ b, mkSendBuffer (frames_ b) (total_bytes_ b).
Definition init_SendBuffer : SendBuffer := {| frames_ := []; total_bytes_ := 0 |}.
Definition AddFrame (frame : WebSocketFrame) (b : SendBuffer) : SendBuffer :=
  b <| total_bytes_ := u64 (total_bytes_ b + payload_length (frame_header frame)) |>
    <| frames_ := frames_ b ++ [frame] |>.

(** [pending_data_] is [None] for a null buffer. *)
Record PendingReceivedFrame : Type := mkPendingReceivedFrame {
  final_ : bool;
  opcode_ : OpCode;
  pending_data_ : option (list Z);
  offset_ : Z;
  size_ : Z
}.
#[export] Instance eta_PendingReceivedFrame : Eta PendingReceivedFrame := λ f,
  mkPendingReceivedFrame (final_ f) (opcode_ f) (pending_data_ f) (offset_ f) (size_ f).

Definition ResetOpcode (f : PendingReceivedFrame) : outcome PendingReceivedFrame :=
  DCHECK (IsKnownDataOpCode (opcode_ f)) ;;
  Done (f <| opcode_ := kOpCodeContinuation |>).

Definition DidConsume (bytes : Z) (f : PendingReceivedFrame) : outcome PendingReceivedFrame :=
  DCHECK (offset_ f <=? size_ f) ;;
  DCHECK (bytes <=? u64 (size_ f - offset_ f)) ;;
  Done (f <| offset_ := u64 (offset_ f + bytes) |>).

(** The infos of the opening handshake are passed on unread: an info is the pointer to it. *)
Definition HandshakeInfo : Type := Z.

Record HandshakeNotificationSender : Type := mkHandshakeNotificationSender {
  handshake_request_info_ : option HandshakeInfo;
  handshake_response_info_ : option HandshakeInfo
}.
#[export] Instance eta_HandshakeNotificationSender : Eta HandshakeNotificationSender := λ n,
  mkHandshakeNotificationSender (handshake_request_info_ n) (handshake_response_info_ n).

(** What a channel asks of a stream beside its frames. *)
Record WebSocketStream : Type := mkWebSocketStream {
  GetSubProtocol : list Z;
  GetExtensions : list Z
}.

(** [GURL]: its text and its scheme. *)
Record GURL : Type := mkGURL { spec : list Z; scheme : list Z }.
Definition SchemeIsWSOrWSS (url : GURL) : bool :=
  bool_decide (scheme url = chars "ws") || bool_decide (scheme url = chars "wss").

(** [stream_request_] tells whether the pointer is set, and [close_timer_] is the delay of
    the timer while it runs.  The context of the requests and [established_on_], which only
    feeds a histogram, are left out. *)
Record WebSocketChannel : Type := mkWebSocketChannel {
  socket_url_ : option GURL;
  stream_ : option WebSocketStream;
  data_being_sent_ : option SendBuffer;
  data_to_send_next_ : option SendBuffer;
  read_frames_ : list WebSocketFrame;
  pending_received_frames_ : list PendingReceivedFrame;
  stream_request_ : bool;
  send_quota_low_water_mark_ : Z;
  send_quota_high_water_mark_ : Z;
  current_send_quota_ : Z;
  current_receive_quota_ : Z;
  close_timer_ : option TimeDelta;
  closing_handshake_timeout_ : TimeDelta;
  underlying_connection_close_timeout_ : TimeDelta;
  has_received_close_frame_ : bool;
  received_close_code_ : Z;
  received_close_reason_ : list Z;
  state_ : State;
  notification_sender_ : HandshakeNotificationSender;
  outgoing_utf8_validator_ : StreamingUtf8Validator;
  sending_text_message_ : bool;
  incoming_utf8_validator_ : StreamingUtf8Validator;
  receiving_text_message_ : bool;
  expecting_to_handle_continuation_ : bool;
  initial_frame_forwarded_ : bool
}.
#[export] Instance eta_WebSocketChannel : Eta WebSocketChannel := λ c,
  mkWebSocketChannel (socket_url_ c) (stream_ c) (data_being_sent_ c) (data_to_send_next_ c)
    (read_frames_ c) (pending_received_frames_ c) (stream_request_ c)
    (send_quota_low_water_mark_ c) (send_quota_high_water_mark_ c) (current_send_quota_ c)
    (current_receive_quota_ c) (close_timer_ c) (closing_handshake_timeout_ c)
    (underlying_connection_close_timeout_ c) (has_received_close_frame_ c)
    (received_close_code_ c) (received_close_reason_ c) (state_ c) (notification_sender_ c)
    (outgoing_utf8_validator_ c) (sending_text_message_ c) (incoming_utf8_validator_ c)
    (receiving_text_message_ c) (expecting_to_handle_continuation_ c) (initial_frame_forwarded_ c).

(** The constructor. *)
Definition init_WebSocketChannel : WebSocketChannel := {|
  socket_url_ := None;
  stream_ := None;
  data_being_sent_ := None;
  data_to_send_next_ := None;
  read_frames_ := [];
  pending_received_frames_ := [];
  stream_request_ := false;
  send_quota_low_water_mark_ := kDefaultSendQuotaLowWaterMark;
  send_quota_high_water_mark_ := kDefaultSendQuotaHighWaterMark;
  current_send_quota_ := 0;
  current_receive_quota_ := 0;
  close_timer_ := None;
  closing_handshake_timeout_ := kClosingHandshakeTimeoutSeconds;
  underlying_connection_close_timeout_ := kUnderlyingConnectionCloseTimeoutSeconds;
  has_received_close_frame_ := false;
  received_close_code_ := 0;
  received_close_reason_ := [];
  state_ := FRESHLY_CONSTRUCTED;
  notification_sender_ :=
    {| handshake_request_info_ := None; handshake_response_info_ := None |};
  outgoing_utf8_validator_ := init_StreamingUtf8Validator;
  sending_text_message_ := false;
  incoming_utf8_validator_ := init_StreamingUtf8Validator;
  receiving_text_message_ := false;
  expecting_to_handle_continuation_ := false;
  initial_frame_forwarded_ := false
|}.

(** ** The surroundings *)

(** What enters the channel: a method its owner calls, the end of an operation of the
    stream, the timer, or the task that sends notifications. *)
Inductive Call : Type :=
  | CallSendAddChannelRequest (url : GURL)
  | CallSendFrame (fin : bool) (op_code : OpCode) (data : list Z)
  | CallSendFlowControl (quota : Z)
  | CallStartClosingHandshake (code : Z) (reason : list Z)
  | CallOnConnectSuccess (stream : WebSocketStream)
  | CallOnConnectFailure (message : list Z)
  | CallOnSSLCertificateError (fatal : bool)
  | CallOnStartOpeningHandshake (request : HandshakeInfo)
  | CallOnFinishOpeningHandshake (response : HandshakeInfo)
  | CallSendNotifications
  | CallOnWriteDone (result : Z)
  | CallOnReadDone (result : Z) (frames : list WebSocketFrame)
  | CallCloseTimeout.

(** What the log has: the calls that enter, those of the channel to its stream, with the
    frames that a read at once gave, and the events. *)
Inductive Action : Type :=
  | Called (c : Call)
  | StreamWriteFrames (frames : list WebSocketFrame)
  | StreamReadFrames (result : Z) (frames : list WebSocketFrame)
  | StreamClose
  | OnAddChannelResponse (selected_subprotocol extensions : list Z)
  | OnDataFrame (fin : bool) (type : OpCode) (data : list Z)
  | OnFlowControl (quota : Z)
  | OnClosingHandshake
  | OnDropChannel (was_clean : bool) (code : Z) (reason : list Z)
  | OnFailChannel (message : list Z)
  | OnStartOpeningHandshake (request : HandshakeInfo)
  | OnFinishOpeningHandshake (response : HandshakeInfo)
  | OnSSLCertificateError (url : option GURL) (fatal : bool).

(** [log] has the newest action first.  [write_results], [read_results] and
    [event_results] are the answers that come during the current call; behind them an
    operation of the stream is pending, and an event leaves the channel alive. *)
Record World : Type := mkWorld {
  channel : WebSocketChannel;
  deleted : bool;
  write_pending : bool;
  read_pending : bool;
  stream_closed : bool;
  tasks : nat;
  log : list Action;
  write_results : list Z;
  read_results : list (Z * list WebSocketFrame);
  event_results : list ChannelState
}.
#[export] Instance eta_World : Eta World := λ w,
  mkWorld (channel w) (deleted w) (write_pending w) (read_pending w) (stream_closed w)
    (tasks w) (log w) (write_results w) (read_results w) (event_results w).

Definition init_World : World := {|
  channel := init_WebSocketChannel; deleted := false; write_pending := false;
  read_pending := false; stream_closed := false; tasks := 0; log := [];
  write_results := []; read_results := []; event_results := []
|}.

(** ** Methods *)

Definition M (A : Type) : Type := World → outcome (A * World).
#[export] Instance M_ret : MRet M := λ A a w, Done (a, w).
#[export] Instance M_bind : MBind M := λ A B f m w,
  match m w with
  | Done (a, w) => f a w
  | DcheckFailed => DcheckFailed
  end.

Definition undefined {A} : M A := λ _, DcheckFailed.
Definition check (b : bool) : M unit := λ w, if b then Done (tt, w) else DcheckFailed.
Definition lift {A} (m : outcome A) : M A := λ w,
  match m with Done a => Done (a, w) | DcheckFailed => DcheckFailed end.

(** The members of the channel, which must exist. *)
Definition this : M WebSocketChannel := λ w,
  if deleted w then DcheckFailed else Done (channel w, w).
Definition update (f : WebSocketChannel → WebSocketChannel) : M unit := λ w,
  if deleted w then DcheckFailed else Done (tt, w <| channel := f (channel w) |>).

(** The destructor: it destroys the stream, whose operations end with it, and stops the
    timer. *)
Definition destroy (w : World) : World :=
  w <| channel := (channel w) <| stream_ := None |> <| close_timer_ := None |> |>
    <| deleted := true |> <| write_pending := false |> <| read_pending := false |>.

(** An event whose implementation may delete the channel. *)
Definition event (a : Action) : M ChannelState := λ w,
  if deleted w then DcheckFailed
  else
    let w := w <| log := a :: log w |> in
    match event_results w with
    | [] => Done (CHANNEL_ALIVE, w)
    | CHANNEL_ALIVE :: answers => Done (CHANNEL_ALIVE, w <| event_results := answers |>)
    | CHANNEL_DELETED :: answers =>
        Done (CHANNEL_DELETED, destroy (w <| event_results := answers |>))
    end.

(** [OnDropChannel] and [OnFailChannel], whose implementations must delete it. *)
Definition last_event (a : Action) : M ChannelState := λ w,
  if deleted w then DcheckFailed
  else Done (CHANNEL_DELETED, destroy (w <| log := a :: log w |>)).

(** [stream_->WriteFrames()]: there must be no other write, and the stream open. *)
Definition stream_WriteFrames (frames : list WebSocketFrame) : M Z := λ w,
  if deleted w || negb (bool_decide (is_Some (stream_ (channel w)))) || write_pending w
     || stream_closed w
  then DcheckFailed
  else
    let w := w <| log := StreamWriteFrames frames :: log w |> in
    match write_results w with
    | [] => Done (ERR_IO_PENDING, w <| write_pending := true |>)
    | result :: results =>
        Done (result, w <| write_results := results |>
                        <| write_pending := bool_decide (result = ERR_IO_PENDING) |>)
    end.

(** [stream_->ReadFrames(&read_frames_)]: [read_frames_] must be empty, too. *)
Definition stream_ReadFrames : M Z := λ w,
  if deleted w || negb (bool_decide (is_Some (stream_ (channel w)))) || read_pending w
     || stream_closed w || negb (bool_decide (read_frames_ (channel w) = []))
  then DcheckFailed
  else
    match read_results w with
    | [] => Done (ERR_IO_PENDING, w <| log := StreamReadFrames ERR_IO_PENDING [] :: log w |>
                                    <| read_pending := true |>)
    | (result, frames) :: results =>
        let w := w <| read_results := results |> <| log := StreamReadFrames result frames :: log w |> in
        if bool_decide (result = ERR_IO_PENDING) then Done (result, w <| read_pending := true |>)
        else Done (result, w <| channel := (channel w) <| read_frames_ := frames |> |>)
    end.

(** [stream_->Close()]: the operations that are pending are cancelled. *)
Definition stream_Close : M unit := λ w,
  if deleted w || negb (bool_decide (is_Some (stream_ (channel w)))) then DcheckFailed
  else Done (tt, w <| log := StreamClose :: log w |> <| stream_closed := true |>
                   <| write_pending := false |> <| read_pending := false |>).

(** [PostTask] of the notification. *)
Definition post_task : M unit := λ w,
  if deleted w then DcheckFailed else Done (tt, w <| tasks := S (tasks w) |>).
