(* ===== verification/WebSocketChannel.v ===== *)
(** * net/websockets/websocket_channel.cc: the methods of a channel

    The methods of [WebSocketChannel] in the order of the file.  Those that return a
    [ChannelState] may have deleted the channel; the log and the answers are those of
    WebSocketChannelState. *)

From Stdlib Require Import String.
From stdpp Require Import pretty.
From S2P Require Import Prelude WebSocketFrame WebSocketFrameParser WebSocketBasicStream Utf8Validator WebSocketChannelState.

Module Channel.

(** ** Close codes *)

(** The bounds of the ranges, of which every other one is invalid: the first is [0, 1000). *)
Definition kInvalidRanges : list Z := [0; 1000; 1006; 1007; 1014; 3000; 5000; 65536].

(** [std::upper_bound]: the index of the first element that is greater. *)
Fixpoint upper_bound (range : list Z) (value : Z) : nat :=
  match range with
  | [] => 0
  | x :: range => if value <? x then 0 else S (upper_bound range value)
  end.

Definition IsStrictlyValidCloseStatusCode (code : Z) : outcome bool :=
  DCHECK (0 <=? code) ;;
  DCHECK (code <? 65536) ;;
  let upper := upper_bound kInvalidRanges code in
  DCHECK (negb (bool_decide (upper = length kInvalidRanges))) ;;
  DCHECK (bool_decide (0 < upper)%nat) ;;
  DCHECK (match kInvalidRanges !! upper with Some b => code <? b | None => false end) ;;
  DCHECK (match kInvalidRanges !! (upper - 1)%nat with Some b => b <=? code | None => false end) ;;
  Done (bool_decide (upper mod 2 = 0)%nat).

Definition GetFrameTypeForOpcode (opcode : OpCode) : list Z :=
  if (opcode =? kOpCodeText) || (opcode =? kOpCodeBinary) || (opcode =? kOpCodeContinuation)
  then chars "Data frame"
  else if opcode =? kOpCodePing then chars "Ping"
  else if opcode =? kOpCodePong then chars "Pong"
  else if opcode =? kOpCodeClose then chars "Close"
  else chars "Unknown frame type".

(** [base::StringPrintf] of an integer. *)
Definition decimal (n : Z) : list Z := chars (pretty n).

(** ** The notifications of the opening handshake *)

Definition SendImmediately : M ChannelState :=
  c ← this;
  s ← match handshake_request_info_ (notification_sender_ c) with
      | Some request =>
          update (λ c, c <| notification_sender_ :=
                              (notification_sender_ c) <| handshake_request_info_ := None |> |>) ;;
          event (OnStartOpeningHandshake request)
      | None => mret CHANNEL_ALIVE
      end;
  if bool_decide (s = CHANNEL_DELETED) then mret CHANNEL_DELETED
  else
    c ← this;
    s ← match handshake_response_info_ (notification_sender_ c) with
        | Some response =>
            update (λ c, c <| notification_sender_ :=
                                (notification_sender_ c) <| handshake_response_info_ := None |> |>) ;;
            event (OnFinishOpeningHandshake response)
        | None => mret CHANNEL_ALIVE
        end;
    mret (if bool_decide (s = CHANNEL_DELETED) then CHANNEL_DELETED else CHANNEL_ALIVE).

(** [HandshakeNotificationSender::Send], the task; the sender lives as long as the channel. *)
Definition Send : M unit := λ w,
  if deleted w then Done (tt, w) else (SendImmediately ;; mret tt) w.

(** ** States *)

Definition SetState (new_state : State) : M unit :=
  c ← this;
  check (negb (bool_decide (state_ c = new_state))) ;;
  update (λ c, c <| state_ := new_state |>).

Definition InClosingState : M bool :=
  c ← this;
  check (negb (bool_decide (state_ c = RECV_CLOSED))) ;;
  mret (bool_decide (state_ c = SEND_CLOSED) || bool_decide (state_ c = CLOSE_WAIT) ||
        bool_decide (state_ c = CLOSED)).

Definition DoDropChannel (was_clean : bool) (code : Z) (reason : list Z) : M ChannelState :=
  s ← SendImmediately;
  if bool_decide (s = CHANNEL_DELETED) then mret CHANNEL_DELETED
  else last_event (OnDropChannel was_clean code reason).

Definition CloseTimeout : M unit :=
  stream_Close ;;
  SetState CLOSED ;;
  DoDropChannel false (error_value kWebSocketErrorAbnormalClosure) [] ;;
  mret tt.

(** [close_timer_.Start]. *)
Definition start_close_timer (delay : WebSocketChannel → TimeDelta) : M unit :=
  update (λ c, c <| close_timer_ := Some (delay c) |>).

Definition close_timer_is_running (c : WebSocketChannel) : bool :=
  bool_decide (is_Some (close_timer_ c)).

(** ** Writing *)

(** What is behind [OK] in [OnWriteDone]; [WriteFrames] is the method that is called when
    the write was not synchronous. *)
Definition next_write (WriteFrames : M ChannelState) (synchronous : bool) : M ChannelState :=
  c ← this;
  match data_to_send_next_ c with
  | Some next =>
      update (λ c, c <| data_being_sent_ := Some next |> <| data_to_send_next_ := None |>) ;;
      if negb synchronous then WriteFrames else mret CHANNEL_ALIVE
  | None =>
      update (λ c, c <| data_being_sent_ := None |>) ;;
      if current_send_quota_ c <? send_quota_low_water_mark_ c then
        check (send_quota_low_water_mark_ c <=? send_quota_high_water_mark_ c) ;;
        let fresh_quota := s32 (send_quota_high_water_mark_ c - current_send_quota_ c) in
        update (λ c, c <| current_send_quota_ := s32 (current_send_quota_ c + fresh_quota) |>) ;;
        event (OnFlowControl fresh_quota)
      else mret CHANNEL_ALIVE
  end.

Definition on_write_done (WriteFrames : M ChannelState) (synchronous : bool) (result : Z) :
    M ChannelState :=
  c ← this;
  check (negb (bool_decide (state_ c = FRESHLY_CONSTRUCTED))) ;;
  check (negb (bool_decide (state_ c = CONNECTING))) ;;
  check (negb (result =? ERR_IO_PENDING)) ;;
  check (bool_decide (is_Some (data_being_sent_ c))) ;;
  if result =? OK then next_write WriteFrames synchronous
  else
    check (result <? 0) ;;
    stream_Close ;;
    SetState CLOSED ;;
    DoDropChannel false (error_value kWebSocketErrorAbnormalClosure) [].

(** The loop; [fuel] bounds the writes that are done at once. *)
Fixpoint write_frames_loop (fuel : nat) : M ChannelState :=
  match fuel with
  | O => undefined
  | S fuel =>
      c ← this;
      match data_being_sent_ c with
      | None => undefined
      | Some buffer =>
          result ← stream_WriteFrames (frames_ buffer);
          s ← (if negb (result =? ERR_IO_PENDING) then on_write_done undefined true result
               else mret CHANNEL_ALIVE);
          if bool_decide (s = CHANNEL_DELETED) then mret CHANNEL_DELETED
          else
            c ← this;
            if (result =? OK) && bool_decide (is_Some (data_being_sent_ c))
            then write_frames_loop fuel
            else mret CHANNEL_ALIVE
      end
  end.

Definition WriteFrames : M ChannelState := λ w,
  write_frames_loop (S (length (write_results w))) w.

Definition OnWriteDone : bool → Z → M ChannelState := on_write_done WriteFrames.

Definition new_frame (fin : bool) (op_code : OpCode) (buffer : option (list Z)) (size : Z) :
    WebSocketFrame :=
  {| frame_header := (new_WebSocketFrameHeader op_code) <| final := fin |> <| masked := true |>
                       <| payload_length := size |>;
     frame_data := buffer |}.

Definition SendFrameFromIOBuffer (fin : bool) (op_code : OpCode) (buffer : option (list Z))
    (size : Z) : M ChannelState :=
  c ← this;
  check (bool_decide (state_ c = CONNECTED) || bool_decide (state_ c = RECV_CLOSED)) ;;
  check (bool_decide (is_Some (stream_ c))) ;;
  let frame := new_frame fin op_code buffer size in
  match data_being_sent_ c with
  | Some _ =>
      update (λ c, c <| data_to_send_next_ :=
                          Some (AddFrame frame (default init_SendBuffer (data_to_send_next_ c))) |>) ;;
      mret CHANNEL_ALIVE
  | None =>
      update (λ c, c <| data_being_sent_ := Some (AddFrame frame init_SendBuffer) |>) ;;
      WriteFrames
  end.

Definition SendClose (code : Z) (reason : list Z) : M ChannelState :=
  c ← this;
  check (bool_decide (state_ c = CONNECTED) || bool_decide (state_ c = RECV_CLOSED)) ;;
  check (Z.of_nat (length reason) <=? kMaximumCloseReasonLength) ;;
  body ← (if code =? error_value kWebSocketErrorNoStatusReceived then
            check (bool_decide (reason = [])) ;; mret []
          else mret (WriteBigEndian 2 code ++ reason));
  s ← SendFrameFromIOBuffer true kOpCodeClose (Some body) (Z.of_nat (length body));
  mret (if bool_decide (s = CHANNEL_DELETED) then CHANNEL_DELETED else CHANNEL_ALIVE).

Definition FailChannel (message : list Z) (code : Z) (reason : list Z) : M ChannelState :=
  c ← this;
  check (negb (bool_decide (state_ c = FRESHLY_CONSTRUCTED))) ;;
  check (negb (bool_decide (state_ c = CONNECTING))) ;;
  check (negb (bool_decide (state_ c = CLOSED))) ;;
  s ← (if bool_decide (state_ c = CONNECTED) then SendClose code reason else mret CHANNEL_ALIVE);
  if bool_decide (s = CHANNEL_DELETED) then mret CHANNEL_DELETED
  else
    stream_Close ;;
    SetState CLOSED ;;
    last_event (OnFailChannel message).

(** ** Reading *)

(** The first [size] bytes of a buffer, which must have them. *)
Definition buffer_bytes (buffer : option (list Z)) (size : Z) : outcome (list Z) :=
  match buffer with
  | Some bytes => DCHECK (size <=? Z.of_nat (length bytes)) ;; Done (take (Z.to_nat size) bytes)
  | None => DcheckFailed
  end.

(** Whether the payload is one that may be received, then [code], [reason] and [message]. *)
Definition ParseClose (buffer : option (list Z)) (size : Z) :
    outcome (bool * Z * list Z * list Z) :=
  if size <? kWebSocketCloseCodeLength then
    if size =? 0 then Done (true, error_value kWebSocketErrorNoStatusReceived, [], [])
    else Done (false, error_value kWebSocketErrorProtocolError, [],
               chars "Received a broken close frame containing an invalid size body.")
  else
    data ← buffer_bytes buffer size;
    let unchecked_code := ReadBigEndian 2 data in
    if (unchecked_code =? error_value kWebSocketErrorNoStatusReceived) ||
       (unchecked_code =? error_value kWebSocketErrorAbnormalClosure) ||
       (unchecked_code =? error_value kWebSocketErrorTlsHandshake)
    then Done (false, error_value kWebSocketErrorProtocolError, [],
               chars "Received a broken close frame containing a reserved status code.")
    else
      let text := drop (Z.to_nat kWebSocketCloseCodeLength) data in
      valid ← Validate text;
      if valid : bool then Done (true, unchecked_code, text, [])
      else Done (false, error_value kWebSocketErrorProtocolError,
                 chars "Invalid UTF-8 in Close frame",
                 chars "Received a broken close frame containing invalid UTF-8.").

(** The end of [HandleDataFrame], where the frame goes to the renderer or is queued. *)
Definition forward_data_frame (opcode_to_send : OpCode) (final : bool)
    (data_buffer : option (list Z)) (size : Z) : M ChannelState :=
  update (λ c, c <| initial_frame_forwarded_ := negb final |>) ;;
  c ← this;
  let quota := current_receive_quota_ c in
  let queue := (quota <? size) || negb (bool_decide (pending_received_frames_ c = [])) in
  let no_quota := quota =? 0 in
  (if queue then
     check (no_quota || bool_decide (pending_received_frames_ c = [])) ;;
     let opcode_to_queue := if no_quota then opcode_to_send else kOpCodeContinuation in
     update (λ c, c <| pending_received_frames_ :=
       pending_received_frames_ c ++
         [{| final_ := final; opcode_ := opcode_to_queue; pending_data_ := data_buffer;
             offset_ := quota; size_ := size |}] |>)
   else mret tt) ;;
  if queue && no_quota then mret CHANNEL_ALIVE
  else
    let size := if queue then quota else size in
    let final := if queue then false else final in
    data ← (if size =? 0 then mret [] else lift (buffer_bytes data_buffer size));
    update (λ c, c <| current_receive_quota_ := u64 (current_receive_quota_ c - size) |>) ;;
    event (OnDataFrame final opcode_to_send data).

Definition HandleDataFrame (opcode : OpCode) (final : bool) (data_buffer : option (list Z))
    (size : Z) : M ChannelState :=
  c ← this;
  if negb (bool_decide (state_ c = CONNECTED)) then mret CHANNEL_ALIVE
  else
    check ((opcode =? kOpCodeContinuation) || (opcode =? kOpCodeText) || (opcode =? kOpCodeBinary)) ;;
    let got_continuation := opcode =? kOpCodeContinuation in
    if negb (Bool.eqb got_continuation (expecting_to_handle_continuation_ c)) then
      FailChannel
        (if got_continuation then chars "Received unexpected continuation frame."
         else chars "Received start of new message but previous message is unfinished.")
        (error_value kWebSocketErrorProtocolError)
        (if got_continuation then chars "Unexpected continuation"
         else chars "Previous data frame unfinished")
    else
      update (λ c, c <| expecting_to_handle_continuation_ := negb final |>) ;;
      let opcode_to_send :=
        if negb (initial_frame_forwarded_ c) && (opcode =? kOpCodeContinuation)
        then if receiving_text_message_ c then kOpCodeText else kOpCodeBinary
        else opcode in
      state ← (if (opcode =? kOpCodeText) || ((opcode =? kOpCodeContinuation) && receiving_text_message_ c) then
                 data ← (if size =? 0 then mret [] else lift (buffer_bytes data_buffer size));
                 r ← lift (AddBytes data (incoming_utf8_validator_ c));
                 update (λ c, c <| incoming_utf8_validator_ := r.2 |>) ;;
                 mret (Some r.1)
               else mret None);
      if bool_decide (state = Some INVALID) || (bool_decide (state = Some VALID_MIDPOINT) && final) then
        FailChannel (chars "Could not decode a text frame as UTF-8.")
          (error_value kWebSocketErrorProtocolError) (chars "Invalid UTF-8 in text frame")
      else
        (if bool_decide (is_Some state) then
           update (λ c, c <| receiving_text_message_ := negb final |>) ;;
           check (negb final || bool_decide (state = Some VALID_ENDPOINT))
         else mret tt) ;;
        if (size =? 0) && negb final then mret CHANNEL_ALIVE
        else forward_data_frame opcode_to_send final data_buffer size.

(** What a Close frame does in the state the channel is in. *)
Definition receive_close (code : Z) (reason : list Z) : M ChannelState :=
  c ← this;
  let received :=
    update (λ c, c <| has_received_close_frame_ := true |> <| received_close_code_ := code |>
                   <| received_close_reason_ := reason |>) in
  match state_ c with
  | CONNECTED =>
      SetState RECV_CLOSED ;;
      s ← SendClose code reason;
      if bool_decide (s = CHANNEL_DELETED) then mret CHANNEL_DELETED
      else
        c ← this;
        check (bool_decide (state_ c = RECV_CLOSED)) ;;
        SetState CLOSE_WAIT ;;
        check (negb (close_timer_is_running c)) ;;
        start_close_timer underlying_connection_close_timeout_ ;;
        s ← event OnClosingHandshake;
        if bool_decide (s = CHANNEL_DELETED) then mret CHANNEL_DELETED
        else received ;; mret CHANNEL_ALIVE
  | SEND_CLOSED =>
      SetState CLOSE_WAIT ;;
      check (close_timer_is_running c) ;;
      update (λ c, c <| close_timer_ := None |>) ;;
      start_close_timer underlying_connection_close_timeout_ ;;
      received ;; mret CHANNEL_ALIVE
  | _ => undefined
  end.

Definition HandleFrameByState (opcode : OpCode) (final : bool) (data_buffer : option (list Z))
    (size : Z) : M ChannelState :=
  c ← this;
  check (negb (bool_decide (state_ c = RECV_CLOSED))) ;;
  check (negb (bool_decide (state_ c = CLOSED))) ;;
  if bool_decide (state_ c = CLOSE_WAIT) then
    FailChannel (GetFrameTypeForOpcode opcode ++ chars " received after close")
      (error_value kWebSocketErrorProtocolError) []
  else if IsKnownDataOpCode opcode then HandleDataFrame opcode final data_buffer size
  else if opcode =? kOpCodePing then
    if bool_decide (state_ c = CONNECTED)
    then SendFrameFromIOBuffer true kOpCodePong data_buffer size
    else mret CHANNEL_ALIVE
  else if opcode =? kOpCodePong then mret CHANNEL_ALIVE
  else if opcode =? kOpCodeClose then
    r ← lift (ParseClose data_buffer size);
    let '(parsed, code, reason, message) := r : bool * Z * list Z * list Z in
    if negb parsed then FailChannel message code reason else receive_close code reason
  else
    FailChannel (chars "Unrecognized frame opcode: " ++ decimal opcode)
      (error_value kWebSocketErrorProtocolError) (chars "Unknown opcode").

Definition HandleFrame (frame : WebSocketFrame) : M ChannelState :=
  let h := frame_header frame in
  if masked h then
    FailChannel (chars "A server must not mask any frames that it sends to the client.")
      (error_value kWebSocketErrorProtocolError) (chars "Masked frame from server")
  else
    check (negb (IsKnownControlOpCode (opcode h)) || final h) ;;
    if reserved1 h || reserved2 h || reserved3 h then
      FailChannel
        (chars "One or more reserved bits are on: reserved1 = " ++ decimal (Z.b2z (reserved1 h)) ++
         chars ", reserved2 = " ++ decimal (Z.b2z (reserved2 h)) ++
         chars ", reserved3 = " ++ decimal (Z.b2z (reserved3 h)))
        (error_value kWebSocketErrorProtocolError) (chars "Invalid reserved bit")
    else HandleFrameByState (opcode h) (final h) (frame_data frame) (payload_length h).

(** The loop over the frames of a read. *)
Fixpoint handle_frames (frames : list WebSocketFrame) : M ChannelState :=
  match frames with
  | [] => mret CHANNEL_ALIVE
  | frame :: frames =>
      s ← HandleFrame frame;
      if bool_decide (s = CHANNEL_DELETED) then mret CHANNEL_DELETED else handle_frames frames
  end.

Definition on_read_done (ReadFrames : M ChannelState) (synchronous : bool) (result : Z) :
    M ChannelState :=
  c ← this;
  check (negb (bool_decide (state_ c = FRESHLY_CONSTRUCTED))) ;;
  check (negb (bool_decide (state_ c = CONNECTING))) ;;
  check (negb (result =? ERR_IO_PENDING)) ;;
  if result =? OK then
    check (negb (bool_decide (read_frames_ c = []))) ;;
    s ← handle_frames (read_frames_ c);
    if bool_decide (s = CHANNEL_DELETED) then mret CHANNEL_DELETED
    else
      update (λ c, c <| read_frames_ := [] |>) ;;
      c ← this;
      check (negb (bool_decide (state_ c = CLOSED))) ;;
      if negb synchronous then ReadFrames else mret CHANNEL_ALIVE
  else if result =? ERR_WS_PROTOCOL_ERROR then
    FailChannel (chars "Invalid frame header") (error_value kWebSocketErrorProtocolError)
      (chars "WebSocket Protocol Error")
  else
    check (result <? 0) ;;
    stream_Close ;;
    SetState CLOSED ;;
    c ← this;
    if has_received_close_frame_ c
    then DoDropChannel (result =? ERR_CONNECTION_CLOSED) (received_close_code_ c) (received_close_reason_ c)
    else DoDropChannel false (error_value kWebSocketErrorAbnormalClosure) [].

(** The loop; [fuel] bounds the reads that are done at once. *)
Fixpoint read_frames_loop (fuel : nat) (result : Z) : M ChannelState :=
  match fuel with
  | O => undefined
  | S fuel =>
      c ← this;
      if (result =? OK) && (0 <? current_receive_quota_ c) then
        result ← stream_ReadFrames;
        s ← (if negb (result =? ERR_IO_PENDING) then on_read_done undefined true result
             else mret CHANNEL_ALIVE);
        if bool_decide (s = CHANNEL_DELETED) then mret CHANNEL_DELETED
        else
          c ← this;
          check (negb (bool_decide (state_ c = CLOSED))) ;;
          read_frames_loop fuel result
      else mret CHANNEL_ALIVE
  end.

Definition ReadFrames : M ChannelState := λ w,
  read_frames_loop (S (S (length (read_results w)))) OK w.

Definition OnReadDone : bool → Z → M ChannelState := on_read_done ReadFrames.

(** ** The opening handshake *)

(** [creator.Run] starts the request; what it reports comes later. *)
Definition SendAddChannelRequest (socket_url : GURL) : M unit :=
  c ← this;
  check (bool_decide (state_ c = FRESHLY_CONSTRUCTED)) ;;
  if negb (SchemeIsWSOrWSS socket_url) then
    last_event (OnFailChannel (chars "Invalid scheme")) ;; mret tt
  else
    update (λ c, c <| socket_url_ := Some socket_url |>) ;;
    update (λ c, c <| stream_request_ := true |>) ;;
    SetState CONNECTING.

Definition OnConnectSuccess (stream : WebSocketStream) : M unit :=
  c ← this;
  check (bool_decide (state_ c = CONNECTING)) ;;
  update (λ c, c <| stream_ := Some stream |>) ;;
  SetState CONNECTED ;;
  s ← event (OnAddChannelResponse (GetSubProtocol stream) (GetExtensions stream));
  if bool_decide (s = CHANNEL_DELETED) then mret tt
  else
    update (λ c, c <| current_send_quota_ := send_quota_high_water_mark_ c |>) ;;
    c ← this;
    s ← event (OnFlowControl (send_quota_high_water_mark_ c));
    if bool_decide (s = CHANNEL_DELETED) then mret tt
    else
      update (λ c, c <| stream_request_ := false |>) ;;
      ReadFrames ;;
      mret tt.

Definition OnConnectFailure (message : list Z) : M unit :=
  c ← this;
  check (bool_decide (state_ c = CONNECTING)) ;;
  SetState CLOSED ;;
  update (λ c, c <| stream_request_ := false |>) ;;
  s ← SendImmediately;
  if bool_decide (s = CHANNEL_DELETED) then mret tt
  else last_event (OnFailChannel message) ;; mret tt.

Definition OnSSLCertificateError (fatal : bool) : M unit :=
  c ← this;
  event (WebSocketChannelState.OnSSLCertificateError (socket_url_ c) fatal) ;;
  mret tt.

Definition OnStartOpeningHandshake (request : HandshakeInfo) : M unit :=
  c ← this;
  check (bool_decide (handshake_request_info_ (notification_sender_ c) = None)) ;;
  update (λ c, c <| notification_sender_ :=
                      (notification_sender_ c) <| handshake_request_info_ := Some request |> |>) ;;
  post_task.

Definition OnFinishOpeningHandshake (response : HandshakeInfo) : M unit :=
  c ← this;
  check (bool_decide (handshake_response_info_ (notification_sender_ c) = None)) ;;
  update (λ c, c <| notification_sender_ :=
                      (notification_sender_ c) <| handshake_response_info_ := Some response |> |>) ;;
  post_task.

(** ** The methods of the owner *)

Definition SendFrame (fin : bool) (op_code : OpCode) (data : list Z) : M unit :=
  if INT_MAX <? Z.of_nat (length data) then undefined
  else
    c ← this;
    if negb (bool_decide (is_Some (stream_ c))) then undefined
    else
      closing ← InClosingState;
      if closing : bool then mret tt
      else if negb (bool_decide (state_ c = CONNECTED)) then undefined
      else
        check (0 <=? current_send_quota_ c) ;;
        if current_send_quota_ c <? Z.of_nat (length data) then
          FailChannel (chars "Send quota exceeded") (error_value kWebSocketErrorGoingAway) [] ;; mret tt
        else if negb (IsKnownDataOpCode op_code) then undefined
        else
          state ← (if (op_code =? kOpCodeText) || ((op_code =? kOpCodeContinuation) && sending_text_message_ c) then
                     r ← lift (AddBytes data (outgoing_utf8_validator_ c));
                     update (λ c, c <| outgoing_utf8_validator_ := r.2 |>) ;;
                     mret (Some r.1)
                   else mret None);
          if bool_decide (state = Some INVALID) || (bool_decide (state = Some VALID_MIDPOINT) && fin) then
            FailChannel (chars "Browser sent a text frame containing invalid UTF-8")
              (error_value kWebSocketErrorGoingAway) [] ;; mret tt
          else
            (if bool_decide (is_Some state) then
               update (λ c, c <| sending_text_message_ := negb fin |>) ;;
               check (negb fin || bool_decide (state = Some VALID_ENDPOINT))
             else mret tt) ;;
            update (λ c, c <| current_send_quota_ := s32 (current_send_quota_ c - Z.of_nat (length data)) |>) ;;
            SendFrameFromIOBuffer fin op_code (Some data) (Z.of_nat (length data)) ;;
            mret tt.

(** The loop of [SendFlowControl] over the frames that wait; the result is the quota that
    is left, or nothing when the function returns inside it. *)
Fixpoint forward_pending (fuel : nat) (quota : Z) : M (option Z) :=
  match fuel with
  | O => undefined
  | S fuel =>
      c ← this;
      match pending_received_frames_ c with
      | [] => mret (Some quota)
      | front :: rest =>
          if negb (0 <? quota) then mret (Some quota)
          else
            let data_size := u64 (size_ front - offset_ front) in
            let bytes_to_send := Z.min quota data_size in
            let final := final_ front && (data_size =? bytes_to_send) in
            data ← (if bytes_to_send =? 0 then mret []
                    else lift (bytes ← buffer_bytes (pending_data_ front) (offset_ front + bytes_to_send);
                               Done (drop (Z.to_nat (offset_ front)) bytes)));
            s ← event (OnDataFrame final (opcode_ front) data);
            if bool_decide (s = CHANNEL_DELETED) then mret None
            else if bytes_to_send <? data_size then
              front ← lift (DidConsume bytes_to_send front);
              front ← lift (ResetOpcode front);
              update (λ c, c <| pending_received_frames_ := front :: rest |>) ;;
              mret None
            else
              update (λ c, c <| pending_received_frames_ := rest |>) ;;
              forward_pending fuel (quota - bytes_to_send)
      end
  end.

Definition SendFlowControl (quota : Z) : M unit :=
  c ← this;
  check (bool_decide (state_ c = CONNECTING) || bool_decide (state_ c = CONNECTED) ||
         bool_decide (state_ c = SEND_CLOSED) || bool_decide (state_ c = CLOSE_WAIT)) ;;
  check (0 <=? quota) ;;
  check (quota <=? INT_MAX) ;;
  check (bool_decide (pending_received_frames_ c = []) || (current_receive_quota_ c =? 0)) ;;
  r ← forward_pending (S (length (pending_received_frames_ c))) quota;
  match r with
  | None => mret tt
  | Some quota =>
      c ← this;
      let start_read :=
        (current_receive_quota_ c =? 0) && (0 <? quota) &&
        (bool_decide (state_ c = CONNECTED) || bool_decide (state_ c = SEND_CLOSED) ||
         bool_decide (state_ c = CLOSE_WAIT)) in
      update (λ c, c <| current_receive_quota_ := u64 (current_receive_quota_ c + quota) |>) ;;
      if start_read : bool then ReadFrames ;; mret tt else mret tt
  end.

Definition StartClosingHandshake (code : Z) (reason : list Z) : M unit :=
  closing ← InClosingState;
  if closing : bool then mret tt
  else
    c ← this;
    if bool_decide (state_ c = CONNECTING) then
      update (λ c, c <| stream_request_ := false |>) ;;
      SetState CLOSED ;;
      DoDropChannel false (error_value kWebSocketErrorAbnormalClosure) [] ;;
      mret tt
    else if negb (bool_decide (state_ c = CONNECTED)) then undefined
    else
      check (negb (close_timer_is_running c)) ;;
      start_close_timer closing_handshake_timeout_ ;;
      valid ← lift (IsStrictlyValidCloseStatusCode code);
      s ← (if negb (valid : bool) || (kMaximumCloseReasonLength <? Z.of_nat (length reason))
           then SendClose (error_value kWebSocketErrorInternalServerError) []
           else
             utf8 ← lift (Validate reason);
             SendClose code (if utf8 : bool then reason else []));
      if bool_decide (s = CHANNEL_DELETED) then mret tt
      else
        c ← this;
        check (bool_decide (state_ c = CONNECTED)) ;;
        SetState SEND_CLOSED.

Definition SetClosingHandshakeTimeoutForTesting (delay : TimeDelta) : M unit :=
  update (λ c, c <| closing_handshake_timeout_ := delay |>).
Definition SetUnderlyingConnectionCloseTimeoutForTesting (delay : TimeDelta) : M unit :=
  update (λ c, c <| underlying_connection_close_timeout_ := delay |>).

End Channel.
