(* ===== verification/WebSocketChannelLog.v ===== *)
(** * Runs of a channel, and what their logs must be

    A run is a sequence of calls that enter a channel, each with the answers that come
    during it.  What may enter is what the comments of websocket_channel.h,
    websocket_stream.h and websocket_event_interface.h allow; what must come out of it is
    stated on the log alone. *)

From S2P Require Import Prelude WebSocketFrame WebSocketFrameParser WebSocketBasicStream WebSocketMessages Utf8Validator WebSocketChannelState WebSocketChannel.
Import Channel.

(** ** Runs *)

Record Answers : Type := mkAnswers {
  writes : list Z;
  reads : list (Z * list WebSocketFrame);
  events : list ChannelState
}.

(** A call enters: it is logged, and what it ends is over. *)
Definition enter (c : Call) (a : Answers) (w : World) : World :=
  let w := w <| log := Called c :: log w |> <| write_results := writes a |>
             <| read_results := reads a |> <| event_results := events a |> in
  match c with
  | CallOnWriteDone _ => w <| write_pending := false |>
  | CallOnReadDone _ frames =>
      w <| read_pending := false |> <| channel := (channel w) <| read_frames_ := frames |> |>
  | CallCloseTimeout => w <| channel := (channel w) <| close_timer_ := None |> |>
  | CallSendNotifications => w <| tasks := pred (tasks w) |>
  | _ => w
  end.

Definition dispatch (c : Call) : M unit :=
  match c with
  | CallSendAddChannelRequest url => SendAddChannelRequest url
  | CallSendFrame fin op_code data => SendFrame fin op_code data
  | CallSendFlowControl quota => SendFlowControl quota
  | CallStartClosingHandshake code reason => StartClosingHandshake code reason
  | CallOnConnectSuccess stream => OnConnectSuccess stream
  | CallOnConnectFailure message => OnConnectFailure message
  | CallOnSSLCertificateError fatal => OnSSLCertificateError fatal
  | CallOnStartOpeningHandshake request => OnStartOpeningHandshake request
  | CallOnFinishOpeningHandshake response => OnFinishOpeningHandshake response
  | CallSendNotifications => Send
  | CallOnWriteDone result => OnWriteDone false result ;; mret tt
  | CallOnReadDone result _ => OnReadDone false result ;; mret tt
  | CallCloseTimeout => CloseTimeout
  end.

(** What a stream promises of the frames it reads. *)
Definition stream_frame_ok (f : WebSocketFrame) : Prop :=
  (IsKnownControlOpCode (opcode (frame_header f)) = true →
     final (frame_header f) = true ∧ payload_length (frame_header f) <= kMaxControlFramePayload) ∧
  payload_length (frame_header f) = data_size (frame_data f) ∧
  data_size (frame_data f) <= INT64_MAX ∧
  Forall byte_ok (default [] (frame_data f)).

Definition read_ok (r : Z * list WebSocketFrame) : Prop :=
  r.1 <= 0 ∧ (r.1 = OK → r.2 ≠ [] ∧ Forall stream_frame_ok r.2).

Definition answers_ok (a : Answers) : Prop :=
  Forall (λ r, r <= 0) (writes a) ∧ Forall read_ok (reads a).

(** What may enter. *)
Definition allowed (c : Call) (w : World) : Prop :=
  match c with
  | CallSendNotifications => (0 < tasks w)%nat
  | _ => deleted w = false
  end ∧
  match c with
  | CallSendAddChannelRequest _ => state_ (channel w) = FRESHLY_CONSTRUCTED
  | CallSendFrame _ op_code data =>
      is_Some (stream_ (channel w)) ∧ IsKnownDataOpCode op_code = true ∧
      Z.of_nat (length data) <= INT_MAX ∧ Forall byte_ok data
  | CallSendFlowControl quota =>
      state_ (channel w) ≠ FRESHLY_CONSTRUCTED ∧ 0 <= quota <= INT_MAX ∧
      current_receive_quota_ (channel w) + quota < 18446744073709551616
  | CallStartClosingHandshake code reason =>
      state_ (channel w) ≠ FRESHLY_CONSTRUCTED ∧ 0 <= code < 65536 ∧ Forall byte_ok reason ∧
      (code = error_value kWebSocketErrorNoStatusReceived → reason = [])
  | CallOnConnectSuccess _ | CallOnConnectFailure _ => state_ (channel w) = CONNECTING
  | CallOnSSLCertificateError _ | CallSendNotifications => True
  | CallOnStartOpeningHandshake _ => handshake_request_info_ (notification_sender_ (channel w)) = None
  | CallOnFinishOpeningHandshake _ => handshake_response_info_ (notification_sender_ (channel w)) = None
  | CallOnWriteDone result => write_pending w = true ∧ result <= 0 ∧ result ≠ ERR_IO_PENDING
  | CallOnReadDone result frames =>
      read_pending w = true ∧ result ≠ ERR_IO_PENDING ∧ read_ok (result, frames)
  | CallCloseTimeout => is_Some (close_timer_ (channel w))
  end.

Inductive step (w w' : World) : Prop :=
  | step_call c a : allowed c w → answers_ok a → dispatch c (enter c a w) = Done (tt, w') → step w w'.

Definition reachable : World → Prop := rtc step init_World.

(** A run, as a function. *)
Fixpoint run (calls : list (Call * Answers)) (w : World) : outcome World :=
  match calls with
  | [] => Done w
  | (c, a) :: calls =>
      match dispatch c (enter c a w) with
      | Done (_, w) => run calls w
      | DcheckFailed => DcheckFailed
      end
  end.

(** ** What a log says *)

(** A piece of a message: as the renderer gives it or gets it. *)
Definition piece : Type := bool * OpCode * list Z.
Definition piece_size (p : piece) : Z := Z.of_nat (length p.2).
Definition piece_content (p : piece) : WebSocketFrameHeader * list Z :=
  ((new_WebSocketFrameHeader p.1.2) <| final := p.1.1 |> <| payload_length := piece_size p |>, p.2).
Definition sizes (ps : list piece) : Z := foldr (λ p n, piece_size p + n) 0 ps.

(** The frames given to the stream. *)
Fixpoint written (l : list Action) : list WebSocketFrame :=
  match l with
  | [] => []
  | StreamWriteFrames frames :: l => written l ++ frames
  | _ :: l => written l
  end.

(** The frames the stream gave. *)
Fixpoint frames_read (l : list Action) : list WebSocketFrame :=
  match l with
  | [] => []
  | StreamReadFrames result frames :: l | Called (CallOnReadDone result frames) :: l =>
      if result =? OK then frames_read l ++ frames else frames_read l
  | _ :: l => frames_read l
  end.

(** The pieces that the renderer sent, and those it was sent. *)
Fixpoint pieces_sent (l : list Action) : list piece :=
  match l with
  | [] => []
  | Called (CallSendFrame fin op_code data) :: l => pieces_sent l ++ [(fin, op_code, data)]
  | _ :: l => pieces_sent l
  end.

Fixpoint forwarded (l : list Action) : list piece :=
  match l with
  | [] => []
  | OnDataFrame fin type data :: l => forwarded l ++ [(fin, type, data)]
  | _ :: l => forwarded l
  end.

(** The quota that the renderer was given, and that it gave. *)
Fixpoint granted (l : list Action) : Z :=
  match l with
  | [] => 0
  | OnFlowControl quota :: l => granted l + quota
  | _ :: l => granted l
  end.

Fixpoint allowance (l : list Action) : Z :=
  match l with
  | [] => 0
  | Called (CallSendFlowControl quota) :: l => allowance l + quota
  | _ :: l => allowance l
  end.

(** ** What it must say *)

Definition is_data (f : WebSocketFrame) : bool := IsKnownDataOpCode (opcode (frame_header f)).
Definition is_close (f : WebSocketFrame) : bool := opcode (frame_header f) =? kOpCodeClose.
Definition data_frames (fs : list WebSocketFrame) : list WebSocketFrame := List.filter is_data fs.

(** The frame that a piece is sent as. *)
Definition piece_frame (p : piece) : WebSocketFrame :=
  new_frame p.1.1 p.1.2 (Some p.2) (piece_size p).

(** A frame that may be sent. *)
Definition sendable (f : WebSocketFrame) : Prop :=
  masked (frame_header f) = true ∧
  payload_length (frame_header f) = data_size (frame_data f) ∧
  (is_data f = true ∨
   IsKnownControlOpCode (opcode (frame_header f)) = true ∧ final (frame_header f) = true ∧
   payload_length (frame_header f) <= kMaxControlFramePayload).

(** Nothing is sent behind a Close frame. *)
Definition close_is_last (fs : list WebSocketFrame) : Prop :=
  ∀ before f after, fs = before ++ f :: after → is_close f = true → after = [].

(** Each Ping is answered by a Pong with its payload. *)
Definition is_ping (f : WebSocketFrame) : bool := opcode (frame_header f) =? kOpCodePing.
Definition is_pong (f : WebSocketFrame) : bool := opcode (frame_header f) =? kOpCodePong.
Definition pong_frame (ping : WebSocketFrame) : WebSocketFrame :=
  new_frame true kOpCodePong (frame_data ping) (payload_length (frame_header ping)).
Definition pongs_for (fs : list WebSocketFrame) : list WebSocketFrame :=
  map pong_frame (List.filter is_ping fs).

(** A text message is UTF-8. *)
Definition text_ok (m : message) : Prop :=
  match m with
  | DataMessage (op, _, _, _) payload => op = kOpCodeText → utf8 payload
  | ControlMessage _ _ => True
  end.

(** The data messages of frames, and of pieces. *)
Definition data_session (fs : list WebSocketFrame) : option session :=
  deliver (map content (data_frames fs)).
Definition piece_session (ps : list piece) : option session := deliver (map piece_content ps).

(** [accepted] are the pieces of the renderer that were taken, [handled] the frames of the
    stream that were, and [waiting] the pieces that wait for quota. *)
Record log_ok (l : list Action) : Prop := {
  ok_sendable : Forall sendable (written l);
  ok_close : close_is_last (written l);
  ok_sent : ∃ accepted, accepted `prefix_of` pieces_sent l ∧
    data_frames (written l) `prefix_of` map piece_frame accepted ∧ sizes accepted <= granted l;
  ok_receive_quota : sizes (forwarded l) <= allowance l;
  ok_messages : ∃ handled waiting ms open open',
    handled `prefix_of` frames_read l ∧
    List.filter is_pong (written l) `prefix_of` pongs_for handled ∧
    data_session handled = Some (ms, open) ∧
    piece_session (forwarded l ++ waiting) = Some (ms, open') ∧
    (open' = open ∨ open' = None) ∧
    Forall text_ok ms
}.
