(* ===== verification/WebSocketChannelInvariant.v ===== *)
(** * The invariant of a channel, and how its methods are reasoned about

    [wp m Q w]: run in the world [w], the method [m] fails no check and touches no deleted
    object, and its result and the world behind it satisfy [Q].  [Live] is the invariant of
    a channel that exists, for a ghost state that remembers what has gone through it. *)

From S2P Require Import Prelude WebSocketFrame WebSocketFrameParser WebSocketBasicStream WebSocketMessages Utf8Validator WebSocketChannelState WebSocketChannel WebSocketChannelLog.
Import Channel.

(** ** Weakest preconditions *)

Definition wp {A} (m : M A) (Q : A → World → Prop) (w : World) : Prop :=
  match m w with
  | Done (a, w') => Q a w'
  | DcheckFailed => False
  end.

Lemma wp_done {A} (m : M A) Q w : wp m Q w → ∃ a w', m w = Done (a, w') ∧ Q a w'.
Proof. unfold wp. destruct (m w) as [[a w']|]; [|done]. by exists a, w'. Qed.

Lemma wp_mono {A} (m : M A) (P Q : A → World → Prop) w :
  wp m P w → (∀ a w', P a w' → Q a w') → wp m Q w.
Proof. unfold wp. destruct (m w) as [[a w']|]; [|done]. naive_solver. Qed.

Lemma wp_bind {A B} (m : M A) (f : A → M B) Q w :
  wp m (λ a w', wp (f a) Q w') w → wp (m ≫= f) Q w.
Proof. unfold wp, mbind, M_bind. by destruct (m w) as [[a w']|]. Qed.

Lemma wp_ret {A} (a : A) Q w : Q a w → wp (mret a) Q w.
Proof. done. Qed.

Lemma wp_check b Q w : b = true → Q tt w → wp (check b) Q w.
Proof. by intros ->. Qed.

Lemma wp_lift {A} (m : outcome A) a Q w : m = Done a → Q a w → wp (lift m) Q w.
Proof. unfold wp, lift. by intros ->. Qed.

Lemma wp_this Q w : deleted w = false → Q (channel w) w → wp this Q w.
Proof. unfold wp, this. by intros ->. Qed.

Lemma wp_update f Q w :
  deleted w = false → Q tt (w <| channel := f (channel w) |>) → wp (update f) Q w.
Proof. unfold wp, update. by intros ->. Qed.

Lemma wp_event a Q w :
  deleted w = false →
  (∀ rs, Q CHANNEL_ALIVE (w <| log := a :: log w |> <| event_results := rs |>)) →
  (∀ rs, Q CHANNEL_DELETED (destroy (w <| log := a :: log w |> <| event_results := rs |>))) →
  wp (event a) Q w.
Proof.
  unfold wp, event. intros -> Ha Hd. cbn. pose proof (Ha (event_results w)) as Ha'. cbn in Ha'.
  destruct (event_results w) as [|[] rs] eqn:E; [|apply Ha|apply Hd].
  by rewrite <- E in Ha'.
Qed.

(** ** The ghost state *)

(** [g_fs] are all frames that were to be sent, the last of them [g_owed] if it is still to
    be; [g_busy] tells whether there is a [data_being_sent_], and [g_unwritten] whether its
    frames have not been given to the stream.  Of
    the pieces of the renderer [g_calls] were taken, and [g_uncalled] not; of the frames
    that were read [g_hd] were handled in the state [CONNECTED], and [g_unhandled] not.
    [g_lost]: the channel has met an error in a message, and will fail; [g_extra] is quota
    that the renderer has given and the channel not yet counted. *)
Record Ghost : Type := mkGhost {
  g_state : State;
  g_stream : bool;
  g_closed : bool;
  g_reading : bool;
  g_writing : bool;
  g_timer : bool;
  g_busy : bool;
  g_unwritten : bool;
  g_fs : list WebSocketFrame;
  g_owed : list WebSocketFrame;
  g_calls : list piece;
  g_uncalled : list piece;
  g_hd : list WebSocketFrame;
  g_unhandled : list WebSocketFrame;
  g_read_frames : list WebSocketFrame;
  g_writes : list Z;
  g_reads : list (Z * list WebSocketFrame);
  g_lost : bool;
  g_extra : Z
}.
#[export] Instance eta_Ghost : Eta Ghost := λ g,
  mkGhost (g_state g) (g_stream g) (g_closed g) (g_reading g) (g_writing g) (g_timer g)
    (g_busy g) (g_unwritten g) (g_fs g) (g_owed g) (g_calls g) (g_uncalled g) (g_hd g)
    (g_unhandled g) (g_read_frames g) (g_writes g) (g_reads g) (g_lost g)
    (g_extra g).

Definition core (g : Ghost) (w : World) : Prop :=
  deleted w = false ∧
  state_ (channel w) = g_state g ∧
  bool_decide (is_Some (stream_ (channel w))) = g_stream g ∧
  stream_closed w = g_closed g ∧
  read_pending w = g_reading g ∧
  write_pending w = g_writing g ∧
  close_timer_is_running (channel w) = g_timer g ∧
  read_frames_ (channel w) = g_read_frames g ∧
  write_results w = g_writes g ∧ Forall (λ r, r <= 0) (g_writes g) ∧
  read_results w = g_reads g ∧ Forall read_ok (g_reads g).

(** Text messages so far are UTF-8, and the open one is what the validator has read. *)
Definition text_session (st : session) (v : StreamingUtf8Validator) (text : bool) : Prop :=
  Forall text_ok st.1 ∧
  match st.2 with
  | Some ((op, _, _, _), bytes) =>
      if op =? kOpCodeText then text = true ∧ has_read bytes v else text = false ∧ has_read [] v
  | None => text = false ∧ has_read [] v
  end.

Definition buffer_frames (b : option SendBuffer) : list WebSocketFrame := from_option frames_ [] b.

Record submitted (fs : list WebSocketFrame) (calls : list piece) (hd : list WebSocketFrame) : Prop := {
  sub_sendable : Forall sendable fs;
  sub_close : close_is_last fs;
  sub_data : data_frames fs = map piece_frame calls;
  sub_pongs : List.filter is_pong fs = pongs_for hd
}.

Definition sending (g : Ghost) (w : World) : Prop :=
  bool_decide (is_Some (data_being_sent_ (channel w))) = g_busy g ∧
  g_fs g = written (log w) ++
    (if g_unwritten g then buffer_frames (data_being_sent_ (channel w)) else []) ++
    buffer_frames (data_to_send_next_ (channel w)) ++ g_owed g ∧
  (is_Some (data_to_send_next_ (channel w)) → is_Some (data_being_sent_ (channel w))) ∧
  send_quota_low_water_mark_ (channel w) = kDefaultSendQuotaLowWaterMark ∧
  send_quota_high_water_mark_ (channel w) = kDefaultSendQuotaHighWaterMark ∧
  0 <= current_send_quota_ (channel w) <= kDefaultSendQuotaHighWaterMark ∧
  granted (log w) = current_send_quota_ (channel w) + sizes (g_calls g) ∧
  pieces_sent (log w) = g_calls g ++ g_uncalled g ∧
  submitted (g_fs g) (g_calls g) (g_hd g) ∧
  (g_lost g = false →
   (∃ x, has_read x (outgoing_utf8_validator_ (channel w))) ∧
   (∀ st, piece_session (g_calls g) = Some st →
      text_session st (outgoing_utf8_validator_ (channel w)) (sending_text_message_ (channel w)))).

(** ** What was received *)

Definition pending_ok (p : PendingReceivedFrame) : Prop :=
  0 <= offset_ p <= size_ p ∧ size_ p = data_size (pending_data_ p) ∧ size_ p <= INT64_MAX ∧
  IsKnownDataOpCode (opcode_ p) = true.

(** The rest of a pending frame. *)
Definition pending_piece (p : PendingReceivedFrame) : piece :=
  (final_ p, opcode_ p, drop (Z.to_nat (offset_ p)) (default [] (pending_data_ p))).
Definition waiting_pieces (c : WebSocketChannel) : list piece :=
  map pending_piece (pending_received_frames_ c).

(** The open message, of which the renderer has heard only if a piece of it went out
    ([fwd], which is [initial_frame_forwarded_]). *)
Definition heard (fwd : bool) (open : option (message_start * list Z)) :
    option (message_start * list Z) := if fwd then open else None.

(** [exp] is [expecting_to_handle_continuation_]. *)
Definition open_ok (fwd exp : bool) (open : option (message_start * list Z)) : Prop :=
  match open with
  | None => exp = false ∧ fwd = false
  | Some (start, bytes) =>
      exp = true ∧
      (start = (kOpCodeText, false, false, false) ∨ start = (kOpCodeBinary, false, false, false)) ∧
      (fwd = false → bytes = [])
  end.

(** [ps] are the pieces that went to the renderer or wait. *)
Definition assembled (hd : list WebSocketFrame) (ps : list piece) (fwd exp : bool)
    (v : StreamingUtf8Validator) (text : bool) : Prop :=
  ∃ ms open,
    data_session hd = Some (ms, open) ∧
    piece_session ps = Some (ms, heard fwd open) ∧
    open_ok fwd exp open ∧
    text_session (ms, open) v text.

Definition receiving (g : Ghost) (w : World) : Prop :=
  0 <= current_receive_quota_ (channel w) < 18446744073709551616 ∧
  (0 <= g_extra g ∧
   allowance (log w) = sizes (forwarded (log w)) + current_receive_quota_ (channel w) + g_extra g) ∧
  (pending_received_frames_ (channel w) ≠ [] → current_receive_quota_ (channel w) = 0) ∧
  Forall pending_ok (pending_received_frames_ (channel w)) ∧
  frames_read (log w) = g_hd g ++ g_unhandled g ∧
  (if g_lost g
   then ∃ fwd exp v text,
     assembled (g_hd g) (forwarded (log w) ++ waiting_pieces (channel w)) fwd exp v text
   else assembled (g_hd g) (forwarded (log w) ++ waiting_pieces (channel w))
     (initial_frame_forwarded_ (channel w)) (expecting_to_handle_continuation_ (channel w))
     (incoming_utf8_validator_ (channel w)) (receiving_text_message_ (channel w))).

Definition Live (g : Ghost) (w : World) : Prop := core g w ∧ sending g w ∧ receiving g w.

Definition Dead (w : World) : Prop := deleted w = true ∧ log_ok (log w).

(** ** From the invariant to the log *)

Lemma data_frames_app fs gs : data_frames (fs ++ gs) = data_frames fs ++ data_frames gs.
Proof. apply List.filter_app. Qed.

Lemma sizes_cons p ps : sizes (p :: ps) = piece_size p + sizes ps.
Proof. done. Qed.

Lemma sizes_app ps qs : sizes (ps ++ qs) = sizes ps + sizes qs.
Proof.
  induction ps as [|p ps IH]; [done|]. change ((p :: ps) ++ qs) with (p :: ps ++ qs).
  rewrite !sizes_cons. lia.
Qed.

Lemma sizes_nonneg ps : 0 <= sizes ps.
Proof. induction ps as [|p ps IH]; [done|]. rewrite sizes_cons. unfold piece_size. lia. Qed.

Lemma piece_session_snoc ps p : piece_session (ps ++ [p]) = deliver_frame (piece_session ps) (piece_content p).
Proof. unfold piece_session. rewrite map_app. apply deliver_snoc. Qed.

Lemma data_session_snoc fs f :
  data_session (fs ++ [f]) =
  if is_data f then deliver_frame (data_session fs) (content f) else data_session fs.
Proof.
  unfold data_session. rewrite data_frames_app. cbn. destruct (is_data f).
  - rewrite map_app. apply deliver_snoc.
  - by rewrite app_nil_r.
Qed.

Lemma filter_prefix {A} (p : A → bool) (l k : list A) :
  l `prefix_of` k → List.filter p l `prefix_of` List.filter p k.
Proof. intros [x ->]. rewrite List.filter_app. by apply prefix_app_r. Qed.

Lemma close_is_last_prefix fs gs : fs `prefix_of` gs → close_is_last gs → close_is_last fs.
Proof.
  intros [x ->] H before f after -> Hc. specialize (H before f (after ++ x)). rewrite <- app_assoc in H.
  specialize (H eq_refl Hc). by apply app_eq_nil in H as [-> _].
Qed.

Lemma close_is_last_snoc fs f :
  Forall (λ f, is_close f = false) fs → close_is_last (fs ++ [f]).
Proof.
  intros Hn before g after E Hc. destruct after as [|a after _] using rev_ind; [done|]. exfalso.
  rewrite app_comm_cons, app_assoc in E. apply app_inj_tail in E as [-> _].
  apply Forall_app in Hn as [_ Hn]. apply Forall_cons_1 in Hn as [Hn _]. congruence.
Qed.

(** Each part reads only some fields of the ghost state. *)
Lemma core_ext g g' w :
  (g_state g, g_stream g, g_closed g, g_reading g, g_writing g, g_timer g, g_read_frames g, g_writes g, g_reads g)
    = (g_state g', g_stream g', g_closed g', g_reading g', g_writing g', g_timer g', g_read_frames g',
       g_writes g', g_reads g') →
  core g w → core g' w.
Proof. intros [= E1 E2 E3 E4 E5 E6 E7 E8 E9]. unfold core. by rewrite E1, E2, E3, E4, E5, E6, E7, E8, E9. Qed.

Lemma receiving_ext g g' w :
  (g_hd g, g_unhandled g, g_lost g, g_extra g) = (g_hd g', g_unhandled g', g_lost g', g_extra g') →
  receiving g w → receiving g' w.
Proof. intros [= E1 E2 E3 E4]. unfold receiving. by rewrite E1, E2, E3, E4. Qed.

(** The fields of a channel that the invariant of what it receives reads. *)
Definition receiving_fields (c : WebSocketChannel) :=
  (current_receive_quota_ c, pending_received_frames_ c, initial_frame_forwarded_ c,
   expecting_to_handle_continuation_ c, incoming_utf8_validator_ c, receiving_text_message_ c).

Lemma receiving_transfer g g' w w' :
  receiving g w → (g_hd g', g_lost g', g_extra g') = (g_hd g, g_lost g, g_extra g) →
  receiving_fields (channel w') = receiving_fields (channel w) →
  (allowance (log w'), forwarded (log w')) = (allowance (log w), forwarded (log w)) →
  frames_read (log w') = g_hd g ++ g_unhandled g' → receiving g' w'.
Proof.
  intros Hr [= E1 E2 E3] [= F1 F2 F3 F4 F5 F6] [= L1 L2] Hu. unfold receiving, waiting_pieces in *.
  rewrite E1, E2, E3, F1, F2, F3, F4, F5, F6, L1, L2. destruct Hr as (Q1 & Q2 & Q3 & Q4 & _ & Ha).
  exact (conj Q1 (conj Q2 (conj Q3 (conj Q4 (conj Hu Ha))))).
Qed.

(** The same for what it sends. *)
Definition sending_fields (c : WebSocketChannel) :=
  (data_being_sent_ c, data_to_send_next_ c, send_quota_low_water_mark_ c, send_quota_high_water_mark_ c,
   current_send_quota_ c, outgoing_utf8_validator_ c, sending_text_message_ c).

Lemma sending_transfer g g' w w' :
  sending g w →
  (g_busy g', g_unwritten g', g_fs g', g_owed g', g_calls g', g_hd g', g_lost g')
    = (g_busy g, g_unwritten g, g_fs g, g_owed g, g_calls g, g_hd g, g_lost g) →
  sending_fields (channel w') = sending_fields (channel w) →
  (written (log w'), granted (log w')) = (written (log w), granted (log w)) →
  pieces_sent (log w') = g_calls g ++ g_uncalled g' → sending g' w'.
Proof.
  intros Hs [= E1 E2 E3 E4 E5 E6 E7] [= F1 F2 F3 F4 F5 F6 F7] [= L1 L2] Hc. unfold sending in *.
  rewrite E1, E2, E3, E4, E5, E6, E7, F1, F2, F3, F4, F5, F6, F7, L1, L2.
  destruct Hs as (H1 & H2 & H3 & H4 & H5 & H6 & H7 & _ & H9).
  exact (conj H1 (conj H2 (conj H3 (conj H4 (conj H5 (conj H6 (conj H7 (conj Hc H9)))))))).
Qed.

Lemma core_deleted g w : core g w → deleted w = false.
Proof. by intros (? & _). Qed.
Lemma Live_deleted g w : Live g w → deleted w = false.
Proof. intros (H & _). by eapply core_deleted. Qed.
#[export] Hint Resolve core_deleted Live_deleted : channel.

Lemma written_prefix g w : sending g w → written (log w) `prefix_of` g_fs g.
Proof. intros (_ & -> & _). by apply prefix_app_r. Qed.

Lemma receiving_assembled g w : receiving g w →
  ∃ fwd exp v text, assembled (g_hd g) (forwarded (log w) ++ waiting_pieces (channel w)) fwd exp v text.
Proof. intros (_ & _ & _ & _ & _ & H). destruct (g_lost g); [exact H|by eexists _, _, _, _]. Qed.

Lemma Live_log_ok g w : Live g w → log_ok (log w).
Proof.
  intros (_ & Hs & Hr). destruct (receiving_assembled g w Hr) as (fwd & exp & v & text & ms & open & E1 & E2 & _ & Ht & _). pose proof (written_prefix g w Hs) as Hp.
  destruct Hs as (_ & Efs & _ & _ & _ & Hq & Hg & Ec & [S1 S2 S3 S4] & _).
  destruct Hr as (Hrq & Ha & _ & _ & Ef & _).
  split.
  - destruct Hp as [x E]. rewrite E in S1. by apply Forall_app in S1 as [? _].
  - by eapply close_is_last_prefix.
  - exists (g_calls g). split; [by exists (g_uncalled g)|]. split; [|lia].
    rewrite <- S3. by apply filter_prefix.
  - lia.
  - exists (g_hd g), (waiting_pieces (channel w)), ms, open, (heard fwd open).
    split; [by exists (g_unhandled g)|]. split; [rewrite <- S4; by apply filter_prefix|].
    split; [done|]. split; [done|]. split; [|done].
    unfold heard. destruct fwd; auto.
Qed.

Lemma Dead_destroy g w : Live g w → Dead (destroy w).
Proof. intros H. split; [done|]. exact (Live_log_ok g w H). Qed.

(** Once an error is met, the flags of the messages do not matter. *)
Lemma Live_lose g w : Live g w → Live (g <| g_lost := true |>) w.
Proof.
  intros (Hc & Hs & Hr). split; [exact Hc|]. split.
  - destruct Hs as (H1 & H2 & H3 & H4 & H5 & H6 & H7 & H8 & H9 & _). by repeat (split; [assumption|]).
  - pose proof (receiving_assembled g w Hr) as Ha. destruct Hr as (H1 & H2 & H3 & H4 & H5 & _).
    exact (conj H1 (conj H2 (conj H3 (conj H4 (conj H5 Ha))))).
Qed.

(** The answers to events do not matter. *)
Lemma Live_event_results g w rs : Live g w → Live g (w <| event_results := rs |>).
Proof. exact id. Qed.

(** ** Events *)

(** Actions that no function of the log reads. *)
Definition neutral (a : Action) : bool :=
  match a with
  | StreamClose | OnAddChannelResponse _ _ | OnClosingHandshake | OnDropChannel _ _ _
  | OnFailChannel _ | WebSocketChannelState.OnStartOpeningHandshake _
  | WebSocketChannelState.OnFinishOpeningHandshake _
  | WebSocketChannelState.OnSSLCertificateError _ _ => true
  | _ => false
  end.

Lemma Live_neutral g w a : neutral a = true → Live g w → Live g (w <| log := a :: log w |>).
Proof. destruct a; try discriminate; intros _ H; exact H. Qed.

(** After the event [a], if it leaves the channel alive, the invariant holds for [g]. *)
Lemma wp_event_live g a Q w :
  deleted w = false →
  Live g (w <| log := a :: log w |>) →
  (∀ w', channel w' = channel w → Live g w' → Q CHANNEL_ALIVE w') →
  (∀ w', Dead w' → Q CHANNEL_DELETED w') →
  wp (event a) Q w.
Proof.
  intros Hd Hl Ha Hq. apply wp_event; [done|..]; intros rs.
  - apply Ha; [done|]. by apply Live_event_results.
  - apply Hq. apply (Dead_destroy g). by apply Live_event_results.
Qed.

Lemma wp_event_neutral g a Q w :
  neutral a = true → Live g w →
  (∀ w', channel w' = channel w → Live g w' → Q CHANNEL_ALIVE w') →
  (∀ w', Dead w' → Q CHANNEL_DELETED w') →
  wp (event a) Q w.
Proof.
  intros Hn Hl. apply wp_event_live; [by eapply Live_deleted|by apply Live_neutral].
Qed.

Lemma wp_last_event g a Q w :
  neutral a = true → Live g w → (∀ w', Dead w' → Q CHANNEL_DELETED w') → wp (last_event a) Q w.
Proof.
  intros Hn Hl HQ. unfold wp, last_event. rewrite (Live_deleted g w Hl). apply HQ.
  apply (Dead_destroy g). by apply Live_neutral.
Qed.

(** The result of a method that may delete the channel. *)
Definition alive_or_dead (P : World → Prop) (s : ChannelState) (w : World) : Prop :=
  match s with CHANNEL_ALIVE => P w | CHANNEL_DELETED => Dead w end.

(** [s ← m; if s = CHANNEL_DELETED then return else k]. *)
Lemma wp_alive_or_dead {B} (m : M ChannelState) (P : World → Prop) (e : M B) (k : M B) Q w :
  wp m (alive_or_dead P) w →
  (∀ w', P w' → wp k Q w') →
  (∀ w', Dead w' → wp e Q w') →
  wp (s ← m; if bool_decide (s = CHANNEL_DELETED) then e else k) Q w.
Proof.
  intros Hm Hk He. apply wp_bind. eapply wp_mono; [exact Hm|]. intros [] w' H; cbn in *; auto.
Qed.
