(* ===== verification/WebSocketChannelWrite.v ===== *)
(** * The methods of a channel that write, and those that end it

    Each keeps the invariant of WebSocketChannelInvariant or leaves the channel deleted. *)

From S2P Require Import Prelude WebSocketFrame WebSocketFrameParser WebSocketBasicStream WebSocketMessages Utf8Validator WebSocketChannelState WebSocketChannel WebSocketChannelLog WebSocketChannelInvariant.
Import Channel.

(** ** Stepping through a method *)

(** The parts of the invariant, under standard names. *)
Ltac open_core H :=
  destruct H as (Hdel & Hstate & Hstream & Hclosed & Hreading & Hwriting & Htimer & Hrf & Hws & Hwok & Hrs & Hrok).

Lemma core_state g w : Live g w → state_ (channel w) = g_state g.
Proof. by intros ((_ & ? & _) & _). Qed.
Lemma core_stream g w : Live g w → is_Some (stream_ (channel w)) ↔ g_stream g = true.
Proof. intros ((_ & _ & <- & _) & _). by rewrite bool_decide_eq_true. Qed.

Lemma wp_bind_this {B} g (f : WebSocketChannel → M B) Q w :
  Live g w → wp (f (channel w)) Q w → wp (this ≫= f) Q w.
Proof. intros H ?. apply wp_bind, wp_this; [by eapply Live_deleted|done]. Qed.

Lemma wp_bind_update {B} g f (k : unit → M B) Q w :
  Live g w → wp (k tt) Q (w <| channel := f (channel w) |>) → wp (update f ≫= k) Q w.
Proof. intros H ?. apply wp_bind, wp_update; [by eapply Live_deleted|done]. Qed.

Lemma wp_bind_check {B} b (k : unit → M B) Q w : b = true → wp (k tt) Q w → wp (check b ≫= k) Q w.
Proof. intros ? ?. by apply wp_bind, wp_check. Qed.

Lemma wp_bind_ret {A B} (a : A) (k : A → M B) Q w : wp (k a) Q w → wp (mret a ≫= k) Q w.
Proof. done. Qed.

Lemma wp_SetState g st Q w :
  Live g w → g_state g ≠ st →
  (∀ w', Live (g <| g_state := st |>) w' → channel w' = (channel w) <| state_ := st |> → Q tt w') →
  wp (SetState st) Q w.
Proof.
  intros H Hne HQ. apply (wp_bind_this g); [done|]. apply wp_bind_check.
  { rewrite (core_state g w H). by rewrite bool_decide_eq_false_2. }
  apply wp_update; [by eapply Live_deleted|]. apply HQ; [|done].
  destruct H as (Hc & Hs & Hr). split; [|split; [exact Hs|exact Hr]].
  open_core Hc. by repeat (split; [done|]).
Qed.

Lemma wp_stream_Close g Q w :
  Live g w → g_stream g = true →
  (∀ w', Live (g <| g_closed := true |> <| g_writing := false |> <| g_reading := false |>) w' →
     channel w' = channel w → Q tt w') →
  wp stream_Close Q w.
Proof.
  intros H Hst HQ. unfold wp, stream_Close. rewrite (Live_deleted g w H).
  rewrite bool_decide_eq_true_2 by by apply (core_stream g w). cbn [orb negb]. apply HQ; [|done].
  destruct H as (Hc & Hs & Hr). split; [|split; [exact Hs|exact Hr]].
  open_core Hc. by repeat (split; [done|]).
Qed.

(** ** The end of a channel *)

Lemma SendImmediately_spec g w : Live g w → wp SendImmediately (alive_or_dead (Live g)) w.
Proof.
  intros H. apply (wp_bind_this g); [done|].
  apply (wp_alive_or_dead _ (Live g)); [| |intros; by apply wp_ret].
  { destruct (handshake_request_info_ _); [|by apply wp_ret].
    apply (wp_bind_update g); [done|]. by apply (wp_event_neutral g). }
  clear w H. intros w H. apply (wp_bind_this g); [done|]. apply wp_bind.
  apply (wp_mono _ (alive_or_dead (Live g))).
  { destruct (handshake_response_info_ _); [|by apply wp_ret].
    apply (wp_bind_update g); [done|]. by apply (wp_event_neutral g). }
  by intros [] w' Hw'.
Qed.

(** What the methods that end a channel ensure. *)
Definition ended (s : ChannelState) (w : World) : Prop := s = CHANNEL_DELETED ∧ Dead w.

Lemma DoDropChannel_spec g was_clean code reason w :
  Live g w → wp (DoDropChannel was_clean code reason) ended w.
Proof.
  intros H. apply (wp_alive_or_dead _ (Live g)); [by apply SendImmediately_spec| |done].
  intros w' H'. by apply (wp_last_event g).
Qed.

Lemma ended_or P s w : ended s w → alive_or_dead P s w.
Proof. by intros [-> ?]. Qed.

Lemma close_and_drop g code reason was_clean w :
  Live g w → g_stream g = true → g_state g ≠ CLOSED →
  wp (stream_Close ;; SetState CLOSED ;; DoDropChannel was_clean code reason) ended w.
Proof.
  intros H Hst Hs. apply wp_bind. apply (wp_stream_Close g); [done..|]. intros w1 H1 _.
  apply wp_bind. eapply wp_SetState; [exact H1|done|]. intros w2 H2 _.
  by eapply DoDropChannel_spec.
Qed.

Lemma CloseTimeout_spec g w :
  Live g w → g_stream g = true → g_state g ≠ CLOSED → wp CloseTimeout (λ _, Dead) w.
Proof.
  intros H Hst Hs. apply wp_bind. apply (wp_stream_Close g); [done..|]. intros w1 H1 _.
  apply wp_bind. eapply wp_SetState; [exact H1|done|]. intros w2 H2 _.
  apply wp_bind. eapply wp_mono; [by eapply DoDropChannel_spec|]. by intros ? w3 [_ ?].
Qed.

(** ** Writing *)

(** The ghost state where nothing is owed or unwritten: a write is pending exactly if frames
    are being sent. *)
Definition wr (g : Ghost) (busy : bool) (ws : list Z) : Ghost :=
  g <| g_busy := busy |> <| g_writing := busy |> <| g_unwritten := false |> <| g_owed := [] |>
    <| g_writes := ws |>.
Definition steady (g : Ghost) (w : World) : Prop := ∃ busy ws, Live (wr g busy ws) w.

(** A channel that may write. *)
Definition writable (g : Ghost) : Prop :=
  g_stream g = true ∧ g_closed g = false ∧
  g_state g ≠ FRESHLY_CONSTRUCTED ∧ g_state g ≠ CONNECTING ∧ g_state g ≠ CLOSED.

Ltac open_sending H :=
  destruct H as (Hbusy & Hfs & Hnext & Hlow & Hhigh & Hq & Hgranted & Hcalls & Hsub & Htext).

(** The ghost states of a write: before it, and while it is pending. *)
Definition to_write (g : Ghost) (ws : list Z) : Ghost :=
  g <| g_busy := true |> <| g_writing := false |> <| g_unwritten := true |> <| g_owed := [] |>
    <| g_writes := ws |>.
Definition in_flight (g : Ghost) (ws : list Z) : Ghost :=
  g <| g_busy := true |> <| g_writing := false |> <| g_unwritten := false |> <| g_owed := [] |>
    <| g_writes := ws |>.

Lemma fresh_quota_value q : 0 <= q <= kDefaultSendQuotaHighWaterMark →
  s32 (kDefaultSendQuotaHighWaterMark - q) = kDefaultSendQuotaHighWaterMark - q ∧
  s32 (q + (kDefaultSendQuotaHighWaterMark - q)) = kDefaultSendQuotaHighWaterMark.
Proof.
  change kDefaultSendQuotaHighWaterMark with 131072. intros. split; rewrite s32_small; lia.
Qed.

(** After a write: the next one, or nothing. *)
Lemma next_write_spec g ws k sync P w :
  Live (in_flight g ws) w →
  (∀ w', Live (to_write g ws) w' → wp (if negb sync then k else mret CHANNEL_ALIVE) (alive_or_dead P) w') →
  (∀ w', Live (wr g false ws) w' → P w') →
  wp (next_write k sync) (alive_or_dead P) w.
Proof.
  intros H Hk Hw. apply (wp_bind_this (in_flight g ws)); [done|].
  destruct H as (Hc & Hs & Hr). open_sending Hs.
  destruct (data_to_send_next_ (channel w)) as [next|] eqn:En.
  - apply wp_bind, wp_update; [by eapply core_deleted|]. apply Hk.
    split; [exact Hc|]. split; [|exact Hr].
    split; [done|]. split; [|split; [by intros []|done]].
    cbn in Hfs |- *. rewrite Hfs. cbn. by rewrite !app_nil_r.
  - apply wp_bind, wp_update; [by eapply core_deleted|].
    assert (Live (wr g false ws) (w <| channel := (channel w) <| data_being_sent_ := None |> |>)) as Hl.
    { split; [exact Hc|]. split; [|exact Hr]. split; [done|]. split; [cbn in Hfs |- *; by rewrite Hfs, En|].
      split; [cbn; by rewrite En|done]. }
    destruct (_ <? _); [|by apply wp_ret, Hw].
    apply wp_bind_check; [rewrite Hlow, Hhigh; done|]. rewrite Hhigh.
    destruct (fresh_quota_value _ Hq) as [E1 E2]. rewrite E1. apply (wp_bind_update _ _ _ _ _ Hl).
    apply (wp_event_live (wr g false ws)); [exact (Live_deleted _ _ Hl)| |intros ? _; apply Hw|auto].
    destruct Hl as (Hc' & Hs' & Hr'). split; [exact Hc'|]. split; [|exact Hr'].
    clear - Hs' E2. open_sending Hs'. cbn in *. rewrite E2.
    unfold sending. cbn. split_and!; try done. lia.
Qed.

Lemma on_write_done_spec g ws k sync r P w :
  Live (in_flight g ws) w → writable g → r <= 0 → r ≠ ERR_IO_PENDING →
  (r = OK → ∀ w', Live (to_write g ws) w' →
     wp (if negb sync then k else mret CHANNEL_ALIVE) (alive_or_dead P) w') →
  (r = OK → ∀ w', Live (wr g false ws) w' → P w') →
  wp (on_write_done k sync r) (alive_or_dead P) w.
Proof.
  intros H (Hst & Hcl & H1 & H2 & H3) Hr Hp Hk Hw. apply (wp_bind_this (in_flight g ws)); [done|].
  pose proof (core_state _ _ H) as E. cbn in E. rewrite E.
  apply wp_bind_check; [by rewrite bool_decide_eq_false_2|].
  apply wp_bind_check; [by rewrite bool_decide_eq_false_2|].
  apply wp_bind_check; [by apply negb_true_iff, Z.eqb_neq|].
  apply wp_bind_check; [by destruct H as (_ & (-> & _) & _)|].
  destruct (Z.eqb_spec r OK) as [->|Hne].
  - apply (next_write_spec g ws); auto.
  - apply wp_bind_check; [apply Z.ltb_lt; unfold OK in Hne; lia|].
    eapply wp_mono; [by eapply close_and_drop|]. intros s w'. apply ended_or.
Qed.

Lemma stream_WriteFrames_spec g ws buffer Q w :
  Live (to_write g ws) w → g_stream g = true → g_closed g = false →
  data_being_sent_ (channel w) = Some buffer →
  (∀ w', Live (wr g true []) w' → ws = [] → Q ERR_IO_PENDING w') →
  (∀ w' ws', Live (wr g true ws') w' → length ws = S (length ws') → Q ERR_IO_PENDING w') →
  (∀ r ws' w', ws = r :: ws' → r <= 0 → r ≠ ERR_IO_PENDING → Live (in_flight g ws') w' → Q r w') →
  wp (stream_WriteFrames (frames_ buffer)) Q w.
Proof.
  intros (Hc & Hs & Hr) Hst Hcl Eb HQ1 HQ2 HQ3. unfold wp, stream_WriteFrames.
  open_core Hc. rewrite Hdel, Hwriting, Hclosed. rewrite Hstream. cbn in Hstream |- *. rewrite Hst, Hcl. cbn.
  assert (∀ b ws', sending (g <| g_busy := true |> <| g_writing := b |> <| g_unwritten := false |>
      <| g_owed := [] |> <| g_writes := ws' |>)
      (w <| log := StreamWriteFrames (frames_ buffer) :: log w |>)) as Hs'.
  { intros b ws'. clear - Hs Eb. open_sending Hs. split; [done|]. split; [|done].
    cbn in Hfs |- *. rewrite Hfs, Eb. cbn. by rewrite <- app_assoc. }
  cbn in Hws, Hwok. destruct (write_results w) as [|r rs] eqn:Ew; subst ws.
  - apply HQ1; [|done]. split; [|split; [exact (Hs' true [])|exact Hr]]. by repeat (split; [done|]).
  - apply Forall_cons_1 in Hwok as [Hr0 Hwok]. destruct (decide (r = ERR_IO_PENDING)) as [Ep|Ep];
      [rewrite (bool_decide_eq_true_2 _ Ep) | rewrite (bool_decide_eq_false_2 _ Ep)].
    + subst r. apply (HQ2 _ rs); [|done]. split; [|split; [exact (Hs' true rs)|exact Hr]].
      by repeat (split; [done|]).
    + apply (HQ3 r rs); [done..|]. split; [|split; [exact (Hs' false rs)|exact Hr]].
      by repeat (split; [done|]).
Qed.

Lemma write_frames_loop_spec g fuel : ∀ ws w,
  Live (to_write g ws) w → writable g → (length ws < fuel)%nat →
  wp (write_frames_loop fuel) (alive_or_dead (steady g)) w.
Proof.
  induction fuel as [|fuel IH]; intros ws w H Hg Hf; [lia|].
  apply (wp_bind_this (to_write g ws)); [done|].
  destruct (data_being_sent_ (channel w)) as [buffer|] eqn:Eb.
  2: { destruct H as (_ & (Hb & _) & _). rewrite Eb in Hb. by apply bool_decide_eq_true in Hb as [? ?]. }
  apply wp_bind. destruct Hg as (Hst & Hcl & Hg').
  assert (∀ w' ws', Live (wr g true ws') w' →
    wp (s ← (if negb (ERR_IO_PENDING =? ERR_IO_PENDING) then on_write_done undefined true ERR_IO_PENDING
             else mret CHANNEL_ALIVE);
        if bool_decide (s = CHANNEL_DELETED) then mret CHANNEL_DELETED
        else c ← this;
             if (ERR_IO_PENDING =? OK) && bool_decide (is_Some (data_being_sent_ c))
             then write_frames_loop fuel else mret CHANNEL_ALIVE) (alive_or_dead (steady g)) w') as Hpend.
  { intros w' ws' H'. apply wp_bind_ret. apply (wp_bind_this _ _ _ _ H'). apply wp_ret. by exists true, ws'. }
  apply (stream_WriteFrames_spec g ws); [done..|eauto|eauto|].
  intros r ws' w' -> Hr Hp H'. rewrite (proj2 (Z.eqb_neq _ _) Hp). cbn [negb].
  apply (wp_alive_or_dead _ (λ w'', (r = OK ∧ Live (to_write g ws') w'') ∨ Live (wr g false ws') w'')); [|
    |intros; by apply wp_ret].
  { apply (on_write_done_spec g ws'); [done|by split|done|done|auto|auto].
    intros -> w'' H''. apply wp_ret. by left. }
  intros w'' [[-> H'']|H'']; apply (wp_bind_this _ _ _ _ H'').
  - rewrite bool_decide_eq_true_2; [|destruct H'' as (_ & (Hb & _) & _); by apply bool_decide_eq_true in Hb].
    apply (IH ws'); [done|by split|cbn in Hf; lia].
  - rewrite bool_decide_eq_false_2, andb_false_r; [apply wp_ret; by exists false, ws'|].
    destruct H'' as (_ & (Hb & _) & _). by apply bool_decide_eq_false in Hb.
Qed.

Lemma WriteFrames_spec g ws w :
  Live (to_write g ws) w → writable g → wp WriteFrames (alive_or_dead (steady g)) w.
Proof.
  intros H Hg. pose proof (write_frames_loop_spec g (S (length (write_results w))) ws w H Hg) as Hw.
  destruct H as (Hc & _). open_core Hc. unfold wp, WriteFrames. apply Hw. rewrite Hws. cbn. lia.
Qed.

(** The end of a write that was pending. *)
Lemma OnWriteDone_spec g ws r w :
  Live (in_flight g ws) w → writable g → r <= 0 → r ≠ ERR_IO_PENDING →
  wp (OnWriteDone false r) (alive_or_dead (steady g)) w.
Proof.
  intros H Hg Hr Hp. apply (on_write_done_spec g ws); [done..| |].
  - intros _ w' H'. by apply (WriteFrames_spec g ws).
  - intros _ w' H'. by exists false, ws.
Qed.

(** ** Sending one frame *)

Lemma steady_state g w : steady g w → state_ (channel w) = g_state g.
Proof. intros (b & ws & H). exact (core_state _ _ H). Qed.

Lemma buffer_frames_add f b : buffer_frames (Some (AddFrame f (default init_SendBuffer b))) = buffer_frames b ++ [f].
Proof. by destruct b. Qed.

Lemma SendFrameFromIOBuffer_spec g b ws fin op buffer size w :
  Live ((wr g b ws) <| g_owed := [new_frame fin op buffer size] |>) w → writable g →
  (g_state g = CONNECTED ∨ g_state g = RECV_CLOSED) →
  wp (SendFrameFromIOBuffer fin op buffer size) (alive_or_dead (steady g)) w.
Proof.
  intros H Hg Hst. apply (wp_bind_this _ _ _ _ H). pose proof (core_state _ _ H) as E. cbn in E.
  apply wp_bind_check; [rewrite E; by destruct Hst as [-> | ->]|].
  apply wp_bind_check; [apply bool_decide_eq_true, (core_stream _ _ H), Hg|].
  cbv zeta. destruct H as (Hc & Hs & Hr). open_sending Hs.
  destruct (data_being_sent_ (channel w)) as [buf|] eqn:Eb.
  - apply wp_bind, wp_update; [by eapply core_deleted|]. apply wp_ret. exists b, ws.
    split; [exact Hc|]. split; [|exact Hr].
    split; [cbn in Hbusy |- *; by rewrite Eb|]. split; [|split; [cbn; by rewrite Eb|done]].
    cbn in Hfs |- *. rewrite Hfs.
    fold (buffer_frames (data_to_send_next_ (channel w))).
    pose proof (buffer_frames_add (new_frame fin op buffer size) (data_to_send_next_ (channel w))) as Ea.
    cbn in Ea. rewrite Ea. by rewrite app_nil_r.
  - assert (data_to_send_next_ (channel w) = None) as En.
    { destruct (data_to_send_next_ (channel w)); [|done]. by destruct Hnext as [? ?]. }
    cbn in Hbusy. assert (b = false) as -> by done.
    apply wp_bind, wp_update; [by eapply core_deleted|]. apply (WriteFrames_spec g ws); [|done].
    split; [exact Hc|]. split; [|exact Hr]. split; [done|]. split; [|split; [cbn; by rewrite En|done]].
    cbn in Hfs |- *. by rewrite Hfs, En.
Qed.

(** The Close frame that [SendClose] makes. *)
Definition close_body (code : Z) (reason : list Z) : list Z :=
  if code =? error_value kWebSocketErrorNoStatusReceived then [] else WriteBigEndian 2 code ++ reason.
Definition close_frame (code : Z) (reason : list Z) : WebSocketFrame :=
  new_frame true kOpCodeClose (Some (close_body code reason)) (Z.of_nat (length (close_body code reason))).

Definition no_close (fs : list WebSocketFrame) : Prop := Forall (λ f, is_close f = false) fs.

Lemma close_body_length code reason :
  Z.of_nat (length reason) <= kMaximumCloseReasonLength →
  Z.of_nat (length (close_body code reason)) <= kMaxControlFramePayload.
Proof.
  unfold close_body, kMaximumCloseReasonLength, kMaxControlFramePayload, kWebSocketCloseCodeLength.
  intros. case_match; cbn [length app]; [lia|]. rewrite length_app. cbn. lia.
Qed.

(** One more frame that is no data and no Pong. *)
Lemma submitted_close fs calls hd code reason :
  submitted fs calls hd → no_close fs → Z.of_nat (length reason) <= kMaximumCloseReasonLength →
  submitted (fs ++ [close_frame code reason]) calls hd.
Proof.
  intros [S1 S2 S3 S4] Hn Hl. split.
  - apply Forall_app_2; [done|]. constructor; [|done]. split; [done|]. split; [done|]. right.
    split; [done|]. split; [done|]. by apply close_body_length.
  - by apply close_is_last_snoc.
  - rewrite data_frames_app, S3. cbn. by rewrite app_nil_r.
  - rewrite List.filter_app, S4. cbn. by rewrite app_nil_r.
Qed.

(** A frame becomes owed. *)
Lemma sending_owe g g' f w :
  sending g w → g_owed g = [] →
  (g_busy g', g_unwritten g', g_calls g', g_uncalled g', g_lost g', g_fs g', g_owed g')
    = (g_busy g, g_unwritten g, g_calls g, g_uncalled g, g_lost g, g_fs g ++ [f], [f]) →
  submitted (g_fs g') (g_calls g') (g_hd g') → sending g' w.
Proof.
  intros Hs Ho [= E1 E2 E3 E4 E5 E6 E7] Hsub'. unfold sending. rewrite E1, E2, E4, E5, E7.
  open_sending Hs. split; [exact Hbusy|].
  split; [rewrite E6, Hfs, Ho; by rewrite app_nil_r, <- !app_assoc|]. rewrite E3 in Hsub' |- *.
  exact (conj Hnext (conj Hlow (conj Hhigh (conj Hq (conj Hgranted (conj Hcalls (conj Hsub' Htext))))))).
Qed.

Lemma Live_owe g b ws f w :
  Live (wr g b ws) w → submitted (g_fs g ++ [f]) (g_calls g) (g_hd g) →
  Live ((wr (g <| g_fs := g_fs g ++ [f] |>) b ws) <| g_owed := [f] |>) w.
Proof.
  intros (Hc & Hs & Hr) Hf. split; [exact Hc|]. split; [|exact Hr].
  by apply (sending_owe _ _ f _ Hs).
Qed.

Lemma SendClose_spec g code reason w :
  steady g w → writable g → (g_state g = CONNECTED ∨ g_state g = RECV_CLOSED) → no_close (g_fs g) →
  Z.of_nat (length reason) <= kMaximumCloseReasonLength →
  (code = error_value kWebSocketErrorNoStatusReceived → reason = []) →
  wp (SendClose code reason)
    (alive_or_dead (steady (g <| g_fs := g_fs g ++ [close_frame code reason] |>))) w.
Proof.
  intros (b & ws & H) Hg Hst Hn Hl Hr. apply (wp_bind_this _ _ _ _ H).
  pose proof (core_state _ _ H) as E. cbn in E.
  apply wp_bind_check; [rewrite E; by destruct Hst as [-> | ->]|].
  apply wp_bind_check; [by apply Z.leb_le|].
  apply wp_bind, (wp_mono _ (λ body w', body = close_body code reason ∧ w' = w)).
  { unfold close_body. destruct (Z.eqb_spec code (error_value kWebSocketErrorNoStatusReceived)); [|by apply wp_ret].
    apply wp_bind_check; [apply bool_decide_eq_true; auto|by apply wp_ret]. }
  intros body w' [-> ->]. apply wp_bind.
  eapply wp_mono; [eapply (SendFrameFromIOBuffer_spec _ b ws)|].
  - apply Live_owe; [exact H|]. apply submitted_close; [|done|done].
    by destruct H as (_ & (_ & _ & _ & _ & _ & _ & _ & _ & ? & _) & _).
  - exact Hg.
  - exact Hst.
  - by intros [] w' H'.
Qed.

(** Failing the channel is possible where a Close frame is. *)
Definition may_fail (g : Ghost) (code : Z) (reason : list Z) : Prop :=
  g_state g = CONNECTED →
  no_close (g_fs g) ∧ Z.of_nat (length reason) <= kMaximumCloseReasonLength ∧
  (code = error_value kWebSocketErrorNoStatusReceived → reason = []).

Lemma FailChannel_spec g message code reason w :
  steady g w → writable g → may_fail g code reason →
  wp (FailChannel message code reason) ended w.
Proof.
  intros H Hg Hm. pose proof (steady_state _ _ H) as E. destruct H as (b & ws & H).
  apply (wp_bind_this _ _ _ _ H). rewrite E. pose proof Hg as (Hst & Hcl & H1 & H2 & H3).
  do 3 (apply wp_bind_check; [by rewrite bool_decide_eq_false_2|]).
  apply (wp_alive_or_dead _ (λ w, ∃ g', g_stream g' = true ∧ g_state g' ≠ CLOSED ∧ steady g' w)).
  - case_bool_decide as Hs.
    + destruct (Hm Hs) as (Hn & Hl & Hr).
      eapply wp_mono; [apply (SendClose_spec g); [by exists b, ws|done|by left|done..]|].
      intros [] w' H'; [|done]. eexists. split; [|split; [|exact H']]; done.
    + apply wp_ret. exists g. split; [done|]. split; [done|]. by exists b, ws.
  - intros w' (g' & Hst' & Hs' & b' & ws' & H'). apply wp_bind.
    apply (wp_stream_Close _ _ _ H'); [done|]. intros w1 Hw1 _.
    apply wp_bind. eapply wp_SetState; [exact Hw1|done|]. intros w2 Hw2 _.
    eapply wp_last_event; [done|exact Hw2|]. by split.
  - intros w' Hd. by split.
Qed.

(** ** What writing leaves alone

    A method that only writes does not change the quota for receiving. *)

Definition keeps {A} (m : M A) : Prop := ∀ w a w', m w = Done (a, w') →
  current_receive_quota_ (channel w') = current_receive_quota_ (channel w).

Lemma wp_keeps {A} (m : M A) Q w : keeps m → wp m Q w →
  wp m (λ a w', Q a w' ∧ current_receive_quota_ (channel w') = current_receive_quota_ (channel w)) w.
Proof. intros Hk. specialize (Hk w). unfold wp. destruct (m w) as [[a w']|]; [|done]. eauto. Qed.

Lemma keeps_bind {A B} (m : M A) (f : A → M B) : keeps m → (∀ a, keeps (f a)) → keeps (m ≫= f).
Proof.
  intros Hm Hf w b w'. unfold mbind, M_bind. destruct (m w) as [[a w1]|] eqn:E; [|done].
  intros E'. rewrite (Hf _ _ _ _ E'). by apply (Hm _ _ _ E).
Qed.

Lemma keeps_ret {A} (a : A) : keeps (mret a).
Proof. by intros w b w' [= _ <-]. Qed.
Lemma keeps_check b : keeps (check b).
Proof. intros w a w'. unfold check. by destruct b; intros [= _ <-]. Qed.
Lemma keeps_this : keeps this.
Proof. intros w a w'. unfold this. by destruct (deleted w); intros [= _ <-]. Qed.
Lemma keeps_undefined {A} : keeps (undefined (A:=A)).
Proof. done. Qed.
Lemma keeps_update f : (∀ c, current_receive_quota_ (f c) = current_receive_quota_ c) → keeps (update f).
Proof. intros Hf w a w'. unfold update. destruct (deleted w); intros [= _ <-]. apply Hf. Qed.
Lemma keeps_event a : keeps (event a).
Proof.
  intros w s w'. unfold event. destruct (deleted w); [done|]. cbn.
  by destruct (event_results w) as [|[] rs]; intros [= _ <-].
Qed.
Lemma keeps_last_event a : keeps (last_event a).
Proof. intros w s w'. unfold last_event. by destruct (deleted w); intros [= _ <-]. Qed.
Lemma keeps_stream_Close : keeps stream_Close.
Proof. intros w s w'. unfold stream_Close. by destruct (_ || _); intros [= _ <-]. Qed.
Lemma keeps_stream_WriteFrames fs : keeps (stream_WriteFrames fs).
Proof.
  intros w s w'. unfold stream_WriteFrames. destruct (_ || _); [done|]. cbn.
  by destruct (write_results w); intros [= _ <-].
Qed.
Lemma keeps_if {A} (b : bool) (m n : M A) : keeps m → keeps n → keeps (if b then m else n).
Proof. by destruct b. Qed.

Create HintDb keeps.
#[export] Hint Resolve @keeps_ret @keeps_check @keeps_this @keeps_undefined @keeps_event @keeps_last_event
  @keeps_stream_Close @keeps_stream_WriteFrames : keeps.
#[export] Hint Extern 2 (keeps (update _)) => (apply keeps_update; intros; reflexivity) : keeps.
#[export] Hint Extern 3 (keeps (_ ≫= _)) => (apply keeps_bind; [|intros ?]) : keeps.
#[export] Hint Extern 3 (keeps (if _ then _ else _)) => (apply keeps_if) : keeps.
#[export] Hint Extern 3 (keeps (match ?x with _ => _ end)) => (destruct x) : keeps.

Lemma keeps_SetState st : keeps (SetState st).
Proof. unfold SetState. eauto 10 with keeps. Qed.
Lemma keeps_SendImmediately : keeps SendImmediately.
Proof. unfold SendImmediately. eauto 30 with keeps. Qed.
#[export] Hint Resolve keeps_SetState keeps_SendImmediately : keeps.
Lemma keeps_DoDropChannel was_clean code reason : keeps (DoDropChannel was_clean code reason).
Proof. unfold DoDropChannel. eauto 10 with keeps. Qed.
#[export] Hint Resolve keeps_DoDropChannel : keeps.
Lemma keeps_on_write_done k sync r : keeps k → keeps (on_write_done k sync r).
Proof. intros. unfold on_write_done, next_write. eauto 30 with keeps. Qed.
#[export] Hint Resolve keeps_on_write_done : keeps.
Lemma keeps_write_frames_loop fuel : keeps (write_frames_loop fuel).
Proof. induction fuel as [|fuel IH]; cbn [write_frames_loop]; eauto 30 with keeps. Qed.
Lemma keeps_WriteFrames : keeps WriteFrames.
Proof. intros w. apply keeps_write_frames_loop. Qed.
#[export] Hint Resolve keeps_WriteFrames : keeps.
Lemma keeps_OnWriteDone sync r : keeps (OnWriteDone sync r).
Proof. unfold OnWriteDone. eauto with keeps. Qed.
Lemma keeps_SendFrameFromIOBuffer fin op buffer size : keeps (SendFrameFromIOBuffer fin op buffer size).
Proof. unfold SendFrameFromIOBuffer. eauto 30 with keeps. Qed.
#[export] Hint Resolve keeps_SendFrameFromIOBuffer keeps_OnWriteDone : keeps.
Lemma keeps_SendClose code reason : keeps (SendClose code reason).
Proof. unfold SendClose. eauto 30 with keeps. Qed.
#[export] Hint Resolve keeps_SendClose : keeps.
