(* ===== verification/WebSocketChannelRead.v ===== *)
(** * The methods of a channel that read

    A frame that is handled adds to the messages, and the renderer is sent the same messages
    in pieces that its quota allows. *)

From S2P Require Import Prelude WebSocketFrame WebSocketFrameParser WebSocketBasicStream WebSocketMessages Utf8Validator WebSocketChannelState WebSocketChannel WebSocketChannelLog WebSocketChannelInvariant WebSocketChannelWrite.
Import Channel.

(** ** The UTF-8 of text messages *)

Definition is_text (op : OpCode) (text : bool) : bool :=
  (op =? kOpCodeText) || ((op =? kOpCodeContinuation) && text).

(** What a channel does with its validator and its flag when a piece passes. *)
Definition checked (op : OpCode) (fin : bool) (b : list Z) (v : StreamingUtf8Validator) (text : bool)
    (v' : StreamingUtf8Validator) (text' : bool) : Prop :=
  if is_text op text then
    ∃ r, AddBytes b v = Done (r, v') ∧ r ≠ INVALID ∧ (r = VALID_MIDPOINT → fin = false) ∧
         text' = negb fin
  else v' = v ∧ text' = text.

Lemma has_read_endpoint s v : has_read s v → result_of (utf8_state_ v) = VALID_ENDPOINT → has_read [] v.
Proof.
  intros (_ & Hv & _) E. split; [constructor|]. split; [done|]. unfold result_of in E.
  destruct (Z.eqb_spec (utf8_state_ v) 0) as [->|]; [done|by case_match].
Qed.

Lemma AddBytes_read s b v r v' : has_read s v → Forall byte_ok b → AddBytes b v = Done (r, v') →
  has_read (s ++ b) v' ∧ r = result_of (utf8_state_ v').
Proof.
  intros Hs Hb E. destruct (AddBytes_has_read s b v Hs Hb) as (v1 & E1 & H1).
  rewrite E1 in E. by injection E as <- <-.
Qed.

(** A text message goes on, or ends. *)
Lemma text_read s b v v' fin r :
  has_read s v → Forall byte_ok b → AddBytes b v = Done (r, v') → r ≠ INVALID →
  (r = VALID_MIDPOINT → fin = false) →
  if fin : bool then utf8 (s ++ b) ∧ has_read [] v' else has_read (s ++ b) v'.
Proof.
  intros Hs Hb E Hi Hm. destruct (AddBytes_read s b v r v' Hs Hb E) as [H ->].
  destruct fin; [|done]. assert (result_of (utf8_state_ v') = VALID_ENDPOINT) as Ee.
  { destruct (result_of (utf8_state_ v')); [done|by discriminate Hm|done]. }
  split; [by apply (result_valid _ v')|by eapply has_read_endpoint].
Qed.

(** A piece of a message, on a session. *)
Lemma deliver_data_piece st h b st' :
  IsKnownDataOpCode (opcode h) = true → deliver_frame (Some st) (h, b) = Some st' →
  ∃ start bytes,
    (if opcode h =? kOpCodeContinuation then st.2 = Some (start, bytes)
     else st.2 = None ∧ start = start_of h ∧ bytes = []) ∧
    st' = if final h then (st.1 ++ [DataMessage start (bytes ++ b)], None)
          else (st.1, Some (start, bytes ++ b)).
Proof.
  destruct st as [ms open]. unfold deliver_frame. cbn [mbind option_bind fst snd]. intros Hd.
  rewrite (data_not_control _ Hd), Hd.
  destruct (opcode h =? kOpCodeContinuation).
  - destruct open as [[start bytes]|]; [|done]. cbn. intros [= <-]. exists start, bytes. split; [done|].
    by destruct (final h).
  - destruct open; [done|]. cbn. intros [= <-]. exists (start_of h), []. split; [done|].
    by destruct (final h).
Qed.

Lemma text_step st h b st' v v' text text' :
  IsKnownDataOpCode (opcode h) = true → Forall byte_ok b →
  deliver_frame (Some st) (h, b) = Some st' →
  checked (opcode h) (final h) b v text v' text' →
  text_session st v text → text_session st' v' text'.
Proof.
  intros Hd Hb Hst Hc [Ht Ho]. destruct (deliver_data_piece st h b st' Hd Hst) as (start & bytes & Hs & ->).
  unfold checked, is_text in Hc.
  assert (if start.1.1.1 =? kOpCodeText
          then has_read bytes v ∧ ∃ r, AddBytes b v = Done (r, v') ∧ r ≠ INVALID ∧
                 (r = VALID_MIDPOINT → final h = false) ∧ text' = negb (final h)
          else v' = v ∧ text' = false ∧ has_read [] v) as Hkind.
  { destruct (Z.eqb_spec (opcode h) kOpCodeContinuation) as [E|E].
    - rewrite E in Hc. change (kOpCodeContinuation =? kOpCodeText) with false in Hc. cbn [orb andb] in Hc.
      rewrite Hs in Ho. destruct start as [[[op r1] r2] r3]. cbn.
      destruct (op =? kOpCodeText); destruct Ho as [-> Ho]; [done|]. by destruct Hc as [-> ->].
    - destruct Hs as (Hn & -> & ->). rewrite Hn in Ho. destruct Ho as [-> Ho]. rewrite andb_false_r, orb_false_r in Hc.
      cbn. destruct (opcode h =? kOpCodeText); [done|]. by destruct Hc as [-> ->]. }
  destruct start as [[[op r1] r2] r3]. cbn in Hkind. destruct (Z.eqb_spec op kOpCodeText) as [->|Hne].
  - destruct Hkind as (Hr & r & E & Hi & Hm & ->). pose proof (text_read _ _ _ _ _ _ Hr Hb E Hi Hm) as H.
    destruct (final h); cbn; [|by split].
    destruct H as [Hu Hv]. split; [|by split]. apply Forall_app_2; [done|].
    constructor; [by intros _|constructor].
  - destruct Hkind as (-> & -> & Hr). destruct (final h); cbn.
    + split; [|by split]. apply Forall_app_2; [done|]. constructor; [intros E; by destruct Hne|constructor].
    + split; [done|]. cbn. rewrite (proj2 (Z.eqb_neq _ _) Hne). by split.
Qed.

(** ** From frames to pieces *)

Lemma piece_deliver st fin op b :
  deliver_frame st (piece_content (fin, op, b)) =
  deliver_frame st ((new_WebSocketFrameHeader op) <| final := fin |> <| payload_length := Z.of_nat (length b) |>, b).
Proof. done. Qed.

(** A piece may be cut in two. *)
Lemma piece_session_split ps fin op b1 b2 :
  IsKnownDataOpCode op = true →
  piece_session (ps ++ [(false, op, b1); (fin, kOpCodeContinuation, b2)])
    = piece_session (ps ++ [(fin, op, b1 ++ b2)]).
Proof.
  intros Hd%data_not_control. rewrite cons_middle, app_assoc, !piece_session_snoc.
  unfold piece_content. cbn [fst snd].
  destruct (piece_session ps) as [[ms open]|]; [|done]. unfold deliver_frame. cbn. rewrite Hd.
  destruct (op =? kOpCodeContinuation); cbn.
  - destruct open as [[start bytes]|]; [|done]. cbn. by destruct fin; rewrite app_assoc.
  - destruct (IsKnownDataOpCode op); [|done]. destruct open as [[start bytes]|]; [done|]. cbn. by destruct fin.
Qed.

(** The opcode that the renderer gets. *)
Definition opcode_to_send (op : OpCode) (fwd text : bool) : OpCode :=
  if negb fwd && (op =? kOpCodeContinuation)
  then if text then kOpCodeText else kOpCodeBinary
  else op.

Lemma opcode_to_send_data op fwd text :
  IsKnownDataOpCode op = true → IsKnownDataOpCode (opcode_to_send op fwd text) = true.
Proof. intros H. unfold opcode_to_send. by destruct (_ && _), text. Qed.

(** What a data frame of the stream must be to be handled. *)
Definition good_data (f : WebSocketFrame) : Prop :=
  is_data f = true ∧ reserved1 (frame_header f) = false ∧ reserved2 (frame_header f) = false ∧
  reserved3 (frame_header f) = false.

Section DataFrame.

Context (hd : list WebSocketFrame) (ps : list piece) (fwd exp text text' : bool).
Context (v v' : StreamingUtf8Validator) (f : WebSocketFrame).
Let op := opcode (frame_header f).
Let fin := final (frame_header f).
Let b := default [] (frame_data f).
Context (Ha : assembled hd ps fwd exp v text) (Hf : good_data f) (Hb : Forall byte_ok b).
Context (Hexp : (op =? kOpCodeContinuation) = exp) (Hc : checked op fin b v text v' text').

(** The session behind the frame. *)
Lemma session_next ms open :
  open_ok fwd exp open → text_session (ms, open) v text →
  ∃ start bytes,
    deliver_frame (Some (ms, open)) (content f)
      = Some (if fin then (ms ++ [DataMessage start (bytes ++ b)], None)
              else (ms, Some (start, bytes ++ b))) ∧
    (start = (kOpCodeText, false, false, false) ∨ start = (kOpCodeBinary, false, false, false)) ∧
    (if op =? kOpCodeContinuation then open = Some (start, bytes) ∧ (fwd = false → bytes = [])
     else open = None ∧ fwd = false ∧ bytes = [] ∧ start = (op, false, false, false)).
Proof.
  destruct Hf as (Hd & R1 & R2 & R3). pose proof (data_not_control _ Hd) as Hn. fold op in Hn. unfold is_data in Hd.
  intros Ho _. unfold content, deliver_frame. cbn [mbind option_bind]. fold op fin b. rewrite Hn, Hexp.
  destruct exp; cbn in Ho.
  - destruct open as [[start bytes]|]; [|by destruct Ho]. destruct Ho as (_ & Hs & Hw).
    exists start, bytes. cbn. by destruct fin.
  - destruct open as [[start bytes]|]; [by destruct Ho|]. destruct Ho as [_ ->].
    exists (op, false, false, false), []. fold op in Hd. rewrite Hd. cbn.
    unfold start_of. fold op. rewrite R1, R2, R3. split; [by destruct fin|]. split; [|done].
    apply data_opcodes in Hd as [E|[-> | ->]]; [|by left|by right]. rewrite E in Hexp. discriminate.
Qed.

Lemma text_next st st' : text_session st v text →
  deliver_frame (Some st) (content f) = Some st' → text_session st' v' text'.
Proof. intros Ht Hst. destruct Hf as (Hd & _). by apply (text_step st _ _ st' v v' text text' Hd Hb Hst Hc). Qed.

(** An empty piece that is not the last of its message is not passed on. *)
Lemma assembled_empty : b = [] → fin = false → assembled (hd ++ [f]) ps fwd true v' text'.
Proof.
  intros Eb Ef. destruct Ha as (ms & open & E1 & E2 & Ho & Ht).
  destruct (session_next ms open Ho Ht) as (start & bytes & E & Hs & Hk).
  pose proof (text_next _ _ Ht E) as Ht'. rewrite Ef in E, Ht'. exists ms, (Some (start, bytes ++ b)).
  rewrite data_session_snoc, (proj1 Hf), E1. split; [done|]. rewrite Eb, app_nil_r in *.
  destruct (op =? kOpCodeContinuation).
  - destruct Hk as [-> Hw]. by repeat (split; [done|]).
  - destruct Hk as (-> & -> & -> & _). by repeat (split; [done|]).
Qed.

(** Any other is. *)
Lemma assembled_piece :
  assembled (hd ++ [f]) (ps ++ [(fin, opcode_to_send op fwd text, b)]) (negb fin) (negb fin) v' text'.
Proof.
  destruct Ha as (ms & open & E1 & E2 & Ho & Ht).
  destruct (session_next ms open Ho Ht) as (start & bytes & E & Hs & Hk).
  pose proof (text_next _ _ Ht E) as Ht'.
  assert (deliver_frame (Some (ms, heard fwd open)) (piece_content (fin, opcode_to_send op fwd text, b))
    = Some (if fin then (ms ++ [DataMessage start (bytes ++ b)], None)
            else (ms, Some (start, bytes ++ b)))) as Ep.
  { unfold piece_content, deliver_frame, opcode_to_send. cbn [mbind option_bind fst snd].
    destruct (Z.eqb_spec op kOpCodeContinuation) as [Eo|Eo].
    - rewrite andb_true_r. destruct Hk as [-> Hw]. destruct fwd; cbn.
      + rewrite Eo. cbn. by destruct fin.
      + rewrite (Hw eq_refl). destruct Ht as [_ Ht].
        destruct Hs as [-> | ->]; cbn in Ht; destruct Ht as [-> _]; cbn; by destruct fin.
    - rewrite andb_false_r. destruct Hk as (-> & -> & -> & ->). cbn. destruct Hf as (Hd & _).
      unfold is_data in Hd. fold op in Hd. rewrite (data_not_control _ Hd), Hd, (proj2 (Z.eqb_neq _ _) Eo). cbn. by destruct fin. }
  destruct fin.
  - exists (ms ++ [DataMessage start (bytes ++ b)]), None.
    rewrite data_session_snoc, (proj1 Hf), E1, piece_session_snoc, E2. by repeat (split; [done|]).
  - exists ms, (Some (start, bytes ++ b)).
    rewrite data_session_snoc, (proj1 Hf), E1, piece_session_snoc, E2. by repeat (split; [done|]).
Qed.
End DataFrame.

(** ** Passing a piece on *)

Lemma buffer_bytes_done data n : 0 < n <= data_size data →
  buffer_bytes data n = Done (take (Z.to_nat n) (default [] data)).
Proof.
  unfold data_size, buffer_bytes. destruct data as [bytes|]; cbn; [|lia]. intros.
  by rewrite (proj2 (Z.leb_le _ _)) by lia.
Qed.

Lemma wp_read_buffer data n Q w : 0 <= n <= data_size data →
  Q (take (Z.to_nat n) (default [] data)) w →
  wp (if n =? 0 then mret [] else lift (buffer_bytes data n)) Q w.
Proof.
  intros Hn HQ. destruct (Z.eqb_spec n 0) as [->|]; [by apply wp_ret|].
  eapply wp_lift; [apply buffer_bytes_done; lia|done].
Qed.

Definition receive_quotas (g : Ghost) (w : World) : Prop :=
  0 <= current_receive_quota_ (channel w) < 18446744073709551616 ∧
  (0 <= g_extra g ∧
   allowance (log w) = sizes (forwarded (log w)) + current_receive_quota_ (channel w) + g_extra g) ∧
  (pending_received_frames_ (channel w) ≠ [] → current_receive_quota_ (channel w) = 0) ∧
  Forall pending_ok (pending_received_frames_ (channel w)) ∧
  frames_read (log w) = g_hd g ++ g_unhandled g.

(** The messages in [w] with the pieces [more] and the flag [fwd]. *)
Definition assembled_with (g : Ghost) (more : list piece) (fwd : bool) (w : World) : Prop :=
  assembled (g_hd g) (forwarded (log w) ++ waiting_pieces (channel w) ++ more) fwd
    (expecting_to_handle_continuation_ (channel w)) (incoming_utf8_validator_ (channel w))
    (receiving_text_message_ (channel w)).

Lemma receiving_quotas g w : g_lost g = false →
  receiving g w ↔ receive_quotas g w ∧ assembled_with g [] (initial_frame_forwarded_ (channel w)) w.
Proof. intros Hl. unfold receiving, receive_quotas, assembled_with. rewrite app_nil_r, Hl. tauto. Qed.

Lemma sizes_single p : sizes [p] = piece_size p.
Proof. cbn. lia. Qed.

Section Forward.

Context (g : Ghost) (ots : OpCode) (final : bool) (data : option (list Z)) (w : World).
Context (Hots : IsKnownDataOpCode ots = true) (Hlen : data_size data <= INT64_MAX).
Context (Hlost : g_lost g = false) (Hcore : core g w) (Hsend : sending g w) (Hquotas : receive_quotas g w).
Context (Hfwd : initial_frame_forwarded_ (channel w) = negb final).
Let size := data_size data.
Let b := default [] data.
Context (Hass : assembled_with g [(final, ots, b)] (negb final) w).
Let quota := current_receive_quota_ (channel w).

Definition queued (opcode : OpCode) : PendingReceivedFrame :=
  {| final_ := final; opcode_ := opcode; pending_data_ := data; offset_ := quota; size_ := size |}.

Lemma size_nonneg : 0 <= size.
Proof. unfold size, data_size. lia. Qed.

Lemma queued_ok op : IsKnownDataOpCode op = true → quota <= size → pending_ok (queued op).
Proof. intros Ho Hq. destruct Hquotas as (H & _). split; [|done]. fold quota in H. cbn. lia. Qed.

(** Without quota, the whole piece waits. *)
Lemma queue_all : quota = 0 →
  Live g (w <| channel := (channel w) <| pending_received_frames_ :=
                pending_received_frames_ (channel w) ++ [queued ots] |> |>).
Proof.
  intros Hq. split; [exact Hcore|]. split; [exact Hsend|]. apply receiving_quotas; [exact Hlost|].
  destruct Hquotas as (Q1 & Q2 & Q3 & Q4 & Q5). split.
  - split; [exact Q1|]. split; [exact Q2|]. split; [done|]. split; [|exact Q5].
    apply Forall_app_2; [done|]. constructor; [|constructor]. apply queued_ok; [done|]. pose proof size_nonneg. lia.
  - cbn [channel set_field]. unfold assembled_with in *. cbn. rewrite Hfwd.
    unfold waiting_pieces in *. cbn. rewrite app_nil_r, map_app. cbn. unfold pending_piece at 2. cbn.
    rewrite Hq. exact Hass.
Qed.

(** With less quota than the piece needs, its front goes out and the rest waits. *)
Lemma forward_front : pending_received_frames_ (channel w) = [] → 0 < quota < size →
  Live g (w <| channel := (channel w)
                 <| pending_received_frames_ := pending_received_frames_ (channel w) ++ [queued kOpCodeContinuation] |>
                 <| current_receive_quota_ := u64 (quota - quota) |> |>
            <| log := OnDataFrame false ots (take (Z.to_nat quota) b) :: log w |>).
Proof.
  intros Hp Hq. split; [exact Hcore|]. split; [exact Hsend|]. apply receiving_quotas; [exact Hlost|].
  destruct Hquotas as (Q1 & Q2 & Q3 & Q4 & Q5). rewrite Hp, Z.sub_diag. split.
  - split; [done|]. split.
    { cbn. rewrite sizes_app, sizes_single. fold quota in Q2. unfold piece_size. cbn.
      rewrite length_take.
      unfold size, data_size in Hq. fold b in Hq. change (u64 0) with 0. lia. }
    split; [done|]. split; [|exact Q5]. constructor; [|constructor]. apply queued_ok; [done|]. lia.
  - unfold assembled_with in *. cbn. rewrite Hfwd. unfold waiting_pieces in *. cbn. rewrite Hp in Hass. cbn in Hass.
    destruct Hass as (ms & open & E1 & E2 & H). exists ms, open. split; [exact E1|]. split; [|exact H].
    rewrite <- app_assoc. cbn. unfold pending_piece. cbn. fold b.
    rewrite piece_session_split by done. by rewrite take_drop.
Qed.

(** With enough, all of it goes out. *)
Lemma forward_all : pending_received_frames_ (channel w) = [] → size <= quota →
  Live g (w <| channel := (channel w) <| current_receive_quota_ := u64 (quota - size) |> |>
            <| log := OnDataFrame final ots b :: log w |>).
Proof.
  intros Hp Hq. split; [exact Hcore|]. split; [exact Hsend|]. apply receiving_quotas; [exact Hlost|].
  destruct Hquotas as (Q1 & Q2 & Q3 & Q4 & Q5). fold quota in Q1, Q2, Q3. pose proof size_nonneg. split.
  - unfold receive_quotas. cbn. rewrite u64_small by lia. split; [lia|]. split.
    { rewrite sizes_app, sizes_single. unfold piece_size, size, data_size. cbn. fold b. lia. }
    split; [by rewrite Hp|]. by split.
  - unfold assembled_with in *. cbn. rewrite Hfwd. unfold waiting_pieces in *. cbn. rewrite Hp in Hass |- *.
    cbn in Hass |- *. by rewrite app_nil_r.
Qed.
End Forward.

Lemma forward_data_frame_spec g ots final data w :
  IsKnownDataOpCode ots = true → data_size data <= INT64_MAX →
  g_lost g = false → core g w → sending g w → receive_quotas g w →
  assembled_with g [(final, ots, default [] data)] (negb final) w →
  wp (forward_data_frame ots final data (data_size data)) (alive_or_dead (Live g)) w.
Proof.
  intros Hots Hlen Hlost Hc Hs Hq Ha. apply wp_bind, wp_update; [by eapply core_deleted|].
  set (w1 := w <| channel := (channel w) <| initial_frame_forwarded_ := negb final |> |>).
  assert (core g w1) as Hc1 by exact Hc. assert (sending g w1) as Hs1 by exact Hs.
  assert (receive_quotas g w1) as Hq1 by exact Hq.
  assert (assembled_with g [(final, ots, default [] data)] (negb final) w1) as Ha1 by exact Ha.
  assert (initial_frame_forwarded_ (channel w1) = negb final) as Hf1 by done.
  clearbody w1. clear w Hc Hs Hq Ha. rename w1 into w.
  pose proof (core_deleted _ _ Hc1) as Hd. apply wp_bind, wp_this; [done|]. cbv zeta.
  pose proof Hq1 as (Q1 & Q2 & Q3 & Q4 & Q5).
  assert (0 <= data_size data) by (unfold data_size; lia).
  destruct (decide (current_receive_quota_ (channel w) < data_size data ∨
                    pending_received_frames_ (channel w) ≠ [])) as [Hqueue|Hno].
  - assert ((current_receive_quota_ (channel w) <? data_size data) ||
            negb (bool_decide (pending_received_frames_ (channel w) = [])) = true) as ->.
    { apply orb_true_iff. rewrite Z.ltb_lt, negb_true_iff, bool_decide_eq_false. tauto. }
    cbn [andb]. destruct (Z.eqb_spec (current_receive_quota_ (channel w)) 0) as [E0|E0]; cbn [orb].
    + apply wp_bind, wp_bind_check; [done|]. apply wp_update; [done|]. apply wp_ret.
      by apply (queue_all g ots final data w).
    + destruct (decide (pending_received_frames_ (channel w) = [])) as [Ep|Ep]; [|by destruct E0; auto].
      destruct Hqueue as [Hqueue|]; [|done].
      apply wp_bind, wp_bind_check; [by rewrite Ep|]. apply wp_update; [done|].
      apply wp_bind. eapply wp_lift; [apply buffer_bytes_done; lia|]. apply wp_bind, wp_update; [done|].
      eapply (wp_event_live g); [done| |by intros|by intros].
      apply (forward_front g ots final data w); auto. lia.
  - assert ((current_receive_quota_ (channel w) <? data_size data) ||
            negb (bool_decide (pending_received_frames_ (channel w) = [])) = false) as ->.
    { apply orb_false_iff. rewrite Z.ltb_ge, negb_false_iff, bool_decide_eq_true. split; [lia|].
      destruct (pending_received_frames_ (channel w)); [done|]. by destruct Hno; right. }
    cbn [andb]. apply wp_bind_ret. apply wp_bind, wp_read_buffer; [lia|].
    rewrite (take_ge (default [] data)) by (unfold data_size; lia).
    apply wp_bind, wp_update; [done|]. eapply (wp_event_live g); [done| |by intros|by intros].
    apply (forward_all g ots final data w); auto; [|lia].
    destruct (pending_received_frames_ (channel w)); [done|]. by destruct Hno; right.
Qed.

(** ** Data frames *)

(** The states in which frames are handled, [rest] of which are still to be. *)
Definition phase (g : Ghost) (rest : list WebSocketFrame) : Prop :=
  writable g ∧ (g_lost g = false ∧ g_extra g = 0) ∧
  match g_state g with
  | CONNECTED => no_close (g_fs g) ∧ g_timer g = false ∧ g_unhandled g = rest ∧ g_uncalled g = []
  | SEND_CLOSED | CLOSE_WAIT => g_timer g = true
  | _ => False
  end.

Lemma phase_lost g rest : phase g rest → g_lost g = false.
Proof. by intros (_ & [H _] & _). Qed.

(** The order of the states. *)
Definition rank (s : State) : nat :=
  match s with
  | FRESHLY_CONSTRUCTED => 0 | CONNECTING => 1 | CONNECTED => 2 | SEND_CLOSED => 3
  | RECV_CLOSED => 4 | CLOSE_WAIT => 5 | CLOSED => 6
  end.

(** Frames were handled. *)
Definition moved (g g' : Ghost) (rest : list WebSocketFrame) : Prop :=
  phase g' rest ∧ g_reading g' = g_reading g ∧ g_read_frames g' = g_read_frames g ∧
  g_reads g' = g_reads g ∧ (rank (g_state g) <= rank (g_state g'))%nat.

(** What a method that handles frames ensures. *)
Definition handles (g : Ghost) (rest : list WebSocketFrame) (s : ChannelState) (w : World) : Prop :=
  alive_or_dead (λ w, ∃ g', moved g g' rest ∧ steady g' w) s w.

Lemma ended_handles g rest s w : ended s w → handles g rest s w.
Proof. apply ended_or. Qed.

(** Failing, from a channel that may have met an error in a message. *)
Lemma fail_handles g rest message code reason w :
  steady g w → writable g → (g_state g = CONNECTED → no_close (g_fs g)) →
  Z.of_nat (length reason) <= kMaximumCloseReasonLength →
  code ≠ error_value kWebSocketErrorNoStatusReceived →
  ∀ g0, wp (FailChannel message code reason) (handles g0 rest) w.
Proof.
  intros H Hg Hn Hl Hc g0. eapply wp_mono; [apply (FailChannel_spec g); [done..|]|].
  - intros Hs. split; [auto|]. split; [done|]. by intros ?.
  - intros s w'. apply ended_handles.
Qed.

(** The ghost state behind a data frame. *)
Definition data_handled (g : Ghost) (f : WebSocketFrame) (rest : list WebSocketFrame) : Ghost :=
  g <| g_hd := g_hd g ++ [f] |> <| g_unhandled := rest |>.

Lemma data_handled_moved g f rest :
  phase g (f :: rest) → g_state g = CONNECTED → moved g (data_handled g f rest) rest.
Proof.
  intros (Hw & Hl & Hp) Hs. rewrite Hs in Hp. destruct Hp as (Hn & Ht & Hu & Hc).
  split; [|by repeat (split; [done|])]. split; [exact Hw|]. split; [exact Hl|]. cbn. by rewrite Hs.
Qed.

Lemma pongs_for_data hd f : is_data f = true → pongs_for (hd ++ [f]) = pongs_for hd.
Proof.
  intros Hd. unfold pongs_for. rewrite List.filter_app, map_app. cbn.
  assert (is_ping f = false) as ->; [|by rewrite app_nil_r].
  unfold is_ping. unfold is_data in Hd. by apply data_opcodes in Hd as [-> | [-> | ->]].
Qed.

Lemma sending_data_handled g b ws f rest w :
  is_data f = true → sending (wr g b ws) w → sending (wr (data_handled g f rest) b ws) w.
Proof.
  intros Hd Hs. open_sending Hs. destruct Hsub as [S1 S2 S3 S4].
  assert (submitted (g_fs g) (g_calls g) (g_hd g ++ [f])) as Hsub.
  { split; [done..|]. transitivity (pongs_for (g_hd g)); [exact S4|]. symmetry. by apply pongs_for_data. }
  exact (conj Hbusy (conj Hfs (conj Hnext (conj Hlow (conj Hhigh (conj Hq (conj Hgranted (conj Hcalls
    (conj Hsub Htext))))))))).
Qed.

Lemma receive_quotas_handled g b ws f rest w :
  g_unhandled g = f :: rest → receive_quotas (wr g b ws) w → receive_quotas (wr (data_handled g f rest) b ws) w.
Proof.
  intros Hu (Q1 & Q2 & Q3 & Q4 & Q5). repeat (split; [done|]). cbn in Q5 |- *.
  by rewrite Q5, Hu, <- app_assoc.
Qed.

(** A channel in which a data frame has failed. *)
Lemma Live_lost g b ws w f : Live (wr g b ws) w →
  Live (wr (g <| g_lost := true |>) b ws) (w <| channel := (channel w)
    <| expecting_to_handle_continuation_ := f.1 |> <| incoming_utf8_validator_ := f.2 |> |>).
Proof. intros H. exact (Live_lose _ _ H). Qed.

(** The channel behind the checks of a data frame. *)
Definition checked_channel (fin : bool) (v : StreamingUtf8Validator) (text : bool) (c : WebSocketChannel) :
    WebSocketChannel :=
  c <| expecting_to_handle_continuation_ := negb fin |> <| incoming_utf8_validator_ := v |>
    <| receiving_text_message_ := text |>.

Lemma assembled_validator hd ps fwd exp v text : assembled hd ps fwd exp v text → ∃ x, has_read x v.
Proof.
  intros (ms & open & _ & _ & _ & _ & H). destruct open as [[[[[op r1] r2] r3] bytes]|]; cbn in H.
  - destruct (op =? kOpCodeText); destruct H as [_ H]; eauto.
  - destruct H as [_ H]. eauto.
Qed.

Lemma Live_assembled g b ws w : Live (wr g b ws) w → g_lost g = false →
  assembled_with g [] (initial_frame_forwarded_ (channel w)) w.
Proof. intros (_ & _ & Hr) Hl. exact (proj2 (proj1 (receiving_quotas (wr g b ws) w Hl) Hr)). Qed.

Section Checked.

Context (g : Ghost) (b : bool) (ws : list Z) (f : WebSocketFrame) (rest : list WebSocketFrame) (w : World).
Context (H : Live (wr g b ws) w) (Hp : phase g (f :: rest)) (Hs : g_state g = CONNECTED).
Context (Hf : stream_frame_ok f) (Hgood : good_data f).
Let op := opcode (frame_header f).
Let fin := final (frame_header f).
Let bytes := default [] (frame_data f).
Let c := channel w.
Context (Hexp : (op =? kOpCodeContinuation) = expecting_to_handle_continuation_ c).
Context (v : StreamingUtf8Validator) (text : bool).
Context (Hc : checked op fin bytes (incoming_utf8_validator_ c) (receiving_text_message_ c) v text).
Let w' := w <| channel := checked_channel fin v text c |>.

Lemma checked_core : core (wr (data_handled g f rest) b ws) w'.
Proof. destruct H as (H' & _). exact H'. Qed.

Lemma checked_sending : sending (wr (data_handled g f rest) b ws) w'.
Proof.
  destruct H as (_ & H' & _). pose proof (sending_data_handled g b ws f rest w (proj1 Hgood) H') as Hs'. exact Hs'.
Qed.

Lemma checked_unhandled : g_unhandled g = f :: rest.
Proof. destruct Hp as (_ & _ & Hph). rewrite Hs in Hph. tauto. Qed.

Lemma checked_quotas : receive_quotas (wr (data_handled g f rest) b ws) w'.
Proof.
  destruct H as (_ & _ & H'). apply receiving_quotas in H' as [H' _]; [|exact (phase_lost g _ Hp)].
  pose proof (receive_quotas_handled g b ws f rest w checked_unhandled H') as Hq. exact Hq.
Qed.

Lemma checked_ghost : steady (data_handled g f rest) w' → handles g rest CHANNEL_ALIVE w'.
Proof. intros Hst. exists (data_handled g f rest). split; [|done]. by apply data_handled_moved. Qed.

(** A frame that is nothing. *)
Lemma skip_spec : bytes = [] → fin = false → handles g rest CHANNEL_ALIVE w'.
Proof.
  intros Eb Ef. apply checked_ghost. exists b, ws. split; [exact checked_core|]. split; [exact checked_sending|].
  apply receiving_quotas; [exact (phase_lost g _ Hp)|]. split; [exact checked_quotas|].
  pose proof (Live_assembled g b ws w H (phase_lost g _ Hp)) as Ha. unfold assembled_with in *.
  pose proof (assembled_empty _ _ _ _ _ text _ v f Ha Hgood (proj2 (proj2 (proj2 Hf))) Hexp Hc Eb Ef) as Ha'.
  cbn. by rewrite Ef.
Qed.

Lemma pass_spec :
  wp (forward_data_frame (opcode_to_send op (initial_frame_forwarded_ c) (receiving_text_message_ c)) fin
        (frame_data f) (data_size (frame_data f))) (handles g rest) w'.
Proof.
  eapply wp_mono; [eapply (forward_data_frame_spec (wr (data_handled g f rest) b ws))|].
  - apply opcode_to_send_data, Hgood.
  - apply Hf.
  - apply Hp.
  - exact checked_core.
  - exact checked_sending.
  - exact checked_quotas.
  - pose proof (Live_assembled g b ws w H (phase_lost g _ Hp)) as Ha. unfold assembled_with in *.
    pose proof (assembled_piece _ _ _ _ _ text _ v f Ha Hgood (proj2 (proj2 (proj2 Hf))) Hexp Hc) as Ha'.
    rewrite app_nil_r, <- app_assoc in Ha'. exact Ha'.
  - intros [] w1 H1; [|exact H1]. exists (data_handled g f rest). split; [by apply data_handled_moved|].
    by exists b, ws.
Qed.

Lemma tail_spec :
  wp (if (data_size (frame_data f) =? 0) && negb fin then mret CHANNEL_ALIVE
      else forward_data_frame (opcode_to_send op (initial_frame_forwarded_ c) (receiving_text_message_ c)) fin
             (frame_data f) (data_size (frame_data f))) (handles g rest) w'.
Proof.
  destruct (_ && _) eqn:E; [|exact pass_spec]. apply andb_true_iff in E as [E0%Z.eqb_eq E1%negb_true_iff].
  apply wp_ret, skip_spec; [|done]. unfold data_size in E0. unfold bytes. by destruct (default [] (frame_data f)).
Qed.
End Checked.

Lemma HandleDataFrame_spec g b ws f rest w :
  Live (wr g b ws) w → phase g (f :: rest) → stream_frame_ok f → good_data f →
  g_state g ≠ CLOSE_WAIT →
  wp (HandleDataFrame (opcode (frame_header f)) (final (frame_header f)) (frame_data f)
        (payload_length (frame_header f))) (handles g rest) w.
Proof.
  intros H Hp Hf Hgood Hcw. pose proof Hf as (_ & Elen & Hlen & Hb). rewrite Elen.
  apply (wp_bind_this _ _ _ _ H). pose proof (core_state _ _ H) as Es. cbn in Es. rewrite Es.
  pose proof Hp as (Hw & Hl & Hph). case_bool_decide as Hs; cbn [negb].
  2: { apply wp_ret. exists g. split; [|by exists b, ws]. split; [|by repeat (split; [done|])].
       split; [exact Hw|]. split; [exact Hl|]. by destruct (g_state g). }
  rewrite Hs in Hph. destruct Hph as (Hn & Ht & Hu & Hcalled).
  apply wp_bind_check; [pose proof (proj1 Hgood) as Hd; apply data_opcodes in Hd; by destruct Hd as [-> | [-> | ->]]|].
  set (op := opcode (frame_header f)). set (fin := final (frame_header f)).
  destruct (Bool.eqb _ _) eqn:Econt; cbn [negb].
  2: { apply (fail_handles g); [by exists b, ws|done|done| |done].
       destruct (op =? kOpCodeContinuation); done. }
  apply eqb_prop in Econt.
  destruct (assembled_validator _ _ _ _ _ _ (Live_assembled g b ws w H (proj1 Hl))) as [x Hx].
  apply (wp_bind_update _ _ _ _ _ H). cbv zeta. fold (is_text op (receiving_text_message_ (channel w))).
  destruct (is_text op (receiving_text_message_ (channel w))) eqn:Etext.
  - destruct (AddBytes_has_read x _ _ Hx Hb) as (v & Ev & Hv).
    set (r := result_of (utf8_state_ v)) in *. apply wp_bind, wp_bind, wp_read_buffer; [unfold data_size; lia|].
    rewrite take_ge by (unfold data_size; lia). apply wp_bind. eapply wp_lift; [exact Ev|].
    pose proof (Live_lost g b ws w (negb fin, v) H) as Hlost.
    apply wp_bind, wp_update; [exact (Live_deleted _ _ H)|]. apply wp_ret. cbn [fst snd].
    destruct (bool_decide (Some r = Some INVALID) || _) eqn:Ebad.
    { eapply (fail_handles (g <| g_lost := true |>)); [by exists b, ws|done|done|done|done]. }
    apply orb_false_iff in Ebad as [Ei%bool_decide_eq_false Em%andb_false_iff].
    assert (r = VALID_MIDPOINT → fin = false) as Em'.
    { intros Er. destruct Em as [Em%bool_decide_eq_false|]; [by rewrite Er in Em|done]. }
    rewrite bool_decide_eq_true_2 by done. cbn match.
    apply wp_bind, wp_bind, wp_update; [exact (Live_deleted _ _ H)|]. apply wp_check.
    { destruct fin; [|done]. apply bool_decide_eq_true. destruct r; [done|by specialize (Em' eq_refl)|done]. }
    apply (tail_spec g b ws f rest w H Hp Hs Hf Hgood Econt).
    unfold checked. fold op. rewrite Etext. exists r. split; [done|]. split; [by intros ->|]. by split.
  - apply wp_bind, wp_ret. rewrite bool_decide_eq_false_2, bool_decide_eq_false_2 by done. cbn [orb andb].
    rewrite bool_decide_eq_false_2 by by intros []. apply wp_bind_ret.
    apply (tail_spec g b ws f rest w H Hp Hs Hf Hgood Econt).
    unfold checked. fold op. by rewrite Etext.
Qed.

(** ** Close frames *)

Lemma steady_deleted g w : steady g w → deleted w = false.
Proof. intros (b & ws & H). by eapply Live_deleted. Qed.

Lemma wp_SetState_steady g st Q w :
  steady g w → g_state g ≠ st → (∀ w', steady (g <| g_state := st |>) w' → Q tt w') → wp (SetState st) Q w.
Proof.
  intros (b & ws & H) Hne HQ. apply (wp_SetState _ _ _ _ H); [done|]. intros w' H' _. apply HQ. by exists b, ws.
Qed.

Lemma wp_this_steady {B} g (k : WebSocketChannel → M B) Q w :
  steady g w → wp (k (channel w)) Q w → wp (this ≫= k) Q w.
Proof. intros H ?. apply wp_bind, wp_this; [by eapply steady_deleted|done]. Qed.

Lemma wp_event_steady g a Q w :
  neutral a = true → steady g w → (∀ w', steady g w' → Q CHANNEL_ALIVE w') →
  (∀ w', Dead w' → Q CHANNEL_DELETED w') → wp (event a) Q w.
Proof.
  intros Hn (b & ws & H) HQ. eapply wp_event_neutral; [done|exact H|]. intros w' _ H'. apply HQ. by exists b, ws.
Qed.

(** The timer is started or stopped. *)
Lemma steady_timer g w d : steady g w →
  steady (g <| g_timer := bool_decide (is_Some d) |>) (w <| channel := (channel w) <| close_timer_ := d |> |>).
Proof.
  intros (b & ws & Hc & Hs & Hr). exists b, ws. split; [|by split]. open_core Hc.
  by repeat (split; [done|]).
Qed.

(** The close code is kept. *)
Lemma steady_received g w code reason : steady g w →
  steady g (w <| channel := (channel w) <| has_received_close_frame_ := true |>
                   <| received_close_code_ := code |> <| received_close_reason_ := reason |> |>).
Proof. exact id. Qed.

Definition closing (g : Ghost) (fs : list WebSocketFrame) : Ghost :=
  g <| g_fs := fs |> <| g_state := CLOSE_WAIT |> <| g_timer := true |>.

Lemma closing_moved g fs rest rest' :
  phase g rest → g_state g = CONNECTED ∨ g_state g = SEND_CLOSED → moved g (closing g fs) rest'.
Proof.
  intros ((H1 & H2 & _) & Hl & Hp) Hs. split; [by repeat (split; [done|])|]. repeat (split; [done|]).
  cbn. destruct Hs as [-> | ->]; cbn; lia.
Qed.

Lemma receive_close_spec g code reason rest rest' w :
  steady g w → phase g rest → g_state g = CONNECTED ∨ g_state g = SEND_CLOSED →
  Z.of_nat (length reason) <= kMaximumCloseReasonLength →
  (code = error_value kWebSocketErrorNoStatusReceived → reason = []) →
  wp (receive_close code reason) (handles g rest') w.
Proof.
  intros H Hp Hst Hl Hr. apply (wp_this_steady g); [done|]. cbv zeta. rewrite (steady_state _ _ H).
  pose proof Hp as ((H1 & H2 & H3 & H4 & H5) & Hlo & Hph).
  assert (∀ w, steady g w → close_timer_is_running (channel w) = g_timer g) as Htimer.
  { intros w0 (b & ws & (_ & _ & _ & _ & _ & _ & Et & _) & _). exact Et. }
  destruct Hst as [Hs|Hs]; rewrite Hs in Hph |- *.
  - destruct Hph as (Hn & Ht & _). apply wp_bind. apply (wp_SetState_steady g); [done|by rewrite Hs|].
    intros w1 Hw1. eapply wp_alive_or_dead; [|clear w1 Hw1|intros; by apply wp_ret].
    { eapply SendClose_spec; [exact Hw1| |by right|exact Hn|exact Hl|exact Hr].
      split; [exact H1|]. split; [exact H2|]. done. }
    intros w2 Hw2. apply (wp_this_steady _ _ _ _ Hw2). rewrite (steady_state _ _ Hw2).
    apply wp_bind_check; [done|]. apply wp_bind. eapply wp_SetState_steady; [exact Hw2|done|].
    intros w3 Hw3. apply wp_bind_check.
    { destruct Hw2 as (b & ws & (_ & _ & _ & _ & _ & _ & Et & _) & _). cbn in Et. by rewrite Et, Ht. }
    apply wp_bind, wp_update; [by eapply steady_deleted|].
    apply (steady_timer _ _ (Some (underlying_connection_close_timeout_ (channel w3)))) in Hw3.
    apply (wp_alive_or_dead _ (steady (closing g (g_fs g ++ [close_frame code reason])))); [| |intros; by apply wp_ret].
    { eapply wp_event_steady; [done|exact Hw3| |done]. intros w4 Hw4. exact Hw4. }
    intros w4 Hw4. apply wp_bind, wp_update; [by eapply steady_deleted|]. apply wp_ret.
    eexists. split; [|by apply steady_received]. by eapply closing_moved; [exact Hp|left].
  - apply wp_bind. apply (wp_SetState_steady g); [done|by rewrite Hs|]. intros w1 Hw1.
    apply wp_bind_check; [by rewrite (Htimer w H), Hph|].
    apply wp_bind, wp_update; [by eapply steady_deleted|]. apply (steady_timer _ _ None) in Hw1.
    apply wp_bind, wp_update; [by eapply steady_deleted|].
    apply (steady_timer _ _ (Some (underlying_connection_close_timeout_ (channel w1)))) in Hw1.
    apply wp_bind, wp_update; [by eapply steady_deleted|]. apply wp_ret. exists (closing g (g_fs g)). 
    split; [by eapply closing_moved; [exact Hp|right]|]. by apply steady_received.
Qed.

(** The code and the reason that [ParseClose] gives may be sent back. *)
Lemma ParseClose_spec data size :
  size = data_size data → size <= kMaxControlFramePayload → Forall byte_ok (default [] data) →
  ∃ ok code reason message, ParseClose data size = Done (ok, code, reason, message) ∧
    Z.of_nat (length reason) <= kMaximumCloseReasonLength ∧
    (code = error_value kWebSocketErrorNoStatusReceived → reason = []) ∧
    (ok = false → code = error_value kWebSocketErrorProtocolError).
Proof.
  intros -> Hs Hb. unfold ParseClose, kWebSocketCloseCodeLength.
  destruct (Z.ltb_spec (data_size data) 2); [destruct (_ =? 0); by eexists _, _, _, _|].
  rewrite buffer_bytes_done by lia. cbn [mbind outcome_bind]. rewrite take_ge by (unfold data_size; lia).
  destruct (_ || _) eqn:Ebad; [by eexists _, _, _, _|].
  destruct (Validate_spec (drop 2 (default [] data))) as (valid & Ev & _); [by apply Forall_drop|].
  change (Z.to_nat 2) with 2%nat. rewrite Ev. cbn [mbind outcome_bind].
  destruct valid; eexists _, _, _, _; (split; [reflexivity|]); [|done].
  split; [|split; [|done]].
  - rewrite length_drop. unfold data_size in *. unfold kMaximumCloseReasonLength, kMaxControlFramePayload in *.
    unfold kWebSocketCloseCodeLength. lia.
  - intros E. rewrite E in Ebad. discriminate.
Qed.

(** ** Control frames *)

Lemma receiving_handled g b ws f rest w :
  is_data f = false → g_lost g = false → g_unhandled g = f :: rest →
  receiving (wr g b ws) w → receiving (wr (data_handled g f rest) b ws) w.
Proof.
  intros Hd Hl Hu Hr. apply receiving_quotas in Hr as [Hq Ha]; [|exact Hl].
  apply receiving_quotas; [exact Hl|]. split; [by apply receive_quotas_handled|].
  destruct Ha as (ms & open & E1 & Ha). exists ms, open. split; [|exact Ha].
  transitivity (data_session (g_hd g ++ [f])); [done|]. by rewrite data_session_snoc, Hd.
Qed.

Lemma ignore_spec g b ws f rest w :
  Live (wr g b ws) w → phase g (f :: rest) → is_data f = false →
  (g_state g = CONNECTED → is_ping f = false) → handles g rest CHANNEL_ALIVE w.
Proof.
  intros (Hc & Hs & Hr) Hp Hd Hping. pose proof Hp as (Hw & Hl & Hph).
  destruct (decide (g_state g = CONNECTED)) as [Hst|Hst].
  - exists (data_handled g f rest). split; [by apply data_handled_moved|]. exists b, ws.
    rewrite Hst in Hph. destruct Hph as (_ & _ & Hu & _).
    split; [exact Hc|]. split; [|exact (receiving_handled g b ws f rest w Hd (proj1 Hl) Hu Hr)].
    open_sending Hs. destruct Hsub as [S1 S2 S3 S4].
    assert (submitted (g_fs g) (g_calls g) (g_hd g ++ [f])) as Hsub.
    { split; [done..|]. unfold pongs_for. rewrite List.filter_app. cbn. rewrite (Hping Hst), app_nil_r. exact S4. }
    exact (conj Hbusy (conj Hfs (conj Hnext (conj Hlow (conj Hhigh (conj Hq (conj Hgranted (conj Hcalls
      (conj Hsub Htext))))))))).
  - exists g. split; [|by exists b, ws]. split; [|by repeat (split; [done|])].
    split; [exact Hw|]. split; [exact Hl|]. by destruct (g_state g).
Qed.

(** The ghost state behind a Ping. *)
Definition ping_handled (g : Ghost) (f : WebSocketFrame) (rest : list WebSocketFrame) : Ghost :=
  (data_handled g f rest) <| g_fs := g_fs g ++ [pong_frame f] |>.

Lemma submitted_pong fs calls hd f :
  is_ping f = true → stream_frame_ok f → submitted fs calls hd → no_close fs →
  submitted (fs ++ [pong_frame f]) calls (hd ++ [f]).
Proof.
  intros Hp (Hk & Hl & _) [S1 S2 S3 S4] Hn. split.
  - apply Forall_app_2; [done|]. constructor; [|constructor]. split; [done|]. split; [done|]. right.
    split; [done|]. split; [done|]. apply Hk. unfold is_ping in Hp. apply Z.eqb_eq in Hp. by rewrite Hp.
  - intros before x after E Hc. destruct after as [|a after _] using rev_ind; [done|]. exfalso.
    rewrite app_comm_cons, app_assoc in E. apply app_inj_tail in E as [-> _].
    apply Forall_app in Hn as [_ Hn]. apply Forall_cons_1 in Hn as [Hn _]. congruence.
  - rewrite data_frames_app, S3. cbn. by rewrite app_nil_r.
  - unfold pongs_for. rewrite !List.filter_app, S4, map_app. cbn. by rewrite Hp.
Qed.

Lemma is_ping_not_data f : is_ping f = true → is_data f = false.
Proof. unfold is_ping, is_data. by intros ->%Z.eqb_eq. Qed.

Lemma Live_ping g b ws f rest w :
  Live (wr g b ws) w → phase g (f :: rest) → g_state g = CONNECTED → is_ping f = true → stream_frame_ok f →
  Live ((wr (ping_handled g f rest) b ws) <| g_owed := [pong_frame f] |>) w.
Proof.
  intros (Hc & Hs & Hr) (Hw & Hl & Hph) Hst Hping Hf. rewrite Hst in Hph. destruct Hph as (Hn & _ & Hu & _).
  split; [by eapply core_ext; [|exact Hc]|].
  split; [|eapply receiving_ext;
    [|exact (receiving_handled g b ws f rest w (is_ping_not_data f Hping) (proj1 Hl) Hu Hr)]; reflexivity].
  apply (sending_owe _ _ (pong_frame f) _ Hs); [reflexivity..|]. open_sending Hs. by apply submitted_pong.
Qed.

Lemma ping_moved g f rest :
  phase g (f :: rest) → g_state g = CONNECTED → moved g (ping_handled g f rest) rest.
Proof.
  intros Hp Hst. destruct (data_handled_moved g f rest Hp Hst) as ((Hw & Hl & Hph) & Hm). split; [|exact Hm].
  split; [exact Hw|]. split; [exact Hl|]. cbn in Hph |- *. rewrite Hst in Hph |- *.
  split; [|apply Hph]. apply Forall_app_2; [apply Hph|]. by constructor.
Qed.

Lemma ping_spec g b ws f rest w :
  Live (wr g b ws) w → phase g (f :: rest) → g_state g = CONNECTED → is_ping f = true → stream_frame_ok f →
  wp (SendFrameFromIOBuffer true kOpCodePong (frame_data f) (payload_length (frame_header f))) (handles g rest) w.
Proof.
  intros H Hp Hst Hping Hf. pose proof (ping_moved g f rest Hp Hst) as Hm.
  eapply wp_mono; [apply (SendFrameFromIOBuffer_spec (ping_handled g f rest) b ws)|].
  - by apply Live_ping.
  - apply Hm.
  - by left.
  - intros [] w' H'; [|exact H']. by exists (ping_handled g f rest).
Qed.

(** ** Any frame *)

Lemma phase_not_closed g rest : phase g rest → g_state g ≠ RECV_CLOSED ∧ g_state g ≠ CLOSED.
Proof. intros (_ & _ & H). by destruct (g_state g). Qed.

Lemma phase_no_close g rest : phase g rest → g_state g = CONNECTED → no_close (g_fs g).
Proof. intros (_ & _ & H) E. rewrite E in H. tauto. Qed.

Lemma HandleFrameByState_spec g f rest w :
  steady g w → phase g (f :: rest) → stream_frame_ok f →
  reserved1 (frame_header f) = false → reserved2 (frame_header f) = false →
  reserved3 (frame_header f) = false →
  wp (HandleFrameByState (opcode (frame_header f)) (final (frame_header f)) (frame_data f)
        (payload_length (frame_header f))) (handles g rest) w.
Proof.
  intros H Hp Hf R1 R2 R3. apply (wp_this_steady g); [done|]. rewrite (steady_state _ _ H).
  pose proof (phase_not_closed g _ Hp) as [Hn1 Hn2]. pose proof (phase_no_close g _ Hp) as Hnc.
  pose proof Hp as (Hw & Hl & Hph).
  apply wp_bind_check; [by rewrite bool_decide_eq_false_2|].
  apply wp_bind_check; [by rewrite bool_decide_eq_false_2|].
  assert (∀ message reason w, steady g w → Z.of_nat (length reason) <= kMaximumCloseReasonLength →
    wp (FailChannel message (error_value kWebSocketErrorProtocolError) reason) (handles g rest) w) as Hfail.
  { intros message reason w' H' Hr. by apply (fail_handles g). }
  case_bool_decide as Hcw; [by apply Hfail|].
  destruct H as (b & ws & H). destruct (IsKnownDataOpCode (opcode (frame_header f))) eqn:Hd.
  { by apply (HandleDataFrame_spec g b ws). }
  destruct (opcode (frame_header f) =? kOpCodePing) eqn:Eping.
  { case_bool_decide as Hst; [by apply (ping_spec g b ws)|]. apply wp_ret. by apply (ignore_spec g b ws f). }
  destruct (opcode (frame_header f) =? kOpCodePong) eqn:Epong.
  { apply wp_ret. by apply (ignore_spec g b ws f). }
  destruct (Z.eqb_spec (opcode (frame_header f)) kOpCodeClose) as [Eclose|]; [|apply Hfail; [by exists b, ws|done]].
  destruct Hf as (Hk & Hlen & _ & Hb). destruct Hk as [_ Hk]; [by rewrite Eclose|].
  destruct (ParseClose_spec _ _ Hlen Hk Hb) as (ok & code & reason & message & E & Hr1 & Hr2 & Hr3).
  apply wp_bind. eapply wp_lift; [exact E|]. cbv beta iota. destruct ok; cbn [negb].
  - apply (receive_close_spec g code reason (f :: rest)); [by exists b, ws|done| |done|done].
    destruct (g_state g); try done; auto.
  - rewrite (Hr3 eq_refl). apply Hfail; [by exists b, ws|done].
Qed.

Lemma HandleFrame_spec g f rest w :
  steady g w → phase g (f :: rest) → stream_frame_ok f → wp (HandleFrame f) (handles g rest) w.
Proof.
  intros H Hp Hf. pose proof (phase_no_close g _ Hp) as Hnc. pose proof Hp as (Hw & _).
  unfold HandleFrame. cbv zeta. destruct (masked _); [by apply (fail_handles g)|].
  apply wp_bind_check.
  { destruct (IsKnownControlOpCode _) eqn:E; [|done]. by apply Hf in E as [-> _]. }
  destruct (_ || reserved3 _) eqn:E; [by apply (fail_handles g)|].
  apply orb_false_iff in E as [[R1 R2]%orb_false_iff R3]. by apply HandleFrameByState_spec.
Qed.

Lemma moved_trans g g1 g2 rest rest' : moved g g1 rest → moved g1 g2 rest' → moved g g2 rest'.
Proof.
  intros (_ & E1 & E2 & E3 & H1) (Hp & F1 & F2 & F3 & H2). split; [done|].
  repeat (split; [congruence|]). lia.
Qed.

Lemma moved_refl g rest : phase g rest → moved g g rest.
Proof. intros H. by repeat (split; [done|]). Qed.

Lemma handle_frames_spec fs : ∀ g w,
  steady g w → phase g fs → Forall stream_frame_ok fs → wp (handle_frames fs) (handles g []) w.
Proof.
  induction fs as [|f fs IH]; intros g w H Hp Hf; cbn [handle_frames].
  { apply wp_ret. exists g. split; [by apply moved_refl|done]. }
  apply Forall_cons_1 in Hf as [Hf Hfs].
  eapply wp_alive_or_dead; [by apply HandleFrame_spec| |intros; by apply wp_ret].
  intros w1 (g1 & Hm & H1). eapply wp_mono; [apply (IH g1 w1 H1); [apply Hm|done]|].
  intros [] w2 H2; [|exact H2]. destruct H2 as (g2 & Hm2 & H2). exists g2. split; [|done]. by eapply moved_trans.
Qed.

(** ** Reads *)

(** The ghost state when a read at once gave [frames]. *)
Definition frames_given (g : Ghost) (r : Z) (frames : list WebSocketFrame)
    (reads : list (Z * list WebSocketFrame)) : Ghost :=
  g <| g_reads := reads |> <| g_read_frames := frames |>
    <| g_unhandled := g_unhandled g ++ (if r =? OK then frames else []) |>.
Definition read_waits (g : Ghost) (reads : list (Z * list WebSocketFrame)) : Ghost :=
  g <| g_reading := true |> <| g_reads := reads |>.

Lemma frames_given_receiving g b ws r frames reads w w' :
  receiving (wr g b ws) w → receiving_fields (channel w') = receiving_fields (channel w) →
  log w' = StreamReadFrames r frames :: log w →
  receiving (wr (frames_given g r frames reads) b ws) w'.
Proof.
  intros Hr Hc El. pose proof Hr as (_ & _ & _ & _ & Hu & _).
  apply (receiving_transfer _ _ _ _ Hr); [reflexivity|exact Hc|by rewrite El|]. rewrite El. cbn in Hu |- *.
  destruct (r =? OK); rewrite Hu; [by rewrite <- app_assoc|by rewrite app_nil_r].
Qed.

Lemma stream_ReadFrames_spec g Q w :
  steady g w → g_stream g = true → g_closed g = false → g_reading g = false → g_read_frames g = [] →
  (∀ reads w', steady (read_waits g reads) w' → channel w' = channel w → Forall read_ok reads →
     Q ERR_IO_PENDING w') →
  (∀ r frames reads w', g_reads g = (r, frames) :: reads → r ≠ ERR_IO_PENDING → read_ok (r, frames) →
     steady (frames_given g r frames reads) w' → Q r w') →
  wp stream_ReadFrames Q w.
Proof.
  intros (b & ws & Hc & Hs & Hr) Hst Hcl Hrd Hrf HQ1 HQ2. unfold wp, stream_ReadFrames.
  destruct Hc as (Hdel & Hstate & Hstream & Hclosed & Hreading & Hwriting & Htimer & Hrfs & Hws & Hwok & Hrs & Hrok).
  cbn in Hstream, Hclosed, Hreading, Hrfs, Hrs, Hrok.
  rewrite Hdel, Hstream, Hst, Hreading, Hrd, Hclosed, Hcl, Hrfs, Hrf. cbn [orb negb bool_decide decide_rel].
  rewrite bool_decide_eq_true_2 by done. cbn [negb]. rewrite Hrs.
  destruct (g_reads g) as [|[r frames] reads] eqn:Er.
  - apply (HQ1 []); [|done|done]. exists b, ws. split; [|by split]. by repeat (split; [done|]).
  - apply Forall_cons_1 in Hrok as [Hr0 Hrok]. cbv zeta.
    destruct (decide (r = ERR_IO_PENDING)) as [Ep|Ep];
      [rewrite (bool_decide_eq_true_2 _ Ep) | rewrite (bool_decide_eq_false_2 _ Ep)].
    + subst r. apply (HQ1 reads); [|done|done]. exists b, ws. split; [|by split]. by repeat (split; [done|]).
    + apply (HQ2 r frames reads); [done..|]. exists b, ws.
      split; [by repeat (split; [done|])|]. split; [exact Hs|by apply (frames_given_receiving g b ws r frames reads w)].
Qed.

(** A read is done. *)
Definition read_over (g : Ghost) (w : World) : Prop :=
  ∃ g', phase g' [] ∧ g_reading g' = g_reading g ∧ g_read_frames g' = [] ∧ g_reads g' = g_reads g ∧
    (rank (g_state g) <= rank (g_state g'))%nat ∧ steady g' w.

Lemma steady_read_frames g w : steady g w →
  steady (g <| g_read_frames := [] |>) (w <| channel := (channel w) <| read_frames_ := [] |> |>).
Proof.
  intros (b & ws & Hc & Hs & Hr). exists b, ws. split; [|by split]. open_core Hc. by repeat (split; [done|]).
Qed.

Lemma on_read_done_spec g k sync r P w :
  steady g w → phase g (if r =? OK then g_read_frames g else []) →
  r ≠ ERR_IO_PENDING → read_ok (r, g_read_frames g) →
  (r = OK → ∀ w', read_over g w' → wp (if negb sync then k else mret CHANNEL_ALIVE) (alive_or_dead P) w') →
  wp (on_read_done k sync r) (alive_or_dead P) w.
Proof.
  intros H Hp Hr [Hle Hok] Hk. cbn [fst snd] in *. apply (wp_this_steady g); [done|].
  rewrite (steady_state _ _ H). pose proof Hp as ((Hst & Hcl & H1 & H2 & H3) & _ & _).
  apply wp_bind_check; [by rewrite bool_decide_eq_false_2|].
  apply wp_bind_check; [by rewrite bool_decide_eq_false_2|].
  apply wp_bind_check; [by apply negb_true_iff, Z.eqb_neq|].
  assert (read_frames_ (channel w) = g_read_frames g) as Erf.
  { destruct H as (b & ws & (_ & _ & _ & _ & _ & _ & _ & E & _) & _). exact E. }
  destruct (Z.eqb_spec r OK) as [->|Hne].
  - destruct (Hok eq_refl) as [Hnil Hfs]. rewrite Erf.
    apply wp_bind_check; [by rewrite bool_decide_eq_false_2|].
    eapply wp_alive_or_dead; [by apply (handle_frames_spec (g_read_frames g) g)| |intros; by apply wp_ret].
    intros w1 (g1 & ((Hw1 & Hl1 & Hp1) & E1 & E2 & E3 & E4) & Hs1).
    apply wp_bind, wp_update; [by eapply steady_deleted|].
    apply steady_read_frames in Hs1. apply (wp_this_steady _ _ _ _ Hs1). rewrite (steady_state _ _ Hs1).
    apply wp_bind_check.
    { rewrite bool_decide_eq_false_2; [done|]. apply Hw1. }
    apply Hk; [done|]. exists (g1 <| g_read_frames := [] |>). by repeat (split; [done|]).
  - destruct (r =? ERR_WS_PROTOCOL_ERROR).
    + eapply wp_mono; [apply (FailChannel_spec g); [done|apply Hp|]|intros s w'; apply ended_or].
      intros Hs. split; [by eapply phase_no_close|]. done.
    + apply wp_bind_check; [apply Z.ltb_lt; unfold OK in Hne; lia|].
      destruct H as (b & ws & H). apply wp_bind. apply (wp_stream_Close _ _ _ H); [done|]. intros w1 H1' _.
      apply wp_bind. eapply wp_SetState; [exact H1'|done|]. intros w2 H2' _.
      apply (wp_bind_this _ _ _ _ H2').
      destruct (has_received_close_frame_ _); (eapply wp_mono; [by eapply DoDropChannel_spec|intros s w'; apply ended_or]).
Qed.

(** Between calls a read is pending exactly if there is quota. *)
Definition read_settled (g : Ghost) (w : World) : Prop :=
  ∃ g', phase g' [] ∧ g_read_frames g' = [] ∧ (rank (g_state g) <= rank (g_state g'))%nat ∧
    g_reading g' = (0 <? current_receive_quota_ (channel w)) ∧ steady g' w.

Lemma read_loop_pending g w fuel P :
  steady g w → P w → wp (read_frames_loop (S fuel) ERR_IO_PENDING) (alive_or_dead P) w.
Proof. intros H HP. apply (wp_this_steady g); [done|]. by apply wp_ret. Qed.

(** The tail of the body of the loop. *)
Lemma read_loop_tail g w fuel r Q :
  steady g w → g_state g ≠ CLOSED → wp (read_frames_loop fuel r) Q w →
  wp (c ← this; check (negb (bool_decide (state_ c = CLOSED))) ;; read_frames_loop fuel r) Q w.
Proof.
  intros H Hs Hk. apply (wp_this_steady g); [done|]. rewrite (steady_state _ _ H).
  by apply wp_bind_check; [rewrite bool_decide_eq_false_2|].
Qed.

Lemma phase_waits g reads rest : phase g rest → phase (read_waits g reads) rest.
Proof. exact id. Qed.

Lemma phase_given g r frames reads :
  phase g [] → phase (frames_given g r frames reads) (if r =? OK then frames else []).
Proof.
  intros (Hw & Hl & Hp). split; [exact Hw|]. split; [exact Hl|]. cbn. destruct (g_state g); try done.
  destruct Hp as (H1 & H2 & H3 & H4). split; [done|]. split; [done|]. by rewrite H3.
Qed.

Lemma read_frames_loop_spec fuel : ∀ g w,
  steady g w → phase g [] → g_reading g = false → g_read_frames g = [] →
  (S (length (g_reads g)) < fuel)%nat →
  wp (read_frames_loop fuel OK) (alive_or_dead (read_settled g)) w.
Proof.
  induction fuel as [|fuel IH]; intros g w H Hp Hr Hrf Hf; [lia|].
  pose proof Hp as ((Hst & Hcl & _ & _ & Hnc) & _).
  apply (wp_this_steady g); [done|]. change (OK =? OK) with true. cbn [andb].
  destruct (0 <? current_receive_quota_ (channel w)) eqn:Eq.
  2: { apply wp_ret. exists g. by rewrite Hr, Eq. }
  apply wp_bind. apply (stream_ReadFrames_spec g); [done..| |].
  - intros reads w1 H1 Ec Hok. apply wp_bind_ret. rewrite (bool_decide_eq_false_2) by done.
    apply (read_loop_tail _ _ _ _ _ H1); [done|]. destruct fuel as [|fuel]; [lia|].
    apply (read_loop_pending _ _ _ _ H1). exists (read_waits g reads). rewrite Ec, Eq. by repeat (split; [done|]).
  - intros r frames reads w1 Er Hne Hok H1. rewrite (proj2 (Z.eqb_neq _ _) Hne). cbn [negb].
    pose proof (phase_given g r frames reads Hp) as Hp1.
    apply (wp_alive_or_dead _ (λ w', r = OK ∧ read_over (frames_given g r frames reads) w'));
      [| |intros; by apply wp_ret].
    { apply (on_read_done_spec (frames_given g r frames reads)); [exact H1|exact Hp1|exact Hne|exact Hok|].
      intros Hr0 w2 H2. apply wp_ret. by split. }
    intros w2 [-> (g2 & Hp2 & E1 & E2 & E3 & Hk & H2)].
    apply (read_loop_tail _ _ _ _ _ H2); [apply Hp2|].
    eapply wp_mono; [apply (IH g2 w2 H2 Hp2); [by rewrite E1|done|]|].
    + rewrite E3. cbn. rewrite Er in Hf. cbn in Hf. lia.
    + intros [] w3 H3; [|exact H3]. destruct H3 as (g3 & Hp3 & F1 & F2 & F3 & H3). exists g3.
      split; [done|]. split; [done|]. split; [cbn in Hk; lia|done].
Qed.

Lemma ReadFrames_spec g w :
  steady g w → phase g [] → g_reading g = false → g_read_frames g = [] →
  wp ReadFrames (alive_or_dead (read_settled g)) w.
Proof.
  intros H Hp Hr Hrf. pose proof (read_frames_loop_spec (S (S (length (read_results w)))) g w H Hp Hr Hrf) as Hl.
  unfold wp, ReadFrames. apply Hl. destruct H as (b & ws & (_ & _ & _ & _ & _ & _ & _ & _ & _ & _ & E & _) & _).
  rewrite E. cbn. lia.
Qed.

(** The end of a read that was pending. *)
Lemma OnReadDone_spec g r w :
  steady g w → phase g (if r =? OK then g_read_frames g else []) → g_reading g = false →
  r ≠ ERR_IO_PENDING → read_ok (r, g_read_frames g) →
  wp (OnReadDone false r) (alive_or_dead (read_settled g)) w.
Proof.
  intros H Hp Hr Hne Hok. apply (on_read_done_spec g); [done..|].
  intros -> w1 (g1 & Hp1 & E1 & E2 & E3 & Hk & H1). cbn [negb].
  eapply wp_mono; [apply (ReadFrames_spec g1 w1 H1 Hp1); [by rewrite E1|done]|].
  intros [] w2 H2; [|exact H2]. destruct H2 as (g2 & Hp2 & F1 & F2 & F3 & H2). exists g2.
  split; [done|]. split; [done|]. split; [lia|done].
Qed.
