(* ===== verification/WebSocketChannelCalls.v ===== *)
(** * The calls that enter a channel

    The methods of the owner, those of the opening handshake, and the ends of operations,
    each between two states in which the channel is at rest: from one such state a call
    leads to another, never to an earlier one, or it leaves the channel deleted. *)

From S2P Require Import Prelude WebSocketFrame WebSocketFrameParser WebSocketBasicStream WebSocketMessages Utf8Validator WebSocketChannelState WebSocketChannel WebSocketChannelLog WebSocketChannelInvariant WebSocketChannelWrite WebSocketChannelRead.
Import Channel.

(** ** Between calls *)

(** Before the connection nothing has happened. *)
Definition fresh (g : Ghost) (w : World) : Prop :=
  g_stream g = false ∧ g_timer g = false ∧ g_fs g = [] ∧ g_calls g = [] ∧ g_uncalled g = [] ∧
  g_hd g = [] ∧ g_unhandled g = [] ∧ data_being_sent_ (channel w) = None ∧ g_reading g = false ∧
  current_send_quota_ (channel w) = 0 ∧ pending_received_frames_ (channel w) = [].

Definition connected (g : Ghost) (w : World) : Prop :=
  g_stream g = true ∧ g_reading g = (0 <? current_receive_quota_ (channel w)).

Definition settled (g : Ghost) (w : World) : Prop :=
  g_closed g = false ∧ g_lost g = false ∧ g_extra g = 0 ∧ g_read_frames g = [] ∧
  match g_state g with
  | FRESHLY_CONSTRUCTED | CONNECTING => fresh g w
  | CONNECTED => connected g w ∧ no_close (g_fs g) ∧ g_timer g = false ∧ g_unhandled g = [] ∧ g_uncalled g = []
  | SEND_CLOSED | CLOSE_WAIT => connected g w ∧ g_timer g = true
  | _ => False
  end.

(** The channel is alive, in state [r] or a later one. *)
Definition alive_from (r : nat) (w : World) : Prop :=
  ∃ g, settled g w ∧ steady g w ∧ (r <= rank (g_state g))%nat.
Definition fine (r : nat) (w : World) : Prop := Dead w ∨ alive_from r w.
Definition Inv (w : World) : Prop := fine 0 w.

Lemma init_World_Inv : Inv init_World.
Proof.
  right. exists {| g_state := FRESHLY_CONSTRUCTED; g_stream := false; g_closed := false; g_reading := false;
    g_writing := false; g_timer := false; g_busy := false; g_unwritten := false; g_fs := []; g_owed := [];
    g_calls := []; g_uncalled := []; g_hd := []; g_unhandled := []; g_read_frames := []; g_writes := [];
    g_reads := []; g_lost := false; g_extra := 0 |}.
  split; [by repeat (split; [done|])|]. split; [|done]. exists false, []. split; [|split].
  - repeat (split; [done|]). constructor.
  - split; [done|]. split; [done|]. split; [by intros []|]. do 5 (split; [done|]). split.
    + split; [constructor| |done|done]. intros before f after E. by destruct before.
    + intros _. split; [exists []; apply has_read_nil|]. intros st [= <-].
      split; [constructor|]. split; [done|apply has_read_nil].
  - split; [done|]. do 3 (split; [done|]). split; [done|]. exists [], None. do 3 (split; [done|]).
    split; [constructor|]. split; [done|apply has_read_nil].
Qed.

(** What a settled channel is to the methods that read. *)
Lemma settled_phase g w : settled g w → g_state g ≠ FRESHLY_CONSTRUCTED → g_state g ≠ CONNECTING → phase g [].
Proof.
  intros (H1 & H2 & H3 & H4 & H5) Hf Hc.
  destruct (g_state g) eqn:E; try done; destruct H5 as ((Hst & Hr) & H5).
  all: split; [repeat (split; [done|]); rewrite E; done|]; split; [done|]; rewrite E; tauto.
Qed.

(** After a method that read. *)
Lemma read_settled_fine g w r :
  read_settled g w → (r <= rank (g_state g))%nat → fine r w.
Proof.
  intros (g' & Hp & Hrf & Hk & Hr & H) Hle. right. exists g'. split; [|split; [done|lia]].
  destruct Hp as ((Hst & Hcl & Hw) & [Hl He] & Hp). repeat (split; [done|]).
  destruct (g_state g'); try done; (split; [by split|done]).
Qed.

(** After a method that did not read. *)
Lemma phase_fine g w r :
  phase g [] → g_read_frames g = [] → g_reading g = (0 <? current_receive_quota_ (channel w)) →
  steady g w → (r <= rank (g_state g))%nat → fine r w.
Proof. intros Hp Hrf Hr H Hle. apply (read_settled_fine g); [|done]. by exists g. Qed.

(** ** A call enters *)

(** Calls that the functions of the log do not count. *)
Definition uncounted (c : Call) : bool :=
  match c with
  | CallSendFrame _ _ _ | CallSendFlowControl _ | CallOnReadDone _ _ => false
  | _ => true
  end.

(** The world with the call logged and the answers at hand. *)
Definition announce (c : Call) (a : Answers) (w : World) : World :=
  w <| log := Called c :: log w |> <| write_results := writes a |> <| read_results := reads a |>
    <| event_results := events a |>.
Definition answered (g : Ghost) (a : Answers) : Ghost := g <| g_reads := reads a |>.

Lemma core_announce g b ws c a w :
  core (wr g b ws) w → answers_ok a → core (wr (answered g a) b (writes a)) (announce c a w).
Proof.
  intros Hc [Ha1 Ha2]. open_core Hc. by repeat (split; [done|]).
Qed.

Lemma uncounted_log c l : uncounted c = true →
  frames_read (Called c :: l) = frames_read l ∧ pieces_sent (Called c :: l) = pieces_sent l ∧
  allowance (Called c :: l) = allowance l.
Proof. by destruct c. Qed.

Lemma steady_announce g c a w :
  uncounted c = true → steady g w → answers_ok a → steady (answered g a) (announce c a w).
Proof.
  intros Hu (b & ws & Hc & Hs & Hr) Ha. exists b, (writes a). split; [by apply (core_announce g b ws)|].
  destruct (uncounted_log c (log w) Hu) as (E1 & E2 & E3). split.
  - unfold sending in *. change (log (announce c a w)) with (Called c :: log w). rewrite E2. exact Hs.
  - unfold receiving in *. change (log (announce c a w)) with (Called c :: log w). rewrite E1, E3. exact Hr.
Qed.

Lemma settled_announce g c a w : settled g w → settled (answered g a) (announce c a w).
Proof. exact id. Qed.

(** ** The opening handshake *)

Lemma steady_Live g w : steady g w → ∃ b ws, Live (wr g b ws) w.
Proof. exact id. Qed.

Lemma last_event_dead g a Q w :
  neutral a = true → steady g w → (∀ w', Dead w' → Q CHANNEL_DELETED w') → wp (last_event a) Q w.
Proof. intros Hn (b & ws & H). by eapply wp_last_event. Qed.

Lemma wp_update_steady g f Q w :
  steady g w → Q tt (w <| channel := f (channel w) |>) → wp (update f) Q w.
Proof. intros H. apply wp_update. by eapply steady_deleted. Qed.

Lemma wp_SetState_channel g st Q w :
  steady g w → g_state g ≠ st →
  (∀ w', steady (g <| g_state := st |>) w' → channel w' = (channel w) <| state_ := st |> → Q tt w') →
  wp (SetState st) Q w.
Proof.
  intros (b & ws & H) Hne HQ. apply (wp_SetState _ _ _ _ H); [done|]. intros w' H' E. apply HQ; [|done].
  by exists b, ws.
Qed.

Lemma SendAddChannelRequest_spec g url w :
  steady g w → settled g w → g_state g = FRESHLY_CONSTRUCTED →
  wp (SendAddChannelRequest url) (λ _, fine 0) w.
Proof.
  intros H Hs Hst. apply (wp_this_steady _ _ _ _ H). apply wp_bind_check; [by rewrite (steady_state _ _ H), Hst|].
  destruct (negb _).
  { apply wp_bind, (last_event_dead g); [done..|]. intros w' Hd. apply wp_ret. by left. }
  apply wp_bind, (wp_update_steady g); [done|]. apply wp_bind, (wp_update_steady g); [done|].
  apply (wp_SetState_channel g); [done|by rewrite Hst|].
  intros w' H' E. right. exists (g <| g_state := CONNECTING |>). split; [|split; [done|cbn; lia]].
  destruct Hs as (H1 & H2 & H3 & H4 & H5). rewrite Hst in H5. unfold settled, fresh in *. cbn. by rewrite E.
Qed.

Lemma OnConnectFailure_spec g message w :
  steady g w → g_state g = CONNECTING → wp (OnConnectFailure message) (λ _, Dead) w.
Proof.
  intros H Hst. apply (wp_this_steady _ _ _ _ H). apply wp_bind_check; [by rewrite (steady_state _ _ H), Hst|].
  apply wp_bind. apply (wp_SetState_steady g); [done|by rewrite Hst|]. intros w1 H1.
  apply wp_bind, (wp_update_steady _ _ _ _ H1). destruct H1 as (b & ws & H1).
  eapply wp_alive_or_dead; [apply SendImmediately_spec; exact H1| |intros; by apply wp_ret].
  intros w2 H2. apply wp_bind. eapply wp_last_event; [done|exact H2|]. intros w3 H3. by apply wp_ret.
Qed.

(** The stream is there, and the renderer is given its first quota. *)
Lemma OnConnectSuccess_spec g stream w :
  steady g w → settled g w → g_state g = CONNECTING →
  wp (OnConnectSuccess stream) (λ _, fine 2) w.
Proof.
  intros H Hs Hst. pose proof Hs as (Hcl & Hl & He & Hrf0 & Hf). rewrite Hst in Hf.
  destruct Hf as (F1 & F2 & F3 & F4 & F5 & F6 & F7 & F8 & F9 & F10 & _).
  apply (wp_this_steady _ _ _ _ H). apply wp_bind_check; [by rewrite (steady_state _ _ H), Hst|].
  apply wp_bind, (wp_update_steady g); [done|].
  assert (steady (g <| g_stream := true |>) (w <| channel := (channel w) <| stream_ := Some stream |> |>)) as H1.
  { destruct H as (b & ws & Hc & Hs' & Hr). exists b, ws. split; [|by split].
    clear - Hc. open_core Hc. by repeat (split; [done|]). }
  apply wp_bind. apply (wp_SetState_channel _ _ _ _ H1); [cbn; by rewrite Hst|]. intros w2 H2 E2.
  assert (current_send_quota_ (channel w2) = 0) as Eq by (rewrite E2; exact F10). clear E2.
  destruct H2 as (b & ws & H2). set (g2 := g <| g_stream := true |> <| g_state := CONNECTED |>) in *.
  apply (wp_alive_or_dead _ (λ w, Live (wr g2 b ws) w ∧ current_send_quota_ (channel w) = 0));
    [|clear w2 H2 Eq|intros w3 H3; apply wp_ret; by left].
  { eapply wp_event_neutral; [done|exact H2| |done]. intros w3 E3 H3. cbn [alive_or_dead]. refine (conj H3 _). by rewrite E3. }
  cbv beta. intros w3 [H3 Eq]. apply wp_bind, wp_update; [by eapply Live_deleted|].
  apply wp_bind, wp_this; [exact (Live_deleted _ _ H3)|].
  assert (send_quota_high_water_mark_ (channel w3) = kDefaultSendQuotaHighWaterMark) as Eh.
  { destruct H3 as (_ & (_ & _ & _ & _ & E & _) & _). exact E. }
  set (w4 := w3 <| channel := _ |>).
  assert (send_quota_high_water_mark_ (channel w4) = kDefaultSendQuotaHighWaterMark) as Eh4 by exact Eh.
  apply (wp_alive_or_dead _ (Live (wr g2 b ws))); [|clear H3|intros w5 H5; apply wp_ret; by left].
  { rewrite Eh4. apply (wp_event_live (wr g2 b ws)).
    - exact (Live_deleted _ _ H3).
    - destruct H3 as (Hc & Hs3 & Hr). split; [exact Hc|]. split; [|exact Hr]. open_sending Hs3.
      rewrite Eq in Hgranted. subst w4.
      refine (conj Hbusy (conj Hfs (conj Hnext (conj Hlow (conj Hhigh (conj _ (conj _ (conj Hcalls
        (conj Hsub Htext))))))))); cbn in *; rewrite Eh; [done|]. rewrite Hgranted. lia.
    - intros w5 _ H5. exact H5.
    - done. }
  cbv beta. intros w5 H5. apply wp_bind, wp_update; [by eapply Live_deleted|].
  apply wp_bind. eapply wp_mono; [apply (ReadFrames_spec g2)|].
  - exists b, ws. exact H5.
  - split; [by repeat (split; [done|])|]. split; [done|]. cbn. rewrite F3. by split; [constructor|].
  - done.
  - done.
  - intros [] w6 H6; apply wp_ret; [|by left]. by eapply read_settled_fine.
Qed.

(** ** SendFrame *)

Lemma InClosingState_spec g Q w :
  steady g w → g_state g ≠ RECV_CLOSED →
  Q (bool_decide (g_state g = SEND_CLOSED) || bool_decide (g_state g = CLOSE_WAIT) ||
     bool_decide (g_state g = CLOSED)) w →
  wp InClosingState Q w.
Proof.
  intros H Hne HQ. apply (wp_this_steady _ _ _ _ H). rewrite (steady_state _ _ H).
  apply wp_bind_check; [by rewrite bool_decide_eq_false_2|]. by apply wp_ret.
Qed.

(** The ghost state with one more piece to send. *)
Definition offered (g : Ghost) (p : piece) : Ghost := g <| g_uncalled := g_uncalled g ++ [p] |>.
Definition taken (g : Ghost) (p : piece) : Ghost :=
  g <| g_calls := g_calls g ++ [p] |> <| g_uncalled := [] |> <| g_fs := g_fs g ++ [piece_frame p] |>.

Lemma steady_offered g a fin op data w :
  steady g w → answers_ok a →
  steady (offered (answered g a) (fin, op, data)) (announce (CallSendFrame fin op data) a w).
Proof.
  intros (b & ws & Hc & Hs & Hr) Ha. exists b, (writes a).
  split; [by eapply core_ext; [|exact (core_announce g b ws (CallSendFrame fin op data) a w Hc Ha)]|].
  split; [|by apply (receiving_transfer _ _ _ _ Hr); [..|apply Hr]].
  apply (sending_transfer _ _ _ _ Hs); [reflexivity..|]. open_sending Hs. clear - Hcalls.
  cbn in Hcalls |- *. by rewrite Hcalls, <- app_assoc.
Qed.

Lemma submitted_piece fs calls hd p :
  submitted fs calls hd → no_close fs → IsKnownDataOpCode p.1.2 = true →
  submitted (fs ++ [piece_frame p]) (calls ++ [p]) hd.
Proof.
  intros [S1 S2 S3 S4] Hn Hd. split.
  - apply Forall_app_2; [done|]. constructor; [|constructor]. split; [done|]. split; [done|]. by left.
  - by apply close_is_last_snoc.
  - rewrite data_frames_app, S3, map_app. cbn. unfold is_data. cbn. by rewrite Hd.
  - rewrite List.filter_app, S4. cbn. unfold is_pong. cbn.
    assert (p.1.2 =? kOpCodePong = false) as ->; [|by rewrite app_nil_r].
    by apply data_opcodes in Hd as [-> | [-> | ->]].
Qed.

(** The channel behind the checks of a piece. *)
Definition spent_channel (p : piece) (v : StreamingUtf8Validator) (text : bool) (c : WebSocketChannel) :
    WebSocketChannel :=
  c <| outgoing_utf8_validator_ := v |> <| sending_text_message_ := text |>
    <| current_send_quota_ := s32 (current_send_quota_ c - piece_size p) |>.

Lemma checked_has_read x op fin b v text v' text' :
  has_read x v → Forall byte_ok b → checked op fin b v text v' text' → ∃ x', has_read x' v'.
Proof.
  intros Hx Hb Hc. unfold checked in Hc. destruct (is_text op text); [|destruct Hc as [-> _]; eauto].
  destruct Hc as (r & E & _). destruct (AddBytes_read _ _ _ _ _ Hx Hb E) as [H _]. eauto.
Qed.

Lemma text_taken calls fin op b v text v' text' :
  IsKnownDataOpCode op = true → Forall byte_ok b → checked op fin b v text v' text' →
  (∀ st, piece_session calls = Some st → text_session st v text) →
  ∀ st, piece_session (calls ++ [(fin, op, b)]) = Some st → text_session st v' text'.
Proof.
  intros Hd Hb Hc Ht st E. rewrite piece_session_snoc in E.
  destruct (piece_session calls) as [st0|]; [|done].
  exact (text_step st0 (piece_content (fin, op, b)).1 b st v v' text text' Hd Hb E Hc (Ht st0 eq_refl)).
Qed.

Section Spend.

Context (g : Ghost) (b : bool) (ws : list Z) (p : piece) (w : World).
Context (H : Live (wr (offered g p) b ws) w) (Hlost : g_lost g = false) (Hun : g_uncalled g = []).
Context (Hn : no_close (g_fs g)) (Hd : IsKnownDataOpCode p.1.2 = true) (Hb : Forall byte_ok p.2).
Context (Hlen : piece_size p <= current_send_quota_ (channel w)).
Context (v : StreamingUtf8Validator) (text : bool).
Context (Hc : checked p.1.2 p.1.1 p.2 (outgoing_utf8_validator_ (channel w))
                (sending_text_message_ (channel w)) v text).

Lemma spend_quota : s32 (current_send_quota_ (channel w) - piece_size p)
  = current_send_quota_ (channel w) - piece_size p ∧
  0 <= current_send_quota_ (channel w) - piece_size p <= kDefaultSendQuotaHighWaterMark.
Proof.
  destruct H as (_ & Hs & _). open_sending Hs. change kDefaultSendQuotaHighWaterMark with 131072 in *.
  assert (0 <= piece_size p) by (unfold piece_size; lia). split; [apply s32_small|]; lia.
Qed.

Lemma Live_taken :
  Live ((wr (taken g p) b ws) <| g_owed := [piece_frame p] |>)
    (w <| channel := spent_channel p v text (channel w) |>).
Proof.
  pose proof spend_quota as [Eq Hq']. destruct H as (Hcore & Hs & Hr). split; [by eapply core_ext; [|exact Hcore]|].
  split; [|by apply (receiving_transfer _ _ _ _ Hr); [..|apply Hr]]. open_sending Hs.
  assert (current_send_quota_ (spent_channel p v text (channel w)) = current_send_quota_ (channel w) - piece_size p)
    as Eq2 by exact Eq.
  cbn in Hfs, Hcalls, Hgranted. fold (sizes (g_calls g)) in Hgranted. rewrite Hun in Hcalls.
  refine (conj Hbusy (conj _ (conj Hnext (conj Hlow (conj Hhigh (conj _ (conj _ (conj _ (conj _ _))))))))).
  - cbn. by rewrite Hfs, app_nil_r, <- app_assoc.
  - cbn [channel set_field]. rewrite Eq2. exact Hq'.
  - cbn [channel set_field log]. rewrite Eq2. cbn. rewrite Hgranted, sizes_app, sizes_single. lia.
  - cbn. by rewrite app_nil_r.
  - by apply submitted_piece.
  - intros _. destruct (Htext Hlost) as ([x Hx] & Ht). split.
    + by eapply checked_has_read.
    + destruct p as [[fin op] data]. by apply (text_taken _ _ _ _ _ _ _ _ Hd Hb Hc).
Qed.
End Spend.

(** Failing from a world whose flags may be wrong. *)
Lemma fail_dead g message code reason w (r : nat) :
  steady g w → writable g → no_close (g_fs g) →
  Z.of_nat (length reason) <= kMaximumCloseReasonLength →
  code ≠ error_value kWebSocketErrorNoStatusReceived →
  wp (FailChannel message code reason ;; mret tt) (λ _, fine r) w.
Proof.
  intros H Hg Hn Hl Hc. apply wp_bind. eapply wp_mono; [apply (FailChannel_spec g); [done..|]|].
  - intros _. split; [done|]. by split.
  - intros s w' [_ Hd]. apply wp_ret. by left.
Qed.

(** A method that only writes leaves the channel settled. *)
Lemma settled_keeps g w w' :
  settled g w → current_receive_quota_ (channel w') = current_receive_quota_ (channel w) →
  g_state g ≠ FRESHLY_CONSTRUCTED → g_state g ≠ CONNECTING → settled g w'.
Proof.
  intros (H1 & H2 & H3 & H4 & H5) E Hf Hc. do 4 (split; [done|]).
  unfold connected in *. rewrite E. destruct (g_state g); done.
Qed.

Lemma no_close_piece p : IsKnownDataOpCode p.1.2 = true → is_close (piece_frame p) = false.
Proof. unfold is_close. cbn. by intros [-> | [-> | ->]]%data_opcodes. Qed.

(** What is left to do when the piece has passed. *)
Lemma spend_spec g p b ws w v text :
  Live (wr (offered g p) b ws) w → settled g w → g_state g = CONNECTED →
  IsKnownDataOpCode p.1.2 = true → Forall byte_ok p.2 → piece_size p <= current_send_quota_ (channel w) →
  checked p.1.2 p.1.1 p.2 (outgoing_utf8_validator_ (channel w)) (sending_text_message_ (channel w)) v text →
  wp (SendFrameFromIOBuffer p.1.1 p.1.2 (Some p.2) (Z.of_nat (length p.2)) ;; mret tt) (λ _, fine 2)
    (w <| channel := spent_channel p v text (channel w) |>).
Proof.
  intros H Hs Hst Hd Hb Hq Hc. pose proof Hs as (Hcl & Hl & He & Hrf & Hp). rewrite Hst in Hp.
  destruct Hp as ((Hstream & Hr) & Hn & Ht & Hu & Hun).
  pose proof (Live_taken g b ws p w H Hl Hun Hn Hd Hb Hq v text Hc) as H'.
  assert (g_state (taken g p) = CONNECTED) as Hst' by exact Hst.
  apply wp_bind. eapply wp_mono; [apply wp_keeps; [apply keeps_SendFrameFromIOBuffer|];
    apply (SendFrameFromIOBuffer_spec (taken g p) b ws)|].
  - exact H'.
  - split; [exact Hstream|]. split; [exact Hcl|]. by rewrite Hst'.
  - by left.
  - intros [] w' [Hw Ek]; apply wp_ret; [|by left]. right.
    exists (taken g p). split; [|split; [exact Hw|rewrite Hst'; cbn; lia]].
    apply (settled_keeps _ w); [|exact Ek|by rewrite Hst'..].
    unfold settled. rewrite Hst'. do 4 (split; [done|]). split; [by split|].
    split; [|done]. apply Forall_app_2; [exact Hn|]. constructor; [by apply no_close_piece|constructor].
Qed.

(** A channel with a stream is one of three. *)
Lemma settled_stream g w : settled g w → g_stream g = true →
  g_state g = CONNECTED ∨ g_state g = SEND_CLOSED ∨ g_state g = CLOSE_WAIT.
Proof.
  intros (_ & _ & _ & _ & H) Hs. destruct (g_state g); try done; auto; exfalso; destruct H as (E & _); by rewrite E in Hs.
Qed.

Lemma settled_closing g w : settled g w → g_stream g = true → g_state g ≠ CONNECTED →
  bool_decide (g_state g = SEND_CLOSED) || bool_decide (g_state g = CLOSE_WAIT) ||
  bool_decide (g_state g = CLOSED) = true.
Proof. intros H Hs Hc. by destruct (settled_stream g w H Hs) as [?|[-> | ->]]. Qed.

Lemma settled_not_received g w : settled g w → g_state g ≠ RECV_CLOSED.
Proof. intros (_ & _ & _ & _ & H) E. by rewrite E in H. Qed.

(** In the closing states, a piece that is offered is dropped. *)
Lemma offered_fine g p w : settled g w → steady (offered g p) w → g_stream g = true → g_state g ≠ CONNECTED →
  fine (rank (g_state g)) w.
Proof.
  intros Hs H Hst Hc. right. exists (offered g p). split; [|by split].
  destruct Hs as (H1 & H2 & H3 & H4 & H5). do 4 (split; [done|]). cbn.
  destruct (g_state g); try done; destruct H5 as (E & _); by rewrite E in Hst.
Qed.

(** The validator reads the piece of a text message. *)
Lemma spent_same p c : spent_channel p (outgoing_utf8_validator_ c) (sending_text_message_ c) c =
  c <| current_send_quota_ := s32 (current_send_quota_ c - piece_size p) |>.
Proof. by destruct c. Qed.

Lemma writable_connected g w : settled g w → g_state g = CONNECTED → writable g ∧ no_close (g_fs g).
Proof.
  intros (Hcl & _ & _ & _ & H) Hst. rewrite Hst in H. destruct H as ((Hs & _) & Hn & _).
  split; [|done]. split; [done|]. split; [done|]. by rewrite Hst.
Qed.

Lemma Live_lost_outgoing g w v : Live g w → g_lost g = true →
  Live g (w <| channel := (channel w) <| outgoing_utf8_validator_ := v |> |>).
Proof.
  intros (Hc & Hs & Hr) Hl. split; [exact Hc|]. split; [|exact Hr]. open_sending Hs.
  by repeat (split; [assumption|]); rewrite Hl.
Qed.

Lemma SendFrame_spec g fin op data w :
  steady (offered g (fin, op, data)) w → settled g w → g_stream g = true → IsKnownDataOpCode op = true →
  Z.of_nat (length data) <= INT_MAX → Forall byte_ok data →
  wp (SendFrame fin op data) (λ _, fine (rank (g_state g))) w.
Proof.
  intros H Hs Hst Hd Hlen Hb. unfold SendFrame. rewrite (proj2 (Z.ltb_ge _ _)) by done.
  apply (wp_this_steady _ _ _ _ H). destruct H as (b & ws & H).
  rewrite bool_decide_eq_true_2 by (by apply (core_stream _ _ H)). cbn [negb].
  apply wp_bind, (InClosingState_spec (offered g (fin, op, data))); [by exists b, ws|exact (settled_not_received g w Hs)|].
  rewrite (core_state _ _ H). change (g_state (wr (offered g (fin, op, data)) b ws)) with (g_state g).
  change (g_state (offered g (fin, op, data))) with (g_state g).
  destruct (decide (g_state g = CONNECTED)) as [Ec|Ec].
  2: { rewrite (settled_closing g w Hs Hst Ec). apply wp_ret, (offered_fine g (fin, op, data)); [done|by exists b, ws|done..]. }
  rewrite Ec. cbn. destruct (writable_connected g w Hs Ec) as [Hwr Hn].
  assert (0 <= current_send_quota_ (channel w)) as Hq0 by (destruct H as (_ & Hs' & _); open_sending Hs'; lia).
  apply wp_bind_check; [by apply Z.leb_le|].
  assert (∀ message w', steady ((offered g (fin, op, data)) <| g_lost := true |>) w' →
    wp (FailChannel message (error_value kWebSocketErrorGoingAway) [] ;; mret tt) (λ _, fine 2) w') as Hfail.
  { intros message w' H'. by apply (fail_dead _ _ _ _ _ _ H'). }
  destruct (Z.ltb_spec (current_send_quota_ (channel w)) (Z.of_nat (length data))).
  { apply Hfail. exists b, ws. by apply (Live_lose _ _ H). }
  rewrite Hd. cbn [negb]. change ((op =? kOpCodeText) || _) with (is_text op (sending_text_message_ (channel w))).
  pose proof (λ v text, spend_spec g (fin, op, data) b ws w v text H Hs Ec Hd Hb ltac:(done)) as Hspend.
  unfold checked in Hspend. cbn [fst snd] in Hspend. destruct (is_text op _) eqn:Et.
  2: { apply wp_bind_ret. cbn. apply wp_bind_ret, wp_bind, wp_update; [by eapply Live_deleted|].
       rewrite <- (spent_same (fin, op, data)). by apply Hspend. }
  destruct Hs as (_ & Hl & _).
  assert (∃ x, has_read x (outgoing_utf8_validator_ (channel w))) as [x Hx].
  { destruct H as (_ & Hs' & _). open_sending Hs'. by destruct (Htext Hl). }
  destruct (AddBytes_has_read x data _ Hx Hb) as (v & Ev & _). set (r := result_of (utf8_state_ v)) in *.
  apply wp_bind, wp_bind. eapply wp_lift; [exact Ev|]. apply wp_bind, wp_update; [by eapply Live_deleted|].
  apply wp_ret. cbn [fst snd].
  destruct (bool_decide (Some r = Some INVALID) || (bool_decide (Some r = Some VALID_MIDPOINT) && fin)) eqn:Er.
  { apply Hfail. exists b, ws. apply Live_lost_outgoing; [by apply (Live_lose _ _ H)|done]. }
  apply orb_false_iff in Er as [Ei%bool_decide_eq_false Em].
  rewrite bool_decide_eq_true_2 by done. apply wp_bind, wp_bind, wp_update; [exact (Live_deleted _ _ H)|].
  assert (r ≠ INVALID) as Hi by (intros E; by destruct Ei; f_equal).
  assert (r = VALID_MIDPOINT → fin = false) as Hm by (intros E; by rewrite E in Em).
  apply wp_check. { destruct fin; [|done]. cbn. destruct r; [done|by discriminate Hm|done]. }
  apply wp_bind, wp_update; [exact (Live_deleted _ _ H)|].
  apply (Hspend v (negb fin)). by exists r.
Qed.

(** ** SendFlowControl *)

(** The renderer has given quota that the channel has not counted. *)
Definition owing (g : Ghost) (quota : Z) : Ghost := g <| g_extra := quota |>.

Lemma steady_owing g a quota w :
  steady g w → g_extra g = 0 → 0 <= quota → answers_ok a →
  steady (owing (answered g a) quota) (announce (CallSendFlowControl quota) a w).
Proof.
  intros (b & ws & Hc & Hs & Hr) He Hq Ha. exists b, (writes a).
  split; [by eapply core_ext; [|exact (core_announce g b ws (CallSendFlowControl quota) a w Hc Ha)]|].
  split; [exact Hs|]. destruct Hr as (Q1 & (_ & Q2) & H). split; [exact Q1|]. split; [|exact H].
  split; [exact Hq|]. cbn in Q2 |- *. rewrite Q2, He, Z.add_0_r. reflexivity.
Qed.

Lemma piece_session_cong ps ps' qs :
  piece_session ps = piece_session ps' → piece_session (ps ++ qs) = piece_session (ps' ++ qs).
Proof.
  intros E. induction qs as [|q qs IH] using rev_ind; [by rewrite !app_nil_r|].
  by rewrite !app_assoc, !piece_session_snoc, IH.
Qed.

Section Pending.

Context (g : Ghost) (b : bool) (ws : list Z) (quota : Z) (w : World).
Context (front : PendingReceivedFrame) (rest : list PendingReceivedFrame).
Context (H : Live (wr (owing g quota) b ws) w) (Hlost : g_lost g = false).
Context (Hp : pending_received_frames_ (channel w) = front :: rest) (Hq : 0 < quota).
Let data_size := size_ front - offset_ front.

Lemma front_ok : pending_ok front ∧ Forall pending_ok rest ∧ current_receive_quota_ (channel w) = 0.
Proof.
  destruct H as (_ & _ & _ & _ & H1 & H2 & _). rewrite Hp in H1, H2. apply Forall_cons_1 in H2 as [H2 H3].
  split; [done|]. split; [done|]. by apply H1.
Qed.

Lemma front_piece_size : piece_size (pending_piece front) = data_size.
Proof.
  destruct front_ok as ((H1 & H2 & _) & _). unfold piece_size, pending_piece, data_size. cbn. rewrite length_drop.
  unfold WebSocketBasicStream.data_size in H2. lia.
Qed.

Lemma front_bytes n Q w' : 0 <= n <= data_size →
  Q (take (Z.to_nat n) (pending_piece front).2) w' →
  wp (if n =? 0 then mret []
      else lift (bytes ← buffer_bytes (pending_data_ front) (offset_ front + n);
                 Done (drop (Z.to_nat (offset_ front)) bytes))) Q w'.
Proof.
  destruct front_ok as ((H1 & H2 & _) & _). intros Hn HQ. subst data_size. destruct (Z.eqb_spec n 0) as [->|]; [by apply wp_ret|].
  eapply wp_lift; [|exact HQ]. rewrite buffer_bytes_done by lia. cbn. f_equal.
  rewrite take_drop_commute. f_equal. f_equal. lia.
Qed.

(** The front goes out, whole. *)
Lemma pop_front : data_size <= quota →
  Live (wr (owing g (quota - data_size)) b ws)
    (w <| log := OnDataFrame (final_ front) (opcode_ front) (pending_piece front).2 :: log w |>
       <| channel := (channel w) <| pending_received_frames_ := rest |> |>).
Proof.
  intros Hle. pose proof front_ok as (Hf & Hrest & Hcq). pose proof front_piece_size as Hsz.
  destruct H as (Hc & Hs & Hr). split; [by eapply core_ext; [|exact Hc]|]. split; [exact Hs|].
  destruct Hr as (Q1 & (Q2 & Q2') & Q3 & Q4 & Q5 & Ha). cbn in Q2'.
  split; [exact Q1|]. split; [|split; [intros _; exact Hcq|split; [exact Hrest|split; [exact Q5|]]]].
  - cbn. rewrite sizes_app, sizes_single. change (final_ front, opcode_ front, _) with (pending_piece front).
    split; [lia|]. fold (sizes (forwarded (log w))) in Q2'. lia.
  - cbn in Ha |- *. rewrite Hlost in *. unfold waiting_pieces in *. cbn. rewrite Hp in Ha. cbn in Ha.
    by rewrite <- app_assoc.
Qed.

(** The front goes out, cut. *)
Definition cut_front : PendingReceivedFrame :=
  front <| offset_ := offset_ front + quota |> <| opcode_ := kOpCodeContinuation |>.

Lemma cut_front_session ps qs :
  piece_session (ps ++ [(false, opcode_ front, take (Z.to_nat quota) (pending_piece front).2);
                        pending_piece cut_front] ++ qs)
  = piece_session (ps ++ [pending_piece front] ++ qs).
Proof.
  destruct front_ok as ((H1 & _ & _ & H2) & _). rewrite !app_assoc. apply piece_session_cong.
  unfold pending_piece. cbn. rewrite piece_session_split by done. repeat f_equal.
  rewrite <- (take_drop (Z.to_nat quota) (drop (Z.to_nat (offset_ front)) _)) at 2. f_equal.
  rewrite drop_drop. f_equal. lia.
Qed.

Lemma send_front : quota < data_size →
  Live (wr (owing g 0) b ws)
    (w <| log := OnDataFrame false (opcode_ front) (take (Z.to_nat quota) (pending_piece front).2) :: log w |>
       <| channel := (channel w) <| pending_received_frames_ := cut_front :: rest |> |>).
Proof.
  intros Hlt. pose proof front_ok as (Hf & Hrest & Hcq). pose proof front_piece_size as Hsz.
  destruct H as (Hc & Hs & Hr). split; [by eapply core_ext; [|exact Hc]|]. split; [exact Hs|].
  destruct Hr as (Q1 & (Q2 & Q2') & Q3 & Q4 & Q5 & Ha). cbn in Q2'.
  split; [exact Q1|]. split; [|split; [intros _; exact Hcq|split; [|split; [exact Q5|]]]].
  - cbn. rewrite sizes_app, sizes_single. unfold piece_size in *. cbn in Hsz |- *. rewrite length_take.
    split; [lia|]. fold (sizes (forwarded (log w))) in Q2'. lia.
  - constructor; [|exact Hrest]. destruct Hf as (F1 & F2 & F3 & F4). subst data_size. split; [cbn; lia|done].
  - cbn in Ha |- *. rewrite Hlost in *. unfold waiting_pieces in *. cbn. rewrite Hp in Ha. cbn in Ha.
    destruct Ha as (ms & open & E1 & E2 & H'). exists ms, open. split; [exact E1|]. split; [|exact H'].
    rewrite <- E2, <- app_assoc. exact (cut_front_session (forwarded (log w)) (map pending_piece rest)).
Qed.
End Pending.

(** What the loop over the frames that wait leaves. *)
Definition pending_forwarded (g : Ghost) (quota : Z) (w : World) (r : option Z) (w' : World) : Prop :=
  match r with
  | None => Dead w' ∨
      (steady (owing g 0) w' ∧ current_receive_quota_ (channel w') = current_receive_quota_ (channel w))
  | Some more =>
      steady (owing g more) w' ∧ current_receive_quota_ (channel w') = current_receive_quota_ (channel w) ∧
      (0 < more → pending_received_frames_ (channel w') = []) ∧ 0 <= more <= quota
  end.

Lemma forward_pending_spec g fuel : ∀ quota w,
  steady (owing g quota) w → g_lost g = false → 0 <= quota →
  (length (pending_received_frames_ (channel w)) < fuel)%nat →
  wp (forward_pending fuel quota) (pending_forwarded g quota w) w.
Proof.
  induction fuel as [|fuel IH]; intros quota w H Hl Hq Hf; [lia|].
  apply (wp_this_steady _ _ _ _ H).
  destruct (pending_received_frames_ (channel w)) as [|front rest] eqn:Ep.
  { apply wp_ret. split; [done|]. split; [done|]. split; [done|lia]. }
  destruct (Z.ltb_spec 0 quota) as [Hlt|Hge]; cbn [negb].
  2: { apply wp_ret. split; [done|]. split; [done|]. lia. }
  destruct H as (b & ws & H). pose proof (front_ok g b ws quota w front rest H Ep) as ((F1 & F2 & F3 & F4) & _).
  assert (u64 (size_ front - offset_ front) = size_ front - offset_ front) as E.
  { apply u64_small. change INT64_MAX with 9223372036854775807 in F3. lia. }
  cbv zeta. rewrite E. apply wp_bind. apply (front_bytes g b ws quota w front rest H Ep); [lia|]. apply wp_bind.
  pose proof (front_piece_size g b ws quota w front rest H Ep) as Hsz.
  destruct (decide (size_ front - offset_ front <= quota)) as [Hle|Hgt].
  - rewrite Z.min_r, Z.eqb_refl, andb_true_r by lia. rewrite take_ge by (unfold piece_size in Hsz; lia).
    pose proof (pop_front g b ws quota w front rest H Hl Ep Hle) as H'.
    apply wp_event; [by eapply Live_deleted| |]; intros rs.
    + rewrite bool_decide_eq_false_2 by done. rewrite Z.ltb_irrefl. apply wp_bind, wp_update; [exact (Live_deleted _ _ H)|].
      eapply wp_mono; [apply IH; [by exists b, ws|done|lia|cbn in Hf |- *; lia]|].
      intros [more|] w' Hw'; [|exact Hw']. destruct Hw' as (G1 & G2 & G3 & G4). split; [done|]. split; [done|]. split; [done|lia].
    + rewrite bool_decide_eq_true_2 by done. apply wp_ret. left. by apply (Dead_destroy _ _ H').
  - rewrite Z.min_l by lia. rewrite (proj2 (Z.eqb_neq _ _)), andb_false_r by lia.
    pose proof (send_front g b ws quota w front rest H Hl Ep Hlt ltac:(lia)) as H'.
    apply wp_event; [by eapply Live_deleted| |]; intros rs.
    + rewrite bool_decide_eq_false_2 by done. rewrite (proj2 (Z.ltb_lt _ _)) by lia.
      apply wp_bind. eapply wp_lift.
      { unfold DidConsume. rewrite E, !(proj2 (Z.leb_le _ _)) by lia. cbn.
        rewrite u64_small by (change INT64_MAX with 9223372036854775807 in F3; lia). reflexivity. }
      apply wp_bind. eapply wp_lift; [unfold ResetOpcode; cbn; rewrite F4; reflexivity|].
      apply wp_bind, wp_update; [exact (Live_deleted _ _ H)|]. apply wp_ret. right. split; [|done]. by exists b, ws.
    + rewrite bool_decide_eq_true_2 by done. apply wp_ret. left. by apply (Dead_destroy _ _ H').
Qed.

(** The quota that is left is counted. *)
Definition count_quota (quota : Z) (w : World) : World :=
  w <| channel := (channel w) <| current_receive_quota_ := u64 (current_receive_quota_ (channel w) + quota) |> |>.

Lemma steady_count_quota g quota w :
  steady (owing g quota) w → (0 < quota → pending_received_frames_ (channel w) = []) → 0 <= quota →
  current_receive_quota_ (channel w) + quota < 18446744073709551616 →
  steady (owing g 0) (count_quota quota w) ∧
  current_receive_quota_ (channel (count_quota quota w)) = current_receive_quota_ (channel w) + quota.
Proof.
  intros (b & ws & Hc & Hs & Hr) Hp Hq Hlt. destruct Hr as (Q1 & (Q2 & Q2') & Q3 & Hr).
  assert (current_receive_quota_ (channel (count_quota quota w)) = current_receive_quota_ (channel w) + quota) as E
    by (apply u64_small; lia).
  split; [|exact E]. exists b, ws. split; [by eapply core_ext; [|exact Hc]|]. split; [exact Hs|].
  cbn in Q2'. split; [rewrite E; lia|]. split; [split; [done|]|split; [|exact Hr]].
  - rewrite E. cbn [log count_quota set_field]. change (g_extra (wr (owing g 0) b ws)) with 0. lia.
  - rewrite E. intros Hne. cbn in Hne. destruct (Z.ltb_spec 0 quota); [by destruct Hne; auto|].
    rewrite (Q3 Hne). lia.
Qed.

(** With quota that was not there, the channel reads again. *)
Definition start_read (w : World) (quota : Z) : bool :=
  (current_receive_quota_ (channel w) =? 0) && (0 <? quota) &&
  (bool_decide (state_ (channel w) = CONNECTED) || bool_decide (state_ (channel w) = SEND_CLOSED) ||
   bool_decide (state_ (channel w) = CLOSE_WAIT)).

Lemma start_read_spec g quota w :
  steady (owing g quota) w → settled g w → g_state g ≠ FRESHLY_CONSTRUCTED → g_state g ≠ CONNECTING →
  (0 < quota → pending_received_frames_ (channel w) = []) → 0 <= quota →
  current_receive_quota_ (channel w) + quota < 18446744073709551616 →
  wp (if start_read w quota then ReadFrames ;; mret tt else mret tt) (λ _, fine (rank (g_state g)))
    (count_quota quota w).
Proof.
  intros H Hs Hf Hc Hp Hq Hlt. destruct (steady_count_quota g quota w H Hp Hq Hlt) as [H' E].
  pose proof (settled_phase g w Hs Hf Hc) as (Hw & (Hl & He) & Hst).
  assert (phase (owing g 0) []) as Hph by done.
  assert (g_reading g = (0 <? current_receive_quota_ (channel w))) as Er.
  { destruct Hs as (_ & _ & _ & _ & Hs). by destruct (g_state g); try done; destruct Hs as ((_ & ?) & _). }
  pose proof Hs as (_ & _ & _ & Hrf & _). unfold start_read. rewrite (steady_state _ _ H).
  change (g_state (owing g quota)) with (g_state g).
  assert (bool_decide (g_state g = CONNECTED) || bool_decide (g_state g = SEND_CLOSED) ||
          bool_decide (g_state g = CLOSE_WAIT) = true) as -> by (clear -Hst; by destruct (g_state g)).
  rewrite andb_true_r.
  assert (0 <= current_receive_quota_ (channel w)) by (by destruct H as (b & ws & _ & _ & (? & _) & _)).
  destruct ((current_receive_quota_ (channel w) =? 0) && (0 <? quota)) eqn:Est.
  - apply andb_true_iff in Est as [E0%Z.eqb_eq _]. apply wp_bind.
    eapply wp_mono; [apply (ReadFrames_spec (owing g 0)); [done|done|by cbn; rewrite Er, E0|done]|].
    intros [] w' H''; apply wp_ret; [|by left]. by eapply read_settled_fine.
  - apply wp_ret, (phase_fine (owing g 0)); [done|done| |done|done]. rewrite E. cbn. rewrite Er.
    apply andb_false_iff in Est. destruct (Z.ltb_spec 0 (current_receive_quota_ (channel w))), (Z.ltb_spec 0 (current_receive_quota_ (channel w) + quota)); try done; lia.
Qed.

Lemma SendFlowControl_spec g quota w :
  steady (owing g quota) w → settled g w → g_state g ≠ FRESHLY_CONSTRUCTED → 0 <= quota <= INT_MAX →
  current_receive_quota_ (channel w) + quota < 18446744073709551616 →
  wp (SendFlowControl quota) (λ _, fine (rank (g_state g))) w.
Proof.
  intros H Hs Hf Hq Hlt. apply (wp_this_steady _ _ _ _ H). rewrite (steady_state _ _ H).
  change (g_state (owing g quota)) with (g_state g). pose proof Hs as (_ & Hl & He & _ & Hst).
  apply wp_bind_check; [clear -Hst Hf; by destruct (g_state g)|].
  apply wp_bind_check; [apply Z.leb_le; lia|]. apply wp_bind_check; [apply Z.leb_le; lia|].
  apply wp_bind_check.
  { destruct H as (b & ws & _ & _ & _ & _ & H & _). destruct (pending_received_frames_ (channel w)); [done|].
    rewrite H by done. done. }
  destruct (decide (g_state g = CONNECTING)) as [Ec|Ec].
  - rewrite Ec in Hst. pose proof Hst as (F1 & F2 & F3 & F4 & F5 & F6 & F7 & F8 & F9 & F10 & Hnil).
    rewrite Hnil. apply wp_bind. cbn [length forward_pending]. apply (wp_this_steady _ _ _ _ H). rewrite Hnil.
    apply wp_ret, (wp_this_steady _ _ _ _ H). rewrite (steady_state _ _ H).
    change (g_state (owing g quota)) with (g_state g). rewrite Ec, andb_false_r.
    apply wp_bind, (wp_update_steady _ _ _ _ H), wp_ret.
    destruct (steady_count_quota g quota w H) as [H' _]; [done|lia|lia|]. right. exists (owing g 0).
    split; [|split; [exact H'|by cbn; rewrite Ec]]. destruct Hs as (G1 & G2 & G3 & G4 & _).
    do 4 (split; [done|]). change (g_state (owing g 0)) with (g_state g). rewrite Ec. exact Hst.
  - apply wp_bind. eapply wp_mono; [apply (forward_pending_spec g); [done|done|lia|lia]|].
    intros [more|] w' Hw'; cbn in Hw'.
    + destruct Hw' as (H' & E & Hp & Hle). apply (wp_this_steady _ _ _ _ H').
      apply wp_bind, (wp_update_steady _ _ _ _ H').
      apply (start_read_spec g more w'); [done|by eapply settled_keeps|done|done|done|lia|lia].
    + apply wp_ret. destruct Hw' as [Hd|[H' E]]; [by left|]. right. exists (owing g 0).
      split; [|by split]. apply (settled_keeps _ w); [|done..].
      destruct Hs as (G1 & G2 & G3 & G4 & G5). by do 4 (split; [done|]).
Qed.

(** ** StartClosingHandshake *)

(** The codes that a Close frame may carry: 1000-1005, 1007-1013 and 3000-4999. *)
Definition close_code_ok (code : Z) : bool :=
  (1000 <=? code) && (code <? 1006) || (1007 <=? code) && (code <? 1014) || (3000 <=? code) && (code <? 5000).

Lemma IsStrictlyValidCloseStatusCode_spec code : 0 <= code < 65536 →
  IsStrictlyValidCloseStatusCode code = Done (close_code_ok code).
Proof.
  intros [H0 H1]. unfold IsStrictlyValidCloseStatusCode.
  rewrite (proj2 (Z.leb_le 0 code) H0), (proj2 (Z.ltb_lt code 65536) H1). cbn [mbind outcome_bind DCHECK].
  assert (∃ k : nat, upper_bound kInvalidRanges code = S k ∧ (k < 7)%nat ∧
    match kInvalidRanges !! S k with Some b => code <? b | None => false end = true ∧
    match kInvalidRanges !! k with Some b => b <=? code | None => false end = true ∧
    bool_decide (S k `mod` 2 = 0)%nat = close_code_ok code) as (k & -> & Hk & E1 & E2 & <-).
  { unfold close_code_ok. cbn [upper_bound kInvalidRanges].
    destruct (Z.ltb_spec code 0); [lia|].
    repeat lazymatch goal with
    | |- context [if code <? ?x then _ else _] =>
        destruct (Z.ltb_spec code x);
          [eexists; split; [reflexivity|]; split; [lia|]; cbn;
           repeat match goal with
           | |- context [?a <? ?b] => destruct (Z.ltb_spec a b); try lia
           | |- context [?a <=? ?b] => destruct (Z.leb_spec a b); try lia
           end; done|]
    end. lia. }
  rewrite E1. replace (S k - 1)%nat with k by lia. rewrite E2.
  rewrite (bool_decide_eq_false_2 (S k = length kInvalidRanges)) by (change (length kInvalidRanges) with 8%nat; lia).
  by rewrite (bool_decide_eq_true_2 (0 < S k)%nat) by lia.
Qed.

Lemma closed_dead g was_clean code reason w :
  steady g w → g_state g ≠ CLOSED →
  wp (SetState CLOSED ;; DoDropChannel was_clean code reason ;; mret tt) (λ _, Dead) w.
Proof.
  intros H Hs. apply wp_bind. apply (wp_SetState_steady g); [done..|]. intros w1 (b & ws & H1).
  apply wp_bind. eapply wp_mono; [by eapply DoDropChannel_spec|]. by intros ? w2 [_ ?].
Qed.

Lemma wp_bind_assoc {A B C} (m : M A) (f : A → M B) (h : B → M C) Q w :
  wp ((m ≫= f) ≫= h) Q w → wp (m ≫= λ a, f a ≫= h) Q w.
Proof. unfold wp, mbind, M_bind. by destruct (m w) as [[a w']|]. Qed.

(** The code and the reason are replaced if they may not be sent. *)
Lemma send_close_spec g code reason w :
  steady g w → writable g → g_state g = CONNECTED → no_close (g_fs g) → 0 <= code < 65536 → Forall byte_ok reason →
  (code = error_value kWebSocketErrorNoStatusReceived → reason = []) →
  wp (valid ← lift (IsStrictlyValidCloseStatusCode code);
      if negb (valid : bool) || (kMaximumCloseReasonLength <? Z.of_nat (length reason))
      then SendClose (error_value kWebSocketErrorInternalServerError) []
      else
        utf8 ← lift (Validate reason);
        SendClose code (if utf8 : bool then reason else []))
    (λ s w', alive_or_dead (λ w', ∃ fs, steady (g <| g_fs := fs |>) w') s w' ∧
       current_receive_quota_ (channel w') = current_receive_quota_ (channel w)) w.
Proof.
  intros H Hw Hst Hn Hcode Hb Hr. apply wp_bind. eapply wp_lift; [by apply IsStrictlyValidCloseStatusCode_spec|].
  assert (∀ code reason, Z.of_nat (length reason) <= kMaximumCloseReasonLength →
    (code = error_value kWebSocketErrorNoStatusReceived → reason = []) →
    wp (SendClose code reason)
      (λ s w', alive_or_dead (λ w', ∃ fs, steady (g <| g_fs := fs |>) w') s w' ∧
         current_receive_quota_ (channel w') = current_receive_quota_ (channel w)) w) as Hclose.
  { intros code' reason' Hl' Hr'. eapply wp_mono; [apply wp_keeps; [apply keeps_SendClose|]; apply (SendClose_spec g); auto|].
    intros [] w' [Hw' E]; (split; [|done]); [by eexists|done]. }
  destruct (_ || _) eqn:E; [by apply Hclose|]. apply orb_false_iff in E as [_ Hlen%Z.ltb_ge].
  destruct (Validate_spec reason Hb) as (valid & Ev & _). apply wp_bind. eapply wp_lift; [exact Ev|].
  apply Hclose; destruct valid; auto. done.
Qed.

Lemma StartClosingHandshake_spec g code reason w :
  steady g w → settled g w → g_state g ≠ FRESHLY_CONSTRUCTED → 0 <= code < 65536 → Forall byte_ok reason →
  (code = error_value kWebSocketErrorNoStatusReceived → reason = []) →
  wp (StartClosingHandshake code reason) (λ _, fine (rank (g_state g))) w.
Proof.
  intros H Hs Hf Hcode Hb Hr. apply wp_bind, (InClosingState_spec g); [done|exact (settled_not_received g w Hs)|].
  destruct (bool_decide (g_state g = SEND_CLOSED) || _ || _) eqn:Ec; [apply wp_ret; right; by exists g|].
  apply (wp_this_steady _ _ _ _ H). rewrite (steady_state _ _ H).
  destruct (decide (g_state g = CONNECTING)) as [Eg|Eg].
  { rewrite Eg. cbn. apply wp_bind, (wp_update_steady _ _ _ _ H).
    eapply wp_mono; [apply (closed_dead g); [exact H|by rewrite Eg]|]. intros ? w' Hd. by left. }
  assert (g_state g = CONNECTED) as Est.
  { destruct Hs as (_ & _ & _ & _ & Hs). clear -Hs Hf Eg Ec. by destruct (g_state g). }
  rewrite Est. cbn [bool_decide decide_rel]. rewrite (bool_decide_eq_false_2 (CONNECTED = CONNECTING)) by done.
  rewrite bool_decide_eq_true_2 by done. cbn [negb].
  destruct (writable_connected g w Hs Est) as [Hw Hn]. pose proof Hs as (Hcl & Hl & He & Hrf & Hc). rewrite Est in Hc.
  destruct Hc as ((Hstream & Hrd) & _ & Ht & _).
  apply wp_bind_check.
  { destruct H as (b & ws & (_ & _ & _ & _ & _ & _ & Et & _) & _). cbn in Et. by rewrite Et, Ht. }
  apply wp_bind, (wp_update_steady _ _ _ _ H).
  apply (steady_timer _ _ (Some (closing_handshake_timeout_ (channel w)))) in H.
  set (w1 := w <| channel := _ |>) in *. set (g1 := g <| g_timer := _ |>) in *.
  assert (g_state g1 = CONNECTED) as Est1 by exact Est.
  assert (writable g1) as Hw1 by exact Hw. assert (no_close (g_fs g1)) as Hn1 by exact Hn.
  apply (wp_bind_assoc (lift (IsStrictlyValidCloseStatusCode code))), wp_bind.
  eapply wp_mono; [by apply (send_close_spec g1)|].
  intros [] w2 [H2 Ek]; cbn in H2; [|apply wp_ret; by left]. rewrite bool_decide_eq_false_2 by done.
  destruct H2 as [fs H2]. apply (wp_this_steady _ _ _ _ H2). rewrite (steady_state _ _ H2).
  change (g_state (g1 <| g_fs := fs |>)) with (g_state g1). rewrite Est1. apply wp_bind_check; [done|].
  apply (wp_SetState_channel _ _ _ _ H2); [cbn; by rewrite Est|]. intros w3 H3 E3. right.
  eexists. split; [|split; [exact H3|cbn; lia]].
  split; [done|]. split; [done|]. split; [done|]. split; [done|]. cbn. split; [|done]. split; [done|].
  rewrite E3. cbn. rewrite Ek. exact Hrd.
Qed.

(** ** The other calls *)

Definition at_rest (g : Ghost) (w : World) : Prop := steady g w ∧ settled g w.

Lemma at_rest_fine g w : at_rest g w → fine (rank (g_state g)) w.
Proof. intros [H1 H2]. right. by exists g. Qed.

Lemma settled_channel g w w' : settled g w → channel w' = channel w → settled g w'.
Proof. intros H E. unfold settled, fresh, connected in *. by rewrite E. Qed.

Lemma wp_event_rest g a w : neutral a = true → at_rest g w → wp (event a) (alive_or_dead (at_rest g)) w.
Proof.
  intros Hn [(b & ws & H) Hs]. eapply wp_event_neutral; [done|exact H| |done].
  intros w' E H'. split; [by exists b, ws|by eapply settled_channel].
Qed.

Lemma wp_bind_update_rest {B} g f (k : unit → M B) Q w :
  at_rest g w → wp (k tt) Q (w <| channel := f (channel w) |>) → wp (update f ≫= k) Q w.
Proof. intros [H _] Hk. by apply wp_bind, (wp_update_steady _ _ _ _ H). Qed.

Lemma SendImmediately_rest g w : at_rest g w → wp SendImmediately (alive_or_dead (at_rest g)) w.
Proof.
  intros H. apply (wp_this_steady _ _ _ _ (proj1 H)).
  apply (wp_alive_or_dead _ (at_rest g)); [| |intros; by apply wp_ret].
  { destruct (handshake_request_info_ _); [|by apply wp_ret].
    apply (wp_bind_update_rest g); [done|]. by apply (wp_event_rest g). }
  clear w H. intros w H. apply (wp_this_steady _ _ _ _ (proj1 H)). apply wp_bind.
  apply (wp_mono _ (alive_or_dead (at_rest g))).
  { destruct (handshake_response_info_ _); [|by apply wp_ret].
    apply (wp_bind_update_rest g); [done|]. by apply (wp_event_rest g). }
  by intros [] w' Hw'.
Qed.

Lemma rest_then_ret g (m : M ChannelState) w :
  wp m (alive_or_dead (at_rest g)) w → wp (m ;; mret tt) (λ _, fine (rank (g_state g))) w.
Proof.
  intros H. apply wp_bind. eapply wp_mono; [exact H|].
  intros [] w' H'; apply wp_ret; [by apply at_rest_fine|by left].
Qed.

Lemma Send_spec g w : at_rest g w → wp Send (λ _, fine (rank (g_state g))) w.
Proof.
  intros H. unfold wp, Send. rewrite (steady_deleted _ _ (proj1 H)).
  by apply (rest_then_ret g), SendImmediately_rest.
Qed.

Lemma OnSSLCertificateError_spec g fatal w :
  at_rest g w → wp (OnSSLCertificateError fatal) (λ _, fine (rank (g_state g))) w.
Proof. intros H. apply (wp_this_steady _ _ _ _ (proj1 H)). by apply (rest_then_ret g), wp_event_rest. Qed.

Lemma wp_post_task g w : at_rest g w → wp post_task (λ _, fine (rank (g_state g))) w.
Proof.
  intros H. unfold wp, post_task. rewrite (steady_deleted _ _ (proj1 H)). apply at_rest_fine. exact H.
Qed.

Lemma OnStartOpeningHandshake_spec g request w :
  at_rest g w → handshake_request_info_ (notification_sender_ (channel w)) = None →
  wp (OnStartOpeningHandshake request) (λ _, fine (rank (g_state g))) w.
Proof.
  intros H Hn. apply (wp_this_steady _ _ _ _ (proj1 H)). apply wp_bind_check; [by rewrite Hn|].
  apply (wp_bind_update_rest g); [done|]. by apply (wp_post_task g).
Qed.

Lemma OnFinishOpeningHandshake_spec g response w :
  at_rest g w → handshake_response_info_ (notification_sender_ (channel w)) = None →
  wp (OnFinishOpeningHandshake response) (λ _, fine (rank (g_state g))) w.
Proof.
  intros H Hn. apply (wp_this_steady _ _ _ _ (proj1 H)). apply wp_bind_check; [by rewrite Hn|].
  apply (wp_bind_update_rest g); [done|]. by apply (wp_post_task g).
Qed.

(** ** Ends of operations *)

Lemma enter_close_timeout g a w :
  at_rest g w → answers_ok a → is_Some (close_timer_ (channel w)) →
  wp CloseTimeout (λ _, fine (rank (g_state g))) (enter CallCloseTimeout a w).
Proof.
  intros [H Hs] Ha Ht.
  assert (g_timer g = true) as Et.
  { destruct H as (b & ws & (_ & _ & _ & _ & _ & _ & E & _) & _). cbn in E. rewrite <- E. by apply bool_decide_eq_true. }
  assert (g_stream g = true ∧ g_state g ≠ CLOSED) as [Hst Hne].
  { destruct Hs as (_ & _ & _ & _ & Hs). destruct (g_state g); try done.
    1,2: destruct Hs as (_ & E & _); congruence. 1: destruct Hs as (_ & _ & E & _); congruence.
    all: by destruct Hs as ((E & _) & _). }
  apply (steady_announce _ CallCloseTimeout a) in H; [|done..]. apply (steady_timer _ _ None) in H.
  destruct H as (b & ws & H). eapply wp_mono; [by eapply CloseTimeout_spec|]. intros ? w' Hd. by left.
Qed.

Lemma in_flight_entered g r a w :
  steady g w → answers_ok a → write_pending w = true →
  is_Some (data_being_sent_ (channel w)) ∧
  Live (in_flight (answered g a) (writes a)) (enter (CallOnWriteDone r) a w).
Proof.
  intros (b & ws & Hc & Hs & Hr) Ha Hw.
  assert (b = true) as -> by (open_core Hc; cbn in Hwriting; congruence).
  split; [destruct Hs as (E & _); by apply bool_decide_eq_true in E|].
  destruct (core_announce g true ws (CallOnWriteDone r) a w Hc Ha) as
    (Hdel & Hstate & Hstream & Hclosed & Hreading & Hwriting & Htimer & Hrf & Hws & Hwok & Hrs & Hrok).
  split; [by repeat (split; [done|])|]. by split.
Qed.

Lemma enter_write_done g r a w :
  at_rest g w → answers_ok a → write_pending w = true → r <= 0 → r ≠ ERR_IO_PENDING →
  wp (OnWriteDone false r ;; mret tt) (λ _, fine (rank (g_state g))) (enter (CallOnWriteDone r) a w).
Proof.
  intros [H Hs] Ha Hw Hr Hp. destruct (in_flight_entered g r a w H Ha Hw) as [Hd Hl].
  assert (g_state g ≠ FRESHLY_CONSTRUCTED ∧ g_state g ≠ CONNECTING) as [Hf Hc].
  { destruct Hs as (_ & _ & _ & _ & Hs).
    split; intros E; rewrite E in Hs; destruct Hs as (_ & _ & _ & _ & _ & _ & _ & E' & _);
      rewrite E' in Hd; by destruct Hd. }
  pose proof (settled_phase g w Hs Hf Hc) as (Hwr & _).
  apply (rest_then_ret (answered g a)). eapply wp_mono; [apply wp_keeps; [apply keeps_OnWriteDone|];
    apply (OnWriteDone_spec (answered g a) (writes a)); done|].
  intros [] w' [H' E]; [|done]. split; [done|]. by apply (settled_keeps _ w).
Qed.

(** The ghost state with the frames that a pending read gave. *)
Definition read_given (g : Ghost) (a : Answers) (r : Z) (frames : list WebSocketFrame) : Ghost :=
  frames_given (g <| g_reading := false |>) r frames (reads a).

Lemma steady_read_given g r frames a w :
  steady g w → answers_ok a → steady (read_given g a r frames) (enter (CallOnReadDone r frames) a w).
Proof.
  intros (b & ws & Hc & Hs & Hr) Ha. exists b, (writes a).
  destruct (core_announce g b ws (CallOnReadDone r frames) a w Hc Ha) as
    (Hdel & Hstate & Hstream & Hclosed & Hreading & Hwriting & Htimer & Hrf & Hws & Hwok & Hrs & Hrok).
  split; [by repeat (split; [done|])|]. split; [exact Hs|].
  pose proof Hr as (_ & _ & _ & _ & Hu & _).
  apply (receiving_transfer _ _ _ _ Hr); [reflexivity..|]. cbn in Hu |- *.
  destruct (r =? OK); rewrite Hu; [by rewrite <- app_assoc|by rewrite app_nil_r].
Qed.

Lemma enter_read_done g r frames a w :
  at_rest g w → answers_ok a → read_pending w = true → r ≠ ERR_IO_PENDING → read_ok (r, frames) →
  wp (OnReadDone false r ;; mret tt) (λ _, fine (rank (g_state g))) (enter (CallOnReadDone r frames) a w).
Proof.
  intros [H Hs] Ha Hr Hp Hok.
  assert (g_reading g = true) as Er by (destruct H as (b & ws & Hc & _); open_core Hc; cbn in Hreading; congruence).
  assert (g_state g ≠ FRESHLY_CONSTRUCTED ∧ g_state g ≠ CONNECTING) as [Hf Hc].
  { destruct Hs as (_ & _ & _ & _ & Hs).
    split; intros E; rewrite E in Hs; destruct Hs as (_ & _ & _ & _ & _ & _ & _ & _ & E' & _); congruence. }
  pose proof (settled_phase g w Hs Hf Hc) as Hph. apply wp_bind.
  eapply wp_mono; [apply (OnReadDone_spec (read_given g a r frames)); [by apply steady_read_given| |done|done|done]|].
  - by apply (phase_given (g <| g_reading := false |>)).
  - intros [] w' H'; apply wp_ret; [|by left]. by eapply read_settled_fine.
Qed.

(** ** Every call *)

Lemma fresh_step g w : at_rest g w → state_ (channel w) = g_state g.
Proof. intros [H _]. by apply steady_state. Qed.

Lemma at_rest_stream g w : at_rest g w → is_Some (stream_ (channel w)) → g_stream g = true.
Proof. intros [(b & ws & H) _]. apply (core_stream _ _ H). Qed.

Lemma at_rest_entered g c a w :
  at_rest g w → answers_ok a → uncounted c = true → at_rest (answered g a) (announce c a w).
Proof. intros [H Hs] Ha Hu. split; [by apply steady_announce|exact Hs]. Qed.

Lemma dispatch_spec g c a w :
  at_rest g w → allowed c w → answers_ok a → wp (dispatch c) (λ _, fine (rank (g_state g))) (enter c a w).
Proof.
  intros H [_ Hc] Ha. pose proof (fresh_step g w H) as Est.
  pose proof (at_rest_entered g c a w H Ha) as Hu. destruct H as [H Hs]. pose proof Hs as (_ & _ & He & _).
  destruct c; cbn [dispatch]; cbn in Hc; try (specialize (Hu eq_refl)).
  - destruct Hu as [H' Hs']. eapply wp_mono; [apply (SendAddChannelRequest_spec (answered g a)); [done..|cbn; congruence]|].
    intros ? w' Hw'. cbn in Hw'. by rewrite <- Est, Hc.
  - destruct Hc as (Hst & Hd & Hlen & Hb). apply (SendFrame_spec (answered g a)); [by apply steady_offered|done| |done..].
    by apply (at_rest_stream g w).
  - destruct Hc as (Hf & Hq & Hlt). apply (SendFlowControl_spec (answered g a)); [|done|cbn; congruence|done..].
    apply steady_owing; [done..|lia|done].
  - destruct Hc as (Hf & Hcode & Hb & Hr). destruct Hu as [H' Hs'].
    apply (StartClosingHandshake_spec (answered g a)); [done|done|cbn; congruence|done..].
  - destruct Hu as [H' Hs']. eapply wp_mono; [apply (OnConnectSuccess_spec (answered g a)); [done..|cbn; congruence]|].
    intros ? w' [Hw'|(g' & G1 & G2 & G3)]; [by left|]. right. exists g'. rewrite <- Est, Hc. cbn. split; [done|]. split; [done|lia].
  - destruct Hu as [H' Hs']. eapply wp_mono; [apply (OnConnectFailure_spec (answered g a)); [done..|cbn; congruence]|].
    intros ? w' Hw'. by left.
  - by apply (OnSSLCertificateError_spec (answered g a)).
  - by apply (OnStartOpeningHandshake_spec (answered g a)).
  - by apply (OnFinishOpeningHandshake_spec (answered g a)).
  - by apply (Send_spec (answered g a)).
  - destruct Hc as (Hw & Hr & Hp). by apply enter_write_done.
  - destruct Hc as (Hw & Hr & Hp). by apply enter_read_done.
  - by apply enter_close_timeout.
Qed.

(** The task that finds its channel deleted. *)
Lemma Send_deleted a w : Dead w → wp Send (λ _, Dead) (enter CallSendNotifications a w).
Proof.
  intros [Hd [L1 L2 L3 L4 L5]]. unfold wp, Send. cbn. rewrite Hd. split; [done|]. by split.
Qed.

Lemma dispatch_fine c a w r :
  fine r w → allowed c w → answers_ok a → wp (dispatch c) (λ _, fine r) (enter c a w).
Proof.
  intros [Hd|(g & Hs & H & Hr)] Hc Ha.
  - assert (c = CallSendNotifications) as ->.
    { destruct Hd as [Hd _], Hc as [Hc _]. destruct c; congruence. }
    eapply wp_mono; [by apply Send_deleted|]. intros ? w' Hw'. by left.
  - eapply wp_mono; [by apply (dispatch_spec g)|].
    intros ? w' [Hd|(g' & G1 & G2 & G3)]; [by left|]. right. exists g'. split; [done|]. split; [done|lia].
Qed.

Lemma reachable_Inv w : reachable w → Inv w.
Proof.
  revert w. apply rtc_ind_r; [apply init_World_Inv|]. intros w w' _ [c a Hc Ha E] IH.
  pose proof (dispatch_fine c a w 0 IH Hc Ha) as Hw. unfold wp in Hw. by rewrite E in Hw.
Qed.
