(* ===== verification/WebSocketChannelSafety.v ===== *)
(** * What holds of every run of a channel

    Whatever the owner, the stream and the renderer do within their protocols, no check of
    a channel fails, no deleted object is touched, every call returns, and the log is as
    WebSocketChannelLog demands. *)

From Stdlib Require Import String.
From S2P Require Import Prelude WebSocketFrame WebSocketFrameParser WebSocketBasicStream WebSocketMessages Utf8Validator WebSocketChannelState WebSocketChannel WebSocketChannelLog WebSocketChannelInvariant WebSocketChannelWrite WebSocketChannelRead WebSocketChannelCalls.
Import Channel.

(** ** Runs that keep to the protocols *)

#[export] Instance stream_frame_ok_dec f : Decision (stream_frame_ok f).
Proof. unfold stream_frame_ok, byte_ok. apply _. Defined.
#[export] Instance read_ok_dec r : Decision (read_ok r).
Proof. unfold read_ok. apply _. Defined.
#[export] Instance answers_ok_dec a : Decision (answers_ok a).
Proof. unfold answers_ok. apply _. Defined.
#[export] Instance allowed_dec c w : Decision (allowed c w).
Proof. unfold allowed. destruct c; unfold byte_ok; apply _. Defined.

Fixpoint keeps_protocols (calls : list (Call * Answers)) (w : World) : bool :=
  match calls with
  | [] => true
  | (c, a) :: calls =>
      bool_decide (allowed c w) && bool_decide (answers_ok a) &&
      match dispatch c (enter c a w) with
      | Done (_, w) => keeps_protocols calls w
      | DcheckFailed => false
      end
  end.

Lemma run_steps calls : ∀ w w',
  keeps_protocols calls w = true → run calls w = Done w' → rtc step w w'.
Proof.
  induction calls as [|[c a] calls IH]; intros w w' Hk Hr; cbn in *; [by injection Hr as ->|].
  apply andb_true_iff in Hk as [[Hc%bool_decide_eq_true Ha%bool_decide_eq_true]%andb_true_iff Hk].
  destruct (dispatch c (enter c a w)) as [[[] w1]|] eqn:E; [|done].
  eapply rtc_l; [by apply (step_call w w1 c a)|]. by apply IH.
Qed.

(** ** The theorems *)


(** [C3] The log of every run is as it must be: the frames that were written are those of a
    prefix of the renderer's pieces, in order, with the Pongs for the Pings that were read
    and at most one Close frame, the last; no quota is exceeded; and the renderer has got,
    in pieces, a prefix of the messages that were read, each text one UTF-8. *)
Theorem Channel_log w : reachable w → log_ok (log w).
Proof.
  intros [[_ Hl]|(g & _ & (b & ws & H) & _)]%reachable_Inv; [done|]. by eapply Live_log_ok.
Qed.

(** The states go forward only: a call leaves a channel in its state or a later one,
    or deletes it, and a deleted channel stays deleted. *)
Theorem Channel_states_linear w w' : reachable w → step w w' →
  deleted w' = true ∨ deleted w = false ∧ (rank (state_ (channel w)) <= rank (state_ (channel w')))%nat.
Proof.
  intros Hw [c a Hc Ha E].
  destruct (reachable_Inv w Hw) as [Hd|(g & Hs & H & _)].
  - assert (c = CallSendNotifications) as ->.
    { destruct Hd as [Hd _], Hc as [Hc _]. destruct c; congruence. }
    pose proof (Send_deleted a w Hd) as Hw'. unfold wp in Hw'. cbn [dispatch] in E. rewrite E in Hw'. left. apply Hw'.
  - pose proof (dispatch_spec g c a w (conj H Hs) Hc Ha) as Hw'. unfold wp in Hw'. rewrite E in Hw'.
    destruct Hw' as [[Hd _]|(g' & _ & H' & Hr)]; [by left|]. right.
    split; [by apply (steady_deleted g)|]. by rewrite (steady_state _ _ H), (steady_state _ _ H').
Qed.

(** [C20] Between calls nothing is forgotten: a connected channel reads exactly if the
    renderer has given it quota, writes exactly if it has frames to send, its timer runs
    exactly while it is closing, and its stream is open; a channel that is not yet
    connected does none of this; and no call ends in the states [RECV_CLOSED] or
    [CLOSED]. *)
Theorem Channel_at_rest w : reachable w → deleted w = false →
  match state_ (channel w) with
  | FRESHLY_CONSTRUCTED | CONNECTING =>
      stream_ (channel w) = None ∧ read_pending w = false ∧ write_pending w = false ∧
      close_timer_ (channel w) = None
  | CONNECTED | SEND_CLOSED | CLOSE_WAIT =>
      is_Some (stream_ (channel w)) ∧ stream_closed w = false ∧
      read_pending w = (0 <? current_receive_quota_ (channel w)) ∧
      write_pending w = bool_decide (is_Some (data_being_sent_ (channel w))) ∧
      close_timer_is_running (channel w) = negb (bool_decide (state_ (channel w) = CONNECTED))
  | RECV_CLOSED | CLOSED => False
  end.
Proof.
  intros [[Hd _]|(g & (Hcl & _ & _ & _ & Hs) & (b & ws & Hc & (Hb & _) & _) & _)]%reachable_Inv Hdel; [congruence|].
  clear Hdel. open_core Hc. cbn in Hstate, Hstream, Hreading, Hwriting, Hclosed, Htimer, Hb. rewrite Hstate, Hreading, Hwriting, Hclosed, Htimer, Hb.
  assert (∀ A (o : option A), bool_decide (is_Some o) = false → o = None) as Hnone.
  { intros A o Ho%bool_decide_eq_false. by apply eq_None_not_Some. }
  destruct (g_state g); try done.
  1,2: destruct Hs as (E1 & E2 & _ & _ & _ & _ & _ & E3 & E4 & _); rewrite E3 in Hb; change (false = b) in Hb;
    (split; [apply Hnone; congruence|]; split; [done|]; split; [done|]; apply Hnone; unfold close_timer_is_running in Htimer; congruence).
  all: destruct Hs as ((E1 & E2) & Hs); (split; [apply (bool_decide_eq_true_1 _); congruence|]); split; [done|]; split; [done|]; split; [done|].
  - by destruct Hs as (_ & -> & _).
  - by rewrite Hs.
  - by rewrite Hs.
Qed.

(** The members of a channel between calls: the quotas are in their ranges, where no
    computation on them wraps; frames wait to be sent only behind others; frames wait for
    quota only while there is none, and are data frames whose offset is within their
    buffer; and the validators are in states of UTF-8. *)
Record well_formed (c : WebSocketChannel) : Prop := {
  wf_marks : send_quota_low_water_mark_ c = kDefaultSendQuotaLowWaterMark ∧
             send_quota_high_water_mark_ c = kDefaultSendQuotaHighWaterMark;
  wf_send_quota : 0 <= current_send_quota_ c <= send_quota_high_water_mark_ c;
  wf_receive_quota : 0 <= current_receive_quota_ c < 18446744073709551616;
  wf_next : is_Some (data_to_send_next_ c) → is_Some (data_being_sent_ c);
  wf_waiting : pending_received_frames_ c ≠ [] → current_receive_quota_ c = 0;
  wf_pending : Forall (λ p, 0 <= offset_ p <= size_ p ∧ size_ p = data_size (pending_data_ p) ∧
                            IsKnownDataOpCode (opcode_ p) = true) (pending_received_frames_ c);
  wf_read_frames : read_frames_ c = [];
  wf_outgoing : ∃ s, has_read s (outgoing_utf8_validator_ c);
  wf_incoming : ∃ s, has_read s (incoming_utf8_validator_ c)
}.

(** [C37] A channel that a call leaves alive is well formed. *)
Theorem Channel_well_formed w : reachable w → deleted w = false → well_formed (channel w).
Proof.
  intros [[Hd _]|(g & (_ & Hl & _ & Hrf0 & _) & (b & ws & Hc & Hs & Hr) & _)]%reachable_Inv Hdel; [congruence|].
  clear Hdel. open_core Hc. open_sending Hs. destruct Hr as (Q1 & _ & Q3 & Q4 & _ & Ha). cbn in Ha. rewrite Hl in Ha.
  destruct (Htext Hl) as [Ho _]. split.
  - by split.
  - by rewrite Hhigh.
  - done.
  - done.
  - done.
  - eapply Forall_impl; [|exact Q4]. by intros p (? & ? & _ & ?).
  - cbn in Hrf. congruence.
  - done.
  - by eapply assembled_validator.
Qed.

(** [C9] Nothing is lost while the channel is connected: when no frame is left to send, all
    pieces of the renderer have been written, and a Pong for every Ping; when no piece
    waits for quota, the renderer has got all messages of the stream, and the beginning of
    an open one if that is not empty. *)
Theorem Channel_delivers w :
  reachable w → deleted w = false → state_ (channel w) = CONNECTED →
  (data_being_sent_ (channel w) = None →
     data_frames (written (log w)) = map piece_frame (pieces_sent (log w)) ∧
     List.filter is_pong (written (log w)) = pongs_for (frames_read (log w))) ∧
  ∃ ms open,
    data_session (frames_read (log w)) = Some (ms, open) ∧
    (pending_received_frames_ (channel w) = [] →
       piece_session (forwarded (log w)) = Some (ms, open) ∨
       piece_session (forwarded (log w)) = Some (ms, None) ∧ from_option snd [] open = []).
Proof.
  intros [[Hd _]|(g & (_ & Hl & _ & _ & Hs) & (b & ws & Hc & Hsend & Hr) & _)]%reachable_Inv Hdel Hst; [congruence|].
  assert (g_state g = CONNECTED) as Eg by (clear Hdel; open_core Hc; cbn in Hstate; congruence).
  rewrite Eg in Hs. destruct Hs as (_ & _ & _ & Eu & Ec). split.
  - intros Ed. open_sending Hsend. cbn in Hfs, Hcalls, Hsub. rewrite Ec, app_nil_r in Hcalls.
    destruct (data_to_send_next_ (channel w)); [rewrite Ed in Hnext; by destruct Hnext as [? ?]|].
    cbn in Hfs. rewrite app_nil_r in Hfs. destruct Hr as (_ & _ & _ & _ & Ef & _). cbn in Ef.
    rewrite Eu, app_nil_r in Ef. rewrite Hcalls, Ef, <- Hfs. by destruct Hsub as [_ _ -> ->].
  - destruct Hr as (_ & _ & _ & _ & Ef & Ha). cbn in Ef, Ha. rewrite Hl in Ha. rewrite Eu, app_nil_r in Ef.
    destruct Ha as (ms & open & E1 & E2 & Ho & _). exists ms, open. rewrite Ef. split; [done|].
    intros Ep. unfold waiting_pieces in E2. rewrite Ep in E2. cbn in E2. rewrite app_nil_r in E2. rewrite E2. unfold heard in *.
    destruct (initial_frame_forwarded_ (channel w)); [by left|]. right. split; [done|].
    destruct open as [[start bytes]|]; [|done]. cbn in Ho |- *. by apply Ho.
Qed.

(** ** Close frames *)

Lemma ReadBigEndian_app n v rest : (0 < n)%nat → 0 <= v < 256 ^ Z.of_nat n →
  ReadBigEndian n (WriteBigEndian n v ++ rest) = v.
Proof.
  intros Hn Hv. destruct (WriteBigEndian_value n v Hv) as (Ev & El & Hb).
  assert (ReadBigEndian n (WriteBigEndian n v ++ rest) = ReadBigEndian n (WriteBigEndian n v)) as ->.
  { unfold ReadBigEndian. by rewrite take_app_le, take_ge by lia. }
  by rewrite ReadBigEndian_value.
Qed.

(** The body that [SendClose] sends. *)
Lemma SendClose_body code reason w :
  deleted w = false → state_ (channel w) = CONNECTED ∨ state_ (channel w) = RECV_CLOSED →
  Z.of_nat (length reason) <= kMaximumCloseReasonLength →
  (code = error_value kWebSocketErrorNoStatusReceived → reason = []) →
  SendClose code reason w =
  SendFrameFromIOBuffer true kOpCodeClose (Some (close_body code reason))
    (Z.of_nat (length (close_body code reason))) w.
Proof.
  intros Hd Hs Hl Hr. unfold SendClose. unfold mbind at 1, M_bind at 1, this at 1. rewrite Hd.
  rewrite (proj2 (Z.leb_le _ _) Hl).
  assert (bool_decide (state_ (channel w) = CONNECTED) || bool_decide (state_ (channel w) = RECV_CLOSED) = true)
    as -> by (by destruct Hs as [-> | ->]).
  unfold close_body. destruct (Z.eqb_spec code (error_value kWebSocketErrorNoStatusReceived)) as [E|E].
  - rewrite (bool_decide_eq_true_2 _ (Hr E)). cbn. unfold mbind, M_bind. cbn.
    by destruct (SendFrameFromIOBuffer _ _ _ _ w) as [[[] ?]|].
  - cbn. unfold mbind, M_bind. cbn. by destruct (SendFrameFromIOBuffer _ _ _ _ w) as [[[] ?]|].
Qed.

(** Codes and reasons of Close frames make the round trip: what a channel sends for a
    code that is strictly valid and a reason that is UTF-8 and fits is read back as they
    were, the code 1005 being sent as an empty frame. *)
Theorem close_round_trip code reason w :
  deleted w = false → state_ (channel w) = CONNECTED ∨ state_ (channel w) = RECV_CLOSED →
  IsStrictlyValidCloseStatusCode code = Done true →
  Z.of_nat (length reason) <= kMaximumCloseReasonLength → Forall byte_ok reason → utf8 reason →
  (code = error_value kWebSocketErrorNoStatusReceived → reason = []) →
  ∃ body,
    SendClose code reason w
      = SendFrameFromIOBuffer true kOpCodeClose (Some body) (Z.of_nat (length body)) w ∧
    ParseClose (Some body) (Z.of_nat (length body)) = Done (true, code, reason, []).
Proof.
  intros Hd Hs Hv Hl Hb Hu Hr. exists (close_body code reason). split; [by apply SendClose_body|].
  assert (0 <= code < 65536) as Hcode.
  { unfold IsStrictlyValidCloseStatusCode in Hv. destruct (Z.leb_spec 0 code); [|done].
    destruct (Z.ltb_spec code 65536); [lia|done]. }
  rewrite IsStrictlyValidCloseStatusCode_spec in Hv by done. injection Hv as Hv.
  unfold close_body. destruct (Z.eqb_spec code (error_value kWebSocketErrorNoStatusReceived)) as [E|E].
  { by rewrite Hr, E. }
  destruct (WriteBigEndian_value 2 code Hcode) as (_ & E2 & _).
  unfold ParseClose, kWebSocketCloseCodeLength. rewrite (proj2 (Z.ltb_ge _ _)) by (rewrite length_app; lia).
  unfold buffer_bytes. rewrite (proj2 (Z.leb_le _ _)) by lia. rewrite Nat2Z.id, take_ge by lia. change (DCHECK true) with (Done tt). rewrite !Done_bind.
  rewrite ReadBigEndian_app by first [lia | done].
  assert (code ≠ error_value kWebSocketErrorAbnormalClosure ∧ code ≠ error_value kWebSocketErrorTlsHandshake) as [N1 N2].
  { unfold close_code_ok in Hv. cbn. split; intros ->; discriminate. }
  rewrite (proj2 (Z.eqb_neq _ _) E), (proj2 (Z.eqb_neq _ _) N1), (proj2 (Z.eqb_neq _ _) N2). cbn [orb].
  rewrite drop_app_length' by done. destruct (Validate_spec reason Hb) as (b & Ev & Hvalid).
  rewrite Ev, Done_bind. by rewrite (proj2 Hvalid Hu).
Qed.

(** ** A run *)

(** A frame of the server. *)
Definition server_frame (fin : bool) (op : OpCode) (bytes : list Z) : WebSocketFrame :=
  {| frame_header := (new_WebSocketFrameHeader op) <| final := fin |>
                       <| payload_length := Z.of_nat (length bytes) |>;
     frame_data := if bool_decide (bytes = []) then None else Some bytes |}.

Definition at_once (writes : list Z) (reads : list (Z * list WebSocketFrame)) : Answers :=
  {| writes := writes; reads := reads; events := [] |}.
Definition later : Answers := at_once [] [].

(** The handshake, with quota for four bytes; a read that gives a Ping and half a text
    message at once. *)
Definition opening : list (Call * Answers) := [
  (CallSendAddChannelRequest {| spec := chars "ws://example.com/"; scheme := chars "ws" |}, later);
  (CallOnStartOpeningHandshake 7, later);
  (CallSendNotifications, later);
  (CallSendFlowControl 4, later);
  (CallOnConnectSuccess {| GetSubProtocol := []; GetExtensions := [] |},
   at_once [OK] [(OK, [server_frame true kOpCodePing [1; 2]; server_frame false kOpCodeText [104; 195]])])
].

(** Messages both ways: one that the write takes later, two that wait for it; and the rest
    of the message of the server, which does not fit the quota. *)
Definition talk : list (Call * Answers) := [
  (CallSendFrame true kOpCodeText [240; 159; 152; 128], later);
  (CallSendFrame false kOpCodeBinary [0; 255], later);
  (CallSendFrame true kOpCodeContinuation [], later);
  (CallOnReadDone OK [server_frame true kOpCodeContinuation [169; 33; 33; 33]], later);
  (CallOnWriteDone OK, at_once [OK] []);
  (CallSendFlowControl 10, later)
].

(** The renderer closes, and the server answers. *)
Definition farewell : list (Call * Answers) := [
  (CallStartClosingHandshake 1000 (chars "bye"), at_once [OK] []);
  (CallOnReadDone OK [server_frame true kOpCodeClose [3; 232]], later)
].

Definition world_after (calls : list (Call * Answers)) : World :=
  match run calls init_World with Done w => w | DcheckFailed => init_World end.

Lemma world_after_reachable calls :
  keeps_protocols calls init_World = true → run calls init_World = Done (world_after calls) →
  reachable (world_after calls).
Proof. apply run_steps. Qed.

Definition talked : World := world_after (opening ++ talk).
Definition parted : World := world_after (opening ++ talk ++ farewell).

Lemma talked_reachable : reachable talked.
Proof. apply world_after_reachable; vm_compute; reflexivity. Qed.
Lemma parted_reachable : reachable parted.
Proof. apply world_after_reachable; vm_compute; reflexivity. Qed.


Lemma Channel_log_witness : log_ok (log parted).
Proof. apply (Channel_log parted). exact parted_reachable. Defined.

Lemma Channel_states_linear_witness :
  deleted (world_after (opening ++ talk ++ [(CallStartClosingHandshake 1000 [], later)])) = true ∨
  deleted talked = false ∧
  (rank (state_ (channel talked)) <=
   rank (state_ (channel (world_after (opening ++ talk ++ [(CallStartClosingHandshake 1000 [], later)])))))%nat.
Proof.
  apply Channel_states_linear; [exact talked_reachable|].
  apply (step_call _ _ (CallStartClosingHandshake 1000 []) later).
  - apply (bool_decide_eq_true_1 _). vm_compute. reflexivity.
  - apply (bool_decide_eq_true_1 _). vm_compute. reflexivity.
  - vm_compute. reflexivity.
Defined.

Lemma Channel_at_rest_witness :
  is_Some (stream_ (channel parted)) ∧ stream_closed parted = false ∧
  read_pending parted = (0 <? current_receive_quota_ (channel parted)) ∧
  write_pending parted = bool_decide (is_Some (data_being_sent_ (channel parted))) ∧
  close_timer_is_running (channel parted) = true.
Proof. exact (Channel_at_rest parted parted_reachable eq_refl). Defined.

Lemma Channel_delivers_witness :
  data_frames (written (log talked)) = map piece_frame (pieces_sent (log talked)).
Proof.
  refine (proj1 (proj1 (Channel_delivers talked _ _ _) _)); [exact talked_reachable|vm_compute; reflexivity..].
Defined.

Lemma close_round_trip_witness :
  ∃ body,
    SendClose 4000 [226; 130; 172] talked
      = SendFrameFromIOBuffer true kOpCodeClose (Some body) (Z.of_nat (length body)) talked ∧
    ParseClose (Some body) (Z.of_nat (length body)) = Done (true, 4000, [226; 130; 172], []).
Proof.
  apply close_round_trip.
  - vm_compute. reflexivity.
  - left. vm_compute. reflexivity.
  - vm_compute. reflexivity.
  - vm_compute. discriminate.
  - unfold byte_ok. repeat constructor; lia.
  - destruct (Validate_spec [226; 130; 172]) as (b & E & Hb); [unfold byte_ok; repeat constructor; lia|].
    apply Hb. vm_compute in E. by injection E as <-.
  - vm_compute. discriminate.
Defined.

Example strictly_valid_codes :
  map IsStrictlyValidCloseStatusCode [999; 1000; 1005; 1006; 1007; 1013; 1014; 1015; 2999; 3000; 4999; 5000]
  = map Done [false; true; true; false; true; true; false; false; false; true; true; false].
Proof. reflexivity. Qed.

Lemma Channel_well_formed_witness : well_formed (channel talked).
Proof. exact (Channel_well_formed talked talked_reachable eq_refl). Defined.

(** The code 1005 is no code that is sent, and is accepted with any reason. *)
Example no_status_with_reason :
  dispatch (CallStartClosingHandshake 1005 (chars "x"))
    (enter (CallStartClosingHandshake 1005 (chars "x")) later talked) = DcheckFailed.
Proof. vm_compute. reflexivity. Qed.

(** A frame that is too big is no protocol error. *)
Example too_big_is_dropped :
  WebSocketErrorToNetError kWebSocketErrorMessageTooBig ≠ ERR_WS_PROTOCOL_ERROR ∧
  (w ← run [(CallOnReadDone ERR_MSG_TOO_BIG [], later)] talked; Done (take 2 (log w)))
  = Done [OnDropChannel false 1006 []; StreamClose].
Proof. split; [discriminate|]. vm_compute. reflexivity. Qed.
