(* ===== verification/WebSocketStreamContract.v ===== *)
(** * WebSocketBasicStream keeps the contract of a stream

    Whatever bytes the socket gives, in whatever pieces, [ReadFrames] fails no check, and
    its result and its frames are what websocket_stream.h promises to a channel: no
    fragmented and no oversized control frame, and payloads of the length that the header
    says.  So no server can break a channel. *)

From S2P Require Import Prelude WebSocketFrame WebSocketFrameParser WebSocketBasicStream WebSocketMessages WebSocketChannelState WebSocketChannel WebSocketChannelLog WebSocketChannelInvariant WebSocketChannelRead WebSocketChannelCalls WebSocketChannelSafety.

(** ** The chunks that a parser gives out *)

(** The frame that is open, and how much of its payload has come. *)
Definition open_frame : Type := option (WebSocketFrameHeader * Z).
Definition next_open (h : WebSocketFrameHeader) (n : Z) : open_frame :=
  if n =? payload_length h then None else Some (h, n).

Inductive chunk_step : open_frame → WebSocketFrameChunk → open_frame → Prop :=
  | chunk_first h d :
      data_size d <= payload_length h <= INT32_MAX → Forall byte_ok (default [] d) →
      chunk_step None (mkWebSocketFrameChunk (Some h) (data_size d =? payload_length h) d)
        (next_open h (data_size d))
  | chunk_more h n d :
      0 <= n → n + data_size d <= payload_length h <= INT32_MAX → Forall byte_ok (default [] d) →
      chunk_step (Some (h, n)) (mkWebSocketFrameChunk None (n + data_size d =? payload_length h) d)
        (next_open h (n + data_size d)).

Inductive chunks_from : open_frame → list WebSocketFrameChunk → open_frame → Prop :=
  | chunks_nil o : chunks_from o [] o
  | chunks_cons o c o' cs o'' : chunk_step o c o' → chunks_from o' cs o'' → chunks_from o (c :: cs) o''.

Definition at_parser (p : WebSocketFrameParser) : open_frame :=
  (λ h, (h, frame_offset_ p)) <$> current_frame_header_ p.

Lemma byte_lxor a b : byte_ok a → byte_ok b → byte_ok (Z.lxor a b).
Proof.
  unfold byte_ok. intros Ha Hb. assert (0 <= Z.lxor a b) by (apply Z.lxor_nonneg; lia). split; [done|].
  destruct (Z.eq_dec (Z.lxor a b) 0) as [->|]; [done|]. change 256 with (2 ^ 8).
  apply Z.log2_lt_pow2; [lia|]. pose proof (Z.log2_lxor a b ltac:(lia) ltac:(lia)).
  assert (Z.log2 a < 8 ∧ Z.log2 b < 8) by
    (split; [destruct (Z.eq_dec a 0) as [->|] | destruct (Z.eq_dec b 0) as [->|]]; try done; apply Z.log2_lt_pow2; lia).
  lia.
Qed.

Lemma mask_bytes key bs : Forall byte_ok key → ∀ o, Forall byte_ok bs → Forall byte_ok (mask_spec key o bs).
Proof.
  intros Hk. induction bs as [|b bs IH]; intros o Hbs; [constructor|]. rewrite mask_spec_cons.
  apply Forall_cons_1 in Hbs as [Hb Hbs]. constructor; [|by apply IH]. apply byte_lxor; [done|].
  unfold key_byte. destruct (nth_in_or_default (Z.to_nat (o mod 4)) key 0) as [Hi| ->]; [|done].
  rewrite List.Forall_forall in Hk. by apply Hk.
Qed.

Lemma next_chunk_step first_chunk p h :
  in_frame p h → Forall byte_ok (masking_key_ p) → (first_chunk = true → frame_offset_ p = 0) →
  chunk_step (if first_chunk then None else at_parser p) (next_chunk first_chunk p h)
    (at_parser (advance h (available p h) p)).
Proof.
  intros (He & Hp & Hl & Hbs & Hh & Ho & HL) Hk Hf. pose proof (unread_length p Hp) as Eu.
  assert (0 <= available p h <= payload_length h - frame_offset_ p) as Ha by (unfold available; lia).
  unfold next_chunk.
  set (d := if available p h =? 0 then None else _).
  assert (data_size d = available p h ∧ Forall byte_ok (default [] d)) as [Ed Hd].
  { subst d. destruct (Z.eqb_spec (available p h) 0) as [->|]; [by split|]. unfold data_size. cbn.
    assert (Forall byte_ok (take (Z.to_nat (available p h)) (unread p))) as Ht by (by apply Forall_take, unread_bytes).
    assert (length (unmasked h (masking_key_ p) (frame_offset_ p) (take (Z.to_nat (available p h)) (unread p)))
      = length (take (Z.to_nat (available p h)) (unread p))) as El.
    { unfold unmasked. destruct (masked h); [apply mask_spec_length|done]. }
    split; [unfold id; rewrite El, length_take; unfold available in *; lia|].
    unfold unmasked, id. destruct (masked h); [by apply mask_bytes|done]. }
  assert (at_parser (advance h (available p h) p) = next_open h (frame_offset_ p + available p h)) as ->.
  { unfold at_parser, advance, next_open. cbn.
    destruct (frame_offset_ p + available p h =? payload_length h); cbn; [done|]. by rewrite Hh. }
  rewrite <- Ed. destruct first_chunk.
  - rewrite (Hf eq_refl), Z.add_0_l. constructor; [lia|done].
  - unfold at_parser. rewrite Hh. cbn. constructor; [lia|lia|done].
Qed.

Lemma header_key p p' :
  DecodeFrameHeader p = Done p' → parser_inv p → Forall byte_ok (masking_key_ p) → Forall byte_ok (masking_key_ p').
Proof.
  intros E (_ & _ & _ & Hbs & _) Hk. apply unread_bytes in Hbs. unfold DecodeFrameHeader in E.
  destruct (current_frame_header_ p); [done|]. fold (unread p) in E.
  destruct (unread p) as [|b1 [|b2 current]]; [by injection E as <-..|].
  do 2 apply Forall_cons_1 in Hbs as [_ Hbs].
  assert (∀ L rest error, read_length b2 current = Some (L, rest, error) → Forall byte_ok rest) as Hrest.
  { unfold read_length. intros L rest error. cbv zeta.
    repeat case_match; intros [= <- <- <-]; done || by apply Forall_drop. }
  destruct (read_length b2 current) as [[[L rest] error]|]; [|by injection E as <-].
  specialize (Hrest _ _ _ eq_refl). case_bool_decide; [by injection E as <-|].
  destruct (_ && _); [by injection E as <-|]. destruct (frame_offset_ p =? 0); [|done].
  injection E as <-. cbn. destruct (negb _); [by apply Forall_take|]. by repeat constructor.
Qed.

Section Parser.
Context (kPackedMaskKeySize : Z) (io_data : WebSocketFrameParser → Z).
Context (word_size : 4 <= kPackedMaskKeySize) (word_keys : kPackedMaskKeySize mod 4 = 0).

(** What a run of the loop of [Decode] gives out. *)
Definition gives (p : WebSocketFrameParser) (chunks : list WebSocketFrameChunk)
    (r : outcome (option (bool * WebSocketFrameParser * list WebSocketFrameChunk))) : Prop :=
  ∀ ok p' chunks', r = Done (Some (ok, p', chunks')) →
    Forall byte_ok (masking_key_ p') ∧
    ∃ new, chunks' = chunks ++ new ∧ (ok = true → chunks_from (at_parser p) new (at_parser p')).

Lemma gives_now p chunks ok p' :
  Forall byte_ok (masking_key_ p') → (ok = true → at_parser p' = at_parser p) →
  gives p chunks (Done (Some (ok, p', chunks))).
Proof.
  intros Hk Ho ok' p1 chunks' [= <- <- <-]. split; [done|]. exists []. rewrite app_nil_r. split; [done|].
  intros ->. rewrite Ho by done. constructor.
Qed.

Lemma gives_step fuel first_chunk p h q chunks :
  in_frame p h → Forall byte_ok (masking_key_ p) → (first_chunk = true → frame_offset_ p = 0) →
  at_parser q = (if first_chunk then None else at_parser p) →
  (∀ p chunks, parser_inv p → Forall byte_ok (masking_key_ p) →
     gives p chunks (decode_loop kPackedMaskKeySize io_data fuel p chunks)) →
  gives q chunks (next_step kPackedMaskKeySize io_data fuel (advance h (available p h) p)
                    (chunks ++ [next_chunk first_chunk p h])).
Proof.
  intros Hin Hk Hf Hq IH ok p' chunks' E. pose proof (next_chunk_step first_chunk p h Hin Hk Hf) as Hc.
  rewrite <- Hq in Hc. destruct (advance_inv p h Hin) as (Hinv & _).
  assert (Forall byte_ok (masking_key_ (advance h (available p h) p))) as Hk'
    by (unfold advance; by destruct (_ =? _)).
  assert (gives (advance h (available p h) p) (chunks ++ [next_chunk first_chunk p h])
    (next_step kPackedMaskKeySize io_data fuel (advance h (available p h) p)
       (chunks ++ [next_chunk first_chunk p h]))) as Hg.
  { unfold next_step. destruct (current_frame_header_ _); [by apply gives_now|by apply IH]. }
  destruct (Hg _ _ _ E) as (H & new & -> & Hn). split; [done|].
  exists (next_chunk first_chunk p h :: new). split; [by rewrite <- app_assoc|].
  intros Hok. econstructor; eauto.
Qed.

Lemma decode_loop_gives fuel : ∀ p chunks,
  parser_inv p → Forall byte_ok (masking_key_ p) →
  gives p chunks (decode_loop kPackedMaskKeySize io_data fuel p chunks).
Proof.
  induction fuel as [|fuel IH]; intros p chunks Hinv Hk; [by intros ? ? ?|].
  pose proof Hinv as (He & Hp & Hl & Hbs & Ho). pose proof (unread_length p Hp) as Eu.
  destruct (Z.ltb_spec (current_read_pos_ p) (Z.of_nat (length (buffer_ p)))) as [Hmore|].
  2: { cbn [decode_loop]. rewrite (proj2 (Z.ltb_ge _ _)) by done. by apply gives_now. }
  destruct (current_frame_header_ p) as [h|] eqn:Hh.
  - destruct (parser_inv_in_frame p h Hinv Hh) as [Hin Hlt].
    rewrite (loop_in_frame _ _ word_size word_keys fuel p h) by
      first [done | intros E; rewrite E in Eu; cbn in Eu; lia].
    by apply gives_step.
  - destruct (DecodeFrameHeader_cases p Hinv Hh) as [[E H14]|[(p1 & E & Herr & Eb)|(h & key & n & E & Hn & HL)]];
      pose proof (header_key p _ E Hinv Hk) as Hk1;
      rewrite (loop_idle _ _ fuel p _ chunks Hh Hmore E).
    + rewrite bool_decide_false, bool_decide_true by (done || by intros []). by apply gives_now.
    + rewrite bool_decide_true by done. by apply gives_now.
    + set (p1 := p <| masking_key_ := _ |> <| current_frame_header_ := _ |> <| current_read_pos_ := _ |>) in *.
      rewrite bool_decide_false, bool_decide_false by (done || by intros []).
      assert (in_frame p1 h) as Hin by (unfold in_frame, p1; cbn; split_and!; done || lia).
      rewrite (loop_payload _ _ word_size word_keys fuel true p1 h) by done.
      apply gives_step; [done|done|done| |done]. unfold at_parser. by rewrite Hh.
Qed.

Lemma Decode_gives bytes p chunks :
  waiting p → Forall byte_ok (masking_key_ p) → Forall byte_ok bytes → Z.of_nat (length bytes) < 2 ^ 63 →
  gives p chunks (Decode kPackedMaskKeySize io_data bytes p chunks).
Proof.
  intros Hw Hk Hbs Hlen. pose proof (waiting_buffer p Hw) as Hbuf. unfold Decode.
  case_bool_decide as He; [by apply gives_now|]. destruct (_ =? _)%nat; [by apply gives_now|].
  set (p1 := p <| buffer_ := buffer_ p ++ bytes |>).
  assert (parser_inv p1) as Hinv.
  { destruct Hw as ([|[(_ & Hp & Hl & Hb & Ho) _]] & _); [done|]. unfold parser_inv, p1. cbn.
    rewrite length_app. split_and!; try done; try lia. by apply Forall_app. }
  pose proof (decode_loop_gives (S (length (buffer_ p1))) p1 chunks Hinv Hk) as Hg.
  destruct (decode_loop _ _ _ p1 chunks) as [[[[[] p'] new]|]|] eqn:El; intros ok q chunks' E.
  - destruct (Hg _ _ _ eq_refl) as (H & more & -> & Hm). rewrite Done_bind in E. cbv beta iota zeta in E.
    destruct (_ <? _) in E; [|done]. injection E as <- <- <-. split; [done|]. exists more. split; [done|]. exact Hm.
  - rewrite Done_bind in E. injection E as <- <- <-. exact (Hg _ _ _ eq_refl).
  - done.
  - done.
Qed.
End Parser.

(** ** From chunks to frames *)

(** What the stream keeps of the frame that is open. *)
Definition in_step (s : WebSocketBasicStream) (o : open_frame) : Prop :=
  match o with
  | None => stream_frame_header_ s = None ∧ incomplete_control_frame_body_ s = None
  | Some (h, n) =>
      if IsKnownControlOpCode (opcode h) then
        stream_frame_header_ s = Some h ∧ final h = true ∧ payload_length h <= kMaxControlFramePayload ∧
        ∃ body, incomplete_control_frame_body_ s = Some body ∧ Z.of_nat (length body) = n ∧ Forall byte_ok body
      else ∃ h', stream_frame_header_ s = Some h' ∧ incomplete_control_frame_body_ s = None ∧
        IsKnownControlOpCode (opcode h') = false ∧ payload_length h' = payload_length h
  end.

(** [CreateFrame] gives frames that are as promised. *)
Lemma CreateFrame_ok fin d s h :
  stream_frame_header_ s = Some h →
  (IsKnownControlOpCode (opcode h) = true → fin && final h = true ∧ data_size d <= kMaxControlFramePayload) →
  data_size d <= INT64_MAX → Forall byte_ok (default [] d) →
  ∃ frame s', CreateFrame fin d s = Done (frame, s') ∧ same_source s s' ∧
    Forall stream_frame_ok (option_list frame) ∧
    incomplete_control_frame_body_ s' = incomplete_control_frame_body_ s ∧
    (if fin then stream_frame_header_ s' = None
     else ∃ h', stream_frame_header_ s' = Some h' ∧ payload_length h' = payload_length h ∧
       (IsKnownControlOpCode (opcode h) = false → IsKnownControlOpCode (opcode h') = false)).
Proof.
  intros Hh Hc Hl Hb. unfold CreateFrame. rewrite Hh. destruct (_ || _).
  - do 2 eexists. split; [reflexivity|]. split; [by destruct fin, (IsKnownDataOpCode (opcode h))|]. split.
    { constructor; [|constructor]. split; [|split; [done|split; [done|exact Hb]]]. cbn. exact Hc. }
    split; [by destruct fin, (IsKnownDataOpCode (opcode h))|].
    destruct fin; [done|]. cbn [negb andb].
    destruct (IsKnownDataOpCode (opcode h)); eexists; (split; [try done; exact Hh|]); [by split|by split].
  - do 2 eexists. split; [reflexivity|]. split; [by destruct fin|]. split; [constructor|].
    split; [by destruct fin|]. destruct fin; [done|]. by exists h.
Qed.

(** A chunk leads to one of these. *)
Definition converted (o : open_frame) (c : WebSocketFrameChunk) (s : WebSocketBasicStream) : Prop :=
  ∃ r frame s', ConvertChunkToFrame c s = Done (r, frame, s') ∧ same_source s s' ∧
    (r = OK ∧ Forall stream_frame_ok (option_list frame) ∧ in_step s' o ∨ r = ERR_WS_PROTOCOL_ERROR).

Lemma convert_to_frame_ok first_chunk fin d h n s :
  stream_frame_header_ s = Some h → incomplete_control_frame_body_ s = None →
  0 <= n → (first_chunk = true → n = 0) → n + data_size d <= payload_length h <= INT32_MAX →
  fin = (n + data_size d =? payload_length h) → Forall byte_ok (default [] d) →
  (IsKnownControlOpCode (opcode h) = true →
     fin = true ∧ final h = true ∧ payload_length h <= kMaxControlFramePayload) →
  ∃ frame s', convert_to_frame first_chunk fin d h s = Done (OK, frame, s') ∧ same_source s s' ∧
    Forall stream_frame_ok (option_list frame) ∧ incomplete_control_frame_body_ s' = None ∧
    (if fin then stream_frame_header_ s' = None
     else ∃ h', stream_frame_header_ s' = Some h' ∧ payload_length h' = payload_length h ∧
       IsKnownControlOpCode (opcode h') = false).
Proof.
  intros Hh Hi Hn Hf Hle Efin Hb Hc. pose proof (data_size_nonneg d). unfold convert_to_frame.
  pass_DCHECK ltac:(apply Z.leb_le; lia).
  pass_DCHECK ltac:(destruct first_chunk, fin; try done; cbn; apply Z.eqb_eq; symmetry in Efin; apply Z.eqb_eq in Efin;
    specialize (Hf eq_refl); lia).
  destruct (CreateFrame_ok fin d s h Hh) as (frame & s' & E & Hs & Hok & Hi' & Hk); [| |exact Hb|].
  - intros Hk. destruct (Hc Hk) as (-> & -> & ?). split; [done|lia].
  - unfold INT32_MAX, INT64_MAX in *. lia.
  - rewrite E. exists frame, s'. split; [done|]. split; [done|]. split; [done|]. split; [congruence|].
    destruct fin; [done|]. destruct Hk as (h' & ? & ? & Hk). exists h'. split; [done|]. split; [done|].
    apply Hk. destruct (IsKnownControlOpCode (opcode h)); [|done]. by destruct (Hc eq_refl).
Qed.

(** From a result of [convert_to_frame] to the next chunk. *)
Lemma data_converted first_chunk d h h' n s c s0 :
  IsKnownControlOpCode (opcode h) = false → IsKnownControlOpCode (opcode h') = false →
  payload_length h' = payload_length h →
  stream_frame_header_ s = Some h' → incomplete_control_frame_body_ s = None →
  0 <= n → (first_chunk = true → n = 0) → n + data_size d <= payload_length h <= INT32_MAX →
  Forall byte_ok (default [] d) → same_source s0 s →
  ConvertChunkToFrame c s0 = convert_to_frame first_chunk (n + data_size d =? payload_length h) d h' s →
  converted (next_open h (n + data_size d)) c s0.
Proof.
  intros Hc Hc' HL Hh Hi Hn Hf Hle Hb Hs0 E.
  destruct (convert_to_frame_ok first_chunk (n + data_size d =? payload_length h) d h' n s Hh Hi Hn Hf)
    as (frame & s' & E' & Hs & Hok & Hi' & Hk); [by rewrite HL|by rewrite HL|done|by rewrite Hc'|].
  exists OK, frame, s'. split; [congruence|]. split; [unfold same_source in *; congruence|]. left.
  split; [done|]. split; [done|]. unfold next_open. destruct (_ =? _); cbn; [done|]. rewrite Hc.
  destruct Hk as (h2 & K1 & K2 & K3). exists h2. split; [done|]. split; [done|]. split; [done|congruence].
Qed.

Lemma first_chunk_converted d h s :
  in_step s None → data_size d <= payload_length h <= INT32_MAX → Forall byte_ok (default [] d) →
  converted (next_open h (data_size d))
    (mkWebSocketFrameChunk (Some h) (data_size d =? payload_length h) d) s.
Proof.
  intros [Hh Hi] Hle Hb. pose proof (data_size_nonneg d).
  assert (∀ P, P (ConvertChunkToFrame (mkWebSocketFrameChunk (Some h) (data_size d =? payload_length h) d) s) ↔
    P (if IsKnownControlOpCode (opcode h) then
         if negb (final h) || (kMaxControlFramePayload <? payload_length h) then
           Done (ERR_WS_PROTOCOL_ERROR, None, s <| stream_frame_header_ := None |>)
         else if negb (data_size d =? payload_length h) then
           s ← AddToIncompleteControlFrameBody d
                 (s <| stream_frame_header_ := Some h |> <| incomplete_control_frame_body_ := Some [] |>);
           Done (OK, None, s)
         else convert_to_frame true (data_size d =? payload_length h) d h (s <| stream_frame_header_ := Some h |>)
       else convert_to_frame true (data_size d =? payload_length h) d h (s <| stream_frame_header_ := Some h |>))) as Eq.
  { intros P. unfold ConvertChunkToFrame. cbn [header]. rewrite Hh. cbn. rewrite Hi. done. }
  unfold converted. destruct (IsKnownControlOpCode (opcode h)) eqn:Ec.
  2: { apply (data_converted true d h h 0 (s <| stream_frame_header_ := Some h |>)); try done; try lia.
       by apply (Eq (λ x, x = _)). }
  destruct (_ || _) eqn:Ebad.
  { do 3 eexists. split; [apply (Eq (λ x, x = _)); reflexivity|]. split; [done|]. by right. }
  apply orb_false_iff in Ebad as [Hf%negb_false_iff HL%Z.ltb_ge].
  destruct (Z.eqb_spec (data_size d) (payload_length h)) as [El|El]; cbn [negb] in Eq.
  - destruct (convert_to_frame_ok true true d h 0 (s <| stream_frame_header_ := Some h |>))
      as (frame & s' & E' & Hs & Hok & Hi' & Hk); try done; try lia.
    do 3 eexists. split; [apply (Eq (λ x, x = _)); exact E'|]. split; [exact Hs|]. left.
    unfold next_open. by rewrite El, Z.eqb_refl.
  - do 3 eexists. split.
    { apply (Eq (λ x, x = _)). rewrite (AddToIncomplete_done d _ []); [reflexivity|done|].
      unfold data_size in *. cbn. unfold id in *. lia. }
    split; [done|]. left. split; [done|]. split; [constructor|].
    unfold next_open. rewrite (proj2 (Z.eqb_neq _ _) El). cbn. rewrite Ec. split; [done|]. split; [done|].
    split; [done|]. by eexists.
Qed.

Lemma data_size_Some l : data_size (Some l) = Z.of_nat (length l).
Proof. done. Qed.

Lemma next_chunk_converted d h n s :
  in_step s (Some (h, n)) → 0 <= n → n + data_size d <= payload_length h <= INT32_MAX →
  Forall byte_ok (default [] d) →
  converted (next_open h (n + data_size d))
    (mkWebSocketFrameChunk None (n + data_size d =? payload_length h) d) s.
Proof.
  intros Hs Hn Hle Hb. pose proof (data_size_nonneg d). cbn in Hs.
  destruct (IsKnownControlOpCode (opcode h)) eqn:Ec.
  2: { destruct Hs as (h' & Hh & Hi & Hc' & HL).
       apply (data_converted false d h h' n s); try done. unfold ConvertChunkToFrame. cbn. by rewrite Hh, Hc'. }
  destruct Hs as (Hh & Hf & HL & body & Hi & Hlen & Hbody).
  assert (Z.of_nat (length (body ++ default [] d)) = n + data_size d) as El.
  { rewrite length_app. unfold data_size. lia. }
  assert (Forall byte_ok (body ++ default [] d)) as Hbd by (by apply Forall_app_2).
  unfold converted, ConvertChunkToFrame. cbn. rewrite Hh, Ec, Hf, (proj2 (Z.ltb_ge _ _)) by lia. cbn [negb orb].
  pose proof (AddToIncomplete_done d s body Hi ltac:(lia)) as Ea.
  destruct (Z.eqb_spec (n + data_size d) (payload_length h)) as [Ee|Ee]; cbn [negb]; rewrite Hi, Ea.
  - cbn. rewrite (proj2 (Z.eqb_eq _ _)) by (rewrite El; done). cbn.
    set (s1 := s <| incomplete_control_frame_body_ := Some _ |> <| incomplete_control_frame_body_ := None |>).
    destruct (CreateFrame_ok true (Some (body ++ default [] d)) s1 h Hh) as (frame & s' & E & Hs & Hok & Hi' & Hk).
    + intros _. split; [done|]. rewrite data_size_Some. lia.
    + rewrite data_size_Some. unfold INT64_MAX, INT32_MAX in *. lia.
    + done.
    + rewrite E. do 3 eexists. split; [reflexivity|]. split; [exact Hs|]. left.
      unfold next_open. by rewrite Ee, Z.eqb_refl.
  - do 3 eexists. split; [reflexivity|]. split; [done|]. left. split; [done|]. split; [constructor|].
    unfold next_open. rewrite (proj2 (Z.eqb_neq _ _) Ee). cbn. rewrite Ec. split; [done|]. split; [done|].
    split; [done|]. by eexists.
Qed.

Lemma chunk_converted o c o' s : in_step s o → chunk_step o c o' → converted o' c s.
Proof.
  intros Hs Hc. destruct Hc as [h d Hle Hb|h n d Hn Hle Hb]; [by apply first_chunk_converted|by apply next_chunk_converted].
Qed.

(** ** Reads *)

(** A result of a read, and what it leaves if there may be another. *)
Definition read_kept (after : WebSocketBasicStream → Prop) (r : Z) (frames : list WebSocketFrame)
    (s : WebSocketBasicStream) : Prop :=
  read_ok (r, frames) ∧ (r = ERR_IO_PENDING → frames = []) ∧ (r = OK ∨ r = ERR_IO_PENDING → after s).

Lemma chunks_converted cs : ∀ o o' s frames,
  in_step s o → chunks_from o cs o' → Forall stream_frame_ok frames →
  ∃ r frames' s', ConvertChunksToFrames cs frames s = Done (r, frames', s') ∧
    read_kept (λ s', in_step s' o' ∧ same_source s s') r frames' s'.
Proof.
  induction cs as [|c cs IH]; intros o o' s frames Hs Hcs Hfs; cbn [ConvertChunksToFrames].
  - inversion Hcs; subst. do 3 eexists. split; [reflexivity|].
    case_bool_decide as E; [subst|]; (split; [|split; [done|done]]); by split.
  - inversion Hcs as [|? ? o1 ? ? Hc Hcs']; subst.
    destruct (chunk_converted o c o1 s Hs Hc) as (r & frame & s1 & E & Hsrc & [(-> & Hf & Hs1)| ->]); rewrite E; cbn.
    + destruct (IH o1 o' s1 (frames ++ option_list frame) Hs1 Hcs') as (r & frames' & s' & E' & H1 & H2 & H3);
        [by apply Forall_app_2|].
      exists r, frames', s'. split; [exact E'|]. split; [done|]. split; [done|]. intros Hr.
      destruct (H3 Hr) as [? Hsrc']. split; [done|]. unfold same_source in *. congruence.
    + do 3 eexists. split; [reflexivity|]. split; [by split|]. split; [done|]. by intros [|].
Qed.

Section Stream.
Context (kPackedMaskKeySize : Z) (io_data : WebSocketFrameParser → Z).
Context (word_size : 4 <= kPackedMaskKeySize) (word_keys : kPackedMaskKeySize mod 4 = 0).

(** The bytes of one read. *)
Definition bytes_ok (bytes : list Z) : Prop := Forall byte_ok bytes ∧ Z.of_nat (length bytes) < 2 ^ 63.
Definition socket_read_ok (r : Z * list Z) : Prop := r.1 ≠ ERR_IO_PENDING ∧ bytes_ok r.2.

Definition ready (s : WebSocketBasicStream) : Prop :=
  waiting (parser_ s) ∧ websocket_error_ (parser_ s) = kWebSocketNormalClosure ∧
  Forall byte_ok (masking_key_ (parser_ s)) ∧ in_step s (at_parser (parser_ s)) ∧
  (∀ bytes, http_read_buffer_ s = Some bytes → bytes_ok bytes).

Lemma error_result e : e ≠ kWebSocketNormalClosure →
  WebSocketErrorToNetError e < -1.
Proof. by destruct e. Qed.

Lemma read_kept_error (after : WebSocketBasicStream → Prop) r s : r < -1 → read_kept after r [] s.
Proof.
  intros Hr. unfold read_kept, read_ok, OK, ERR_IO_PENDING. cbn. split; [|split; [done|]].
  - split; [lia|]. intros. lia.
  - intros [|]; lia.
Qed.

Lemma parse_frames_ok bytes s :
  ready s → bytes_ok bytes →
  ∃ r frames s', parse_frames kPackedMaskKeySize io_data bytes [] s = Done (r, frames, s') ∧
    read_kept ready r frames s'.
Proof.
  intros (Hw & He & Hk & Hs & Hbuf) [Hb Hlen]. unfold parse_frames.
  destruct (Decode_returns _ io_data word_size word_keys (parser_ s) bytes [] Hw Hb Hlen)
    as (ok & p & new & E & Hw' & Hok & _).
  destruct (Decode_gives _ io_data word_size word_keys bytes (parser_ s) [] Hw Hk Hb Hlen _ _ _ E)
    as (Hk' & new' & Enew & Hnew).
  cbn in Enew. subst new'. rewrite E, Done_bind. destruct ok.
  2: { do 3 eexists. split; [reflexivity|]. apply read_kept_error, error_result. intros E'. by apply Hok in E'. }
  specialize (Hnew eq_refl). set (s1 := s <| parser_ := p |>).
  assert (∀ s', in_step s' (at_parser p) → same_source s1 s' → ready s') as Hready.
  { intros s' Hs' [= Ep Eb]. unfold ready. rewrite Ep, Eb. split; [exact Hw'|]. split; [by apply Hok|].
    split; [exact Hk'|]. split; [exact Hs'|exact Hbuf]. }
  destruct new as [|c cs].
  - assert (at_parser p = at_parser (parser_ s)) as Eo by (by inversion Hnew).
    do 3 eexists. split; [reflexivity|]. split; [done|]. split; [done|]. intros _.
    apply Hready; [|done]. rewrite Eo. exact Hs.
  - destruct (chunks_converted (c :: cs) _ _ s1 [] Hs Hnew) as (r & frames & s' & E' & H1 & H2 & H3); [constructor|].
    exists r, frames, s'. split; [exact E'|]. split; [done|]. split; [done|]. intros Hr.
    destruct (H3 Hr). by apply Hready.
Qed.

Lemma HandleReadResult_ok result buffer s :
  ready s → socket_read_ok (result, buffer) →
  ∃ r frames s', HandleReadResult kPackedMaskKeySize io_data result buffer [] s = Done (r, frames, s') ∧
    read_kept ready r frames s'.
Proof.
  intros Hs [Hr [Hb Hlen]]. cbn in Hr, Hb, Hlen. unfold HandleReadResult.
  pass_DCHECK ltac:(by apply negb_true_iff, Z.eqb_neq). pass_DCHECK ltac:(done).
  destruct (Z.ltb_spec result 0).
  { do 3 eexists. split; [reflexivity|]. apply read_kept_error. unfold ERR_IO_PENDING in Hr. lia. }
  destruct (result =? 0). { do 3 eexists. split; [reflexivity|]. by apply read_kept_error. }
  apply parse_frames_ok; [done|]. split; [by apply Forall_take|]. rewrite length_take. lia.
Qed.

(** What a whole read gives. *)
Definition read_returns
    (m : outcome (Z * list WebSocketFrame * WebSocketBasicStream * list (Z * list Z))) : Prop :=
  ∃ r frames s rest, m = Done (r, frames, s, rest) ∧ read_kept ready r frames s ∧ Forall socket_read_ok rest.

Lemma read_loop_ok reads : ∀ s, ready s → Forall socket_read_ok reads →
  read_returns (read_loop kPackedMaskKeySize io_data reads [] s).
Proof.
  induction reads as [|[result buffer] reads IH]; intros s Hs Hr; cbn [read_loop].
  { do 4 eexists. split; [reflexivity|]. split; [|constructor]. split; [done|]. by split. }
  apply Forall_cons_1 in Hr as [Hr Hrs].
  destruct (HandleReadResult_ok result buffer s Hs Hr) as (r & frames & s' & E & Hk). rewrite E, Done_bind.
  destruct (Z.eqb_spec r ERR_IO_PENDING) as [->|Hne]; cbn [negb].
  - destruct Hk as (_ & Hf & Hs'). rewrite Hf by done. pass_DCHECK ltac:(done). apply IH; auto.
  - do 4 eexists. split; [reflexivity|]. by split.
Qed.

Lemma ReadFrames_ok reads s : ready s → Forall socket_read_ok reads →
  read_returns (ReadFrames kPackedMaskKeySize io_data reads [] s).
Proof.
  intros Hs Hr. unfold ReadFrames. pass_DCHECK ltac:(done).
  destruct (http_read_buffer_ s) as [bytes|] eqn:Eb; [|by apply read_loop_ok].
  destruct Hs as (H1 & H2 & H3 & H4 & H5).
  destruct (parse_frames_ok bytes (s <| http_read_buffer_ := None |>)) as (r & frames & s' & E & Hk);
    [by repeat (split; [done|])|by apply H5|]. rewrite E, Done_bind.
  destruct (Z.eqb_spec r ERR_IO_PENDING) as [->|Hne]; cbn [negb].
  - destruct Hk as (_ & Hf & Hs'). rewrite Hf by done. apply read_loop_ok; auto.
  - do 4 eexists. split; [reflexivity|]. by split.
Qed.

Lemma OnReadComplete_ok result buffer reads s :
  ready s → socket_read_ok (result, buffer) → Forall socket_read_ok reads →
  read_returns (OnReadComplete kPackedMaskKeySize io_data result buffer reads [] s).
Proof.
  intros Hs Hr Hrs. unfold OnReadComplete.
  destruct (HandleReadResult_ok result buffer s Hs Hr) as (r & frames & s' & E & Hk). rewrite E, Done_bind.
  destruct (Z.eqb_spec r ERR_IO_PENDING) as [->|Hne].
  - destruct Hk as (_ & Hf & Hs'). rewrite Hf by done. apply ReadFrames_ok; auto.
  - do 4 eexists. split; [reflexivity|]. by split.
Qed.

(** The states of a stream, up to a read that fails. *)
Inductive serving : WebSocketBasicStream → Prop :=
  | serving_init buffer : (∀ bytes, buffer = Some bytes → bytes_ok bytes) →
      serving (init_WebSocketBasicStream buffer)
  | serving_read reads s r frames s' rest :
      serving s → Forall socket_read_ok reads →
      ReadFrames kPackedMaskKeySize io_data reads [] s = Done (r, frames, s', rest) →
      r = OK ∨ r = ERR_IO_PENDING → serving s'
  | serving_complete result buffer reads s r frames s' rest :
      serving s → socket_read_ok (result, buffer) → Forall socket_read_ok reads →
      OnReadComplete kPackedMaskKeySize io_data result buffer reads [] s = Done (r, frames, s', rest) →
      r = OK ∨ r = ERR_IO_PENDING → serving s'.

Lemma read_returns_ready m r frames s rest :
  read_returns m → m = Done (r, frames, s, rest) → r = OK ∨ r = ERR_IO_PENDING → ready s.
Proof. intros (r' & f' & s' & t' & -> & (_ & _ & H) & _) [= -> -> -> ->]. auto. Qed.

Lemma serving_ready s : serving s → ready s.
Proof.
  induction 1 as [buffer Hb|reads s r frames s' rest _ IH Hr E Hok|result buffer reads s r frames s' rest _ IH Hr Hrs E Hok].
  - split; [apply (decoding_waiting _ io_data word_size word_keys), decoding_init|]. split; [done|].
    split; [by repeat constructor|]. split; [done|]. intros bytes E. apply Hb. by destruct buffer as [[|]|].
  - by eapply read_returns_ready; [apply ReadFrames_ok|..].
  - by eapply read_returns_ready; [apply OnReadComplete_ok|..].
Qed.
End Stream.

(** ** The theorems *)

(** [C21] Whatever bytes the socket gives, in whatever pieces and with whatever errors, a
    read of a stream that has not failed returns, no check of the stream or of its parser
    failing, and keeps the contract of websocket_stream.h: the result is no positive number;
    [OK] comes with frames; no control frame is fragmented or longer than 125 bytes; and the
    payload has the length that the header says. *)
Theorem stream_keeps_contract (kPackedMaskKeySize : Z) (io_data : WebSocketFrameParser → Z)
    (s : WebSocketBasicStream) (reads : list (Z * list Z)) :
  4 <= kPackedMaskKeySize → kPackedMaskKeySize mod 4 = 0 →
  serving kPackedMaskKeySize io_data s → Forall socket_read_ok reads →
  (∃ r frames s' rest,
     ReadFrames kPackedMaskKeySize io_data reads [] s = Done (r, frames, s', rest) ∧ read_ok (r, frames)) ∧
  (∀ result buffer, socket_read_ok (result, buffer) →
     ∃ r frames s' rest,
       OnReadComplete kPackedMaskKeySize io_data result buffer reads [] s = Done (r, frames, s', rest) ∧
       read_ok (r, frames)).
Proof.
  intros Hk Hd Hs Hr. apply serving_ready in Hs; [|done..]. split.
  - destruct (ReadFrames_ok _ io_data Hk Hd reads s Hs Hr) as (r & frames & s' & rest & E & [H _] & _). eauto 6.
  - intros result buffer Hb.
    destruct (OnReadComplete_ok _ io_data Hk Hd result buffer reads s Hs Hb Hr)
      as (r & frames & s' & rest & E & [H _] & _). eauto 6.
Qed.

(** What a stream answers to the reads of a channel while the socket has bytes. *)
Fixpoint stream_answers (kPackedMaskKeySize : Z) (io_data : WebSocketFrameParser → Z) (fuel : nat)
    (reads : list (Z * list Z)) (s : WebSocketBasicStream) : list (Z * list WebSocketFrame) :=
  match fuel with
  | O => []
  | S fuel =>
      match ReadFrames kPackedMaskKeySize io_data reads [] s with
      | Done (r, frames, s, reads) =>
          (r, frames) :: (if r =? OK then stream_answers kPackedMaskKeySize io_data fuel reads s else [])
      | DcheckFailed => []
      end
  end.

Lemma stream_answers_ok K io_data fuel : 4 <= K → K mod 4 = 0 → ∀ reads s,
  serving K io_data s → Forall socket_read_ok reads → Forall read_ok (stream_answers K io_data fuel reads s).
Proof.
  intros Hk Hd. induction fuel as [|fuel IH]; intros reads s Hs Hr; [constructor|]. cbn [stream_answers].
  destruct (ReadFrames_ok _ io_data Hk Hd reads s (serving_ready _ _ Hk Hd s Hs) Hr)
    as (r & frames & s' & rest & E & [H _] & Hrest). rewrite E. constructor; [done|].
  destruct (Z.eqb_spec r OK) as [->|]; [|constructor]. apply IH; [|done].
  by eapply serving_read; [| |exact E|left].
Qed.

(** [C2] No server breaks a channel.  The read that a channel waits for completes with any
    bytes: its stream returns, and if it has frames or an error for the channel, then the
    channel handles them, and all frames that come at once behind them, without a check
    failing, and the log is still as it must be. *)
Theorem bytes_cannot_break_channel (kPackedMaskKeySize : Z) (io_data : WebSocketFrameParser → Z)
    (w : World) (s : WebSocketBasicStream) (result : Z) (buffer : list Z) (more : list (Z * list Z))
    (fuel : nat) (write_answers : list Z) (event_answers : list ChannelState) :
  4 <= kPackedMaskKeySize → kPackedMaskKeySize mod 4 = 0 →
  reachable w → deleted w = false → read_pending w = true →
  serving kPackedMaskKeySize io_data s →
  socket_read_ok (result, buffer) → Forall socket_read_ok more → Forall (λ r, r <= 0) write_answers →
  ∃ r frames s' rest,
    OnReadComplete kPackedMaskKeySize io_data result buffer more [] s = Done (r, frames, s', rest) ∧
    (r = ERR_IO_PENDING ∨
     ∃ w', dispatch (CallOnReadDone r frames)
             (enter (CallOnReadDone r frames)
                {| writes := write_answers;
                   reads := if r =? OK then stream_answers kPackedMaskKeySize io_data fuel rest s' else [];
                   events := event_answers |} w) = Done (tt, w') ∧
           log_ok (log w')).
Proof.
  intros Hk Hd Hw Hdel Hp Hs Hb Hm Hwr.
  destruct (OnReadComplete_ok _ io_data Hk Hd result buffer more s (serving_ready _ _ Hk Hd s Hs) Hb Hm)
    as (r & frames & s' & rest & E & [H _] & Hrest).
  exists r, frames, s', rest. split; [exact E|].
  destruct (decide (r = ERR_IO_PENDING)) as [->|Hne]; [by left|right].
  set (a := {| writes := write_answers; reads := _; events := event_answers |}).
  assert (answers_ok a) as Ha.
  { split; [exact Hwr|]. cbn. destruct (Z.eqb_spec r OK) as [->|]; [|constructor].
    apply stream_answers_ok; [done|done| |done]. eapply serving_complete; [exact Hs|exact Hb|exact Hm|exact E|by left]. }
  assert (allowed (CallOnReadDone r frames) w) as Hc by done.
  pose proof (dispatch_fine (CallOnReadDone r frames) a w 0 (reachable_Inv w Hw) Hc Ha) as Hf.
  apply wp_done in Hf as ([] & w' & Ew & Hf). exists w'. split; [exact Ew|].
  destruct Hf as [[_ Hl]|(g & _ & (b & ws & Hl) & _)]; [done|by eapply Live_log_ok].
Qed.

(** ** Concrete bytes *)

#[export] Instance socket_read_ok_dec r : Decision (socket_read_ok r).
Proof. unfold socket_read_ok, bytes_ok, byte_ok. apply _. Defined.

(** A Ping cut in the middle of its payload, with the start of a text; and a Close frame that
    claims 126 bytes. *)
Definition ping_in_pieces : list (Z * list Z) := [(4, [137; 3; 97; 98]); (3, [99; 1; 5])].
Definition oversized_close : list (Z * list Z) := [(4, [136; 126; 0; 126])].

Example ping_is_whole :
  (r ← ReadFrames 8 (λ _, 4096) ping_in_pieces [] (init_WebSocketBasicStream None);
   Done (r.1.1.1, map content r.1.1.2))
  = Done (OK, [((new_WebSocketFrameHeader kOpCodePing) <| final := true |> <| payload_length := 3 |>,
                [97; 98; 99]); (new_WebSocketFrameHeader kOpCodeText, [])]).
Proof. vm_compute. reflexivity. Qed.

Example oversized_close_fails :
  (r ← ReadFrames 8 (λ _, 4096) oversized_close [] (init_WebSocketBasicStream None); Done (r.1.1.1))
  = Done ERR_WS_PROTOCOL_ERROR.
Proof. vm_compute. reflexivity. Qed.

Lemma stream_keeps_contract_witness :
  ∃ r frames s' rest,
    ReadFrames 8 (λ _, 4096) ping_in_pieces [] (init_WebSocketBasicStream None) = Done (r, frames, s', rest) ∧
    read_ok (r, frames).
Proof.
  refine (proj1 (stream_keeps_contract 8 (λ _, 4096) (init_WebSocketBasicStream None) ping_in_pieces _ _ _ _)).
  - lia.
  - reflexivity.
  - by constructor.
  - apply (bool_decide_eq_true_1 _). vm_compute. reflexivity.
Defined.

(** The same bytes reach the channel of the example run. *)
Lemma bytes_cannot_break_channel_witness :
  ∃ r frames s' rest,
    OnReadComplete 8 (λ _, 4096) 4 [137; 3; 97; 98] [(3, [99; 1; 5])] [] (init_WebSocketBasicStream None)
      = Done (r, frames, s', rest) ∧
    (r = ERR_IO_PENDING ∨
     ∃ w', dispatch (CallOnReadDone r frames)
             (enter (CallOnReadDone r frames)
                {| writes := [OK];
                   reads := if r =? OK then stream_answers 8 (λ _, 4096) 3 rest s' else [];
                   events := [] |} talked) = Done (tt, w') ∧
           log_ok (log w')).
Proof.
  apply (bytes_cannot_break_channel 8 (λ _, 4096) talked (init_WebSocketBasicStream None) 4 [137; 3; 97; 98]
    [(3, [99; 1; 5])] 3 [OK] []).
  - lia.
  - reflexivity.
  - exact talked_reachable.
  - vm_compute. reflexivity.
  - vm_compute. reflexivity.
  - by constructor.
  - apply (bool_decide_eq_true_1 _). vm_compute. reflexivity.
  - apply (bool_decide_eq_true_1 _). vm_compute. reflexivity.
  - by repeat constructor.
Defined.
