(* ===== verification/WebSocketExtension.v ===== *)
(** * net/websockets/websocket_extension{,_parser}.{h,cc}: the header of the extensions

    A [WebSocketExtension] is a name with parameters, as the header field
    Sec-WebSocket-Extensions has them.  The parser walks over the characters of the field;
    its position [current_] is the list of the characters that remain.  The theorems compare
    it with a grammar, and with the function that prints an extension.  Characters are
    bytes; the code tests them as [char], which is signed. *)

From Stdlib Require Import String.
From S2P Require Import Prelude.

(** ** Characters *)

Definition c_quote : Z := 34.
Definition c_comma : Z := 44.
Definition c_semicolon : Z := 59.
Definition c_equals : Z := 61.
Definition c_backslash : Z := 92.
Definition c_space : Z := 32.
Definition c_tab : Z := 9.

(** [HttpUtil::IsToken] tests [unsigned char]s. *)
Definition token_char (c : Z) : bool :=
  negb ((128 <=? c) || (c <=? 31) || (c =? 127) ||
        bool_decide (c ∈ ([40; 41; 60; 62; 64; 44; 59; 58; 92; 34; 47; 91; 93; 63; 61; 123; 125; 32; 9] : list Z))).
Definition IsToken (s : list Z) : bool := negb (bool_decide (s = [])) && forallb token_char s.

Definition IsControl (c : Z) : bool :=
  (0 <=? signed_char c) && (signed_char c <=? 31) || (signed_char c =? 127).
(** [strchr] finds the 0 at the end of the string, too. *)
Definition separators : list Z := [40; 41; 60; 62; 64; 44; 59; 58; 92; 34; 47; 91; 93; 63; 61; 123; 125; 32; 9].
Definition IsSeparator (c : Z) : bool := bool_decide (c ∈ separators ++ [0]).

(** ** Extensions *)

Record ExtensionParameter : Type := mkParameter { parameter_name_ : list Z; parameter_value_ : list Z }.
#[export] Instance Parameter_eq_dec : EqDecision ExtensionParameter.
Proof. solve_decision. Defined.

Record WebSocketExtension : Type := mkWebSocketExtension {
  extension_name_ : list Z;
  parameters_ : list ExtensionParameter
}.
#[export] Instance WebSocketExtension_eq_dec : EqDecision WebSocketExtension.
Proof. solve_decision. Defined.

(** The two constructors. *)
Definition Parameter_named (name : list Z) : ExtensionParameter :=
  {| parameter_name_ := name; parameter_value_ := [] |}.
Definition Parameter_valued (name value : list Z) : outcome ExtensionParameter :=
  DCHECK (negb (bool_decide (value = []))) ;;
  DCHECK (IsToken value) ;;
  Done {| parameter_name_ := name; parameter_value_ := value |}.
Definition HasValue (p : ExtensionParameter) : bool := negb (bool_decide (parameter_value_ p = [])).
Definition Parameter_Equals (p other : ExtensionParameter) : bool :=
  bool_decide (parameter_name_ p = parameter_name_ other) &&
  bool_decide (parameter_value_ p = parameter_value_ other).

Definition new_WebSocketExtension (name : list Z) : WebSocketExtension :=
  {| extension_name_ := name; parameters_ := [] |}.
Definition Add (parameter : ExtensionParameter) (e : WebSocketExtension) : WebSocketExtension :=
  {| extension_name_ := extension_name_ e; parameters_ := parameters_ e ++ [parameter] |}.

(** Two multimaps of the same pairs are equal if the pairs of each name come in the same
    order, which is that of their insertion. *)
Definition values_of (name : list Z) (ps : list ExtensionParameter) : list (list Z) :=
  map parameter_value_ (filter (λ p, parameter_name_ p = name) ps).
Definition Equals (e other : WebSocketExtension) : bool :=
  if negb (bool_decide (extension_name_ e = extension_name_ other)) then false
  else if negb (length (parameters_ e) =? length (parameters_ other))%nat then false
  else forallb (λ p, bool_decide (values_of (parameter_name_ p) (parameters_ e)
                                  = values_of (parameter_name_ p) (parameters_ other)))
         (parameters_ e).

(** The loop of [ToString]; [result] is the string so far. *)
Fixpoint print_parameters (ps : list ExtensionParameter) (result : list Z) : outcome (list Z) :=
  match ps with
  | [] => Done result
  | param :: ps =>
      let result := result ++ chars "; "%string ++ parameter_name_ param in
      if negb (HasValue param) then print_parameters ps result
      else
        DCHECK (IsToken (parameter_value_ param)) ;;
        print_parameters ps (result ++ [c_equals] ++ parameter_value_ param)
  end.

Definition ToString (e : WebSocketExtension) : outcome (list Z) :=
  if bool_decide (extension_name_ e = []) then Done []
  else print_parameters (parameters_ e) (extension_name_ e).

(** ** The parser *)

Fixpoint ConsumeSpaces (current_ : list Z) : list Z :=
  match current_ with
  | c :: rest => if (c =? c_space) || (c =? c_tab) then ConsumeSpaces rest else current_
  | [] => []
  end.

(** A method that consumes gives its result and the new position. *)
Definition Consume (c : Z) (current_ : list Z) : bool * list Z :=
  let current_ := ConsumeSpaces current_ in
  match current_ with
  | [] => (false, current_)
  | c0 :: rest => if negb (c =? c0) then (false, current_) else (true, rest)
  end.

Definition Lookahead (c : Z) (current_ : list Z) : bool := fst (Consume c current_).

Definition ConsumeIfMatch (c : Z) (current_ : list Z) : bool * list Z :=
  let head := current_ in
  let '(result, current_) := Consume c current_ in
  if negb result then (false, head) else (true, current_).

(** The characters of a token, and what is behind them. *)
Fixpoint token_loop (current_ : list Z) : list Z * list Z :=
  match current_ with
  | c :: rest =>
      if negb (IsControl c) && negb (IsSeparator c)
      then let '(token, current_) := token_loop rest in (c :: token, current_)
      else ([], current_)
  | [] => ([], [])
  end.

(** [None]: the result is false. *)
Definition ConsumeToken (current_ : list Z) : option (list Z) * list Z :=
  let current_ := ConsumeSpaces current_ in
  let '(token, current_) := token_loop current_ in
  if bool_decide (token = []) then (None, current_) else (Some token, current_).

(** The loop of [ConsumeQuotedToken]. *)
Fixpoint quoted_loop (current_ : list Z) (token : list Z) : list Z * list Z :=
  match current_ with
  | [] => (token, current_)
  | c :: rest =>
      if IsControl c then (token, current_)
      else
        match rest with
        | next :: rest' =>
            if c =? c_backslash then
              if IsControl next || IsSeparator next then (token, current_)
              else quoted_loop rest' (token ++ [next])
            else if IsSeparator c then (token, current_)
            else quoted_loop rest (token ++ [c])
        | [] => if IsSeparator c then (token, current_) else quoted_loop rest (token ++ [c])
        end
  end.

Definition ConsumeQuotedToken (current_ : list Z) : option (list Z) * list Z :=
  let '(result, current_) := Consume c_quote current_ in
  if negb result then (None, current_)
  else
    let '(token, current_) := quoted_loop current_ [] in
    match current_ with
    | c :: rest =>
        if negb (c =? c_quote) then (None, current_)
        else (if bool_decide (token = []) then None else Some token, rest)
    | [] => (None, current_)
    end.

Definition ConsumeExtensionParameter (current_ : list Z) : outcome (option ExtensionParameter * list Z) :=
  match ConsumeToken current_ with
  | (None, current_) => Done (None, current_)
  | (Some name, current_) =>
      let '(result, current_) := ConsumeIfMatch c_equals current_ in
      if negb result then Done (Some (Parameter_named name), current_)
      else
        match (if Lookahead c_quote current_ then ConsumeQuotedToken current_ else ConsumeToken current_) with
        | (None, current_) => Done (None, current_)
        | (Some value_string, current_) =>
            parameter ← Parameter_valued name value_string;
            Done (Some parameter, current_)
        end
  end.

(** The loop of [ConsumeExtension].  A loop that runs out of fuel is not [Done]. *)
Fixpoint parameters_loop (fuel : nat) (extension : WebSocketExtension) (current_ : list Z) :
    outcome (option WebSocketExtension * list Z) :=
  match fuel with
  | O => DcheckFailed
  | S fuel =>
      let '(result, current_) := ConsumeIfMatch c_semicolon current_ in
      if negb result then Done (Some extension, current_)
      else
        r ← ConsumeExtensionParameter current_;
        match r with
        | (None, current_) => Done (None, current_)
        | (Some parameter, current_) => parameters_loop fuel (Add parameter extension) current_
        end
  end.

Definition ConsumeExtension (current_ : list Z) : outcome (option WebSocketExtension * list Z) :=
  match ConsumeToken current_ with
  | (None, current_) => Done (None, current_)
  | (Some name, current_) =>
      parameters_loop (S (length current_)) (new_WebSocketExtension name) current_
  end.

(** The loop of [Parse]: whether it failed, the extensions and the position. *)
Fixpoint extensions_loop (fuel : nat) (extensions_ : list WebSocketExtension) (current_ : list Z) :
    outcome (bool * list WebSocketExtension * list Z) :=
  match fuel with
  | O => DcheckFailed
  | S fuel =>
      r ← ConsumeExtension current_;
      match r with
      | (None, current_) => Done (true, extensions_, current_)
      | (Some extension, current_) =>
          let extensions_ := extensions_ ++ [extension] in
          let current_ := ConsumeSpaces current_ in
          let '(result, current_) := ConsumeIfMatch c_comma current_ in
          if negb result then Done (false, extensions_, current_)
          else extensions_loop fuel extensions_ current_
      end
  end.

(** The result and [extensions()]. *)
Definition Parse (data : list Z) : outcome (bool * list WebSocketExtension) :=
  r ← extensions_loop (S (length data)) [] data;
  let '(failed, extensions_, current_) := r : bool * list WebSocketExtension * list Z in
  if negb failed && bool_decide (current_ = []) then Done (true, extensions_) else Done (false, []).

Example parse_two :
  Parse (chars "permessage-deflate; client_max_window_bits=15 ;x = "%string ++ [c_quote] ++ chars "a\b"%string
         ++ [c_quote] ++ chars " , foo"%string) =
  Done (true, [mkWebSocketExtension (chars "permessage-deflate"%string)
                 [mkParameter (chars "client_max_window_bits"%string) (chars "15"%string);
                  mkParameter (chars "x"%string) (chars "ab"%string)];
               mkWebSocketExtension (chars "foo"%string) []]).
Proof. vm_compute. reflexivity. Qed.

(** A byte above 127 is neither a control character nor a separator, but it is not allowed in
    a token: a check fails. *)
Example parse_high_byte : Parse (chars "a;b="%string ++ [195]) = DcheckFailed.
Proof. vm_compute. reflexivity. Qed.

(** ** The grammar of the field

    Tokens separated by [;], [=] and [,], with blanks in front of each of them and of each
    token; a value may be quoted, and then have characters escaped. *)

Definition blank (c : Z) : Prop := c = c_space ∨ c = c_tab.
Definition plain (c : Z) : Prop := IsControl c = false ∧ IsSeparator c = false.
Definition token (t : list Z) : Prop := t ≠ [] ∧ Forall plain t.
#[export] Instance blank_dec c : Decision (blank c).
Proof. unfold blank. apply _. Defined.
#[export] Instance plain_dec c : Decision (plain c).
Proof. unfold plain. apply _. Defined.

Inductive quoted : list Z → list Z → Prop :=
  | quoted_nil : quoted [] []
  | quoted_char c text value : plain c → quoted text value → quoted (c :: text) (c :: value)
  | quoted_escape c text value : plain c → quoted text value → quoted (c_backslash :: c :: text) (c :: value).

Inductive value_text : list Z → list Z → Prop :=
  | value_token t : token t → value_text t t
  | value_quoted text value : value ≠ [] → quoted text value →
      value_text (c_quote :: text ++ [c_quote]) value.

Inductive parameter_text : list Z → ExtensionParameter → Prop :=
  | parameter_named sp name : Forall blank sp → token name →
      parameter_text (sp ++ name) (Parameter_named name)
  | parameter_valued sp name sp' sp'' text value :
      Forall blank sp → token name → Forall blank sp' → Forall blank sp'' → value_text text value →
      parameter_text (sp ++ name ++ sp' ++ c_equals :: sp'' ++ text) (mkParameter name value).

Inductive parameters_text : list Z → list ExtensionParameter → Prop :=
  | parameters_nil : parameters_text [] []
  | parameters_cons sp text p rest ps :
      Forall blank sp → parameter_text text p → parameters_text rest ps →
      parameters_text (sp ++ c_semicolon :: text ++ rest) (p :: ps).

Inductive extension_text : list Z → WebSocketExtension → Prop :=
  | extension_intro sp name text ps :
      Forall blank sp → token name → parameters_text text ps →
      extension_text (sp ++ name ++ text) (mkWebSocketExtension name ps).

Inductive header_text : list Z → list WebSocketExtension → Prop :=
  | header_last text e sp : extension_text text e → Forall blank sp → header_text (text ++ sp) [e]
  | header_more text e sp rest es :
      extension_text text e → Forall blank sp → header_text rest es →
      header_text (text ++ sp ++ c_comma :: rest) (e :: es).

(** ** Characters *)

Definition ascii (c : Z) : Prop := 0 <= c < 128.
#[export] Instance ascii_dec c : Decision (ascii c).
Proof. unfold ascii. apply _. Defined.

Lemma token_char_plain c : 0 <= c → token_char c = true → plain c.
Proof.
  unfold token_char, plain, IsControl, IsSeparator, separators, signed_char. intros Hc H.
  apply negb_true_iff in H. apply orb_false_iff in H as [H Hs]. prop_bools.
  rewrite (proj2 (Z.ltb_lt c 128)) by lia. split.
  - decide_tests lia. done.
  - apply bool_decide_eq_false_2. rewrite elem_of_app, list_elem_of_singleton. intros [?| ->]; [done|lia].
Qed.

Lemma plain_token_char c : ascii c → plain c → token_char c = true.
Proof.
  unfold ascii, token_char, plain, IsControl, IsSeparator, separators, signed_char. intros Hc [H1 H2].
  rewrite (proj2 (Z.ltb_lt c 128)) in H1 by lia. apply bool_decide_eq_false_1 in H2.
  apply orb_false_iff in H1 as [H1 H3]. rewrite elem_of_app in H2.
  apply negb_true_iff. rewrite bool_decide_eq_false_2 by tauto.
  apply andb_false_iff in H1 as [H1|H1]; prop_bools; [lia|]. decide_tests lia. done.
Qed.

Lemma token_IsToken t : token t → Forall ascii t → IsToken t = true.
Proof.
  intros [Hne Hp] Ha. unfold IsToken. rewrite bool_decide_eq_false_2 by done. cbn.
  apply forallb_forall. intros c Hc. rewrite Forall_forall in *.
  apply plain_token_char; [by apply Ha|by apply Hp].
Qed.

Lemma IsToken_token t : Forall (λ c, 0 <= c) t → IsToken t = true → token t.
Proof.
  unfold IsToken. intros Ha H. apply andb_true_iff in H as [H1 H2]. prop_bools. split; [done|].
  rewrite Forall_forall in *. intros c Hc. apply token_char_plain; [by apply Ha|].
  by apply (proj1 (forallb_forall _ _) H2).
Qed.

Lemma blank_not_plain c : blank c → ¬ plain c.
Proof. intros [-> | ->] [_ H]; vm_compute in H; discriminate. Qed.

Lemma ConsumeSpaces_app sp rest : Forall blank sp → ConsumeSpaces (sp ++ rest) = ConsumeSpaces rest.
Proof. induction 1 as [|c sp [-> | ->] _ IH]; cbn; [done|apply IH|apply IH]. Qed.

Lemma ConsumeSpaces_split cur :
  ∃ sp, cur = sp ++ ConsumeSpaces cur ∧ Forall blank sp ∧
    (∀ c rest, ConsumeSpaces cur = c :: rest → ¬ blank c).
Proof.
  induction cur as [|c cur (sp & E & Hsp & Hh)]; [by exists []|]. cbn [ConsumeSpaces].
  destruct ((c =? c_space) || (c =? c_tab)) eqn:Ec.
  - exists (c :: sp). cbn. rewrite <- E. split; [done|]. split; [|done]. constructor; [|done].
    apply orb_true_iff in Ec as [?|?]; [left|right]; lia.
  - exists []. split; [done|]. split; [done|]. intros ? ? [= <- <-]. prop_bools. intros [|]; lia.
Qed.

Lemma ConsumeSpaces_cons c rest : ¬ blank c → ConsumeSpaces (c :: rest) = c :: rest.
Proof.
  intros H. cbn. destruct ((c =? c_space) || (c =? c_tab)) eqn:Ec; [|done]. exfalso. apply H.
  apply orb_true_iff in Ec as [?|?]; [left|right]; lia.
Qed.

(** The first character that is not blank. *)
Definition upcoming (cur : list Z) : option Z := head (ConsumeSpaces cur).
(** A token ends here. *)
Definition stops (cur : list Z) : Prop := match cur with [] => True | c :: _ => ¬ plain c end.

Lemma upcoming_app sp rest : Forall blank sp → upcoming (sp ++ rest) = upcoming rest.
Proof. intros. unfold upcoming. by rewrite ConsumeSpaces_app. Qed.

Lemma stops_app sp rest : Forall blank sp → stops rest → stops (sp ++ rest).
Proof. intros [|c ? Hc]; [done|]. intros _. by apply blank_not_plain. Qed.

Lemma ConsumeIfMatch_hit c sp rest : ¬ blank c → Forall blank sp →
  ConsumeIfMatch c (sp ++ c :: rest) = (true, rest).
Proof.
  intros Hc Hs. unfold ConsumeIfMatch, Consume. rewrite ConsumeSpaces_app, ConsumeSpaces_cons by done.
  by rewrite Z.eqb_refl.
Qed.

Lemma ConsumeIfMatch_miss c cur : upcoming cur ≠ Some c → ConsumeIfMatch c cur = (false, cur).
Proof.
  unfold upcoming, ConsumeIfMatch, Consume. destruct (ConsumeSpaces cur) as [|c0 rest]; [done|].
  cbn. intros H. by rewrite (proj2 (Z.eqb_neq c c0)) by congruence.
Qed.

Lemma ConsumeIfMatch_split c cur : ConsumeIfMatch c cur = (false, cur) ∨
  ∃ sp rest, ConsumeIfMatch c cur = (true, rest) ∧ cur = sp ++ c :: rest ∧ Forall blank sp.
Proof.
  unfold ConsumeIfMatch, Consume. destruct (ConsumeSpaces_split cur) as (sp & E & Hsp & _).
  destruct (ConsumeSpaces cur) as [|c0 rest]; [by left|]. destruct (Z.eqb_spec c c0) as [->|]; [|by left].
  right. by exists sp, rest.
Qed.

(** ** Tokens and quoted tokens *)

Lemma token_loop_split cur : ∃ t rest, token_loop cur = (t, rest) ∧ cur = t ++ rest ∧ Forall plain t ∧ stops rest.
Proof.
  induction cur as [|c cur (t & rest & E & -> & Ht & Hs)]; [by exists [], []|]. cbn [token_loop].
  destruct (negb (IsControl c) && negb (IsSeparator c)) eqn:Ec.
  - apply andb_true_iff in Ec as [E1%negb_true_iff E2%negb_true_iff].
    rewrite E. exists (c :: t), rest. by repeat constructor.
  - exists [], (c :: t ++ rest). split_and!; [done|done|done|]. intros [E1 E2]. by rewrite E1, E2 in Ec.
Qed.

Lemma token_loop_app t rest : Forall plain t → stops rest → token_loop (t ++ rest) = (t, rest).
Proof.
  intros Ht Hs. induction Ht as [|c t [E1 E2] _ IH]; cbn [token_loop app].
  - destruct rest as [|c rest]; [done|]. cbn. destruct (IsControl c) eqn:E1; [done|].
    destruct (IsSeparator c) eqn:E2; [done|]. by destruct Hs.
  - by rewrite E1, E2, IH.
Qed.

Lemma ConsumeToken_complete sp t rest :
  Forall blank sp → token t → stops rest → ConsumeToken (sp ++ t ++ rest) = (Some t, rest).
Proof.
  intros Hsp [Hne Ht] Hs. unfold ConsumeToken. rewrite ConsumeSpaces_app by done.
  assert (ConsumeSpaces (t ++ rest) = t ++ rest) as ->.
  { destruct Ht as [|c t Hc _]; [done|]. apply ConsumeSpaces_cons. intros Hb. by apply (blank_not_plain c). }
  rewrite token_loop_app by done. by rewrite bool_decide_eq_false_2.
Qed.

Lemma ConsumeToken_sound cur t rest : ConsumeToken cur = (Some t, rest) →
  ∃ sp, cur = sp ++ t ++ rest ∧ Forall blank sp ∧ token t ∧ stops rest.
Proof.
  unfold ConsumeToken. destruct (ConsumeSpaces_split cur) as (sp & E & Hsp & _).
  destruct (token_loop_split (ConsumeSpaces cur)) as (t' & rest' & -> & E' & Ht & Hs).
  case_bool_decide; [done|]. intros [= -> ->]. exists sp. rewrite <- E'. by repeat split.
Qed.

Lemma c_quote_stops : ¬ plain c_quote.
Proof. intros [_ H]. vm_compute in H. discriminate. Qed.
Lemma c_backslash_stops : ¬ plain c_backslash.
Proof. intros [_ H]. vm_compute in H. discriminate. Qed.
Lemma c_quote_not_blank : ¬ blank c_quote.
Proof. intros [|]; discriminate. Qed.

Lemma quoted_loop_step c rest value : plain c → quoted_loop (c :: rest) value = quoted_loop rest (value ++ [c]).
Proof.
  intros Hc. assert (c <> c_backslash) as Hb by (intros ->; by apply c_backslash_stops).
  destruct Hc as [E1 E2]. cbn [quoted_loop]. rewrite E1.
  destruct rest; [by rewrite E2|]. by rewrite (proj2 (Z.eqb_neq c c_backslash)), E2.
Qed.

Lemma quoted_loop_complete text value : quoted text value → ∀ value0 rest,
  quoted_loop (text ++ c_quote :: rest) value0 = (value0 ++ value, c_quote :: rest).
Proof.
  induction 1 as [|c text value Hc _ IH|c text value Hc _ IH]; intros value0 rest.
  - rewrite app_nil_r. by destruct rest.
  - rewrite <- app_comm_cons, quoted_loop_step, IH by done. by rewrite <- app_assoc.
  - destruct Hc as [E1 E2]. cbn [app quoted_loop]. rewrite E1, E2. cbn. by rewrite IH, <- app_assoc.
Qed.

Lemma quoted_loop_sound n : ∀ cur value0, (length cur <= n)%nat →
  ∃ text value rest, quoted_loop cur value0 = (value0 ++ value, rest) ∧ cur = text ++ rest ∧ quoted text value.
Proof.
  induction n as [|n IH]; intros cur value0 Hn.
  { exists [], [], cur. destruct cur; [|cbn in Hn; lia]. rewrite app_nil_r. by repeat constructor. }
  assert (∃ text value rest, (value0, cur) = (value0 ++ value, rest) ∧ cur = text ++ rest ∧ quoted text value) as Hstop
    by (exists [], [], cur; rewrite app_nil_r; by repeat constructor).
  destruct cur as [|c cur]; [done|]. destruct (decide (plain c)) as [Hc|Hc].
  { rewrite quoted_loop_step by done.
    destruct (IH cur (value0 ++ [c])) as (text & value & rest & -> & -> & Hq); [cbn in Hn; lia|].
    exists (c :: text), (c :: value), rest. rewrite <- app_assoc. split; [done|]. split; [done|]. by apply quoted_char. }
  cbn [quoted_loop]. destruct (IsControl c) eqn:E1; [done|].
  destruct (IsSeparator c) eqn:E2; [|by destruct Hc]. destruct cur as [|next cur]; [done|].
  destruct (Z.eqb_spec c c_backslash) as [->|]; [|done].
  destruct (IsControl next) eqn:E3; [done|]. destruct (IsSeparator next) eqn:E4; [done|]. cbn.
  destruct (IH cur (value0 ++ [next])) as (text & value & rest & -> & -> & Hq); [cbn in Hn; lia|].
  exists (c_backslash :: next :: text), (next :: value), rest. rewrite <- app_assoc.
  split; [done|]. split; [done|]. by apply quoted_escape.
Qed.

Lemma ConsumeQuotedToken_complete sp text value rest :
  Forall blank sp → quoted text value → value ≠ [] →
  ConsumeQuotedToken (sp ++ c_quote :: text ++ c_quote :: rest) = (Some value, rest).
Proof.
  intros Hsp Hq Hne. unfold ConsumeQuotedToken, Consume.
  rewrite ConsumeSpaces_app, ConsumeSpaces_cons by (done || apply c_quote_not_blank). cbn [negb Z.eqb c_quote Pos.eqb].
  rewrite (quoted_loop_complete text value Hq []). cbn [app]. by rewrite bool_decide_eq_false_2.
Qed.

Lemma ConsumeQuotedToken_sound cur value rest : ConsumeQuotedToken cur = (Some value, rest) →
  ∃ sp text, cur = sp ++ c_quote :: text ++ c_quote :: rest ∧ Forall blank sp ∧ quoted text value ∧ value ≠ [].
Proof.
  unfold ConsumeQuotedToken, Consume. destruct (ConsumeSpaces_split cur) as (sp & E & Hsp & _).
  destruct (ConsumeSpaces cur) as [|c cur']; [done|]. destruct (Z.eqb_spec c_quote c) as [<-|]; [|done]. cbn [negb].
  destruct (quoted_loop_sound _ cur' [] ltac:(done)) as (text & value' & rest' & -> & -> & Hq). cbn [app].
  destruct rest' as [|c rest']; [done|]. destruct (Z.eqb_spec c c_quote) as [->|]; [|done]. cbn [negb].
  case_bool_decide; [done|]. intros [= -> ->]. by exists sp, text.
Qed.

Lemma quoted_plain text value : quoted text value → Forall plain value.
Proof. by induction 1; constructor. Qed.

Lemma quoted_ascii text value : quoted text value → Forall ascii text → Forall ascii value.
Proof.
  induction 1 as [|c text value _ _ IH|c text value _ _ IH]; intros H; [done|..].
  - apply Forall_cons_1 in H as [Hc H]. by constructor; auto.
  - apply Forall_cons_1 in H as [_ H]. apply Forall_cons_1 in H as [Hc H]. by constructor; auto.
Qed.

Lemma value_text_token text value : value_text text value → token value.
Proof. intros [t Ht|t v Hne Hq]; [done|]. split; [done|]. by eapply quoted_plain. Qed.

Lemma value_text_ascii text value : value_text text value → Forall ascii text → Forall ascii value.
Proof.
  intros [t Ht|t v Hne Hq]; [done|]. intros H. apply Forall_cons_1 in H as [_ H].
  apply Forall_app in H as [H _]. by eapply quoted_ascii.
Qed.

Lemma value_text_IsToken text value : value_text text value → Forall ascii text → IsToken value = true.
Proof. intros. apply token_IsToken; [by eapply value_text_token|by eapply value_text_ascii]. Qed.

(** The value of a parameter, behind the [=]. *)
Definition ConsumeValue (cur : list Z) : option (list Z) * list Z :=
  if Lookahead c_quote cur then ConsumeQuotedToken cur else ConsumeToken cur.

Lemma ConsumeValue_complete sp text value rest :
  Forall blank sp → value_text text value → stops rest → ConsumeValue (sp ++ text ++ rest) = (Some value, rest).
Proof.
  intros Hsp [t Ht|t v Hne Hq] Hs; unfold ConsumeValue, Lookahead, Consume.
  - pose proof Ht as [Hne Hp]. rewrite ConsumeSpaces_app by done. destruct Hp as [|c t Hc Hp]; [done|].
    rewrite <- app_comm_cons, ConsumeSpaces_cons by (intros Hb; by apply (blank_not_plain c)).
    rewrite (proj2 (Z.eqb_neq c_quote c)) by (intros <-; by apply c_quote_stops).
    by apply (ConsumeToken_complete sp (c :: t) rest).
  - rewrite <- app_comm_cons, <- app_assoc. cbn [app].
    rewrite ConsumeSpaces_app, ConsumeSpaces_cons by (done || apply c_quote_not_blank).
    cbn [negb fst Z.eqb c_quote Pos.eqb]. by apply ConsumeQuotedToken_complete.
Qed.

Lemma ConsumeValue_sound cur value rest : ConsumeValue cur = (Some value, rest) →
  ∃ sp text, cur = sp ++ text ++ rest ∧ Forall blank sp ∧ value_text text value.
Proof.
  unfold ConsumeValue. destruct (Lookahead c_quote cur).
  - intros (sp & text & -> & Hsp & Hq & Hne)%ConsumeQuotedToken_sound.
    exists sp, (c_quote :: text ++ [c_quote]). rewrite <- app_comm_cons, <- app_assoc.
    split; [done|]. split; [done|]. by apply value_quoted.
  - intros (sp & -> & Hsp & Ht & _)%ConsumeToken_sound. exists sp, value.
    split; [done|]. split; [done|]. by apply value_token.
Qed.

(** ** Parameters *)

(** What [ConsumeExtensionParameter] does, with the value read by [ConsumeValue]. *)
Lemma ConsumeExtensionParameter_unfold cur :
  ConsumeExtensionParameter cur =
  match ConsumeToken cur with
  | (None, cur) => Done (None, cur)
  | (Some name, cur) =>
      match ConsumeIfMatch c_equals cur with
      | (false, cur) => Done (Some (Parameter_named name), cur)
      | (true, cur) =>
          match ConsumeValue cur with
          | (None, cur) => Done (None, cur)
          | (Some value, cur) => parameter ← Parameter_valued name value; Done (Some parameter, cur)
          end
      end
  end.
Proof.
  unfold ConsumeExtensionParameter. destruct (ConsumeToken cur) as [[name|] cur']; [|done].
  by destruct (ConsumeIfMatch c_equals cur') as [[] cur''].
Qed.

Lemma Parameter_valued_token text name value : value_text text value → Forall ascii text →
  Parameter_valued name value = Done (mkParameter name value).
Proof.
  intros Hv Ha. unfold Parameter_valued. rewrite (value_text_IsToken text) by done.
  destruct (value_text_token _ _ Hv) as [Hne _]. by rewrite bool_decide_eq_false_2.
Qed.

Lemma parameter_complete text p rest :
  parameter_text text p → Forall ascii text → stops rest → upcoming rest ≠ Some c_equals →
  ConsumeExtensionParameter (text ++ rest) = Done (Some p, rest).
Proof.
  intros [sp name Hsp Hn|sp name sp' sp'' t value Hsp Hn Hsp' Hsp'' Hv] Ha Hs Hu;
    rewrite ConsumeExtensionParameter_unfold.
  - by rewrite <- app_assoc, ConsumeToken_complete, ConsumeIfMatch_miss.
  - rewrite <- !app_assoc, <- app_comm_cons, <- app_assoc, ConsumeToken_complete; [|done|done|].
    + rewrite ConsumeIfMatch_hit by (done || by intros [|]). rewrite (ConsumeValue_complete sp'' t value) by done.
      rewrite (Parameter_valued_token t); [done|done|].
      rewrite !Forall_app, Forall_cons_iff, Forall_app in Ha. tauto.
    + apply stops_app; [done|]. intros [_ E]. vm_compute in E. discriminate.
Qed.

Lemma parameter_sound cur : Forall ascii cur →
  ∃ r rest, ConsumeExtensionParameter cur = Done (r, rest) ∧
    ∀ p, r = Some p → ∃ text, cur = text ++ rest ∧ parameter_text text p.
Proof.
  intros Ha. rewrite ConsumeExtensionParameter_unfold.
  destruct (ConsumeToken cur) as [[name|] cur'] eqn:Et; [|by exists None, cur'].
  apply ConsumeToken_sound in Et as (sp & -> & Hsp & Hn & _).
  destruct (ConsumeIfMatch_split c_equals cur') as [->|(sp' & cur'' & -> & -> & Hsp')].
  { exists (Some (Parameter_named name)), cur'. split; [done|]. intros p [= <-]. exists (sp ++ name).
    rewrite <- app_assoc. split; [done|]. by constructor. }
  destruct (ConsumeValue cur'') as [[value|] rest] eqn:Ev; [|by exists None, rest].
  apply ConsumeValue_sound in Ev as (sp'' & text & -> & Hsp'' & Hv).
  rewrite (Parameter_valued_token text); [|done|].
  2: { rewrite !Forall_app, Forall_cons_iff, !Forall_app in Ha. tauto. }
  exists (Some (mkParameter name value)), rest. split; [done|]. intros p [= <-].
  exists (sp ++ name ++ sp' ++ c_equals :: sp'' ++ text).
  split; [by rewrite <- !app_assoc, <- app_comm_cons, <- app_assoc|]. by constructor.
Qed.

(** A parameter is not empty, and neither is what follows it up to the next. *)
Lemma parameters_stops text ps rest : parameters_text text ps → stops rest → stops (text ++ rest).
Proof.
  intros [|sp t p r ps' Hsp _ _] Hs; [done|]. rewrite <- app_assoc. apply stops_app; [done|].
  intros [_ E]. vm_compute in E. discriminate.
Qed.

Lemma upcoming_cons c rest : ¬ blank c → upcoming (c :: rest) = Some c.
Proof. intros. unfold upcoming. by rewrite ConsumeSpaces_cons. Qed.

Lemma parameters_upcoming text ps rest c :
  parameters_text text ps → c ≠ c_semicolon → upcoming rest ≠ Some c → upcoming (text ++ rest) ≠ Some c.
Proof.
  intros [|sp t p r ps' Hsp _ _] Hc Hu; [done|].
  rewrite <- app_assoc, upcoming_app, <- app_comm_cons, upcoming_cons by (done || by intros [|]). congruence.
Qed.

Lemma parameters_complete text ps : parameters_text text ps → ∀ fuel e rest,
  Forall ascii text → stops rest → upcoming rest ≠ Some c_equals → upcoming rest ≠ Some c_semicolon →
  (length text < fuel)%nat →
  parameters_loop fuel e (text ++ rest)
    = Done (Some (mkWebSocketExtension (extension_name_ e) (parameters_ e ++ ps)), rest).
Proof.
  induction 1 as [|sp t p r ps Hsp Hp Hr IH]; intros [|fuel] e rest Ha Hs He Hsc Hf; try lia; cbn [parameters_loop].
  - cbn [app]. rewrite ConsumeIfMatch_miss by done. rewrite app_nil_r. by destruct e.
  - rewrite <- app_assoc, <- app_comm_cons, <- app_assoc, ConsumeIfMatch_hit by (done || by intros [|]). cbn [negb].
    rewrite Forall_app, Forall_cons_iff, Forall_app in Ha. destruct Ha as (_ & _ & Ha1 & Ha2).
    rewrite (parameter_complete t p), Done_bind.
    + rewrite IH; [|done..|]. { cbn. by rewrite <- app_assoc. }
      rewrite !length_app in Hf. cbn in Hf. rewrite length_app in Hf. lia.
    + done.
    + done.
    + by eapply parameters_stops.
    + by eapply parameters_upcoming.
Qed.

Lemma parameters_sound fuel : ∀ e cur, Forall ascii cur → (length cur < fuel)%nat →
  ∃ r rest, parameters_loop fuel e cur = Done (r, rest) ∧
    ∀ e', r = Some e' → ∃ text ps, cur = text ++ rest ∧ parameters_text text ps ∧
      e' = mkWebSocketExtension (extension_name_ e) (parameters_ e ++ ps).
Proof.
  induction fuel as [|fuel IH]; intros e cur Ha Hf; [lia|]. cbn [parameters_loop].
  destruct (ConsumeIfMatch_split c_semicolon cur) as [->|(sp & cur' & -> & -> & Hsp)]; cbn [negb].
  { exists (Some e), cur. split; [done|]. intros e' [= <-]. exists [], []. rewrite app_nil_r.
    split; [done|]. split; [constructor|]. by destruct e. }
  rewrite Forall_app, Forall_cons_iff in Ha. destruct Ha as (_ & _ & Ha).
  destruct (parameter_sound cur' Ha) as ([p|] & rest & -> & Hp); rewrite Done_bind; [|by exists None, rest].
  destruct (Hp p eq_refl) as (t & -> & Ht). apply Forall_app in Ha as [_ Ha].
  destruct (IH (Add p e) rest Ha) as (r & rest' & -> & Hr).
  { rewrite !length_app in Hf. cbn in Hf. rewrite length_app in Hf. lia. }
  exists r, rest'. split; [done|]. intros e' E. destruct (Hr e' E) as (text & ps & -> & Hps & ->).
  exists (sp ++ c_semicolon :: t ++ text), (p :: ps).
  split; [by rewrite <- app_assoc, <- app_comm_cons, <- app_assoc|]. split; [by constructor|].
  cbn. by rewrite <- app_assoc.
Qed.

(** ** Extensions and the whole field *)

Lemma extension_complete text e rest :
  extension_text text e → Forall ascii text → stops rest →
  upcoming rest ≠ Some c_equals → upcoming rest ≠ Some c_semicolon →
  ConsumeExtension (text ++ rest) = Done (Some e, rest).
Proof.
  intros [sp name t ps Hsp Hn Ht] Ha Hs He Hsc. unfold ConsumeExtension.
  rewrite <- !app_assoc, ConsumeToken_complete by (done || by eapply parameters_stops).
  rewrite !Forall_app in Ha. destruct Ha as (_ & _ & Ha).
  rewrite (parameters_complete t ps Ht); [done|done..|]. rewrite length_app. lia.
Qed.

Lemma extension_sound cur : Forall ascii cur →
  ∃ r rest, ConsumeExtension cur = Done (r, rest) ∧
    ∀ e, r = Some e → ∃ text, cur = text ++ rest ∧ extension_text text e ∧ text ≠ [].
Proof.
  intros Ha. unfold ConsumeExtension.
  destruct (ConsumeToken cur) as [[name|] cur'] eqn:Et; [|by exists None, cur'].
  apply ConsumeToken_sound in Et as (sp & -> & Hsp & Hn & _). rewrite !Forall_app in Ha.
  destruct (parameters_sound (S (length cur')) (new_WebSocketExtension name) cur') as (r & rest & -> & Hr); [tauto|lia|].
  exists r, rest. split; [done|]. intros e E. destruct (Hr e E) as (text & ps & -> & Hps & ->).
  exists (sp ++ name ++ text). split; [by rewrite <- !app_assoc|]. split; [by constructor|].
  destruct Hn as [Hne _]. by destruct sp, name.
Qed.

Lemma header_complete data es : header_text data es → ∀ fuel before,
  Forall ascii data → (length data < fuel)%nat →
  extensions_loop fuel before data = Done (false, before ++ es, []).
Proof.
  induction 1 as [t e sp Ht Hsp|t e sp rest es Ht Hsp Hr IH];
    intros [|fuel] before Ha Hf; try lia; cbn [extensions_loop]; rewrite !Forall_app in Ha.
  - rewrite (extension_complete t e sp Ht), Done_bind; [..|tauto| | |].
    + rewrite <- (app_nil_r sp) at 1. by rewrite ConsumeSpaces_app.
    + rewrite <- (app_nil_r sp). by apply stops_app.
    + rewrite <- (app_nil_r sp). by rewrite upcoming_app.
    + rewrite <- (app_nil_r sp). by rewrite upcoming_app.
  - rewrite (extension_complete t e _ Ht), Done_bind; [..|tauto| | |].
    + rewrite ConsumeSpaces_app, ConsumeSpaces_cons by (done || by intros [|]).
      change (c_comma :: rest) with ([] ++ c_comma :: rest).
      rewrite ConsumeIfMatch_hit by (done || by intros [|]). cbn [negb]. rewrite Forall_cons_iff in Ha. rewrite IH; [by rewrite <- app_assoc|tauto|].
      rewrite !length_app in Hf. cbn in Hf. lia.
    + apply stops_app; [done|]. intros [_ E]. vm_compute in E. discriminate.
    + by rewrite upcoming_app, upcoming_cons by (done || by intros [|]).
    + by rewrite upcoming_app, upcoming_cons by (done || by intros [|]).
Qed.

Lemma header_sound fuel : ∀ before cur, Forall ascii cur → (length cur < fuel)%nat →
  ∃ failed es rest, extensions_loop fuel before cur = Done (failed, es, rest) ∧
    (failed = false → rest = [] → ∃ es', es = before ++ es' ∧ header_text cur es').
Proof.
  induction fuel as [|fuel IH]; intros before cur Ha Hf; [lia|]. cbn [extensions_loop].
  destruct (extension_sound cur Ha) as ([e|] & cur' & -> & He); rewrite Done_bind; [|by exists true, before, cur'].
  destruct (He e eq_refl) as (text & -> & Ht & Hne).
  destruct (ConsumeSpaces_split cur') as (sp & E & Hsp & _).
  destruct (ConsumeIfMatch_split c_comma (ConsumeSpaces cur')) as [->|(sp' & rest & -> & E' & Hsp')]; cbn [negb].
  { exists false, (before ++ [e]), (ConsumeSpaces cur'). split; [done|]. intros _ Hrest. exists [e]. split; [done|].
    rewrite E, Hrest, app_nil_r. by constructor. }
  rewrite E' in E. rewrite app_assoc in E. subst cur'. rewrite !Forall_app, Forall_cons_iff in Ha.
  destruct (IH (before ++ [e]) rest) as (failed & es & rest' & -> & Hr); [tauto| |].
  { rewrite !length_app in Hf. cbn in Hf. lia. }
  exists failed, es, rest'. split; [done|]. intros Hff Hrr. destruct (Hr Hff Hrr) as (es' & -> & Hes).
  exists (e :: es'). split; [by rewrite <- app_assoc|]. constructor; [done| |done]. by apply Forall_app.
Qed.

Lemma Parse_done data : Forall ascii data → is_done (Parse data) = true.
Proof.
  intros Ha. unfold Parse.
  destruct (header_sound (S (length data)) [] data Ha ltac:(lia)) as (failed & es & rest & -> & _).
  rewrite Done_bind. by case_match.
Qed.

(** [C24] The parser of the field Sec-WebSocket-Extensions accepts exactly its grammar.  For any
    characters below 128 it returns, with no check failing; it succeeds just where the field
    is one of the grammar, and its extensions are then those that the grammar gives: tokens
    with parameters, blanks around separators dropped, quotes and escapes undone. *)
Theorem Parse_grammar (data : list Z) (extensions : list WebSocketExtension) :
  Forall ascii data →
  is_done (Parse data) = true ∧
  (Parse data = Done (true, extensions) ↔ header_text data extensions).
Proof.
  intros Ha. split; [by apply Parse_done|]. unfold Parse. split.
  - destruct (header_sound (S (length data)) [] data Ha ltac:(lia)) as (failed & es & rest & -> & H).
    rewrite Done_bind. destruct failed; [done|]. cbn [negb andb]. case_bool_decide; [|done]. intros [= <-].
    destruct (H eq_refl) as (es' & E & Hes); [done|]. cbn in E. by subst.
  - intros H. by rewrite (header_complete data extensions H (S (length data)) [] Ha ltac:(lia)).
Qed.

Lemma Parse_grammar_witness :
  let data := chars "foo ; bar=x"%string in
  is_done (Parse data) = true ∧
  (Parse data = Done (true, [mkWebSocketExtension (chars "foo"%string) [mkParameter (chars "bar"%string) (chars "x"%string)]])
   ↔ header_text data [mkWebSocketExtension (chars "foo"%string) [mkParameter (chars "bar"%string) (chars "x"%string)]]).
Proof.
  apply (Parse_grammar (chars "foo ; bar=x"%string)). apply (bool_decide_eq_true_1 _). vm_compute. reflexivity.
Defined.

(** ** Printing *)

Definition well_formed_parameter (p : ExtensionParameter) : Prop :=
  (token (parameter_name_ p) ∧ Forall ascii (parameter_name_ p)) ∧
  (parameter_value_ p = [] ∨ token (parameter_value_ p) ∧ Forall ascii (parameter_value_ p)).
Definition well_formed (e : WebSocketExtension) : Prop :=
  (token (extension_name_ e) ∧ Forall ascii (extension_name_ e)) ∧ Forall well_formed_parameter (parameters_ e).

Lemma print_parameters_text ps : ∀ result, Forall well_formed_parameter ps →
  ∃ text, print_parameters ps result = Done (result ++ text) ∧ parameters_text text ps ∧ Forall ascii text.
Proof.
  induction ps as [|[name value] ps IH]; intros result H; [exists []; rewrite app_nil_r; by repeat constructor|].
  apply Forall_cons_1 in H as [[[Hn Ha] Hv] H]. cbn in Hn, Ha, Hv. cbn [print_parameters]. unfold HasValue.
  cbn [parameter_value_ parameter_name_]. destruct Hv as [->|[Hv Hva]].
  - rewrite bool_decide_eq_true_2 by done. cbn [negb].
    destruct (IH (result ++ chars "; "%string ++ name) H) as (text & -> & Ht & Hta).
    exists ([] ++ c_semicolon :: ([c_space] ++ name) ++ text). split; [by rewrite <- app_assoc|]. split.
    + constructor; [done| |done]. apply parameter_named; [by repeat constructor|done].
    + rewrite !Forall_app, Forall_cons_iff, !Forall_app. by repeat constructor.
  - pose proof Hv as [Hne _]. rewrite bool_decide_eq_false_2 by done. cbn [negb].
    rewrite (token_IsToken value) by done. rewrite DCHECK_true_bind.
    destruct (IH ((result ++ chars "; "%string ++ name) ++ [c_equals] ++ value) H) as (text & -> & Ht & Hta).
    exists ([] ++ c_semicolon :: ([c_space] ++ name ++ [] ++ c_equals :: [] ++ value) ++ text). split; [|split].
    + f_equal. cbn. by rewrite <- !app_assoc.
    + constructor; [done| |done]. apply parameter_valued; [by repeat constructor|done..|by apply value_token].
    + rewrite !Forall_app, Forall_cons_iff, !Forall_app, Forall_cons_iff. by repeat constructor.
Qed.

Lemma ToString_text e : well_formed e →
  ∃ text, ToString e = Done text ∧ extension_text text e ∧ Forall ascii text ∧ text ≠ [].
Proof.
  destruct e as [name ps]. intros [[Hn Ha] Hps]. cbn in Hn, Ha, Hps. unfold ToString. cbn.
  pose proof Hn as [Hne _]. rewrite bool_decide_eq_false_2 by done.
  destruct (print_parameters_text ps name Hps) as (text & -> & Ht & Hta).
  exists (name ++ text). split_and!; [done| |by apply Forall_app|by destruct name].
  by apply (extension_intro []).
Qed.

(** base/strings/string_util.cc. *)
Definition JoinString (parts : list (list Z)) (separator : list Z) : list Z :=
  match parts with
  | [] => []
  | first :: rest => fold_left (λ result part, result ++ separator ++ part) rest first
  end.

Lemma JoinString_cons separator part part' rest :
  JoinString (part :: part' :: rest) separator = part ++ separator ++ JoinString (part' :: rest) separator.
Proof.
  cbn. revert part part'. induction rest as [|x rest IH]; intros part part'; cbn; [done|].
  rewrite <- !IH. cbn. f_equal. by rewrite <- !app_assoc.
Qed.

Lemma header_blank data es : header_text data es → header_text (c_space :: data) es.
Proof.
  assert (∀ t e, extension_text t e → extension_text (c_space :: t) e) as He.
  { intros t e [sp name t' ps Hsp Hn Ht]. rewrite app_comm_cons. constructor; [|done..]. by repeat constructor. }
  intros [t e sp Ht Hsp|t e sp rest es' Ht Hsp Hr]; rewrite app_comm_cons; constructor; auto.
Qed.

(** Printed extensions, joined as the code joins header values, are in the grammar. *)
Lemma joined_text es : es ≠ [] → Forall well_formed es →
  ∃ texts, mapM ToString es = Done texts ∧ length texts = length es ∧
    header_text (JoinString texts (chars ", "%string)) es ∧ Forall ascii (JoinString texts (chars ", "%string)).
Proof.
  intros Hne H. induction H as [|e es He Hes IH]; [done|]. clear Hne.
  destruct (ToString_text e He) as (text & E & Ht & Hta & _). cbn [mapM]. rewrite E, Done_bind.
  destruct es as [|e' es].
  - exists [text]. split_and!; [done|done| |done]. cbn. rewrite <- (app_nil_r text). by constructor.
  - destruct IH as (texts & -> & Hl & Hh & Ha); [done|]. rewrite Done_bind.
    exists (text :: texts). split; [done|]. split; [by cbn; rewrite Hl|].
    destruct texts as [|text' texts]; [done|]. rewrite JoinString_cons.
    change (chars ", "%string) with [c_comma; c_space]. cbn [app]. split.
    + apply (header_more text e []); [done|done|]. by apply header_blank.
    + apply Forall_app. split; [done|]. by repeat constructor.
Qed.

(** [C36] Extensions make the round trip.  Any extensions whose names are tokens, and whose
    parameters have tokens for names and tokens or nothing for values, are printed without
    a check failing; the strings, joined into one field, are parsed to the same extensions. *)
Theorem extensions_round_trip (extensions : list WebSocketExtension) :
  extensions ≠ [] → Forall well_formed extensions →
  ∃ texts, mapM ToString extensions = Done texts ∧
    Parse (JoinString texts (chars ", "%string)) = Done (true, extensions).
Proof.
  intros Hne H. destruct (joined_text extensions Hne H) as (texts & E & _ & Hh & Ha).
  exists texts. split; [done|]. unfold Parse. by rewrite (header_complete _ _ Hh _ [] Ha (Nat.lt_succ_diag_r _)).
Qed.

(** A name without parameters, and one with a parameter of each kind. *)
Definition example_extensions : list WebSocketExtension :=
  [mkWebSocketExtension (chars "foo"%string) [];
   mkWebSocketExtension (chars "permessage-deflate"%string)
     [mkParameter (chars "client_max_window_bits"%string) (chars "15"%string);
      mkParameter (chars "server_no_context_takeover"%string) []]].

#[export] Instance well_formed_dec e : Decision (well_formed e).
Proof. unfold well_formed, well_formed_parameter, token. apply _. Defined.

Lemma extensions_round_trip_witness :
  ∃ texts, mapM ToString example_extensions = Done texts ∧
    Parse (JoinString texts (chars ", "%string)) = Done (true, example_extensions).
Proof.
  apply (extensions_round_trip example_extensions); [done|]. apply (bool_decide_eq_true_1 _). vm_compute. reflexivity.
Defined.
