(* ===== verification/WebSocketDeflateParameters.v ===== *)
(** * net/websockets/websocket_deflate_parameters.{h,cc}: negotiating permessage-deflate

    The parameters of the extension, as they are read from a header field and written to
    one, with the conversions of base/strings/string_number_conversions.cc that they use, and
    [ValidateExtensions] of websocket_basic_handshake_stream.cc, which reads the response of
    a server.  The values of the header field that [EnumerateHeader] gives are an argument. *)

From Stdlib Require Import String.
From S2P Require Import Prelude WebSocketExtension.

(** ** Numbers as strings *)

Definition int_min : Z := -2147483648.
Definition int_max : Z := 2147483647.
Definition kBase : Z := 10.

(** [kOutputBufSize] of [int]. *)
Definition kOutputBufSize : Z := 3 * 4 + 1.

(** The loop of [IntToString]; [i] counts the characters of [outbuf] in front of [out]. *)
Fixpoint digits_loop (fuel : nat) (res : Z) (i : Z) (out : list Z) : outcome (Z * list Z) :=
  match fuel with
  | O => DcheckFailed
  | S fuel =>
      let i := i - 1 in
      DCHECK (negb (i =? 0)) ;;
      let out := (res mod 10 + 48) :: out in
      let res := res / 10 in
      if res =? 0 then Done (i, out) else digits_loop fuel res i out
  end.

Definition IntToString (value : Z) : outcome (list Z) :=
  let res := Z.abs value in
  r ← digits_loop (Z.to_nat kOutputBufSize) res kOutputBufSize [];
  let '(i, out) := r : Z * list Z in
  if value <? 0 then
    let i := i - 1 in
    DCHECK (negb (i =? 0)) ;;
    Done (45 :: out)
  else Done out.

(** [BaseCharToDigit] for base 10; [isspace] in the C locale. *)
Definition CharToDigit (c : Z) : option Z := if (48 <=? c) && (c <? 48 + kBase) then Some (c - 48) else None.
Definition LocalIsWhitespace (c : Z) : bool := (9 <=? c) && (c <=? 13) || (c =? 32).

(** C++ division rounds towards zero. *)
Definition Positive_CheckBounds (output new_digit : Z) : bool * Z :=
  if (Z.quot int_max kBase <? output) || (output =? Z.quot int_max kBase) && (Z.rem int_max kBase <? new_digit)
  then (false, int_max) else (true, output).
Definition Negative_CheckBounds (output new_digit : Z) : bool * Z :=
  if (output <? Z.quot int_min kBase) || (output =? Z.quot int_min kBase) && (0 - Z.rem int_min kBase <? new_digit)
  then (false, int_min) else (true, output).

(** The loop of [Base::Invoke]; [first] where [current == begin]. *)
Fixpoint number_loop (negative first : bool) (cs : list Z) (output : Z) : bool * Z :=
  match cs with
  | [] => (true, output)
  | c :: cs =>
      match CharToDigit c with
      | None => (false, output)
      | Some new_digit =>
          let '(ok, output) :=
            if first then (true, output)
            else
              let '(ok, output) := if negative then Negative_CheckBounds output new_digit
                                   else Positive_CheckBounds output new_digit in
              if negb ok then (false, output) else (true, output * kBase) in
          if negb ok then (false, output)
          else number_loop negative false cs (if negative then output - new_digit else output + new_digit)
      end
  end.
Definition Base_Invoke (negative : bool) (cs : list Z) : bool * Z :=
  match cs with
  | [] => (false, 0)
  | _ => number_loop negative true cs 0
  end.

(** The loop over white space; the result is whether there was none, and what follows. *)
Fixpoint skip_whitespace (valid : bool) (cs : list Z) : bool * list Z :=
  match cs with
  | c :: rest => if LocalIsWhitespace c then skip_whitespace false rest else (valid, cs)
  | [] => (valid, [])
  end.

(** [IteratorRangeToNumber::Invoke] for [int]; the number is stored also where the result is
    false. *)
Definition StringToInt (input : list Z) : bool * Z :=
  let '(valid, cs) := skip_whitespace true input in
  match cs with
  | c :: rest =>
      if c =? 45 then let '(ok, output) := Base_Invoke true rest in (valid && ok, output)
      else
        let '(ok, output) := Base_Invoke false (if c =? 43 then rest else cs) in (valid && ok, output)
  | [] => let '(ok, output) := Base_Invoke false [] in (valid && ok, output)
  end.

(** ** The parameters *)

Inductive ContextTakeOverMode : Type := DO_NOT_TAKE_OVER_CONTEXT | TAKE_OVER_CONTEXT.
#[export] Instance ContextTakeOverMode_eq_dec : EqDecision ContextTakeOverMode.
Proof. solve_decision. Defined.

Record WindowBits : Type := mkWindowBits { bits : Z; is_specified : bool; has_value : bool }.
#[export] Instance WindowBits_eq_dec : EqDecision WindowBits.
Proof. solve_decision. Defined.
Definition new_WindowBits : WindowBits := {| bits := 0; is_specified := false; has_value := false |}.
Definition PermissiveBits (b : WindowBits) : Z := if is_specified b && has_value b then bits b else 15.

Record WebSocketDeflateParameters : Type := mkWebSocketDeflateParameters {
  server_context_take_over_mode_ : ContextTakeOverMode;
  client_context_take_over_mode_ : ContextTakeOverMode;
  server_max_window_bits_ : WindowBits;
  client_max_window_bits_ : WindowBits
}.
#[export] Instance eta_WebSocketDeflateParameters : Eta WebSocketDeflateParameters := λ p,
  mkWebSocketDeflateParameters (server_context_take_over_mode_ p) (client_context_take_over_mode_ p)
    (server_max_window_bits_ p) (client_max_window_bits_ p).
#[export] Instance WebSocketDeflateParameters_eq_dec : EqDecision WebSocketDeflateParameters.
Proof. solve_decision. Defined.

Definition new_WebSocketDeflateParameters : WebSocketDeflateParameters :=
  {| server_context_take_over_mode_ := TAKE_OVER_CONTEXT; client_context_take_over_mode_ := TAKE_OVER_CONTEXT;
     server_max_window_bits_ := new_WindowBits; client_max_window_bits_ := new_WindowBits |}.

Definition kServerNoContextTakeOver : list Z := chars "server_no_context_takeover"%string.
Definition kClientNoContextTakeOver : list Z := chars "client_no_context_takeover"%string.
Definition kServerMaxWindowBits : list Z := chars "server_max_window_bits"%string.
Definition kClientMaxWindowBits : list Z := chars "client_max_window_bits"%string.
Definition kExtensionName : list Z := chars "permessage-deflate"%string.

Definition IsValidWindowBits (bits : Z) : bool := (8 <=? bits) && (bits <=? 15).

(** The getters. *)
Definition is_server_max_window_bits_specified (p : WebSocketDeflateParameters) : bool :=
  is_specified (server_max_window_bits_ p).
Definition server_max_window_bits (p : WebSocketDeflateParameters) : outcome Z :=
  DCHECK (is_server_max_window_bits_specified p) ;; Done (bits (server_max_window_bits_ p)).
Definition is_client_max_window_bits_specified (p : WebSocketDeflateParameters) : bool :=
  is_specified (client_max_window_bits_ p).
Definition has_client_max_window_bits_value (p : WebSocketDeflateParameters) : outcome bool :=
  DCHECK (is_client_max_window_bits_specified p) ;; Done (has_value (client_max_window_bits_ p)).
Definition client_max_window_bits (p : WebSocketDeflateParameters) : outcome Z :=
  b ← has_client_max_window_bits_value p; DCHECK b ;; Done (bits (client_max_window_bits_ p)).
Definition PermissiveServerMaxWindowBits (p : WebSocketDeflateParameters) : Z := PermissiveBits (server_max_window_bits_ p).
Definition PermissiveClientMaxWindowBits (p : WebSocketDeflateParameters) : Z := PermissiveBits (client_max_window_bits_ p).

(** The setters; [SetClientMaxWindowBits] comes without and with a value. *)
Definition SetServerNoContextTakeOver (p : WebSocketDeflateParameters) : WebSocketDeflateParameters :=
  p <| server_context_take_over_mode_ := DO_NOT_TAKE_OVER_CONTEXT |>.
Definition SetClientNoContextTakeOver (p : WebSocketDeflateParameters) : WebSocketDeflateParameters :=
  p <| client_context_take_over_mode_ := DO_NOT_TAKE_OVER_CONTEXT |>.
Definition SetServerMaxWindowBits (bits : Z) (p : WebSocketDeflateParameters) : outcome WebSocketDeflateParameters :=
  DCHECK (IsValidWindowBits bits) ;; Done (p <| server_max_window_bits_ := mkWindowBits bits true true |>).
Definition SetClientMaxWindowBits (p : WebSocketDeflateParameters) : WebSocketDeflateParameters :=
  p <| client_max_window_bits_ := mkWindowBits 0 true false |>.
Definition SetClientMaxWindowBits_value (bits : Z) (p : WebSocketDeflateParameters) :
    outcome WebSocketDeflateParameters :=
  DCHECK (IsValidWindowBits bits) ;; Done (p <| client_max_window_bits_ := mkWindowBits bits true true |>).

(** [None]: the result is false. *)
Definition GetWindowBits (value : list Z) : option Z :=
  match value with
  | [] => None
  | c :: _ =>
      if negb (c =? 48) && forallb (λ c, bool_decide (c ∈ chars "0123456789"%string)) value then
        let '(ok, window_bits) := StringToInt value in if ok then Some window_bits else None
      else None
  end.

Definition DuplicateError (name : list Z) : list Z :=
  chars "Received duplicate permessage-deflate extension parameter "%string ++ name.
Definition InvalidError (name : list Z) : list Z :=
  chars "Received invalid "%string ++ name ++ chars " parameter"%string.

(** ** Writing them *)

Definition AsExtension (p : WebSocketDeflateParameters) : outcome WebSocketExtension :=
  let e := new_WebSocketExtension kExtensionName in
  let e := match server_context_take_over_mode_ p with
           | DO_NOT_TAKE_OVER_CONTEXT => Add (Parameter_named kServerNoContextTakeOver) e
           | TAKE_OVER_CONTEXT => e
           end in
  let e := match client_context_take_over_mode_ p with
           | DO_NOT_TAKE_OVER_CONTEXT => Add (Parameter_named kClientNoContextTakeOver) e
           | TAKE_OVER_CONTEXT => e
           end in
  e ← (if is_server_max_window_bits_specified p then
         DCHECK (has_value (server_max_window_bits_ p)) ;;
         bits ← server_max_window_bits p;
         text ← IntToString bits;
         parameter ← Parameter_valued kServerMaxWindowBits text;
         Done (Add parameter e)
       else Done e);
  if is_client_max_window_bits_specified p then
    has_value ← has_client_max_window_bits_value p;
    if has_value : bool then
      bits ← client_max_window_bits p;
      text ← IntToString bits;
      parameter ← Parameter_valued kClientMaxWindowBits text;
      Done (Add parameter e)
    else Done (Add (Parameter_named kClientMaxWindowBits) e)
  else Done e.

(** The result, and the failure message where it is false. *)
Definition IsValidAsRequest (p : WebSocketDeflateParameters) : outcome bool :=
  (if is_specified (server_max_window_bits_ p) then
     DCHECK (has_value (server_max_window_bits_ p)) ;;
     DCHECK (IsValidWindowBits (bits (server_max_window_bits_ p)))
   else Done tt) ;;
  (if is_specified (client_max_window_bits_ p) && has_value (client_max_window_bits_ p) then
     DCHECK (IsValidWindowBits (bits (client_max_window_bits_ p)))
   else Done tt) ;;
  Done true.

Definition IsValidAsResponse (p : WebSocketDeflateParameters) : outcome (bool * list Z) :=
  (if is_specified (server_max_window_bits_ p) then
     DCHECK (has_value (server_max_window_bits_ p)) ;;
     DCHECK (IsValidWindowBits (bits (server_max_window_bits_ p)))
   else Done tt) ;;
  if is_specified (client_max_window_bits_ p) then
    if negb (has_value (client_max_window_bits_ p)) then
      Done (false, chars "client_max_window_bits must have value"%string)
    else
      DCHECK (IsValidWindowBits (bits (client_max_window_bits_ p))) ;;
      Done (true, [])
  else Done (true, []).

(** ** Reading them *)

(** One parameter of the loop of [Initialize]: the parameters with it, or the message. *)
Definition Initialize_parameter (q : ExtensionParameter) (p : WebSocketDeflateParameters) :
    outcome (WebSocketDeflateParameters + list Z) :=
  let name := parameter_name_ q in
  if bool_decide (name = kServerNoContextTakeOver) then
    if bool_decide (server_context_take_over_mode_ p = DO_NOT_TAKE_OVER_CONTEXT) then Done (inr (DuplicateError name))
    else if HasValue q then Done (inr (InvalidError name))
    else Done (inl (SetServerNoContextTakeOver p))
  else if bool_decide (name = kClientNoContextTakeOver) then
    if bool_decide (client_context_take_over_mode_ p = DO_NOT_TAKE_OVER_CONTEXT) then Done (inr (DuplicateError name))
    else if HasValue q then Done (inr (InvalidError name))
    else Done (inl (SetClientNoContextTakeOver p))
  else if bool_decide (name = kServerMaxWindowBits) then
    if is_specified (server_max_window_bits_ p) then Done (inr (DuplicateError name))
    else
      match GetWindowBits (parameter_value_ q) with
      | None => Done (inr (InvalidError name))
      | Some bits =>
          if negb (IsValidWindowBits bits) then Done (inr (InvalidError name))
          else p ← SetServerMaxWindowBits bits p; Done (inl p)
      end
  else if bool_decide (name = kClientMaxWindowBits) then
    if is_specified (client_max_window_bits_ p) then Done (inr (DuplicateError name))
    else if bool_decide (parameter_value_ q = []) then Done (inl (SetClientMaxWindowBits p))
    else
      match GetWindowBits (parameter_value_ q) with
      | None => Done (inr (InvalidError name))
      | Some bits =>
          if negb (IsValidWindowBits bits) then Done (inr (InvalidError name))
          else p ← SetClientMaxWindowBits_value bits p; Done (inl p)
      end
  else Done (inr (chars "Received an unexpected permessage-deflate extension parameter"%string)).

Fixpoint Initialize_loop (qs : list ExtensionParameter) (p : WebSocketDeflateParameters) :
    outcome (bool * list Z * WebSocketDeflateParameters) :=
  match qs with
  | [] => Done (true, [], p)
  | q :: qs =>
      r ← Initialize_parameter q p;
      match r with
      | inl p => Initialize_loop qs p
      | inr failure_message => Done (false, failure_message, p)
      end
  end.

Definition Initialize (extension : WebSocketExtension) : outcome (bool * list Z * WebSocketDeflateParameters) :=
  if negb (bool_decide (extension_name_ extension = kExtensionName)) then
    Done (false, chars "extension name doesn't match"%string, new_WebSocketDeflateParameters)
  else Initialize_loop (parameters_ extension) new_WebSocketDeflateParameters.

Definition IsCompatibleWith (request response : WebSocketDeflateParameters) : outcome bool :=
  ok ← IsValidAsRequest request;
  DCHECK ok ;;
  ok ← IsValidAsResponse response;
  DCHECK (fst ok) ;;
  if bool_decide (server_context_take_over_mode_ request = DO_NOT_TAKE_OVER_CONTEXT) &&
     bool_decide (server_context_take_over_mode_ response = TAKE_OVER_CONTEXT) then Done false
  else
    ok ← (if is_specified (server_max_window_bits_ request) then
            DCHECK (has_value (server_max_window_bits_ request)) ;;
            if negb (is_specified (server_max_window_bits_ response)) then Done false
            else
              DCHECK (has_value (server_max_window_bits_ response)) ;;
              Done (negb (bits (server_max_window_bits_ request) <? bits (server_max_window_bits_ response)))
          else Done true);
    if negb ok then Done false
    else Done (negb (negb (is_specified (client_max_window_bits_ request)) &&
                     is_specified (client_max_window_bits_ response))).

(** ** The response of a server *)

Record WebSocketExtensionParams : Type := mkWebSocketExtensionParams {
  deflate_enabled : bool;
  deflate_parameters : WebSocketDeflateParameters
}.

#[export] Instance WebSocketExtensionParams_eq_dec : EqDecision WebSocketExtensionParams.
Proof. solve_decision. Defined.

(** The loop over the extensions of one value; an error is its message. *)
Fixpoint extensions_of_value (extensions : list WebSocketExtension) (header_value : list Z)
    (seen_permessage_deflate : bool) (header_values : list (list Z)) (params : WebSocketDeflateParameters) :
    outcome (bool * list (list Z) * WebSocketDeflateParameters + list Z * WebSocketDeflateParameters) :=
  match extensions with
  | [] => Done (inl (seen_permessage_deflate, header_values, params))
  | extension :: extensions =>
      if bool_decide (extension_name_ extension = kExtensionName) then
        if seen_permessage_deflate then Done (inr (chars "Received duplicate permessage-deflate response"%string, params))
        else
          r ← Initialize extension;
          let '(ok, failure_message, params) := r : bool * list Z * WebSocketDeflateParameters in
          v ← (if ok then IsValidAsResponse params else Done (false, failure_message));
          let '(ok, failure_message) := v : bool * list Z in
          if negb ok then Done (inr (chars "Error in permessage-deflate: "%string ++ failure_message, params))
          else extensions_of_value extensions header_value true (header_values ++ [header_value]) params
      else
        Done (inr (chars "Found an unsupported extension '"%string ++ extension_name_ extension ++
                   chars "' in 'Sec-WebSocket-Extensions' header"%string, params))
  end.

Fixpoint values_loop (values : list (list Z)) (seen_permessage_deflate : bool) (header_values : list (list Z))
    (params : WebSocketDeflateParameters) :
    outcome (bool * list (list Z) * WebSocketDeflateParameters + list Z * WebSocketDeflateParameters) :=
  match values with
  | [] => Done (inl (seen_permessage_deflate, header_values, params))
  | header_value :: values =>
      r ← Parse header_value;
      let '(ok, extensions) := r : bool * list WebSocketExtension in
      if negb ok then
        Done (inr (chars "'Sec-WebSocket-Extensions' header value is rejected by the parser: "%string ++ header_value, params))
      else
        r ← extensions_of_value extensions header_value seen_permessage_deflate header_values params;
        match r with
        | inl (seen_permessage_deflate, header_values, params) =>
            values_loop values seen_permessage_deflate header_values params
        | inr e => Done (inr e)
        end
  end.

(** The result with the description of the accepted extensions and the parameters, or the
    failure message. *)
Definition ValidateExtensions (values : list (list Z)) :
    outcome (list Z * WebSocketExtensionParams + list Z) :=
  r ← values_loop values false [] new_WebSocketDeflateParameters;
  match r with
  | inl (seen_permessage_deflate, header_values, params) =>
      Done (inl (JoinString header_values (chars ", "%string),
                 {| deflate_enabled := seen_permessage_deflate; deflate_parameters := params |}))
  | inr (failure_message, _) => Done (inr failure_message)
  end.

(** ** Numbers make the round trip *)

(** The number that digits stand for, behind the digits that make up [v]. *)
Definition digits_value (v : Z) (ds : list Z) : Z := fold_left (λ v d, v * 10 + (d - 48)) ds v.
Definition digit (d : Z) : Prop := 48 <= d <= 57.

Lemma digits_value_mono ds : ∀ v, 0 <= v → Forall digit ds → v <= digits_value v ds.
Proof.
  induction ds as [|d ds IH]; intros v Hv H; [done|]. apply Forall_cons_1 in H as [Hd H]. unfold digit in Hd.
  cbn. etrans; [|apply IH; [lia|done]]. lia.
Qed.

Lemma digits_loop_spec k : ∀ fuel res i out,
  (k <= fuel)%nat → Z.of_nat k < i → 0 <= res < 10 ^ Z.of_nat k → (0 < k)%nat →
  ∃ i' ds, digits_loop fuel res i out = Done (i', ds ++ out) ∧ i - Z.of_nat k <= i' ∧
    ds ≠ [] ∧ Forall digit ds ∧ digits_value 0 ds = res.
Proof.
  induction k as [|k IH]; intros fuel res i out Hf Hi Hr Hk; [lia|].
  destruct fuel as [|fuel]; [lia|]. cbn [digits_loop]. pass_DCHECK ltac:(lia).
  pose proof (Z.mod_pos_bound res 10 ltac:(lia)). pose proof (Z.div_mod res 10 ltac:(lia)).
  assert (digit (res mod 10 + 48)) as Hd by (unfold digit; lia).
  destruct (Z.eqb_spec (res / 10) 0) as [E|E].
  - exists (i - 1), [res mod 10 + 48]. cbn. split_and!; [done|lia|done|by constructor|lia].
  - assert (0 < k)%nat as Hk'.
    { destruct k; [|lia]. cbn in Hr. assert (res < 10) by lia. exfalso. apply E, Z.div_small. lia. }
    destruct (IH fuel (res / 10) (i - 1) (res mod 10 + 48 :: out)) as (i' & ds & -> & Hi' & Hne & Hds & Ev); [lia..| |done|].
    { rewrite Nat2Z.inj_succ, Z.pow_succ_r in Hr by lia. split; [by apply Z.div_pos; lia|].
      apply Z.div_lt_upper_bound; lia. }
    exists i', (ds ++ [res mod 10 + 48]). rewrite <- app_assoc. cbn. split; [done|]. split; [lia|].
    split; [by destruct ds|]. split; [apply Forall_app; split; [done|by constructor]|].
    unfold digits_value in *. rewrite fold_left_app, Ev. cbn. lia.
Qed.

Lemma CharToDigit_digit d : digit d → CharToDigit d = Some (d - 48).
Proof. unfold digit, CharToDigit, kBase. intros. by decide_tests lia. Qed.

Lemma number_loop_positive ds : ∀ first output, Forall digit ds → 0 <= output → (first = true → output = 0) →
  digits_value output ds <= int_max → number_loop false first ds output = (true, digits_value output ds).
Proof.
  induction ds as [|d ds IH]; intros first output H Ho Hfst Hm; [done|]. apply Forall_cons_1 in H as [Hd H].
  cbn [number_loop]. rewrite CharToDigit_digit by done. unfold digit in Hd. cbn [digits_value fold_left] in Hm |- *.
  fold (digits_value (output * 10 + (d - 48)) ds) in Hm |- *.
  pose proof (digits_value_mono ds (output * 10 + (d - 48)) ltac:(lia) H) as Hle.
  destruct first.
  - rewrite Hfst in * by done. cbn [negb]. rewrite IH; [done|done|lia|done|by rewrite ?Z.add_0_l in *].
  - assert (Positive_CheckBounds output (d - 48) = (true, output)) as ->.
    { unfold Positive_CheckBounds, int_max, kBase in *. change (Z.quot 2147483647 10) with 214748364.
      change (Z.rem 2147483647 10) with 7. decide_tests lia. cbn.
      destruct (Z.eqb_spec output 214748364); cbn; [|done]. by decide_tests lia. }
    cbn [negb]. unfold kBase. by rewrite IH by (done || lia).
Qed.

Lemma number_loop_negative ds : ∀ first output, Forall digit ds → output <= 0 → (first = true → output = 0) →
  digits_value (- output) ds <= - int_min → number_loop true first ds output = (true, - digits_value (- output) ds).
Proof.
  induction ds as [|d ds IH]; intros first output H Ho Hfst Hm; [cbn; by rewrite Z.opp_involutive|].
  apply Forall_cons_1 in H as [Hd H].
  cbn [number_loop]. rewrite CharToDigit_digit by done. unfold digit in Hd. cbn [digits_value fold_left] in Hm |- *.
  fold (digits_value (- output * 10 + (d - 48)) ds) in Hm |- *.
  pose proof (digits_value_mono ds (- output * 10 + (d - 48)) ltac:(lia) H) as Hle.
  replace (- output * 10 + (d - 48)) with (- (output * 10 - (d - 48))) in * by lia.
  destruct first.
  - rewrite Hfst in * by done. cbn [negb]. rewrite IH; [done|done|lia|done|done].
  - assert (Negative_CheckBounds output (d - 48) = (true, output)) as ->.
    { unfold Negative_CheckBounds, int_min, kBase in *. change (Z.quot (-2147483648) 10) with (-214748364).
      change (Z.rem (-2147483648) 10) with (-8). decide_tests lia. cbn.
      destruct (Z.eqb_spec output (-214748364)); cbn; [|done]. by decide_tests lia. }
    cbn [negb]. unfold kBase. by rewrite IH by (done || lia).
Qed.

(** Every [int] is read back from its decimal representation. *)
Lemma int_round_trip n : int_min <= n <= int_max →
  ∃ text, IntToString n = Done text ∧ StringToInt text = (true, n).
Proof.
  intros Hn. unfold int_min, int_max in Hn. unfold IntToString.
  destruct (digits_loop_spec 10 (Z.to_nat kOutputBufSize) (Z.abs n) kOutputBufSize [])
    as (i & ds & -> & Hi & Hne & Hds & Ev); [unfold kOutputBufSize; lia..| |lia|].
  { change (10 ^ Z.of_nat 10) with 10000000000. lia. }
  rewrite app_nil_r, Done_bind. unfold kOutputBufSize in Hi.
  assert (∀ d rest, ds = d :: rest → LocalIsWhitespace d = false ∧ d ≠ 45 ∧ d ≠ 43) as Hd.
  { intros d rest ->. apply Forall_cons_1 in Hds as [Hd _]. unfold digit in Hd. unfold LocalIsWhitespace.
    decide_tests lia. split; [done|lia]. }
  destruct (Z.ltb_spec n 0).
  - pass_DCHECK ltac:(lia). exists (45 :: ds). split; [done|]. unfold StringToInt. cbn.
    assert (Base_Invoke true ds = number_loop true true ds 0) as -> by (by destruct ds).
    pose proof (number_loop_negative ds true 0 Hds ltac:(lia) ltac:(done)) as E. change (- 0) with 0 in E.
    rewrite Ev in E. rewrite E by (unfold int_min; lia). f_equal. lia.
  - exists ds. split; [done|]. unfold StringToInt. destruct ds as [|d ds]; [done|].
    destruct (Hd d ds eq_refl) as (Hw & H45 & H43). cbn [skip_whitespace]. rewrite Hw.
    rewrite (proj2 (Z.eqb_neq d 45)), (proj2 (Z.eqb_neq d 43)) by done.
    change (Base_Invoke false (d :: ds)) with (number_loop false true (d :: ds) 0).
    rewrite number_loop_positive by (done || rewrite ?Ev; unfold int_max; lia). rewrite Ev. f_equal. lia.
Qed.

(** ** Parameters make the round trip *)

(** What the setters make of the default. *)
Definition proper_bits (may_lack_value : bool) (b : WindowBits) : Prop :=
  b = new_WindowBits ∨ (8 <= bits b <= 15 ∧ is_specified b = true ∧ has_value b = true) ∨
  (may_lack_value = true ∧ b = mkWindowBits 0 true false).
Definition proper (p : WebSocketDeflateParameters) : Prop :=
  proper_bits false (server_max_window_bits_ p) ∧ proper_bits true (client_max_window_bits_ p).

(** There are 360 of them. *)
Definition valued_bits : list WindowBits := map (λ n, mkWindowBits n true true) [8; 9; 10; 11; 12; 13; 14; 15].
Definition all_proper : list WebSocketDeflateParameters :=
  flat_map (λ m, flat_map (λ m', flat_map (λ b, map (λ b', mkWebSocketDeflateParameters m m' b b')
      (new_WindowBits :: mkWindowBits 0 true false :: valued_bits))
    (new_WindowBits :: valued_bits)) [DO_NOT_TAKE_OVER_CONTEXT; TAKE_OVER_CONTEXT])
  [DO_NOT_TAKE_OVER_CONTEXT; TAKE_OVER_CONTEXT].

Lemma bits_valued b : 8 <= bits b <= 15 → is_specified b = true → has_value b = true → In b valued_bits.
Proof.
  destruct b as [n s h]. cbn [bits is_specified has_value]. intros Hn -> ->.
  apply (in_map (λ n, mkWindowBits n true true)). cbn. lia.
Qed.

Lemma proper_all p : proper p → In p all_proper.
Proof.
  destruct p as [m m' b b']. intros [Hb Hb']. cbn in Hb, Hb'.
  apply in_flat_map. exists m. split; [destruct m; cbn; tauto|].
  apply in_flat_map. exists m'. split; [destruct m'; cbn; tauto|].
  apply in_flat_map. exists b. split.
  { destruct Hb as [->|[(? & ? & ?)|[? ?]]]; [by left| |done]. right. by apply bits_valued. }
  apply in_map. destruct Hb' as [->|[(? & ? & ?)|[_ ->]]]; [by left| |by right; left].
  right; right. by apply bits_valued.
Qed.

(** What a client or server that writes the parameters and one that reads them get. *)
Definition negotiated (p : WebSocketDeflateParameters) : bool :=
  match (e ← AsExtension p; text ← ToString e; Done (e, text)) with
  | Done (e, text) =>
      bool_decide (Parse text = Done (true, [e])) && bool_decide (Initialize e = Done (true, [], p)) &&
      bool_decide (ValidateExtensions [text] =
        if is_specified (client_max_window_bits_ p) && negb (has_value (client_max_window_bits_ p))
        then Done (inr (chars "Error in permessage-deflate: client_max_window_bits must have value"%string))
        else Done (inl (text, mkWebSocketExtensionParams true p)))
  | DcheckFailed => false
  end.

Lemma all_negotiated : forallb negotiated all_proper = true.
Proof. vm_compute. reflexivity. Qed.

(** The parameters of permessage-deflate make the round trip.  Any parameters that the
    setters can make are written as an extension and printed without a check failing; the
    text is parsed to that extension, and [Initialize] reads the same parameters from it.  As
    the answer of a server they are accepted, with that text for a description, unless
    client_max_window_bits comes without a value. *)
Theorem parameters_round_trip (p : WebSocketDeflateParameters) :
  proper p →
  ∃ e text, AsExtension p = Done e ∧ ToString e = Done text ∧ Parse text = Done (true, [e]) ∧
    Initialize e = Done (true, [], p) ∧
    ValidateExtensions [text] =
      if is_specified (client_max_window_bits_ p) && negb (has_value (client_max_window_bits_ p))
      then Done (inr (chars "Error in permessage-deflate: client_max_window_bits must have value"%string))
      else Done (inl (text, mkWebSocketExtensionParams true p)).
Proof.
  intros Hp%proper_all. pose proof (proj1 (forallb_forall _ _) all_negotiated p Hp) as H. revert H.
  unfold negotiated. destruct (AsExtension p) as [e|]; [|done]. rewrite Done_bind.
  destruct (ToString e) as [text|] eqn:Et; [|done]. rewrite Done_bind. intros H.
  apply andb_true_iff in H as [H H3]. apply andb_true_iff in H as [H1 H2].
  apply bool_decide_eq_true_1 in H1, H2, H3. by exists e, text.
Qed.

Lemma parameters_round_trip_witness :
  let p := mkWebSocketDeflateParameters DO_NOT_TAKE_OVER_CONTEXT TAKE_OVER_CONTEXT
             (mkWindowBits 12 true true) (mkWindowBits 8 true true) in
  ∃ e text, AsExtension p = Done e ∧ ToString e = Done text ∧ Parse text = Done (true, [e]) ∧
    Initialize e = Done (true, [], p) ∧
    ValidateExtensions [text] = Done (inl (text, mkWebSocketExtensionParams true p)).
Proof.
  apply (parameters_round_trip (mkWebSocketDeflateParameters DO_NOT_TAKE_OVER_CONTEXT TAKE_OVER_CONTEXT
           (mkWindowBits 12 true true) (mkWindowBits 8 true true))).
  split; right; left; cbn; repeat split; lia.
Defined.

(** ** Any answer of a server *)

Lemma IsValid_spec n : IsValidWindowBits n = true ↔ 8 <= n <= 15.
Proof. unfold IsValidWindowBits. rewrite andb_true_iff, !Z.leb_le. lia. Qed.

Lemma Initialize_parameter_proper q p : proper p →
  ∃ r, Initialize_parameter q p = Done r ∧ ∀ p', r = inl p' → proper p'.
Proof.
  intros [Hs Hc]. unfold Initialize_parameter, SetServerMaxWindowBits, SetClientMaxWindowBits_value.
  repeat (match goal with
  | |- ∃ r, Done ?r' = Done r ∧ _ => exists r'; split; [reflexivity|]; intros p' [= <-]; split; cbn; try done
  | |- context [bool_decide ?P] => case_bool_decide
  | |- context [if ?b then _ else _] => destruct b eqn:?
  | |- context [match GetWindowBits ?v with _ => _ end] => destruct (GetWindowBits v) as [n|]
  end; try (eexists; split; [reflexivity|]; done); try pass_DCHECK ltac:(prop_bools; done)).
  2: { right; right. done. }
  all: rewrite Done_bind; eexists; split; [reflexivity|]; intros p' [= <-].
  all: prop_bools; split; cbn; try done; right; left; cbn; split; [by apply IsValid_spec|done].
Qed.

Lemma Initialize_proper e :
  ∃ ok failure_message p, Initialize e = Done (ok, failure_message, p) ∧ (ok = true → proper p).
Proof.
  unfold Initialize. case_bool_decide as En; cbn [negb]; [|by do 3 eexists].
  assert (proper new_WebSocketDeflateParameters) as Hp by (split; by left). revert Hp.
  generalize new_WebSocketDeflateParameters as p.
  induction (parameters_ e) as [|q qs IH]; intros p Hp; cbn [Initialize_loop]; [by do 3 eexists|].
  destruct (Initialize_parameter_proper q p Hp) as (r & -> & Hr). rewrite Done_bind.
  destruct r as [p'|m]; [|by do 3 eexists]. apply IH. by apply Hr.
Qed.

Lemma IsValidAsResponse_proper p : proper p →
  ∃ ok failure_message, IsValidAsResponse p = Done (ok, failure_message) ∧
    (ok = true ↔ proper_bits false (client_max_window_bits_ p)).
Proof.
  intros [Hs Hc]. unfold IsValidAsResponse.
  assert ((if is_specified (server_max_window_bits_ p) then
     DCHECK (has_value (server_max_window_bits_ p)) ;;
     DCHECK (IsValidWindowBits (bits (server_max_window_bits_ p))) else Done tt) = Done tt) as ->.
  { destruct Hs as [->|[(Hb%IsValid_spec & -> & ->)|[? ?]]]; [done| |done]. by rewrite Hb. }
  rewrite Done_bind. destruct Hc as [->|[(Hb & Es & Eh)|[_ ->]]].
  - do 2 eexists. split; [reflexivity|]. split; [by left|done].
  - rewrite Es, Eh, (proj2 (IsValid_spec _)) by done. do 2 eexists. split; [reflexivity|].
    split; [|done]. intros _. right; left. done.
  - do 2 eexists. split; [reflexivity|]. split; [done|]. intros [?|[(_ & _ & ?)|[? _]]]; done.
Qed.

(** What the loops over values and extensions keep: nothing seen and the default, or an
    accepted extension with its parameters. *)
Definition accepted (seen : bool) (p : WebSocketDeflateParameters) : Prop :=
  proper p ∧ proper_bits false (client_max_window_bits_ p) ∧ (seen = false → p = new_WebSocketDeflateParameters).

Definition loop_result
    (m : outcome (bool * list (list Z) * WebSocketDeflateParameters + list Z * WebSocketDeflateParameters)) : Prop :=
  ∃ r, m = Done r ∧ ∀ seen values p, r = inl (seen, values, p) → accepted seen p.

Lemma extensions_of_value_accepted es value : ∀ seen values p,
  accepted seen p → loop_result (extensions_of_value es value seen values p).
Proof.
  induction es as [|e es IH]; intros seen values p Hp; cbn [extensions_of_value].
  { eexists. split; [reflexivity|]. by intros ? ? ? [= <- <- <-]. }
  case_bool_decide as En; [|by eexists]. destruct seen; [by eexists|].
  destruct (Initialize_proper e) as (ok & m & p' & -> & Hp'). rewrite Done_bind.
  destruct ok; [|by eexists].
  destruct (IsValidAsResponse_proper p' (Hp' eq_refl)) as (ok & m' & -> & Hok). rewrite Done_bind.
  destruct ok; [|by eexists]. apply IH. split; [by apply Hp'|]. split; [by apply Hok|done].
Qed.

Lemma values_loop_accepted vs : ∀ seen values p,
  Forall (Forall ascii) vs → accepted seen p → loop_result (values_loop vs seen values p).
Proof.
  induction vs as [|v vs IH]; intros seen values p Hv Hp; cbn [values_loop].
  { eexists. split; [reflexivity|]. by intros ? ? ? [= <- <- <-]. }
  apply Forall_cons_1 in Hv as [Hv Hvs]. pose proof (Parse_done v Hv) as Hd.
  destruct (Parse v) as [[ok es]|]; [|done]. rewrite Done_bind. destruct ok; [|by eexists].
  destruct (extensions_of_value_accepted es v seen values p Hp) as (r & -> & Hr). rewrite Done_bind.
  destruct r as [[[seen' values'] p']|]; [|by eexists]. apply IH; [done|]. by eapply Hr.
Qed.

(** [C35] The answer of a server about extensions is handled whatever it is.  For any values
    of the header field, of characters below 128, [ValidateExtensions] returns, with no check
    failing; if it accepts them with permessage-deflate, then the parameters are valid as a
    response: the number of bits for the window of the client, if there is one, has a value,
    and this is from 8 to 15; if it accepts them without, the parameters are the default. *)
Theorem ValidateExtensions_any_answer (values : list (list Z)) :
  Forall (Forall ascii) values →
  ∃ r, ValidateExtensions values = Done r ∧
    ∀ description params, r = inl (description, params) →
      (∃ message, IsValidAsResponse (deflate_parameters params) = Done (true, message)) ∧
      8 <= PermissiveClientMaxWindowBits (deflate_parameters params) <= 15 ∧
      8 <= PermissiveServerMaxWindowBits (deflate_parameters params) <= 15 ∧
      (deflate_enabled params = false → deflate_parameters params = new_WebSocketDeflateParameters).
Proof.
  intros Hv. unfold ValidateExtensions.
  destruct (values_loop_accepted values false [] new_WebSocketDeflateParameters Hv) as (r & -> & Hr).
  { split; [by split; left|]. split; [by left|done]. }
  rewrite Done_bind. destruct r as [[[seen vs] p]|[m p]]; [|by eexists].
  eexists. split; [reflexivity|]. intros description params [= <- <-]. cbn.
  destruct (Hr seen vs p eq_refl) as (Hp & Hc & Hseen). pose proof Hp as [Hs _].
  destruct (IsValidAsResponse_proper p Hp) as (ok & m & -> & Hok). rewrite (proj2 Hok Hc).
  split; [by eexists|]. unfold PermissiveClientMaxWindowBits, PermissiveServerMaxWindowBits.
  assert (∀ b, proper_bits false b → 8 <= PermissiveBits b <= 15) as Hb.
  { intros b [->|[(Hb & Es & Eh)|[? _]]]; [cbn; lia| |done]. unfold PermissiveBits. by rewrite Es, Eh. }
  auto.
Qed.

(** A server that answers twice, and one with a parameter too large. *)
Example duplicate_answer :
  ValidateExtensions [chars "permessage-deflate"%string; chars "permessage-deflate"%string]
  = Done (inr (chars "Received duplicate permessage-deflate response"%string)).
Proof. vm_compute. reflexivity. Qed.
Example window_too_large :
  ValidateExtensions [chars "permessage-deflate; client_max_window_bits=16"%string]
  = Done (inr (chars "Error in permessage-deflate: Received invalid client_max_window_bits parameter"%string)).
Proof. vm_compute. reflexivity. Qed.

(** One character above 127 in a value fails a check. *)
Example high_byte_fails_check :
  ValidateExtensions [chars "permessage-deflate; client_max_window_bits="%string ++ [177]] = DcheckFailed.
Proof. vm_compute. reflexivity. Qed.

Lemma ValidateExtensions_any_answer_witness :
  ∃ r, ValidateExtensions [chars "permessage-deflate; server_max_window_bits=9"%string] = Done r ∧
    ∀ description params, r = inl (description, params) →
      (∃ message, IsValidAsResponse (deflate_parameters params) = Done (true, message)) ∧
      8 <= PermissiveClientMaxWindowBits (deflate_parameters params) <= 15 ∧
      8 <= PermissiveServerMaxWindowBits (deflate_parameters params) <= 15 ∧
      (deflate_enabled params = false → deflate_parameters params = new_WebSocketDeflateParameters).
Proof.
  apply (ValidateExtensions_any_answer [chars "permessage-deflate; server_max_window_bits=9"%string]).
  apply (bool_decide_eq_true_1 _). vm_compute. reflexivity.
Defined.
