(* ===== verification/Zlib.v ===== *)
(** * What net/websockets uses of zlib

    The code compresses and decompresses through third_party/zlib.  A stream is a state; a
    call gives the result, the next state, the number of bytes it read and the bytes it wrote.
    [ZlibLaws] has what zlib.h documents of these calls, and what the decoder makes of what the
    encoder writes; the code on top of zlib is proved correct for any implementation that
    keeps them.  A small codec that keeps them is at the end: the examples run with it. *)

From S2P Require Import Prelude.

Inductive Flush : Type := Z_NO_FLUSH | Z_SYNC_FLUSH.
Definition Z_OK : Z := 0.
Definition Z_STREAM_END : Z := 1.
Definition Z_DATA_ERROR : Z := -3.
Definition Z_BUF_ERROR : Z := -5.

Record zlib_call (S : Type) : Type := mkzlib_call {
  z_result : Z;
  z_state : S;
  z_read : Z;
  z_written : list Z
}.
Arguments mkzlib_call {S}. Arguments z_result {S}. Arguments z_state {S}.
Arguments z_read {S}. Arguments z_written {S}.

(** The calls.  [inflate st input avail_out flush] reads from [input], which is [avail_in]
    bytes long.  The last three are not calls: [inflated st input] is all that a decoder in
    state [st] has to give for [input], [intact] says that no input of it is corrupt, and
    [deflate_calls] bounds how often [deflate] gives [Z_OK] before it gives something else. *)
Class Zlib : Type := {
  inflate_state : Type;
  inflateInit2 : Z → Z * inflate_state;
  inflateReset : inflate_state → Z * inflate_state;
  inflate : inflate_state → list Z → Z → Flush → zlib_call inflate_state;
  deflate_state : Type;
  deflateInit2 : Z → Z * deflate_state;
  deflateReset : deflate_state → Z * deflate_state;
  deflate : deflate_state → list Z → Z → Flush → zlib_call deflate_state;
  inflated : inflate_state → list Z → list Z;
  intact : inflate_state → list Z → Prop;
  deflate_calls : deflate_state → list Z → Flush → nat
}.

Definition after_read {S} (c : zlib_call S) (input : list Z) : list Z := drop (Z.to_nat (z_read c)) input.

(** Progress or none, but no error. *)
Definition z_fine (result : Z) : Prop := result = Z_OK ∨ result = Z_BUF_ERROR.
#[export] Instance z_fine_dec r : Decision (z_fine r).
Proof. unfold z_fine. apply _. Defined.

Definition call_in_bounds {S} (c : zlib_call S) (input : list Z) (avail_out : Z) : Prop :=
  0 <= z_read c <= Z.of_nat (length input) ∧ Z.of_nat (length (z_written c)) <= avail_out ∧
  Forall byte_ok (z_written c).

(** The tail of a flushed stream, and a block without data (RFC 1951, section 3.2.4). *)
Definition sync_mark : list Z := [0; 0; 255; 255].
Definition empty_block : list Z := 0 :: sync_mark.

(** ** Histories of a compressing stream

    [deflating window_bits p d input output]: a stream opened with that window may be in state
    [d] when it was given [input] and gave [output], in phase [p]: everything is flushed;
    there is input that may not be; or a flush has begun and gave [out] so far.  Room for
    less than seven bytes is not allowed.  A stream that is reset has forgotten what it
    was given, so what it writes fits behind any flushed output; and so does a block without
    data. *)
Inductive phase : Type := Flushed | Fed | Flushing (out : list Z).

Section Deflating.
Context {Hz : Zlib} (window_bits : Z).

Definition may_feed (p : phase) (input : list Z) : Prop := p = Fed ∨ p = Flushed ∧ input ≠ [].
Definition may_flush (p : phase) (out : list Z) : Prop := p = Fed ∧ out = [] ∨ p = Flushing out.

Inductive deflating : phase → deflate_state → list Z → list Z → Prop :=
  | deflating_init d : deflateInit2 (- window_bits) = (Z_OK, d) → deflating Flushed d [] []
  | deflating_feed p d input output more avail_out :
      deflating p d input output → may_feed p more → Forall byte_ok more → 6 < avail_out →
      let c := deflate d more avail_out Z_NO_FLUSH in
      deflating Fed (z_state c) (input ++ take (Z.to_nat (z_read c)) more) (output ++ z_written c)
  | deflating_flush p d input output out avail_out :
      deflating p d input output → may_flush p out → 6 < avail_out →
      let c := deflate d [] avail_out Z_SYNC_FLUSH in
      z_result c = Z_OK → deflating (Flushing (out ++ z_written c)) (z_state c) input (output ++ z_written c)
  | deflating_flushed p d input output out avail_out :
      deflating p d input output → may_flush p out → 6 < avail_out →
      let c := deflate d [] avail_out Z_SYNC_FLUSH in
      z_result c = Z_BUF_ERROR → deflating Flushed (z_state c) input (output ++ z_written c)
  | deflating_empty_block d input output :
      deflating Flushed d input output → deflating Flushed d input (output ++ empty_block)
  | deflating_reset p d input output d0 input0 output0 :
      deflating p d input output → deflating Flushed d0 input0 output0 →
      deflating Flushed (snd (deflateReset d)) input0 output0.
End Deflating.

(** ** The laws *)

Class ZlibLaws {Hz : Zlib} : Prop := {
  (** A raw stream can be opened with any window. *)
  inflateInit2_ok w : 8 <= w <= 15 → fst (inflateInit2 (- w)) = Z_OK;
  deflateInit2_ok w : 8 <= w <= 15 → fst (deflateInit2 (- w)) = Z_OK;
  (** A stream has nothing to give before it has read anything. *)
  inflateInit2_nothing w : inflated (snd (inflateInit2 w)) [] = [];
  inflate_in_bounds st input n fl : 0 < n → call_in_bounds (inflate st input n fl) input n;
  (** What is given out is the next of what there is to be given; at the end of a stream the
      next stream follows. *)
  inflate_meaning st input n fl more :
    0 < n → let c := inflate st input n fl in z_fine (z_result c) →
    inflated st (input ++ more) = z_written c ++ inflated (z_state c) (after_read c input ++ more) ∧
    (intact st (input ++ more) ↔ intact (z_state c) (after_read c input ++ more));
  inflate_end st input n fl more :
    0 < n → let c := inflate st input n fl in z_result c = Z_STREAM_END →
    let r := inflateReset (z_state c) in
    fst r = Z_OK ∧
    inflated st (input ++ more) = z_written c ++ inflated (snd r) (after_read c input ++ more) ∧
    (intact st (input ++ more) ↔ intact (snd r) (after_read c input ++ more));
  (** As much output as possible: input is left only where there is no more room; and
      [Z_SYNC_FLUSH] leaves no output if there is room. *)
  inflate_full st input n fl :
    0 < n → let c := inflate st input n fl in z_fine (z_result c) →
    Z.of_nat (length (z_written c)) < n →
    z_read c = Z.of_nat (length input) ∧ (fl = Z_SYNC_FLUSH → inflated (z_state c) [] = []);
  (** A stream cannot end before it began. *)
  inflate_fresh st input n fl :
    0 < n → z_result (inflate (snd (inflateReset st)) input n fl) = Z_STREAM_END →
    0 < z_read (inflate (snd (inflateReset st)) input n fl);
  inflate_error st input n fl :
    0 < n → let c := inflate st input n fl in
    ¬ z_fine (z_result c) → z_result c ≠ Z_STREAM_END → ¬ intact st input;
  intact_prefix st input more : intact st (input ++ more) → intact st input;
  (** Input is taken until there is no more; a call with room makes progress if it can. *)
  deflate_feed w p d input output more n :
    deflating w p d input output → may_feed p more → Forall byte_ok more → 6 < n →
    let c := deflate d more n Z_NO_FLUSH in
    call_in_bounds c more n ∧ z_fine (z_result c) ∧
    (z_result c = Z_BUF_ERROR → z_read c = Z.of_nat (length more)) ∧
    (z_result c = Z_OK →
     (deflate_calls (z_state c) (after_read c more) Z_NO_FLUSH < deflate_calls d more Z_NO_FLUSH)%nat);
  (** A flush ends, and what it wrote ends with the mark. *)
  deflate_flush w p d input output out n :
    deflating w p d input output → may_flush p out → 6 < n →
    let c := deflate d [] n Z_SYNC_FLUSH in
    call_in_bounds c [] n ∧ z_fine (z_result c) ∧
    (z_result c = Z_BUF_ERROR → ∃ front, out ++ z_written c = front ++ sync_mark) ∧
    (z_result c = Z_OK →
     (deflate_calls (z_state c) [] Z_SYNC_FLUSH < deflate_calls d [] Z_SYNC_FLUSH)%nat);
  (** A decoder with the largest window gives back what the encoder was given. *)
  inflate_deflate w d input output :
    8 <= w <= 15 → deflating w Flushed d input output →
    intact (snd (inflateInit2 (-15))) output ∧ inflated (snd (inflateInit2 (-15))) output = input
}.

(** ** A small codec

    Runs: a byte [k] from 1 to 200 and the byte that is repeated [k] times.  0 is followed by
    the four bytes of a mark, which are skipped; 255 ends a stream; other numbers are
    corrupt. *)
Module Runs.

Inductive decoder : Type := Start | Count (k : Z) | Repeat (k : Z) (b : Z) | Skip (j : nat).
Record encoder : Type := mkencoder { pending : list Z; synced : bool }.

Definition skipped (j : nat) : decoder := match j with S (S j) => Skip (S j) | _ => Start end.

(** What a decoder has to give at once, and its state without it. *)
Definition ready (st : decoder) : list Z := match st with Repeat k b => replicate (Z.to_nat k) (u8 b) | _ => [] end.
Definition rest (st : decoder) : decoder := match st with Repeat _ _ => Start | _ => st end.

Inductive verdict : Type := Next (st : decoder) | End | Corrupt.
Definition step (st : decoder) (x : Z) : verdict :=
  match rest st with
  | Start | Repeat _ _ =>
      if x =? 0 then Next (Skip 4) else if x =? 255 then End
      else if (1 <=? x) && (x <=? 200) then Next (Count x) else Corrupt
  | Count k => Next (Repeat k x)
  | Skip j => Next (skipped j)
  end.

(** The result is [None] where nothing special happened. *)
Fixpoint run (st : decoder) (input : list Z) (room : Z) : option Z * decoder * Z * list Z :=
  let out := ready st in
  if room <? Z.of_nat (length out) then
    match st with
    | Repeat k b => (None, Repeat (k - room) b, 0, take (Z.to_nat room) out)
    | _ => (None, st, 0, [])
    end
  else
    match input with
    | [] => (None, rest st, 0, out)
    | x :: input =>
        match step st x with
        | Next st =>
            let '(r, st, n, written) := run st input (room - Z.of_nat (length out)) in
            (r, st, n + 1, out ++ written)
        | End => (Some Z_STREAM_END, Start, 1, out)
        | Corrupt => (Some Z_DATA_ERROR, Start, 0, out)
        end
    end.

Definition progress (n : Z) (written : list Z) : Z :=
  if (n =? 0) && bool_decide (written = []) then Z_BUF_ERROR else Z_OK.

Definition decode (st : decoder) (input : list Z) (room : Z) (fl : Flush) : zlib_call decoder :=
  let '(r, st, n, written) := run st input room in
  mkzlib_call (default (progress n written) r) st n written.

Fixpoint decoded (st : decoder) (input : list Z) : list Z :=
  ready st ++
  match input with
  | [] => []
  | x :: input => match step st x with Next st => decoded st input | End => decoded Start input | Corrupt => [] end
  end.
Fixpoint sound (st : decoder) (input : list Z) : Prop :=
  match input with
  | [] => True
  | x :: input => match step st x with Next st => sound st input | End => sound Start input | Corrupt => False end
  end.

Fixpoint runs (input : list Z) : list Z :=
  match input with
  | [] => []
  | x :: input =>
      match runs input with
      | k :: y :: more => if (y =? x) && (k <? 200) then k + 1 :: y :: more else 1 :: x :: k :: y :: more
      | _ => [1; x]
      end
  end.

(** A flush writes the mark once. *)
Definition outgoing (d : encoder) (input : list Z) (fl : Flush) : list Z :=
  pending d ++ runs input ++ match fl with Z_SYNC_FLUSH => if synced d then [] else empty_block | Z_NO_FLUSH => [] end.
Definition encode (d : encoder) (input : list Z) (room : Z) (fl : Flush) : zlib_call encoder :=
  let out := outgoing d input fl in
  let written := take (Z.to_nat room) out in
  let n := Z.of_nat (length input) in
  mkzlib_call (progress n written)
    (mkencoder (drop (Z.to_nat room) out)
       match fl with Z_SYNC_FLUSH => true | Z_NO_FLUSH => synced d && bool_decide (input = []) end)
    n written.

#[export] Instance codec : Zlib := {|
  inflate_state := decoder;
  inflateInit2 _ := (Z_OK, Start);
  inflateReset _ := (Z_OK, Start);
  inflate := decode;
  deflate_state := encoder;
  deflateInit2 _ := (Z_OK, mkencoder [] true);
  deflateReset _ := (Z_OK, mkencoder [] true);
  deflate := encode;
  inflated := decoded;
  intact := sound;
  deflate_calls d input fl := (length (outgoing d input fl) + length input)%nat
|}.

Example runs_of : runs [7; 7; 7; 1; 2; 2] = [3; 7; 1; 1; 2; 2].
Proof. reflexivity. Qed.
Example decode_in_pieces :
  let c := decode Start [3; 7; 1; 1; 2; 2; 0; 0; 0; 255; 255] 2 Z_NO_FLUSH in
  (c, decode (z_state c) (after_read c [3; 7; 1; 1; 2; 2; 0; 0; 0; 255; 255]) 100 Z_NO_FLUSH)
  = (mkzlib_call Z_OK (Repeat 1 7) 2 [7; 7], mkzlib_call Z_OK Start 9 [7; 1; 2; 2]).
Proof. vm_compute. reflexivity. Qed.

Lemma ready_bytes st : Forall byte_ok (ready st).
Proof. destruct st; cbn; try constructor. apply Forall_replicate, u8_byte. Qed.

Lemma ready_rest st : ready (rest st) = [].
Proof. by destruct st. Qed.
Lemma step_rest st x : step (rest st) x = step st x.
Proof. by destruct st. Qed.

Lemma decoded_rest st input : decoded st input = ready st ++ decoded (rest st) input.
Proof. destruct input; cbn; by rewrite ready_rest, ?step_rest. Qed.
Lemma sound_rest st input : sound st input ↔ sound (rest st) input.
Proof. destruct input; cbn; by rewrite ?step_rest. Qed.

(** What a run of the decoder gives. *)
Definition follows (st st' : decoder) (input left_ written : list Z) : Prop := ∀ more,
  decoded st (input ++ more) = written ++ decoded st' (left_ ++ more) ∧
  (sound st (input ++ more) ↔ sound st' (left_ ++ more)).

Definition run_ok (st : decoder) (input : list Z) (room : Z) (res : option Z * decoder * Z * list Z) : Prop :=
  let '(r, st', n, written) := res in
  (0 <= n <= Z.of_nat (length input) ∧ Z.of_nat (length written) <= room ∧ Forall byte_ok written) ∧
  match r with
  | None => follows st st' input (drop (Z.to_nat n) input) written ∧
            (Z.of_nat (length written) < room → n = Z.of_nat (length input) ∧ decoded st' [] = [])
  | Some r => r = Z_STREAM_END ∧ 0 < n ∧ follows st Start input (drop (Z.to_nat n) input) written ∨
              r = Z_DATA_ERROR ∧ ¬ sound st input
  end.

Lemma run_full st input room :
  0 <= room < Z.of_nat (length (ready st)) → run_ok st input room (run st input room).
Proof.
  intros Hr. assert (∃ k b, st = Repeat k b) as (k & b & ->) by (destruct st; cbn in Hr; try lia; eauto).
  cbn in Hr. rewrite length_replicate in Hr.
  assert (run (Repeat k b) input room = (None, Repeat (k - room) b, 0, replicate (Z.to_nat room) (u8 b))) as ->.
  { destruct input; cbn [run ready]; rewrite length_replicate, (proj2 (Z.ltb_lt _ _)) by lia;
      by rewrite take_replicate, Nat.min_l by lia. }
  split; [|split].
  - rewrite length_replicate. split; [lia|]. split; [lia|]. apply Forall_replicate, u8_byte.
  - intros more. rewrite !(decoded_rest (Repeat _ _)), !(sound_rest (Repeat _ _)). cbn [rest ready Z.to_nat drop].
    split; [|done]. rewrite app_assoc, <- replicate_add. do 2 f_equal. lia.
  - rewrite length_replicate. lia.
Qed.

Lemma run_spec input : ∀ st room, 0 <= room → run_ok st input room (run st input room).
Proof.
  induction input as [|x input IH]; intros st room Hroom;
    (destruct (Z.ltb_spec room (Z.of_nat (length (ready st)))) as [Hlt|Hge]; [by apply run_full|]);
    cbn [run]; rewrite (proj2 (Z.ltb_ge _ _)) by done.
  - split; [|split].
    + split; [done|]. split; [done|apply ready_bytes].
    + intros more. by rewrite decoded_rest, sound_rest.
    + intros _. split; [done|]. by destruct st.
  - assert (∀ more, decoded st (x :: more) = ready st ++
      match step st x with Next st => decoded st more | End => decoded Start more | Corrupt => [] end) as Hd by done.
    assert (∀ more, sound st (x :: more) =
      match step st x with Next st => sound st more | End => sound Start more | Corrupt => False end) as Hs by done.
    destruct (step st x) as [st1| |] eqn:Est.
    + specialize (IH st1 (room - Z.of_nat (length (ready st))) ltac:(lia)).
      destruct (run st1 input _) as [[[r st'] n] written]. destruct IH as ((Hn & Hl & Hb) & Hr). cbn [length].
      assert (drop (Z.to_nat (n + 1)) (x :: input) = drop (Z.to_nat n) input) as Ed
        by (by replace (Z.to_nat (n + 1)) with (S (Z.to_nat n)) by lia).
      assert (∀ st2, follows st1 st2 input (drop (Z.to_nat n) input) written →
        follows st st2 (x :: input) (drop (Z.to_nat (n + 1)) (x :: input)) (ready st ++ written)) as Hf.
      { intros st2 H more. rewrite Ed, <- app_comm_cons, Hd, Hs. destruct (H more) as [-> ->].
        by rewrite <- app_assoc. }
      split; [|destruct r as [r|]].
      * rewrite length_app. cbn [length]. split; [lia|]. split; [lia|]. apply Forall_app. split; [apply ready_bytes|done].
      * destruct Hr as [(-> & Hp & H)|[-> H]]; [left; split; [done|]; split; [lia|auto]|].
        right. split; [done|]. by rewrite Hs.
      * destruct Hr as [H Hr]. split; [auto|]. rewrite length_app. cbn [length]. intros.
        destruct Hr as [-> Hr]; [lia|]. by split; [lia|].
    + split; [cbn [length]; split; [lia|]; split; [lia|apply ready_bytes]|]. left. split; [done|]. split; [lia|].
      intros more. by rewrite <- app_comm_cons, Hd, Hs.
    + split; [cbn [length]; split; [lia|]; split; [lia|apply ready_bytes]|]. right. split; [done|]. rewrite Hs. tauto.
Qed.

Lemma progress_fine n written : z_fine (progress n written).
Proof. unfold progress, z_fine. case_match; [by right|by left]. Qed.

Lemma sound_prefix input : ∀ st more, sound st (input ++ more) → sound st input.
Proof. induction input as [|x input IH]; intros st more; cbn; [done|]. destruct (step st x); eauto. Qed.

(** ** The encoder *)

Lemma runs_shape input : input ≠ [] → ∃ k b more, runs input = k :: b :: more ∧ 1 <= k <= 200.
Proof.
  induction input as [|x input IH]; [done|]. intros _. cbn [runs].
  destruct (decide (input = [])) as [->|Hne]; [by exists 1, x, []|].
  destruct (IH Hne) as (k & b & more & -> & Hk).
  destruct ((b =? x) && (k <? 200)) eqn:E; [|by exists 1, x, (k :: b :: more)].
  prop_bools. exists (k + 1), b, more. split; [done|lia].
Qed.

(** One run, whole or not, in front of others. *)
Lemma decoded_run k b more : 1 <= k <= 200 → byte_ok b →
  decoded Start (k :: b :: more) = replicate (Z.to_nat k) b ++ decoded Start more ∧
  (sound Start (k :: b :: more) ↔ sound Start more).
Proof.
  intros Hk Hb. assert (step Start k = Next (Count k)) as E by (unfold step; cbn [rest]; by decide_tests lia).
  cbn [decoded sound]. rewrite E. cbn [decoded sound].
  change (step (Count k) b) with (Next (Repeat k b)). cbv iota beta.
  rewrite (decoded_rest (Repeat k b)), (sound_rest (Repeat k b)). cbn [ready rest app]. by rewrite u8_small.
Qed.

Lemma decoded_runs input more : Forall byte_ok input →
  decoded Start (runs input ++ more) = input ++ decoded Start more ∧
  (sound Start (runs input ++ more) ↔ sound Start more).
Proof.
  intros H. induction H as [|x input Hx H IH]; [done|]. cbn [runs].
  destruct (decide (input = [])) as [->|Hne]; [cbn; by apply (decoded_run 1)|].
  destruct (runs_shape input Hne) as (k & b & m & E & Hk). rewrite E in IH |- *.
  destruct ((b =? x) && (k <? 200)) eqn:Et.
  - apply andb_true_iff in Et as [->%Z.eqb_eq Ek%Z.ltb_lt].
    change ((k :: x :: m) ++ more) with (k :: x :: (m ++ more)) in IH.
    change ((k + 1 :: x :: m) ++ more) with (k + 1 :: x :: (m ++ more)).
    destruct (decoded_run k x (m ++ more) ltac:(lia) Hx) as [E1 E2]. rewrite E1, E2 in IH.
    destruct (decoded_run (k + 1) x (m ++ more) ltac:(lia) Hx) as [-> ->]. destruct IH as [IH IH']. split; [|done].
    replace (Z.to_nat (k + 1)) with (S (Z.to_nat k)) by lia. cbn. by rewrite IH.
  - change ((1 :: x :: k :: b :: m) ++ more) with (1 :: x :: ((k :: b :: m) ++ more)).
    destruct (decoded_run 1 x ((k :: b :: m) ++ more) ltac:(lia) Hx) as [-> ->]. destruct IH as [-> ->]. done.
Qed.

Lemma decoded_mark more : decoded Start (empty_block ++ more) = decoded Start more ∧
  (sound Start (empty_block ++ more) ↔ sound Start more).
Proof. done. Qed.

(** What the output of a history is to the decoder. *)
Definition stands_for (output input : list Z) : Prop := ∀ more,
  decoded Start (output ++ more) = input ++ decoded Start more ∧ (sound Start (output ++ more) ↔ sound Start more).

Lemma stands_for_app output input output' input' :
  stands_for output input → stands_for output' input' → stands_for (output ++ output') (input ++ input').
Proof.
  intros H H' more. rewrite <- !app_assoc. destruct (H (output' ++ more)) as [-> ->].
  by destruct (H' more) as [-> ->].
Qed.

Definition history (p : phase) (d : encoder) (input output : list Z) : Prop :=
  stands_for (output ++ pending d) input ∧
  match p with
  | Flushed => pending d = [] ∧ synced d = true
  | Fed => synced d = false
  | Flushing out => synced d = true ∧ ∃ front, out ++ pending d = front ++ sync_mark
  end.

Lemma progress_buf n written : progress n written = Z_BUF_ERROR → n = 0 ∧ written = [].
Proof. unfold progress. case_match; [|done]. intros _. prop_bools. done. Qed.

Lemma take_nil_room {A} (n : Z) (l : list A) : 6 < n → take (Z.to_nat n) l = [] → l = [].
Proof. intros Hn. destruct l; [done|]. by replace (Z.to_nat n) with (S (Z.to_nat (n - 1))) by lia. Qed.

(** The pieces of what is written are the whole. *)
Lemma pending_split output d input fl n (out := outgoing d input fl) :
  (output ++ take (Z.to_nat n) out) ++ drop (Z.to_nat n) out = (output ++ pending d) ++
    runs input ++ match fl with Z_SYNC_FLUSH => if synced d then [] else empty_block | Z_NO_FLUSH => [] end.
Proof. by rewrite <- !app_assoc, take_drop. Qed.

Lemma stands_for_nil : stands_for [] [].
Proof. intros more. done. Qed.
Lemma stands_for_mark : stands_for empty_block [].
Proof. intros more. apply decoded_mark. Qed.
Lemma stands_for_runs input : Forall byte_ok input → stands_for (runs input) input.
Proof. intros H more. by apply decoded_runs. Qed.

Lemma history_flush d input output out n :
  6 < n → synced d = false ∧ out = [] ∨ (synced d = true ∧ ∃ front, out ++ pending d = front ++ sync_mark) →
  stands_for (output ++ pending d) input →
  let c := encode d [] n Z_SYNC_FLUSH in
  stands_for ((output ++ z_written c) ++ pending (z_state c)) input ∧ synced (z_state c) = true ∧
  ∃ front, (out ++ z_written c) ++ pending (z_state c) = front ++ sync_mark.
Proof.
  intros Hn Hd Hs c. cbn [c encode z_written z_state pending synced]. rewrite !pending_split. cbn [runs app].
  split; [|split; [done|]].
  - rewrite <- (app_nil_r input). apply stands_for_app; [done|].
    destruct (synced d); [apply stands_for_nil|apply stands_for_mark].
  - destruct Hd as [[-> ->]|[-> [front E]]].
    + exists (pending d ++ [0]). cbn. by rewrite <- app_assoc.
    + exists front. by rewrite app_nil_r.
Qed.

Lemma flush_written d n : 6 < n →
  z_result (encode d [] n Z_SYNC_FLUSH) = Z_BUF_ERROR →
  pending (z_state (encode d [] n Z_SYNC_FLUSH)) = [] ∧ synced d = true ∧ pending d = [].
Proof.
  intros Hn H. apply progress_buf in H as [_ H]. cbn [encode z_state pending].
  pose proof (take_nil_room _ _ Hn H) as E. rewrite E, drop_nil. split; [done|].
  unfold outgoing in E. cbn in E. apply app_eq_nil in E as [-> E]. by destruct (synced d).
Qed.

Lemma may_flush_history p d input output out :
  history p d input output → may_flush p out →
  synced d = false ∧ out = [] ∨ (synced d = true ∧ ∃ front, out ++ pending d = front ++ sync_mark).
Proof. intros [_ H] [[-> ->]| ->]; [by left|by right]. Qed.

Lemma deflating_history w p d input output : deflating w p d input output → history p d input output.
Proof.
  induction 1 as [d E|p d input output more n _ [Hs Hp] Hm Hb Hn c|p d input output out n _ IH Hm Hn c Hc
    |p d input output out n _ IH Hm Hn c Hc|d input output _ [Hs [Hp Hy]]|p d input output d0 input0 output0 _ _ _ [Hs [Hp Hy]]].
  - cbn in E. injection E as <-. split; [|done]. apply stands_for_nil.
  - split.
    + cbn [c encode deflate codec z_written z_state z_read pending]. rewrite pending_split, app_nil_r.
      rewrite take_ge by lia. apply stands_for_app; [done|]. by apply stands_for_runs.
    + cbn. destruct Hm as [->|[-> Hne]]; [by rewrite Hp|]. rewrite (bool_decide_eq_false_2 (more = [])) by done.
      apply andb_false_r.
  - destruct (history_flush d input output out n Hn (may_flush_history _ _ _ _ _ IH Hm) (proj1 IH)) as (H1 & H2 & H3).
    exact (conj H1 (conj H2 H3)).
  - destruct (history_flush d input output out n Hn (may_flush_history _ _ _ _ _ IH Hm) (proj1 IH)) as (H1 & H2 & H3).
    split; [exact H1|]. split; [|exact H2]. by apply flush_written.
  - split; [|done]. rewrite Hp, app_nil_r in Hs |- *. rewrite <- (app_nil_r input).
    apply stands_for_app; [done|apply stands_for_mark].
  - split; [|done]. by rewrite Hp in Hs.
Qed.

Lemma runs_bytes input : Forall byte_ok input → Forall byte_ok (runs input).
Proof.
  induction 1 as [|x input Hx Hf IH]; cbn [runs]; [constructor|].
  assert (byte_ok 1) as H1 by (unfold byte_ok; lia).
  destruct (runs input) as [|k [|y more]]; try (by repeat (constructor; [done|]); constructor).
  apply Forall_cons_1 in IH as [Hk IH]. apply Forall_cons_1 in IH as [Hy IH]. unfold byte_ok in Hk.
  destruct ((y =? x) && (k <? 200)) eqn:E; prop_bools; repeat (constructor; [unfold byte_ok in *; lia|]); done.
Qed.

Lemma deflating_bytes w p d input output : deflating w p d input output → Forall byte_ok (pending d).
Proof.
  assert (Forall byte_ok empty_block) as Hm by (apply (bool_decide_eq_true_1 _); by vm_compute).
  assert (∀ d more fl n, Forall byte_ok (pending d) → Forall byte_ok more →
    Forall byte_ok (pending (z_state (encode d more n fl)))) as H.
  { intros d0 more fl n Hd Hb. cbn. apply Forall_drop. unfold outgoing. rewrite !Forall_app.
    split; [done|]. split; [by apply runs_bytes|]. destruct fl; [constructor|]. by destruct (synced d0). }
  induction 1 as [d E|p d input output more n _ IH _ Hb _ c|p d input output out n _ IH _ _ c _
    |p d input output out n _ IH _ _ c _|d input output _ IH|p d input output d0 input0 output0 _ _ _ IH];
    [cbn in E; injection E as <-; constructor|by apply H..|done|constructor].
Qed.

Lemma outgoing_bytes w p d input output more fl :
  deflating w p d input output → Forall byte_ok more → Forall byte_ok (outgoing d more fl).
Proof.
  intros Hd Hb. unfold outgoing. rewrite !Forall_app. split; [by eapply deflating_bytes|].
  split; [by apply runs_bytes|]. destruct fl; [constructor|]. destruct (synced d); [constructor|].
  apply (bool_decide_eq_true_1 _). by vm_compute.
Qed.

Lemma encode_in_bounds w p d input output more n fl :
  deflating w p d input output → Forall byte_ok more → 6 < n → call_in_bounds (encode d more n fl) more n.
Proof.
  intros Hd Hb Hn. split; [cbn; lia|]. cbn. split; [rewrite length_take; lia|].
  apply Forall_take. by eapply outgoing_bytes.
Qed.

(** A call that made progress leaves less to be written, or less to be read. *)
Lemma calls_decrease d more n fl : 6 < n → let c := encode d more n fl in
  z_result c = Z_OK → (deflate_calls (z_state c) (after_read c more) fl < deflate_calls d more fl)%nat.
Proof.
  intros Hn c. assert (after_read c more = []) as -> by (unfold after_read; cbn; apply drop_ge; lia).
  cbn [c encode z_result]. unfold progress. intros Hr.
  assert (outgoing (z_state c) [] fl = drop (Z.to_nat n) (outgoing d more fl)) as E.
  { unfold outgoing at 1. cbn. destruct fl; by rewrite app_nil_r. }
  cbn [deflate_calls codec]. rewrite E, length_drop. cbn [length].
  destruct more as [|x more]; [|cbn [length]; lia].
  destruct (outgoing d [] fl) as [|x out]; [|cbn [length]; lia]. cbn in Hr. by rewrite take_nil in Hr.
Qed.

Lemma decode_spec st input n : 0 < n → run_ok st input n (run st input n).
Proof. intros. by apply run_spec; lia. Qed.

Ltac open_decode st input n :=
  cbn [inflate codec decode] in *;
  let H := fresh "H" in
  pose proof (decode_spec st input n ltac:(lia)) as H; unfold decode in *;
  destruct (run st input n) as [[[[?|] ?] ?] ?]; cbn [z_result z_read z_written z_state default] in *.

#[export] Instance codec_laws : ZlibLaws.
Proof.
  constructor; try done.
  - intros st input n fl Hn. open_decode st input n; by destruct H.
  - intros st input n fl more Hn c Hc. subst c. open_decode st input n.
    + destruct H as (_ & [(-> & _)|[-> _]]); by destruct Hc.
    + destruct H as (_ & H & _). apply H.
  - intros st input n fl more Hn c Hc. subst c. open_decode st input n.
    + destruct H as (_ & [(-> & _ & H)|[-> _]]); [|done]. split; [done|]. apply H.
    + unfold progress in Hc. by case_match.
  - intros st input n fl Hn c Hc Hl. subst c. open_decode st input n.
    + destruct H as (_ & [(-> & _)|[-> _]]); by destruct Hc.
    + destruct H as (_ & _ & H). destruct (H Hl) as [-> H0]. by split.
  - intros st input n fl Hn. change (snd (inflateReset st)) with Start. intros Hc. open_decode Start input n.
    + destruct H as (_ & [(_ & H & _)|[-> _]]); done.
    + unfold progress in Hc. by case_match.
  - intros st input n fl Hn c Hc He. subst c. open_decode st input n.
    + destruct H as (_ & [(-> & _)|[_ H]]); done.
    + destruct Hc. apply progress_fine.
  - intros st input more. apply sound_prefix.
  - intros w p d input output more n Hd Hm Hb Hn c. split; [by eapply encode_in_bounds|].
    split; [apply progress_fine|]. split; [done|]. by apply calls_decrease.
  - intros w p d input output out n Hd Hm Hn c. split; [by eapply encode_in_bounds|].
    split; [apply progress_fine|]. split; [|by apply (calls_decrease d [] n Z_SYNC_FLUSH)].
    intros Hc. destruct (flush_written d n Hn Hc) as (_ & Hy & Hp).
    destruct (may_flush_history p d input output out) as [[E _]|[_ [front E]]]; [|done|congruence|].
    + by eapply deflating_history.
    + apply progress_buf in Hc as [_ Hc]. exists front.
      change (z_written c) with (take (Z.to_nat n) (outgoing d [] Z_SYNC_FLUSH)). rewrite Hc, app_nil_r.
      by rewrite Hp, app_nil_r in E.
  - intros w d input output _ Hd. apply deflating_history in Hd as [Hs [Hp _]]. rewrite Hp, app_nil_r in Hs.
    destruct (Hs []) as [Hd Hi]. rewrite !app_nil_r in *. cbn. split; [by apply Hi|exact Hd].
Qed.
End Runs.
