(* ===== verification/WebSocketInflater.v ===== *)
(** * net/websockets/websocket_inflater.{h,cc}: the inflater and its two buffers

    [WebSocketInflater] decompresses what it is given into a ring buffer of a fixed size;
    input that does not fit is "choked", kept compressed in a queue of blocks.  Pointers into
    memory are the bytes from there on; [memcpy] into a buffer is [overwrite].  A loop that
    runs out of fuel is not [Done]. *)

From S2P Require Import Prelude Zlib.

(** The [size] bytes at [offset], and a buffer with bytes written at [offset]. *)
Definition slice (offset size : Z) (memory : list Z) : list Z :=
  take (Z.to_nat size) (drop (Z.to_nat offset) memory).
Definition overwrite (offset : Z) (bytes memory : list Z) : list Z :=
  take (Z.to_nat offset) memory ++ bytes ++ drop (Z.to_nat offset + length bytes) memory.

(** ** The ring buffer of the output *)

Record OutputBuffer : Type := mkOutputBuffer {
  output_capacity_ : Z;
  buffer_ : list Z;
  head_ : Z;
  tail_ : Z
}.
#[export] Instance eta_OutputBuffer : Eta OutputBuffer := λ b,
  mkOutputBuffer (output_capacity_ b) (buffer_ b) (head_ b) (tail_ b).

Definition new_OutputBuffer (capacity : Z) : OutputBuffer :=
  {| output_capacity_ := capacity; buffer_ := replicate (Z.to_nat (capacity + 1)) 0; head_ := 0; tail_ := 0 |}.

Definition buffer_size (b : OutputBuffer) : Z := Z.of_nat (length (buffer_ b)).
Definition Size (b : OutputBuffer) : Z := u64 (tail_ b + buffer_size b - head_ b) mod buffer_size b.

(** The position of the tail, and the size that is available there. *)
Definition GetTail (b : OutputBuffer) : outcome (Z * Z) :=
  DCHECK (tail_ b <? buffer_size b) ;;
  Done (tail_ b, Z.min (u64 (output_capacity_ b - Size b)) (u64 (buffer_size b - tail_ b))).

Definition AdvanceHead (advance : Z) (b : OutputBuffer) : outcome OutputBuffer :=
  DCHECK (advance <=? Size b) ;;
  Done (b <| head_ := u64 (head_ b + advance) mod buffer_size b |>).
Definition AdvanceTail (advance : Z) (b : OutputBuffer) : outcome OutputBuffer :=
  DCHECK (u64 (advance + Size b) <=? output_capacity_ b) ;;
  Done (b <| tail_ := u64 (tail_ b + advance) mod buffer_size b |>).

(** The bytes written to [dest]. *)
Definition Read (size : Z) (b : OutputBuffer) : outcome (list Z * OutputBuffer) :=
  DCHECK (size <=? Size b) ;;
  r ← (if tail_ b <? head_ b then
         let num_bytes_to_copy := Z.min size (u64 (buffer_size b - head_ b)) in
         DCHECK (head_ b <? buffer_size b) ;;
         let dest := slice (head_ b) num_bytes_to_copy (buffer_ b) in
         b ← AdvanceHead num_bytes_to_copy b;
         Done (num_bytes_to_copy, dest, b)
       else Done (0, [], b));
  let '(num_bytes_copied, dest, b) := r : Z * list Z * OutputBuffer in
  if num_bytes_copied =? size then Done (dest, b)
  else
    DCHECK (head_ b <=? tail_ b) ;;
    let num_bytes_to_copy := u64 (size - num_bytes_copied) in
    DCHECK (num_bytes_to_copy <=? u64 (tail_ b - head_ b)) ;;
    DCHECK (head_ b <? buffer_size b) ;;
    let dest := dest ++ slice (head_ b) num_bytes_to_copy (buffer_ b) in
    b ← AdvanceHead num_bytes_to_copy b;
    DCHECK (size =? num_bytes_copied + num_bytes_to_copy) ;;
    Done (dest, b).

(** ** The queue of the input *)

(** Each buffer has [input_capacity_] bytes; what a new one holds is never read. *)
Record InputQueue : Type := mkInputQueue {
  input_capacity_ : Z;
  head_of_first_buffer_ : Z;
  tail_of_last_buffer_ : Z;
  buffers_ : list (list Z)
}.
#[export] Instance eta_InputQueue : Eta InputQueue := λ q,
  mkInputQueue (input_capacity_ q) (head_of_first_buffer_ q) (tail_of_last_buffer_ q) (buffers_ q).

Definition new_InputQueue (capacity : Z) : InputQueue :=
  {| input_capacity_ := capacity; head_of_first_buffer_ := 0; tail_of_last_buffer_ := 0; buffers_ := [] |}.

Definition IsEmpty (q : InputQueue) : bool := bool_decide (buffers_ q = []).

(** The bytes of the first component, and their number. *)
Definition Top (q : InputQueue) : outcome (list Z * Z) :=
  DCHECK (negb (IsEmpty q)) ;;
  let front := default [] (head (buffers_ q)) in
  let size := if (length (buffers_ q) =? 1)%nat then u64 (tail_of_last_buffer_ q - head_of_first_buffer_ q)
              else u64 (input_capacity_ q - head_of_first_buffer_ q) in
  Done (slice (head_of_first_buffer_ q) size front, size).

(** The number of bytes copied from [data], of which [size] may be. *)
Definition PushToLastBuffer (data : list Z) (size : Z) (q : InputQueue) : outcome (Z * InputQueue) :=
  DCHECK (negb (IsEmpty q)) ;;
  let num_bytes_to_copy := Z.min size (u64 (input_capacity_ q - tail_of_last_buffer_ q)) in
  if num_bytes_to_copy =? 0 then Done (0, q)
  else
    let buffer := List.last (buffers_ q) [] in
    let buffer := overwrite (tail_of_last_buffer_ q) (slice 0 num_bytes_to_copy data) buffer in
    Done (num_bytes_to_copy,
          q <| buffers_ := removelast (buffers_ q) ++ [buffer] |>
            <| tail_of_last_buffer_ := tail_of_last_buffer_ q + num_bytes_to_copy |>).

(** The loop of [Push]. *)
Fixpoint push_loop (fuel : nat) (data : list Z) (size num_copied_bytes : Z) (q : InputQueue) : outcome InputQueue :=
  if negb (num_copied_bytes <? size) then Done q
  else
    match fuel with
    | O => DcheckFailed
    | S fuel =>
        DCHECK (IsEmpty q || (tail_of_last_buffer_ q =? input_capacity_ q)) ;;
        let q := q <| buffers_ := buffers_ q ++ [replicate (Z.to_nat (input_capacity_ q)) 0] |>
                   <| tail_of_last_buffer_ := 0 |> in
        r ← PushToLastBuffer (drop (Z.to_nat num_copied_bytes) data) (size - num_copied_bytes) q;
        push_loop fuel data size (num_copied_bytes + fst r) (snd r)
    end.

Definition Push (data : list Z) (size : Z) (q : InputQueue) : outcome InputQueue :=
  if size =? 0 then Done q
  else
    r ← (if negb (IsEmpty q) then PushToLastBuffer data size q else Done (0, q));
    push_loop (Z.to_nat size) data size (fst r) (snd r).

Definition Consume (size : Z) (q : InputQueue) : outcome InputQueue :=
  DCHECK (negb (IsEmpty q)) ;;
  DCHECK (u64 (size + head_of_first_buffer_ q) <=? input_capacity_ q) ;;
  let q := q <| head_of_first_buffer_ := u64 (head_of_first_buffer_ q + size) |> in
  let q := if head_of_first_buffer_ q =? input_capacity_ q
           then q <| buffers_ := tail (buffers_ q) |> <| head_of_first_buffer_ := 0 |> else q in
  let q := if (length (buffers_ q) =? 1)%nat && (head_of_first_buffer_ q =? tail_of_last_buffer_ q)
           then q <| buffers_ := tail (buffers_ q) |> <| head_of_first_buffer_ := 0 |> <| tail_of_last_buffer_ := 0 |>
           else q in
  Done q.

(** ** The inflater *)

(** A [z_stream] with its state; zlib reads the first [avail_in] bytes at [next_in]. *)
Record z_stream (S : Type) : Type := mkz_stream { zs_state : S; next_in : list Z; avail_in : Z }.
Arguments mkz_stream {S}. Arguments zs_state {S}. Arguments next_in {S}. Arguments avail_in {S}.

(** What a stream has still to read. *)
Definition input_of {S} (s : z_stream S) : list Z := take (Z.to_nat (avail_in s)) (next_in s).
Definition stream_ok {S} (s : z_stream S) : Prop := 0 <= avail_in s <= Z.of_nat (length (next_in s)).

Section Inflater.
Context {Hz : Zlib}.

Record WebSocketInflater : Type := mkWebSocketInflater {
  stream_ : option (z_stream inflate_state);
  input_queue_ : InputQueue;
  output_buffer_ : OutputBuffer
}.
#[global] Instance eta_WebSocketInflater : Eta WebSocketInflater := λ w,
  mkWebSocketInflater (stream_ w) (input_queue_ w) (output_buffer_ w).

Definition kDefaultBufferCapacity : Z := 512.
Definition kDefaultInputIOBufferCapacity : Z := 512.

Definition new_WebSocketInflater (input_queue_capacity output_buffer_capacity : Z) : outcome WebSocketInflater :=
  DCHECK (0 <? input_queue_capacity) ;;
  DCHECK (0 <? output_buffer_capacity) ;;
  Done {| stream_ := None; input_queue_ := new_InputQueue input_queue_capacity;
          output_buffer_ := new_OutputBuffer output_buffer_capacity |}.

Definition Initialize (window_bits : Z) (w : WebSocketInflater) : outcome (bool * WebSocketInflater) :=
  DCHECK (8 <=? window_bits) ;;
  DCHECK (window_bits <=? 15) ;;
  let '(result, st) := inflateInit2 (- window_bits) in
  if negb (result =? Z_OK) then Done (false, w <| stream_ := None |>)
  else Done (true, w <| stream_ := Some (mkz_stream st [] 0) |>).

Definition CurrentOutputSize (w : WebSocketInflater) : Z := Size (output_buffer_ w).

(** The loop of [Inflate].  A null [stream_] must not be used. *)
Fixpoint inflate_loop (fuel : nat) (flush : Flush) (result : Z) (w : WebSocketInflater) :
    outcome (Z * WebSocketInflater) :=
  match fuel with
  | O => DcheckFailed
  | S fuel =>
      r ← GetTail (output_buffer_ w);
      let '(tail, room) := r : Z * Z in
      if room =? 0 then Done (result, w)
      else
        match stream_ w with
        | None => DcheckFailed
        | Some stream =>
            let c := inflate (zs_state stream) (input_of stream) (u32 room) flush in
            let avail_out := u32 room - Z.of_nat (length (z_written c)) in
            let stream := mkz_stream (z_state c) (drop (Z.to_nat (z_read c)) (next_in stream))
                            (avail_in stream - z_read c) in
            let buffer := (output_buffer_ w) <| buffer_ := overwrite tail (z_written c) (buffer_ (output_buffer_ w)) |> in
            buffer ← AdvanceTail (u64 (room - avail_out)) buffer;
            let w := w <| output_buffer_ := buffer |> <| stream_ := Some stream |> in
            if z_result c =? Z_STREAM_END then
              let '(result, st) := inflateReset (z_state c) in
              let w := w <| stream_ := Some (mkz_stream st (next_in stream) (avail_in stream)) |> in
              if (result =? Z_OK) || (result =? Z_BUF_ERROR) then inflate_loop fuel flush result w else Done (result, w)
            else if room =? avail_out then Done (z_result c, w)
            else if (z_result c =? Z_OK) || (z_result c =? Z_BUF_ERROR) then inflate_loop fuel flush (z_result c) w
            else Done (z_result c, w)
        end
  end.

(** Two calls for each byte that may be read or written, and two more: see the theorems. *)
Definition Inflate (data : list Z) (size : Z) (flush : Flush) (w : WebSocketInflater) :
    outcome (Z * WebSocketInflater) :=
  match stream_ w with
  | None => DcheckFailed
  | Some stream =>
      let w := w <| stream_ := Some (mkz_stream (zs_state stream) data (u32 size)) |> in
      inflate_loop (Z.to_nat (2 * (output_capacity_ (output_buffer_ w) + u32 size) + 2)) flush Z_BUF_ERROR w
  end.

Definition InflateWithFlush (data : list Z) (size : Z) (w : WebSocketInflater) : outcome (Z * WebSocketInflater) :=
  r ← Inflate data size Z_NO_FLUSH w;
  let '(result, w) := r : Z * WebSocketInflater in
  if negb (result =? Z_OK) && negb (result =? Z_BUF_ERROR) then Done (result, w)
  else if 0 <? CurrentOutputSize w then Done (result, w)
  else
    match stream_ w with
    | None => DcheckFailed
    | Some stream => Inflate (next_in stream) (avail_in stream) Z_SYNC_FLUSH w
    end.

(** What is left of the input of the last call. *)
Definition unread (w : WebSocketInflater) : outcome Z :=
  match stream_ w with None => DcheckFailed | Some stream => Done (avail_in stream) end.

(** The loop of [InflateChokedInput]. *)
Fixpoint choked_loop (fuel : nat) (result : Z) (w : WebSocketInflater) : outcome (Z * WebSocketInflater) :=
  if IsEmpty (input_queue_ w) then Done (result, w)
  else
    match fuel with
    | O => DcheckFailed
    | S fuel =>
        top ← Top (input_queue_ w);
        r ← InflateWithFlush (fst top) (snd top) w;
        let '(result, w) := r : Z * WebSocketInflater in
        left_in ← unread w;
        q ← Consume (u64 (snd top - left_in)) (input_queue_ w);
        let w := w <| input_queue_ := q |> in
        if negb (result =? Z_OK) && negb (result =? Z_BUF_ERROR) then Done (result, w)
        else if 0 <? left_in then Done (result, w)
        else choked_loop fuel result w
    end.

Definition InflateChokedInput (w : WebSocketInflater) : outcome (Z * WebSocketInflater) :=
  if IsEmpty (input_queue_ w) then InflateWithFlush [] 0 w
  else choked_loop (length (buffers_ (input_queue_ w))) Z_BUF_ERROR w.

(** [data] has at least [size] bytes. *)
Definition AddBytes (data : list Z) (size : Z) (w : WebSocketInflater) : outcome (bool * WebSocketInflater) :=
  if size =? 0 then Done (true, w)
  else if negb (IsEmpty (input_queue_ w)) then
    q ← Push data size (input_queue_ w);
    Done (true, w <| input_queue_ := q |>)
  else
    r ← InflateWithFlush data size w;
    let '(result, w) := r : Z * WebSocketInflater in
    left_in ← unread w;
    q ← (if 0 <? left_in then Push (drop (Z.to_nat (size - left_in)) data) left_in (input_queue_ w)
         else Done (input_queue_ w));
    Done ((result =? Z_OK) || (result =? Z_BUF_ERROR), w <| input_queue_ := q |>).

Definition Finish (w : WebSocketInflater) : outcome (bool * WebSocketInflater) := AddBytes sync_mark 4 w.

(** The loop of [GetOutput]; [None] is the result null.  [buffer] has the bytes copied. *)
Fixpoint output_loop (fuel : nat) (size : Z) (buffer : list Z) (w : WebSocketInflater) :
    outcome (option (list Z) * WebSocketInflater) :=
  let num_bytes_copied := Z.of_nat (length buffer) in
  if negb ((num_bytes_copied <? size) && (0 <? CurrentOutputSize w)) then Done (Some buffer, w)
  else
    match fuel with
    | O => DcheckFailed
    | S fuel =>
        let num_bytes_to_copy := Z.min (CurrentOutputSize w) (size - num_bytes_copied) in
        r ← Read num_bytes_to_copy (output_buffer_ w);
        let buffer := buffer ++ fst r in
        c ← InflateChokedInput (w <| output_buffer_ := snd r |>);
        let '(result, w) := c : Z * WebSocketInflater in
        if negb (result =? Z_OK) && negb (result =? Z_BUF_ERROR) then Done (None, w)
        else output_loop fuel size buffer w
    end.

Definition GetOutput (size : Z) (w : WebSocketInflater) : outcome (option (list Z) * WebSocketInflater) :=
  r ← output_loop (Z.to_nat size) size [] w;
  match r with
  | (None, w) => Done (None, w)
  | (Some buffer, w) =>
      DCHECK (0 <=? s32 (Z.of_nat (length buffer))) ;;
      DCHECK (s32 (Z.of_nat (length buffer)) <=? size) ;;
      Done (Some (take (Z.to_nat (s32 (Z.of_nat (length buffer)))) buffer), w)
  end.
End Inflater.

Section Example_inflate.
Existing Instance Runs.codec.

(** The output of a message in a buffer of three bytes, taken two at a time; the input is
    choked until the end. *)
Example inflate_choked :
  (w ← new_WebSocketInflater 2 3;
   r ← Initialize 15 w;
   r ← AddBytes [3; 7; 1; 1; 2; 2; 0] 7 (snd r);
   r ← Finish (snd r);
   o1 ← GetOutput 2 (snd r);
   o2 ← GetOutput 9 (snd o1);
   Done (fst o1, fst o2, CurrentOutputSize (snd o2)))
  = Done (Some [7; 7], Some [7; 1; 2; 2], 0).
Proof. vm_compute. reflexivity. Qed.
End Example_inflate.

(** ** Slices *)

Lemma slice_length o s m : 0 <= o → 0 <= s → o + s <= Z.of_nat (length m) → length (slice o s m) = Z.to_nat s.
Proof. intros. unfold slice. rewrite length_take, length_drop. lia. Qed.

Lemma slice_app o a b m : 0 <= o → 0 <= a → 0 <= b → slice o a m ++ slice (o + a) b m = slice o (a + b) m.
Proof.
  intros. unfold slice. rewrite !Z2Nat.inj_add, <- drop_drop by done. by rewrite take_take_drop.
Qed.

Lemma take_slice k o s m : 0 <= k <= s → take (Z.to_nat k) (slice o s m) = slice o k m.
Proof. intros. unfold slice. rewrite take_take. f_equal. lia. Qed.

Lemma drop_slice k o s m : 0 <= o → 0 <= k <= s → drop (Z.to_nat k) (slice o s m) = slice (o + k) (s - k) m.
Proof.
  intros. unfold slice. rewrite skipn_firstn_comm, drop_drop. f_equal; [lia|]. f_equal. lia.
Qed.

Lemma slice_0 s m : slice 0 s m = take (Z.to_nat s) m.
Proof. done. Qed.

Lemma overwrite_length o bytes m : 0 <= o → o + Z.of_nat (length bytes) <= Z.of_nat (length m) →
  length (overwrite o bytes m) = length m.
Proof. intros. unfold overwrite. rewrite !length_app, length_take, length_drop. lia. Qed.

Lemma slice_overwrite o bytes m : 0 <= o <= Z.of_nat (length m) →
  slice o (Z.of_nat (length bytes)) (overwrite o bytes m) = bytes.
Proof.
  intros. unfold slice, overwrite. rewrite drop_app_length' by (rewrite length_take; lia).
  by rewrite take_app_length' by lia.
Qed.

Lemma slice_overwrite_before a s o bytes m : 0 <= a → 0 <= s → a + s <= o <= Z.of_nat (length m) →
  slice a s (overwrite o bytes m) = slice a s m.
Proof.
  intros. unfold slice, overwrite. rewrite drop_app_le by (rewrite length_take; lia).
  rewrite take_app_le by (rewrite length_drop, length_take; lia).
  rewrite skipn_firstn_comm, take_take. f_equal. lia.
Qed.

Lemma slice_overwrite_after a s o bytes m : 0 <= o → o + Z.of_nat (length bytes) <= a → o <= Z.of_nat (length m) →
  slice a s (overwrite o bytes m) = slice a s m.
Proof.
  intros. unfold slice, overwrite. rewrite drop_app_ge, length_take by (rewrite length_take; lia).
  rewrite drop_app_ge, drop_drop by lia. do 2 f_equal. lia.
Qed.

(** ** The ring buffer is a bounded queue of bytes *)

Definition contents (b : OutputBuffer) : list Z :=
  if head_ b <=? tail_ b then slice (head_ b) (tail_ b - head_ b) (buffer_ b)
  else slice (head_ b) (buffer_size b - head_ b) (buffer_ b) ++ slice 0 (tail_ b) (buffer_ b).

(** Capacities fit an [unsigned int], the type that zlib has for sizes. *)
Definition capacity_ok (c : Z) : Prop := 0 < c < 4294967296.
Definition output_ok (b : OutputBuffer) : Prop :=
  capacity_ok (output_capacity_ b) ∧ buffer_size b = output_capacity_ b + 1 ∧
  0 <= head_ b < buffer_size b ∧ 0 <= tail_ b < buffer_size b.

Lemma new_OutputBuffer_ok c : capacity_ok c → output_ok (new_OutputBuffer c) ∧ contents (new_OutputBuffer c) = [].
Proof.
  unfold capacity_ok, output_ok, buffer_size. intros. cbn. rewrite length_replicate.
  unfold capacity_ok. split; [lia|done].
Qed.

Lemma contents_length b : output_ok b →
  Z.of_nat (length (contents b)) = if head_ b <=? tail_ b then tail_ b - head_ b else tail_ b + buffer_size b - head_ b.
Proof.
  intros (Hc & Hn & Hh & Ht). unfold contents. destruct (Z.leb_spec (head_ b) (tail_ b)).
  - rewrite slice_length by (unfold buffer_size in *; lia). lia.
  - rewrite length_app, !slice_length by (unfold buffer_size in *; lia). lia.
Qed.

Lemma Size_contents b : output_ok b → Size b = Z.of_nat (length (contents b)).
Proof.
  intros Hb. rewrite contents_length by done. destruct Hb as (Hc & Hn & Hh & Ht). unfold Size, capacity_ok in *.
  rewrite u64_small by lia. destruct (Z.leb_spec (head_ b) (tail_ b)); [|by apply Z.mod_small; lia].
  replace (tail_ b + buffer_size b - head_ b) with (tail_ b - head_ b + 1 * buffer_size b) by lia.
  rewrite Z.mod_add by lia. apply Z.mod_small. lia.
Qed.

Lemma contents_bounded b : output_ok b → Z.of_nat (length (contents b)) <= output_capacity_ b.
Proof.
  intros Hb. rewrite contents_length by done. destruct Hb as (Hc & Hn & Hh & Ht). case_match; prop_bools; lia.
Qed.

(** Where to write, and how much. *)
Lemma GetTail_spec b : output_ok b → ∃ room, GetTail b = Done (tail_ b, room) ∧
  0 <= room ∧ room + Z.of_nat (length (contents b)) <= output_capacity_ b ∧ tail_ b + room <= buffer_size b ∧
  (room = 0 → Z.of_nat (length (contents b)) = output_capacity_ b).
Proof.
  intros Hb. pose proof (contents_bounded b Hb) as Hl. unfold GetTail. rewrite Size_contents by done.
  destruct Hb as (Hc & Hn & Hh & Ht). unfold capacity_ok in Hc. pass_DCHECK ltac:(lia).
  eexists. split; [reflexivity|]. rewrite !u64_small by lia. lia.
Qed.

Lemma AdvanceTail_spec b bytes room : output_ok b → GetTail b = Done (tail_ b, room) →
  Z.of_nat (length bytes) <= room →
  ∃ b', AdvanceTail (Z.of_nat (length bytes)) (b <| buffer_ := overwrite (tail_ b) bytes (buffer_ b) |>) = Done b' ∧
    output_ok b' ∧ output_capacity_ b' = output_capacity_ b ∧ contents b' = contents b ++ bytes.
Proof.
  intros Hb E Hl. pose proof (Size_contents b Hb) as Hs. pose proof (contents_length b Hb) as Hcl.
  destruct (GetTail_spec b Hb) as (room' & E' & Hr & Hrc & Hrt & _). rewrite E' in E. injection E as ->.
  destruct Hb as (Hc & Hn & Hh & Ht). unfold capacity_ok in Hc.
  set (b1 := b <| buffer_ := _ |>).
  assert (buffer_size b1 = buffer_size b) as Hn1.
  { unfold buffer_size in *. cbn. rewrite overwrite_length; lia. }
  assert (Size b1 = Z.of_nat (length (contents b))) as Hs1.
  { rewrite <- Hs. unfold Size. by rewrite Hn1. }
  unfold AdvanceTail. rewrite Hs1. pass_DCHECK ltac:(rewrite u64_small; cbn; lia).
  eexists. split; [reflexivity|]. rewrite Hn1, u64_small by (cbn; lia).
  change (tail_ b1) with (tail_ b).
  set (t := (tail_ b + Z.of_nat (length bytes)) mod buffer_size b).
  assert (t = tail_ b + Z.of_nat (length bytes) ∧ t < buffer_size b ∨
          t = 0 ∧ tail_ b + Z.of_nat (length bytes) = buffer_size b) as Ht'.
  { unfold t. destruct (decide (tail_ b + Z.of_nat (length bytes) = buffer_size b)) as [->|].
    - right. by rewrite Z.mod_same by lia.
    - left. rewrite Z.mod_small; lia. }
  assert (0 <= t < buffer_size b) as Htb by (destruct Ht' as [[-> ?]|[-> ?]]; lia). clearbody t.
  split; [|split; [done|]].
  { unfold output_ok, capacity_ok, buffer_size in *. cbn in *. lia. }
  unfold contents at 1. cbn. change (buffer_size (b1 <| tail_ := t |>)) with (buffer_size b1). rewrite Hn1.
  unfold contents. revert Hcl. unfold buffer_size in *. destruct (Z.leb_spec (head_ b) (tail_ b)); intros Hcl.
  - assert (slice (head_ b) (tail_ b + Z.of_nat (length bytes) - head_ b)
              (overwrite (tail_ b) bytes (buffer_ b)) = slice (head_ b) (tail_ b - head_ b) (buffer_ b) ++ bytes) as Heq.
    { replace (tail_ b + Z.of_nat (length bytes) - head_ b)
        with ((tail_ b - head_ b) + Z.of_nat (length bytes)) by lia.
      rewrite <- slice_app by lia. rewrite slice_overwrite_before by lia.
      replace (head_ b + (tail_ b - head_ b)) with (tail_ b) by lia. by rewrite slice_overwrite by lia. }
    destruct Ht' as [[-> Hlt]|[-> Heq']].
    + rewrite (proj2 (Z.leb_le _ _)) by lia. done.
    + destruct (Z.leb_spec (head_ b) 0); [lia|]. rewrite <- Heq', slice_0. cbn. by rewrite app_nil_r.
  - destruct Ht' as [[-> Hlt]|[-> Heq']]; [|lia]. rewrite (proj2 (Z.leb_gt _ _)) by lia.
    rewrite slice_overwrite_after by lia. rewrite <- app_assoc. f_equal.
    rewrite <- slice_app by lia. rewrite slice_overwrite_before by lia. by rewrite slice_overwrite by lia.
Qed.

Lemma AdvanceHead_spec b k : output_ok b → 0 <= k <= Z.of_nat (length (contents b)) →
  ∃ b', AdvanceHead k b = Done b' ∧ output_ok b' ∧ output_capacity_ b' = output_capacity_ b ∧
    buffer_ b' = buffer_ b ∧ tail_ b' = tail_ b ∧ head_ b' = (head_ b + k) mod buffer_size b ∧
    contents b' = drop (Z.to_nat k) (contents b).
Proof.
  intros Hb Hk. unfold AdvanceHead. rewrite Size_contents by done. pass_DCHECK ltac:(lia).
  pose proof (contents_length b Hb) as Hcl. destruct Hb as (Hc & Hn & Hh & Ht). unfold capacity_ok in Hc.
  rewrite u64_small by (case_match; prop_bools; lia).
  eexists. split; [reflexivity|]. set (h := (head_ b + k) mod buffer_size b).
  assert (h = head_ b + k ∧ h < buffer_size b ∨ h = head_ b + k - buffer_size b ∧ buffer_size b <= head_ b + k) as Hh'.
  { unfold h. destruct (decide (head_ b + k < buffer_size b)); [left; rewrite Z.mod_small; lia|].
    right. replace (head_ b + k) with (head_ b + k - buffer_size b + 1 * buffer_size b) at 1 by lia.
    rewrite Z.mod_add, Z.mod_small; [lia|case_match; prop_bools; lia|lia]. }
  assert (0 <= h < buffer_size b) as Hhb by (unfold h; apply Z.mod_pos_bound; lia). clearbody h.
  split; [unfold output_ok, capacity_ok, buffer_size in *; cbn in *; lia|]. do 4 (split; [done|]).
  unfold contents, buffer_size in *. cbn. revert Hcl Hk. destruct (Z.leb_spec (head_ b) (tail_ b)); intros Hcl Hk.
  - destruct Hh' as [[-> ?]|[-> ?]]; [|lia]. rewrite (proj2 (Z.leb_le _ _)) by lia.
    rewrite drop_slice by lia. f_equal. lia.
  - assert (Z.of_nat (length (slice (head_ b) (Z.of_nat (length (buffer_ b)) - head_ b) (buffer_ b)))
            = Z.of_nat (length (buffer_ b)) - head_ b) as Hl by (rewrite slice_length; lia).
    destruct Hh' as [[-> ?]|[-> ?]].
    + rewrite drop_app_le by lia. rewrite drop_slice by lia.
      destruct (Z.leb_spec (head_ b + k) (tail_ b)); [lia|]. do 2 f_equal. lia.
    + rewrite (proj2 (Z.leb_le _ _)) by lia. rewrite drop_app_ge by lia.
      replace (Z.to_nat k - length _)%nat with (Z.to_nat (head_ b + k - Z.of_nat (length (buffer_ b)))) by lia.
      rewrite drop_slice by lia. f_equal; lia.
Qed.

(** [Read] takes from the front. *)
Lemma Read_spec b size : output_ok b → 0 <= size <= Z.of_nat (length (contents b)) →
  ∃ b', Read size b = Done (take (Z.to_nat size) (contents b), b') ∧
    output_ok b' ∧ output_capacity_ b' = output_capacity_ b ∧ contents b' = drop (Z.to_nat size) (contents b).
Proof.
  intros Hb Hsize. pose proof (contents_length b Hb) as Hcl. pose proof Hb as (Hc & Hn & Hh & Ht).
  unfold capacity_ok in Hc.
  unfold Read. rewrite Size_contents by done. pass_DCHECK ltac:(lia).
  destruct (Z.ltb_spec (tail_ b) (head_ b)) as [Hlt|Hge].
  - rewrite (proj2 (Z.leb_gt _ _)) in Hcl by lia. rewrite u64_small by lia. cbv zeta. pass_DCHECK ltac:(lia).
    set (k := Z.min size (buffer_size b - head_ b)).
    destruct (AdvanceHead_spec b k Hb ltac:(lia)) as (b1 & -> & Hb1 & Hc1 & Eb & Et & Eh & Econt). rewrite !Done_bind.
    assert (slice (head_ b) k (buffer_ b) = take (Z.to_nat k) (contents b)) as Hk.
    { unfold contents. rewrite (proj2 (Z.leb_gt _ _)) by lia.
      rewrite take_app_le by (rewrite slice_length; unfold buffer_size in *; lia).
      rewrite take_slice; [done|lia]. }
    destruct (Z.eqb_spec k size) as [Ek|Ek].
    + exists b1. rewrite Hk, Econt, Ek. done.
    + assert (k = buffer_size b - head_ b) as Ek' by lia.
      assert (head_ b1 = 0) as Eh0.
      { rewrite Eh, Ek'. replace (head_ b + _) with (buffer_size b) by lia. apply Z.mod_same. lia. }
      assert (buffer_size b1 = buffer_size b) as En by (unfold buffer_size; by rewrite Eb).
      pass_DCHECK ltac:(lia). rewrite !u64_small by lia. pass_DCHECK ltac:(lia). pass_DCHECK ltac:(lia).
      destruct (AdvanceHead_spec b1 (size - k) Hb1) as (b2 & -> & Hb2 & Hc2 & _ & _ & _ & Econt2).
      { rewrite Econt, length_drop. lia. }
      rewrite Done_bind. pass_DCHECK ltac:(lia). exists b2. split; [|split; [done|split; [congruence|]]].
      * do 2 f_equal. rewrite Hk, Eb, Eh0. unfold contents. rewrite (proj2 (Z.leb_gt _ _)) by lia.
        assert (Z.of_nat (length (slice (head_ b) (buffer_size b - head_ b) (buffer_ b))) = k) as Hl.
        { rewrite slice_length; unfold buffer_size in *; lia. }
        rewrite !take_app, <- app_assoc. rewrite (take_ge (slice (head_ b) _ _)), (take_ge (slice (head_ b) _ _)) by lia.
        f_equal. replace (Z.to_nat k - _)%nat with 0%nat by lia. rewrite take_0. cbn [app].
        replace (Z.to_nat size - _)%nat with (Z.to_nat (size - k)) by lia. by rewrite take_slice by lia.
      * rewrite Econt2, Econt, drop_drop. f_equal. lia.
  - rewrite Done_bind. destruct (Z.eqb_spec 0 size) as [<-|Hne]; [by exists b|].
    pass_DCHECK ltac:(lia). rewrite (proj2 (Z.leb_le _ _)) in Hcl by lia.
    rewrite Z.sub_0_r, !u64_small by lia. pass_DCHECK ltac:(lia). pass_DCHECK ltac:(lia).
    destruct (AdvanceHead_spec b size Hb Hsize) as (b2 & -> & Hb2 & Hc2 & _ & _ & _ & Econt).
    rewrite Done_bind. pass_DCHECK ltac:(lia). exists b2. rewrite Econt. split; [|done].
    do 2 f_equal. unfold contents. rewrite (proj2 (Z.leb_le _ _)) by lia. by rewrite take_slice by lia.
Qed.

(** ** The queue of blocks is a queue of bytes *)

Definition queue_bytes (q : InputQueue) : list Z :=
  drop (Z.to_nat (head_of_first_buffer_ q))
    (concat (removelast (buffers_ q)) ++ take (Z.to_nat (tail_of_last_buffer_ q)) (List.last (buffers_ q) [])).

Definition blocks_ok (q : InputQueue) : Prop :=
  capacity_ok (input_capacity_ q) ∧ Forall (λ b, Z.of_nat (length b) = input_capacity_ q) (buffers_ q) ∧
  0 <= head_of_first_buffer_ q < input_capacity_ q ∧ (buffers_ q = [] → head_of_first_buffer_ q = 0) ∧
  (buffers_ q ≠ [] → 0 <= tail_of_last_buffer_ q <= input_capacity_ q).
(** No block is without bytes. *)
Definition queue_ok (q : InputQueue) : Prop :=
  blocks_ok q ∧ (buffers_ q ≠ [] → 0 < tail_of_last_buffer_ q) ∧
  (length (buffers_ q) = 1%nat → head_of_first_buffer_ q < tail_of_last_buffer_ q).

Lemma new_InputQueue_ok c : capacity_ok c → queue_ok (new_InputQueue c) ∧ queue_bytes (new_InputQueue c) = [].
Proof. intros Hc. unfold queue_ok, blocks_ok, capacity_ok in *. cbn. repeat split; try done; lia. Qed.

Lemma queue_bytes_snoc q front b : buffers_ q = front ++ [b] →
  queue_bytes q = drop (Z.to_nat (head_of_first_buffer_ q)) (concat front ++ take (Z.to_nat (tail_of_last_buffer_ q)) b).
Proof. intros E. unfold queue_bytes. by rewrite E, removelast_last, last_last. Qed.

Lemma queue_bytes_cons q b0 b1 bs : buffers_ q = b0 :: b1 :: bs →
  queue_bytes q = drop (Z.to_nat (head_of_first_buffer_ q))
    (b0 ++ concat (removelast (b1 :: bs)) ++ take (Z.to_nat (tail_of_last_buffer_ q)) (List.last (b1 :: bs) [])).
Proof. intros E. unfold queue_bytes. rewrite E. cbn [removelast concat List.last]. by rewrite <- app_assoc. Qed.

Lemma queue_bytes_one q b : 0 <= head_of_first_buffer_ q → buffers_ q = [b] →
  queue_bytes q = slice (head_of_first_buffer_ q) (tail_of_last_buffer_ q - head_of_first_buffer_ q) b.
Proof.
  intros Hh E. rewrite (queue_bytes_snoc q [] b) by done. cbn. unfold slice. rewrite skipn_firstn_comm. f_equal. lia.
Qed.

Lemma PushToLastBuffer_spec q data size : blocks_ok q → buffers_ q ≠ [] →
  (length (buffers_ q) = 1%nat → head_of_first_buffer_ q <= tail_of_last_buffer_ q) →
  0 <= size <= Z.of_nat (length data) →
  ∃ k q', PushToLastBuffer data size q = Done (k, q') ∧ k = Z.min size (input_capacity_ q - tail_of_last_buffer_ q) ∧
    input_capacity_ q' = input_capacity_ q ∧ blocks_ok q' ∧ length (buffers_ q') = length (buffers_ q) ∧
    head_of_first_buffer_ q' = head_of_first_buffer_ q ∧ tail_of_last_buffer_ q' = tail_of_last_buffer_ q + k ∧
    queue_bytes q' = queue_bytes q ++ take (Z.to_nat k) data.
Proof.
  intros Hq Hne H1 Hsize. pose proof Hq as (Hc & Hb & Hh & He & Ht). specialize (Ht Hne). unfold capacity_ok in Hc.
  unfold PushToLastBuffer, IsEmpty. rewrite bool_decide_eq_false_2 by done. cbn [negb]. step_done.
  rewrite u64_small by lia. set (k := Z.min size _).
  destruct (Z.eqb_spec k 0) as [Ek|Ek].
  { exists 0, q. rewrite Z.add_0_r, Z2Nat.inj_0, take_0, app_nil_r. done. }
  destruct (exists_last Hne) as (front & b & E).
  eexists _, _. split; [reflexivity|]. split; [done|]. split; [done|].
  rewrite E, removelast_last, last_last, slice_0.
  assert (Z.of_nat (length b) = input_capacity_ q) as Hlb.
  { rewrite E in Hb. apply Forall_app in Hb as [_ Hb]. by apply Forall_cons_1 in Hb as [? _]. }
  assert (Z.of_nat (length (take (Z.to_nat k) data)) = k) as Hlt by (rewrite length_take; lia).
  set (b' := overwrite _ _ _).
  assert (length b' = length b) as Hlb' by (apply overwrite_length; lia).
  split; [|split; [cbn; by rewrite !length_app|split; [done|split; [done|]]]].
  - split; [done|]. split.
    { cbn. rewrite E in Hb. apply Forall_app in Hb as [Hb _]. apply Forall_app. split; [done|]. repeat constructor. lia. }
    split; [done|]. split; [intros Hnil; cbn in Hnil; by destruct front|]. intros _. cbn. lia.
  - rewrite (queue_bytes_snoc _ front b') by done. rewrite (queue_bytes_snoc q front b E). cbn.
    assert (take (Z.to_nat (tail_of_last_buffer_ q + k)) b' = take (Z.to_nat (tail_of_last_buffer_ q)) b ++ take (Z.to_nat k) data) as ->.
    { unfold b', overwrite. rewrite app_assoc. rewrite take_app_length' by (rewrite length_app, length_take; lia). done. }
    rewrite app_assoc. rewrite drop_app_le; [done|]. rewrite length_app, length_take.
    destruct front as [|b0 front]; [cbn in *; rewrite E in H1; specialize (H1 eq_refl); lia|].
    rewrite E in Hb. apply Forall_cons_1 in Hb as [Hb0 _]. cbn [concat]. rewrite length_app. lia.
Qed.

Lemma nonempty_length {A} (l : list A) : l ≠ [] → (0 < length l)%nat.
Proof. by destruct l; cbn; [|lia]. Qed.

Lemma push_loop_spec fuel : ∀ data size copied q,
  queue_ok q → 0 <= copied <= size → size <= Z.of_nat (length data) → (Z.to_nat (size - copied) <= fuel)%nat →
  (copied < size → buffers_ q = [] ∨ tail_of_last_buffer_ q = input_capacity_ q) →
  ∃ q', push_loop fuel data size copied q = Done q' ∧ queue_ok q' ∧ input_capacity_ q' = input_capacity_ q ∧
    queue_bytes q' = queue_bytes q ++ slice copied (size - copied) data.
Proof.
  induction fuel as [|fuel IH]; intros data size copied q Hq Hcs Hl Hf Hfull; cbn [push_loop];
    (destruct (Z.ltb_spec copied size) as [Hlt|Hge]; cbn [negb];
      [|exists q; replace (size - copied) with 0 by lia; unfold slice; rewrite take_0, app_nil_r; done]); [lia|].
  specialize (Hfull Hlt). pose proof Hq as ((Hc & Hb & Hh & He & Ht) & Hpos & Hone). unfold capacity_ok in Hc.
  pass_DCHECK ltac:(unfold IsEmpty; destruct Hfull as [->| ->]; [done|by rewrite Z.eqb_refl, orb_true_r]).
  set (zeros := replicate _ 0). set (q1 := q <| buffers_ := _ |> <| tail_of_last_buffer_ := 0 |>).
  assert (buffers_ q1 ≠ []) as Hne1 by (intros E; by apply app_eq_nil in E as [_ ?]).
  assert (blocks_ok q1) as Hq1.
  { split; [done|]. split; [|split; [done|split; [done|cbn; lia]]]. cbn. apply Forall_app. split; [done|].
    repeat constructor. unfold zeros. rewrite length_replicate. lia. }
  assert (queue_bytes q1 = queue_bytes q) as Hqb.
  { rewrite (queue_bytes_snoc q1 (buffers_ q) zeros) by done. cbn. rewrite app_nil_r.
    destruct (decide (buffers_ q = [])) as [E|E]; [unfold queue_bytes; rewrite E; cbn; by rewrite take_nil|].
    destruct Hfull as [|Hfull]; [done|]. destruct (exists_last E) as (front & b & Ef).
    rewrite (queue_bytes_snoc q front b Ef), Ef, concat_app. cbn. rewrite app_nil_r.
    rewrite Ef in Hb. apply Forall_app in Hb as [_ Hb]. apply Forall_cons_1 in Hb as [Hb _].
    by rewrite take_ge by lia. }
  destruct (PushToLastBuffer_spec q1 (drop (Z.to_nat copied) data) (size - copied) Hq1 Hne1) as
    (k & q' & -> & Ek & Hc' & Hq' & Hlen & Hhd & Htl & Hbytes).
  { intros H1. cbn in H1 |- *. rewrite length_app in H1. cbn in H1.
    rewrite He; [lia|]. apply nil_length_inv. lia. }
  { rewrite length_drop. lia. }
  rewrite Done_bind. cbn [fst snd]. cbn in Ek, Htl. rewrite Z.sub_0_r in Ek.
  assert (1 <= k) as Hk by lia.
  destruct (IH data size (copied + k) q') as (q'' & -> & Hq'' & Hc'' & Hb''); [|lia|lia|lia| |].
  { split; [done|]. split; [intros; cbn in *; lia|]. intros H1. rewrite Hlen in H1. cbn in H1, Hhd. rewrite length_app in H1.
    cbn in H1. rewrite Hhd, He; [lia|]. apply nil_length_inv. lia. }
  { intros. right. rewrite Hc'. cbn. lia. }
  exists q''. split; [done|]. split; [done|]. split; [by rewrite Hc'', Hc'|].
  rewrite Hb'', Hbytes, Hqb, <- app_assoc. f_equal.
  change (take (Z.to_nat k) (drop (Z.to_nat copied) data)) with (slice copied k data).
  rewrite slice_app by lia. f_equal. lia.
Qed.

Lemma Push_spec q data size : queue_ok q → 0 <= size <= Z.of_nat (length data) →
  ∃ q', Push data size q = Done q' ∧ queue_ok q' ∧ input_capacity_ q' = input_capacity_ q ∧
    queue_bytes q' = queue_bytes q ++ take (Z.to_nat size) data.
Proof.
  intros Hq Hs. unfold Push. destruct (Z.eqb_spec size 0) as [->|Hne].
  { exists q. rewrite take_0, app_nil_r. done. }
  unfold IsEmpty. case_bool_decide as E; cbn [negb].
  - rewrite Done_bind. cbn [fst snd].
    destruct (push_loop_spec (Z.to_nat size) data size 0 q) as (q' & -> & ? & ? & Hb); [done|lia|lia|lia|by left|].
    exists q'. rewrite Hb, Z.sub_0_r, slice_0. done.
  - pose proof Hq as (Hbk & Hpos & Hone).
    destruct (PushToLastBuffer_spec q data size Hbk E) as (k & q1 & -> & Ek & Hc1 & Hq1 & Hlen & Hhd & Htl & Hb1);
      [intros H1; specialize (Hone H1); lia|done|].
    pose proof Hbk as (Hc & _ & _ & _ & Ht). specialize (Ht E). rewrite Done_bind. cbn [fst snd].
    assert (0 <= k <= size) as Hk by lia.
    destruct (push_loop_spec (Z.to_nat size) data size k q1) as (q' & -> & ? & Hc' & Hb); [|lia|lia|lia| |].
    { split; [done|]. split; [intros _; specialize (Hpos E); lia|]. intros H1. rewrite Hlen in H1.
      specialize (Hone H1). lia. }
    { intros. right. lia. }
    exists q'. split; [done|]. split; [done|]. split; [congruence|].
    rewrite Hb, Hb1, <- app_assoc. f_equal. rewrite <- slice_0. rewrite slice_app by lia. rewrite slice_0.
    do 2 f_equal. lia.
Qed.

Lemma IsEmpty_spec q : queue_ok q → IsEmpty q = bool_decide (queue_bytes q = []).
Proof.
  intros ((Hc & Hb & Hh & He & Ht) & Hpos & Hone). unfold IsEmpty.
  destruct (decide (buffers_ q = [])) as [E|E].
  { rewrite !bool_decide_eq_true_2; [done| |done]. unfold queue_bytes. rewrite E. cbn. by rewrite take_nil, drop_nil. }
  rewrite !bool_decide_eq_false_2; [done| |done]. specialize (Ht E). specialize (Hpos E).
  destruct (exists_last E) as (front & b & Ef). rewrite (queue_bytes_snoc q front b Ef).
  rewrite Ef in Hb, Hone. apply Forall_app in Hb as [Hf Hb]. apply Forall_cons_1 in Hb as [Hb _].
  intros Hnil. apply (f_equal length) in Hnil. cbn in Hnil. rewrite length_drop, length_app, length_take in Hnil.
  destruct front as [|b0 front]; [cbn in *; specialize (Hone eq_refl); lia|].
  apply Forall_cons_1 in Hf as [Hf _]. cbn [concat] in Hnil. rewrite length_app in Hnil. lia.
Qed.

(** [Top] is a front of the queue, [Consume] drops some of it. *)
Lemma Top_Consume_spec q : queue_ok q → queue_bytes q ≠ [] →
  ∃ top others, Top q = Done (top, Z.of_nat (length top)) ∧ top ≠ [] ∧ queue_bytes q = top ++ others ∧
    Z.of_nat (length top) <= input_capacity_ q ∧
    ∀ k, 0 <= k <= Z.of_nat (length top) →
      ∃ q', Consume k q = Done q' ∧ queue_ok q' ∧ input_capacity_ q' = input_capacity_ q ∧
        queue_bytes q' = drop (Z.to_nat k) top ++ others ∧
        (k = Z.of_nat (length top) → length (buffers_ q) = S (length (buffers_ q'))).
Proof.
  intros Hq Hne. pose proof (IsEmpty_spec q Hq) as Hemp. rewrite (bool_decide_eq_false_2 (queue_bytes q = [])) in Hemp by done.
  pose proof Hq as ((Hc & Hb & Hh & He & Ht) & Hpos & Hone). unfold capacity_ok in Hc.
  assert (buffers_ q ≠ []) as E. { intros E. unfold IsEmpty in Hemp. by rewrite E in Hemp. }
  specialize (Ht E). specialize (Hpos E). unfold Top, Consume. rewrite Hemp. cbn [negb]. step_done.
  destruct (buffers_ q) as [|b0 bs] eqn:Eb; [done|]. apply Forall_cons_1 in Hb as [Hb0 Hbs].
  cbn [head default length]. destruct bs as [|b1 bs].
  - (* one block *)
    specialize (Hone eq_refl). cbn [length Nat.eqb]. rewrite u64_small by lia.
    exists (slice (head_of_first_buffer_ q) (tail_of_last_buffer_ q - head_of_first_buffer_ q) b0), [].
    assert (length (slice (head_of_first_buffer_ q) (tail_of_last_buffer_ q - head_of_first_buffer_ q) b0)
            = Z.to_nat (tail_of_last_buffer_ q - head_of_first_buffer_ q)) as Hl by (rewrite slice_length; lia).
    rewrite Hl, Z2Nat.id by lia. split; [done|].
    split; [intros Hnil; apply (f_equal length) in Hnil; rewrite Hl in Hnil; cbn in Hnil; lia|].
    rewrite (queue_bytes_one q b0) by (done || lia). rewrite app_nil_r. split; [done|]. split; [lia|].
    intros k Hk. rewrite !u64_small by lia. pass_DCHECK ltac:(lia).
    eexists. split; [reflexivity|]. cbn [head_of_first_buffer_ set_field buffers_ tail_of_last_buffer_]. cbn. rewrite Eb. cbn.
    rewrite drop_slice by lia. rewrite app_nil_r.
    destruct (Z.eqb_spec (head_of_first_buffer_ q + k) (input_capacity_ q)) as [Ek|Ek].
    + cbn. split; [repeat split; cbn; try done; try lia|]. split; [done|].
      replace (tail_of_last_buffer_ q - head_of_first_buffer_ q - k) with 0 by lia. unfold slice, queue_bytes. cbn.
      by rewrite take_0, take_nil.
    + cbn. rewrite Eb. cbn. destruct (Z.eqb_spec (head_of_first_buffer_ q + k) (tail_of_last_buffer_ q)) as [Ek'|Ek'].
      * split; [repeat split; cbn; try done; try lia|]. split; [done|].
        replace (tail_of_last_buffer_ q - head_of_first_buffer_ q - k) with 0 by lia. done.
      * split; [|split; [done|split; [|lia]]].
        { split; [|split; cbn; lia]. split; [done|]. cbn. rewrite Eb.
          split; [by repeat constructor|]. split; [lia|]. split; [done|lia]. }
        rewrite (queue_bytes_one _ b0) by (cbn; done || lia). cbn. f_equal. lia.
  - (* more blocks *)
    cbn [length Nat.eqb]. rewrite u64_small by lia.
    exists (slice (head_of_first_buffer_ q) (input_capacity_ q - head_of_first_buffer_ q) b0),
      (concat (removelast (b1 :: bs)) ++ take (Z.to_nat (tail_of_last_buffer_ q)) (List.last (b1 :: bs) [])).
    assert (length (slice (head_of_first_buffer_ q) (input_capacity_ q - head_of_first_buffer_ q) b0)
            = Z.to_nat (input_capacity_ q - head_of_first_buffer_ q)) as Hl by (rewrite slice_length; lia).
    assert (∀ h, 0 <= h <= input_capacity_ q → drop (Z.to_nat h) b0 = slice h (input_capacity_ q - h) b0) as Hd.
    { intros h Hh'. unfold slice. rewrite take_ge; [done|]. rewrite length_drop. lia. }
    rewrite Hl, Z2Nat.id by lia. split; [done|].
    split; [intros Hnil; apply (f_equal length) in Hnil; rewrite Hl in Hnil; cbn in Hnil; lia|].
    rewrite (queue_bytes_cons q b0 b1 bs Eb). split.
    { rewrite drop_app_le by lia. by rewrite Hd by lia. }
    split; [lia|]. intros k Hk. rewrite !u64_small by lia. pass_DCHECK ltac:(lia).
    eexists. split; [reflexivity|]. cbn. rewrite Eb. cbn. rewrite drop_slice by lia.
    destruct (Z.eqb_spec (head_of_first_buffer_ q + k) (input_capacity_ q)) as [Ek|Ek].
    + unfold set_field. cbn [head_of_first_buffer_ tail_of_last_buffer_ input_capacity_ buffers_].
      rewrite (proj2 (Z.eqb_neq 0 (tail_of_last_buffer_ q))), andb_false_r by lia.
      split; [|split; [done|split; [|done]]].
      { split; [|split; cbn; lia]. split; [done|]. cbn. split; [done|]. split; [lia|]. by split. }
      replace (input_capacity_ q - head_of_first_buffer_ q - k) with 0 by lia. unfold slice at 1. cbn [Z.to_nat].
      rewrite take_0. done.
    + cbn. rewrite Eb. cbn. split; [|split; [done|split; [|lia]]].
      { split; [|split; [cbn; lia|cbn; rewrite Eb; cbn; lia]]. split; [done|]. cbn. rewrite Eb.
        split; [by constructor|]. split; [lia|]. split; [done|lia]. }
      rewrite (queue_bytes_cons _ b0 b1 bs) by done. cbn [head_of_first_buffer_ tail_of_last_buffer_ set_field]. cbn.
      rewrite drop_app_le by lia. rewrite Hd by lia. do 2 f_equal; lia.
Qed.

(** ** Streams *)

(** What a stream is after a call that read [n] bytes. *)
Lemma advance_stream {S} (s : z_stream S) n (st : S) : stream_ok s → 0 <= n <= Z.of_nat (length (input_of s)) →
  let s' := mkz_stream st (drop (Z.to_nat n) (next_in s)) (avail_in s - n) in
  stream_ok s' ∧ input_of s' = drop (Z.to_nat n) (input_of s) ∧ n <= avail_in s.
Proof.
  unfold stream_ok, input_of. intros Hs Hn. rewrite length_take in Hn. cbn. rewrite length_drop. split; [lia|].
  split; [|lia]. rewrite skipn_firstn_comm. f_equal. lia.
Qed.

Lemma input_of_length {S} (s : z_stream S) : stream_ok s → Z.of_nat (length (input_of s)) = avail_in s.
Proof. unfold stream_ok, input_of. intros. rewrite length_take. lia. Qed.

(** ** Decompression *)

Section Decoding.
Context {Hz : Zlib} {Hl : ZlibLaws}.

(** [gives st input st' left_ out]: from [st], [input] gives [out] and leaves the rest to [st']. *)
Definition gives (st : inflate_state) (input : list Z) (st' : inflate_state) (left_ out : list Z) : Prop := ∀ more,
  inflated st (input ++ more) = out ++ inflated st' (left_ ++ more) ∧
  (intact st (input ++ more) ↔ intact st' (left_ ++ more)).

Lemma gives_refl st input : gives st input st input [].
Proof. by intros more. Qed.

Lemma gives_trans st input st1 left1 out1 st2 left2 out2 :
  gives st input st1 left1 out1 → gives st1 left1 st2 left2 out2 → gives st input st2 left2 (out1 ++ out2).
Proof.
  intros H1 H2 more. destruct (H1 more) as [-> ->]. destruct (H2 more) as [-> ->]. by rewrite <- app_assoc.
Qed.

Lemma gives_intact st input st' left_ out : gives st input st' left_ out → ¬ intact st' left_ → ¬ intact st input.
Proof. intros H. destruct (H []) as [_ Hi]. rewrite !app_nil_r in Hi. tauto. Qed.

Definition full (b : OutputBuffer) : Prop := Z.of_nat (length (contents b)) = output_capacity_ b.

(** One call of [inflate] and the writing of what it gives. *)
Record after_calls (flush : Flush) (s : z_stream inflate_state) (b : OutputBuffer) (result : Z)
    (s' : z_stream inflate_state) (b' : OutputBuffer) : Prop := {
  ac_stream : stream_ok s';
  ac_output : output_ok b';
  ac_capacity : output_capacity_ b' = output_capacity_ b;
  ac_suffix : ∃ used, input_of s = used ++ input_of s';
  ac_grows : ∃ out, contents b' = contents b ++ out ∧ Forall byte_ok out ∧
    (z_fine result → gives (zs_state s) (input_of s) (zs_state s') (input_of s') out);
  ac_left : z_fine result → input_of s' ≠ [] → full b';
  ac_flushed : z_fine result → flush = Z_SYNC_FLUSH → full b' ∨ inflated (zs_state s') [] = [];
  ac_error : ¬ z_fine result → ¬ intact (zs_state s) (input_of s)
}.

(** A call makes the second part of a longer sequence of calls. *)
Lemma after_calls_step flush s b out s1 b1 result s' b' :
  Forall byte_ok out → gives (zs_state s) (input_of s) (zs_state s1) (input_of s1) out →
  (∃ used, input_of s = used ++ input_of s1) → contents b1 = contents b ++ out →
  output_capacity_ b1 = output_capacity_ b →
  after_calls flush s1 b1 result s' b' → after_calls flush s b result s' b'.
Proof.
  intros Hob Hg [used Hu] Hc Hcap []. constructor; try done.
  - congruence.
  - destruct ac_suffix0 as [used' Hu']. exists (used ++ used'). by rewrite Hu, Hu', app_assoc.
  - destruct ac_grows0 as (out' & Hc' & Hob' & Hg'). exists (out ++ out'). rewrite Hc', Hc, app_assoc. split; [done|].
    split; [by apply Forall_app|]. intros Hf. eapply gives_trans; [done|auto].
  - intros Hf. eapply gives_intact; [done|auto].
Qed.

(** The two tests of a result. *)
Lemma fine_test r : (r =? Z_OK) || (r =? Z_BUF_ERROR) = bool_decide (z_fine r).
Proof.
  unfold z_fine. destruct (Z.eqb_spec r Z_OK), (Z.eqb_spec r Z_BUF_ERROR); cbn;
    (symmetry; apply bool_decide_eq_true_2 || apply bool_decide_eq_false_2); tauto.
Qed.
Lemma fine_test' r : negb (r =? Z_OK) && negb (r =? Z_BUF_ERROR) = negb (bool_decide (z_fine r)).
Proof. by rewrite <- fine_test, negb_orb. Qed.

Definition free (b : OutputBuffer) : Z := output_capacity_ b - Z.of_nat (length (contents b)).
Definition fresh (st : inflate_state) : Prop := ∃ st0, st = snd (inflateReset st0).

(** The calls of the loop are never more than its fuel, since each of them writes something,
    ends a stream, or is the last. *)
Lemma inflate_loop_spec fuel : ∀ flush result (w : WebSocketInflater) s,
  stream_ w = Some s → stream_ok s → output_ok (output_buffer_ w) → z_fine result →
  (2 * (free (output_buffer_ w) + avail_in s) + 2 <= Z.of_nat fuel ∨
   2 * (free (output_buffer_ w) + avail_in s) + 1 <= Z.of_nat fuel ∧ fresh (zs_state s)) →
  ∃ r s' b', inflate_loop fuel flush result w = Done (r, w <| output_buffer_ := b' |> <| stream_ := Some s' |>) ∧
    after_calls flush s (output_buffer_ w) r s' b'.
Proof.
  induction fuel as [|fuel IH]; intros flush result w s Hs Hsok Hb Hr Hfuel.
  { exfalso. pose proof (contents_bounded _ Hb). unfold free, stream_ok in *. lia. }
  destruct (GetTail_spec _ Hb) as (room & E & Hroom & Hroomc & _ & Hfull). cbn [inflate_loop].
  rewrite E, Done_bind. destruct (Z.eqb_spec room 0) as [->|Hne].
  { exists result, s, (output_buffer_ w). split.
    { do 2 f_equal. destruct w. cbn in *. by rewrite Hs. }
    constructor; [done|done|done|by exists []| |by intros; apply Hfull|by intros; left; apply Hfull|done].
    exists []. rewrite app_nil_r. split; [done|]. split; [done|]. intros _. apply gives_refl. }
  rewrite Hs. cbv zeta. pose proof Hb as (Hcap & _). unfold capacity_ok in Hcap.
  rewrite (u32_small room) by (unfold is_u32, u32_max; lia).
  set (c := inflate (zs_state s) (input_of s) room flush).
  destruct (inflate_in_bounds (zs_state s) (input_of s) room flush ltac:(lia)) as (Hread & Hwritten & Hob).
  fold c in Hread, Hwritten, Hob.
  replace (room - (room - Z.of_nat (length (z_written c)))) with (Z.of_nat (length (z_written c))) by lia.
  rewrite u64_small by lia.
  destruct (AdvanceTail_spec _ (z_written c) room Hb E Hwritten) as (b1 & -> & Hb1 & Hcap1 & Hc1).
  rewrite Done_bind. destruct (advance_stream s (z_read c) (z_state c) Hsok Hread) as (Hsok1 & Hin1 & Hle).
  set (s1 := mkz_stream (z_state c) _ _) in *.
  assert (free b1 = free (output_buffer_ w) - Z.of_nat (length (z_written c))) as Hfree.
  { unfold free. rewrite Hc1, Hcap1, length_app. lia. }
  assert (∃ used, input_of s = used ++ input_of s1) as Hsuf.
  { exists (take (Z.to_nat (z_read c)) (input_of s)). by rewrite Hin1, take_drop. }
  destruct (Z.eqb_spec (z_result c) Z_STREAM_END) as [Eend|Eend].
  - (* the stream ends, and the next begins *)
    destruct (inflateReset (z_state c)) as [r st] eqn:Ereset.
    set (s2 := mkz_stream st (next_in s1) (avail_in s1)).
    assert (r = Z_OK ∧ gives (zs_state s) (input_of s) st (input_of s2) (z_written c)) as [-> Hg].
    { assert (fst (inflateReset (z_state c)) = Z_OK) as Hok by apply (inflate_end (zs_state s) (input_of s) room flush [] ltac:(lia) Eend).
      rewrite Ereset in Hok. split; [done|]. intros more.
      destruct (inflate_end (zs_state s) (input_of s) room flush more ltac:(lia) Eend) as (_ & H1 & H2).
      fold c in H1, H2. rewrite Ereset in H1, H2. unfold after_read in H1, H2. rewrite <- Hin1 in H1, H2. by split. }
    cbn [Z.eqb orb]. rewrite Z.eqb_refl. cbn [orb].
    destruct (IH flush Z_OK (w <| output_buffer_ := b1 |> <| stream_ := Some s1 |> <| stream_ := Some s2 |>) s2)
      as (r & s' & b' & -> & Hac); [done|done|done|by left| |].
    { cbn. rewrite Hfree. destruct Hfuel as [Hfuel|[Hfuel [st0 Est]]].
      - right. split; [lia|]. exists (z_state c). by rewrite Ereset.
      - left. assert (0 < z_read c); [|lia]. unfold c in *. rewrite Est in *. by apply inflate_fresh; [lia|]. }
    exists r, s', b'. split; [done|]. by apply (after_calls_step flush s _ (z_written c) s2 b1).
  - destruct (Z.eqb_spec room (room - Z.of_nat (length (z_written c)))) as [Enone|Enone].
    + (* nothing was written *)
      exists (z_result c), s1, b1. split; [done|].
      assert (z_written c = []) as Enil by (apply nil_length_inv; lia).
      assert (Z.of_nat (length (z_written c)) < room) as Hlt by lia.
      assert (z_fine (z_result c) → input_of s1 = [] ∧ (flush = Z_SYNC_FLUSH → inflated (z_state c) [] = [])) as Hfl.
      { intros Hf. destruct (inflate_full (zs_state s) (input_of s) room flush ltac:(lia) Hf Hlt) as [Hrd Hsy].
        fold c in Hrd. split; [|done]. rewrite Hin1. apply drop_ge. lia. }
      constructor; try done.
      * exists []. rewrite Hc1, Enil. split; [done|]. split; [done|]. intros Hf more.
        destruct (inflate_meaning (zs_state s) (input_of s) room flush more ltac:(lia) Hf) as [H1 H2].
        fold c in H1, H2. rewrite Enil in H1. unfold after_read in H1, H2. rewrite <- Hin1 in H1, H2. by split.
      * intros Hf Hne'. by destruct (Hfl Hf) as [? _].
      * intros Hf Hsync. right. by apply Hfl.
      * intros Hf. apply (inflate_error (zs_state s) (input_of s) room flush); [lia|done|done].
    + rewrite fine_test. case_bool_decide as Hf.
      * destruct (IH flush (z_result c) (w <| output_buffer_ := b1 |> <| stream_ := Some s1 |>) s1)
          as (r & s' & b' & -> & Hac); [done|done|done|done| |].
        { cbn. rewrite Hfree. left. destruct Hfuel as [?|[? _]]; lia. }
        exists r, s', b'. split; [done|]. eapply (after_calls_step flush s _ (z_written c) s1 b1); [done| |done..].
        intros more. destruct (inflate_meaning (zs_state s) (input_of s) room flush more ltac:(lia) Hf) as [H1 H2].
        fold c in H1, H2. unfold after_read in H1, H2. rewrite <- Hin1 in H1, H2. by split.
      * exists (z_result c), s1, b1. split; [done|]. constructor; try done.
        -- exists (z_written c). by split_and!.
        -- intros _. apply (inflate_error (zs_state s) (input_of s) room flush); [lia|done|done].
Qed.

Lemma Inflate_spec data size flush (w : WebSocketInflater) s0 :
  stream_ w = Some s0 → output_ok (output_buffer_ w) → 0 <= size <= Z.of_nat (length data) → size < 4294967296 →
  ∃ r s' b', Inflate data size flush w = Done (r, w <| output_buffer_ := b' |> <| stream_ := Some s' |>) ∧
    after_calls flush (mkz_stream (zs_state s0) data size) (output_buffer_ w) r s' b'.
Proof.
  intros Hs Hb Hsize Hlt. unfold Inflate. rewrite Hs, u32_small by (unfold is_u32, u32_max; lia).
  cbv zeta. set (w1 := w <| stream_ := _ |>).
  destruct (inflate_loop_spec (Z.to_nat (2 * (output_capacity_ (output_buffer_ w1) + size) + 2)) flush Z_BUF_ERROR w1
    (mkz_stream (zs_state s0) data size)) as (r & s' & b' & -> & Hac);
    [done|done|done|by right| |by exists r, s', b'].
  pose proof Hb as (Hcap & _). unfold capacity_ok in Hcap.
  left. cbn. unfold free. lia.
Qed.

(** After [InflateWithFlush], either there is output or there is none to be had. *)
Lemma InflateWithFlush_spec data size (w : WebSocketInflater) s0 :
  stream_ w = Some s0 → output_ok (output_buffer_ w) → 0 <= size <= Z.of_nat (length data) → size < 4294967296 →
  ∃ r s' b', InflateWithFlush data size w = Done (r, w <| output_buffer_ := b' |> <| stream_ := Some s' |>) ∧
    after_calls Z_NO_FLUSH (mkz_stream (zs_state s0) data size) (output_buffer_ w) r s' b' ∧
    (z_fine r → contents b' = [] → inflated (zs_state s') [] = []).
Proof.
  intros Hs Hb Hsize Hlt. unfold InflateWithFlush.
  destruct (Inflate_spec data size Z_NO_FLUSH w s0 Hs Hb Hsize Hlt) as (r & s1 & b1 & -> & H1). rewrite Done_bind.
  rewrite fine_test'. case_bool_decide as Hf; cbn [negb]; [|by exists r, s1, b1].
  unfold CurrentOutputSize. cbn [output_buffer_ set_field]. rewrite Size_contents by apply (ac_output _ _ _ _ _ _ H1).
  destruct (Z.ltb_spec 0 (Z.of_nat (length (contents b1)))) as [Hpos|Hzero].
  { exists r, s1, b1. split; [done|]. split; [done|]. intros _ E. cbn in Hpos. rewrite E in Hpos. done. }
  cbn [stream_ set_field]. pose proof (ac_stream _ _ _ _ _ _ H1) as Hs1. unfold stream_ok in Hs1.
  assert (avail_in s1 <= size) as Hle.
  { pose proof (ac_suffix _ _ _ _ _ _ H1) as [used Hu]. apply (f_equal length) in Hu.
    rewrite length_app in Hu. pose proof (input_of_length s1 Hs1).
    pose proof (input_of_length (mkz_stream (zs_state s0) data size) Hsize). cbn in *. lia. }
  destruct (Inflate_spec (next_in s1) (avail_in s1) Z_SYNC_FLUSH
    (w <| output_buffer_ := b1 |> <| stream_ := Some s1 |>) s1) as (r2 & s2 & b2 & -> & H2);
    [done|apply (ac_output _ _ _ _ _ _ H1)|done|lia|].
  assert (mkz_stream (zs_state s1) (next_in s1) (avail_in s1) = s1) as E1 by (by destruct s1). rewrite E1 in H2.
  exists r2, s2, b2. split; [done|]. destruct (ac_grows _ _ _ _ _ _ H1) as (out & Hc & Hob & Hg). split.
  - eapply (after_calls_step Z_NO_FLUSH _ _ out s1 b1);
      [done|by apply Hg|apply (ac_suffix _ _ _ _ _ _ H1)|done|apply (ac_capacity _ _ _ _ _ _ H1)|].
    destruct H2. by constructor.
  - intros Hf2 Hnil. destruct (ac_flushed _ _ _ _ _ _ H2 Hf2 eq_refl) as [Hfull|]; [|done].
    unfold full in Hfull. rewrite Hnil in Hfull. destruct (ac_output _ _ _ _ _ _ H2) as (Hcap & _).
    unfold capacity_ok in Hcap. cbn in Hfull. lia.
Qed.
End Decoding.

(** ** The inflater as a decoder with a queue *)

Section Queueing.
Context {Hz : Zlib} {Hl : ZlibLaws}.

(** All the output that there is, when [more] is to come; whether none of it is corrupt. *)
Definition potential (w : WebSocketInflater) (more : list Z) : list Z :=
  match stream_ w with
  | Some s => contents (output_buffer_ w) ++ inflated (zs_state s) (queue_bytes (input_queue_ w) ++ more)
  | None => []
  end.
Definition promising (w : WebSocketInflater) (more : list Z) : Prop :=
  match stream_ w with
  | Some s => intact (zs_state s) (queue_bytes (input_queue_ w) ++ more)
  | None => False
  end.

Definition opened (w : WebSocketInflater) : Prop :=
  ∃ s, stream_ w = Some s ∧ output_ok (output_buffer_ w) ∧ queue_ok (input_queue_ w) ∧
    Forall byte_ok (contents (output_buffer_ w)).
(** Between calls: input is choked only where the output is full, and where there is no
    output there is none to be had. *)
Definition steady (w : WebSocketInflater) : Prop :=
  ∃ s, stream_ w = Some s ∧ output_ok (output_buffer_ w) ∧ queue_ok (input_queue_ w) ∧
    (queue_bytes (input_queue_ w) ≠ [] → full (output_buffer_ w)) ∧
    (contents (output_buffer_ w) = [] → inflated (zs_state s) [] = []) ∧
    Forall byte_ok (contents (output_buffer_ w)).

Lemma steady_opened w : steady w → opened w.
Proof. intros (s & ? & ? & ? & _ & _ & ?). by exists s. Qed.

(** [bytes] go in, [out] comes out. *)
Definition turns (w : WebSocketInflater) (bytes : list Z) (w' : WebSocketInflater) (out : list Z) : Prop := ∀ more,
  potential w (bytes ++ more) = out ++ potential w' more ∧ (promising w (bytes ++ more) ↔ promising w' more).

Lemma turns_refl w : turns w [] w [].
Proof. by intros more. Qed.

Lemma turns_trans w1 bytes1 w2 out1 bytes2 w3 out2 :
  turns w1 bytes1 w2 out1 → turns w2 bytes2 w3 out2 → turns w1 (bytes1 ++ bytes2) w3 (out1 ++ out2).
Proof.
  intros H1 H2 more. rewrite <- !app_assoc. destruct (H1 (bytes2 ++ more)) as [-> ->]. by destruct (H2 more) as [-> ->].
Qed.

Lemma turns_promising w bytes w' out bytes' : turns w bytes w' out → ¬ promising w' bytes' → ¬ promising w (bytes ++ bytes').
Proof. intros H. destruct (H bytes') as [_ ->]. done. Qed.

Lemma full_nonempty b : output_ok b → full b → contents b ≠ [].
Proof. intros (Hc & _) Hf E. unfold full, capacity_ok in *. rewrite E in Hf. cbn in Hf. lia. Qed.

(** Input goes through a call, and what the call leaves is queued. *)
Lemma after_calls_turns w s size data r s' b' bytes q' :
  stream_ w = Some s → queue_bytes q' = input_of s' ++ bytes → queue_bytes (input_queue_ w) = take (Z.to_nat size) data ++ bytes →
  0 <= size <= Z.of_nat (length data) →
  after_calls Z_NO_FLUSH (mkz_stream (zs_state s) data size) (output_buffer_ w) r s' b' → z_fine r →
  turns w [] (w <| output_buffer_ := b' |> <| stream_ := Some s' |> <| input_queue_ := q' |>) [].
Proof.
  intros Hs Hq' Hq Hsize Hac Hf more. destruct (ac_grows _ _ _ _ _ _ Hac) as (out & Hc & _ & Hg).
  specialize (Hg Hf (bytes ++ more)). change (input_of (mkz_stream (zs_state s) data size)) with (take (Z.to_nat size) data) in Hg.
  unfold potential, promising. rewrite Hs. cbn. rewrite Hq, Hq', <- !app_assoc. cbn in Hg. destruct Hg as [-> ->].
  rewrite Hc. by rewrite <- app_assoc.
Qed.

Lemma after_calls_bytes flush st b r s' b' :
  after_calls flush st b r s' b' → Forall byte_ok (contents b) → Forall byte_ok (contents b').
Proof. intros Hac Hb. destruct (ac_grows _ _ _ _ _ _ Hac) as (out & -> & ? & _). by apply Forall_app. Qed.

Lemma inflater_AddBytes_spec w data size : steady w → 0 <= size <= Z.of_nat (length data) → size < 4294967296 →
  ∃ ok w', AddBytes data size w = Done (ok, w') ∧
    (ok = true → steady w' ∧ turns w (take (Z.to_nat size) data) w' []) ∧
    (ok = false → ¬ promising w (take (Z.to_nat size) data)).
Proof.
  intros Hw Hsize Hlt. unfold AddBytes. destruct (Z.eqb_spec size 0) as [->|Hne].
  { exists true, w. split; [done|]. split; [|done]. rewrite take_0. split; [done|apply turns_refl]. }
  destruct Hw as (s & Hs & Hb & Hq & Hfull & Hdry & Hby). rewrite IsEmpty_spec by done.
  case_bool_decide as Eq; cbn [negb].
  - destruct (InflateWithFlush_spec data size w s Hs Hb Hsize Hlt) as (r & s' & b' & -> & Hac & Hdry').
    rewrite Done_bind. unfold unread. cbn [stream_ set_field]. rewrite Done_bind.
    pose proof (ac_stream _ _ _ _ _ _ Hac) as Hs'.
    assert (input_of (mkz_stream (zs_state s) data size) = take (Z.to_nat size) data) as Ein by done.
    destruct (ac_suffix _ _ _ _ _ _ Hac) as (used & Hused). rewrite Ein in Hused.
    pose proof (input_of_length s' Hs') as Hl'. pose proof (f_equal length Hused) as Hlen.
    rewrite length_app, length_take in Hlen.
    assert (∃ q', (if 0 <? avail_in s' then Push (drop (Z.to_nat (size - avail_in s')) data) (avail_in s') (input_queue_ w)
                   else Done (input_queue_ w)) = Done q' ∧ queue_ok q' ∧ queue_bytes q' = input_of s') as (q' & E & Hq' & Hqb).
    { destruct (Z.ltb_spec 0 (avail_in s')) as [Hpos|Hz0].
      - destruct (Push_spec (input_queue_ w) (drop (Z.to_nat (size - avail_in s')) data) (avail_in s') Hq)
          as (q' & -> & Hq' & _ & Hqb); [rewrite length_drop; lia|].
        exists q'. split; [done|]. split; [done|]. rewrite Hqb, Eq. cbn [app].
        assert (drop (length used) (take (Z.to_nat size) data) = input_of s') as <- by (rewrite Hused; apply drop_app_length).
        rewrite skipn_firstn_comm. replace (Z.to_nat (size - avail_in s')) with (length used) by lia. f_equal. lia.
      - exists (input_queue_ w). split; [done|]. split; [done|]. rewrite Eq. symmetry. apply nil_length_inv. lia. }
    change (input_queue_ (w <| output_buffer_ := b' |> <| stream_ := Some s' |>)) with (input_queue_ w).
    rewrite E, Done_bind, fine_test.
    eexists _, _. split; [reflexivity|]. case_bool_decide as Hf; (split; try done).
    + intros _. split.
      * exists s'. cbn. split; [done|]. split; [by destruct Hac|]. split; [done|].
        split; [rewrite Hqb; intros; by apply (ac_left _ _ _ _ _ _ Hac)|].
        split; [by apply Hdry'|by eapply after_calls_bytes].
      * intros more. destruct (ac_grows _ _ _ _ _ _ Hac) as (out & Hc & _ & Hg). specialize (Hg Hf more). cbn [zs_state] in Hg.
        rewrite Ein in Hg. unfold potential, promising. rewrite Hs, Eq. cbn. rewrite Hqb. destruct Hg as [-> ->].
        by rewrite Hc, <- app_assoc.
    + intros _. unfold promising. rewrite Hs, Eq. cbn [app]. rewrite <- Ein. by apply (ac_error _ _ _ _ _ _ Hac).
  - destruct (Push_spec (input_queue_ w) data size Hq Hsize) as (q' & -> & Hq' & _ & Hqb). rewrite Done_bind.
    eexists true, _. split; [reflexivity|]. split; [|done]. intros _.
    assert (queue_bytes (input_queue_ w) ≠ []) as Hne' by done. specialize (Hfull Hne'). split.
    + exists s. cbn. split; [done|]. split; [done|]. split; [done|]. split; [done|]. split; [|done]. intros E.
      by destruct (full_nonempty _ Hb Hfull).
    + intros more. unfold potential, promising. cbn. rewrite Hs, Hqb. cbn. by rewrite <- !app_assoc.
Qed.

Lemma choked_loop_spec fuel : ∀ result w,
  opened w → z_fine result → (length (buffers_ (input_queue_ w)) <= fuel)%nat →
  (queue_bytes (input_queue_ w) = [] → steady w) →
  ∃ r w', choked_loop fuel result w = Done (r, w') ∧
    (z_fine r → steady w' ∧ turns w [] w' []) ∧ (¬ z_fine r → ¬ promising w []).
Proof.
  induction fuel as [|fuel IH]; intros result w Hw Hr Hf Hend; pose proof Hw as (s & Hs & Hb & Hq & Hby);
    cbn [choked_loop]; rewrite IsEmpty_spec by done; (case_bool_decide as Eq;
      [exists result, w; split; [done|]; split; [|done]; intros _; split; [auto|apply turns_refl]|]).
  { exfalso. apply Eq. destruct (buffers_ (input_queue_ w)) eqn:E; [|cbn in Hf; lia].
    unfold queue_bytes. rewrite E. cbn. by rewrite take_nil, drop_nil. }
  destruct (Top_Consume_spec _ Hq Eq) as (top & others & -> & Hne & Hqb & Htop & Hcons). rewrite Done_bind. cbn [fst snd].
  pose proof Hq as ((Hcap & _) & _). unfold capacity_ok in Hcap.
  destruct (InflateWithFlush_spec top (Z.of_nat (length top)) w s Hs Hb ltac:(lia) ltac:(lia))
    as (r & s' & b' & -> & Hac & Hdry'). rewrite Done_bind. unfold unread. cbn [stream_ set_field]. rewrite Done_bind.
  pose proof (ac_stream _ _ _ _ _ _ Hac) as Hs'. pose proof (input_of_length s' Hs') as Hl'.
  assert (input_of (mkz_stream (zs_state s) top (Z.of_nat (length top))) = top) as Ein
    by (unfold input_of; cbn; apply take_ge; lia).
  destruct (ac_suffix _ _ _ _ _ _ Hac) as (used & Hused). rewrite Ein in Hused.
  pose proof (f_equal length Hused) as Hlen. rewrite length_app in Hlen.
  rewrite u64_small by lia.
  destruct (Hcons (Z.of_nat (length top) - avail_in s') ltac:(lia)) as (q' & Econs & Hq' & Hcap' & Hqb' & Hless).
  change (input_queue_ (w <| output_buffer_ := b' |> <| stream_ := Some s' |>)) with (input_queue_ w).
  rewrite Econs, Done_bind, fine_test'.
  assert (drop (Z.to_nat (Z.of_nat (length top) - avail_in s')) top = input_of s') as Edrop.
  { replace (Z.to_nat _) with (length used) by lia. rewrite Hused. apply drop_app_length. }
  rewrite Edrop in Hqb'. case_bool_decide as Hfr; cbn [negb].
  - set (w1 := w <| output_buffer_ := b' |> <| stream_ := Some s' |> <| input_queue_ := q' |>).
    assert (turns w [] w1 []) as Ht.
    { apply (after_calls_turns w s (Z.of_nat (length top)) top r s' b' others q'); try done; [|lia].
      rewrite take_ge by lia. done. }
    assert (avail_in s' = 0 → queue_bytes q' = others) as Hall.
    { intros E. rewrite Hqb'. rewrite (nil_length_inv (input_of s')) by lia. done. }
    assert (queue_bytes q' = [] ∨ 0 < avail_in s' → steady w1) as Hst.
    { intros Hcase. exists s'. cbn. split; [done|]. split; [apply (ac_output _ _ _ _ _ _ Hac)|]. split; [done|].
      split; [|split; [by apply Hdry'|by eapply after_calls_bytes]]. intros Hne'. destruct Hcase as [?|?]; [done|].
      apply (ac_left _ _ _ _ _ _ Hac Hfr). intros E. rewrite E in Hl'. cbn in Hl'. lia. }
    destruct (Z.ltb_spec 0 (avail_in s')) as [Hpos|Hz0].
    { exists r, w1. split; [done|]. split; [|done]. intros _. split; [by apply Hst; right|done]. }
    assert (avail_in s' = 0) as Ez by lia. specialize (Hall Ez).
    destruct (IH r w1) as (r2 & w2 & -> & H1 & H2).
    + exists s'. cbn. split; [done|]. split; [apply (ac_output _ _ _ _ _ _ Hac)|]. split; [done|by eapply after_calls_bytes].
    + done.
    + cbn. assert (length (buffers_ (input_queue_ w)) = S (length (buffers_ q'))) as E by (apply Hless; lia). lia.
    + intros E. by apply Hst; left.
    + exists r2, w2. split; [done|]. split.
      * intros Hf2. destruct (H1 Hf2) as [? Ht2]. split; [done|]. by apply (turns_trans w [] w1 [] [] w2 []).
      * intros Hf2. by apply (turns_promising w [] w1 [] []); [|auto].
  - eexists r, _. split; [reflexivity|]. split; [done|]. intros _. unfold promising. rewrite Hs, app_nil_r, Hqb.
    intros Hi%intact_prefix. apply (ac_error _ _ _ _ _ _ Hac Hfr). by rewrite Ein.
Qed.

Lemma InflateChokedInput_spec w : opened w →
  ∃ r w', InflateChokedInput w = Done (r, w') ∧
    (z_fine r → steady w' ∧ turns w [] w' []) ∧ (¬ z_fine r → ¬ promising w []).
Proof.
  intros Hw. pose proof Hw as (s & Hs & Hb & Hq & Hby). unfold InflateChokedInput. rewrite IsEmpty_spec by done.
  case_bool_decide as Eq.
  - destruct (InflateWithFlush_spec [] 0 w s Hs Hb ltac:(done) ltac:(lia)) as (r & s' & b' & -> & Hac & Hdry').
    eexists r, _. split; [reflexivity|].
    assert (input_of s' = []) as Ein'.
    { destruct (ac_suffix _ _ _ _ _ _ Hac) as (used & Hu). cbn in Hu. symmetry in Hu. by apply app_eq_nil in Hu as [_ ?]. }
    split.
    + intros Hf. split.
      * exists s'. cbn. split; [done|]. split; [apply (ac_output _ _ _ _ _ _ Hac)|]. split; [done|].
        split; [done|]. split; [by apply Hdry'|by eapply after_calls_bytes].
      * assert (w <| output_buffer_ := b' |> <| stream_ := Some s' |>
                = w <| output_buffer_ := b' |> <| stream_ := Some s' |> <| input_queue_ := input_queue_ w |>) as -> by done.
        apply (after_calls_turns w s 0 [] r s' b' [] (input_queue_ w)); try done. by rewrite Ein', Eq.
    + intros Hf. unfold promising. rewrite Hs, Eq. by apply (ac_error _ _ _ _ _ _ Hac).
  - apply choked_loop_spec; [done|by right|done|done].
Qed.

(** The output is taken from the front, and it ends early only where there is no more. *)
Lemma output_loop_spec fuel : ∀ size buffer w,
  steady w → Z.of_nat (length buffer) <= size → (Z.to_nat (size - Z.of_nat (length buffer)) <= fuel)%nat →
  ∃ r w', output_loop fuel size buffer w = Done (r, w') ∧
    match r with
    | Some buffer' => ∃ out, buffer' = buffer ++ out ∧ Forall byte_ok out ∧ steady w' ∧ turns w [] w' out ∧
        Z.of_nat (length buffer') <= size ∧
        (Z.of_nat (length buffer') < size → CurrentOutputSize w' = 0) ∧
        (0 < CurrentOutputSize w → Z.of_nat (length buffer) < size → out ≠ [])
    | None => ¬ promising w []
    end.
Proof.
  induction fuel as [|fuel IH]; intros size buffer w Hw Hlb Hf; pose proof Hw as (s & Hs & Hb & Hq & Hfull & Hdry & Hby);
    cbn [output_loop]; unfold CurrentOutputSize at 1; rewrite (Size_contents _ Hb);
    (destruct (Z.ltb_spec (Z.of_nat (length buffer)) size) as [Hlt|Hge]; cbn [andb negb];
      [|exists (Some buffer), w; split; [done|]; exists []; rewrite app_nil_r; split; [done|]; split; [done|]; split; [done|];
        split; [apply turns_refl|]; split; [done|]; split; [lia|lia]]); [lia|].
  destruct (Z.ltb_spec 0 (Z.of_nat (length (contents (output_buffer_ w))))) as [Hpos|Hz0]; cbn [negb].
  2: { exists (Some buffer), w. split; [done|]. exists []. rewrite app_nil_r. split; [done|]. split; [done|]. split; [done|].
    split; [apply turns_refl|]. split; [done|]. unfold CurrentOutputSize. rewrite (Size_contents _ Hb).
    split; [lia|]. intros. lia. }
  unfold CurrentOutputSize at 1. rewrite (Size_contents _ Hb).
  set (k := Z.min _ _).
  destruct (Read_spec _ k Hb ltac:(lia)) as (b1 & -> & Hb1 & Hcap1 & Hc1). rewrite Done_bind. cbn [fst snd].
  set (w1 := w <| output_buffer_ := b1 |>).
  assert (opened w1) as Hw1 by (exists s; cbn; rewrite Hc1; by split_and!; try apply Forall_drop).
  assert (turns w [] w1 (take (Z.to_nat k) (contents (output_buffer_ w)))) as Ht1.
  { intros more. unfold potential, promising. cbn. rewrite Hs, Hc1, app_assoc, take_drop. done. }
  destruct (InflateChokedInput_spec w1 Hw1) as (r & w2 & -> & H1 & H2). rewrite Done_bind, fine_test'.
  case_bool_decide as Hfr; cbn [negb].
  - destruct (H1 Hfr) as [Hw2 Ht2].
    assert (length (take (Z.to_nat k) (contents (output_buffer_ w))) = Z.to_nat k) as Hlk by (rewrite length_take; lia).
    destruct (IH size (buffer ++ take (Z.to_nat k) (contents (output_buffer_ w))) w2 Hw2) as (r2 & w3 & -> & H3);
      [rewrite length_app; lia..|].
    exists r2, w3. split; [done|]. destruct r2 as [buffer'|].
    + destruct H3 as (out & -> & Hob & Hw3 & Ht3 & Hl3 & Hdone & _).
      exists (take (Z.to_nat k) (contents (output_buffer_ w)) ++ out). rewrite app_assoc. split; [done|].
      split; [apply Forall_app; split; [by apply Forall_take|done]|]. split; [done|].
      split. { apply (turns_trans w [] w1 _ [] w3 out Ht1). by apply (turns_trans w1 [] w2 [] [] w3 out). }
      split; [done|]. split; [done|]. intros _ _ E. apply (f_equal length) in E. rewrite length_app in E.
      cbn in E. lia.
    + apply (turns_promising w [] w1 _ [] Ht1). by apply (turns_promising w1 [] w2 [] [] Ht2).
  - eexists None, _. split; [reflexivity|]. apply (turns_promising w [] w1 _ [] Ht1). by apply H2.
Qed.

Lemma inflater_GetOutput_spec w size : steady w → 0 <= size <= 2147483647 →
  ∃ r w', GetOutput size w = Done (r, w') ∧
    match r with
    | Some out => Forall byte_ok out ∧ steady w' ∧ turns w [] w' out ∧ Z.of_nat (length out) <= size ∧
        (Z.of_nat (length out) < size → CurrentOutputSize w' = 0) ∧
        (0 < CurrentOutputSize w → 0 < size → out ≠ [])
    | None => ¬ promising w []
    end.
Proof.
  intros Hw Hsize. unfold GetOutput.
  destruct (output_loop_spec (Z.to_nat size) size [] w Hw) as (r & w' & -> & H); [cbn; lia..|]. rewrite Done_bind.
  destruct r as [buffer|]; [|by eexists None, _].
  destruct H as (out & -> & Hob & Hw' & Ht & Hl' & Hdone & Hpos). cbn [app] in *.
  rewrite s32_small by lia. pass_DCHECK ltac:(lia). pass_DCHECK ltac:(lia).
  rewrite Nat2Z.id, firstn_all. by eexists (Some out), _.
Qed.

(** Opened with zlib's largest window or a smaller one. *)
Lemma inflater_Initialize_spec cap_in cap_out window_bits : capacity_ok cap_in → capacity_ok cap_out → 8 <= window_bits <= 15 →
  ∃ w, (w ← new_WebSocketInflater cap_in cap_out; Initialize window_bits w) = Done (true, w) ∧
    (∀ more, potential w more = inflated (snd (inflateInit2 (- window_bits))) more ∧
             (promising w more ↔ intact (snd (inflateInit2 (- window_bits))) more)) ∧
    steady w ∧ CurrentOutputSize w = 0.
Proof.
  intros Hi Ho Hw. pose proof Hi as Hi'. pose proof Ho as Ho'. unfold capacity_ok in Hi', Ho'.
  unfold new_WebSocketInflater, Initialize. pass_DCHECK ltac:(lia). pass_DCHECK ltac:(lia). rewrite Done_bind.
  pass_DCHECK ltac:(lia). pass_DCHECK ltac:(lia). pose proof (inflateInit2_ok window_bits Hw) as Hok.
  pose proof (inflateInit2_nothing (- window_bits)) as Hno.
  destruct (inflateInit2 (- window_bits)) as [r st]. cbn in Hok, Hno. subst r. cbn [Z.eqb negb].
  destruct (new_OutputBuffer_ok cap_out Ho) as [Hb Hc]. destruct (new_InputQueue_ok cap_in Hi) as [Hq Hqb].
  revert Hb Hc Hq Hqb. generalize (new_OutputBuffer cap_out) as b, (new_InputQueue cap_in) as q. intros b q Hb Hc Hq Hqb.
  eexists. split; [reflexivity|]. split; [|split].
  - intros more. unfold potential, promising. cbn [stream_ input_queue_ output_buffer_ set_field]. cbn. by rewrite Hc, Hqb.
  - eexists. split; [reflexivity|]. cbn. by rewrite Hqb, Hc.
  - unfold CurrentOutputSize. cbn. rewrite (Size_contents _ Hb). by rewrite Hc.
Qed.

(** ** Any sequence of calls *)

Inductive inflater_call : Type :=
  | CallAddBytes (data : list Z)
  | CallFinish
  | CallGetOutput (size : Z).

Definition call_ok (c : inflater_call) : Prop :=
  match c with
  | CallAddBytes data => Z.of_nat (length data) < 4294967296
  | CallFinish => True
  | CallGetOutput size => 0 <= size <= 2147483647
  end.
Definition given (c : inflater_call) : list Z :=
  match c with CallAddBytes data => data | CallFinish => sync_mark | CallGetOutput _ => [] end.

(** Whether the call succeeds, and the output it takes. *)
Definition inflater_step (c : inflater_call) (w : WebSocketInflater) : outcome (bool * list Z * WebSocketInflater) :=
  match c with
  | CallAddBytes data => r ← AddBytes data (Z.of_nat (length data)) w; Done (fst r, [], snd r)
  | CallFinish => r ← Finish w; Done (fst r, [], snd r)
  | CallGetOutput size =>
      r ← GetOutput size w;
      Done match r with (Some out, w) => (true, out, w) | (None, w) => (false, [], w) end
  end.

(** Up to the first call that fails: whether none did, the output taken and the inflater. *)
Fixpoint inflater_run (calls : list inflater_call) (taken : list Z) (w : WebSocketInflater) :
    outcome (bool * list Z * WebSocketInflater) :=
  match calls with
  | [] => Done (true, taken, w)
  | c :: calls =>
      r ← inflater_step c w;
      let '(ok, out, w) := r : bool * list Z * WebSocketInflater in
      if ok then inflater_run calls (taken ++ out) w else Done (false, taken, w)
  end.

Lemma inflater_step_spec c w : steady w → call_ok c →
  ∃ ok out w1, inflater_step c w = Done (ok, out, w1) ∧
    if ok : bool then steady w1 ∧ turns w (given c) w1 out else ¬ promising w (given c).
Proof.
  intros Hw Hc. destruct c as [data| |size]; cbn [given inflater_step].
  - destruct (inflater_AddBytes_spec w data (Z.of_nat (length data)) Hw ltac:(lia) Hc) as (ok & w1 & -> & H1 & H2).
    rewrite Nat2Z.id, firstn_all in H1, H2. exists ok, [], w1. split; [done|]. destruct ok; auto.
  - destruct (inflater_AddBytes_spec w sync_mark 4 Hw ltac:(done) ltac:(lia)) as (ok & w1 & E & H1 & H2).
    unfold Finish. rewrite E. exists ok, [], w1. split; [done|]. destruct ok; auto.
  - destruct (inflater_GetOutput_spec w size Hw Hc) as (r & w1 & -> & H). rewrite Done_bind.
    destruct r as [out|]; [exists true, out, w1|exists false, [], w1]; (split; [done|]); [|done].
    by destruct H as (_ & ? & ? & _).
Qed.

Lemma inflater_run_spec calls : ∀ taken w, steady w → Forall call_ok calls →
  ∃ ok taken' w', inflater_run calls taken w = Done (ok, taken', w') ∧
    if ok then ∃ out, taken' = taken ++ out ∧ steady w' ∧ turns w (concat (map given calls)) w' out
    else ¬ promising w (concat (map given calls)).
Proof.
  induction calls as [|c calls IH]; intros taken w Hw Hc; cbn [inflater_run].
  { exists true, taken, w. split; [done|]. exists []. rewrite app_nil_r. split; [done|]. split; [done|apply turns_refl]. }
  apply Forall_cons_1 in Hc as [Hc Hcs]. cbn [map concat].
  destruct (inflater_step_spec c w Hw Hc) as (ok & out & w1 & -> & H).
  rewrite Done_bind. destruct ok.
  - destruct H as [Hw1 Ht1]. destruct (IH (taken ++ out) w1 Hw1 Hcs) as (ok & taken' & w' & -> & H).
    exists ok, taken', w'. split; [done|]. destruct ok.
    + destruct H as (out' & -> & Hw' & Ht'). exists (out ++ out'). rewrite app_assoc. split; [done|]. split; [done|].
      by eapply turns_trans.
    + by eapply turns_promising.
  - exists false, taken, w1. split; [done|]. intros Hp. apply H.
    unfold promising in *. destruct (stream_ w); [|done]. rewrite app_assoc in Hp. by apply intact_prefix in Hp.
Qed.

Lemma steady_dry w : steady w → CurrentOutputSize w = 0 → potential w [] = [].
Proof.
  intros (s & Hs & Hb & Hq & Hfull & Hdry & _) H0. unfold CurrentOutputSize in H0. rewrite (Size_contents _ Hb) in H0.
  assert (contents (output_buffer_ w) = []) as E by (apply nil_length_inv; lia).
  assert (queue_bytes (input_queue_ w) = []) as Eq.
  { destruct (decide (queue_bytes (input_queue_ w) = [])) as [|Hne]; [done|].
    by destruct (full_nonempty _ Hb (Hfull Hne)). }
  unfold potential. rewrite Hs, E, Eq. by apply Hdry.
Qed.

Lemma steady_size w more : steady w → CurrentOutputSize w <= Z.of_nat (length (potential w more)).
Proof.
  intros (s & Hs & Hb & _). unfold CurrentOutputSize. rewrite (Size_contents _ Hb).
  unfold potential. rewrite Hs, length_app. lia.
Qed.

(** [C22] The inflater decompresses, whatever its buffers hold.  For buffers of any sizes, any
    window and any sequence of [AddBytes], [Finish] and [GetOutput], the calls return, with no
    check failing.  If none fails, the output taken is a front of what the input given so far
    decodes to, the marks that [Finish] adds included, and all of it when
    [CurrentOutputSize()] is zero; if one fails, then some of the input is corrupt. *)
Theorem Inflater_decodes (cap_in cap_out window_bits : Z) (calls : list inflater_call) :
  capacity_ok cap_in → capacity_ok cap_out → 8 <= window_bits <= 15 → Forall call_ok calls →
  let st := snd (inflateInit2 (- window_bits)) in
  let input := concat (map given calls) in
  ∃ ok taken w,
    (w ← new_WebSocketInflater cap_in cap_out;
     r ← Initialize window_bits w;
     inflater_run calls [] (snd r)) = Done (ok, taken, w) ∧
    (ok = false → ¬ intact st input) ∧
    (ok = true → ∃ later, inflated st input = taken ++ later ∧
       (later = [] ↔ CurrentOutputSize w = 0)).
Proof.
  intros Hi Ho Hwb Hc st input. destruct (inflater_Initialize_spec cap_in cap_out window_bits Hi Ho Hwb) as (w0 & E & Hp & Hst & _).
  destruct (inflater_run_spec calls [] w0 Hst Hc) as (ok & taken & w & Er & H). exists ok, taken, w.
  split; [|split].
  - apply bind_done in E as (w' & -> & E). rewrite Done_bind, E, Done_bind. exact Er.
  - intros ->. destruct (Hp input) as [_ Hi']. intros Hin. by apply H, Hi'.
  - intros ->. destruct H as (out & -> & Hw & Ht). exists (potential w []). destruct (Ht []) as [Ht' _].
    rewrite app_nil_r in Ht'. destruct (Hp input) as [Hpi _]. split; [by etrans; [symmetry; exact Hpi|exact Ht']|]. split; [|by apply steady_dry].
    intros En. pose proof (steady_size w [] Hw) as Hs. rewrite En in Hs. cbn in Hs.
    destruct Hw as (s & _ & Hb & _). unfold CurrentOutputSize in *. rewrite (Size_contents _ Hb) in *. lia.
Qed.
End Queueing.

(** ** A concrete inflater *)

(** A message cut in the middle of a run, with small buffers. *)
Definition example_calls : list inflater_call :=
  [CallAddBytes [3; 7; 2]; CallAddBytes [9; 0]; CallFinish; CallGetOutput 2; CallGetOutput 100].

Lemma example_run :
  (w ← new_WebSocketInflater (Hz := Runs.codec) 2 3;
   r ← Initialize 15 w;
   r ← inflater_run example_calls [] (snd r);
   Done (fst r, CurrentOutputSize (snd r))) = Done (true, [7; 7; 7; 9; 9], 0).
Proof. vm_compute. reflexivity. Qed.

Lemma Inflater_decodes_witness :
  let input := concat (map given example_calls) in
  ∃ ok taken w,
    (w ← new_WebSocketInflater (Hz := Runs.codec) 2 3;
     r ← Initialize 15 w;
     inflater_run example_calls [] (snd r)) = Done (ok, taken, w) ∧
    (ok = false → ¬ Runs.sound Runs.Start input) ∧
    (ok = true → ∃ later, Runs.decoded Runs.Start input = taken ++ later ∧
       (later = [] ↔ CurrentOutputSize w = 0)).
Proof.
  apply (Inflater_decodes (Hz := Runs.codec) (Hl := Runs.codec_laws) 2 3 15 example_calls).
  - split; reflexivity.
  - split; reflexivity.
  - split; discriminate.
  - repeat (constructor; [first [exact I | reflexivity | split; discriminate]|]). constructor.
Defined.
