(* ===== verification/WebSocketDeflater.v ===== *)
(** * net/websockets/websocket_deflater.{h,cc}: the deflater

    [WebSocketDeflater] compresses messages with zlib.  At the end of a message it flushes and
    drops the mark 00 00 FF FF, which the receiver puts back (RFC 7692, section 7.2.1). *)

From S2P Require Import Prelude Zlib WebSocketInflater WebSocketDeflateParameters.

Section Deflater.
Context {Hz : Zlib}.

(** [deflate_buffer_] is the [buffer_] of the deflater, the output that was not taken yet. *)
Record WebSocketDeflater : Type := mkWebSocketDeflater {
  deflate_stream_ : option (z_stream deflate_state);
  mode_ : ContextTakeOverMode;
  deflate_buffer_ : list Z;
  fixed_buffer_ : list Z;
  are_bytes_added_ : bool
}.
#[global] Instance eta_WebSocketDeflater : Eta WebSocketDeflater := λ w,
  mkWebSocketDeflater (deflate_stream_ w) (mode_ w) (deflate_buffer_ w) (fixed_buffer_ w) (are_bytes_added_ w).

Definition new_WebSocketDeflater (mode : ContextTakeOverMode) : WebSocketDeflater :=
  {| deflate_stream_ := None; mode_ := mode; deflate_buffer_ := []; fixed_buffer_ := []; are_bytes_added_ := false |}.

Definition kFixedBufferSize : Z := 4096.

Definition Initialize (window_bits : Z) (w : WebSocketDeflater) : outcome (bool * WebSocketDeflater) :=
  DCHECK (match deflate_stream_ w with None => true | Some _ => false end) ;;
  DCHECK (8 <=? window_bits) ;;
  DCHECK (window_bits <=? 15) ;;
  let '(result, st) := deflateInit2 (- window_bits) in
  if negb (result =? Z_OK) then Done (false, w <| deflate_stream_ := None |>)
  else Done (true, w <| deflate_stream_ := Some (mkz_stream st [] 0) |>
                     <| fixed_buffer_ := replicate (Z.to_nat kFixedBufferSize) 0 |>).

Definition CurrentOutputSize (w : WebSocketDeflater) : Z := Z.of_nat (length (deflate_buffer_ w)).

(** A null [stream_] must not be used. *)
Definition with_stream {A} (w : WebSocketDeflater) (f : z_stream deflate_state → outcome A) : outcome A :=
  match deflate_stream_ w with None => DcheckFailed | Some stream => f stream end.

(** The loop of [Deflate].  A loop that runs out of fuel is not [Done]. *)
Fixpoint deflate_loop (fuel : nat) (flush : Flush) (w : WebSocketDeflater) : outcome (Z * WebSocketDeflater) :=
  match fuel with
  | O => DcheckFailed
  | S fuel =>
      with_stream w (λ stream,
        let fixed_size := Z.of_nat (length (fixed_buffer_ w)) in
        let c := deflate (zs_state stream) (input_of stream) (u32 fixed_size) flush in
        let avail_out := u32 fixed_size - Z.of_nat (length (z_written c)) in
        let fixed_buffer := overwrite 0 (z_written c) (fixed_buffer_ w) in
        let size := u64 (fixed_size - avail_out) in
        let w := w <| deflate_stream_ := Some (mkz_stream (z_state c) (drop (Z.to_nat (z_read c)) (next_in stream))
                                                 (avail_in stream - z_read c)) |>
                   <| fixed_buffer_ := fixed_buffer |>
                   <| deflate_buffer_ := deflate_buffer_ w ++ slice 0 size fixed_buffer |> in
        if z_result c =? Z_OK then deflate_loop fuel flush w else Done (z_result c, w))
  end.

Definition Deflate (flush : Flush) (w : WebSocketDeflater) : outcome (Z * WebSocketDeflater) :=
  with_stream w (λ stream,
    deflate_loop (S (deflate_calls (zs_state stream) (input_of stream) flush)) flush w).

Definition ResetContext (w : WebSocketDeflater) : outcome WebSocketDeflater :=
  w ← match mode_ w with
      | DO_NOT_TAKE_OVER_CONTEXT =>
          with_stream w (λ stream,
            Done (w <| deflate_stream_ := Some (mkz_stream (snd (deflateReset (zs_state stream)))
                                                  (next_in stream) (avail_in stream)) |>))
      | TAKE_OVER_CONTEXT => Done w
      end;
  Done (w <| are_bytes_added_ := false |>).

(** [data] has at least [size] bytes. *)
Definition AddBytes (data : list Z) (size : Z) (w : WebSocketDeflater) : outcome (bool * WebSocketDeflater) :=
  if size =? 0 then Done (true, w)
  else
    let w := w <| are_bytes_added_ := true |> in
    with_stream w (λ stream,
      let w := w <| deflate_stream_ := Some (mkz_stream (zs_state stream) data (u32 size)) |> in
      r ← Deflate Z_NO_FLUSH w;
      let '(result, w) := r : Z * WebSocketDeflater in
      with_stream w (λ stream,
        DCHECK (negb (result =? Z_BUF_ERROR) || (avail_in stream =? 0)) ;;
        Done (result =? Z_BUF_ERROR, w))).

Definition Finish (w : WebSocketDeflater) : outcome (bool * WebSocketDeflater) :=
  if negb (are_bytes_added_ w) then
    w ← ResetContext (w <| deflate_buffer_ := deflate_buffer_ w ++ [0] |>);
    Done (true, w)
  else
    with_stream w (λ stream,
      let w := w <| deflate_stream_ := Some (mkz_stream (zs_state stream) [] 0) |> in
      r ← Deflate Z_SYNC_FLUSH w;
      let '(result, w) := r : Z * WebSocketDeflater in
      if negb (result =? Z_BUF_ERROR) then w ← ResetContext w; Done (false, w)
      else if CurrentOutputSize w <? 4 then w ← ResetContext w; Done (false, w)
      else
        w ← ResetContext (w <| deflate_buffer_ := take (length (deflate_buffer_ w) - 4) (deflate_buffer_ w) |>);
        Done (true, w)).

Definition PushSyncMark (w : WebSocketDeflater) : outcome WebSocketDeflater :=
  DCHECK (negb (are_bytes_added_ w)) ;;
  Done (w <| deflate_buffer_ := deflate_buffer_ w ++ [0; 0; 255; 255] |>).

(** An [IOBufferWithSize] holds less than 2 GB; that its constructor fails a check above that
    is not modelled. *)
Definition GetOutput (size : Z) (w : WebSocketDeflater) : list Z * WebSocketDeflater :=
  let length_to_copy := Z.min size (CurrentOutputSize w) in
  (take (Z.to_nat length_to_copy) (deflate_buffer_ w),
   w <| deflate_buffer_ := drop (Z.to_nat length_to_copy) (deflate_buffer_ w) |>).
End Deflater.

(** ** What the deflater writes *)

Section Compressing.
Context {Hz : Zlib} {Hl : ZlibLaws} (window_bits : Z).

(** The stream of the deflater has the history [input], [output]. *)
Definition deflater_ok (w : WebSocketDeflater) (input output : list Z) : Prop :=
  ∃ s, deflate_stream_ w = Some s ∧ length (fixed_buffer_ w) = Z.to_nat kFixedBufferSize ∧
    deflating window_bits (if are_bytes_added_ w then Fed else Flushed) (zs_state s) input output.

(** The buffer grows by what zlib wrote. *)
Definition grown (w w' : WebSocketDeflater) (out : list Z) : Prop :=
  mode_ w' = mode_ w ∧ are_bytes_added_ w' = are_bytes_added_ w ∧
  length (fixed_buffer_ w') = Z.to_nat kFixedBufferSize ∧ deflate_buffer_ w' = deflate_buffer_ w ++ out ∧
  Forall byte_ok out.

Lemma grown_trans w1 w2 w3 out out' : grown w1 w2 out → grown w2 w3 out' → grown w1 w3 (out ++ out').
Proof.
  unfold grown. intros (? & ? & ? & Hb & ?) (? & ? & ? & Hb' & ?). rewrite Hb', Hb, app_assoc, Forall_app.
  split_and!; (congruence || done).
Qed.

Definition after_deflate (w : WebSocketDeflater) (s : z_stream deflate_state) (flush : Flush) : WebSocketDeflater :=
  let c := deflate (zs_state s) (input_of s) kFixedBufferSize flush in
  w <| deflate_stream_ := Some (mkz_stream (z_state c) (drop (Z.to_nat (z_read c)) (next_in s)) (avail_in s - z_read c)) |>
    <| fixed_buffer_ := overwrite 0 (z_written c) (fixed_buffer_ w) |>
    <| deflate_buffer_ := deflate_buffer_ w ++ z_written c |>.

(** One call: it copies through [fixed_buffer_]. *)
Lemma deflate_loop_step fuel flush w s :
  deflate_stream_ w = Some s → length (fixed_buffer_ w) = Z.to_nat kFixedBufferSize →
  let c := deflate (zs_state s) (input_of s) kFixedBufferSize flush in
  call_in_bounds c (input_of s) kFixedBufferSize →
  deflate_loop (S fuel) flush w =
    (if z_result c =? Z_OK then deflate_loop fuel flush (after_deflate w s flush)
     else Done (z_result c, after_deflate w s flush)) ∧
  grown w (after_deflate w s flush) (z_written c).
Proof.
  intros Hs Hf c (Hr & Hw & Hbytes). cbn [deflate_loop]. unfold with_stream. rewrite Hs, Hf.
  change (u32 (Z.of_nat (Z.to_nat kFixedBufferSize))) with kFixedBufferSize.
  change (Z.of_nat (Z.to_nat kFixedBufferSize)) with kFixedBufferSize. cbv zeta. fold c.
  replace (kFixedBufferSize - (kFixedBufferSize - Z.of_nat (length (z_written c)))) with (Z.of_nat (length (z_written c))) by lia.
  rewrite u64_small by (unfold kFixedBufferSize in Hw; lia).
  rewrite slice_overwrite by lia. split; [done|]. unfold grown. cbn. split_and!; [done|done| |done|done].
  rewrite overwrite_length; [done|lia|]. rewrite Hf. fold c. change (Z.of_nat (Z.to_nat kFixedBufferSize)) with kFixedBufferSize. lia.
Qed.

(** Feeding: the loop ends when everything is read. *)
Lemma deflate_loop_feed fuel : ∀ w s p input output,
  deflate_stream_ w = Some s → length (fixed_buffer_ w) = Z.to_nat kFixedBufferSize → stream_ok s →
  deflating window_bits p (zs_state s) input output → may_feed p (input_of s) → Forall byte_ok (input_of s) →
  (deflate_calls (zs_state s) (input_of s) Z_NO_FLUSH < fuel)%nat →
  ∃ w' s' out, deflate_loop fuel Z_NO_FLUSH w = Done (Z_BUF_ERROR, w') ∧ grown w w' out ∧
    deflate_stream_ w' = Some s' ∧ avail_in s' = 0 ∧
    deflating window_bits Fed (zs_state s') (input ++ input_of s) (output ++ out).
Proof.
  induction fuel as [|fuel IH]; intros w s p input output Hs Hf Hsok Hd Hm Hb Hfuel; [lia|].
  assert (6 < kFixedBufferSize) as Hroom by done.
  destruct (deflate_feed _ _ _ _ _ _ _ Hd Hm Hb Hroom) as (Hbounds & Hfine & Hall & Hless).
  destruct (deflate_loop_step fuel Z_NO_FLUSH w s Hs Hf Hbounds) as [-> Hg].
  pose proof (deflating_feed _ _ _ _ _ _ _ Hd Hm Hb Hroom) as Hd1.
  set (c := deflate (zs_state s) (input_of s) kFixedBufferSize Z_NO_FLUSH) in *. cbv zeta in Hd1. fold c in Hd1.
  destruct (advance_stream s (z_read c) (z_state c) Hsok (proj1 Hbounds)) as (Hsok1 & Hin1 & Hle).
  destruct Hfine as [Hok|Hbuf].
  - rewrite Hok. cbn [Z.eqb Z_OK]. set (w1 := after_deflate w s Z_NO_FLUSH) in *. set (s1 := mkz_stream (z_state c) _ _) in *.
    destruct (IH w1 s1 Fed (input ++ take (Z.to_nat (z_read c)) (input_of s)) (output ++ z_written c))
      as (w' & s' & out & -> & Hg' & Hs' & Ha' & Hd'); [done|apply Hg|done|done|by left| | |].
    + rewrite Hin1. by apply Forall_drop.
    + rewrite Hin1. specialize (Hless Hok). unfold after_read in Hless. cbn. lia.
    + exists w', s', (z_written c ++ out). split; [done|]. split; [by eapply grown_trans|]. split; [done|]. split; [done|].
      rewrite Hin1, <- !app_assoc, take_drop in Hd'. exact Hd'.
  - rewrite Hbuf. cbn [Z.eqb Z_OK Z_BUF_ERROR]. specialize (Hall Hbuf).
    exists (after_deflate w s Z_NO_FLUSH). eexists _, (z_written c). split; [done|]. split; [done|]. split; [reflexivity|].
    pose proof (input_of_length s Hsok). cbn. split; [fold c; lia|]. rewrite take_ge in Hd1 by lia. exact Hd1.
Qed.

(** Flushing: the loop ends when the mark is written. *)
Lemma deflate_loop_flush fuel : ∀ w s p before input output,
  deflate_stream_ w = Some s → length (fixed_buffer_ w) = Z.to_nat kFixedBufferSize → input_of s = [] →
  deflating window_bits p (zs_state s) input output → may_flush p before →
  (deflate_calls (zs_state s) [] Z_SYNC_FLUSH < fuel)%nat →
  ∃ w' s' out front, deflate_loop fuel Z_SYNC_FLUSH w = Done (Z_BUF_ERROR, w') ∧ grown w w' out ∧
    deflate_stream_ w' = Some s' ∧ before ++ out = front ++ sync_mark ∧
    deflating window_bits Flushed (zs_state s') input (output ++ out).
Proof.
  induction fuel as [|fuel IH]; intros w s p before input output Hs Hf Hin Hd Hm Hfuel; [lia|].
  assert (6 < kFixedBufferSize) as Hroom by done.
  destruct (deflate_flush _ _ _ _ _ _ _ Hd Hm Hroom) as (Hbounds & Hfine & Hmark & Hless).
  pose proof (deflate_loop_step fuel Z_SYNC_FLUSH w s Hs Hf) as Hstep. rewrite Hin in Hstep.
  destruct (Hstep Hbounds) as [-> Hg].
  pose proof (deflating_flush _ _ _ _ _ _ _ Hd Hm Hroom) as Hd1.
  pose proof (deflating_flushed _ _ _ _ _ _ _ Hd Hm Hroom) as Hd2.
  set (c := deflate (zs_state s) [] kFixedBufferSize Z_SYNC_FLUSH) in *. cbv zeta in Hd1, Hd2. fold c in Hd1, Hd2.
  assert (deflate (zs_state s) (input_of s) kFixedBufferSize Z_SYNC_FLUSH = c) as Ec by (by rewrite Hin).
  destruct Hfine as [Hok|Hbuf].
  - rewrite Hok. cbn [Z.eqb Z_OK]. set (w1 := after_deflate w s Z_SYNC_FLUSH) in *.
    assert (z_read c = 0) as Hr0 by (destruct Hbounds as ([? ?] & _); cbn in *; lia).
    set (s1 := mkz_stream (z_state c) (drop (Z.to_nat (z_read c)) (next_in s)) (avail_in s - z_read c)).
    assert (deflate_stream_ w1 = Some s1) as Hs1 by (unfold w1, after_deflate; cbn; by rewrite Ec).
    destruct (IH w1 s1 (Flushing (before ++ z_written c)) (before ++ z_written c) input (output ++ z_written c))
      as (w' & s' & out & front & -> & Hg' & Hs' & Hfr & Hd'); [done|apply Hg| |by apply Hd1|by right| |].
    + unfold input_of, s1. cbn. rewrite Hr0, Z.sub_0_r. exact Hin.
    + specialize (Hless Hok). cbn. lia.
    + exists w', s', (z_written c ++ out), front. split; [done|]. split; [by eapply grown_trans|]. split; [done|].
      rewrite !app_assoc. by split.
  - rewrite Hbuf. cbn [Z.eqb Z_OK Z_BUF_ERROR]. destruct (Hmark Hbuf) as [front Hfr].
    exists (after_deflate w s Z_SYNC_FLUSH). eexists _, (z_written c), front. split; [done|]. split; [done|].
    split; [reflexivity|]. split; [done|]. cbn. rewrite Ec. by apply Hd2.
Qed.

Lemma Deflate_eq flush w s : deflate_stream_ w = Some s →
  Deflate flush w = deflate_loop (S (deflate_calls (zs_state s) (input_of s) flush)) flush w.
Proof. intros Hs. unfold Deflate, with_stream. by rewrite Hs. Qed.

Lemma deflater_AddBytes_spec w input output data size :
  deflater_ok w input output → 0 <= size <= Z.of_nat (length data) → size < 4294967296 → Forall byte_ok data →
  ∃ w' out, AddBytes data size w = Done (true, w') ∧ deflater_ok w' (input ++ take (Z.to_nat size) data) (output ++ out) ∧
    deflate_buffer_ w' = deflate_buffer_ w ++ out ∧ Forall byte_ok out ∧ mode_ w' = mode_ w ∧
    are_bytes_added_ w' = negb (size =? 0) || are_bytes_added_ w.
Proof.
  intros Hw Hsize Hlt Hb. unfold AddBytes. destruct (Z.eqb_spec size 0) as [->|Hne].
  { exists w, []. rewrite take_0, !app_nil_r. by split_and!. }
  destruct Hw as (s & Hs & Hf & Hd). unfold with_stream at 1. cbn [deflate_stream_ set_field]. rewrite Hs.
  set (s1 := mkz_stream (zs_state s) data (u32 size)).
  set (w1 := w <| are_bytes_added_ := true |> <| deflate_stream_ := Some s1 |>).
  assert (u32 size = size) as Eu by (apply u32_small; unfold is_u32, u32_max; lia).
  assert (input_of s1 = take (Z.to_nat size) data) as Ein by (unfold input_of, s1; cbn; by rewrite Eu).
  rewrite (Deflate_eq Z_NO_FLUSH w1 s1) by done.
  destruct (deflate_loop_feed (S (deflate_calls (zs_state s1) (input_of s1) Z_NO_FLUSH)) w1 s1
    (if are_bytes_added_ w then Fed else Flushed) input output) as (w' & s' & out & E & Hg & Hs' & Ha' & Hd');
    [done|done|unfold stream_ok; cbn; lia|done| |rewrite Ein; by apply Forall_take|lia|].
  { destruct (are_bytes_added_ w); [by left|right]. split; [done|]. rewrite Ein. intros E. apply (f_equal length) in E.
    rewrite length_take in E. cbn in E. lia. }
  rewrite E, Done_bind. unfold with_stream. rewrite Hs'.
  pass_DCHECK ltac:(rewrite Ha'; done). destruct Hg as (Hmode & Hadd & Hfix & Hbuf & Hbytes). rewrite Ein in Hd'.
  exists w', out. split; [done|]. cbn in Hadd. split; [|done]. exists s'. rewrite Hadd. done.
Qed.

Lemma ResetContext_spec w s input output :
  deflate_stream_ w = Some s → length (fixed_buffer_ w) = Z.to_nat kFixedBufferSize →
  deflating window_bits Flushed (zs_state s) input output →
  ∃ w', ResetContext w = Done w' ∧ deflater_ok w' input output ∧
    deflate_buffer_ w' = deflate_buffer_ w ∧ mode_ w' = mode_ w ∧ are_bytes_added_ w' = false ∧
    (mode_ w = DO_NOT_TAKE_OVER_CONTEXT → ∀ d0 input0 output0,
       deflating window_bits Flushed d0 input0 output0 → deflater_ok w' input0 output0).
Proof.
  intros Hs Hf Hd. unfold ResetContext, with_stream. rewrite Hs. destruct (mode_ w) eqn:Em; rewrite Done_bind.
  - eexists. split; [reflexivity|]. split.
    + eexists. split; [reflexivity|]. split; [done|]. cbn. by eapply deflating_reset.
    + cbn. rewrite Em. split; [done|]. split; [done|]. split; [done|]. intros _ d0 input0 output0 H0.
      eexists. split; [reflexivity|]. split; [done|]. cbn. by eapply deflating_reset.
  - eexists. split; [reflexivity|]. split; [by exists s|]. cbn. by rewrite Em.
Qed.

(** At the end of a message the output has everything but the mark. *)
Lemma deflater_Finish_spec w input output :
  deflater_ok w input output →
  ∃ w' front, Finish w = Done (true, w') ∧ deflater_ok w' input (output ++ front ++ sync_mark) ∧
    deflate_buffer_ w' = deflate_buffer_ w ++ front ∧ Forall byte_ok front ∧ mode_ w' = mode_ w ∧
    are_bytes_added_ w' = false ∧
    (mode_ w = DO_NOT_TAKE_OVER_CONTEXT → ∀ d0 input0 output0,
       deflating window_bits Flushed d0 input0 output0 → deflater_ok w' input0 output0).
Proof.
  intros (s & Hs & Hf & Hd). unfold Finish. destruct (are_bytes_added_ w) eqn:Ea; cbn [negb].
  - set (s1 := mkz_stream (zs_state s) [] 0). set (w1 := w <| deflate_stream_ := Some s1 |>).
    destruct (deflate_loop_flush (S (deflate_calls (zs_state s1) [] Z_SYNC_FLUSH)) w1 s1 Fed [] input output)
      as (w' & s' & out & front & E & Hg & Hs' & Hfr & Hd'); [done|done|done|done|by left|lia|].
    unfold with_stream. rewrite Hs. fold s1. fold w1. rewrite (Deflate_eq Z_SYNC_FLUSH w1 s1) by done.
    change (input_of s1) with (@nil Z). rewrite E, Done_bind. cbn [Z.eqb Z_BUF_ERROR Pos.eqb negb].
    destruct Hg as (Hmode & Hadd & Hfix & Hbuf & Hbytes). cbn in Hfr. subst out. apply Forall_app in Hbytes as [Hbytes _].
    assert (length sync_mark = 4%nat) as H4 by done.
    unfold CurrentOutputSize. rewrite Hbuf, !length_app, H4. rewrite (proj2 (Z.ltb_ge _ _)) by lia.
    set (w2 := w' <| deflate_buffer_ := _ |>).
    destruct (ResetContext_spec w2 s' input (output ++ front ++ sync_mark)) as (w3 & -> & H3 & Hb3 & Hm3 & Ha3 & Hr3);
      [done|done|done|].
    exists w3, front. split; [done|]. split; [done|]. rewrite Hb3, Hm3. cbn. rewrite Hmode.
    split_and!; try done.
    + rewrite app_assoc. apply take_app_length'. rewrite !length_app. lia.
    + intros Hm. apply Hr3. cbn. by rewrite Hmode.
  - set (w1 := w <| deflate_buffer_ := deflate_buffer_ w ++ [0] |>).
    destruct (ResetContext_spec w1 s input (output ++ [0] ++ sync_mark)) as (w2 & -> & H2 & Hb2 & Hm2 & Ha2 & Hr2);
      [done|done|by apply deflating_empty_block|].
    exists w2, [0]. rewrite Hb2, Hm2. cbn. split_and!; try done. by repeat constructor.
Qed.

Lemma GetOutput_all w input output :
  deflater_ok w input output →
  ∃ w', GetOutput (CurrentOutputSize w) w = (deflate_buffer_ w, w') ∧ deflater_ok w' input output ∧
    deflate_buffer_ w' = [] ∧ mode_ w' = mode_ w ∧ are_bytes_added_ w' = are_bytes_added_ w.
Proof.
  intros (s & Hs & Hf & Hd). unfold GetOutput, CurrentOutputSize. rewrite Z.min_id, Nat2Z.id, firstn_all, skipn_all.
  eexists. split; [reflexivity|]. split; [by exists s|done].
Qed.

Lemma deflater_Initialize_spec mode : 8 <= window_bits <= 15 →
  ∃ w, Initialize window_bits (new_WebSocketDeflater mode) = Done (true, w) ∧ deflater_ok w [] [] ∧
    deflate_buffer_ w = [] ∧ mode_ w = mode ∧ are_bytes_added_ w = false.
Proof.
  intros Hw. unfold Initialize. pass_DCHECK ltac:(done). pass_DCHECK ltac:(lia). pass_DCHECK ltac:(lia).
  pose proof (deflateInit2_ok window_bits Hw) as Hok. destruct (deflateInit2 (- window_bits)) as [r st] eqn:E.
  cbn in Hok. subst r. cbn [Z.eqb negb Z_OK]. eexists. split; [reflexivity|]. split; [|done].
  eexists. split; [reflexivity|]. split; [done|]. cbn. by apply deflating_init.
Qed.
End Compressing.

(** ** Messages *)

Section Messages.
Context {Hz : Zlib}.

(** A message is given in pieces; what it is compressed to is taken at its end.  [None]: a
    call failed. *)
Fixpoint add_pieces (pieces : list (list Z)) (w : WebSocketDeflater) : outcome (bool * WebSocketDeflater) :=
  match pieces with
  | [] => Done (true, w)
  | piece :: pieces =>
      r ← AddBytes piece (Z.of_nat (length piece)) w;
      if fst r : bool then add_pieces pieces (snd r) else Done (false, snd r)
  end.

Definition deflate_message (pieces : list (list Z)) (w : WebSocketDeflater) :
    outcome (option (list Z) * WebSocketDeflater) :=
  r ← add_pieces pieces w;
  if negb (fst r) then Done (None, snd r)
  else
    r ← Finish (snd r);
    if negb (fst r) then Done (None, snd r)
    else let '(payload, w) := GetOutput (CurrentOutputSize (snd r)) (snd r) in Done (Some payload, w).

Fixpoint deflate_messages (messages : list (list (list Z))) (w : WebSocketDeflater) :
    outcome (option (list (list Z)) * WebSocketDeflater) :=
  match messages with
  | [] => Done (Some [], w)
  | message :: messages =>
      r ← deflate_message message w;
      match r with
      | (None, w) => Done (None, w)
      | (Some payload, w) =>
          r ← deflate_messages messages w;
          Done (match fst r with Some payloads => Some (payload :: payloads) | None => None end, snd r)
      end
  end.

Definition piece_ok (piece : list Z) : Prop := Z.of_nat (length piece) < 4294967296 ∧ Forall byte_ok piece.
#[global] Instance piece_ok_dec piece : Decision (piece_ok piece).
Proof. unfold piece_ok, byte_ok. apply _. Defined.

(** What a receiver makes of payloads: it puts the marks back. *)
Definition with_marks (payloads : list (list Z)) : list Z := concat (map (λ p, p ++ sync_mark) payloads).

Context {Hl : ZlibLaws} (window_bits : Z).

Lemma add_pieces_spec pieces : ∀ w input output,
  deflater_ok window_bits w input output → Forall piece_ok pieces →
  ∃ w' out, add_pieces pieces w = Done (true, w') ∧ deflater_ok window_bits w' (input ++ concat pieces) (output ++ out) ∧
    deflate_buffer_ w' = deflate_buffer_ w ++ out ∧ mode_ w' = mode_ w.
Proof.
  induction pieces as [|piece pieces IH]; intros w input output Hw Hp; cbn [add_pieces concat].
  { exists w, []. by rewrite !app_nil_r. }
  apply Forall_cons_1 in Hp as [[Hlt Hb] Hp].
  destruct (deflater_AddBytes_spec window_bits w input output piece (Z.of_nat (length piece)) Hw ltac:(lia) Hlt Hb)
    as (w1 & out1 & -> & H1 & Hb1 & _ & Hm1 & _). rewrite Nat2Z.id, firstn_all in H1. rewrite Done_bind. cbn [fst snd].
  destruct (IH w1 _ _ H1 Hp) as (w2 & out2 & -> & H2 & Hb2 & Hm2).
  exists w2, (out1 ++ out2). rewrite Hb2, Hb1, <- !app_assoc in *. split_and!; [done|done|done|congruence].
Qed.

Lemma deflate_message_spec pieces w input output :
  deflater_ok window_bits w input output → deflate_buffer_ w = [] → Forall piece_ok pieces →
  ∃ payload w', deflate_message pieces w = Done (Some payload, w') ∧
    deflater_ok window_bits w' (input ++ concat pieces) (output ++ payload ++ sync_mark) ∧
    deflate_buffer_ w' = [] ∧ are_bytes_added_ w' = false.
Proof.
  intros Hw Hbuf Hp. unfold deflate_message.
  destruct (add_pieces_spec pieces w input output Hw Hp) as (w1 & out & -> & H1 & Hb1 & Hm1). rewrite Done_bind. cbn [fst snd negb].
  destruct (deflater_Finish_spec window_bits w1 _ _ H1) as (w2 & front & -> & H2 & Hb2 & _ & Hm2 & Ha2 & _). rewrite Done_bind. cbn [fst snd negb].
  destruct (GetOutput_all window_bits w2 _ _ H2) as (w3 & -> & H3 & Hb3 & _ & Ha3).
  rewrite Hb2, Hb1, Hbuf. cbn [app]. exists (out ++ front), w3. rewrite <- !app_assoc in *. split_and!; [done|done|done|congruence].
Qed.

Lemma deflate_messages_spec messages : ∀ w input output,
  deflater_ok window_bits w input output → deflate_buffer_ w = [] → are_bytes_added_ w = false →
  Forall (Forall piece_ok) messages →
  ∃ payloads w', deflate_messages messages w = Done (Some payloads, w') ∧ length payloads = length messages ∧
    ∀ k, ∃ d, deflating window_bits Flushed d (input ++ concat (map (@concat Z) (take k messages)))
                (output ++ with_marks (take k payloads)).
Proof.
  induction messages as [|message messages IH]; intros w input output Hw Hbuf Ha Hm; cbn [deflate_messages].
  { exists [], w. split; [done|]. split; [done|]. intros k. rewrite !take_nil. cbn. rewrite !app_nil_r.
    destruct Hw as (s & _ & _ & Hd). rewrite Ha in Hd. by eexists. }
  apply Forall_cons_1 in Hm as [Hm Hms].
  destruct (deflate_message_spec message w input output Hw Hbuf Hm) as (payload & w1 & -> & H1 & Hb1 & Ha1). rewrite Done_bind.
  destruct (IH w1 _ _ H1 Hb1 Ha1 Hms) as (payloads & w2 & -> & Hlen & Hk). rewrite Done_bind. cbn [fst snd].
  exists (payload :: payloads), w2. split; [done|]. split; [cbn; by rewrite Hlen|]. intros [|k].
  - cbn. rewrite !app_nil_r. destruct Hw as (s & _ & _ & Hd). rewrite Ha in Hd. by eexists.
  - destruct (Hk k) as [d Hd]. exists d. unfold with_marks in *. cbn. rewrite <- !app_assoc in *. exact Hd.
Qed.

(** [C23] The deflater compresses messages that can be told apart.  For any mode, any window
    and any messages in any pieces, no check fails and no call does.  The payloads of the
    first [k] messages, each with the mark behind it, are not corrupt, and decode to exactly
    the data of these messages, for every [k]: no message waits for the next. *)
Theorem Deflater_messages (mode : ContextTakeOverMode) (messages : list (list (list Z))) :
  8 <= window_bits <= 15 → Forall (Forall piece_ok) messages →
  ∃ payloads w,
    (r ← Initialize window_bits (new_WebSocketDeflater mode);
     deflate_messages messages (snd r)) = Done (Some payloads, w) ∧
    length payloads = length messages ∧
    ∀ k, let st := snd (inflateInit2 (-15)) in
      intact st (with_marks (take k payloads)) ∧
      inflated st (with_marks (take k payloads)) = concat (map (@concat Z) (take k messages)).
Proof.
  intros Hw Hm. destruct (deflater_Initialize_spec window_bits mode Hw) as (w0 & -> & H0 & Hb0 & _ & Ha0). rewrite Done_bind.
  destruct (deflate_messages_spec messages w0 [] [] H0 Hb0 Ha0 Hm) as (payloads & w & E & Hlen & Hk).
  exists payloads, w. split; [done|]. split; [done|]. intros k. destruct (Hk k) as [d Hd].
  by apply inflate_deflate in Hd.
Qed.
End Messages.

(** ** A concrete deflater *)

Definition example_pieces : list (list (list Z)) := [[[5; 5]; [5; 6]]; []; [[0]]].

Lemma example_payloads :
  (r ← Initialize (Hz := Runs.codec) 15 (new_WebSocketDeflater DO_NOT_TAKE_OVER_CONTEXT);
   r ← deflate_messages example_pieces (snd r); Done (fst r))
  = Done (Some [[2; 5; 1; 5; 1; 6; 0]; [0]; [1; 0; 0]]).
Proof. vm_compute. reflexivity. Qed.

Lemma Deflater_messages_witness :
  ∃ payloads w,
    (r ← Initialize (Hz := Runs.codec) 12 (new_WebSocketDeflater TAKE_OVER_CONTEXT);
     deflate_messages example_pieces (snd r)) = Done (Some payloads, w) ∧
    length payloads = length example_pieces ∧
    ∀ k, Runs.sound Runs.Start (with_marks (take k payloads)) ∧
      Runs.decoded Runs.Start (with_marks (take k payloads)) = concat (map (@concat Z) (take k example_pieces)).
Proof.
  apply (Deflater_messages (Hz := Runs.codec) (Hl := Runs.codec_laws) 12 TAKE_OVER_CONTEXT example_pieces).
  - split; discriminate.
  - apply (bool_decide_eq_true_1 _). vm_compute. reflexivity.
Defined.
