(* ===== verification/WebSocketDeflateStream.v ===== *)
(** * net/websockets/websocket_deflate_stream.{h,cc}: the stream of permessage-deflate

    [WebSocketDeflateStream] stands between a channel and another stream: it compresses the
    messages that are written and decompresses those that are read.  The other stream is
    what it answers: [reads] are the answers to calls of [ReadFrames] that come at once,
    behind which it has nothing; the answer to [WriteFrames] is an argument.  The predictor
    of websocket_deflate_predictor.h, which says whether to compress a message, is a type
    class; its only implementation in src/, websocket_deflate_predictor_impl.cc, is an instance. *)

From S2P Require Import Prelude Zlib WebSocketFrame WebSocketFrameParser WebSocketBasicStream WebSocketDeflateParameters WebSocketInflater WebSocketDeflater.

(** ** The predictor *)

Inductive Result : Type := DEFLATE | DO_NOT_DEFLATE | TRY_DEFLATE.

(** [Predict] sees the first frame of a message and those behind it in the vector; the
    entries in front of it are null by then. *)
Class WebSocketDeflatePredictor : Type := {
  predictor : Type;
  Predict : predictor → list WebSocketFrame → Result * predictor;
  RecordInputDataFrame : predictor → WebSocketFrame → predictor;
  RecordWrittenDataFrame : predictor → WebSocketFrame → predictor
}.

#[export] Instance WebSocketDeflatePredictorImpl : WebSocketDeflatePredictor := {|
  predictor := unit;
  Predict p _ := (DEFLATE, p);
  RecordInputDataFrame p _ := p;
  RecordWrittenDataFrame p _ := p
|}.

(** ** The stream *)

Definition kWindowBits : Z := 15.
Definition kChunkSize : Z := 4 * 1024.

Inductive ReadingState : Type := READING_COMPRESSED_MESSAGE | READING_UNCOMPRESSED_MESSAGE | NOT_READING.
Inductive WritingState : Type :=
  | WRITING_COMPRESSED_MESSAGE
  | WRITING_UNCOMPRESSED_MESSAGE
  | WRITING_POSSIBLY_COMPRESSED_MESSAGE
  | NOT_WRITING.
#[export] Instance ReadingState_eq_dec : EqDecision ReadingState.
Proof. solve_decision. Defined.
#[export] Instance WritingState_eq_dec : EqDecision WritingState.
Proof. solve_decision. Defined.

Section DeflateStream.
Context {Hz : Zlib} {Hp : WebSocketDeflatePredictor}.

Record WebSocketDeflateStream : Type := mkWebSocketDeflateStream {
  deflater_ : WebSocketDeflater;
  inflater_ : WebSocketInflater;
  reading_state_ : ReadingState;
  writing_state_ : WritingState;
  current_reading_opcode_ : OpCode;
  current_writing_opcode_ : OpCode;
  predictor_ : predictor
}.
#[global] Instance eta_WebSocketDeflateStream : Eta WebSocketDeflateStream := λ s,
  mkWebSocketDeflateStream (deflater_ s) (inflater_ s) (reading_state_ s) (writing_state_ s)
    (current_reading_opcode_ s) (current_writing_opcode_ s) (predictor_ s).

(** The constructor; it does not look at the results of [Initialize]. *)
Definition new_WebSocketDeflateStream (params : WebSocketDeflateParameters) (p : predictor) :
    outcome WebSocketDeflateStream :=
  inflater ← new_WebSocketInflater kChunkSize kChunkSize;
  valid ← IsValidAsResponse params;
  DCHECK (fst valid) ;;
  bits ← (if is_client_max_window_bits_specified params then
            has_value ← has_client_max_window_bits_value params;
            DCHECK has_value ;;
            client_max_window_bits params
          else Done 15);
  d ← WebSocketDeflater.Initialize bits (new_WebSocketDeflater (client_context_take_over_mode_ params));
  i ← WebSocketInflater.Initialize kWindowBits inflater;
  Done {| deflater_ := snd d; inflater_ := snd i; reading_state_ := NOT_READING; writing_state_ := NOT_WRITING;
          current_reading_opcode_ := kOpCodeText; current_writing_opcode_ := kOpCodeText; predictor_ := p |}.

(** The bytes that a method reads at [data]. *)
Definition payload_at (data : list Z) (size : Z) : outcome (list Z) :=
  DCHECK (size <=? Z.of_nat (length data)) ;; Done data.

(** *** Reading *)

(** The loop that makes frames of the output; the result is [OK] or an error.  It ends: see
    the theorems for the fuel. *)
Fixpoint output_frames (fuel : nat) (header : WebSocketFrameHeader) (frames_to_output : list WebSocketFrame)
    (s : WebSocketDeflateStream) : outcome (Z * list WebSocketFrame * WebSocketDeflateStream) :=
  if negb ((kChunkSize <=? WebSocketInflater.CurrentOutputSize (inflater_ s)) || final header)
  then Done (OK, frames_to_output, s)
  else
    match fuel with
    | O => DcheckFailed
    | S fuel =>
        let size := Z.min kChunkSize (WebSocketInflater.CurrentOutputSize (inflater_ s)) in
        r ← WebSocketInflater.GetOutput size (inflater_ s);
        let '(data, inflater) := r : option (list Z) * WebSocketInflater in
        let is_final := (WebSocketInflater.CurrentOutputSize inflater =? 0) && final header in
        match data with
        | None => Done (ERR_WS_PROTOCOL_ERROR, [], s <| inflater_ := inflater |>)
        | Some data =>
            let h := (CopyFrom header (new_WebSocketFrameHeader kOpCodeText))
                       <| opcode := current_reading_opcode_ s |> <| final := is_final |>
                       <| reserved1 := false |> <| payload_length := Z.of_nat (length data) |> in
            let frames_to_output := frames_to_output ++ [{| frame_header := h; frame_data := Some data |}] in
            let s := s <| inflater_ := inflater |> <| current_reading_opcode_ := kOpCodeContinuation |> in
            if is_final then Done (OK, frames_to_output, s) else output_frames fuel header frames_to_output s
        end
    end.

(** [AddBytes] of a frame, and [Finish] behind the last one. *)
Definition inflate_payload (frame : WebSocketFrame) (inflater : WebSocketInflater) :
    outcome (bool * WebSocketInflater) :=
  r ← match frame_data frame with
      | Some data =>
          data ← payload_at data (payload_length (frame_header frame));
          WebSocketInflater.AddBytes data (payload_length (frame_header frame)) inflater
      | None => Done (true, inflater)
      end;
  if negb (fst r) then Done (false, snd r)
  else if final (frame_header frame) then WebSocketInflater.Finish (snd r)
  else Done (true, snd r).

(** The frames of [frames_passed], in front of which are [frames_to_output]; with an error the
    vector is empty. *)
Fixpoint inflate_frames (frames_passed frames_to_output : list WebSocketFrame) (s : WebSocketDeflateStream) :
    outcome (Z * list WebSocketFrame * WebSocketDeflateStream) :=
  match frames_passed with
  | [] => Done (if bool_decide (frames_to_output = []) then ERR_IO_PENDING else OK, frames_to_output, s)
  | frame :: frames_passed =>
      let h := frame_header frame in
      if negb (IsKnownDataOpCode (opcode h)) then inflate_frames frames_passed (frames_to_output ++ [frame]) s
      else
        let first := bool_decide (reading_state_ s = NOT_READING) in
        if negb first && reserved1 h then Done (ERR_WS_PROTOCOL_ERROR, [], s)
        else
          let s := if first
                   then s <| reading_state_ := if reserved1 h then READING_COMPRESSED_MESSAGE
                                               else READING_UNCOMPRESSED_MESSAGE |>
                          <| current_reading_opcode_ := opcode h |>
                   else s in
          match reading_state_ s with
          | READING_UNCOMPRESSED_MESSAGE =>
              let s := if final h then s <| reading_state_ := NOT_READING |> else s in
              inflate_frames frames_passed (frames_to_output ++ [frame])
                (s <| current_reading_opcode_ := kOpCodeContinuation |>)
          | READING_COMPRESSED_MESSAGE =>
              r ← inflate_payload frame (inflater_ s);
              let s := s <| inflater_ := snd r |> in
              if negb (fst r) then Done (ERR_WS_PROTOCOL_ERROR, [], s)
              else
                o ← output_frames (S (length (potential (inflater_ s) []))) h frames_to_output s;
                let '(result, frames_to_output, s) := o : Z * list WebSocketFrame * WebSocketDeflateStream in
                if negb (result =? OK) then Done (result, [], s)
                else
                  let s := if final h then s <| reading_state_ := NOT_READING |> else s in
                  inflate_frames frames_passed frames_to_output s
          | NOT_READING => DcheckFailed
          end
  end.

Definition Inflate (frames : list WebSocketFrame) (s : WebSocketDeflateStream) :
    outcome (Z * list WebSocketFrame * WebSocketDeflateStream) := inflate_frames frames [] s.

(** The loop of [InflateAndReadIfNecessary], with the result of [Inflate]; the last component
    is what remains of [reads]. *)
Fixpoint read_if_necessary (reads : list (Z * list WebSocketFrame)) (result : Z) (frames : list WebSocketFrame)
    (s : WebSocketDeflateStream) :
    outcome (Z * list WebSocketFrame * WebSocketDeflateStream * list (Z * list WebSocketFrame)) :=
  if negb (result =? ERR_IO_PENDING) then Done (result, if result <? 0 then [] else frames, s, reads)
  else
    DCHECK (bool_decide (frames = [])) ;;
    match reads with
    | [] => Done (ERR_IO_PENDING, [], s, [])
    | (result, frames) :: reads =>
        if result <? 0 then Done (result, [], s, reads)
        else
          DCHECK (result =? OK) ;;
          DCHECK (negb (bool_decide (frames = []))) ;;
          r ← Inflate frames s;
          let '(result, frames, s) := r : Z * list WebSocketFrame * WebSocketDeflateStream in
          read_if_necessary reads result frames s
    end.

Definition InflateAndReadIfNecessary (frames : list WebSocketFrame) (reads : list (Z * list WebSocketFrame))
    (s : WebSocketDeflateStream) :
    outcome (Z * list WebSocketFrame * WebSocketDeflateStream * list (Z * list WebSocketFrame)) :=
  r ← Inflate frames s;
  let '(result, frames, s) := r : Z * list WebSocketFrame * WebSocketDeflateStream in
  read_if_necessary reads result frames s.

Definition ReadFrames (reads : list (Z * list WebSocketFrame)) (s : WebSocketDeflateStream) :
    outcome (Z * list WebSocketFrame * WebSocketDeflateStream * list (Z * list WebSocketFrame)) :=
  match reads with
  | [] => Done (ERR_IO_PENDING, [], s, [])
  | (result, frames) :: reads =>
      if result <? 0 then Done (result, frames, s, reads)
      else
        DCHECK (result =? OK) ;;
        DCHECK (negb (bool_decide (frames = []))) ;;
        InflateAndReadIfNecessary frames reads s
  end.

(** A read of the other stream that was pending completes.  The result is that of the callback,
    which is not run if it is [ERR_IO_PENDING]. *)
Definition OnReadComplete (result : Z) (frames : list WebSocketFrame) (reads : list (Z * list WebSocketFrame))
    (s : WebSocketDeflateStream) :
    outcome (Z * list WebSocketFrame * WebSocketDeflateStream * list (Z * list WebSocketFrame)) :=
  if negb (result =? OK) then Done (result, [], s, reads)
  else InflateAndReadIfNecessary frames reads s.

(** *** Writing *)

(** [frames] are the frame that starts a message and those behind it. *)
Definition OnMessageStart (frames : list WebSocketFrame) (s : WebSocketDeflateStream) :
    outcome WebSocketDeflateStream :=
  match frames with
  | [] => DcheckFailed
  | frame :: _ =>
      let s := s <| current_writing_opcode_ := opcode (frame_header frame) |> in
      DCHECK ((current_writing_opcode_ s =? kOpCodeText) || (current_writing_opcode_ s =? kOpCodeBinary)) ;;
      let '(prediction, p) := Predict (predictor_ s) frames in
      let s := s <| predictor_ := p |> in
      Done match prediction with
           | DEFLATE => s <| writing_state_ := WRITING_COMPRESSED_MESSAGE |>
           | DO_NOT_DEFLATE => s <| writing_state_ := WRITING_UNCOMPRESSED_MESSAGE |>
           | TRY_DEFLATE => s <| writing_state_ := WRITING_POSSIBLY_COMPRESSED_MESSAGE |>
           end
  end.

Definition record_written (frame : WebSocketFrame) (s : WebSocketDeflateStream) : WebSocketDeflateStream :=
  s <| predictor_ := RecordWrittenDataFrame (predictor_ s) frame |>.

(** The output of the deflater is never null, so this returns [OK]. *)
Definition AppendCompressedFrame (header : WebSocketFrameHeader) (frames_to_write : list WebSocketFrame)
    (s : WebSocketDeflateStream) : list WebSocketFrame * WebSocketDeflateStream :=
  let op := current_writing_opcode_ s in
  let '(compressed_payload, deflater) :=
    WebSocketDeflater.GetOutput (WebSocketDeflater.CurrentOutputSize (deflater_ s)) (deflater_ s) in
  let h := (CopyFrom header (new_WebSocketFrameHeader op))
             <| opcode := op |> <| final := final header |>
             <| reserved1 := negb (op =? kOpCodeContinuation) |>
             <| payload_length := Z.of_nat (length compressed_payload) |> in
  let compressed := {| frame_header := h; frame_data := Some compressed_payload |} in
  let s := s <| deflater_ := deflater |> <| current_writing_opcode_ := kOpCodeContinuation |> in
  (frames_to_write ++ [compressed], record_written compressed s).

(** The loop of [AppendPossiblyCompressedMessage] that checks the frames and adds their
    lengths; [first] at the first one. *)
Fixpoint original_length (first : bool) (frames : list WebSocketFrame) (original_payload_length : Z) : outcome Z :=
  match frames with
  | [] => Done original_payload_length
  | frame :: frames =>
      DCHECK (IsKnownDataOpCode (opcode (frame_header frame))) ;;
      DCHECK (Bool.eqb first (negb (kOpCodeContinuation =? opcode (frame_header frame)))) ;;
      DCHECK (Bool.eqb (bool_decide (frames = [])) (final (frame_header frame))) ;;
      original_length false frames (u64 (original_payload_length + payload_length (frame_header frame)))
  end.

Definition AppendPossiblyCompressedMessage (frames frames_to_write : list WebSocketFrame)
    (s : WebSocketDeflateStream) : outcome (list WebSocketFrame * WebSocketDeflateStream) :=
  match frames with
  | [] => DcheckFailed
  | frame :: _ =>
      let op := current_writing_opcode_ s in
      let '(compressed_payload, deflater) :=
        WebSocketDeflater.GetOutput (WebSocketDeflater.CurrentOutputSize (deflater_ s)) (deflater_ s) in
      let s := s <| deflater_ := deflater |> in
      original_payload_length ← original_length true frames 0;
      if original_payload_length <=? Z.of_nat (length compressed_payload) then
        Done (frames_to_write ++ frames, fold_left (λ s frame, record_written frame s) frames s)
      else
        let h := (CopyFrom (frame_header frame) (new_WebSocketFrameHeader op))
                   <| opcode := op |> <| final := true |> <| reserved1 := true |>
                   <| payload_length := Z.of_nat (length compressed_payload) |> in
        let compressed := {| frame_header := h; frame_data := Some compressed_payload |} in
        Done (frames_to_write ++ [compressed], record_written compressed s)
  end.

Definition deflate_payload (frame : WebSocketFrame) (deflater : WebSocketDeflater) :
    outcome (bool * WebSocketDeflater) :=
  r ← match frame_data frame with
      | Some data =>
          data ← payload_at data (payload_length (frame_header frame));
          WebSocketDeflater.AddBytes data (payload_length (frame_header frame)) deflater
      | None => Done (true, deflater)
      end;
  if negb (fst r) then Done (false, snd r)
  else if final (frame_header frame) then WebSocketDeflater.Finish (snd r)
  else Done (true, snd r).

(** The loop of [Deflate]; with an error nothing is to be written. *)
Fixpoint deflate_frames (frames frames_to_write frames_of_message : list WebSocketFrame)
    (s : WebSocketDeflateStream) : outcome (Z * list WebSocketFrame * WebSocketDeflateStream) :=
  match frames with
  | [] =>
      DCHECK (negb (bool_decide (writing_state_ s = WRITING_POSSIBLY_COMPRESSED_MESSAGE))) ;;
      Done (OK, frames_to_write, s)
  | frame :: frames' =>
      let h := frame_header frame in
      DCHECK (negb (reserved1 h)) ;;
      if negb (IsKnownDataOpCode (opcode h)) then
        deflate_frames frames' (frames_to_write ++ [frame]) frames_of_message s
      else
        s ← (if bool_decide (writing_state_ s = NOT_WRITING) then OnMessageStart frames s else Done s);
        let s := s <| predictor_ := RecordInputDataFrame (predictor_ s) frame |> in
        if bool_decide (writing_state_ s = WRITING_UNCOMPRESSED_MESSAGE) then
          let s := if final h then s <| writing_state_ := NOT_WRITING |> else s in
          let s := record_written frame s in
          deflate_frames frames' (frames_to_write ++ [frame]) frames_of_message
            (s <| current_writing_opcode_ := kOpCodeContinuation |>)
        else
          r ← deflate_payload frame (deflater_ s);
          let s := s <| deflater_ := snd r |> in
          if negb (fst r) then Done (ERR_WS_PROTOCOL_ERROR, [], s)
          else if bool_decide (writing_state_ s = WRITING_COMPRESSED_MESSAGE) then
            let '(frames_to_write, s) :=
              if (kChunkSize <=? WebSocketDeflater.CurrentOutputSize (deflater_ s)) || final h
              then AppendCompressedFrame h frames_to_write s else (frames_to_write, s) in
            let s := if final h then s <| writing_state_ := NOT_WRITING |> else s in
            deflate_frames frames' frames_to_write frames_of_message s
          else
            DCHECK (bool_decide (writing_state_ s = WRITING_POSSIBLY_COMPRESSED_MESSAGE)) ;;
            let frames_of_message := frames_of_message ++ [frame] in
            if final h then
              r ← AppendPossiblyCompressedMessage frames_of_message frames_to_write s;
              deflate_frames frames' (fst r) [] ((snd r) <| writing_state_ := NOT_WRITING |>)
            else deflate_frames frames' frames_to_write frames_of_message s
  end.

Definition Deflate (frames : list WebSocketFrame) (s : WebSocketDeflateStream) :
    outcome (Z * list WebSocketFrame * WebSocketDeflateStream) := deflate_frames frames [] [] s.

(** [answer] is that of the other stream, which is given the frames of the second component. *)
Definition WriteFrames (frames : list WebSocketFrame) (answer : Z) (s : WebSocketDeflateStream) :
    outcome (Z * list WebSocketFrame * WebSocketDeflateStream) :=
  r ← Deflate frames s;
  let '(result, frames, s) := r : Z * list WebSocketFrame * WebSocketDeflateStream in
  if negb (result =? OK) then Done (result, [], s)
  else if bool_decide (frames = []) then Done (OK, [], s)
  else Done (answer, frames, s).
End DeflateStream.

(** ** A stream that starts *)

Section Start.
Context {Hz : Zlib} {Hl : ZlibLaws} {Hp : WebSocketDeflatePredictor}.

(** The numbers of bits that the constructor takes are those that zlib allows. *)
Lemma response_bits params message : IsValidAsResponse params = Done (true, message) →
  8 <= PermissiveClientMaxWindowBits params <= 15 ∧
  (is_client_max_window_bits_specified params = true → has_value (client_max_window_bits_ params) = true).
Proof.
  unfold IsValidAsResponse, is_client_max_window_bits_specified, PermissiveClientMaxWindowBits, PermissiveBits.
  intros H. apply bind_done in H as ([] & _ & H). destruct (is_specified _); [|done].
  destruct (has_value _); [|done]. cbn in H. apply bind_done in H as ([] & H & _).
  apply DCHECK_done, IsValid_spec in H. done.
Qed.

(** Both directions are open, and nothing has gone through them. *)
Lemma new_stream_spec params message p : IsValidAsResponse params = Done (true, message) →
  ∃ s, new_WebSocketDeflateStream params p = Done s ∧
    reading_state_ s = NOT_READING ∧ writing_state_ s = NOT_WRITING ∧ predictor_ s = p ∧
    IsKnownDataOpCode (current_reading_opcode_ s) = true ∧
    steady (inflater_ s) ∧
    (∀ more, potential (inflater_ s) more = inflated (snd (inflateInit2 (-15))) more ∧
             (promising (inflater_ s) more ↔ intact (snd (inflateInit2 (-15))) more)) ∧
    deflater_ok (PermissiveClientMaxWindowBits params) (deflater_ s) [] [] ∧
    deflate_buffer_ (deflater_ s) = [] ∧ are_bytes_added_ (deflater_ s) = false ∧
    mode_ (deflater_ s) = client_context_take_over_mode_ params.
Proof.
  intros Hv. destruct (response_bits _ _ Hv) as [Hbits Hval]. unfold new_WebSocketDeflateStream.
  destruct (inflater_Initialize_spec kChunkSize kChunkSize kWindowBits) as (i & Ei & Hpot & Hst & _); [done|done|done|].
  apply bind_done in Ei as (i0 & -> & Ei). rewrite Done_bind, Hv, Done_bind. cbn [fst]. rewrite DCHECK_true_bind.
  set (bits := if is_client_max_window_bits_specified params then _ else _).
  assert (bits = Done (PermissiveClientMaxWindowBits params)) as ->.
  { subst bits. unfold client_max_window_bits, has_client_max_window_bits_value, PermissiveClientMaxWindowBits, PermissiveBits.
    unfold is_client_max_window_bits_specified in *. destruct (is_specified _); [|done]. by rewrite Hval. }
  destruct (deflater_Initialize_spec (PermissiveClientMaxWindowBits params) (client_context_take_over_mode_ params) Hbits)
    as (d & Ed & Hd & Hbuf & Hm & Ha). rewrite Done_bind, Ed, Done_bind, Ei, Done_bind. eexists. by split_and!.
Qed.
End Start.
