(* ===== verification/WebSocketDeflateReading.v ===== *)
(** * The frames that the stream of permessage-deflate gives out

    What a caller of [ReadFrames] gets: frames that are as websocket_stream.h promises, and
    that carry the messages that were compressed, whatever the frames that arrive and
    whatever the sizes of the buffers make of their boundaries. *)

From S2P Require Import Prelude Zlib WebSocketFrame WebSocketFrameParser WebSocketBasicStream WebSocketMessages WebSocketInflater WebSocketDeflateParameters WebSocketDeflater WebSocketDeflateStream WebSocketChannelState WebSocketChannel WebSocketChannelLog.

(** ** One frame more *)

(** A data message that is being given out: its start, the opcode of its next frame, and
    what of it is out. *)
Definition assembling (op : OpCode) (start : message_start) (given : list Z) (open : option (message_start * list Z)) : Prop :=
  if op =? kOpCodeContinuation then open = Some (start, given)
  else IsKnownDataOpCode op = true ∧ open = None ∧ given = [] ∧ start = (op, false, false, false).

Lemma assembling_known op start given open : assembling op start given open → IsKnownDataOpCode op = true.
Proof. unfold assembling. destruct (Z.eqb_spec op kOpCodeContinuation) as [->|]; [done|by intros [? _]]. Qed.

Lemma assembling_next start given : assembling kOpCodeContinuation start given (Some (start, given)).
Proof. done. Qed.

Lemma deliver_app frames frames' : deliver (frames ++ frames') = fold_left deliver_frame frames' (deliver frames).
Proof. apply fold_left_app. Qed.

Lemma deliver_assembled messages op start given open h data :
  assembling op start given open → opcode h = op → reserved1 h = false → reserved2 h = false → reserved3 h = false →
  deliver_frame (Some (messages, open)) (h, data) =
    Some (if final h then (messages ++ [DataMessage start (given ++ data)], None)
          else (messages, Some (start, given ++ data))).
Proof.
  intros Ha Ho H1 H2 H3. pose proof (assembling_known _ _ _ _ Ha) as Hk. unfold deliver_frame. cbn.
  rewrite Ho, (data_not_control op Hk). unfold assembling in Ha.
  destruct (Z.eqb_spec op kOpCodeContinuation) as [->|Hne]; [by rewrite Ha; cbn; destruct (final h)|].
  destruct Ha as (_ & -> & -> & ->). rewrite Hk. cbn. unfold start_of. rewrite Ho, H1, H2, H3. by destruct (final h).
Qed.

Section Reading.
Context {Hz : Zlib} {Hp : WebSocketDeflatePredictor} {Hl : ZlibLaws}.

(** ** The loop that makes frames *)

(** What the loop does with [header]: either the input is corrupt, or the frames it adds carry
    [given]. *)
Definition adds_frames (header : WebSocketFrameHeader) (s s' : WebSocketDeflateStream) (new : list WebSocketFrame)
    (given : list Z) : Prop :=
  steady (inflater_ s') ∧ turns (inflater_ s) [] (inflater_ s') given ∧
  reading_state_ s' = reading_state_ s ∧ IsKnownDataOpCode (current_reading_opcode_ s') = true ∧
  Forall stream_frame_ok new ∧ (final header = true → new ≠ [] ∧ potential (inflater_ s') [] = []) ∧
  (reserved2 header = false → reserved3 header = false → ∀ messages start before open,
     assembling (current_reading_opcode_ s) start before open → ∃ open',
     fold_left deliver_frame (map content new) (Some (messages, open)) =
       Some (if final header then (messages ++ [DataMessage start (before ++ given)], None) else (messages, open')) ∧
     assembling (current_reading_opcode_ s') start (before ++ given) open').

Definition loop_result (header : WebSocketFrameHeader) (out : list WebSocketFrame) (s : WebSocketDeflateStream)
    (o : outcome (Z * list WebSocketFrame * WebSocketDeflateStream)) : Prop :=
  ∃ r frames s', o = Done (r, frames, s') ∧
    ((r = ERR_WS_PROTOCOL_ERROR ∧ frames = [] ∧ ¬ promising (inflater_ s) []) ∨
     (r = OK ∧ ∃ new given, frames = out ++ new ∧ adds_frames header s s' new given)).

(** The frame that one turn of the loop makes. *)
Definition made_frame (header : WebSocketFrameHeader) (op : OpCode) (is_final : bool) (data : list Z) : WebSocketFrame :=
  {| frame_header := (CopyFrom header (new_WebSocketFrameHeader kOpCodeText))
       <| opcode := op |> <| final := is_final |> <| reserved1 := false |> <| payload_length := Z.of_nat (length data) |>;
     frame_data := Some data |}.

Lemma made_frame_ok header op is_final data :
  IsKnownDataOpCode op = true → Z.of_nat (length data) <= kChunkSize → Forall byte_ok data →
  stream_frame_ok (made_frame header op is_final data).
Proof.
  intros Hop Hlen Hby. unfold stream_frame_ok. cbn. rewrite (data_not_control op Hop).
  unfold data_size, kChunkSize, INT64_MAX in *. cbn. split_and!; [done|done|lia|done].
Qed.

Lemma made_frame_delivers header op is_final data messages start before open :
  reserved2 header = false → reserved3 header = false → assembling op start before open →
  deliver_frame (Some (messages, open)) (content (made_frame header op is_final data)) =
    Some (if is_final then (messages ++ [DataMessage start (before ++ data)], None)
          else (messages, Some (start, before ++ data))).
Proof. intros H2 H3 Ha. unfold content. cbn [made_frame frame_data default]. by rewrite (deliver_assembled _ _ _ _ _ _ _ Ha). Qed.

(** One frame and the frames behind it. *)
Lemma adds_one header s w data s2 new given :
  IsKnownDataOpCode (current_reading_opcode_ s) = true → Z.of_nat (length data) <= kChunkSize → Forall byte_ok data →
  turns (inflater_ s) [] w data →
  let s1 := s <| inflater_ := w |> <| current_reading_opcode_ := kOpCodeContinuation |> in
  adds_frames header s1 s2 new given →
  adds_frames header s s2 (made_frame header (current_reading_opcode_ s) false data :: new) (data ++ given).
Proof.
  intros Hop Hlen Hby Ht s1 (Hw & Ht' & Er & Ho' & Hok & Hfin & Hdel). unfold adds_frames. split_and!; try done.
  - exact (turns_trans _ _ _ _ _ _ _ Ht Ht').
  - constructor; [by apply made_frame_ok|done].
  - intros Hf. split; [done|]. by apply Hfin.
  - intros H2 H3 ms start before open Ha. cbn [map fold_left].
    rewrite (made_frame_delivers _ _ _ _ _ _ _ _ H2 H3 Ha).
    rewrite app_assoc. apply Hdel; [done|done|apply assembling_next].
Qed.

Lemma adds_last header s w data :
  IsKnownDataOpCode (current_reading_opcode_ s) = true → Z.of_nat (length data) <= kChunkSize → Forall byte_ok data →
  turns (inflater_ s) [] w data → steady w → WebSocketInflater.CurrentOutputSize w = 0 → final header = true →
  adds_frames header s (s <| inflater_ := w |> <| current_reading_opcode_ := kOpCodeContinuation |>)
    [made_frame header (current_reading_opcode_ s) true data] data.
Proof.
  intros Hop Hlen Hby Ht Hw H0 Hf. unfold adds_frames. split_and!; try done.
  - constructor; [by apply made_frame_ok|constructor].
  - intros _. split; [done|]. by apply steady_dry.
  - intros H2 H3 ms start before open Ha. eexists. rewrite Hf. split; [|apply assembling_next].
    cbn [map fold_left]. by rewrite (made_frame_delivers _ _ _ _ _ _ _ _ H2 H3 Ha).
Qed.

(** With input that is all read and a last frame, an inflater without output stays without. *)
Lemma output_left w size data w' header :
  steady w → turns w [] w' data → steady w' →
  (kChunkSize <=? WebSocketInflater.CurrentOutputSize w) || final header = true →
  (WebSocketInflater.CurrentOutputSize w' =? 0) && final header = false →
  size = Z.min kChunkSize (WebSocketInflater.CurrentOutputSize w) →
  0 <= WebSocketInflater.CurrentOutputSize w' →
  0 < WebSocketInflater.CurrentOutputSize w ∧ 0 < size.
Proof.
  intros Hw Ht Hw' Hgo Hnf -> Hnn. assert (0 < kChunkSize) by done.
  destruct (Z.ltb_spec 0 (WebSocketInflater.CurrentOutputSize w)) as [|Hle]; [lia|]. exfalso.
  assert (final header = true) as Hf.
  { apply orb_true_iff in Hgo as [Hgo|]; [apply Z.leb_le in Hgo; lia|done]. }
  rewrite Hf, andb_true_r in Hnf. apply Z.eqb_neq in Hnf.
  assert (WebSocketInflater.CurrentOutputSize w = 0) as H0.
  { destruct Hw as (x & _ & Hb & _). unfold WebSocketInflater.CurrentOutputSize in *. rewrite (Size_contents _ Hb) in *. lia. }
  pose proof (steady_dry w Hw H0) as Hp0. destruct (Ht []) as [Hp1 _]. cbn [app] in Hp1. rewrite Hp0 in Hp1.
  pose proof (steady_size w' [] Hw') as Hs. symmetry in Hp1. apply app_eq_nil in Hp1 as [_ Hp1]. rewrite Hp1 in Hs. cbn in Hs. lia.
Qed.

Lemma steady_nonneg w : steady w → 0 <= WebSocketInflater.CurrentOutputSize w.
Proof.
  intros (x & _ & Hb & _). unfold WebSocketInflater.CurrentOutputSize. rewrite (Size_contents _ Hb). lia.
Qed.

Lemma output_frames_spec fuel : ∀ header out s,
  steady (inflater_ s) → IsKnownDataOpCode (current_reading_opcode_ s) = true →
  (length (potential (inflater_ s) []) < fuel)%nat →
  loop_result header out s (output_frames fuel header out s).
Proof.
  induction fuel as [|fuel IH]; intros header out s Hst Hop Hfuel; [lia|]. cbn [output_frames].
  destruct (orb _ _) eqn:Ego; cbn [negb]; cycle 1.
  { apply orb_false_iff in Ego as [_ Ef]. eexists _, _, _. split; [reflexivity|]. right. split; [done|].
    exists [], []. rewrite app_nil_r. split; [done|]. unfold adds_frames. rewrite Ef.
    split_and!; try done. intros _ _ ms start before open Ha. rewrite app_nil_r. by exists open. }
  set (size := Z.min kChunkSize (WebSocketInflater.CurrentOutputSize (inflater_ s))).
  pose proof (steady_nonneg _ Hst) as Hnn.
  destruct (inflater_GetOutput_spec (inflater_ s) size Hst) as (r & w & -> & H); [unfold size, kChunkSize; lia|].
  rewrite Done_bind. destruct r as [data|]; [|eexists _, _, _; split; [reflexivity|by left]].
  destruct H as (Hby & Hw & Ht & Hlen & Hshort & Hpos). cbv zeta.
  fold (made_frame header (current_reading_opcode_ s) ((WebSocketInflater.CurrentOutputSize w =? 0) && final header) data).
  assert (Z.of_nat (length data) <= kChunkSize) as Hlen' by (unfold size in Hlen; lia).
  destruct (andb _ _) eqn:Efin.
  { apply andb_true_iff in Efin as [E0 Ef]. apply Z.eqb_eq in E0. eexists _, _, _. split; [reflexivity|]. right.
    split; [done|]. eexists _, data. split; [reflexivity|]. by apply adds_last. }
  destruct (output_left _ size _ _ _ Hst Ht Hw Ego Efin eq_refl (steady_nonneg _ Hw)) as [Hcur Hsize].
  set (s1 := s <| inflater_ := w |> <| current_reading_opcode_ := kOpCodeContinuation |>).
  destruct (IH header (out ++ [made_frame header (current_reading_opcode_ s) false data]) s1)
    as (r & frames & s2 & -> & Hr); [exact Hw|done| |].
  { destruct (Ht []) as [Hp1 _]. cbn [app] in Hp1. rewrite Hp1, length_app in Hfuel. specialize (Hpos Hcur Hsize).
    apply nonempty_length in Hpos. cbn. lia. }
  eexists _, _, _. split; [reflexivity|]. destruct Hr as [(-> & -> & Hc)|(-> & new & given & -> & Hadd)]; [left|right].
  - split; [done|]. split; [done|]. exact (turns_promising _ _ _ _ _ Ht Hc).
  - split; [done|]. eexists _, _. split; [by rewrite <- app_assoc|]. by eapply adds_one.
Qed.

(** ** One frame that arrives *)

(** What the other stream promises; [AddBytes] takes no more than an [avail_in] can count. *)
Definition inner_frame_ok (f : WebSocketFrame) : Prop :=
  stream_frame_ok f ∧ payload_length (frame_header f) < 4294967296.

(** What a frame of a compressed message adds to the input of the inflater. *)
Definition payload (f : WebSocketFrame) : list Z := default [] (frame_data f).
Definition mark_of (f : WebSocketFrame) : list Z := if final (frame_header f) then sync_mark else [].

Lemma promising_prefix w input more : promising w (input ++ more) → promising w input.
Proof.
  unfold promising. destruct (WebSocketInflater.stream_ w); [|done]. rewrite app_assoc. apply intact_prefix.
Qed.

Lemma inflate_payload_spec f w :
  inner_frame_ok f → steady w →
  ∃ ok w', inflate_payload f w = Done (ok, w') ∧
    (ok = true → steady w' ∧ turns w (payload f ++ mark_of f) w' []) ∧
    (ok = false → ¬ promising w (payload f ++ mark_of f)).
Proof.
  intros [(_ & Hlen & _) Hlt] Hw. unfold inflate_payload, payload.
  assert (∃ ok w', match frame_data f with
      | Some data =>
          data ← payload_at data (payload_length (frame_header f));
          WebSocketInflater.AddBytes data (payload_length (frame_header f)) w
      | None => Done (true, w)
      end = Done (ok, w') ∧ (ok = true → steady w' ∧ turns w (default [] (frame_data f)) w' []) ∧
      (ok = false → ¬ promising w (default [] (frame_data f)))) as (ok & w1 & -> & H1 & H1').
  { destruct (frame_data f) as [data|]; cbn [default]; [|by exists true, w].
    unfold data_size in Hlen. cbn in Hlen. unfold payload_at. rewrite Hlen in *. pass_DCHECK ltac:(apply Z.leb_le; lia).
    rewrite Done_bind. unfold id. pose proof (inflater_AddBytes_spec w data (Z.of_nat (length data)) Hw) as HA.
    rewrite Nat2Z.id, firstn_all in HA. apply HA; lia. }
  rewrite Done_bind. cbn [fst snd]. destruct ok; cbn [negb].
  - destruct (H1 eq_refl) as [Hw1 Ht1]. unfold mark_of. destruct (final (frame_header f)).
    + unfold WebSocketInflater.Finish.
      destruct (inflater_AddBytes_spec w1 sync_mark 4 Hw1) as (ok & w2 & -> & H2 & H2'); [done|done|]. exists ok, w2.
      split; [done|]. change (take (Z.to_nat 4) sync_mark) with sync_mark in *. split.
      * intros E. destruct (H2 E) as [Hw2 Ht2]. split; [done|]. exact (turns_trans _ _ _ _ _ _ _ Ht1 Ht2).
      * intros E. apply (turns_promising _ _ _ _ _ Ht1). by apply H2'.
    + exists true, w1. rewrite app_nil_r. by split_and!.
  - exists false, w1. split; [done|]. split; [done|]. intros _ Hp'. apply (H1' eq_refl). by eapply promising_prefix.
Qed.

(** ** No frame is against the contract *)

Definition reading_ok (s : WebSocketDeflateStream) : Prop :=
  steady (inflater_ s) ∧ IsKnownDataOpCode (current_reading_opcode_ s) = true.

(** An error has no frames, and [ERR_IO_PENDING] has none. *)
Definition inflated_ok (r : Z) (frames : list WebSocketFrame) (s : WebSocketDeflateStream) : Prop :=
  r = ERR_WS_PROTOCOL_ERROR ∧ frames = [] ∨
  r = (if bool_decide (frames = []) then ERR_IO_PENDING else OK) ∧ Forall stream_frame_ok frames ∧ reading_ok s.

Lemma inflate_frames_ok frames : ∀ out s,
  reading_ok s → Forall inner_frame_ok frames → Forall stream_frame_ok out →
  ∃ r out' s', inflate_frames frames out s = Done (r, out', s') ∧ inflated_ok r out' s'.
Proof.
  induction frames as [|f frames IH]; intros out s Hs Hf Hout; cbn [inflate_frames].
  { eexists _, _, _. split; [reflexivity|]. by right. }
  apply Forall_cons_1 in Hf as [Hf Hfs]. assert (Forall stream_frame_ok (out ++ [f])) as Hout'.
  { apply Forall_app. split; [done|]. constructor; [apply Hf|constructor]. }
  destruct (IsKnownDataOpCode (opcode (frame_header f))) eqn:Ek; cbn [negb]; [|by apply IH].
  destruct (negb _ && _); [by eexists _, _, _; split; [reflexivity|left]|].
  set (s1 := if bool_decide (reading_state_ s = NOT_READING) then _ else s).
  assert (reading_ok s1 ∧ reading_state_ s1 ≠ NOT_READING) as [Hs1 Hr1].
  { subst s1. case_bool_decide; [|done]. split; [split; [apply Hs|exact Ek]|]. cbn. by destruct (reserved1 _). }
  destruct Hs1 as [Hst Hop]. destruct (reading_state_ s1); [|apply IH; [|done|done]|done].
  - destruct (inflate_payload_spec f (inflater_ s1) Hf Hst) as (ok & w & -> & Hok & _). rewrite Done_bind. cbn [fst snd].
    destruct ok; cbn [negb]; [|by eexists _, _, _; split; [reflexivity|left]]. destruct (Hok eq_refl) as [Hw _].
    set (s1' := s1 <| inflater_ := w |>).
    destruct (output_frames_spec (S (length (potential (inflater_ s1') []))) (frame_header f) out s1')
      as (r & frames1 & s2 & -> & Hr); [done|done|lia|]. rewrite Done_bind. cbv beta iota zeta.
    destruct Hr as [(-> & -> & _)|(-> & new & given & -> & Hw2 & _ & _ & Ho2 & Hnew & _)].
    + by eexists _, _, _; split; [reflexivity|left].
    + cbn [Z.eqb OK negb]. apply IH; [|done|by apply Forall_app]. by destruct (final (frame_header f)).
  - by destruct (final (frame_header f)).
Qed.

Definition inner_read_ok (r : Z * list WebSocketFrame) : Prop :=
  r.1 ≠ ERR_IO_PENDING ∧ read_ok r ∧ (r.1 = OK → Forall (λ f, payload_length (frame_header f) < 4294967296) r.2).

Lemma inner_frames frames : inner_read_ok (OK, frames) → frames ≠ [] ∧ Forall inner_frame_ok frames.
Proof.
  intros (_ & [_ H] & H'). destruct (H eq_refl) as [Hne Hf]. specialize (H' eq_refl). split; [done|].
  cbn in *. clear Hne H. induction frames as [|f frames IH]; [constructor|].
  apply Forall_cons_1 in Hf as [? ?]. apply Forall_cons_1 in H' as [? ?]. constructor; [by split|by apply IH].
Qed.

(** What a call gives its caller, and what it leaves. *)
Definition read_answer (o : outcome (Z * list WebSocketFrame * WebSocketDeflateStream * list (Z * list WebSocketFrame))) : Prop :=
  ∃ r frames s rest, o = Done (r, frames, s, rest) ∧ read_ok (r, frames) ∧
    (r = OK ∨ r = ERR_IO_PENDING → reading_ok s) ∧ Forall inner_read_ok rest.

Lemma read_if_necessary_ok reads : ∀ r frames s,
  inflated_ok r frames s → Forall inner_read_ok reads → read_answer (read_if_necessary reads r frames s).
Proof.
  assert (∀ r frames s reads, r ≠ ERR_IO_PENDING → inflated_ok r frames s → Forall inner_read_ok reads →
    read_answer (Done (r, if r <? 0 then [] else frames, s, reads))) as Hdone.
  { intros r frames s rest Hne Hr Hrest. eexists _, _, _, _. split; [reflexivity|].
    destruct Hr as [(-> & ->)|(-> & Hf & Hs)]; [split; [done|]; split; [by intros [|]|done]|].
    case_bool_decide; [done|]. split; [done|]. by split. }
  induction reads as [|[r' frames'] reads IH]; intros r frames s Hr Hreads; cbn [read_if_necessary];
    (destruct (Z.eqb_spec r ERR_IO_PENDING) as [->|Hne]; cbn [negb]; [|by apply Hdone]).
  all: destruct Hr as [(E & _)|(E & _ & Hs)]; [done|]; assert (frames = []) as -> by (destruct frames; [done|exfalso; clear -E; discriminate E]);
    rewrite (bool_decide_eq_true_2 ([] = [])) by reflexivity; rewrite DCHECK_true_bind; clear E.
  - eexists _, _, _, _. split; [reflexivity|]. by split_and!.
  - apply Forall_cons_1 in Hreads as [Hr' Hreads]. destruct (Z.ltb_spec r' 0) as [Hlt|Hge].
    + destruct Hr' as (Hne & [Hle _] & _). cbn in *. eexists _, _, _, _. split; [reflexivity|].
      split; [split; cbn; [lia|unfold OK; lia]|]. split; [|done]. unfold OK, ERR_IO_PENDING in *. lia.
    + assert (r' = OK) as -> by (destruct Hr' as (_ & [Hle _] & _); cbn in *; unfold OK; lia).
      destruct (inner_frames frames' Hr') as [Hne Hf]. pass_DCHECK ltac:(done).
      pass_DCHECK ltac:(by rewrite bool_decide_eq_false_2). unfold Inflate.
      destruct (inflate_frames_ok frames' [] s Hs Hf ltac:(constructor)) as (r1 & out & s1 & -> & H1).
      rewrite Done_bind. by apply IH.
Qed.

Lemma deflate_InflateAndReadIfNecessary_ok frames reads s :
  reading_ok s → Forall inner_frame_ok frames → Forall inner_read_ok reads →
  read_answer (InflateAndReadIfNecessary frames reads s).
Proof.
  intros Hs Hf Hr. unfold InflateAndReadIfNecessary, Inflate.
  destruct (inflate_frames_ok frames [] s Hs Hf ltac:(constructor)) as (r1 & out & s1 & -> & H1).
  rewrite Done_bind. by apply read_if_necessary_ok.
Qed.

Lemma deflate_ReadFrames_ok reads s : reading_ok s → Forall inner_read_ok reads → read_answer (ReadFrames reads s).
Proof.
  intros Hs Hr. unfold ReadFrames. destruct reads as [|[r frames] reads].
  { eexists _, _, _, _. split; [reflexivity|]. by split_and!. }
  apply Forall_cons_1 in Hr as [Hr Hreads]. destruct (Z.ltb_spec r 0) as [Hlt|Hge].
  { destruct Hr as (Hne & [Hle _] & _). cbn in *. eexists _, _, _, _. split; [reflexivity|].
    split; [split; cbn; [lia|unfold OK; lia]|]. split; [|done]. unfold OK, ERR_IO_PENDING in *. lia. }
  assert (r = OK) as -> by (destruct Hr as (_ & [Hle _] & _); cbn in *; unfold OK; lia).
  destruct (inner_frames frames Hr) as [Hne Hf]. pass_DCHECK ltac:(done).
  pass_DCHECK ltac:(by rewrite bool_decide_eq_false_2). by apply deflate_InflateAndReadIfNecessary_ok.
Qed.

Lemma deflate_OnReadComplete_ok result frames reads s :
  reading_ok s → inner_read_ok (result, frames) → Forall inner_read_ok reads →
  read_answer (OnReadComplete result frames reads s).
Proof.
  intros Hs Hr Hreads. unfold OnReadComplete. destruct (Z.eqb_spec result OK) as [->|Hne]; cbn [negb].
  - destruct (inner_frames frames Hr) as [_ Hf]. by apply deflate_InflateAndReadIfNecessary_ok.
  - destruct Hr as (Hp' & [Hle _] & _). cbn in *. eexists _, _, _, _. split; [reflexivity|].
    split; [split; [done|by intros E]|]. split; [by intros [|]|done].
Qed.

(** ** A stream in use *)

(** Writing leaves what is read alone. *)
Definition reads_alike (s s' : WebSocketDeflateStream) : Prop :=
  (inflater_ s', reading_state_ s', current_reading_opcode_ s') =
  (inflater_ s, reading_state_ s, current_reading_opcode_ s).

Lemma reads_alike_trans s1 s2 s3 : reads_alike s1 s2 → reads_alike s2 s3 → reads_alike s1 s3.
Proof. unfold reads_alike. congruence. Qed.

Lemma record_written_alike frames : ∀ s, reads_alike s (fold_left (λ s frame, record_written frame s) frames s).
Proof. induction frames as [|f frames IH]; intros s; [done|]. eapply reads_alike_trans; [|apply IH]. done. Qed.

Lemma OnMessageStart_alike frames s s' : OnMessageStart frames s = Done s' → reads_alike s s'.
Proof.
  unfold OnMessageStart. destruct frames; [done|]. intros H. apply bind_done in H as ([] & _ & H).
  destruct (Predict _ _) as [pr p]. injection H as <-. by destruct pr.
Qed.

Lemma AppendPossibly_alike frames out s out' s' :
  AppendPossiblyCompressedMessage frames out s = Done (out', s') → reads_alike s s'.
Proof.
  unfold AppendPossiblyCompressedMessage. destruct frames as [|f frames]; [done|].
  destruct (WebSocketDeflater.GetOutput _ _) as [payload d]. intros H. apply bind_done in H as (n & _ & H).
  destruct (_ <=? _); injection H as <- <-; [|done].
  apply (reads_alike_trans _ (s <| deflater_ := d |>)); [done|].
  apply (record_written_alike (f :: frames)).
Qed.

Lemma deflate_frames_alike frames : ∀ out pending s r out' s',
  deflate_frames frames out pending s = Done (r, out', s') → reads_alike s s'.
Proof.
  induction frames as [|f frames IH]; intros out pending s r out' s' H; cbn [deflate_frames] in H.
  { apply bind_done in H as (_ & _ & H). by injection H as <- <- <-. }
  apply bind_done in H as (_ & _ & H). destruct (negb _); [by eapply IH|].
  apply bind_done in H as (s0 & E0 & H).
  assert (reads_alike s s0) as H0 
    by (destruct (bool_decide (writing_state_ s = NOT_WRITING)); [by eapply OnMessageStart_alike|by injection E0 as <-]).
  apply (reads_alike_trans _ _ _ H0). clear E0 H0 s. case_bool_decide.
  { apply IH in H. revert H. unfold reads_alike. by destruct (final _). }
  apply bind_done in H as ([ok d] & _ & H). destruct ok; cbn [fst snd negb] in H; [|by injection H as <- <- <-].
  case_bool_decide.
  - unfold AppendCompressedFrame in H. destruct (orb _ _);
      [destruct (WebSocketDeflater.GetOutput _ _) in H|]; apply IH in H; revert H; unfold reads_alike; by destruct (final _).
  - apply bind_done in H as (_ & _ & H). destruct (final _); [|by apply IH in H].
    apply bind_done in H as ([out1 s1] & E1 & H). apply AppendPossibly_alike in E1. apply IH in H.
    by apply (reads_alike_trans _ _ _ E1).
Qed.

Lemma WriteFrames_alike frames answer s r out s' :
  WriteFrames frames answer s = Done (r, out, s') → reads_alike s s'.
Proof.
  unfold WriteFrames, Deflate. intros H. apply bind_done in H as ([[r1 out1] s1] & E & H).
  apply deflate_frames_alike in E. destruct (negb _); [by injection H as <- <- <-|].
  by case_bool_decide; injection H as <- <- <-.
Qed.

(** The states of a stream that was made with a valid answer of a server, up to a read that
    fails.  A frame that is written makes no check fail; what comes of others is not said. *)
Inductive in_use : WebSocketDeflateStream → Prop :=
  | use_new params message p s :
      IsValidAsResponse params = Done (true, message) → new_WebSocketDeflateStream params p = Done s → in_use s
  | use_read reads s r frames s' rest :
      in_use s → Forall inner_read_ok reads → ReadFrames reads s = Done (r, frames, s', rest) →
      r = OK ∨ r = ERR_IO_PENDING → in_use s'
  | use_complete result buffer reads s r frames s' rest :
      in_use s → inner_read_ok (result, buffer) → Forall inner_read_ok reads →
      OnReadComplete result buffer reads s = Done (r, frames, s', rest) →
      r = OK ∨ r = ERR_IO_PENDING → in_use s'
  | use_write frames answer s r out s' : in_use s → WriteFrames frames answer s = Done (r, out, s') → in_use s'.

Lemma in_use_ok s : in_use s → reading_ok s.
Proof.
  induction 1 as [params message p s Hv E|reads s r frames s' rest _ IH Hr E Hok
    |result buffer reads s r frames s' rest _ IH Hr Hrs E Hok|frames answer s r out s' _ IH E].
  - destruct (new_stream_spec params message p Hv) as (s' & E' & _ & _ & _ & Ho & Hst & _).
    rewrite E in E'. injection E' as <-. by split.
  - destruct (deflate_ReadFrames_ok reads s IH Hr) as (r' & f' & s1 & rest' & E' & _ & H & _). rewrite E in E'.
    injection E' as <- <- <- <-. by apply H.
  - destruct (deflate_OnReadComplete_ok result buffer reads s IH Hr Hrs) as (r' & f' & s1 & rest' & E' & _ & H & _). rewrite E in E'.
    injection E' as <- <- <- <-. by apply H.
  - apply WriteFrames_alike in E. unfold reads_alike in E. injection E as Ei _ Eo. unfold reading_ok. by rewrite Ei, Eo.
Qed.

(** [C10] No server breaks the decompression.  For a stream whose parameters a server has
    answered validly, whatever was read and written so far, a read and the completion of one
    return, with no check failing, whatever frames below 4 GB the other stream has read,
    with bits and opcodes of any kind and payloads that may be corrupt; and the result is as
    websocket_stream.h promises: never positive, and [OK] comes with at least one frame, all
    of them with the length that the header says and no control frame fragmented. *)
Theorem deflate_stream_keeps_contract (s : WebSocketDeflateStream) (reads : list (Z * list WebSocketFrame)) :
  in_use s → Forall inner_read_ok reads →
  (∃ r frames s' rest, ReadFrames reads s = Done (r, frames, s', rest) ∧ read_ok (r, frames)) ∧
  (∀ result buffer, inner_read_ok (result, buffer) →
     ∃ r frames s' rest, OnReadComplete result buffer reads s = Done (r, frames, s', rest) ∧ read_ok (r, frames)).
Proof.
  intros Hs%in_use_ok Hr. split.
  - destruct (deflate_ReadFrames_ok reads s Hs Hr) as (r & f & s' & rest & E & H & _). by eexists _, _, _, _.
  - intros result buffer Hb.
    destruct (deflate_OnReadComplete_ok result buffer reads s Hs Hb Hr) as (r & f & s' & rest & E & H & _). by eexists _, _, _, _.
Qed.
End Reading.

(** ** Concrete frames *)

Definition compressed_part (op : OpCode) (fin r1 : bool) (data : list Z) : WebSocketFrame :=
  {| frame_header := (new_WebSocketFrameHeader op) <| final := fin |> <| reserved1 := r1 |> <| payload_length := Z.of_nat (length data) |>;
     frame_data := Some data |}.

Definition data_frame (op : OpCode) (fin : bool) (data : list Z) : WebSocketFrame := compressed_part op fin false data.

#[export] Instance stream_frame_ok_decision f : Decision (stream_frame_ok f).
Proof. unfold stream_frame_ok, byte_ok. apply _. Defined.
#[export] Instance inner_read_ok_dec r : Decision (inner_read_ok r).
Proof. unfold inner_read_ok, read_ok. apply _. Defined.

(** A compressed message whose second part claims to start another, and one with input that
    the codec of the examples cannot read. *)
Definition bad_reads : list (Z * list WebSocketFrame) :=
  [(OK, [compressed_part kOpCodeText false true [2; 7]]); (OK, [compressed_part kOpCodeContinuation true true [0]])].
Definition corrupt_reads : list (Z * list WebSocketFrame) := [(OK, [compressed_part kOpCodeText true true [250; 1]])].

Definition first_result (reads : list (Z * list WebSocketFrame)) : outcome (Z * list WebSocketFrame) :=
  s ← new_WebSocketDeflateStream (Hz := Runs.codec) (Hp := WebSocketDeflatePredictorImpl) new_WebSocketDeflateParameters tt;
  r ← ReadFrames (Hz := Runs.codec) (Hp := WebSocketDeflatePredictorImpl) reads s;
  Done (fst (fst r)).

Example bad_reads_fail : (first_result bad_reads, first_result corrupt_reads) =
  (Done (ERR_WS_PROTOCOL_ERROR, []), Done (ERR_WS_PROTOCOL_ERROR, [])).
Proof. vm_compute. reflexivity. Qed.

Lemma deflate_stream_keeps_contract_witness :
  ∃ s, new_WebSocketDeflateStream (Hz := Runs.codec) (Hp := WebSocketDeflatePredictorImpl) new_WebSocketDeflateParameters tt = Done s ∧
    (∃ r frames s' rest, ReadFrames bad_reads s = Done (r, frames, s', rest) ∧ read_ok (r, frames)) ∧
    (∃ r frames s' rest, OnReadComplete OK [compressed_part kOpCodeText true true [250; 1]] [] s = Done (r, frames, s', rest) ∧
       read_ok (r, frames)).
Proof.
  assert (IsValidAsResponse new_WebSocketDeflateParameters = Done (true, [])) as Hv by reflexivity.
  destruct (new_stream_spec (Hz := Runs.codec) (Hl := Runs.codec_laws) (Hp := WebSocketDeflatePredictorImpl) _ _ tt Hv) as (s & E & _).
  exists s. split; [exact E|].
  pose proof (use_new (Hz := Runs.codec) (Hp := WebSocketDeflatePredictorImpl) _ _ tt s Hv E) as Hs. split.
  - apply (deflate_stream_keeps_contract (Hz := Runs.codec) (Hl := Runs.codec_laws) s bad_reads Hs).
    apply (bool_decide_eq_true_1 _). vm_compute. reflexivity.
  - apply (deflate_stream_keeps_contract (Hz := Runs.codec) (Hl := Runs.codec_laws) s [] Hs); [constructor|].
    apply (bool_decide_eq_true_1 _). vm_compute. reflexivity.
Defined.
