(* ===== verification/WebSocketDeflateMessages.v ===== *)
(** * Messages through permessage-deflate

    What a reader of the decompressing stream gets: the messages of the other stream, those
    with the bit [reserved1] decoded (RFC 7692, section 7.2.2).  All compressed messages of a
    connection make up one input of the decoder, each with a mark behind it. *)

From S2P Require Import Prelude Zlib WebSocketFrame WebSocketFrameParser WebSocketBasicStream WebSocketMessages WebSocketInflater WebSocketDeflater WebSocketDeflateParameters WebSocketDeflateStream WebSocketChannelState WebSocketChannel WebSocketChannelLog WebSocketDeflateReading.

(** ** Data frames and the open message *)

(** The start and the data so far of the message that a data frame belongs to. *)
Definition belongs_to (open : option (message_start * list Z)) (h : WebSocketFrameHeader) : option (message_start * list Z) :=
  if opcode h =? kOpCodeContinuation then open
  else match open with None => Some (start_of h, []) | Some _ => None end.

Definition with_data (h : WebSocketFrameHeader) (b : list Z) (messages : list message) (m : message_start * list Z) : session :=
  if final h then (messages ++ [DataMessage m.1 (m.2 ++ b)], None) else (messages, Some (m.1, m.2 ++ b)).

Lemma deliver_data_frame messages open h b :
  IsKnownDataOpCode (opcode h) = true →
  deliver_frame (Some (messages, open)) (h, b) = (m ← belongs_to open h; Some (with_data h b messages m)).
Proof.
  intros Hk. unfold deliver_frame, belongs_to, with_data. cbn. rewrite (data_not_control _ Hk), Hk.
  destruct (opcode h =? kOpCodeContinuation); [by destruct open as [[start bytes]|]; cbn; [destruct (final h)|]|].
  destruct open; cbn; [done|]. by destruct (final h).
Qed.

Lemma deliver_other_frame messages open h b st :
  IsKnownDataOpCode (opcode h) = false → deliver_frame (Some (messages, open)) (h, b) = Some st →
  st = (messages ++ [ControlMessage (start_of h) b], open).
Proof.
  intros Hk. unfold deliver_frame. cbn. destruct (IsKnownControlOpCode (opcode h)).
  - destruct (_ && _); [by intros [= <-]|done].
  - destruct (Z.eqb_spec (opcode h) kOpCodeContinuation) as [E|]; [by rewrite E in Hk|]. by rewrite Hk.
Qed.

(** Other frames come through anywhere. *)
Lemma deliver_control_alike messages open messages' open' f st :
  deliver_frame (Some (messages, open)) (content f) = Some st → IsKnownDataOpCode (opcode (frame_header f)) = false →
  deliver_frame (Some (messages', open')) (content f) =
    Some (messages' ++ [ControlMessage (start_of (frame_header f)) (default [] (frame_data f))], open').
Proof.
  unfold content, deliver_frame. cbn. intros H Hk. destruct (IsKnownControlOpCode _).
  - by destruct (_ && _).
  - revert H. destruct (Z.eqb_spec (opcode (frame_header f)) kOpCodeContinuation) as [E|]; [by rewrite E in Hk|]. by rewrite Hk.
Qed.

Section Messages.
Context {Hz : Zlib}.

Definition decoder0 : inflate_state := snd (inflateInit2 (-15)).

(** ** The messages behind the compressed ones

    [past] is the input of the decoder so far. *)
Definition plain_message (past : list Z) (m : message) : message * list Z :=
  match m with
  | DataMessage (op, true, r2, r3) z =>
      let past' := past ++ z ++ sync_mark in
      (DataMessage (op, false, r2, r3) (drop (length (inflated decoder0 past)) (inflated decoder0 past')), past')
  | _ => (m, past)
  end.
Definition plain (messages : list message) : list message * list Z :=
  fold_left (λ p m, let '(m', past) := plain_message p.2 m in (p.1 ++ [m'], past)) messages ([], []).

Lemma plain_snoc messages m :
  plain (messages ++ [m]) = (let '(m', past) := plain_message (plain messages).2 m in ((plain messages).1 ++ [m'], past)).
Proof. unfold plain. by rewrite fold_left_app. Qed.

Definition open_bytes (open : option (message_start * list Z)) : list Z :=
  match open with Some ((_, true, _, _), z) => z | _ => [] end.
(** What the decoder is given for a session. *)
Definition compressed_bytes (st : session) : list Z := (plain st.1).2 ++ open_bytes st.2.

Definition tidy_header (h : WebSocketFrameHeader) : Prop :=
  IsKnownDataOpCode (opcode h) = true →
  reserved2 h = false ∧ reserved3 h = false ∧ (opcode h = kOpCodeContinuation → reserved1 h = false).
Definition tidy (f : WebSocketFrame) : Prop := inner_frame_ok f ∧ tidy_header (frame_header f).

Lemma with_data_prefix h b messages m open :
  belongs_to open h = Some m → compressed_bytes (messages, open) `prefix_of` compressed_bytes (with_data h b messages m).
Proof.
  intros Hm. destruct m as [[[[op r1] r2] r3] z].
  assert (open_bytes open `prefix_of` if r1 then z else []) as Hpre.
  { unfold belongs_to in Hm. destruct (_ =? _); [by subst|]. destruct open; [done|]. apply prefix_nil. }
  unfold compressed_bytes, with_data. destruct (final h); cbn [fst snd].
  - rewrite plain_snoc. destruct r1; cbn [plain_message open_bytes fst snd].
    + rewrite app_nil_r. apply prefix_app. etrans; [exact Hpre|]. rewrite <- app_assoc. by eexists.
    + apply prefix_app. done.
  - apply prefix_app. destruct r1; cbn [open_bytes]; [|done]. etrans; [exact Hpre|]. by eexists.
Qed.

Lemma deliver_frame_prefix_bytes st f st' : deliver_frame (Some st) f = Some st' → compressed_bytes st `prefix_of` compressed_bytes st'.
Proof.
  destruct st as [messages open], f as [h b]. destruct (IsKnownDataOpCode (opcode h)) eqn:Hk.
  - rewrite deliver_data_frame by done. destruct (belongs_to open h) as [m|] eqn:Em; [|done]. intros [= <-].
    by apply with_data_prefix.
  - intros ->%deliver_other_frame; [|done]. unfold compressed_bytes. cbn [fst snd]. by rewrite plain_snoc.
Qed.

Lemma deliver_prefix_bytes fs : ∀ st st', fold_left deliver_frame fs (Some st) = Some st' →
  compressed_bytes st `prefix_of` compressed_bytes st'.
Proof.
  induction fs as [|f fs IH]; intros st st'; cbn [fold_left]; [by intros [= <-]|].
  destruct (deliver_frame (Some st) f) as [st1|] eqn:E; [|by rewrite deliver_None].
  intros H. etrans; [by eapply deliver_frame_prefix_bytes|by apply IH].
Qed.

(** ** Where a reader is

    The inflater has been given [input] behind what it was opened with and has given out
    [before]. *)
Definition at_position (input before : list Z) (w : WebSocketInflater) : Prop := ∀ more,
  inflated decoder0 (input ++ more) = before ++ potential w more ∧ (intact decoder0 (input ++ more) ↔ promising w more).
(** All of it is out. *)
Definition drained (past : list Z) (w : WebSocketInflater) : Prop := at_position past (inflated decoder0 past) w.

Lemma at_position_turns input before w bytes w' out :
  at_position input before w → turns w bytes w' out → at_position (input ++ bytes) (before ++ out) w'.
Proof.
  intros Ha Ht more. destruct (Ha (bytes ++ more)) as [H1 H2], (Ht more) as [H3 H4].
  rewrite <- !app_assoc, H1, H3, H2, H4. done.
Qed.

Lemma at_position_dry input before w : at_position input before w → potential w [] = [] →
  before = inflated decoder0 input ∧ drained input w.
Proof.
  intros Ha Hd. destruct (Ha []) as [H _]. rewrite app_nil_r, Hd, app_nil_r in H. split; [done|]. unfold drained. by rewrite H.
Qed.

Context {Hp : WebSocketDeflatePredictor} {Hl : ZlibLaws}.

(** The other stream has given the session [st], and the reader was given [given]. *)
Definition holds (s : WebSocketDeflateStream) (st given : session) : Prop :=
  let past := (plain st.1).2 in
  given.1 = (plain st.1).1 ∧ steady (inflater_ s) ∧
  match reading_state_ s with
  | NOT_READING => st.2 = None ∧ given.2 = None ∧ drained past (inflater_ s)
  | READING_UNCOMPRESSED_MESSAGE =>
      ∃ op z, st.2 = Some ((op, false, false, false), z) ∧ given.2 = st.2 ∧ drained past (inflater_ s)
  | READING_COMPRESSED_MESSAGE =>
      ∃ op z b, st.2 = Some ((op, true, false, false), z) ∧
        assembling (current_reading_opcode_ s) (op, false, false, false) b given.2 ∧
        at_position (past ++ z) (inflated decoder0 past ++ b) (inflater_ s)
  end.

(** A frame of the message that is read, once its state is known. *)
Lemma uncompressed_frame s st given h b op z :
  given.1 = (plain st.1).1 → steady (inflater_ s) → drained (plain st.1).2 (inflater_ s) →
  reading_state_ s = READING_UNCOMPRESSED_MESSAGE → IsKnownDataOpCode (opcode h) = true →
  belongs_to st.2 h = Some ((op, false, false, false), z) → given.2 = st.2 →
  let s1 := if final h then s <| reading_state_ := NOT_READING |> else s in
  ∃ st1 given1, deliver_frame (Some st) (h, b) = Some st1 ∧ deliver_frame (Some given) (h, b) = Some given1 ∧
    holds (s1 <| current_reading_opcode_ := kOpCodeContinuation |>) st1 given1.
Proof.
  intros Hg Hst Hd Hr Hk Hb Eo s1. destruct st as [ms open], given as [ms' open']. cbn [fst snd] in *. subst open'.
  rewrite !deliver_data_frame, Hb by done. cbn [mbind option_bind]. eexists _, _. split; [reflexivity|]. split; [reflexivity|].
  unfold holds, with_data, s1. destruct (final h); cbn [fst snd].
  - rewrite plain_snoc. cbn. by rewrite Hg.
  - split; [done|]. split; [done|]. cbn. rewrite Hr. by eexists _, _.
Qed.

(** What the inflater was given for a frame, and what the loop made of it. *)
Lemma compressed_frame s st given f op z b w s2 new out :
  let h := frame_header f in
  given.1 = (plain st.1).1 → steady (inflater_ s) →
  at_position ((plain st.1).2 ++ z) (inflated decoder0 (plain st.1).2 ++ b) (inflater_ s) →
  assembling (current_reading_opcode_ s) (op, false, false, false) b given.2 →
  reading_state_ s = READING_COMPRESSED_MESSAGE → IsKnownDataOpCode (opcode h) = true → tidy_header h →
  belongs_to st.2 h = Some ((op, true, false, false), z) →
  turns (inflater_ s) (payload f ++ mark_of f) w [] →
  adds_frames h (s <| inflater_ := w |>) s2 new out →
  let s3 := if final h then s2 <| reading_state_ := NOT_READING |> else s2 in
  ∃ st1 given1, deliver_frame (Some st) (content f) = Some st1 ∧
    fold_left deliver_frame (map content new) (Some given) = Some given1 ∧ holds s3 st1 given1.
Proof.
  intros h Hg Hst Hpos Ha Hr Hk Ht Hb Hturn (Hw2 & Hturn2 & Er & Ho2 & _ & Hfin & Hdel) s3.
  destruct st as [ms open], given as [ms' open']. cbn [fst snd] in *. change (content f) with (h, payload f).
  rewrite deliver_data_frame, Hb by done. cbn [mbind option_bind]. destruct (Ht Hk) as (H2 & H3 & _).
  destruct (Hdel H2 H3 ms' _ b open' Ha) as (open1 & E1 & Ha1). rewrite E1.
  pose proof (at_position_turns _ _ _ _ _ _ (at_position_turns _ _ _ _ _ _ Hpos Hturn) Hturn2) as Hpos2.
  rewrite !app_nil_r, <- !app_assoc in Hpos2. eexists _, _. split; [reflexivity|]. split; [reflexivity|].
  unfold holds, with_data, s3, mark_of in *. fold h in Hpos2. destruct (final h); cbn [fst snd] in *.
  - destruct (Hfin eq_refl) as [_ Hdry]. destruct (at_position_dry _ _ _ Hpos2 Hdry) as [Eb Hd].
    rewrite plain_snoc. cbn [plain_message fst snd]. rewrite <- !app_assoc. rewrite <- Eb, drop_app_length, Hg. done.
  - rewrite app_nil_r in Hpos2. split; [done|]. split; [done|]. rewrite Er. cbn. rewrite Hr.
    eexists _, _, _. split; [reflexivity|]. by split; [exact Ha1|].
Qed.

(** The state that a data frame is read in. *)
Definition begun (h : WebSocketFrameHeader) (s : WebSocketDeflateStream) : WebSocketDeflateStream :=
  if bool_decide (reading_state_ s = NOT_READING)
  then s <| reading_state_ := if reserved1 h then READING_COMPRESSED_MESSAGE else READING_UNCOMPRESSED_MESSAGE |>
         <| current_reading_opcode_ := opcode h |>
  else s.

Lemma holds_begun h s st given m :
  holds s st given → IsKnownDataOpCode (opcode h) = true → tidy_header h → belongs_to st.2 h = Some m →
  let past := (plain st.1).2 in
  negb (bool_decide (reading_state_ s = NOT_READING)) && reserved1 h = false ∧ inflater_ (begun h s) = inflater_ s ∧
  ∃ op z, (m = ((op, false, false, false), z) ∧ reading_state_ (begun h s) = READING_UNCOMPRESSED_MESSAGE ∧
           drained past (inflater_ s) ∧ given.2 = st.2) ∨
          (m = ((op, true, false, false), z) ∧ reading_state_ (begun h s) = READING_COMPRESSED_MESSAGE ∧ ∃ b,
           at_position (past ++ z) (inflated decoder0 past ++ b) (inflater_ s) ∧
           assembling (current_reading_opcode_ (begun h s)) (op, false, false, false) b given.2).
Proof.
  intros (_ & _ & Hs) Hk Ht Hb past. destruct (Ht Hk) as (H2 & H3 & H1). unfold begun, belongs_to in *. fold past in Hs.
  destruct (reading_state_ s) eqn:Er; cbn [negb andb].
  - destruct Hs as (op & z & b & Eo & Ha & Hpos). rewrite Eo in *.
    revert Hb. destruct (Z.eqb_spec (opcode h) kOpCodeContinuation) as [E|]; [|done]. intros [= <-].
    split; [by apply H1|]. split; [done|]. exists op, z. right. split; [done|]. split; [done|]. by exists b.
  - destruct Hs as (op & z & Eo & Eg & Hd). rewrite Eo in *.
    revert Hb. destruct (Z.eqb_spec (opcode h) kOpCodeContinuation) as [E|]; [|done]. intros [= <-].
    split; [by apply H1|]. split; [done|]. exists op, z. by left.
  - destruct Hs as (Eo & Eg & Hd). rewrite Eo in *. revert Hb. destruct (opcode h =? kOpCodeContinuation) eqn:E; [done|].
    intros [= <-]. split; [done|]. split; [done|]. exists (opcode h), []. unfold start_of. rewrite H2, H3.
    destruct (reserved1 h); [right|left].
    + split; [done|]. split; [done|]. exists []. rewrite !app_nil_r. split; [exact Hd|]. 
      rewrite bool_decide_eq_true_2 by done. cbn. unfold assembling. by rewrite E.
    + split; [done|]. split; [done|]. split; [exact Hd|]. congruence.
Qed.

(** Corrupt input is all that can stop a reader. *)
Lemma not_corrupt input before w st' more :
  at_position input before w → (input ++ more) `prefix_of` compressed_bytes st' →
  intact decoder0 (compressed_bytes st') → promising w more.
Proof. intros Ha [k Ek] Hi. rewrite Ek in Hi. apply intact_prefix in Hi. by apply (Ha more). Qed.

(** The bytes that a data frame adds. *)
Lemma frame_bytes st f st1 op z :
  IsKnownDataOpCode (opcode (frame_header f)) = true → belongs_to st.2 (frame_header f) = Some ((op, true, false, false), z) →
  deliver_frame (Some st) (content f) = Some st1 →
  compressed_bytes st1 = ((plain st.1).2 ++ z) ++ payload f ++ mark_of f.
Proof.
  destruct st as [ms open]. cbn [fst snd]. intros Hk Hb. unfold content. rewrite deliver_data_frame, Hb by done. intros [= <-].
  unfold compressed_bytes, with_data, mark_of, payload. destruct (final (frame_header f)); cbn [fst snd].
  - rewrite plain_snoc. cbn. by rewrite app_nil_r, <- !app_assoc.
  - cbn. by rewrite app_nil_r, <- !app_assoc.
Qed.

(** ** Reading *)

(** The frames so far, and what they hold. *)
Definition gives (given0 : session) (s : WebSocketDeflateStream) (out : list WebSocketFrame) (st : session) : Prop :=
  ∃ given, fold_left deliver_frame (map content out) (Some given0) = Some given ∧ holds s st given.

Lemma inflate_frames_holds given0 st' frames : ∀ st out s,
  gives given0 s out st → Forall tidy frames → fold_left deliver_frame (map content frames) (Some st) = Some st' →
  intact decoder0 (compressed_bytes st') →
  ∃ out' s', inflate_frames frames out s = Done (if bool_decide (out' = []) then ERR_IO_PENDING else OK, out', s') ∧
    gives given0 s' out' st'.
Proof.
  induction frames as [|f frames IH]; intros st out s Hg Ht Hd Hi; cbn [inflate_frames].
  { injection Hd as <-. by eexists _, _. }
  apply Forall_cons_1 in Ht as [[Hf Ht] Hts]. cbn [map fold_left] in Hd.
  destruct (deliver_frame (Some st) (content f)) as [st1|] eqn:E1; [|by rewrite deliver_None in Hd].
  pose proof (deliver_prefix_bytes _ _ _ Hd) as Hpre. destruct Hg as (given & Eg & Hh).
  assert (∀ s1 new given1, fold_left deliver_frame (map content new) (Some given) = Some given1 → holds s1 st1 given1 →
    ∃ out' s', inflate_frames frames (out ++ new) s1 = Done (if bool_decide (out' = []) then ERR_IO_PENDING else OK, out', s') ∧
      gives given0 s' out' st') as Hnext.
  { intros s1 new given1 En Hn. apply (IH st1); [|done..]. exists given1. by rewrite map_app, fold_left_app, Eg. }
  set (h := frame_header f) in *. destruct (IsKnownDataOpCode (opcode h)) eqn:Hk; cbn [negb]; cycle 1.
  { destruct st as [ms open], given as [ms' open']. pose proof E1 as E2. apply deliver_other_frame in E2 as ->; [|done].
    eapply (Hnext s [f]).
    - cbn [map fold_left]. by apply (deliver_control_alike ms open ms' open' _ _ E1 Hk).
    - destruct Hh as (Ep & Hst & Hs). unfold holds. cbn [fst snd] in *. rewrite plain_snoc. cbn. by rewrite Ep. }
  destruct (belongs_to st.2 h) as [m|] eqn:Eb; cycle 1.
  { destruct st as [ms open]. unfold content in E1. fold h in E1. cbn [snd] in Eb. by rewrite deliver_data_frame, Eb in E1. }
  destruct (holds_begun h s st given m Hh Hk Ht Eb) as (-> & Ei & op & z & Hm).
  change (if bool_decide (reading_state_ s = NOT_READING) then _ else s) with (begun h s).
  set (s1 := begun h s) in *. destruct Hh as (Ep & Hst & _).
  destruct Hm as [(-> & Er & Hdr & Eo)|(-> & Er & b & Hpos & Ha)]; rewrite Er.
  - destruct (uncompressed_frame s1 st given h (payload f) op z) as (st2 & given1 & E2 & E3 & Hh1);
      [done|by rewrite Ei..|done|done|done|done|].
    assert (Some st2 = Some st1) as [= ->] by (rewrite <- E2; exact E1). by eapply (Hnext _ [f]).
  - rewrite Ei. destruct (inflate_payload_spec f (inflater_ s) Hf Hst) as (ok & w & -> & Hok & Hbad). rewrite Done_bind. cbn [fst snd].
    pose proof (frame_bytes st f st1 op z Hk Eb E1) as Ebytes. rewrite Ebytes in Hpre.
    destruct ok; cbn [negb]; [|by destruct (Hbad eq_refl (not_corrupt _ _ _ _ _ Hpos Hpre Hi))].
    destruct (Hok eq_refl) as [Hw Hturn]. set (s2 := s1 <| inflater_ := w |>).
    destruct (output_frames_spec (S (length (potential (inflater_ s2) []))) h out s2)
      as (r & frames1 & s3 & -> & Hr); [exact Hw|by eapply assembling_known|lia|].
    rewrite Done_bind. cbv beta iota zeta. destruct Hr as [(-> & -> & Hc)|(-> & new & data & -> & Hadd)].
    { destruct Hc. change (inflater_ s2) with w. apply (Hturn []). rewrite app_nil_r. by eapply not_corrupt. }
    cbn [Z.eqb OK negb].
    destruct (compressed_frame s1 st given f op z b w s3 new data) as (st2 & given1 & E2 & E3 & Hh1);
      [done|by rewrite Ei..|done|done|done|done|done|by rewrite Ei|done|].
    assert (Some st2 = Some st1) as [= ->] by (rewrite <- E2; exact E1). by eapply Hnext.
Qed.

(** Answers of the other stream. *)
Definition answers_of (batches : list (list WebSocketFrame)) : list (Z * list WebSocketFrame) := map (λ b, (OK, b)) batches.
Definition good_batches (st : session) (batches : list (list WebSocketFrame)) (st' : session) : Prop :=
  Forall (λ b, b ≠ [] ∧ Forall tidy b) batches ∧
  fold_left deliver_frame (map content (concat batches)) (Some st) = Some st' ∧ intact decoder0 (compressed_bytes st').

Lemma good_batches_cons st b batches st' : good_batches st (b :: batches) st' →
  b ≠ [] ∧ Forall tidy b ∧ ∃ st1, fold_left deliver_frame (map content b) (Some st) = Some st1 ∧
    intact decoder0 (compressed_bytes st1) ∧ good_batches st1 batches st'.
Proof.
  intros (Hb & Hd & Hi). apply Forall_cons_1 in Hb as [[Hne Ht] Hbs]. split; [done|]. split; [done|].
  cbn [concat] in Hd. rewrite map_app, fold_left_app in Hd.
  destruct (fold_left deliver_frame (map content b) (Some st)) as [st1|] eqn:E; [|by rewrite deliver_None in Hd].
  exists st1. split; [done|]. split; [|done]. destruct (deliver_prefix_bytes _ _ _ Hd) as [k Ek]. rewrite Ek in Hi. by apply intact_prefix in Hi.
Qed.

(** A call: it uses some of the batches. *)
Definition read_gives (given0 st' : session) (batches : list (list WebSocketFrame))
    (o : outcome (Z * list WebSocketFrame * WebSocketDeflateStream * list (Z * list WebSocketFrame))) : Prop :=
  ∃ r vec s rest st1, o = Done (r, vec, s, answers_of rest) ∧ rest `suffix_of` batches ∧
    gives given0 s vec st1 ∧ good_batches st1 rest st' ∧ (r = OK ∨ r = ERR_IO_PENDING ∧ vec = [] ∧ rest = []).

Lemma read_if_necessary_holds given0 st' batches : ∀ st frames s,
  gives given0 s frames st → good_batches st batches st' →
  read_gives given0 st' batches
    (read_if_necessary (answers_of batches) (if bool_decide (frames = []) then ERR_IO_PENDING else OK) frames s).
Proof.
  induction batches as [|b batches IH]; intros st frames s Hg Hb; destruct (decide (frames = [])) as [->|Hne].
  2: rewrite bool_decide_eq_false_2 by done; exists OK, frames, s, [], st; by split_and!; [..|left].
  3: rewrite bool_decide_eq_false_2 by done; exists OK, frames, s, (b :: batches), st; by split_and!; [..|left].
  all: rewrite (bool_decide_eq_true_2 ([] = [])) by done; cbn [answers_of map read_if_necessary Z.eqb Pos.eqb ERR_IO_PENDING negb];
    rewrite DCHECK_true_bind.
  - eexists _, _, _, [], st. split_and!; [reflexivity|done|done|done|by right].
  - apply good_batches_cons in Hb as (Hne & Ht & st1 & Hd & Hi & Hb). cbn [Z.ltb Z.compare OK Z.eqb]. rewrite DCHECK_true_bind.
    pass_DCHECK ltac:(by rewrite bool_decide_eq_false_2). unfold Inflate.
    destruct Hg as (given & Eg & Hg). injection Eg as <-.
    destruct (inflate_frames_holds given0 st1 b st [] s) as (out & s1 & -> & Hg1); [by exists given0|done|done|done|].
    rewrite Done_bind. destruct (IH st1 out s1 Hg1 Hb) as (r & vec & s2 & rest & st2 & E & Hsuf & H).
    exists r, vec, s2, rest, st2. split; [exact E|]. split; [by apply suffix_cons_r|done].
Qed.

Lemma ReadFrames_holds given0 st' st s batches : holds s st given0 → good_batches st batches st' →
  read_gives given0 st' (tail batches) (ReadFrames (answers_of batches) s).
Proof.
  intros Hh Hb. unfold ReadFrames. destruct batches as [|b batches]; cbn [answers_of map tail].
  { eexists _, _, s, [], st. split_and!; [reflexivity|done|by exists given0|done|by right]. }
  apply good_batches_cons in Hb as (Hne & Ht & st1 & Hd & Hi & Hb). cbn [Z.ltb Z.compare OK Z.eqb]. rewrite DCHECK_true_bind.
  pass_DCHECK ltac:(by rewrite bool_decide_eq_false_2). unfold InflateAndReadIfNecessary, Inflate.
  destruct (inflate_frames_holds given0 st1 b st [] s) as (out & s1 & -> & Hg1); [by exists given0|done|done|done|].
  rewrite Done_bind. by eapply read_if_necessary_holds.
Qed.

(** A caller that reads until the stream waits. *)
Fixpoint read_all_inflated (fuel : nat) (reads : list (Z * list WebSocketFrame)) (frames : list WebSocketFrame)
    (s : WebSocketDeflateStream) : outcome (option (Z * list WebSocketFrame * WebSocketDeflateStream)) :=
  match fuel with
  | O => Done None
  | S fuel =>
      r ← ReadFrames reads s;
      let '(result, vec, s, reads) := r : Z * list WebSocketFrame * WebSocketDeflateStream * list (Z * list WebSocketFrame) in
      if result =? OK then read_all_inflated fuel reads (frames ++ vec) s
      else Done (Some (result, frames ++ vec, s))
  end.

Lemma read_all_inflated_holds given0 st' fuel : ∀ batches st s frames,
  gives given0 s frames st → good_batches st batches st' → (length batches < fuel)%nat →
  ∃ vec s', read_all_inflated fuel (answers_of batches) frames s = Done (Some (ERR_IO_PENDING, vec, s')) ∧
    gives given0 s' vec st'.
Proof.
  induction fuel as [|fuel IH]; intros batches st s frames (given & Eg & Hh) Hb Hfuel; [lia|]. cbn [read_all_inflated].
  destruct (ReadFrames_holds given st' st s batches Hh Hb) as (r & vec & s1 & rest & st1 & E & Hsuf & (given1 & E1 & H1) & Hb1 & Hr).
  assert (gives given0 s1 (frames ++ vec) st1) as Hg1 by (exists given1; by rewrite map_app, fold_left_app, Eg, E1).
  destruct batches as [|b batches].
  - cbn [tail] in Hsuf. apply suffix_nil_inv in Hsuf as ->. unfold ReadFrames in *. cbn in *. injection E as <- <- <-.
    eexists _, _. split; [reflexivity|]. cbn in Hb1. destruct Hb1 as (_ & Ed & _). cbn in Ed. by injection Ed as <-.
  - rewrite E, Done_bind. destruct Hr as [->|(-> & -> & ->)]; cbn [Z.eqb OK ERR_IO_PENDING].
    + eapply IH; [exact Hg1|exact Hb1|]. apply suffix_length in Hsuf. cbn in *. lia.
    + eexists _, _. split; [reflexivity|]. destruct Hb1 as (_ & Ed & _). cbn in Ed. by injection Ed as <-.
Qed.

Lemma new_stream_holds params message p s : IsValidAsResponse params = Done (true, message) →
  new_WebSocketDeflateStream params p = Done s → holds s ([], None) ([], None).
Proof.
  intros Hv E. destruct (new_stream_spec params message p Hv) as (s' & E' & Er & _ & _ & _ & Hst & Hpot & _).
  rewrite E in E'. injection E' as <-. unfold holds. rewrite Er. split; [done|]. split; [done|]. split; [done|]. split; [done|].
  intros more. destruct (Hpot more) as [H1 H2]. rewrite H1, H2. cbn. unfold decoder0. by rewrite inflateInit2_nothing.
Qed.

Lemma holds_none s st given : holds s st given → given.1 = (plain st.1).1 ∧ (st.2 = None → given.2 = None).
Proof.
  intros (E & _ & H). split; [done|]. intros Eo. destruct (reading_state_ s).
  - destruct H as (? & ? & ? & E' & _). by rewrite Eo in E'.
  - destruct H as (? & ? & E' & _). by rewrite Eo in E'.
  - apply H.
Qed.

(** A stream that starts, read to the end. *)
Lemma messages_inflated params message p s batches st :
  IsValidAsResponse params = Done (true, message) → new_WebSocketDeflateStream params p = Done s →
  good_batches ([], None) batches st →
  ∃ frames s' open, read_all_inflated (S (length batches)) (answers_of batches) [] s = Done (Some (ERR_IO_PENDING, frames, s')) ∧
    deliver (map content frames) = Some ((plain st.1).1, open) ∧ (st.2 = None → open = None).
Proof.
  intros Hv E Hb. pose proof (new_stream_holds _ _ _ _ Hv E) as Hh.
  destruct (read_all_inflated_holds ([], None) st (S (length batches)) batches ([], None) s [])
    as (frames & s' & Er & given & Ed & Hg); [by exists ([], None)|done|lia|].
  apply holds_none in Hg as [E1 Eo]. exists frames, s', given.2. split; [done|]. split; [|done].
  etrans; [exact Ed|]. rewrite <- E1. by destruct given.
Qed.
End Messages.
