(* ===== verification/WebSocketDeflateWriting.v ===== *)
(** * Messages through permessage-deflate: the writer

    The messages behind the frames that the compressing stream writes are those of the frames
    that it is given, for any predictor that keeps its contract; and so a reader gets the
    messages that were written. *)

From S2P Require Import Prelude Zlib WebSocketFrame WebSocketFrameParser WebSocketBasicStream WebSocketMessages WebSocketInflater WebSocketDeflater WebSocketDeflateParameters WebSocketDeflateStream WebSocketChannelState WebSocketChannel WebSocketChannelLog WebSocketDeflateReading WebSocketDeflateMessages.

(** ** The contract of a predictor

    websocket_deflate_predictor.h: to try is to have a deflater that forgets its context, and
    all of the message in sight. *)
Definition ends_message (frames : list WebSocketFrame) : bool :=
  existsb (λ f, IsKnownDataOpCode (opcode (frame_header f)) && final (frame_header f)) frames.

Class PredictorLaws {Hp : WebSocketDeflatePredictor} (mode : ContextTakeOverMode) : Prop :=
  Predict_try p frames p' : Predict p frames = (TRY_DEFLATE, p') →
    mode = DO_NOT_TAKE_OVER_CONTEXT ∧ ends_message frames = true.

#[export] Instance WebSocketDeflatePredictorImpl_laws mode : PredictorLaws (Hp := WebSocketDeflatePredictorImpl) mode.
Proof. by intros p frames p' H. Qed.

(** A predictor that tries where it may. *)
#[export] Instance TryingPredictor (mode : ContextTakeOverMode) : WebSocketDeflatePredictor | 100 := {|
  predictor := unit;
  Predict p frames :=
    (if bool_decide (mode = DO_NOT_TAKE_OVER_CONTEXT) && ends_message frames then TRY_DEFLATE else DO_NOT_DEFLATE, p);
  RecordInputDataFrame p _ := p;
  RecordWrittenDataFrame p _ := p
|}.

#[export] Instance TryingPredictor_laws mode : PredictorLaws (Hp := TryingPredictor mode) mode.
Proof.
  intros p frames p' H. cbn in H. destruct (_ && _) eqn:E; [|done]. apply andb_true_iff in E as [E ->].
  by apply bool_decide_eq_true in E.
Qed.

(** ** Frames that may be written *)

Definition sendable (f : WebSocketFrame) : Prop :=
  let h := frame_header f in
  reserved1 h = false ∧ (IsKnownDataOpCode (opcode h) = true → reserved2 h = false ∧ reserved3 h = false) ∧
  payload_length h = data_size (frame_data f) ∧ payload_length h < 4294967296 ∧ Forall byte_ok (payload f).
#[export] Instance sendable_dec f : Decision (sendable f).
Proof. unfold sendable, byte_ok. apply _. Defined.

(** The frames of a message but its last. *)
Fixpoint pieces (first : bool) (frames : list WebSocketFrame) : Prop :=
  match frames with
  | [] => True
  | f :: frames =>
      IsKnownDataOpCode (opcode (frame_header f)) = true ∧
      first = negb (kOpCodeContinuation =? opcode (frame_header f)) ∧
      final (frame_header f) = false ∧ pieces false frames
  end.

Lemma pieces_snoc fs : ∀ first f,
  pieces first fs → IsKnownDataOpCode (opcode (frame_header f)) = true →
  (if bool_decide (fs = []) then first else false) = negb (kOpCodeContinuation =? opcode (frame_header f)) →
  final (frame_header f) = false → pieces first (fs ++ [f]).
Proof.
  induction fs as [|f' fs IH]; intros first f Hp Hk Hf Hfin; cbn [app pieces] in *; [by cbn in Hf|].
  destruct Hp as (? & ? & ? & Hp). split_and!; [done..|]. apply IH; [done|done| |done].
  by destruct (bool_decide (fs = [])).
Qed.

Lemma original_length_done fs : ∀ first f n,
  pieces first fs → IsKnownDataOpCode (opcode (frame_header f)) = true →
  (if bool_decide (fs = []) then first else false) = negb (kOpCodeContinuation =? opcode (frame_header f)) →
  final (frame_header f) = true → ∃ total, original_length first (fs ++ [f]) n = Done total.
Proof.
  induction fs as [|f' fs IH]; intros first f n Hp Hk Hf Hfin; cbn [app original_length pieces] in *.
  - rewrite bool_decide_eq_true_2 in Hf |- * by done. rewrite Hk, <- Hf, Hfin.
    rewrite !eqb_reflx. eexists. reflexivity.
  - destruct Hp as (Hk' & -> & Hfin' & Hp). rewrite Hk', !eqb_reflx, Hfin'.
    rewrite (bool_decide_eq_false_2 (fs ++ [f] = [])) by (by destruct fs). apply IH; [done|done| |done].
    by destruct (bool_decide (fs = [])).
Qed.

Section Writing.
Context {Hz : Zlib} {Hl : ZlibLaws} (window_bits : Z).

(** ** The payload of a frame *)

Lemma deflate_payload_spec f d input output :
  sendable f → deflater_ok window_bits d input output →
  ∃ d' out, deflate_payload f d = Done (true, d') ∧ mode_ d' = mode_ d ∧
    deflate_buffer_ d' = deflate_buffer_ d ++ out ∧
    deflater_ok window_bits d' (input ++ payload f) (output ++ out ++ mark_of f) ∧
    (final (frame_header f) = true → are_bytes_added_ d' = false ∧
       (mode_ d = DO_NOT_TAKE_OVER_CONTEXT → ∀ d0 input0 output0,
          deflating window_bits Flushed d0 input0 output0 → deflater_ok window_bits d' input0 output0)).
Proof.
  intros (_ & _ & Hlen & Hlt & Hby) Hd. unfold deflate_payload.
  assert (∃ d1 out, match frame_data f with
      | Some data =>
          data ← payload_at data (payload_length (frame_header f));
          WebSocketDeflater.AddBytes data (payload_length (frame_header f)) d
      | None => Done (true, d)
      end = Done (true, d1) ∧ mode_ d1 = mode_ d ∧ deflate_buffer_ d1 = deflate_buffer_ d ++ out ∧
      deflater_ok window_bits d1 (input ++ payload f) (output ++ out)) as (d1 & out & -> & Hm1 & Hb1 & H1).
  { unfold payload in *. destruct (frame_data f) as [data|]; cbn [default] in *; [|exists d, []; by rewrite !app_nil_r].
    unfold data_size in Hlen. cbn in Hlen. unfold payload_at. rewrite Hlen in *. pass_DCHECK ltac:(apply Z.leb_le; lia).
    rewrite Done_bind. unfold id in *.
    destruct (deflater_AddBytes_spec window_bits d input output data (Z.of_nat (length data)) Hd) as (d1 & out & E & H1 & Hb1 & _ & Hm1 & _);
      [lia|lia|done|]. rewrite Nat2Z.id, firstn_all in H1. by exists d1, out. }
  rewrite Done_bind. cbn [fst snd negb]. unfold mark_of. destruct (final (frame_header f)).
  - destruct (deflater_Finish_spec window_bits d1 _ _ H1) as (d2 & front & -> & H2 & Hb2 & _ & Hm2 & Ha2 & Hreset).
    exists d2, (out ++ front). rewrite Hb2, Hb1, Hm2, Hm1, <- !app_assoc in *. by split_and!.
  - exists d1, out. rewrite app_nil_r. by split_and!.
Qed.

(** ** Where a writer is *)

Context {Hp : WebSocketDeflatePredictor} (mode : ContextTakeOverMode) {Hpl : PredictorLaws mode}.

(** A compressed message [op] of which [z] is written; [cur] is the opcode of its next frame. *)
Definition sending (cur op : OpCode) (z : list Z) (open : option (message_start * list Z)) : Prop :=
  if cur =? kOpCodeContinuation then open = Some ((op, true, false, false), z)
  else IsKnownDataOpCode cur = true ∧ op = cur ∧ open = None ∧ z = [].

(** The frames of a message that wait for its last. *)
Definition unfinished (pending : list WebSocketFrame) (op : OpCode) (data : list Z) : Prop :=
  pieces true pending ∧ Forall sendable pending ∧ ∀ messages,
    fold_left deliver_frame (map content pending) (Some (messages, None)) =
      Some (messages, if bool_decide (pending = []) then None else Some ((op, false, false, false), data)) ∧
    (pending = [] → data = []).

(** The state in which a frame of the message [op], of which [data] went before it, is
    written: [input] is what the deflater was given for messages before, [open] and [opened]
    the open messages of those that are given and of those that are written. *)
Definition writes_at (s : WebSocketDeflateStream) (input past : list Z) (op : OpCode) (data : list Z)
    (open opened : option (message_start * list Z)) (pending : list WebSocketFrame) : Prop :=
  let d := deflater_ s in
  match writing_state_ s with
  | WRITING_UNCOMPRESSED_MESSAGE =>
      opened = open ∧ pending = [] ∧ deflater_ok window_bits d input past ∧ deflate_buffer_ d = [] ∧ are_bytes_added_ d = false
  | WRITING_COMPRESSED_MESSAGE => ∃ z,
      sending (current_writing_opcode_ s) op z opened ∧ pending = [] ∧
      deflater_ok window_bits d (input ++ data) (past ++ z ++ deflate_buffer_ d)
  | WRITING_POSSIBLY_COMPRESSED_MESSAGE =>
      mode = DO_NOT_TAKE_OVER_CONTEXT ∧ opened = None ∧ current_writing_opcode_ s = op ∧ IsKnownDataOpCode op = true ∧
      op ≠ kOpCodeContinuation ∧ unfinished pending op data ∧ (pending = [] ↔ open = None) ∧
      deflater_ok window_bits d (input ++ data) (past ++ deflate_buffer_ d)
  | NOT_WRITING => False
  end.

(** The writer was given [given] and has written [out]. *)
Definition sends (s : WebSocketDeflateStream) (given out : session) (pending : list WebSocketFrame) : Prop :=
  let past := (plain out.1).2 in
  (plain out.1).1 = given.1 ∧ mode_ (deflater_ s) = mode ∧ ∃ input, (∃ d0, deflating window_bits Flushed d0 input past) ∧
  match writing_state_ s with
  | NOT_WRITING => given.2 = None ∧ out.2 = None ∧ pending = [] ∧ deflater_ok window_bits (deflater_ s) input past ∧
      deflate_buffer_ (deflater_ s) = [] ∧ are_bytes_added_ (deflater_ s) = false
  | _ => ∃ op data, given.2 = Some ((op, false, false, false), data) ∧ writes_at s input past op data given.2 out.2 pending
  end.

(** The state once a data frame is looked at. *)
Lemma sends_begun s given out pending f frames m :
  sends s given out pending → sendable f → IsKnownDataOpCode (opcode (frame_header f)) = true →
  belongs_to given.2 (frame_header f) = Some m →
  (writing_state_ s = WRITING_POSSIBLY_COMPRESSED_MESSAGE → ends_message (f :: frames) = true) →
  ∃ s0 input op data, (if bool_decide (writing_state_ s = NOT_WRITING) then OnMessageStart (f :: frames) s else Done s) = Done s0 ∧
    mode_ (deflater_ s0) = mode ∧ (∃ d0, deflating window_bits Flushed d0 input (plain out.1).2) ∧
    m = ((op, false, false, false), data) ∧ writes_at s0 input (plain out.1).2 op data given.2 out.2 pending ∧
    (writing_state_ s0 = WRITING_POSSIBLY_COMPRESSED_MESSAGE → ends_message (f :: frames) = true).
Proof.
  intros (Ep & Hm & input & Hd0 & Hs) (H1 & H23 & _) Hk Hb Hend. destruct (H23 Hk) as [H2 H3].
  destruct (decide (writing_state_ s = NOT_WRITING)) as [Ew|Ew].
  - rewrite bool_decide_eq_true_2 by done. rewrite Ew in Hs. destruct Hs as (Eo & Ew2 & -> & Hd & Hbuf & Ha).
    revert Hb. unfold belongs_to. rewrite Eo, Ew2. destruct (opcode (frame_header f) =? kOpCodeContinuation) eqn:Ec; [done|].
    intros [= <-]. assert (sending (opcode (frame_header f)) (opcode (frame_header f)) [] None) as Hsend by (unfold sending; by rewrite Ec).
    unfold OnMessageStart. cbn [current_writing_opcode_ set_field].
    pass_DCHECK ltac:(unfold IsKnownDataOpCode in Hk; rewrite Ec in Hk; exact Hk).
    cbn [predictor_ set_field]. destruct (Predict _ _) as [pr p'] eqn:Epr. exists (s <| current_writing_opcode_ := opcode (frame_header f) |>
      <| predictor_ := p' |> <| writing_state_ := match pr with DEFLATE => WRITING_COMPRESSED_MESSAGE
          | DO_NOT_DEFLATE => WRITING_UNCOMPRESSED_MESSAGE | TRY_DEFLATE => WRITING_POSSIBLY_COMPRESSED_MESSAGE end |>),
      input, (opcode (frame_header f)), []. split; [by destruct pr|]. split; [done|]. split; [done|].
    unfold start_of. rewrite H1, H2, H3. split; [done|]. unfold writes_at. destruct pr; cbn; rewrite ?Hbuf, ?app_nil_r.
    + split; [|done]. exists []. by rewrite !app_nil_r.
    + by split_and!.
    + apply (Predict_try (mode := mode)) in Epr as [Emode Hends]. split; [|intros _; exact Hends]. apply Z.eqb_neq in Ec. by split_and!.
  - rewrite bool_decide_eq_false_2 by done.
    assert (∃ op data, given.2 = Some ((op, false, false, false), data) ∧ writes_at s input (plain out.1).2 op data given.2 out.2 pending)
      as (op & data & Eo & Hw) by (by destruct (writing_state_ s)). exists s, input, op, data.
    revert Hb. unfold belongs_to. rewrite Eo in *. destruct (opcode (frame_header f) =? kOpCodeContinuation); [|done].
    intros [= <-]. by split_and!.
Qed.

(** ** One frame *)

Context (Hbits : 8 <= window_bits <= 15).

(** The reader's decoder gives what the deflater was given. *)
Lemma decoded_message input past data z op r2 r3 :
  (∃ d0, deflating window_bits Flushed d0 input past) →
  (∃ d1, deflating window_bits Flushed d1 (input ++ data) (past ++ z ++ sync_mark)) →
  plain_message past (DataMessage (op, true, r2, r3) z) = (DataMessage (op, false, r2, r3) data, past ++ z ++ sync_mark).
Proof.
  intros [d0 H0] [d1 H1]. apply inflate_deflate in H0 as [_ H0]; [|done]. apply inflate_deflate in H1 as [_ H1]; [|done].
  unfold plain_message, decoder0. by rewrite H0, H1, drop_app_length.
Qed.

Lemma flushed d input output : deflater_ok window_bits d input output → are_bytes_added_ d = false →
  ∃ d1, deflating window_bits Flushed d1 input output.
Proof. intros (x & _ & _ & Hd) Ha. rewrite Ha in Hd. by eexists. Qed.

Lemma uncompressed_written s given out f op data input pending :
  let h := frame_header f in
  (plain out.1).1 = given.1 → mode_ (deflater_ s) = mode → (∃ d0, deflating window_bits Flushed d0 input (plain out.1).2) →
  IsKnownDataOpCode (opcode h) = true → belongs_to given.2 h = Some ((op, false, false, false), data) →
  writing_state_ s = WRITING_UNCOMPRESSED_MESSAGE → writes_at s input (plain out.1).2 op data given.2 out.2 pending →
  pending = [] ∧ ∃ given1 out1, deliver_frame (Some given) (content f) = Some given1 ∧ deliver_frame (Some out) (content f) = Some out1 ∧
    sends (record_written f (if final h then s <| writing_state_ := NOT_WRITING |> else s)
             <| current_writing_opcode_ := kOpCodeContinuation |>) given1 out1 [].
Proof.
  intros h Ep Hm Hd0 Hk Hb Ew Hw. unfold writes_at in Hw. rewrite Ew in Hw. destruct Hw as (Eo & -> & Hd & Hbuf & Ha).
  split; [done|]. destruct given as [ms open], out as [ms' opened]. cbn [fst snd] in *. subst opened.
  unfold content. fold h. rewrite !deliver_data_frame, Hb by done. cbn [mbind option_bind].
  eexists _, _. split; [reflexivity|]. split; [reflexivity|]. unfold sends, with_data. destruct (final h); cbn [fst snd].
  - rewrite plain_snoc. cbn. rewrite Ep. split; [done|]. split; [done|]. by exists input.
  - split; [done|]. split; [done|]. exists input. split; [done|]. cbn. unfold writes_at. cbn. rewrite Ew. by eexists _, _.
Qed.

(** The frame with the compressed data. *)
Definition compressed_frame (h : WebSocketFrameHeader) (op : OpCode) (data : list Z) : WebSocketFrame :=
  {| frame_header := (CopyFrom h (new_WebSocketFrameHeader op)) <| opcode := op |> <| final := final h |>
       <| reserved1 := negb (op =? kOpCodeContinuation) |> <| payload_length := Z.of_nat (length data) |>;
     frame_data := Some data |}.

Lemma AppendCompressedFrame_spec h frames s input output :
  deflater_ok window_bits (deflater_ s) input output →
  ∃ s', AppendCompressedFrame h frames s =
      (frames ++ [compressed_frame h (current_writing_opcode_ s) (deflate_buffer_ (deflater_ s))], s') ∧
    deflater_ok window_bits (deflater_ s') input output ∧ deflate_buffer_ (deflater_ s') = [] ∧
    mode_ (deflater_ s') = mode_ (deflater_ s) ∧ are_bytes_added_ (deflater_ s') = are_bytes_added_ (deflater_ s) ∧
    writing_state_ s' = writing_state_ s ∧ current_writing_opcode_ s' = kOpCodeContinuation.
Proof.
  intros Hd. unfold AppendCompressedFrame.
  destruct (GetOutput_all window_bits (deflater_ s) _ _ Hd) as (d & -> & Hd' & Hb & Hm & Ha).
  eexists. by split_and!.
Qed.

Lemma AppendCompressedFrame_state (b : bool) h frames s frames' s' :
  (if b then AppendCompressedFrame h frames s else (frames, s)) = (frames', s') → writing_state_ s' = writing_state_ s.
Proof.
  destruct b; [|by intros [= <- <-]]. unfold AppendCompressedFrame. destruct (WebSocketDeflater.GetOutput _ _).
  by intros [= <- <-].
Qed.

Lemma compressed_delivers h cur op z b ms opened :
  sending cur op z opened → reserved2 h = false → reserved3 h = false →
  deliver_frame (Some (ms, opened)) (content (compressed_frame h cur b)) =
    Some (with_data h b ms ((op, true, false, false), z)).
Proof.
  intros Hs H2 H3. unfold content, sending in *. cbn [frame_header frame_data default compressed_frame].
  assert (IsKnownDataOpCode cur = true) as Hk by (by destruct (Z.eqb_spec cur kOpCodeContinuation) as [->|]; [|destruct Hs]).
  rewrite deliver_data_frame by done. unfold belongs_to, with_data, start_of. cbn. rewrite H2, H3.
  destruct (cur =? kOpCodeContinuation); [by rewrite Hs|]. by destruct Hs as (_ & -> & -> & ->).
Qed.

Lemma compressed_written s given out f op data input pending frames :
  let h := frame_header f in
  (plain out.1).1 = given.1 → mode_ (deflater_ s) = mode → (∃ d0, deflating window_bits Flushed d0 input (plain out.1).2) →
  sendable f → IsKnownDataOpCode (opcode h) = true → belongs_to given.2 h = Some ((op, false, false, false), data) →
  writing_state_ s = WRITING_COMPRESSED_MESSAGE → writes_at s input (plain out.1).2 op data given.2 out.2 pending →
  ∃ d, deflate_payload f (deflater_ s) = Done (true, d) ∧ pending = [] ∧
    let s1 := s <| deflater_ := d |> in
    ∃ new s2 given1 out1,
      (if (kChunkSize <=? WebSocketDeflater.CurrentOutputSize d) || final h
       then AppendCompressedFrame h frames s1 else (frames, s1)) = (frames ++ new, s2) ∧
      deliver_frame (Some given) (content f) = Some given1 ∧
      fold_left deliver_frame (map content new) (Some out) = Some out1 ∧
      sends (if final h then s2 <| writing_state_ := NOT_WRITING |> else s2) given1 out1 [].
Proof.
  intros h Ep Hm Hd0 Hf Hk Hb Ew Hw. unfold writes_at in Hw. rewrite Ew in Hw. destruct Hw as (z & Hsend & -> & Hd).
  destruct (deflate_payload_spec f (deflater_ s) _ _ Hf Hd) as (d & b & -> & Hmd & Hbuf & Hd1 & Hfin). exists d. split; [done|].
  split; [done|]. cbv zeta. destruct Hf as (H1 & H23 & _). destruct (H23 Hk) as [H2 H3]. set (s1 := s <| deflater_ := d |>).
  destruct given as [ms open], out as [ms' opened]. cbn [fst snd] in *. change (content f) with (h, payload f).
  rewrite deliver_data_frame, Hb by done. cbn [mbind option_bind]. set (past := (plain ms').2) in *.
  unfold mark_of in Hd1. fold h in Hd1, Hfin. destruct (orb _ _) eqn:Eg.
  - destruct (AppendCompressedFrame_spec h frames s1 _ _ Hd1) as (s2 & -> & Hd2 & Hb2 & Hm2 & Ha2 & Ew2 & Ec2).
    eexists [_], s2, _, _. split; [reflexivity|]. split; [reflexivity|]. cbn [map fold_left].
    rewrite (compressed_delivers h _ op z _ ms' opened Hsend H2 H3). split; [reflexivity|]. cbn [deflater_ s1 set_field] in *.
    cbn in Hm2, Ha2, Ew2. rewrite Hbuf. unfold sends, with_data. destruct (final h); cbn [fst snd].
    + destruct (Hfin eq_refl) as [Ha _]. rewrite plain_snoc.
      rewrite <- !app_assoc in Hd1, Hd2. assert (past ++ z ++ deflate_buffer_ (deflater_ s) ++ b ++ sync_mark =
        past ++ (z ++ deflate_buffer_ (deflater_ s) ++ b) ++ sync_mark) as Eassoc by (by rewrite <- !app_assoc).
      rewrite Eassoc in Hd1, Hd2.
      fold past. rewrite (decoded_message input past (data ++ payload f)); [|done|exact (flushed _ _ _ Hd1 Ha)]. cbn [fst snd]. rewrite Ep.
      split; [done|]. split; [cbn; congruence|]. exists (input ++ data ++ payload f). split; [exact (flushed _ _ _ Hd1 Ha)|].
      split_and!; [done|done|done|exact Hd2|exact Hb2|cbn; congruence].
    + split; [done|]. split; [congruence|]. exists input. split; [done|]. rewrite Ew2, Ew. eexists _, _. split; [reflexivity|].
      unfold writes_at. rewrite Ew2, Ew. eexists. rewrite Ec2, Hb2. split; [reflexivity|]. split; [done|].
      rewrite !app_nil_r, <- !app_assoc in *. exact Hd2.
  - apply orb_false_iff in Eg as [_ Ef]. rewrite Ef in *. eexists [], _, _, _. rewrite app_nil_r. split; [reflexivity|].
    split; [reflexivity|]. split; [reflexivity|]. unfold sends, with_data. rewrite Ef. cbn. split; [done|]. split; [congruence|].
    exists input. split; [done|]. rewrite Ew. eexists _, _. split; [reflexivity|]. unfold writes_at. cbn. rewrite Ew.
    exists z. split; [done|]. split; [done|]. rewrite Hbuf. rewrite !app_nil_r, <- !app_assoc in *. exact Hd1.
Qed.

Lemma record_written_keeps frames : ∀ s,
  let s' := fold_left (λ s frame, record_written frame s) frames s in
  deflater_ s' = deflater_ s ∧ writing_state_ s' = writing_state_ s.
Proof. induction frames as [|f frames IH]; intros s; [done|]. exact (IH (record_written f s)). Qed.

(** *** A message that may be compressed *)

Section Trying.
Context (pending : list WebSocketFrame) (op : OpCode) (data : list Z) (open : option (message_start * list Z)).
Context (Hu : unfinished pending op data) (Hiff : pending = [] ↔ open = None).
Context (f : WebSocketFrame) (Hk : IsKnownDataOpCode (opcode (frame_header f)) = true) (Hf : sendable f).
Context (Hb : belongs_to open (frame_header f) = Some ((op, false, false, false), data)).

(** The place of the next frame behind those that wait. *)
Lemma next_is_first :
  (if bool_decide (pending = []) then true else false) = negb (kOpCodeContinuation =? opcode (frame_header f)).
Proof.
  revert Hb. unfold belongs_to. rewrite (Z.eqb_sym kOpCodeContinuation). case_bool_decide as En.
  - rewrite (proj1 Hiff En). by destruct (_ =? _).
  - destruct open as [x|]; [|by destruct En; apply Hiff]. by destruct (_ =? _).
Qed.

Lemma next_delivers ms :
  fold_left deliver_frame (map content (pending ++ [f])) (Some (ms, None)) =
    Some (with_data (frame_header f) (payload f) ms ((op, false, false, false), data)).
Proof.
  destruct Hu as (_ & _ & Hd). destruct (Hd ms) as [E _]. rewrite map_app, fold_left_app.
  etrans; [exact (f_equal (λ st, deliver_frame st (content f)) E)|]. unfold content. rewrite deliver_data_frame by done.
  revert Hb. unfold belongs_to. case_bool_decide as En.
  - rewrite (proj1 Hiff En). destruct (_ =? _); [done|]. by intros ->.
  - destruct open as [x|]; [|by destruct En; apply Hiff]. destruct (_ =? _); [|done]. by intros [= ->].
Qed.

Lemma unfinished_snoc : final (frame_header f) = false → unfinished (pending ++ [f]) op (data ++ payload f).
Proof.
  intros Hfin. split; [|split].
  - apply pieces_snoc; [apply Hu|done|exact next_is_first|done].
  - apply Forall_app. split; [apply Hu|by constructor].
  - intros ms. split; [|by destruct pending]. rewrite next_delivers. unfold with_data. rewrite Hfin. cbn.
    rewrite bool_decide_eq_false_2; [done|by destruct pending].
Qed.

(** The smaller of the messages is written; the deflater goes on from what was written. *)
Lemma AppendPossibly_spec s ms (out : session) input frames d b :
  let past := (plain out.1).2 in
  (plain out.1).1 = ms → mode_ d = mode → (∃ d0, deflating window_bits Flushed d0 input past) →
  final (frame_header f) = true → out.2 = None → op ≠ kOpCodeContinuation → IsKnownDataOpCode op = true →
  current_writing_opcode_ s = op → deflater_ s = d →
  deflate_buffer_ d = b → are_bytes_added_ d = false →
  deflater_ok window_bits d (input ++ data ++ payload f) (past ++ b ++ sync_mark) → deflater_ok window_bits d input past →
  ∃ new s2 out1, AppendPossiblyCompressedMessage (pending ++ [f]) frames s = Done (frames ++ new, s2) ∧
    fold_left deliver_frame (map content new) (Some out) = Some out1 ∧
    sends (s2 <| writing_state_ := NOT_WRITING |>) (ms ++ [DataMessage (op, false, false, false) (data ++ payload f)], None) out1 [].
Proof.
  intros past Ep Hm Hd0 Hfin Eo Hne Hko Ecur Eds Hbuf Ha Hd1 Hd2. unfold AppendPossiblyCompressedMessage.
  assert (∃ first rest, pending ++ [f] = first :: rest ∧ reserved2 (frame_header first) = false ∧ reserved3 (frame_header first) = false)
    as (first & rest & El & H2 & H3).
  { assert (∀ x, sendable x → IsKnownDataOpCode (opcode (frame_header x)) = true →
      reserved2 (frame_header x) = false ∧ reserved3 (frame_header x) = false) as Hx by (by intros x (_ & H23 & _)).
    pose proof (Hx f Hf Hk). destruct Hu as (Hpc & Hsp & _). destruct pending as [|f0 rest]; [by exists f, []|].
    exists f0, (rest ++ [f]). apply Forall_cons_1 in Hsp as [Hsp _]. destruct Hpc as [Hk0 _]. split; [done|]. by apply Hx. }
  rewrite El, Eds, Ecur.
  destruct (GetOutput_all window_bits d _ _ Hd1) as (d3 & E3 & Hd31 & Hb3 & Hm3 & Ha3).
  destruct (GetOutput_all window_bits d _ _ Hd2) as (d4 & E4 & Hd32 & _). rewrite E3 in E4. injection E4 as <-.
  rewrite E3. destruct out as [ms' opened]. cbn [fst snd] in *. subst opened.
  destruct (original_length_done pending true f 0 (proj1 Hu) Hk next_is_first Hfin) as [total Etot].
  rewrite El in Etot. rewrite Etot, Done_bind. destruct (total <=? _).
  - rewrite <- El. eexists _, _, _. split; [reflexivity|]. split; [apply next_delivers|].
    unfold with_data. rewrite Hfin. unfold sends. cbn [fst snd].
    match goal with |- context [fold_left _ _ ?s0] => destruct (record_written_keeps (pending ++ [f]) s0) as [Ed Ew] end.
    cbn in Ed. rewrite plain_snoc. cbn. rewrite Ed, Ep. split; [done|]. split; [congruence|]. exists input. split; [done|].
    split_and!; [done|done|done|exact Hd32|exact Hb3|congruence].
  - eexists [_], _, _. split; [reflexivity|]. cbn [map fold_left]. unfold content. cbn [frame_header frame_data default].
    rewrite deliver_data_frame by done. unfold belongs_to. cbn [opcode set_field].
    assert (op =? kOpCodeContinuation = false) as Ec by (by apply Z.eqb_neq). cbn. rewrite Ec. cbn. split; [reflexivity|].
    unfold sends, with_data, start_of. cbn [fst snd final set_field frame_header]. rewrite plain_snoc.
    cbn -[plain_message]. rewrite H2, H3, Hbuf.
    rewrite (decoded_message input past (data ++ payload f)); [|done|exact (flushed _ _ _ Hd1 Ha)]. cbn. rewrite Ep.
    split; [done|]. split; [congruence|]. exists (input ++ data ++ payload f). split; [exact (flushed _ _ _ Hd1 Ha)|].
    split_and!; [done|done|done|exact Hd31|exact Hb3|congruence].
Qed.
End Trying.

Lemma possibly_written s (given out : session) f op data input pending frames :
  let h := frame_header f in
  (plain out.1).1 = given.1 → mode_ (deflater_ s) = mode → (∃ d0, deflating window_bits Flushed d0 input (plain out.1).2) →
  sendable f → IsKnownDataOpCode (opcode h) = true → belongs_to given.2 h = Some ((op, false, false, false), data) →
  writing_state_ s = WRITING_POSSIBLY_COMPRESSED_MESSAGE → writes_at s input (plain out.1).2 op data given.2 out.2 pending →
  ∃ d given1, deflate_payload f (deflater_ s) = Done (true, d) ∧ deliver_frame (Some given) (content f) = Some given1 ∧
    let s1 := s <| deflater_ := d |> in
    if final h
    then ∃ new s2 out1, AppendPossiblyCompressedMessage (pending ++ [f]) frames s1 = Done (frames ++ new, s2) ∧
      fold_left deliver_frame (map content new) (Some out) = Some out1 ∧
      sends (s2 <| writing_state_ := NOT_WRITING |>) given1 out1 []
    else sends s1 given1 out (pending ++ [f]).
Proof.
  intros h Ep Hm Hd0 Hf Hk Hb Ew Hw. unfold writes_at in Hw. rewrite Ew in Hw.
  destruct Hw as (Hmode & Eo & Ecur & Hko & Hne & Hu & Hiff & Hd).
  destruct (deflate_payload_spec f (deflater_ s) _ _ Hf Hd) as (d & b & -> & Hmd & Hbuf & Hd1 & Hfin).
  destruct given as [ms open]. cbn [fst snd] in *. exists d, (with_data h (payload f) ms ((op, false, false, false), data)).
  split; [done|]. change (content f) with (h, payload f). rewrite deliver_data_frame, Hb by done. split; [done|].
  unfold mark_of in Hd1. fold h in Hd1, Hfin. unfold with_data. destruct (final h) eqn:Ef; cbv zeta; cbn [fst snd].
  - destruct (Hfin eq_refl) as [Ha Hreset]. destruct Hd0 as [d0 Hd0].
    apply (AppendPossibly_spec pending op data open Hu Hiff f Hk Hf Hb (s <| deflater_ := d |>) ms out input frames d (deflate_buffer_ d));
      [done|congruence|by exists d0|done|done|done|done|done|done|done|done| |].
    + rewrite Hbuf, <- !app_assoc in *. exact Hd1.
    + apply (Hreset ltac:(congruence) d0). exact Hd0.
  - unfold sends. cbn [fst snd]. split; [done|]. split; [cbn; congruence|]. exists input. split; [done|]. cbn. rewrite Ew.
    exists op, (data ++ payload f). split; [done|]. unfold writes_at. cbn. rewrite Ew. split_and!; try done.
    + by apply (unfinished_snoc pending op data open Hu Hiff f Hk Hf Hb).
    + split; [|done]. by destruct pending.
    + rewrite Hbuf. rewrite !app_nil_r, <- !app_assoc in *. exact Hd1.
Qed.

(** ** All frames *)

Lemma ends_message_later f frames :
  IsKnownDataOpCode (opcode (frame_header f)) && final (frame_header f) = false →
  ends_message (f :: frames) = true → ends_message frames = true.
Proof. unfold ends_message. cbn [existsb]. by intros ->. Qed.

(** What an induction over the frames gives for the frames behind the first. *)
Definition deflates (written0 given' : session) (frames out pending : list WebSocketFrame) (s : WebSocketDeflateStream) : Prop :=
  ∃ out' s' written', deflate_frames frames out pending s = Done (OK, out', s') ∧
    fold_left deliver_frame (map content out') (Some written0) = Some written' ∧ sends s' given' written' [].

Lemma sends_ext s s' given out pending :
  deflater_ s' = deflater_ s → writing_state_ s' = writing_state_ s → current_writing_opcode_ s' = current_writing_opcode_ s →
  sends s given out pending → sends s' given out pending.
Proof. unfold sends, writes_at. by intros -> -> ->. Qed.

Lemma deflate_frames_sends written0 given' frames : ∀ given out pending s written,
  fold_left deliver_frame (map content out) (Some written0) = Some written → sends s given written pending →
  Forall sendable frames → fold_left deliver_frame (map content frames) (Some given) = Some given' →
  (writing_state_ s = WRITING_POSSIBLY_COMPRESSED_MESSAGE → ends_message frames = true) →
  deflates written0 given' frames out pending s.
Proof.
  induction frames as [|f frames IH]; intros given out pending s written Eout Hs Hf Hd Hend; unfold deflates; cbn [deflate_frames].
  { injection Hd as <-. pass_DCHECK ltac:(apply negb_true_iff, bool_decide_eq_false; intros E; by specialize (Hend E)).
    assert (pending = []) as ->; [|by eexists _, _, _]. destruct Hs as (_ & _ & input & _ & Hs). unfold writes_at in Hs.
    destruct (writing_state_ s); [by destruct Hs as (? & ? & _ & ? & _ & ? & _)|by destruct Hs as (? & ? & _ & _ & ? & _)
      |by specialize (Hend eq_refl)|by destruct Hs as (_ & _ & ? & _)]. }
  apply Forall_cons_1 in Hf as [Hf Hfs]. pose proof Hf as (Hr1 & _). rewrite Hr1. cbn [negb]. rewrite DCHECK_true_bind.
  cbn [map fold_left] in Hd. destruct (deliver_frame (Some given) (content f)) as [given1|] eqn:E1; [|by rewrite deliver_None in Hd].
  assert (∀ s1 new pending1 written1, fold_left deliver_frame (map content new) (Some written) = Some written1 →
    sends s1 given1 written1 pending1 → (writing_state_ s1 = WRITING_POSSIBLY_COMPRESSED_MESSAGE → ends_message frames = true) →
    deflates written0 given' frames (out ++ new) pending1 s1) as Hnext.
  { intros s1 new pending1 written1 Enew Hs1 Hend1. apply (IH given1 _ _ _ written1); try done. by rewrite map_app, fold_left_app, Eout. }
  unfold deflates in Hnext. destruct (IsKnownDataOpCode (opcode (frame_header f))) eqn:Hk; cbn [negb]; cycle 1.
  { destruct given as [ms open], written as [ms' opened]. pose proof E1 as E2. apply deliver_other_frame in E2 as ->; [|done].
    eapply (Hnext s [f]); [by apply (deliver_control_alike ms open ms' opened _ _ E1 Hk)| |].
    - destruct Hs as (Ep & Hm & Hs). unfold sends. cbn [fst snd] in *. rewrite plain_snoc. cbn. rewrite Ep. done.
    - intros Ew. apply (ends_message_later f); [by rewrite Hk|auto]. }
  destruct (belongs_to given.2 (frame_header f)) as [m|] eqn:Eb; cycle 1.
  { destruct given as [ms open]. unfold content in E1. cbn [snd] in Eb. by rewrite deliver_data_frame, Eb in E1. }
  destruct (sends_begun s given written pending f frames m Hs Hf Hk Eb Hend)
    as (s0 & input & op & data & -> & Hm0 & Hd0 & -> & Hw & Hend0). rewrite Done_bind. cbv beta zeta.
  destruct Hs as (Ep & _ & _). set (s0' := s0 <| predictor_ := _ |>).
  assert (writing_state_ s0' = writing_state_ s0) as Ew0 by done.
  assert (deflater_ s0' = deflater_ s0) as Ed0 by done.
  assert (writes_at s0' input (plain written.1).2 op data given.2 written.2 pending) as Hw' by exact Hw.
  assert (mode_ (deflater_ s0') = mode) as Hm0' by exact Hm0.
  destruct (writing_state_ s0) eqn:Ew; rewrite Ew0.
  - rewrite bool_decide_eq_false_2 by done.
    destruct (compressed_written s0' given written f op data input pending out)
      as (d & -> & -> & new & s2 & given2 & written2 & E3 & E2 & Enew & Hs2); [done..|].
    rewrite Done_bind. cbn [fst snd negb]. set (s1 := s0' <| deflater_ := d |>) in *.
    rewrite bool_decide_eq_true_2 by exact Ew. change (deflater_ s1) with d. rewrite E3.
    assert (Some given2 = Some given1) as [= ->] by (rewrite <- E2; exact E1). eapply (Hnext _ new); [exact Enew|exact Hs2|].
    intros Ew2. apply AppendCompressedFrame_state in E3. destruct (final (frame_header f)); [done|].
    cbn in E3. rewrite Ew in E3. congruence.
  - rewrite bool_decide_eq_true_2 by done.
    destruct (uncompressed_written s0' given written f op data input pending) as (-> & given2 & written2 & E2 & E3 & Hs2); [done..|].
    assert (Some given2 = Some given1) as [= ->] by (rewrite <- E2; exact E1). eapply (Hnext _ [f]); [exact E3|exact Hs2|].
    intros Ew2. apply (ends_message_later f); [|apply Hend]; destruct (final (frame_header f)); try done; cbn in Ew2; congruence.
  - rewrite bool_decide_eq_false_2 by done.
    destruct (possibly_written s0' given written f op data input pending out) as (d & given2 & -> & E2 & Hs2); [done..|].
    rewrite Done_bind. cbn [fst snd negb]. set (s1 := s0' <| deflater_ := d |>) in *.
    rewrite (bool_decide_eq_false_2 (writing_state_ s1 = WRITING_COMPRESSED_MESSAGE))
      by (intros E; change (writing_state_ s1) with (writing_state_ s0) in E; congruence). pass_DCHECK ltac:(by apply bool_decide_eq_true_2).
    assert (Some given2 = Some given1) as [= ->] by (rewrite <- E2; exact E1). destruct (final (frame_header f)) eqn:Ef.
    + destruct Hs2 as (new & s2 & written2 & -> & Enew & Hs2). rewrite Done_bind. cbn [fst snd]. by eapply (Hnext _ new).
    + rewrite <- (app_nil_r out). eapply (Hnext _ []); [done|exact Hs2|]. intros _. apply (ends_message_later f); [by rewrite Hk, Ef|auto].
  - unfold writes_at in Hw. by rewrite Ew in Hw.
Qed.
End Writing.

(** ** The round trip *)

Section RoundTrip.
Context {Hz : Zlib} {Hp : WebSocketDeflatePredictor}.

Lemma deflate_frames_end frames : ∀ out pending s out' s',
  deflate_frames frames out pending s = Done (OK, out', s') → writing_state_ s' ≠ WRITING_POSSIBLY_COMPRESSED_MESSAGE.
Proof.
  induction frames as [|f frames IH]; intros out pending s out' s' H; cbn [deflate_frames] in H.
  { apply bind_done in H as ([] & H0 & H). injection H as <- <-. apply DCHECK_done, negb_true_iff in H0.
    by apply bool_decide_eq_false in H0. }
  apply bind_done in H as (_ & _ & H). destruct (negb _); [by eapply IH|].
  apply bind_done in H as (s0 & _ & H). case_bool_decide; [by apply IH in H|].
  apply bind_done in H as ([ok d] & _ & H). destruct ok; cbn [fst snd negb] in H; [|by injection H].
  case_bool_decide.
  - match type of H with context [let '(_, _) := ?e in _] => destruct e as [w s1] end. by apply IH in H.
  - apply bind_done in H as (_ & _ & H). destruct (final _); [|by apply IH in H].
    apply bind_done in H as ([out1 s1] & _ & H). by apply IH in H.
Qed.

(** Calls of [WriteFrames] one after the other, and the frames that the other stream gets. *)
Fixpoint write_batches (batches : list (list WebSocketFrame)) (s : WebSocketDeflateStream) :
    outcome (option (list WebSocketFrame * WebSocketDeflateStream)) :=
  match batches with
  | [] => Done (Some ([], s))
  | b :: batches =>
      r ← WriteFrames b OK s;
      let '(result, frames, s) := r : Z * list WebSocketFrame * WebSocketDeflateStream in
      if negb (result =? OK) then Done None
      else
        r ← write_batches batches s;
        Done match r with Some (more, s) => Some (frames ++ more, s) | None => None end
  end.

(** A message that the predictor tries is all in its batch; others may go on in the next. *)
Context {Hl : ZlibLaws} (window_bits : Z) (mode : ContextTakeOverMode) {Hpl : PredictorLaws mode}
  (Hbits : 8 <= window_bits <= 15).

Lemma WriteFrames_sends b s given out given' :
  sends window_bits mode s given out [] → writing_state_ s ≠ WRITING_POSSIBLY_COMPRESSED_MESSAGE →
  Forall sendable b → fold_left deliver_frame (map content b) (Some given) = Some given' →
  ∃ frames s' out', WriteFrames b OK s = Done (OK, frames, s') ∧
    fold_left deliver_frame (map content frames) (Some out) = Some out' ∧ sends window_bits mode s' given' out' [] ∧
    writing_state_ s' ≠ WRITING_POSSIBLY_COMPRESSED_MESSAGE.
Proof.
  intros Hs Hw Hb Hd. unfold WriteFrames, Deflate.
  destruct (deflate_frames_sends window_bits mode Hbits out given' b given [] [] s out) as (frames & s' & out' & E & Eout & Hs');
    [done..|]. rewrite E, Done_bind. cbn [Z.eqb OK negb].
  assert (writing_state_ s' ≠ WRITING_POSSIBLY_COMPRESSED_MESSAGE) as Hw'.
  { intros Ew. by apply (deflate_frames_end b [] [] s frames s') in E. }
  case_bool_decide as En; [subst frames|]; by eexists _, s', out'.
Qed.

Lemma write_batches_sends batches : ∀ s given out given',
  sends window_bits mode s given out [] → writing_state_ s ≠ WRITING_POSSIBLY_COMPRESSED_MESSAGE →
  Forall (Forall sendable) batches → fold_left deliver_frame (map content (concat batches)) (Some given) = Some given' →
  ∃ written s' out', write_batches batches s = Done (Some (written, s')) ∧
    fold_left deliver_frame (map content written) (Some out) = Some out' ∧ sends window_bits mode s' given' out' [].
Proof.
  induction batches as [|b batches IH]; intros s given out given' Hs Hw Hb Hd; cbn [write_batches].
  { injection Hd as <-. by eexists [], s, out. }
  apply Forall_cons_1 in Hb as [Hb Hbs]. cbn [concat] in Hd. rewrite map_app, fold_left_app in Hd.
  destruct (fold_left deliver_frame (map content b) (Some given)) as [given1|] eqn:E1; [|by rewrite deliver_None in Hd].
  destruct (WriteFrames_sends b s given out given1 Hs Hw Hb E1) as (frames & s1 & out1 & -> & Eout & Hs1 & Hw1).
  rewrite Done_bind. cbn [Z.eqb OK negb]. destruct (IH s1 given1 out1 given' Hs1 Hw1 Hbs Hd) as (more & s2 & out2 & -> & Emore & Hs2).
  rewrite Done_bind. exists (frames ++ more), s2, out2. split; [done|]. by rewrite map_app, fold_left_app, Eout.
Qed.

(** At the end of a message all is written, and none of it is corrupt. *)
Lemma sends_whole s messages out :
  sends window_bits mode s (messages, None) out [] →
  (plain out.1).1 = messages ∧ out.2 = None ∧ intact decoder0 (compressed_bytes out).
Proof.
  intros (Ep & _ & input & [d0 Hd0] & Hs). split; [done|]. assert (out.2 = None) as Eo.
  { destruct (writing_state_ s); by destruct Hs as (? & ? & Hs & _). }
  split; [done|]. unfold compressed_bytes. rewrite Eo. cbn [open_bytes]. rewrite app_nil_r.
  by apply inflate_deflate in Hd0 as [Hi _].
Qed.
End RoundTrip.

Lemma new_stream_sends {Hz : Zlib} {Hl : ZlibLaws} {Hp : WebSocketDeflatePredictor} params message p :
  IsValidAsResponse params = Done (true, message) →
  ∃ s, new_WebSocketDeflateStream params p = Done s ∧ writing_state_ s ≠ WRITING_POSSIBLY_COMPRESSED_MESSAGE ∧
    sends (PermissiveClientMaxWindowBits params) (client_context_take_over_mode_ params) s ([], None) ([], None) [].
Proof.
  intros Hv. destruct (new_stream_spec params message p Hv) as (s & E & _ & Ew & _ & _ & _ & _ & Hd & Hbuf & Ha & Hm).
  exists s. split; [done|]. rewrite Ew. split; [done|]. unfold sends. rewrite Ew. cbn. split; [done|]. split; [done|].
  exists []. split; [|by split_and!]. by eapply flushed.
Qed.

(** [C5] Messages survive permessage-deflate.  A stream whose parameters are valid as a
    response is given frames below 4 GB, in any batches, that make up messages and have no
    reserved bits.  With any implementation of zlib and any predictor that keep their
    contracts, with or without context takeover and with any window, every [WriteFrames]
    returns [OK], no check failing.  If what it passes on reaches another such stream with the
    same messages, cut into other frames and batches perhaps, a caller that reads until this
    stream waits gets frames that make up exactly the messages that were given. *)
Theorem compressed_messages_survive {Hz : Zlib} {Hl : ZlibLaws} {Hp Hp' : WebSocketDeflatePredictor}
    (params params' : WebSocketDeflateParameters) {Hpl : PredictorLaws (Hp := Hp) (client_context_take_over_mode_ params)}
    (message message' : list Z) (p : predictor (WebSocketDeflatePredictor := Hp)) (p' : predictor (WebSocketDeflatePredictor := Hp'))
    (batches : list (list WebSocketFrame)) (messages : list WebSocketMessages.message) :
  IsValidAsResponse params = Done (true, message) → IsValidAsResponse params' = Done (true, message') →
  Forall (Forall sendable) batches → deliver (map content (concat batches)) = Some (messages, None) →
  ∃ written sender carried,
    (s ← new_WebSocketDeflateStream params p; write_batches batches s) = Done (Some (written, sender)) ∧
    deliver (map content written) = Some carried ∧
    ∀ read, Forall (λ b, b ≠ [] ∧ Forall tidy b) read → deliver (map content (concat read)) = Some carried →
      ∃ frames receiver,
        (s ← new_WebSocketDeflateStream params' p'; read_all_inflated (S (length read)) (answers_of read) [] s)
          = Done (Some (ERR_IO_PENDING, frames, receiver)) ∧
        deliver (map content frames) = Some (messages, None).
Proof.
  intros Hv Hv' Hb Hd. destruct (response_bits _ _ Hv) as [Hbits _].
  destruct (new_stream_sends params message p Hv) as (s & -> & Hw & Hs). rewrite Done_bind.
  destruct (write_batches_sends _ _ Hbits batches s _ _ _ Hs Hw Hb Hd) as (written & s' & carried & -> & Ecar & Hs').
  apply (sends_whole _ _ Hbits) in Hs' as (Ep & Eo & Hi). exists written, s', carried. split; [done|]. split; [exact Ecar|].
  intros read Hr Hdr. destruct (new_stream_spec params' message' p' Hv') as (r & Er & _). rewrite Er, Done_bind.
  destruct (messages_inflated params' message' p' r read carried Hv' Er) as (frames & r' & open & Eread & Ed & Hopen).
  { split; [done|]. by split. }
  exists frames, r'. split; [done|]. etrans; [exact Ed|]. by rewrite Ep, (Hopen Eo).
Qed.

(** ** A concrete conversation *)

Definition no_takeover : WebSocketDeflateParameters := SetClientNoContextTakeOver new_WebSocketDeflateParameters.

(** A message in two frames with a ping between them, one that does not get smaller, and one
    in two batches. *)
Definition example_batches : list (list WebSocketFrame) :=
  [ [data_frame kOpCodeText false [7; 7; 7; 7; 7; 7; 7; 7; 7; 7]; data_frame kOpCodePing true [1];
     data_frame kOpCodeContinuation true [7; 7; 8]; data_frame kOpCodeBinary true [1; 2; 3]];
    [data_frame kOpCodeText false [9; 9]]; [data_frame kOpCodeContinuation true [9]] ].
Definition example_session : list WebSocketMessages.message :=
  [ ControlMessage (kOpCodePing, false, false, false) [1];
    DataMessage (kOpCodeText, false, false, false) [7; 7; 7; 7; 7; 7; 7; 7; 7; 7; 7; 7; 8];
    DataMessage (kOpCodeBinary, false, false, false) [1; 2; 3];
    DataMessage (kOpCodeText, false, false, false) [9; 9; 9] ].

Definition trying : WebSocketDeflatePredictor := TryingPredictor DO_NOT_TAKE_OVER_CONTEXT.

Definition sent_frames : outcome (option (list (WebSocketFrameHeader * list Z))) :=
  s ← new_WebSocketDeflateStream (Hz := Runs.codec) (Hp := trying) no_takeover tt;
  r ← write_batches (Hz := Runs.codec) (Hp := trying) example_batches s;
  Done match r with Some (written, _) => Some (map content written) | None => None end.

(** The first message is the only one that is compressed. *)
Example example_sent :
  (r ← sent_frames; Done (option_map (map (λ f, (reserved1 f.1, f.2))) r)) =
  Done (Some [ (false, [1]); (true, [10; 7; 2; 7; 1; 8; 0]); (false, [1; 2; 3]); (false, [9; 9]); (false, [9]) ]).
Proof. vm_compute. reflexivity. Qed.

(** What is read after the compressed frame was cut in the middle of a run. *)
Definition example_read : list (list WebSocketFrame) :=
  [ [data_frame kOpCodePing true [1]; compressed_part kOpCodeText false true [10]];
    [compressed_part kOpCodeContinuation true false [7; 2; 7; 1; 8; 0]; data_frame kOpCodeBinary true [1; 2; 3]];
    [data_frame kOpCodeText true [9; 9; 9]] ].

Example example_received :
  (s ← new_WebSocketDeflateStream (Hz := Runs.codec) (Hp := WebSocketDeflatePredictorImpl) new_WebSocketDeflateParameters tt;
   r ← read_all_inflated 4 (answers_of example_read) [] s;
   Done match r with Some (result, frames, _) => Some (result, deliver (map content frames)) | None => None end)
  = Done (Some (ERR_IO_PENDING, Some (example_session, None))).
Proof. vm_compute. reflexivity. Qed.

Lemma compressed_messages_survive_witness :
  ∃ written sender carried,
    (s ← new_WebSocketDeflateStream (Hz := Runs.codec) (Hp := trying) no_takeover tt;
     write_batches example_batches s) = Done (Some (written, sender)) ∧
    deliver (map content written) = Some carried ∧
    ∀ read, Forall (λ b, b ≠ [] ∧ Forall tidy b) read → deliver (map content (concat read)) = Some carried →
      ∃ frames receiver,
        (s ← new_WebSocketDeflateStream (Hz := Runs.codec) (Hp := WebSocketDeflatePredictorImpl) new_WebSocketDeflateParameters tt;
         read_all_inflated (S (length read)) (answers_of read) [] s) = Done (Some (ERR_IO_PENDING, frames, receiver)) ∧
        deliver (map content frames) = Some (example_session, None).
Proof.
  apply (compressed_messages_survive (Hz := Runs.codec) (Hl := Runs.codec_laws) (Hp := trying)
    (Hp' := WebSocketDeflatePredictorImpl) no_takeover new_WebSocketDeflateParameters
    (Hpl := TryingPredictor_laws DO_NOT_TAKE_OVER_CONTEXT) [] [] tt tt example_batches example_session).
  - vm_compute. reflexivity.
  - vm_compute. reflexivity.
  - apply (bool_decide_eq_true_1 _). vm_compute. reflexivity.
  - vm_compute. reflexivity.
Defined.

(** A continuation without a first frame does not get past the check of [OnMessageStart]. *)
Example lone_continuation_fails_check :
  (s ← new_WebSocketDeflateStream (Hz := Runs.codec) (Hp := WebSocketDeflatePredictorImpl) new_WebSocketDeflateParameters tt;
   r ← WriteFrames (Hz := Runs.codec) (Hp := WebSocketDeflatePredictorImpl) [data_frame kOpCodeContinuation true [1]] OK s;
   Done (fst (fst r))) = DcheckFailed.
Proof. vm_compute. reflexivity. Qed.
